(* ===== verification/_CoqProject ===== *)
-Q . S2P
Prelude.v
Runtime.v
Engine.v
Codec.v
ArrayEngine.v
HashEngine.v
SkipList.v
RbTree.v
RbDelete.v
RbEngine.v
Allocator.v
PoolSteps.v
PoolRuntime.v
Kvengine.v
Buffer.v
Os.v
Uring.v
Rdma.v
MappedFile.v
Aof.v
SnapshotIo.v
SnapshotFormat.v
SnapshotStore.v
SnapshotLoad.v
Kvstore.v
RepState.v
Execute.v
Server.v
Config.v
Network.v
Listen.v
Clients.v
Replication.v
ReplicationLines.v
ReplicaSync.v
ReplicaFollow.v
PrimarySync.v
PrimaryStart.v
Main.v
