(* ===== verification/Prelude.v ===== *)
(** 91kvstore: a key-value server with four storage engines, an append-only log,
    binary snapshots, its own memory allocator and replication over TCP and RDMA.

    * The program

    A connection is served by a coroutine that receives bytes, hands them to a message
    handler and sends the replies (src/network/).  The handler of clients parses a
    length-prefixed command (src/protocol/), executes it on one of four engines
    (src/kvstore.c, src/engines/), appends a write to the log (src/persistence/aof.c) and
    encodes the reply.  SAVE writes the engines to a snapshot file
    (src/persistence/snapshot_store.c); files are written by batches of io_uring requests
    (uring_io.c) and read through mappings (mapped_file.c).  At start-up the snapshot is
    loaded and the log behind it replayed.  A replica asks its primary for a snapshot,
    which arrives over RDMA, and then follows the primary's log over TCP
    (src/replication/, snapshot_io.c).  Every block comes from the allocator of
    src/memory/.

    * How C is written here

    A C function is a function into the monad [M S], of a state [S]: it returns a
    result,
    ends the process ([Halt]: [exit], [abort], or a system that ends it), or is undefined
    ([UB]: a wild pointer, an index out of range, a signed overflow, an uninitialised value
    read, a loop that outlives its bound).  [wp m s Q] says that [m] started in [s] returns and [Q] holds then; [wpx]
    has a second condition, for the states in which the process may end.  Neither holds
    of an undefined run, so every theorem about a function also says that it is free of
    undefined behaviour.  Integers are [Z] with the bounds of their C types (LP64) and
    the wrap-around written out; bytes are [ascii]; a string with its terminator is
    [cstr].  The allocator is the interface [CRuntime] with the observation of the live
    blocks; [owns own F w] states that the live blocks are exactly the distinct ones of the list
    [own] and those of the frame [F], so that postconditions exclude leaks and double frees.

    * The parts

    - Prelude: bytes, bounds, the monad and its rules, the runtime's interface, ownership,
      lemmas and tactics.  Runtime: a concrete runtime on which definitions are executed.
    - Engine: the contract [EngineLaws] of a storage engine as a class.  ArrayEngine,
      HashEngine, SkipList, and RbTree, RbDelete and RbEngine: src/engines/kvs_array.c,
      kvs_hash.c, kvs_skiplist.c and kvs_rbtree.c, each with its data structure, its
      invariant and its instance of the contract.  Kvengine: the four engines of the
      server together (init_kvengine and dest_kvengine of src/kvstore.c), for any four
      types that meet the contract.
    - Allocator, PoolSteps, PoolRuntime: src/memory/kvs_allocator.c; the last shows that
      it is a runtime in the sense of [CRuntime].
    - Codec: src/protocol/codec.c.  Buffer: src/network/buffer.c.
    - Os: files, descriptors and the requests of uring_io.c as an interface, and an
      in-memory system that meets its laws.  Uring: src/persistence/uring_io.c over
      io_uring, which implements the laws of the requests.  MappedFile: mapped_file.c.
      Aof: aof.c.  SnapshotIo: snapshot_io.c.  SnapshotFormat, SnapshotStore,
      SnapshotLoad: snapshot_store.c: the format and its validation, saving, loading.
    - Kvstore: the definitions of src/kvstore.c from the command table to recovery;
      Execute and Server prove the executor, the handlers, recovery and the installation
      of a snapshot.
    - Rdma: include/rdma_transport.h as an interface.  RepState, Replication: the state and
      the functions of src/replication/replication.c.  ReplicationLines: the lines of the
      control connection.  ReplicaSync, ReplicaFollow: a replica during and behind the
      full synchronisation.  PrimarySync, PrimaryStart: the primary's.
    - Network: the read coroutine of src/network/ntyco.c with its receiving and sending
      loops, for any message handler that keeps the contract [MessageServer].  Clients:
      the connections of clients, where that handler is [kvs_network_protocol].
    - Config: src/config/config.c.

    Definitions carry the names of the C functions; a part of a long function is a
    definition of its own whose comment names the part.  State is a record per component
    ([kvs_hash_t], [aof_writer_t], [replication_manager], ...), composed by [zoom] into
    the persistence layer [pworld], the [server] of Kvstore and the [node] of RepState.

    * What the theorems show

    - Engines: from creation on, any sequence of operations of each engine gives the
      results of a finite map and leaves no block behind; the red-black tree stays
      balanced and its search ends; the hash engine reads outside its table exactly for
      keys with a negative sum of characters.
    - Allocator: a block returned lies in no other block, is aligned, and its region is
      returned when it is free; wrong pointers, double frees and frees of another back
      end's pointers are refused.  An engine run on it behaves as specified.
    - Codec: the parser accepts exactly the grammar, and decodes what is encoded.
    - Persistence: an append is written behind the log or the log is as it was; a replay
      hands over the records in order; a save replaces the snapshot in one step; a file is
      accepted exactly if it is of the format; a load restores what was saved; a batch of
      requests writes its blocks as if one after another, and no request is in flight
      when a function returns.
    - Server: the exact effect and reply of every command; every change of data is in the
      log before the reply; after a restart, in each mode, the data is what it was.
      Connections: the messages of a client are handled in order, each once, and their
      replies are sent in order, however the network divides the bytes.
    - Replication: a replica installs exactly the snapshot sent, executes exactly the
      commands of the log, in order, and ends with the primary's log behind its own; the
      primary sends the snapshot in acknowledged pieces and each byte of the log once.

    * Bounds

    Loops are structural where the data is; loops on pointers have a bound (the number of
    nodes of the heap), loops around system calls have one from the bytes left, the time
    left, and the interruptions to come ([interruptions] of Os and the like); running out of
    it is undefined, so that the theorems show it enough.  The read coroutine does not
    end while its peer does not close, and is modelled by its turns.

    * Interfaces and what is not modelled

    Interfaces, with laws that state documented behaviour and a concrete instance each:
    [malloc] and [rand] ([CRuntime]), [mmap] ([VirtualMemory]), files (Os), liburing
    (Uring), the RDMA transport (Rdma), [inet_pton] (Config), NtyCo, the sockets and the
    clock (Network).

    Not modelled: src/network/rdma_transport.c, which is the use of librdmacm and
    libibverbs; the coroutines that accept and open connections, the start of the
    listeners and [main]; src/log/log.c and the messages on standard error; functions
    that only print an engine.  Threads do not occur; coroutines switch only in the calls
    of NtyCo, and what the others do meanwhile is a relation the theorems of Network are
    parametric in.  The system calls of replication's handlers do not switch. *)

(** This file: bytes and C strings, the bounds of the machine integers the program
    uses, the effect monad in which stateful C code is written, the interface of the C
    runtime (allocation, [rand]), ownership assertions over that interface, and the
    lemmas and tactics every component shares. *)

From Stdlib Require Import ZArith Lia Ascii String.
From stdpp Require Export base list gmap strings sorting.
#[global] Open Scope Z_scope.

(** * Bytes *)

(** An 8-bit byte.  [ascii] is a record of eight booleans, so equality is
    decidable and maps keyed by byte strings are available. *)
Abbreviation byte := ascii.
Abbreviation bytes := (list ascii).

(** The value of a byte read through [unsigned char]. *)
Definition uchar (c : byte) : Z := Z.of_N (N_of_ascii c).

(** The value of a byte read through plain [char], which is signed with the
    compilers the Makefile targets (GCC on x86-64). *)
Definition schar (c : byte) : Z :=
  if Z.ltb (uchar c) 128 then uchar c else uchar c - 256.

(** The conversion [(unsigned char)n]: keeps the low eight bits. *)
Definition byte_of_Z (n : Z) : byte := ascii_of_N (Z.to_N (n mod 256)).

Definition NUL : byte := Ascii.zero.
Definition CR : byte := byte_of_Z 13.
Definition LF : byte := byte_of_Z 10.

(** A C string literal, without its terminating NUL. *)
Definition lit (s : string) : bytes := list_ascii_of_string s.
Definition crlf : bytes := [CR; LF].
#[global] Arguments crlf : simpl never.
#[global] Arguments lit : simpl never.

(** A byte string that a C string can hold: no NUL before the terminator. *)
Definition nul_free (s : bytes) : Prop := NUL ∉ s.
#[export] Instance nul_free_dec s : Decision (nul_free s) := _.

(** The length of a byte string as a [size_t]. *)
Definition zlen {A} (l : list A) : Z := Z.of_nat (List.length l).

(** * Machine integers *)
Definition SIZE_MAX : Z := 2 ^ 64 - 1.
Definition INT_MAX : Z := 2 ^ 31 - 1.
Definition UINT32_MAX : Z := 2 ^ 32 - 1.
Definition UINT64_MAX : Z := 2 ^ 64 - 1.
Definition INT64_MAX : Z := 2 ^ 63 - 1.

(** * C string comparison *)

(** [strcmp]: bytes are compared as [unsigned char]; a proper prefix is smaller
    because its terminator is the smallest byte. *)
Fixpoint strcmp (s t : bytes) : comparison :=
  match s, t with
  | [], [] => Eq
  | [], _ :: _ => Lt
  | _ :: _, [] => Gt
  | a :: s', b :: t' =>
      match uchar a ?= uchar b with
      | Eq => strcmp s' t'
      | c => c
      end
  end.

(** [strcmp(s, t) == 0] *)
Definition streq (s t : bytes) : bool := match strcmp s t with Eq => true | _ => false end.

(** [strcmp(s, t) < 0], the order of the ordered engines. *)
Definition str_lt (s t : bytes) : Prop := strcmp s t = Lt.
#[export] Instance str_lt_dec s t : Decision (str_lt s t).
Proof. unfold str_lt. solve_decision. Defined.

(** * Effects *)

(** The outcome of running C code from a state: it returns, it ends the process
    ([exit], [abort]) in some state, or its behaviour is undefined (a read
    through a null or dangling pointer, an index out of range, signed overflow,
    or a loop that outlives the bound given to it). *)
Inductive outcome (W X : Type) : Type :=
  | Ok (x : X) (w : W)
  | Halt (w : W)
  | UB.
Arguments Ok {W X} x w.
Arguments Halt {W X} w.
Arguments UB {W X}.

Definition M (W X : Type) : Type := W → outcome W X.

#[export] Instance M_ret W : MRet (M W) := λ X x w, Ok x w.
#[export] Instance M_bind W : MBind (M W) := λ X Y k m w,
  match m w with
  | Ok x w' => k x w'
  | Halt w' => Halt w'
  | UB => UB
  end.

Definition undefined {W X} : M W X := λ _, UB.
Definition exit_process {W X} : M W X := λ w, Halt w.

(** Code that works on a part of the state. *)
Definition zoom {S A X} (get : S → A) (put : A → S → S) (m : M A X) : M S X := λ s,
  match m (get s) with
  | Ok x a => Ok x (put a s)
  | Halt a => Halt (put a s)
  | UB => UB
  end.

(** Reading a part of the state. *)
Definition gets {S X} (f : S → X) : M S X := λ s, Ok (f s) s.
Definition modify {S} (f : S → S) : M S unit := λ s, Ok tt (f s).

(** Reading through a pointer or an index that may be invalid. *)
Definition deref {W X} (o : option X) : M W X :=
  match o with Some x => mret x | None => undefined end.

(** Array indexing by a C integer: negative and too large indices are outside. *)
Definition znth {A} (l : list A) (i : Z) : option A :=
  if Z.ltb i 0 then None else l !! Z.to_nat i.
Definition zupd {A} (i : Z) (x : A) (l : list A) : list A := <[Z.to_nat i := x]> l.

(** * Returning: total correctness of effectful code *)

(** [wp m w Q]: run from [w], [m] returns, and [Q] holds of its result and of the
    state it leaves.  It is false when [m] halts the process or is undefined, so
    a [wp] theorem includes termination and memory safety. *)
Definition wp {W X} (m : M W X) (w : W) (Q : X → W → Prop) : Prop :=
  match m w with Ok x w' => Q x w' | _ => False end.

(** [wpx m w Q H]: as [wp], but [m] may also end the process in a state where [H]
    holds. *)
Definition wpx {W X} (m : M W X) (w : W) (Q : X → W → Prop) (H : W → Prop) : Prop :=
  match m w with Ok x w' => Q x w' | Halt w' => H w' | UB => False end.

(** * The C runtime *)

(** Addresses of allocated blocks; a null pointer is [None] of an option. *)
Abbreviation addr := Z (only parsing).
Definition RAND_MAX : Z := 2 ^ 31 - 1.

(** What the engines use of the runtime: [kvs_malloc], [kvs_free] and [rand].
    [live] is the set of blocks handed out and not yet released, [rt_ok] the
    invariant of the allocator's own state; in a [roomy] state no allocation
    fails. *)
Class CRuntime (W : Type) := {
  kvs_malloc : Z → M W (option addr);
  kvs_free : option addr → M W unit;
  c_rand : M W Z;
  live : W → gset addr;
  rt_ok : W → Prop;
  roomy : W → Prop;
}.

(** The promises of the runtime.  Allocation may fail at any time; when it
    succeeds the block is fresh.  Releasing a live block succeeds and removes
    exactly that block; releasing a null pointer does nothing. *)
Class CRuntimeLaws (W : Type) `{CRuntime W} : Prop := {
  malloc_law n w : rt_ok w → 0 < n →
    wp (kvs_malloc n) w (λ r w', rt_ok w' ∧
      match r with
      | Some p => (p ∉ live w) ∧ live w' = {[p]} ∪ live w
      | None => live w' = live w
      end ∧ (roomy w → roomy w' ∧ r ≠ None));
  free_null_law w : kvs_free None w = Ok tt w;
  free_law p w : rt_ok w → p ∈ live w →
    wp (kvs_free (Some p)) w (λ _ w', rt_ok w' ∧ live w' = live w ∖ {[p]} ∧
      (roomy w → roomy w'));
  rand_law w : rt_ok w →
    wp c_rand w (λ r w', rt_ok w' ∧ live w' = live w ∧ 0 ≤ r ≤ RAND_MAX ∧
      (roomy w → roomy w'));
}.

(** A heap-allocated C string: the block and its contents before the NUL. *)
Record cstr := CStr { cs_addr : addr; cs_str : bytes }.
#[export] Instance cstr_eq_dec : EqDecision cstr.
Proof. solve_decision. Defined.

(** The idiom [p = kvs_malloc(strlen(s) + 1); memcpy(p, s, strlen(s) + 1)]. *)
Definition malloc_copy `{CRuntime W} (s : bytes) : M W (option cstr) :=
  p ← kvs_malloc (zlen s + 1);
  mret ((λ a, CStr a s) <$> p).

(** [owns own F w]: the blocks [own] are distinct live blocks, every other live
    block is in the frame [F], and the runtime is in a good state. *)
Definition owns `{CRuntime W} (own : list addr) (F : gset addr) (w : W) : Prop :=
  rt_ok w ∧ NoDup own ∧ live w = list_to_set own ∪ F ∧
  (∀ p, p ∈ own → p ∉ F).

(** * Visiting key-value pairs *)

(** The loop of every [*_foreach]: call the visitor on each pair in order and
    stop with -1 as soon as it returns a negative number. *)
Definition kvs_visit_handler (W C : Type) : Type := bytes → bytes → C → M W (Z * C).

Fixpoint visit_all {W C} (visitor : kvs_visit_handler W C)
    (l : list (bytes * bytes)) (context : C) : M W (Z * C) :=
  match l with
  | [] => mret (0, context)
  | (k, v) :: l' =>
      '(ret, context) ← visitor k v context;
      if ret <? 0 then mret (-1, context) else visit_all visitor l' context
  end.

(** * Tactics *)

(** Split the conjunctions and existentials of the context. *)
Ltac des :=
  repeat match goal with
  | H : _ ∧ _ |- _ => destruct H
  | H : ∃ _, _ |- _ => destruct H
  | p : _ * _ |- _ => destruct p
  end.

(** Case analysis on the scrutinee of a match or an [if] of the goal. *)
Ltac case_goal :=
  match goal with
  | |- context [match ?x with _ => _ end] => destruct x eqn:?
  end.

(** Boolean comparisons on [Z] in the context become propositions. *)
Ltac bool_to_prop :=
  repeat match goal with
  | H : Z.ltb _ _ = true |- _ => apply Z.ltb_lt in H
  | H : Z.ltb _ _ = false |- _ => apply Z.ltb_ge in H
  | H : Z.leb _ _ = true |- _ => apply Z.leb_le in H
  | H : Z.leb _ _ = false |- _ => apply Z.leb_gt in H
  | H : Z.eqb _ _ = true |- _ => apply Z.eqb_eq in H
  | H : Z.eqb _ _ = false |- _ => apply Z.eqb_neq in H
  | H : bool_decide _ = true |- _ => apply bool_decide_eq_true in H
  | H : bool_decide _ = false |- _ => apply bool_decide_eq_false in H
  | H : andb _ _ = true |- _ => apply andb_true_iff in H; destruct H
  | H : orb _ _ = false |- _ => apply orb_false_iff in H; destruct H
  | H : negb _ = true |- _ => apply negb_true_iff in H
  | H : negb _ = false |- _ => apply negb_false_iff in H
  end.

Create HintDb kvs.

(** * Lemmas on bytes *)

Lemma uchar_range c : 0 ≤ uchar c < 256.
Proof. unfold uchar. pose proof (N_ascii_bounded c). lia. Qed.

#[export] Instance uchar_inj : Inj (=) (=) uchar.
Proof.
  intros a b Hab. unfold uchar in Hab.
  rewrite <- (ascii_N_embedding a), <- (ascii_N_embedding b). f_equal. lia.
Qed.

Lemma uchar_byte_of_Z n : uchar (byte_of_Z n) = n mod 256.
Proof.
  unfold uchar, byte_of_Z. pose proof (Z.mod_pos_bound n 256 ltac:(lia)).
  rewrite N_ascii_embedding by lia. lia.
Qed.

Lemma byte_of_Z_uchar c : byte_of_Z (uchar c) = c.
Proof.
  apply (inj uchar). rewrite uchar_byte_of_Z.
  apply Z.mod_small, uchar_range.
Qed.

Lemma byte_of_Z_inj m n : 0 ≤ m < 256 → 0 ≤ n < 256 → byte_of_Z m = byte_of_Z n → m = n.
Proof.
  intros Hm Hn E. apply (f_equal uchar) in E.
  rewrite !uchar_byte_of_Z, !Z.mod_small in E by lia. done.
Qed.

Lemma schar_range c : -128 ≤ schar c < 128.
Proof.
  unfold schar. pose proof (uchar_range c). case_goal; bool_to_prop; lia.
Qed.

Lemma zlen_nonneg {A} (l : list A) : 0 ≤ zlen l.
Proof. unfold zlen. lia. Qed.

Lemma zlen_app {A} (l k : list A) : zlen (l ++ k) = zlen l + zlen k.
Proof. unfold zlen. rewrite length_app. lia. Qed.

Lemma zlen_cons {A} (x : A) l : zlen (x :: l) = 1 + zlen l.
Proof. unfold zlen. simpl. lia. Qed.

Lemma zlen_nil {A} : zlen ([] : list A) = 0.
Proof. done. Qed.

#[export] Hint Resolve zlen_nonneg uchar_range : kvs.
Lemma zlen_crlf : zlen crlf = 2.
Proof. done. Qed.

#[export] Hint Rewrite @zlen_app @zlen_cons @zlen_nil zlen_crlf : zlen.

Lemma zlen_fmap {A B} (f : A → B) l : zlen (f <$> l) = zlen l.
Proof. unfold zlen. by rewrite length_fmap. Qed.

Lemma zlen_zero {A} (l : list A) : zlen l = 0 → l = [].
Proof. unfold zlen. intros. apply length_zero_iff_nil. lia. Qed.

Lemma znth_lookup {A} (l : list A) (n : nat) : znth l (Z.of_nat n) = l !! n.
Proof. unfold znth. destruct (Z.ltb_spec (Z.of_nat n) 0); [lia|]. by rewrite Nat2Z.id. Qed.

(** Reading and writing the element after a known prefix. *)
Lemma znth_middle {A} (l1 l2 : list A) x : znth (l1 ++ x :: l2) (zlen l1) = Some x.
Proof. unfold zlen. rewrite znth_lookup. by apply list_lookup_middle. Qed.

Lemma lookup_zlen_middle {A} (l1 l2 : list A) x : (l1 ++ x :: l2) !! Z.to_nat (zlen l1) = Some x.
Proof. unfold zlen. rewrite Nat2Z.id. by apply list_lookup_middle. Qed.

Lemma zupd_middle {A} (l1 l2 : list A) x y : zupd (zlen l1) y (l1 ++ x :: l2) = l1 ++ y :: l2.
Proof.
  unfold zupd, zlen. rewrite Nat2Z.id.
  rewrite insert_app_r_alt, Nat.sub_diag by done. done.
Qed.

(** * Lemmas on [strcmp] *)

Lemma strcmp_eq s t : strcmp s t = Eq ↔ s = t.
Proof.
  revert t. induction s as [|a s IH]; intros [|b t]; simpl; try done.
  destruct (Z.compare_spec (uchar a) (uchar b)) as [E|E|E].
  - apply (inj uchar) in E as ->. rewrite IH. split; congruence.
  - split; [done|]. intros [= -> ->]. lia.
  - split; [done|]. intros [= -> ->]. lia.
Qed.

Lemma strcmp_refl s : strcmp s s = Eq.
Proof. by apply strcmp_eq. Qed.

Lemma strcmp_antisym s t : strcmp t s = CompOpp (strcmp s t).
Proof.
  revert t. induction s as [|a s IH]; intros [|b t]; simpl; try done.
  rewrite Z.compare_antisym. destruct (uchar a ?= uchar b); simpl; auto.
Qed.

Lemma str_lt_trans s t u : str_lt s t → str_lt t u → str_lt s u.
Proof.
  unfold str_lt. revert t u.
  induction s as [|a s IH]; intros [|b t] [|c u]; simpl; try done.
  destruct (Z.compare_spec (uchar a) (uchar b)) as [E1|E1|E1];
  destruct (Z.compare_spec (uchar b) (uchar c)) as [E2|E2|E2];
  destruct (Z.compare_spec (uchar a) (uchar c)) as [E3|E3|E3];
    intros; try lia; try done. eauto.
Qed.

Lemma streq_true s t : streq s t = true ↔ s = t.
Proof.
  unfold streq. split; [|by intros ->; rewrite strcmp_refl].
  destruct (strcmp s t) eqn:E; [by apply strcmp_eq in E|done..].
Qed.

Lemma streq_decide s t : streq s t = bool_decide (s = t).
Proof. apply eq_true_iff_eq. by rewrite streq_true, bool_decide_eq_true. Qed.

Lemma str_lt_irrefl s : ¬ str_lt s s.
Proof. unfold str_lt. by rewrite strcmp_refl. Qed.

#[export] Instance str_lt_strict : StrictOrder str_lt.
Proof. split; [intros s; apply str_lt_irrefl | intros s t u; apply str_lt_trans]. Qed.

Lemma str_lt_total s t : str_lt s t ∨ s = t ∨ str_lt t s.
Proof.
  unfold str_lt. rewrite (strcmp_antisym s t).
  destruct (strcmp s t) eqn:E; auto. apply strcmp_eq in E. auto.
Qed.

(** ** Sorted lists of keys *)

Lemma sorted_nodup (l : list bytes) : StronglySorted str_lt l → NoDup l.
Proof.
  induction 1 as [|x l _ IH Hx]; [apply NoDup_nil_2|]. apply NoDup_cons. split; [|done].
  intros Hin. apply Forall_forall with (x := x) in Hx; [|done]. by apply str_lt_irrefl in Hx.
Qed.

Lemma strongly_sorted_middle (l1 l2 : list bytes) k :
  StronglySorted str_lt (l1 ++ l2) → Forall (λ s, str_lt s k) l1 → Forall (λ s, str_lt k s) l2 →
  StronglySorted str_lt (l1 ++ k :: l2).
Proof.
  induction l1 as [|s l1 IH]; simpl; intros Hs H1 H2; [by apply SSorted_cons|].
  apply StronglySorted_inv in Hs as [Hs Hf]. apply Forall_cons in H1 as [Hk H1].
  apply SSorted_cons; [auto|]. apply Forall_app in Hf as [? ?].
  apply Forall_app. split; [done|]. by apply Forall_cons.
Qed.

Lemma strongly_sorted_remove (l1 l2 : list bytes) k :
  StronglySorted str_lt (l1 ++ k :: l2) → StronglySorted str_lt (l1 ++ l2).
Proof.
  induction l1 as [|s l1 IH]; simpl; intros Hs; [by apply StronglySorted_inv in Hs as [? _]|].
  apply StronglySorted_inv in Hs as [Hs Hf]. apply SSorted_cons; [auto|].
  apply Forall_app in Hf as [? [_ ?]%Forall_cons]. by apply Forall_app.
Qed.

Lemma below_notin (l : list bytes) k : Forall (λ s, str_lt s k) l → k ∉ l.
Proof. intros Hl Hk. rewrite Forall_forall in Hl. by apply (str_lt_irrefl k), Hl. Qed.

Lemma above_notin (l : list bytes) k : Forall (λ s, str_lt k s) l → k ∉ l.
Proof. intros Hl Hk. rewrite Forall_forall in Hl. by apply (str_lt_irrefl k), Hl. Qed.

(** * Lemmas on [wp] *)

Section wp.
Context {W : Type}.
Implicit Types w : W.

Lemma wp_ret {X} (x : X) w (Q : X → W → Prop) : Q x w → wp (mret x) w Q.
Proof. done. Qed.

Lemma wp_bind {X Y} (m : M W X) (k : X → M W Y) w (Q : Y → W → Prop) :
  wp m w (λ x w', wp (k x) w' Q) → wp (m ≫= k) w Q.
Proof. unfold wp, mbind, M_bind. by destruct (m w). Qed.

Lemma wp_mono {X} (m : M W X) w (P Q : X → W → Prop) :
  wp m w P → (∀ x w', P x w' → Q x w') → wp m w Q.
Proof. unfold wp. destruct (m w); naive_solver. Qed.

(** A specification of the first step followed by the rest of the code. *)
Lemma wp_step {X Y} (m : M W X) (k : X → M W Y) w (P : X → W → Prop) (Q : Y → W → Prop) :
  wp m w P → (∀ x w', P x w' → wp (k x) w' Q) → wp (m ≫= k) w Q.
Proof. intros Hm Hk. apply wp_bind. eauto using wp_mono. Qed.

(** A step whose outcome is known. *)
Lemma wp_eq {X Y} (m : M W X) (k : X → M W Y) w x w' (Q : Y → W → Prop) :
  m w = Ok x w' → wp (k x) w' Q → wp (m ≫= k) w Q.
Proof. intros E. unfold wp, mbind, M_bind. by rewrite E. Qed.

Lemma wp_deref {X} (o : option X) x w (Q : X → W → Prop) :
  o = Some x → Q x w → wp (deref o) w Q.
Proof. intros ->. done. Qed.

Lemma wp_zoom {S A X} (get : S → A) put (m : M A X) s (Q : X → S → Prop) :
  wp m (get s) (λ x a, Q x (put a s)) → wp (zoom get put m) s Q.
Proof. unfold wp, zoom. by destruct (m (get s)). Qed.

Lemma wp_Ok {X} (m : M W X) w (Q : X → W → Prop) :
  wp m w Q ↔ ∃ x w', m w = Ok x w' ∧ Q x w'.
Proof. unfold wp. destruct (m w); naive_solver. Qed.

Lemma bind_assoc {X Y Z'} (m : M W X) (f : X → M W Y) (g : Y → M W Z') w :
  ((m ≫= f) ≫= g) w = (m ≫= (λ x, f x ≫= g)) w.
Proof. unfold mbind, M_bind. by destruct (m w). Qed.

Lemma wp_bind_assoc {X Y Z'} (m : M W X) (f : X → M W Y) (g : Y → M W Z') w (Q : Z' → W → Prop) :
  wp (m ≫= (λ x, f x ≫= g)) w Q → wp ((m ≫= f) ≫= g) w Q.
Proof. unfold wp. by rewrite bind_assoc. Qed.

(** A specification of the first two steps together. *)
Lemma wp_step2 {X Y Z'} (m : M W X) (f : X → M W Y) (g : Y → M W Z') w (P : Y → W → Prop) (Q : Z' → W → Prop) :
  wp (m ≫= f) w P → (∀ y w', P y w' → wp (g y) w' Q) → wp (m ≫= (λ x, f x ≫= g)) w Q.
Proof. intros Hm Hk. pose proof (wp_step _ g _ _ _ Hm Hk) as Hw. unfold wp in *. by rewrite bind_assoc in Hw. Qed.

(** A last step as a step. *)
Lemma wp_tail {X} (m : M W X) w (Q : X → W → Prop) : wp (m ≫= mret) w Q → wp m w Q.
Proof. unfold wp, mbind, M_bind. by destruct (m w). Qed.

#[export] Instance wp_proper {X} (m : M W X) w : Proper (pointwise_relation X (pointwise_relation W iff) ==> iff) (wp m w).
Proof. intros P Q E. unfold wp. destruct (m w); [apply E|done..]. Qed.

Lemma wp_wpx {X} (m : M W X) w (Q : X → W → Prop) (H : W → Prop) : wp m w Q → wpx m w Q H.
Proof. unfold wp, wpx. by destruct (m w). Qed.

Lemma wpx_wp {X} (m : M W X) w (Q : X → W → Prop) : wpx m w Q (λ _, False) → wp m w Q.
Proof. done. Qed.

Lemma wpx_mono {X} (m : M W X) w (P Q : X → W → Prop) (G H : W → Prop) :
  wpx m w P G → (∀ x w', P x w' → Q x w') → (∀ w', G w' → H w') → wpx m w Q H.
Proof. unfold wpx. destruct (m w); naive_solver. Qed.

Lemma wpx_stepx {X Y} (m : M W X) (k : X → M W Y) w (P : X → W → Prop) (Q : Y → W → Prop) (H : W → Prop) :
  wpx m w P H → (∀ x w', P x w' → wpx (k x) w' Q H) → wpx (m ≫= k) w Q H.
Proof. unfold wpx, mbind, M_bind. destruct (m w); naive_solver. Qed.

Lemma wpx_step {X Y} (m : M W X) (k : X → M W Y) w (P : X → W → Prop) (Q : Y → W → Prop) (H : W → Prop) :
  wp m w P → (∀ x w', P x w' → wpx (k x) w' Q H) → wpx (m ≫= k) w Q H.
Proof. intros Hm. apply wpx_stepx. by apply wp_wpx. Qed.

Lemma wpx_eq {X Y} (m : M W X) (k : X → M W Y) w x w' (Q : Y → W → Prop) (H : W → Prop) :
  m w = Ok x w' → wpx (k x) w' Q H → wpx (m ≫= k) w Q H.
Proof. intros E. unfold wpx, mbind, M_bind. by rewrite E. Qed.

Lemma wpx_ret {X} (x : X) w (Q : X → W → Prop) (H : W → Prop) : Q x w → wpx (mret x) w Q H.
Proof. done. Qed.

Lemma bind_ext {X Y} (m : M W X) (f g : X → M W Y) w :
  (∀ x w', f x w' = g x w') → (m ≫= f) w = (m ≫= g) w.
Proof. intros E. unfold mbind, M_bind. by destruct (m w). Qed.
End wp.

(** Execute the next effect: a [mret], or a known specification [H]. *)
Ltac wp_pure := repeat first [ apply wp_ret | progress simpl ].
Tactic Notation "wp_apply" uconstr(H) := eapply wp_step; [ eapply H; eauto | simpl ].

(** * Ownership *)

Section owns.
Context `{CRuntimeLaws W}.
Implicit Types (own : list addr) (F : gset addr) (w : W).

Lemma owns_perm own own' F w : own ≡ₚ own' → owns own F w → owns own' F w.
Proof.
  intros Hp (Hok & Hnd & Hl & Hf). split_and!; [done|by rewrite <- Hp| |].
  - rewrite Hl. by rewrite Hp.
  - intros p. rewrite <- Hp. apply Hf.
Qed.

#[export] Instance owns_proper : Proper ((≡ₚ) ==> (=) ==> (=) ==> iff) owns.
Proof.
  intros o o' Ho F F' <- w w' <-. split; apply owns_perm; [done|by symmetry].
Qed.

Lemma owns_live own F w p : owns own F w → p ∈ own → p ∈ live w.
Proof. intros (_ & _ & -> & _) Hp. set_solver. Qed.

(** Part of the owned blocks may be treated as frame, and taken back. *)
Lemma owns_app own1 own2 F w :
  owns (own1 ++ own2) F w ↔
  owns own1 (list_to_set own2 ∪ F) w ∧ NoDup own2 ∧ (∀ p, p ∈ own2 → p ∉ F).
Proof.
  unfold owns. rewrite NoDup_app, list_to_set_app_L.
  split.
  - intros (Hok & (Hn1 & Hd & Hn2) & Hl & Hf).
    split_and!; [done|done|set_solver| |done|set_solver].
    intros p Hp. specialize (Hd p Hp). specialize (Hf p). set_solver.
  - intros ((Hok & Hn1 & Hl & Hf) & Hn2 & Hf2).
    split_and!; [done|done| |done|set_solver|set_solver].
    intros p Hp. specialize (Hf p Hp). set_solver.
Qed.

(** The last conjuncts of [owns_app] do not depend on the state. *)
Lemma owns_frame own1 own1' own2 F w w' :
  owns (own1 ++ own2) F w →
  (owns own1 (list_to_set own2 ∪ F) w → owns own1' (list_to_set own2 ∪ F) w') →
  owns (own1' ++ own2) F w'.
Proof. rewrite !owns_app. naive_solver. Qed.

Lemma wp_malloc n own F w :
  0 < n → owns own F w →
  wp (kvs_malloc n) w (λ r w',
    match r with Some p => owns (p :: own) F w' | None => owns own F w' end ∧
    (roomy w → roomy w' ∧ r ≠ None)).
Proof.
  intros Hn (Hok & Hnd & Hl & Hf).
  eapply wp_mono; [by apply malloc_law|]. intros [p|] w'; simpl.
  - intros (Hok' & (Hp & Hl') & Hr). rewrite Hl in *. split; [|done].
    split_and!; [done| | |].
    + apply NoDup_cons. set_solver.
    + set_solver.
    + intros q [->|Hq]%elem_of_cons; set_solver.
  - intros (Hok' & Hl' & Hr). split; [|done]. split_and!; try done. by rewrite Hl'.
Qed.

Lemma wp_free p own F w :
  owns (p :: own) F w →
  wp (kvs_free (Some p)) w (λ _ w', owns own F w' ∧ (roomy w → roomy w')).
Proof.
  intros (Hok & Hnd & Hl & Hf). apply NoDup_cons in Hnd as [Hp Hnd].
  eapply wp_mono; [apply free_law; [done|set_solver]|]. intros _ w' (Hok' & Hl' & Hr).
  assert (p ∉ F) by (apply Hf; set_solver). split; [|done].
  split_and!; [done|done|rewrite Hl', Hl; set_solver|set_solver].
Qed.

Lemma wp_free_null own F w :
  owns own F w → wp (kvs_free None) w (λ _ w', owns own F w' ∧ (roomy w → roomy w')).
Proof. intros Hw. unfold wp. by rewrite free_null_law. Qed.

Lemma wp_malloc_copy s own F w :
  owns own F w →
  wp (malloc_copy s) w (λ r w',
    match r with
    | Some c => cs_str c = s ∧ owns (cs_addr c :: own) F w'
    | None => owns own F w'
    end ∧ (roomy w → roomy w' ∧ r ≠ None)).
Proof.
  intros Hw. unfold malloc_copy. pose proof (zlen_nonneg s).
  eapply wp_step; [apply wp_malloc; [lia|done]|].
  intros [p|] w' [Hw' Hr]; apply wp_ret; simpl; naive_solver.
Qed.

Lemma wp_rand own F w :
  owns own F w →
  wp c_rand w (λ r w', 0 ≤ r ≤ RAND_MAX ∧ owns own F w' ∧ (roomy w → roomy w')).
Proof.
  intros (Hok & Hnd & Hl & Hf).
  eapply wp_mono; [by apply rand_law|]. intros r w' (Hok' & Hl' & Hr & Hm).
  split_and!; try done; try lia. split_and!; try done. congruence.
Qed.
End owns.

(** * Lemmas on visiting *)

Lemma visit_all_app {W C} (visitor : kvs_visit_handler W C) l1 l2 c w :
  visit_all visitor (l1 ++ l2) c w =
  ('(ret, c') ← visit_all visitor l1 c;
   if ret <? 0 then mret (-1, c') else visit_all visitor l2 c') w.
Proof.
  revert c w. induction l1 as [|[k v] l1 IH]; intros c w; simpl; [done|].
  rewrite bind_assoc. unfold mbind, M_bind. destruct (visitor k v c w) as [[r c'] w'|w'|]; try done.
  destruct (r <? 0) eqn:E; simpl; [done|]. apply IH.
Qed.

Lemma visit_all_result {W C} (visitor : kvs_visit_handler W C) l c w r c' w' :
  visit_all visitor l c w = Ok (r, c') w' → r = 0 ∨ r = -1.
Proof.
  revert c w. induction l as [|[k v] l IH]; intros c w; simpl; [intros [= <- _ _]; by left|].
  unfold mbind, M_bind. destruct (visitor k v c w) as [[r1 c1] w1|w1|]; [|done..].
  destruct (r1 <? 0); [intros [= <- _ _]; by right|apply IH].
Qed.
