(* ===== verification/Runtime.v ===== *)
(** A concrete C runtime: a heap whose blocks are numbered in order of
    allocation, with an optional budget of allocations after which it reports
    exhaustion, and a counter for [rand].  It meets the laws of [CRuntime], and is
    the runtime the components are executed on. *)

From Stdlib Require Import ZArith Lia.
From S2P Require Import Prelude.

Record heap_rt := HeapRt {
  h_next : Z;
  h_live : gset Z;
  (** allocations left; [None] is unlimited *)
  h_budget : option nat;
  h_rand : Z;
}.

Definition heap_malloc (n : Z) : M heap_rt (option addr) := λ h,
  match h_budget h with
  | Some O => Ok None h
  | b => Ok (Some (h_next h))
           (HeapRt (h_next h + 1) ({[h_next h]} ∪ h_live h) (Nat.pred <$> b) (h_rand h))
  end.

(** Releasing a block that is not live is undefined. *)
Definition heap_free (p : option addr) : M heap_rt unit := λ h,
  match p with
  | None => Ok tt h
  | Some p =>
      if bool_decide (p ∈ h_live h)
      then Ok tt (HeapRt (h_next h) (h_live h ∖ {[p]}) (h_budget h) (h_rand h))
      else UB
  end.

Definition heap_rand : M heap_rt Z := λ h,
  Ok (h_rand h mod (RAND_MAX + 1))
     (HeapRt (h_next h) (h_live h) (h_budget h) (h_rand h * 1103515245 + 12345)).

Definition heap_ok (h : heap_rt) : Prop := ∀ p, p ∈ h_live h → p < h_next h.

#[export] Instance heap_runtime : CRuntime heap_rt := {|
  kvs_malloc := heap_malloc;
  kvs_free := heap_free;
  c_rand := heap_rand;
  live := h_live;
  rt_ok := heap_ok;
  roomy := λ h, h_budget h = None;
|}.

#[export] Instance heap_runtime_laws : CRuntimeLaws heap_rt.
Proof.
  split.
  - intros n [nx lv bd rd] Hok _. change (∀ p, p ∈ lv → p < nx) in Hok.
    assert (nx ∉ lv) as Hnx by (intros Hp%Hok; lia).
    unfold wp, kvs_malloc. simpl. unfold heap_malloc. simpl.
    destruct bd as [[|b]|]; simpl; (split_and!; [|try done..]); unfold heap_ok; simpl; try done.
    all: intros p [->%elem_of_singleton|Hp%Hok]%elem_of_union; lia.
  - done.
  - intros p [nx lv bd rd] Hok Hp. unfold wp, kvs_free. simpl in *. unfold heap_free. simpl.
    rewrite bool_decide_eq_true_2 by done. split_and!; [|done..].
    unfold heap_ok. simpl. intros q [Hq _]%elem_of_difference. by apply Hok.
  - intros [nx lv bd rd] Hok. unfold wp. simpl. unfold RAND_MAX.
    pose proof (Z.mod_pos_bound rd (2 ^ 31 - 1 + 1) ltac:(lia)).
    split_and!; [done|done|lia|lia|done].
Qed.

(** An empty heap, with and without a limit. *)
Definition empty_heap : heap_rt := HeapRt 1 ∅ None 0.
Definition small_heap (n : nat) : heap_rt := HeapRt 1 ∅ (Some n) 0.

Lemma empty_heap_owns : owns [] ∅ empty_heap.
Proof.
  unfold owns. simpl. split_and!; [|by apply NoDup_nil_2|set_solver|set_solver].
  unfold heap_ok. simpl. set_solver.
Qed.

Lemma small_heap_owns n : owns [] ∅ (small_heap n).
Proof.
  unfold owns. simpl. split_and!; [|by apply NoDup_nil_2|set_solver|set_solver].
  unfold heap_ok. simpl. set_solver.
Qed.
