(* ===== verification/Engine.v ===== *)
(** The interface between the storage engines and their clients.

    The four engines of src/engines/ offer the same operations on key-value
    pairs.  [Engine] names the operations together with the observations their
    clients rely on: the pairs an engine holds, the heap blocks it owns and its
    invariant.  [EngineLaws] is the contract: each operation acts on the contents
    as the corresponding finite-map operation, returns the documented code,
    leaves every other block of the heap alone and leaks nothing.  The command
    executor and the persistence layer are verified against the contract alone. *)

From Stdlib Require Import ZArith Lia.
From S2P Require Import Prelude.

Abbreviation kvmap := (gmap bytes bytes) (only parsing).

(** * Interface *)

Class Engine (W E : Type) `{CRuntime W} := {
  (** [memset(&inst, 0, sizeof inst)] *)
  eng_zero : E;
  eng_create : E → M W (Z * E);
  eng_destroy : E → M W E;
  eng_set : E → option bytes → option bytes → M W (Z * E);
  eng_get : E → option bytes → M W (option bytes);
  eng_del : E → option bytes → M W (Z * E);
  eng_mod : E → option bytes → option bytes → M W (Z * E);
  eng_exist : E → option bytes → M W Z;
  eng_foreach : ∀ {V C}, E → option (kvs_visit_handler V C) → C → M V (Z * C);
  (** the pairs held, in the order [foreach] visits them *)
  eng_entries : E → list (bytes * bytes);
  eng_owned : E → list addr;
  eng_wf : E → Prop;
  (** the keys the operations accept *)
  eng_key : bytes → Prop;
  (** whether a new key fits beside the present contents *)
  eng_room : kvmap → bool;
  (** what [del] returns for an absent key *)
  eng_del_missing : Z;
}.

(** The contents as a finite map. *)
Definition eng_map {W E} `{Engine W E} (e : E) : kvmap := list_to_map (eng_entries e).

(** What [set] returns when no allocation fails. *)
Definition set_result {W E} `{Engine W E} (m : kvmap) (k : bytes) : Z :=
  if bool_decide (is_Some (m !! k)) || eng_room m then 0 else -1.

(** What every state-changing operation keeps: the invariant, the exact
    ownership of its blocks, and the absence of allocation failures. *)
Definition keeps_wf {W E} `{Engine W E} (F : gset addr) (w : W) (e' : E) (w' : W) : Prop :=
  eng_wf e' ∧ owns (eng_owned e') F w' ∧ (roomy w → roomy w').

Class EngineLaws (W E : Type) `{Engine W E} : Prop := {
  eng_nodup e : eng_wf e → NoDup (eng_entries e).*1;
  eng_room_empty : eng_room ∅ = true;
  eng_stored_key e k : eng_wf e → k ∈ (eng_entries e).*1 → eng_key k;
  eng_room_sub e m k : eng_wf e → m ⊆ eng_map e → m !! k = None → is_Some (eng_map e !! k) → eng_room m = true;
  eng_del_missing_nz : eng_del_missing ≠ 0;
  eng_create_law F w : owns [] F w →
    wp (eng_create eng_zero) w (λ '(r, e') w',
      (r = 0 ∧ keeps_wf F w e' w' ∧ eng_entries e' = [] ∨ r = -1 ∧ owns [] F w') ∧
      (roomy w → roomy w' ∧ r = 0));
  eng_destroy_law e F w : eng_wf e → owns (eng_owned e) F w →
    wp (eng_destroy e) w (λ e' w', owns [] F w' ∧ (roomy w → roomy w'));
  eng_set_law e k v F w : eng_wf e → eng_key k → owns (eng_owned e) F w →
    wp (eng_set e (Some k) (Some v)) w (λ '(r, e') w', keeps_wf F w e' w' ∧
      (r = 0 ∧ set_result (eng_map e) k = 0 ∧ eng_map e' = <[k:=v]> (eng_map e) ∨
       r < 0 ∧ eng_map e' = eng_map e) ∧
      (roomy w → r = set_result (eng_map e) k));
  eng_get_law e k w : eng_wf e → eng_key k →
    eng_get e (Some k) w = Ok (eng_map e !! k) w;
  eng_del_law e k F w : eng_wf e → eng_key k → owns (eng_owned e) F w →
    wp (eng_del e (Some k)) w (λ '(r, e') w', keeps_wf F w e' w' ∧
      r = (if eng_map e !! k then 0 else eng_del_missing) ∧
      eng_map e' = delete k (eng_map e));
  eng_mod_law e k v F w : eng_wf e → eng_key k → owns (eng_owned e) F w →
    wp (eng_mod e (Some k) (Some v)) w (λ '(r, e') w', keeps_wf F w e' w' ∧
      match eng_map e !! k with
      | None => r = 1 ∧ eng_map e' = eng_map e
      | Some _ => (r = 0 ∧ eng_map e' = <[k:=v]> (eng_map e) ∨ r = -2 ∧ eng_map e' = eng_map e) ∧
                  (roomy w → r = 0)
      end);
  eng_exist_law e k w : eng_wf e → eng_key k →
    eng_exist e (Some k) w = Ok (if eng_map e !! k then 0 else 1) w;
  eng_foreach_law {V C} e (visitor : kvs_visit_handler V C) (c : C) (v : V) : eng_wf e →
    eng_foreach e (Some visitor) c v = visit_all visitor (eng_entries e) c v;
}.

(** * Association lists and finite maps *)

Section assoc.
Implicit Types (l : list (bytes * bytes)) (k v : bytes).
Notation to_map l := (list_to_map l : kvmap).

Lemma to_map_middle l1 l2 k v :
  k ∉ l1.*1 → to_map (l1 ++ (k, v) :: l2) !! k = Some v.
Proof.
  intros Hk. rewrite list_to_map_app. simpl.
  rewrite lookup_union_r by (by apply not_elem_of_list_to_map_1).
  apply lookup_insert_eq.
Qed.

Lemma to_map_absent l k : k ∉ l.*1 → to_map l !! k = None.
Proof. apply not_elem_of_list_to_map_1. Qed.

Lemma to_map_update l1 l2 k v v' :
  k ∉ l1.*1 → to_map (l1 ++ (k, v') :: l2) = <[k:=v']> (to_map (l1 ++ (k, v) :: l2)).
Proof.
  intros Hk. rewrite !list_to_map_app. simpl.
  rewrite insert_union_r by (by apply not_elem_of_list_to_map_1).
  by rewrite insert_insert_eq.
Qed.

Lemma to_map_insert_middle l1 l2 k v :
  k ∉ l1.*1 → to_map (l1 ++ (k, v) :: l2) = <[k:=v]> (to_map (l1 ++ l2)).
Proof.
  intros Hk. rewrite !list_to_map_app. simpl.
  by rewrite insert_union_r by (by apply not_elem_of_list_to_map_1).
Qed.

Lemma to_map_remove l1 l2 k v :
  k ∉ l1.*1 → k ∉ l2.*1 → to_map (l1 ++ l2) = delete k (to_map (l1 ++ (k, v) :: l2)).
Proof.
  intros H1 H2. rewrite !list_to_map_app. simpl.
  rewrite delete_union, delete_insert_eq, !delete_id; [done|..]; by apply not_elem_of_list_to_map_1.
Qed.

Lemma to_map_snoc l k v : k ∉ l.*1 → to_map (l ++ [(k, v)]) = <[k:=v]> (to_map l).
Proof.
  intros Hk. rewrite list_to_map_app. simpl.
  rewrite <- insert_union_r by (by apply not_elem_of_list_to_map_1).
  by rewrite (right_id_L ∅ (∪)).
Qed.

Lemma to_map_perm l l' : NoDup l.*1 → l ≡ₚ l' → to_map l = to_map l'.
Proof. intros. by apply list_to_map_proper. Qed.

Lemma nodup_middle (l1 l2 : list (bytes * bytes)) k v :
  NoDup (l1 ++ (k, v) :: l2).*1 → k ∉ l1.*1 ∧ k ∉ l2.*1 ∧ NoDup (l1 ++ l2).*1.
Proof.
  rewrite !fmap_app, fmap_cons, !NoDup_app, NoDup_cons. simpl. set_solver.
Qed.

Lemma to_map_size l : NoDup l.*1 → size (to_map l) = List.length l.
Proof.
  induction l as [|[k v] l IH]; simpl; [done|].
  intros [Hk Hl]%NoDup_cons. rewrite map_size_insert_None by (by apply not_elem_of_list_to_map_1).
  by rewrite IH.
Qed.

Lemma map_subset_size_lt (m m' : gmap bytes bytes) k :
  m ⊆ m' → m !! k = None → is_Some (m' !! k) → (size m < size m')%nat.
Proof. intros Hs Hk [v Hv]. apply map_subset_size. split; [done|]. intros Hs'. eapply lookup_weaken in Hv; [|done]. congruence. Qed.
End assoc.

(** * The contract as a refinement *)

(** The operations a client can call on a created engine, and their results. *)
Inductive engine_op : Type :=
  | OpSet (k v : bytes)
  | OpGet (k : bytes)
  | OpDel (k : bytes)
  | OpMod (k v : bytes)
  | OpExist (k : bytes).

Inductive op_result : Type :=
  | RInt (r : Z)
  | RStr (s : option bytes).

Definition op_key (o : engine_op) : bytes :=
  match o with OpSet k _ | OpGet k | OpDel k | OpMod k _ | OpExist k => k end.

Definition engine_step {W E} `{Engine W E} (e : E) (o : engine_op) : M W (op_result * E) :=
  match o with
  | OpSet k v => '(r, e) ← eng_set e (Some k) (Some v); mret (RInt r, e)
  | OpGet k => s ← eng_get e (Some k); mret (RStr s, e)
  | OpDel k => '(r, e) ← eng_del e (Some k); mret (RInt r, e)
  | OpMod k v => '(r, e) ← eng_mod e (Some k) (Some v); mret (RInt r, e)
  | OpExist k => r ← eng_exist e (Some k); mret (RInt r, e)
  end.

Fixpoint engine_run {W E} `{Engine W E} (e : E) (os : list engine_op) : M W (list op_result * E) :=
  match os with
  | [] => mret ([], e)
  | o :: os =>
      '(r, e) ← engine_step e o;
      '(rs, e) ← engine_run e os;
      mret (r :: rs, e)
  end.

(** The abstract machine: a finite map. *)
Definition map_step {W E} `{Engine W E} (m : kvmap) (o : engine_op) : op_result * kvmap :=
  match o with
  | OpSet k v => (RInt (set_result m k), if set_result m k =? 0 then <[k:=v]> m else m)
  | OpGet k => (RStr (m !! k), m)
  | OpDel k => (RInt (if m !! k then 0 else eng_del_missing), delete k m)
  | OpMod k v => (RInt (if m !! k then 0 else 1), if m !! k then <[k:=v]> m else m)
  | OpExist k => (RInt (if m !! k then 0 else 1), m)
  end.

Fixpoint map_run {W E} `{Engine W E} (m : kvmap) (os : list engine_op) : list op_result * kvmap :=
  match os with
  | [] => ([], m)
  | o :: os => let '(r, m) := map_step m o in let '(rs, m) := map_run m os in (r :: rs, m)
  end.

(** A step of the engine when allocations may fail: the abstract step, or, for an
    operation that allocates, a negative code and no change. *)
Definition map_step_or_oom {W E} `{Engine W E} (m : kvmap) (o : engine_op) (r : op_result) (m' : kvmap) : Prop :=
  (r, m') = map_step m o ∨
  m' = m ∧ (∃ z, r = RInt z ∧ z < 0) ∧ match o with OpSet _ _ | OpMod _ _ => True | _ => False end.

Fixpoint map_run_or_oom {W E} `{Engine W E} (m : kvmap) (os : list engine_op) (rs : list op_result) (m' : kvmap) : Prop :=
  match os, rs with
  | [], [] => m' = m
  | o :: os, r :: rs => ∃ m1, map_step_or_oom m o r m1 ∧ map_run_or_oom m1 os rs m'
  | _, _ => False
  end.

(** The life of an engine: created from zeroed memory, used, destroyed.  The
    result is [None] when the creation failed. *)
Definition engine_session {W E} `{Engine W E} (os : list engine_op) : M W (option (list op_result)) :=
  '(r, e) ← eng_create eng_zero;
  if r =? 0 then
    '(rs, e) ← engine_run e os;
    eng_destroy e;;
    mret (Some rs)
  else mret None.

Section refinement.
Context `{EngineLaws W E}.
Implicit Types (e : E) (o : engine_op) (F : gset addr) (w : W).

Lemma keeps_wf_refl F e w : eng_wf e → owns (eng_owned e) F w → keeps_wf F w e w.
Proof. unfold keeps_wf. naive_solver. Qed.

Lemma keeps_wf_trans F e1 e2 w w1 w2 :
  keeps_wf F w e1 w1 → keeps_wf F w1 e2 w2 → keeps_wf F w e2 w2.
Proof. unfold keeps_wf. naive_solver. Qed.

(** One operation refines the abstract step. *)
Lemma engine_step_refines e o F w :
  eng_wf e → eng_key (op_key o) → owns (eng_owned e) F w →
  wp (engine_step e o) w (λ '(r, e') w', keeps_wf F w e' w' ∧
    map_step_or_oom (eng_map e) o r (eng_map e') ∧
    (roomy w → (r, eng_map e') = map_step (eng_map e) o)).
Proof.
  intros Hwf Hk Hw. destruct o as [k v|k|k|k v|k]; simpl in Hk; unfold engine_step.
  - eapply wp_step; [by apply eng_set_law|]. intros [r e'] w' (Hkw & Hr & Hroom). apply wp_ret.
    unfold map_step_or_oom, map_step. split; [done|].
    destruct Hr as [(-> & Hs & ->)|[Hr ->]].
    + rewrite Hs. simpl. auto.
    + split; [right; naive_solver|]. intros Hroomy. rewrite <- Hroom by done.
      destruct (Z.eqb_spec r 0); [lia|done].
  - eapply wp_eq; [by apply eng_get_law|]. apply wp_ret. split; [by apply keeps_wf_refl|].
    split; [by left|done].
  - eapply wp_step; [by apply eng_del_law|]. intros [r e'] w' (Hkw & Hr & Hm). apply wp_ret.
    unfold map_step_or_oom. rewrite Hr, Hm. split; [done|]. split; [by left|done].
  - eapply wp_step; [by apply eng_mod_law|]. intros [r e'] w' (Hkw & Hr). apply wp_ret.
    split; [done|]. unfold map_step_or_oom, map_step. destruct (eng_map e !! k).
    + destruct Hr as [[[-> ->]|[-> ->]] Hroom]; [auto|].
      split; [right|by intros ?%Hroom]. split_and!; [done|by exists (-2)|done].
    + destruct Hr as [-> ->]. auto.
  - eapply wp_eq; [by apply eng_exist_law|]. apply wp_ret. split; [by apply keeps_wf_refl|].
    split; [by left|done].
Qed.

(** A sequence of operations refines the abstract run. *)
Lemma engine_run_refines os e F w :
  eng_wf e → Forall (λ o, eng_key (op_key o)) os → owns (eng_owned e) F w →
  wp (engine_run e os) w (λ '(rs, e') w', keeps_wf F w e' w' ∧
    map_run_or_oom (eng_map e) os rs (eng_map e') ∧
    (roomy w → (rs, eng_map e') = map_run (eng_map e) os)).
Proof.
  revert e w. induction os as [|o os IH]; intros e w Hwf Hk Hw; simpl.
  { apply wp_ret. split; [by apply keeps_wf_refl|done]. }
  apply Forall_cons in Hk as [Hk Hks].
  eapply wp_step; [by apply engine_step_refines|]. intros [r e1] w1 (Hkw1 & Hs1 & Hr1).
  eapply wp_step; [apply IH; [apply Hkw1|done|apply Hkw1]|]. intros [rs e2] w2 (Hkw2 & Hs2 & Hr2).
  apply wp_ret. split_and!; [by eapply keeps_wf_trans|by exists (eng_map e1)|].
  intros Hroomy. rewrite <- Hr1 by done. rewrite <- Hr2; [done|]. by apply Hkw1.
Qed.

(** The whole life of an engine refines a run from the empty map, and gives back
    every block it allocated. *)
Lemma engine_session_refines os F w :
  Forall (λ o, eng_key (op_key o)) os → owns [] F w →
  wp (engine_session os) w (λ r w', owns [] F w' ∧
    (∀ rs, r = Some rs → ∃ m, map_run_or_oom ∅ os rs m) ∧
    (roomy w → r = Some (map_run ∅ os).1)).
Proof.
  intros Hk Hw. unfold engine_session.
  eapply wp_step; [by apply eng_create_law|]. intros [r e] w1 [[(-> & (Hwf & Hw1 & Hr) & He)|[-> Hw1]] Hroom].
  2:{ apply wp_ret. naive_solver. }
  simpl. eapply wp_step; [by apply engine_run_refines|]. intros [rs e2] w2 ((Hwf2 & Hw2 & Hr2) & Hs & Hrun).
  eapply wp_step; [by apply eng_destroy_law|]. intros e3 w3 [Hw3 Hr3]. apply wp_ret.
  assert (eng_map e = ∅) as Hm by (unfold eng_map; by rewrite He).
  rewrite Hm in Hs, Hrun. split_and!; [done|naive_solver|].
  intros Hroomy. rewrite <- Hrun by naive_solver. done.
Qed.
End refinement.
