(* ===== verification/Codec.v ===== *)
(** The wire codec, src/protocol/codec.c: the parser and the encoder of
    length-prefixed commands, the encoder of value replies, and the test that
    tells a client connection from a replica's.

    A command is [*count CRLF] followed by [count] fields, a field is
    [$length CRLF bytes CRLF].  [command_text] states that grammar; the theorems
    show that the parser accepts exactly its sentences, that its answers are
    stable when more bytes arrive, and that it inverts the encoder. *)

From Stdlib Require Import ZArith Lia.
From S2P Require Import Prelude.

(** * Data *)

(** [kvs_slice_t]: a pointer into memory owned by someone else ([None] is NULL)
    with the bytes that can be read there, and a length. *)
Record kvs_slice_t := Slice { data : option bytes; length : Z }.
#[export] Instance kvs_slice_eq_dec : EqDecision kvs_slice_t.
Proof. solve_decision. Defined.

(** The slice over exactly the bytes [s]. *)
Definition slice_of (s : bytes) : kvs_slice_t := Slice (Some s) (zlen s).

(** The three return codes of the parser: 1, 0 and -1.  The output parameters
    are only meaningful with 1, and are the payload of [Complete]. *)
Inductive parse_result (A : Type) : Type :=
  | Complete (a : A)
  | Incomplete
  | Malformed.
Arguments Complete {A} a.
Arguments Incomplete {A}.
Arguments Malformed {A}.

Definition parse_code {A} (r : parse_result A) : Z :=
  match r with Complete _ => 1 | Incomplete => 0 | Malformed => -1 end.

(** [if (result <= 0) return result;] *)
#[export] Instance parse_bind : MBind parse_result := λ A B k r,
  match r with Complete a => k a | Incomplete => Incomplete | Malformed => Malformed end.

(** * Parser *)

(** [input[pos]]; every use is guarded by [pos < input_length]. *)
Definition byte_at (input : bytes) (pos : Z) : byte := default NUL (znth input pos).

Definition is_digit (c : byte) : bool := (48 <=? schar c) && (schar c <=? 57).

(** The digit loop of [parse_number] over the bytes from [pos] on; [None] is the
    return of -1 when [value * 10 + digit] would exceed [SIZE_MAX]. *)
Fixpoint parse_number_loop (rest : bytes) (value pos : Z) : option (Z * Z) :=
  match rest with
  | [] => Some (value, pos)
  | c :: rest' =>
      if is_digit c then
        let digit := schar c - 48 in
        if (SIZE_MAX - digit) / 10 <? value then None
        else parse_number_loop rest' (value * 10 + digit) (pos + 1)
      else Some (value, pos)
  end.

Definition parse_number (input : bytes) (offset : Z) : parse_result (Z * Z) :=
  if zlen input <=? offset then Incomplete
  else if negb (is_digit (byte_at input offset)) then Malformed
  else match parse_number_loop (drop (Z.to_nat offset) input) 0 offset with
  | None => Malformed
  | Some (value, pos) =>
      if zlen input <=? pos then Incomplete
      else if negb (bool_decide (byte_at input pos = CR)) then Malformed
      else if zlen input <=? pos + 1 then Incomplete
      else if negb (bool_decide (byte_at input (pos + 1) = LF)) then Malformed
      else Complete (value, pos + 2)
  end.

Definition DOLLAR : byte := byte_of_Z 36.
Definition STAR : byte := byte_of_Z 42.

Definition parse_field (input : bytes) (offset max_command_bytes : Z) :
    parse_result (kvs_slice_t * Z) :=
  if zlen input <=? offset then Incomplete
  else if negb (bool_decide (byte_at input offset = DOLLAR)) then Malformed
  else
    '(length, pos) ← parse_number input (offset + 1);
    if (max_command_bytes <? pos) || (max_command_bytes - pos <? 2)
       || (max_command_bytes - pos - 2 <? length) then Malformed
    else
      let remaining := zlen input - pos in
      if (remaining <? length) || (remaining - length <? 2) then Incomplete
      else if negb (bool_decide (byte_at input (pos + length) = CR))
           || negb (bool_decide (byte_at input (pos + length + 1) = LF)) then Malformed
      else
        Complete (Slice (Some (take (Z.to_nat length) (drop (Z.to_nat pos) input))) length,
                  pos + length + 2).

(** The [for] loop over the fields. *)
Fixpoint parse_fields (count : nat) (input : bytes) (offset max_command_bytes : Z) :
    parse_result (list kvs_slice_t * Z) :=
  match count with
  | O => Complete ([], offset)
  | S count' =>
      '(field, offset) ← parse_field input offset max_command_bytes;
      '(fields, offset) ← parse_fields count' input offset max_command_bytes;
      Complete (field :: fields, offset)
  end.

(** The payload of [Complete] is ([fields[0..*field_count)], [*parsed_bytes]).
    [input] is [None] for a null pointer; the output pointers are addresses of
    the callers' locals. *)
Definition kvs_parse_command_limited (input : option bytes)
    (field_capacity max_command_bytes : Z) : parse_result (list kvs_slice_t * Z) :=
  match input with
  | None => Malformed
  | Some input =>
      if (field_capacity =? 0) || (max_command_bytes =? 0) then Malformed
      else if zlen input =? 0 then Incomplete
      else if negb (bool_decide (byte_at input 0 = STAR)) then Malformed
      else
        '(count, offset) ← parse_number input 1;
        if max_command_bytes <? offset then Malformed
        else if (count =? 0) || (field_capacity <? count) then Malformed
        else parse_fields (Z.to_nat count) input offset max_command_bytes
  end.

Definition kvs_parse_command (input : option bytes) (field_capacity : Z) :
    parse_result (list kvs_slice_t * Z) :=
  kvs_parse_command_limited input field_capacity SIZE_MAX.

(** * Encoder *)

(** The loop of [decimal_digits]; every iteration divides [value] by ten, so
    twenty are enough for a [size_t]. *)
Fixpoint decimal_digits_loop (fuel : nat) (value digits : Z) : Z :=
  match fuel with
  | O => digits
  | S fuel' =>
      if 10 <=? value then decimal_digits_loop fuel' (value / 10) (digits + 1) else digits
  end.

Definition decimal_digits (value : Z) : Z := decimal_digits_loop 20 value 1.

(** [None] is the return of -1. *)
Definition encoded_field_size (content_length : Z) : option Z :=
  let overhead := 1 + decimal_digits content_length + 4 in
  if SIZE_MAX - overhead <? content_length then None
  else Some (overhead + content_length).

Fixpoint kvs_encoded_command_size_loop (fields : list kvs_slice_t) (total : Z) : option Z :=
  match fields with
  | [] => Some total
  | f :: fields' =>
      match data f, encoded_field_size (length f) with
      | None, _ | _, None => None
      | Some _, Some field_size =>
          if SIZE_MAX - field_size <? total then None
          else kvs_encoded_command_size_loop fields' (total + field_size)
      end
  end.

Definition kvs_encoded_command_size (fields : list kvs_slice_t) : option Z :=
  if zlen fields =? 0 then None
  else kvs_encoded_command_size_loop fields (1 + decimal_digits (zlen fields) + 2).

(** The digits are stored from the last to the first. *)
Fixpoint write_decimal_loop (i : nat) (value : Z) (written : bytes) : bytes :=
  match i with
  | O => written
  | S i' => write_decimal_loop i' (value / 10) (byte_of_Z (48 + value mod 10) :: written)
  end.

Definition write_decimal (value : Z) : bytes :=
  write_decimal_loop (Z.to_nat (decimal_digits value)) value [].

(** [memcpy(output + pos, field.data, field.length)]. *)
Definition slice_bytes (f : kvs_slice_t) : bytes :=
  take (Z.to_nat (length f)) (default [] (data f)).

(** What the body of the encoding loops stores for one field. *)
Definition write_field (f : kvs_slice_t) : bytes :=
  [DOLLAR] ++ write_decimal (length f) ++ crlf ++ slice_bytes f ++ crlf.

(** The bytes stored from [output] on, [None] for the return of -1; their number
    is [*encoded_bytes]. *)
Definition kvs_encode_command (fields : list kvs_slice_t) (output_capacity : Z) : option bytes :=
  match kvs_encoded_command_size fields with
  | None => None
  | Some required =>
      if output_capacity <? required then None
      else Some ([STAR] ++ write_decimal (zlen fields) ++ crlf ++ mjoin (write_field <$> fields))
  end.

Definition kvs_encoded_value_response_size (value : kvs_slice_t) : option Z :=
  match data value with
  | None => None
  | Some _ => encoded_field_size (length value)
  end.

Definition kvs_encode_value_response (value : kvs_slice_t) (output_capacity : Z) : option bytes :=
  match kvs_encoded_value_response_size value with
  | None => None
  | Some required => if output_capacity <? required then None else Some (write_field value)
  end.

(** * Connection kind *)

Inductive kvs_connection_kind_t :=
  | KVS_CONNECTION_NEED_MORE
  | KVS_CONNECTION_CLIENT
  | KVS_CONNECTION_REPLICA
  | KVS_CONNECTION_INVALID.
#[export] Instance kvs_connection_kind_eq_dec : EqDecision kvs_connection_kind_t.
Proof. solve_decision. Defined.

Definition handshake : bytes := lit "PING" ++ crlf.

(** [length] is the number of bytes at [input] when that is not a null pointer. *)
Definition kvs_identify_connection (input : option bytes) (length : Z) : kvs_connection_kind_t :=
  if length =? 0 then KVS_CONNECTION_NEED_MORE
  else match input with
  | None => KVS_CONNECTION_INVALID
  | Some input =>
      if bool_decide (byte_at input 0 = STAR) then KVS_CONNECTION_CLIENT
      else
        let compare_length :=
          if length <? zlen handshake then length else zlen handshake in
        if negb (bool_decide (take (Z.to_nat compare_length) input =
                              take (Z.to_nat compare_length) handshake))
        then KVS_CONNECTION_INVALID
        else if length <? zlen handshake then KVS_CONNECTION_NEED_MORE
        else KVS_CONNECTION_REPLICA
  end.

(** * The grammar *)

(** The number a string of decimal digits denotes, continuing from [v]. *)
Definition dec_value (v : Z) (d : bytes) : Z := foldl (λ v c, v * 10 + (schar c - 48)) v d.

Definition number_text (n : Z) (d : bytes) : Prop :=
  d ≠ [] ∧ Forall (λ c, is_digit c = true) d ∧ dec_value 0 d = n.

Definition field_text (s t : bytes) : Prop :=
  ∃ d, number_text (zlen s) d ∧ t = [DOLLAR] ++ d ++ crlf ++ s ++ crlf.

(** [t] is the text of one command with fields [fs]; leading zeros are allowed
    in the numbers, as the parser allows them. *)
Definition command_text (fs : list bytes) (t : bytes) : Prop :=
  ∃ d ts, number_text (zlen fs) d ∧ Forall2 field_text fs ts ∧
    t = [STAR] ++ d ++ crlf ++ mjoin ts.

(** The bytes of [input] from [a] to [b] are [t]. *)
Definition seg (input : bytes) (a b : Z) (t : bytes) : Prop :=
  ∃ pre rest, input = pre ++ t ++ rest ∧ zlen pre = a ∧ b = a + zlen t.

(** The answer [r'] on a longer input keeps a definite answer [r]. *)
Definition keeps {A} (r r' : parse_result A) : Prop := r ≠ Incomplete → r' = r.

(** * Positions *)

Lemma znth_app_l {A} (l m : list A) i : i < zlen l → znth (l ++ m) i = znth l i.
Proof.
  unfold znth, zlen. intros Hi. destruct (i <? 0) eqn:E; [done|]. bool_to_prop.
  apply lookup_app_l. lia.
Qed.

Lemma byte_at_app_l l m i : i < zlen l → byte_at (l ++ m) i = byte_at l i.
Proof. intros. unfold byte_at. by rewrite znth_app_l. Qed.

Lemma byte_at_app_r l m i : 0 ≤ i → byte_at (l ++ m) (zlen l + i) = byte_at m i.
Proof.
  intros Hi. unfold byte_at, znth, zlen.
  destruct (Z.ltb_spec (Z.of_nat (List.length l) + i) 0); [lia|].
  destruct (Z.ltb_spec i 0); [lia|].
  rewrite lookup_app_r by lia. do 2 f_equal. lia.
Qed.

Lemma byte_at_app_here l c m : byte_at (l ++ c :: m) (zlen l) = c.
Proof.
  pose proof (byte_at_app_r l (c :: m) 0 ltac:(lia)) as E.
  by rewrite Z.add_0_r in E.
Qed.

Lemma drop_zlen_app {A} (l m : list A) : drop (Z.to_nat (zlen l)) (l ++ m) = m.
Proof. unfold zlen. rewrite Nat2Z.id. apply drop_app_length. Qed.

Lemma seg_app input a b c t1 t2 : seg input a b t1 → seg input b c t2 → seg input a c (t1 ++ t2).
Proof.
  intros (p1 & r1 & -> & <- & ->) (p2 & r2 & E & Hp & ->).
  exists p1, r2. rewrite app_assoc in E.
  apply app_inj_1 in E as [E1 E2].
  2:{ unfold zlen in *. rewrite length_app. lia. }
  subst. autorewrite with zlen. rewrite <- !app_assoc. split_and!; [done|done|lia].
Qed.

Lemma seg_split input a c t1 t2 :
  seg input a c (t1 ++ t2) →
  seg input a (a + zlen t1) t1 ∧ seg input (a + zlen t1) c t2.
Proof.
  intros (p & r & -> & <- & ->). split.
  - exists p, (t2 ++ r). by rewrite <- app_assoc.
  - exists (p ++ t1), r. rewrite <- !app_assoc. autorewrite with zlen. split_and!; [done|done|lia].
Qed.

Lemma seg_bounds input a b t : seg input a b t → 0 ≤ a ∧ a ≤ b ∧ b ≤ zlen input.
Proof.
  intros (p & r & -> & <- & ->). autorewrite with zlen.
  pose proof (zlen_nonneg p). pose proof (zlen_nonneg t). pose proof (zlen_nonneg r). lia.
Qed.

(** One byte read inside the input is a segment of length one. *)
Lemma seg_byte input a c : 0 ≤ a < zlen input → byte_at input a = c → seg input a (a + 1) [c].
Proof.
  intros Ha Hc. unfold byte_at, znth in Hc.
  destruct (Z.ltb_spec a 0); [lia|].
  destruct (input !! Z.to_nat a) as [x|] eqn:E; simpl in Hc; subst.
  2:{ apply lookup_ge_None in E. unfold zlen in *. lia. }
  exists (take (Z.to_nat a) input), (drop (S (Z.to_nat a)) input).
  split_and!.
  - simpl. by rewrite take_drop_middle.
  - unfold zlen in *. rewrite length_take. lia.
  - done.
Qed.

Lemma seg_byte_at input a b c t : seg input a b (c :: t) → a < zlen input ∧ byte_at input a = c.
Proof.
  intros (p & r & -> & <- & ->). simpl. rewrite byte_at_app_here. split; [|done].
  autorewrite with zlen. pose proof (zlen_nonneg t). pose proof (zlen_nonneg r). lia.
Qed.

Lemma seg_slice input a n :
  0 ≤ a → 0 ≤ n → a + n ≤ zlen input →
  seg input a (a + n) (take (Z.to_nat n) (drop (Z.to_nat a) input)).
Proof.
  intros Ha Hn Hb. unfold zlen in *.
  exists (take (Z.to_nat a) input), (drop (Z.to_nat n) (drop (Z.to_nat a) input)).
  split_and!.
  - by rewrite !take_drop.
  - unfold zlen. rewrite length_take. lia.
  - unfold zlen. rewrite length_take, length_drop. lia.
Qed.

Lemma seg_slice_eq input a b t :
  seg input a b t → take (Z.to_nat (b - a)) (drop (Z.to_nat a) input) = t.
Proof.
  intros (p & r & -> & <- & ->). rewrite drop_zlen_app.
  replace (zlen p + zlen t - zlen p) with (zlen t) by lia.
  unfold zlen. rewrite Nat2Z.id. apply take_app_length.
Qed.

(** * The number parser *)

Lemma is_digit_range c : is_digit c = true ↔ 48 ≤ schar c ≤ 57.
Proof. unfold is_digit. rewrite andb_true_iff, !Z.leb_le. lia. Qed.

Lemma dec_value_mono d v : 0 ≤ v → Forall (λ c, is_digit c = true) d → v ≤ dec_value v d.
Proof.
  unfold dec_value. revert v. induction d as [|c d IH]; intros v Hv Hd; simpl; [lia|].
  apply Forall_cons in Hd as [Hc Hd]. apply is_digit_range in Hc.
  specialize (IH (v * 10 + (schar c - 48)) ltac:(lia) Hd). lia.
Qed.

Lemma dec_value_app v d1 d2 : dec_value v (d1 ++ d2) = dec_value (dec_value v d1) d2.
Proof. apply foldl_app. Qed.

Lemma overflow_test v g : 0 ≤ v → 0 ≤ g ≤ 9 →
  ((SIZE_MAX - g) / 10 <? v) = (SIZE_MAX <? v * 10 + g).
Proof.
  intros Hv Hg. pose proof (Z.div_mod (SIZE_MAX - g) 10 ltac:(lia)).
  pose proof (Z.mod_pos_bound (SIZE_MAX - g) 10 ltac:(lia)).
  destruct (Z.ltb_spec ((SIZE_MAX - g) / 10) v), (Z.ltb_spec SIZE_MAX (v * 10 + g)); lia.
Qed.

(** The loop reads a maximal run of digits; it computes their value when that is
    representable, and fails otherwise. *)
Lemma parse_number_loop_run d rest v pos :
  0 ≤ v ≤ SIZE_MAX → Forall (λ c, is_digit c = true) d →
  match rest with [] => True | c :: _ => is_digit c = false end →
  parse_number_loop (d ++ rest) v pos =
    if dec_value v d <=? SIZE_MAX then Some (dec_value v d, pos + zlen d) else None.
Proof.
  revert v pos. induction d as [|c d IH]; intros v pos Hv Hd Hrest; simpl.
  - rewrite zlen_nil, Z.add_0_r. destruct (Z.leb_spec v SIZE_MAX); [|lia].
    destruct rest as [|c r]; simpl; [done|]. by rewrite Hrest.
  - apply Forall_cons in Hd as [Hc Hd]. rewrite Hc. apply is_digit_range in Hc.
    rewrite overflow_test by lia.
    pose proof (dec_value_mono d (v * 10 + (schar c - 48)) ltac:(lia) Hd).
    unfold dec_value in *. simpl.
    destruct (Z.ltb_spec SIZE_MAX (v * 10 + (schar c - 48))).
    + destruct (Z.leb_spec (foldl (λ v c, v * 10 + (schar c - 48)) (v * 10 + (schar c - 48)) d) SIZE_MAX); [lia|done].
    + rewrite IH; [|split; lia|done|done]. rewrite zlen_cons.
      destruct (_ <=? SIZE_MAX); [|done]. do 2 f_equal. lia.
Qed.

Lemma digit_run l : ∃ d rest, l = d ++ rest ∧ Forall (λ c, is_digit c = true) d ∧
  match rest with [] => True | c :: _ => is_digit c = false end.
Proof.
  induction l as [|c l (d & rest & -> & Hd & Hr)].
  - by exists [], [].
  - destruct (is_digit c) eqn:E.
    + exists (c :: d), rest. split_and!; [done|by constructor|done].
    + exists [], (c :: d ++ rest). split_and!; [done|done|done].
Qed.

Lemma is_digit_CR : is_digit CR = false. Proof. done. Qed.

Lemma parse_number_complete input a b n d :
  seg input a b (d ++ crlf) → number_text n d → n ≤ SIZE_MAX →
  parse_number input a = Complete (n, b).
Proof.
  intros (p & r & -> & <- & ->) (Hd & Hdig & Hn) Hmax.
  unfold parse_number. pose proof (zlen_nonneg r). pose proof (zlen_nonneg d).
  pose proof (zlen_nonneg p).
  rewrite <- (app_assoc d). change (crlf ++ r) with (CR :: LF :: r).
  assert (0 < zlen d ∧ is_digit (byte_at (p ++ d ++ CR :: LF :: r) (zlen p)) = true) as [Hpos ->].
  { destruct d as [|c d]; [done|]. simpl app. rewrite byte_at_app_here.
    split; [rewrite zlen_cons; pose proof (zlen_nonneg d); lia|].
    by apply Forall_cons in Hdig as [? _]. }
  rewrite (proj2 (Z.leb_gt _ _)) by (autorewrite with zlen; lia).
  simpl negb. cbv iota. rewrite drop_zlen_app.
  rewrite parse_number_loop_run; [|unfold SIZE_MAX; lia|done|done].
  rewrite Hn, (proj2 (Z.leb_le _ _)) by done.
  rewrite app_assoc.
  assert (zlen (p ++ d) = zlen p + zlen d) as <- by apply zlen_app.
  rewrite byte_at_app_here, byte_at_app_r by lia.
  rewrite !(proj2 (Z.leb_gt _ _)) by (autorewrite with zlen; lia).
  simpl. do 2 f_equal. autorewrite with zlen. lia.
Qed.

Lemma parse_number_sound input a n b :
  0 ≤ a → parse_number input a = Complete (n, b) →
  ∃ d, seg input a b (d ++ crlf) ∧ number_text n d ∧ 0 ≤ n ≤ SIZE_MAX.
Proof.
  intros Ha. unfold parse_number.
  destruct (Z.leb_spec (zlen input) a) as [|Hlt]; [done|].
  destruct (is_digit (byte_at input a)) eqn:Hc0; simpl negb; cbv iota; [|done].
  destruct (digit_run (drop (Z.to_nat a) input)) as (d & rest & Hdrop & Hd & Hr).
  rewrite Hdrop, parse_number_loop_run by (unfold SIZE_MAX; done || lia).
  destruct (Z.leb_spec (dec_value 0 d) SIZE_MAX) as [Hle|]; [|done].
  destruct (Z.leb_spec (zlen input) (a + zlen d)); [done|].
  destruct (bool_decide_reflect (byte_at input (a + zlen d) = CR)) as [Hcr|]; [|done]. simpl negb; cbv iota.
  destruct (Z.leb_spec (zlen input) (a + zlen d + 1)); [done|].
  destruct (bool_decide_reflect (byte_at input (a + zlen d + 1) = LF)) as [Hlf|]; [|done]. simpl.
  intros [= <- <-]. pose proof (zlen_nonneg d).
  exists d. split_and!.
  - assert (seg input a (a + zlen d) d) as Hseg.
    { exists (take (Z.to_nat a) input), rest.
      rewrite <- Hdrop, take_drop. split_and!; [done| |done].
      unfold zlen in *. rewrite length_take. lia. }
    change crlf with ([CR] ++ [LF]).
    eapply seg_app; [exact Hseg|]. replace (a + zlen d + 2) with (a + zlen d + 1 + 1) by lia.
    eapply seg_app; apply seg_byte; done || lia.
  - split_and!; [|done|done]. intros ->. simpl in Hdrop. rewrite <- Hdrop in Hr.
    clear -Hr Hc0 Ha Hlt Hdrop.
    destruct rest as [|c rest].
    + apply (f_equal List.length) in Hdrop. rewrite length_drop in Hdrop. unfold zlen in *. simpl in *. lia.
    + rewrite Hdrop in Hr. assert (byte_at input a = c) as E; [|congruence].
      rewrite <- (take_drop (Z.to_nat a) input), Hdrop.
      replace a with (zlen (take (Z.to_nat a) input)) at 2.
      2:{ unfold zlen in *. rewrite length_take. lia. }
      by rewrite byte_at_app_here.
  - apply (dec_value_mono d 0); [lia|done].
  - done.
Qed.

(** * The field and command parsers *)

Lemma parse_field_complete input a b s t max :
  seg input a b t → field_text s t → b ≤ max → zlen s ≤ SIZE_MAX →
  parse_field input a max = Complete (slice_of s, b).
Proof.
  intros Hs (d & Hn & ->) Hmax Hlen. pose proof (zlen_nonneg s).
  pose proof (seg_bounds _ _ _ _ Hs) as Hb0.
  rewrite (app_assoc d) in Hs.
  apply seg_split in Hs as [Hs1 Hs2]. apply seg_split in Hs2 as [Hs2 Hs3].
  apply seg_split in Hs3 as [Hs3 Hs4].
  apply seg_byte_at in Hs1 as [Hlt Hdol].
  assert (b = a + zlen [DOLLAR] + zlen (d ++ crlf) + zlen s + 2) as Hb by (by destruct Hs4 as (? & ? & _ & _ & ->)).
  change (zlen [DOLLAR]) with 1 in *.
  pose proof (seg_bounds _ _ _ _ Hs4) as (? & ? & Hle).
  change crlf with ([CR] ++ [LF]) in Hs4. apply seg_split in Hs4 as [Hcr Hlf].
  apply seg_byte_at in Hcr as [_ Hcr], Hlf as [_ Hlf]. change (zlen [CR]) with 1 in Hlf.
  pose proof (zlen_nonneg (d ++ crlf)).
  unfold parse_field.
  rewrite (proj2 (Z.leb_gt _ _)), bool_decide_true by done. simpl negb; cbv iota.
  rewrite (parse_number_complete _ _ _ (zlen s) d Hs2 Hn Hlen).
  set (pos := a + 1 + zlen (d ++ crlf)) in *. simpl.
  rewrite !(proj2 (Z.ltb_ge _ _)) by lia. simpl.
  rewrite !bool_decide_true by done. simpl.
  do 2 f_equal; [|lia]. unfold slice_of. do 2 f_equal.
  pose proof (seg_slice_eq _ _ _ _ Hs3) as E.
  by replace (pos + zlen s - pos) with (zlen s) in E by lia.
Qed.

Lemma parse_field_sound input a f b max :
  0 ≤ a → parse_field input a max = Complete (f, b) →
  ∃ s t, f = slice_of s ∧ field_text s t ∧ seg input a b t ∧ b ≤ max ∧ zlen s ≤ SIZE_MAX.
Proof.
  intros Ha. unfold parse_field.
  destruct (Z.leb_spec (zlen input) a); [done|].
  destruct (bool_decide_reflect (byte_at input a = DOLLAR)) as [Hdol|]; [|done]. simpl negb; cbv iota.
  destruct (parse_number input (a + 1)) as [[n pos]| |] eqn:En; simpl; try done.
  apply parse_number_sound in En as (d & Hd & Hn & Hr); [|lia].
  destruct (orb _ _) eqn:E1; [done|].
  destruct (orb (_ <? n) _) eqn:E2; [done|].
  destruct (orb (negb _) _) eqn:E3; [done|]. bool_to_prop.
  intros [= <- <-]. pose proof (seg_bounds _ _ _ _ Hd).
  pose proof (seg_slice input pos n ltac:(lia) ltac:(lia) ltac:(lia)) as Hs.
  set (s := take _ _) in *.
  assert (zlen s = n) as Hsn.
  { unfold s, zlen in *. rewrite length_take, length_drop. lia. }
  exists s, ([DOLLAR] ++ d ++ crlf ++ s ++ crlf). split_and!.
  - unfold slice_of. by rewrite Hsn.
  - exists d. by rewrite Hsn.
  - rewrite (app_assoc d).
    eapply seg_app; [apply seg_byte; [lia|done]|].
    eapply seg_app; [exact Hd|]. eapply seg_app; [exact Hs|].
    replace (pos + n + 2) with (pos + n + 1 + 1) by lia. change crlf with ([CR] ++ [LF]).
    eapply seg_app; apply seg_byte; done || lia.
  - lia.
  - lia.
Qed.

Lemma parse_fields_complete input a b fs ts max :
  seg input a b (mjoin ts) → Forall2 field_text fs ts → b ≤ max →
  Forall (λ s, zlen s ≤ SIZE_MAX) fs →
  parse_fields (List.length fs) input a max = Complete (slice_of <$> fs, b).
Proof.
  intros Hs Hf. revert a Hs. induction Hf as [|s t fs ts Hst Hf IH]; intros a Hs Hmax Hlen; simpl.
  - destruct Hs as (? & ? & _ & _ & ->). unfold zlen. simpl. by rewrite Z.add_0_r.
  - apply Forall_cons in Hlen as [? ?].
    simpl in Hs. apply seg_split in Hs as [H1 H2]. pose proof (seg_bounds _ _ _ _ H2).
    rewrite (parse_field_complete _ _ _ s t) by (done || lia). simpl.
    by rewrite IH.
Qed.

Lemma parse_fields_sound n input a fields b max :
  0 ≤ a ≤ zlen input → a ≤ max → parse_fields n input a max = Complete (fields, b) →
  ∃ fs ts, fields = slice_of <$> fs ∧ List.length fs = n ∧ Forall2 field_text fs ts ∧
    seg input a b (mjoin ts) ∧ b ≤ max ∧ Forall (λ s, zlen s ≤ SIZE_MAX) fs.
Proof.
  revert a fields b. induction n as [|n IH]; intros a fields b Ha Hm; simpl.
  - intros [= <- <-]. exists [], []. split_and!; try done.
    exists (take (Z.to_nat a) input), (drop (Z.to_nat a) input).
    simpl. rewrite take_drop, zlen_nil. split_and!; [done| |lia].
    unfold zlen in *. rewrite length_take. lia.
  - destruct (parse_field input a max) as [[f pos]| |] eqn:E1; simpl; try done.
    apply parse_field_sound in E1 as (s & t & -> & Ht & Hs & Hp & Hl); [|lia].
    pose proof (seg_bounds _ _ _ _ Hs).
    destruct (parse_fields n input pos max) as [[fl pos']| |] eqn:E2; simpl; try done.
    apply IH in E2 as (fs & ts & -> & <- & Hf & Hs' & Hb & Hl'); [|lia|lia].
    intros [= <- <-]. exists (s :: fs), (t :: ts). split_and!; try done.
    + by constructor.
    + simpl. by eapply seg_app.
    + by constructor.
Qed.

(** Acceptance, in both directions, with the field slices computed. *)
Lemma parse_command_text input cap max fields n :
  0 ≤ max → cap ≤ SIZE_MAX → zlen input ≤ SIZE_MAX →
  kvs_parse_command_limited (Some input) cap max = Complete (fields, n) ↔
  ∃ fs t, fields = slice_of <$> fs ∧ command_text fs t ∧ seg input 0 n t ∧
    1 ≤ zlen fs ≤ cap ∧ n ≤ max.
Proof.
  intros Hmax Hcap Hin. unfold kvs_parse_command_limited. split.
  - destruct (orb (cap =? 0) _) eqn:E0; [done|].
    destruct (Z.eqb_spec (zlen input) 0) as [|Hne]; [done|].
    destruct (bool_decide_reflect (byte_at input 0 = STAR)) as [Hstar|]; [|done]. simpl negb; cbv iota.
    destruct (parse_number input 1) as [[count off]| |] eqn:E1; simpl; try done.
    apply parse_number_sound in E1 as (d & Hd & Hn & Hr); [|lia].
    destruct (Z.ltb_spec max off); [done|].
    destruct (orb (count =? 0) _) eqn:E2; [done|]. bool_to_prop. intros E3.
    pose proof (seg_bounds _ _ _ _ Hd). pose proof (zlen_nonneg input).
    apply parse_fields_sound in E3 as (fs & ts & -> & Hlen & Hf & Hs & Hb & Hl); [|lia|lia].
    exists fs, ([STAR] ++ d ++ crlf ++ mjoin ts).
    assert (zlen fs = count) as Hc by (unfold zlen; lia). split_and!; [done| | |lia|lia|done].
    + exists d, ts. rewrite Hc. done.
    + eapply seg_app; [apply seg_byte; [lia|done]|]. rewrite app_assoc. by eapply seg_app.
  - intros (fs & t & -> & (d & ts & Hn & Hf & ->) & Hs & Hc & Hle).
    pose proof (seg_bounds _ _ _ _ Hs).
    assert (Forall (λ s, zlen s ≤ SIZE_MAX) fs) as Hl.
    { apply Forall_forall. intros s Hs'.
      apply list_elem_of_lookup in Hs' as (i & Hi).
      destruct (Forall2_lookup_l _ _ _ _ _ Hf Hi) as (t & Hti & (d' & _ & Ht)).
      destruct Hs as (p & r & Hin' & _ & _).
      apply (f_equal List.length) in Hin'. revert Hin'.
      rewrite <- (take_drop_middle ts i t Hti), join_app. simpl. rewrite Ht.
      repeat first [rewrite length_app | progress simpl]. unfold zlen in *. lia. }
    destruct (orb (cap =? 0) _) eqn:E0.
    { apply orb_true_iff in E0 as [E0|E0]; bool_to_prop; [lia|].
      destruct Hs as (? & ? & _ & ? & ->). revert Hle. autorewrite with zlen.
      pose proof (zlen_nonneg d). pose proof (zlen_nonneg crlf). pose proof (zlen_nonneg (mjoin ts)). lia. }
    apply seg_split in Hs as [Hs1 Hs2]. rewrite app_assoc in Hs2. apply seg_split in Hs2 as [Hs2 Hs3].
    pose proof (seg_bounds _ _ _ _ Hs3).
    apply seg_byte_at in Hs1 as [Hlt Hstar]. change (zlen [STAR]) with 1 in *.
    destruct (Z.eqb_spec (zlen input) 0); [lia|].
    rewrite bool_decide_true by done. simpl negb; cbv iota.
    change (0 + 1) with 1 in *.
    rewrite (parse_number_complete _ _ _ (zlen fs) d Hs2 Hn) by lia. simpl.
    rewrite (proj2 (Z.ltb_ge _ _)) by lia.
    destruct (Z.eqb_spec (zlen fs) 0); [lia|]. rewrite (proj2 (Z.ltb_ge _ _)) by lia. simpl.
    unfold zlen at 1. rewrite Nat2Z.id.
    by apply parse_fields_complete with (ts := ts).
Qed.

(** * Stability under more input *)

Lemma parse_number_loop_app l m v pos :
  match parse_number_loop l v pos with
  | None => parse_number_loop (l ++ m) v pos = None
  | Some (v', pos') => pos' < pos + zlen l → parse_number_loop (l ++ m) v pos = Some (v', pos')
  end.
Proof.
  revert v pos. induction l as [|c l IH]; intros v pos; simpl.
  - rewrite zlen_nil. lia.
  - destruct (is_digit c); [|done]. destruct (_ <? v); [done|].
    specialize (IH (v * 10 + (schar c - 48)) (pos + 1)).
    destruct parse_number_loop as [[v' pos']|]; [|done].
    rewrite zlen_cons. intros. apply IH. lia.
Qed.

Lemma parse_number_keeps l m off : 0 ≤ off →
  keeps (parse_number l off) (parse_number (l ++ m) off).
Proof.
  unfold keeps, parse_number. intros Hoff. pose proof (zlen_nonneg m). rewrite zlen_app.
  destruct (Z.leb_spec (zlen l) off); [done|].
  rewrite (proj2 (Z.leb_gt (zlen l + zlen m) off)), byte_at_app_l by lia.
  destruct (negb _); [done|].
  rewrite drop_app_le by (unfold zlen in *; lia).
  pose proof (parse_number_loop_app (drop (Z.to_nat off) l) m 0 off) as Hl.
  destruct (parse_number_loop (drop (Z.to_nat off) l) 0 off) as [[v pos]|]; [|by rewrite Hl].
  destruct (Z.leb_spec (zlen l) pos) as [|Hlt]; [done|].
  rewrite Hl by (unfold zlen in *; rewrite length_drop; lia). clear Hl.
  rewrite (proj2 (Z.leb_gt (zlen l + zlen m) pos)), byte_at_app_l by lia.
  destruct (negb _); [done|].
  destruct (Z.leb_spec (zlen l) (pos + 1)); [done|].
  rewrite (proj2 (Z.leb_gt (zlen l + zlen m) (pos + 1))), byte_at_app_l by lia. done.
Qed.

Lemma parse_number_bounds l off v pos :
  0 ≤ off → parse_number l off = Complete (v, pos) → off < pos ≤ zlen l ∧ 0 ≤ v.
Proof.
  intros Hoff Hp. apply parse_number_sound in Hp as (d & Hs & _ & Hv); [|done].
  pose proof (seg_bounds _ _ _ _ Hs). destruct Hs as (? & ? & _ & _ & ->).
  revert H. autorewrite with zlen. change (zlen crlf) with 2. pose proof (zlen_nonneg d). lia.
Qed.

Lemma parse_field_keeps l m off max : 0 ≤ off →
  keeps (parse_field l off max) (parse_field (l ++ m) off max).
Proof.
  unfold keeps, parse_field. intros Hoff. pose proof (zlen_nonneg m). rewrite zlen_app.
  destruct (Z.leb_spec (zlen l) off); [done|].
  rewrite (proj2 (Z.leb_gt (zlen l + zlen m) off)), byte_at_app_l by lia.
  destruct (negb _); [done|].
  pose proof (parse_number_keeps l m (off + 1) ltac:(lia)) as Hn. unfold keeps in Hn.
  destruct (parse_number l (off + 1)) as [[n pos]| |] eqn:E; simpl; [|done|by rewrite Hn].
  rewrite Hn by done. simpl. apply parse_number_bounds in E; [|lia].
  destruct (orb _ _); [done|].
  destruct (orb _ _) eqn:E2; [done|]. bool_to_prop.
  rewrite !(proj2 (Z.ltb_ge _ _)) by lia. simpl.
  rewrite !byte_at_app_l by lia. destruct (orb _ _); [done|].
  intros _. rewrite drop_app_le by (unfold zlen in *; lia).
  by rewrite take_app_le by (unfold zlen in *; rewrite length_drop; lia).
Qed.

Lemma parse_fields_keeps n l m off max : 0 ≤ off →
  keeps (parse_fields n l off max) (parse_fields n (l ++ m) off max).
Proof.
  unfold keeps. revert off. induction n as [|n IH]; intros off Hoff; simpl; [done|].
  pose proof (parse_field_keeps l m off max Hoff) as Hf. unfold keeps in Hf.
  destruct (parse_field l off max) as [[f pos]| |] eqn:E; simpl; [|done|by rewrite Hf].
  rewrite Hf by done. simpl. apply parse_field_sound in E as (? & ? & _ & _ & Hs & _); [|done].
  apply seg_bounds in Hs. specialize (IH pos ltac:(lia)).
  destruct (parse_fields n l pos max) as [[fl pos']| |]; simpl; [|done|]; by rewrite IH.
Qed.

(** * The encoder *)

Lemma write_decimal_loop_app i v acc : write_decimal_loop i v acc = write_decimal_loop i v [] ++ acc.
Proof.
  revert v acc. induction i as [|i IH]; intros v acc; simpl; [done|].
  rewrite IH, (IH _ [_]), <- app_assoc. done.
Qed.

Lemma digit_byte n : 0 ≤ n ≤ 9 → schar (byte_of_Z (48 + n)) = 48 + n.
Proof.
  intros. unfold schar. rewrite uchar_byte_of_Z, Z.mod_small by lia.
  destruct (Z.ltb_spec (48 + n) 128); lia.
Qed.

Lemma write_decimal_loop_spec i v : 0 ≤ v < 10 ^ Z.of_nat i →
  List.length (write_decimal_loop i v []) = i ∧
  Forall (λ c, is_digit c = true) (write_decimal_loop i v []) ∧
  dec_value 0 (write_decimal_loop i v []) = v.
Proof.
  revert v. induction i as [|i IH]; intros v Hv; simpl.
  - simpl in Hv. split_and!; [done|constructor|unfold dec_value; simpl; lia].
  - rewrite Nat2Z.inj_succ, Z.pow_succ_r in Hv by lia.
    pose proof (Z.mod_pos_bound v 10 ltac:(lia)). pose proof (Z.div_mod v 10 ltac:(lia)).
    rewrite write_decimal_loop_app. destruct (IH (v / 10)) as (Hl & Hd & Hval).
    { split; [apply Z.div_pos; lia|]. apply Z.div_lt_upper_bound; lia. }
    rewrite length_app, Hl. split_and!.
    + simpl. lia.
    + apply Forall_app. split; [done|]. constructor; [|constructor].
      apply is_digit_range. rewrite digit_byte; lia.
    + rewrite dec_value_app, Hval. unfold dec_value. simpl. rewrite digit_byte; lia.
Qed.

Lemma decimal_digits_loop_spec fuel v k :
  0 ≤ v < 10 ^ (Z.of_nat fuel + 1) →
  ∃ j, decimal_digits_loop fuel v k = k + j ∧ 0 ≤ j ≤ Z.of_nat fuel ∧ v < 10 ^ (j + 1) ∧ (j = 0 ∨ 10 ^ j ≤ v).
Proof.
  revert v k. induction fuel as [|fuel IH]; intros v k Hv; simpl.
  - exists 0. simpl in *. lia.
  - destruct (Z.leb_spec 10 v).
    + destruct (IH (v / 10) (k + 1)) as (j & Hj & Hb & Hlt & Hge).
      { split; [apply Z.div_pos; lia|]. apply Z.div_lt_upper_bound; [lia|].
        replace (Z.of_nat (S fuel) + 1) with (Z.succ (Z.of_nat fuel + 1)) in Hv by lia.
        rewrite Z.pow_succ_r in Hv by lia. lia. }
      exists (j + 1). pose proof (Z.div_mod v 10 ltac:(lia)). pose proof (Z.mod_pos_bound v 10 ltac:(lia)).
      rewrite Hj. split_and!; [lia|lia|lia| |].
      * replace (j + 1 + 1) with (Z.succ (j + 1)) by lia. rewrite Z.pow_succ_r by lia. lia.
      * right. replace (j + 1) with (Z.succ j) by lia. rewrite Z.pow_succ_r by lia.
        destruct Hge as [->|]; [simpl; lia|lia].
    + exists 0. rewrite Z.add_0_r. split_and!; [done|lia|lia|simpl; lia|by left].
Qed.

Lemma decimal_digits_spec v : 0 ≤ v ≤ SIZE_MAX →
  1 ≤ decimal_digits v ≤ 21 ∧ v < 10 ^ decimal_digits v.
Proof.
  intros Hv. unfold decimal_digits.
  destruct (decimal_digits_loop_spec 20 v 1) as (j & -> & Hj & Hlt & _).
  { unfold SIZE_MAX in Hv. simpl Z.of_nat. lia. }
  split; [lia|]. by rewrite Z.add_comm.
Qed.

Lemma write_decimal_text v : 0 ≤ v ≤ SIZE_MAX →
  number_text v (write_decimal v) ∧ zlen (write_decimal v) = decimal_digits v.
Proof.
  intros Hv. pose proof (decimal_digits_spec v Hv) as [Hd Hlt]. unfold write_decimal.
  destruct (write_decimal_loop_spec (Z.to_nat (decimal_digits v)) v) as (Hl & Hf & Hval).
  { rewrite Z2Nat.id by lia. lia. }
  split; [|unfold zlen; lia]. split_and!; [|done|done].
  intros E. rewrite E in Hl. simpl in Hl. lia.
Qed.

(** A slice over exactly the bytes it views, with a length that fits. *)
Definition wf_slice (f : kvs_slice_t) : Prop :=
  ∃ s, f = slice_of s ∧ zlen s ≤ SIZE_MAX.

Lemma slice_bytes_of s : slice_bytes (slice_of s) = s.
Proof. unfold slice_bytes, slice_of, zlen. simpl. rewrite Nat2Z.id. by rewrite take_ge. Qed.

Lemma write_field_text f : wf_slice f → field_text (slice_bytes f) (write_field f).
Proof.
  intros (s & -> & Hs). pose proof (zlen_nonneg s). rewrite slice_bytes_of.
  exists (write_decimal (zlen s)). split; [apply write_decimal_text; lia|].
  unfold write_field. rewrite slice_bytes_of. done.
Qed.

Lemma encoded_field_size_spec f : wf_slice f →
  encoded_field_size (length f) =
    if zlen (write_field f) <=? SIZE_MAX then Some (zlen (write_field f)) else None.
Proof.
  intros (s & -> & Hs). pose proof (zlen_nonneg s).
  destruct (write_decimal_text (zlen s) ltac:(lia)) as [_ Hd].
  assert (zlen (write_field (slice_of s)) = 1 + decimal_digits (zlen s) + 4 + zlen s) as ->.
  { unfold write_field. rewrite slice_bytes_of. autorewrite with zlen. simpl length. rewrite Hd.
    change (zlen crlf) with 2. lia. }
  unfold encoded_field_size. simpl length.
  destruct (Z.ltb_spec (SIZE_MAX - (1 + decimal_digits (zlen s) + 4)) (zlen s)),
    (Z.leb_spec (1 + decimal_digits (zlen s) + 4 + zlen s) SIZE_MAX); done || lia.
Qed.

Lemma encoded_size_loop_spec fields total : 0 ≤ total ≤ SIZE_MAX → Forall wf_slice fields →
  kvs_encoded_command_size_loop fields total =
    let n := total + zlen (mjoin (write_field <$> fields)) in
    if n <=? SIZE_MAX then Some n else None.
Proof.
  revert total. induction fields as [|f fields IH]; intros total Ht Hf.
  - simpl. rewrite zlen_nil, Z.add_0_r. rewrite (proj2 (Z.leb_le _ _)) by lia. done.
  - apply Forall_cons in Hf as [Hw Hf].
    change (mjoin (write_field <$> f :: fields)) with (write_field f ++ mjoin (write_field <$> fields)).
    cbn [kvs_encoded_command_size_loop]. rewrite encoded_field_size_spec by done.
    pose proof (zlen_nonneg (write_field f)). pose proof (zlen_nonneg (mjoin (write_field <$> fields))).
    destruct Hw as (s & -> & _). simpl data. cbv iota beta. rewrite zlen_app.
    set (w := zlen (write_field _)) in *. set (r := zlen (mjoin _)) in *.
    destruct (Z.leb_spec w SIZE_MAX).
    + destruct (Z.ltb_spec (SIZE_MAX - w) total).
      * destruct (Z.leb_spec (total + (w + r)) SIZE_MAX); done || lia.
      * rewrite IH by (done || (split; lia)). cbv zeta. fold r. by rewrite Z.add_assoc.
    + destruct (Z.leb_spec (total + (w + r)) SIZE_MAX); done || lia.
Qed.

Lemma command_parses input rest cap max fs t :
  0 ≤ max → cap ≤ SIZE_MAX → zlen (t ++ rest) ≤ SIZE_MAX → input = t ++ rest →
  command_text fs t → 1 ≤ zlen fs ≤ cap → zlen t ≤ max →
  kvs_parse_command_limited (Some input) cap max = Complete (slice_of <$> fs, zlen t).
Proof.
  intros Hmax Hcap Hin -> Ht Hc Hle. apply parse_command_text; try done.
  exists fs, t. split_and!; try done; [|lia|lia]. by exists [], rest.
Qed.

Lemma slices_of_bytes fields : Forall wf_slice fields → slice_of <$> (slice_bytes <$> fields) = fields.
Proof.
  induction 1 as [|f fields (s & -> & _) _ IH]; [done|]. rewrite !fmap_cons, slice_bytes_of.
  by rewrite IH.
Qed.

Lemma encode_command_text fields cap out :
  Forall wf_slice fields → zlen fields ≤ SIZE_MAX → kvs_encode_command fields cap = Some out →
  command_text (slice_bytes <$> fields) out ∧ zlen out ≤ cap ∧ zlen out ≤ SIZE_MAX ∧ 1 ≤ zlen fields ∧
  kvs_encoded_command_size fields = Some (zlen out).
Proof.
  intros Hw Hl. unfold kvs_encode_command, kvs_encoded_command_size.
  pose proof (zlen_nonneg fields). destruct (Z.eqb_spec (zlen fields) 0) as [|Hne]; [done|].
  destruct (write_decimal_text (zlen fields) ltac:(lia)) as [Hn Hd].
  pose proof (decimal_digits_spec (zlen fields) ltac:(lia)).
  rewrite encoded_size_loop_spec by (done || (unfold SIZE_MAX; lia)). cbv zeta.
  destruct (Z.leb_spec (1 + decimal_digits (zlen fields) + 2 + zlen (mjoin (write_field <$> fields))) SIZE_MAX); [|done].
  destruct (Z.ltb_spec cap (1 + decimal_digits (zlen fields) + 2 + zlen (mjoin (write_field <$> fields)))); [done|].
  intros Hout. apply (inj Some) in Hout. subst out.
  assert (zlen ([STAR] ++ write_decimal (zlen fields) ++ crlf ++ mjoin (write_field <$> fields)) =
    1 + decimal_digits (zlen fields) + 2 + zlen (mjoin (write_field <$> fields))) as E.
  { autorewrite with zlen. rewrite Hd. lia. }
  rewrite E. split_and!; [|done|done|lia|done].
  exists (write_decimal (zlen fields)), (write_field <$> fields). split_and!.
  - unfold zlen in *. by rewrite length_fmap.
  - apply Forall2_fmap, Forall_Forall2_diag. eapply Forall_impl; [exact Hw|]. apply write_field_text.
  - done.
Qed.

Lemma command_keeps input more cap max :
  keeps (kvs_parse_command_limited (Some input) cap max)
    (kvs_parse_command_limited (Some (input ++ more)) cap max).
Proof.
  unfold keeps, kvs_parse_command_limited. destruct (orb _ _); [done|].
  pose proof (zlen_nonneg input). pose proof (zlen_nonneg more). rewrite zlen_app.
  destruct (Z.eqb_spec (zlen input) 0); [done|].
  rewrite (proj2 (Z.eqb_neq _ _)), byte_at_app_l by lia. destruct (negb _); [done|].
  pose proof (parse_number_keeps input more 1 ltac:(lia)) as Hn. unfold keeps in Hn.
  destruct (parse_number input 1) as [[c off]| |] eqn:E; simpl; [|done|by rewrite Hn].
  rewrite Hn by done. simpl. apply parse_number_bounds in E; [|lia].
  destruct (max <? off); [done|]. destruct (orb _ _); [done|].
  apply parse_fields_keeps. lia.
Qed.

(** Every proper prefix of a command is answered with 0. *)
Lemma command_prefix_waits fs t capacity max k :
  0 ≤ max → capacity ≤ SIZE_MAX → zlen t ≤ SIZE_MAX → command_text fs t → 1 ≤ zlen fs ≤ capacity →
  zlen t ≤ max → (k < List.length t)%nat →
  kvs_parse_command_limited (Some (take k t)) capacity max = Incomplete.
Proof.
  intros Hmax Hcap Hsz Ht Hc Hle Hk.
  pose proof (command_parses (t ++ []) [] capacity max fs t Hmax Hcap) as Hp.
  rewrite app_nil_r in Hp. specialize (Hp Hsz eq_refl Ht Hc Hle).
  assert (t = take k t ++ drop k t) as Hsplit by (by rewrite take_drop).
  destruct (kvs_parse_command_limited (Some (take k t)) capacity max) as [[f n]| |] eqn:Ek; [|done|].
  - assert (zlen (take k t) ≤ SIZE_MAX) by (unfold zlen in *; rewrite length_take; lia).
    pose proof Ek as Ek'. apply parse_command_text in Ek' as (? & ? & _ & _ & Hs & _); [|done|done|done].
    apply seg_bounds in Hs. rewrite Hsplit in Hp at 1.
    assert (kvs_parse_command_limited (Some (take k t ++ drop k t)) capacity max = Complete (f, n)) as E2.
    { rewrite <- Ek. apply command_keeps. by rewrite Ek. }
    rewrite E2 in Hp. injection Hp as _ Hn. unfold zlen in *. rewrite length_take in *. lia.
  - rewrite Hsplit in Hp at 1. rewrite command_keeps in Hp by (by rewrite Ek). congruence.
Qed.

(** Well-formedness of literal slices. *)
Ltac wf_slices :=
  repeat (apply Forall_cons; split; [eexists; split; [reflexivity|vm_compute; discriminate]|]);
  apply Forall_nil; exact I.

(** * Properties *)

(** C7: the parser accepts an input exactly when it starts with a command of the
    grammar whose field count is within the capacity and whose text is within
    the limit; it then returns the field slices and the length of that text, so
    bytes of a following pipelined command are never consumed. *)
Theorem parse_accepts_grammar input cap max fields n :
  0 ≤ max → cap ≤ SIZE_MAX → zlen input ≤ SIZE_MAX →
  kvs_parse_command_limited (Some input) cap max = Complete (fields, n) ↔
  ∃ fs t rest, input = t ++ rest ∧ command_text fs t ∧ fields = slice_of <$> fs ∧
    n = zlen t ∧ 1 ≤ zlen fs ≤ cap ∧ zlen t ≤ max.
Proof.
  intros Hmax Hcap Hin. rewrite parse_command_text by done. split.
  - intros (fs & t & -> & Ht & (p & r & -> & Hp & ->) & Hc & Hle).
    assert (p = []) as -> by (apply length_zero_iff_nil; unfold zlen in Hp; lia).
    exists fs, t, r. split_and!; done || lia.
  - intros (fs & t & r & -> & Ht & -> & -> & Hc & Hle).
    exists fs, t. split_and!; done || lia || by exists [], r.
Qed.

Lemma parse_accepts_grammar_witness :
  kvs_parse_command_limited (Some (lit "*1" ++ crlf ++ lit "$4" ++ crlf ++ lit "PING" ++ crlf ++ lit "*"))
    128 1048576 = Complete ([slice_of (lit "PING")], 14).
Proof.
  apply (proj2 (parse_accepts_grammar
    (lit "*1" ++ crlf ++ lit "$4" ++ crlf ++ lit "PING" ++ crlf ++ lit "*") 128 1048576
    [slice_of (lit "PING")] 14 ltac:(lia) ltac:(unfold SIZE_MAX; lia) ltac:(vm_compute; discriminate))).
  exists [lit "PING"], (lit "*1" ++ crlf ++ lit "$4" ++ crlf ++ lit "PING" ++ crlf), (lit "*").
  split_and!; try (vm_compute; done).
  exists (lit "1"), [lit "$4" ++ crlf ++ lit "PING" ++ crlf]. split_and!; try (vm_compute; done).
  - split_and!; [done|by repeat constructor|done].
  - constructor; [|constructor]. exists (lit "4"). split; [|done].
    split_and!; [done|by repeat constructor|done].
Defined.

(** A definite answer is final.  If the parser accepts or rejects the bytes
    received so far, it gives the same answer, fields and length included, when
    more bytes have arrived. *)
Theorem parse_stable input more cap max :
  kvs_parse_command_limited (Some input) cap max ≠ Incomplete →
  kvs_parse_command_limited (Some (input ++ more)) cap max =
  kvs_parse_command_limited (Some input) cap max.
Proof.
  apply command_keeps.
Qed.

Lemma parse_stable_witness :
  kvs_parse_command_limited (Some (lit "*0" ++ crlf ++ lit "rest")) 128 1048576 = Malformed.
Proof.
  rewrite (app_assoc (lit "*0")).
  exact (parse_stable (lit "*0" ++ crlf) (lit "rest") 128 1048576 ltac:(vm_compute; discriminate)).
Defined.

(** C29: parsing inverts encoding.  The bytes [kvs_encode_command] produces, with
    anything after them, parse back to the same fields, and the parser reports
    exactly the encoded length. *)
Theorem parse_encode fields cap out rest capacity max :
  Forall wf_slice fields → 0 ≤ max → capacity ≤ SIZE_MAX → zlen (out ++ rest) ≤ SIZE_MAX →
  zlen fields ≤ capacity → zlen out ≤ max →
  kvs_encode_command fields cap = Some out →
  kvs_parse_command_limited (Some (out ++ rest)) capacity max = Complete (fields, zlen out).
Proof.
  intros Hw Hmax Hcap Hin Hc Hle He.
  apply encode_command_text in He as (Ht & _ & _ & H1 & _); [|done|lia].
  rewrite (command_parses _ rest capacity max _ out Hmax Hcap Hin eq_refl Ht); [| |done].
  - by rewrite slices_of_bytes.
  - unfold zlen in *. rewrite length_fmap. lia.
Qed.

Lemma parse_encode_witness :
  kvs_parse_command_limited
    (Some ((lit "*2" ++ crlf ++ lit "$4" ++ crlf ++ lit "HGET" ++ crlf ++ lit "$0" ++ crlf ++ crlf) ++ lit "*1"))
    128 1048576 = Complete ([slice_of (lit "HGET"); slice_of []], 20).
Proof.
  refine (parse_encode [slice_of (lit "HGET"); slice_of []] 64
    (lit "*2" ++ crlf ++ lit "$4" ++ crlf ++ lit "HGET" ++ crlf ++ lit "$0" ++ crlf ++ crlf) (lit "*1")
    128 1048576 _ _ _ _ _ _ _); [wf_slices|vm_compute; discriminate..|vm_compute; reflexivity].
Defined.

(** Every proper prefix of an encoded command is answered with 0 (wait for
    more bytes): a command split across several reads is neither rejected nor
    executed early. *)
Theorem encoded_prefix_incomplete fields cap out capacity max k :
  Forall wf_slice fields → 0 ≤ max → capacity ≤ SIZE_MAX →
  zlen fields ≤ capacity → zlen out ≤ max →
  kvs_encode_command fields cap = Some out → (k < List.length out)%nat →
  kvs_parse_command_limited (Some (take k out)) capacity max = Incomplete.
Proof.
  intros Hw Hmax Hcap Hc Hle He Hk.
  apply encode_command_text in He as (Ht & _ & Hsz & H1 & _); [|done|lia].
  apply (command_prefix_waits (slice_bytes <$> fields)); try done.
  by rewrite zlen_fmap.
Qed.

Lemma encoded_prefix_incomplete_witness :
  kvs_parse_command_limited (Some (lit "*1" ++ crlf ++ lit "$4" ++ crlf ++ lit "PI")) 128 1048576 = Incomplete.
Proof.
  refine (encoded_prefix_incomplete [slice_of (lit "PING")] 64
    (lit "*1" ++ crlf ++ lit "$4" ++ crlf ++ lit "PING" ++ crlf) 128 1048576 10 _ _ _ _ _ _ _);
    [wf_slices|vm_compute; discriminate..|vm_compute; reflexivity|simpl; lia].
Defined.

(** The encoder fails exactly on an empty field list, on a total that does
    not fit a [size_t] and on a buffer smaller than the size
    [kvs_encoded_command_size] announces; otherwise it stores exactly that many
    bytes, so it never writes past the buffer. *)
Theorem encode_exact fields cap :
  Forall wf_slice fields → zlen fields ≤ SIZE_MAX → cap ≤ SIZE_MAX →
  match kvs_encode_command fields cap with
  | Some out => kvs_encoded_command_size fields = Some (zlen out) ∧ zlen out ≤ cap
  | None => fields = [] ∨ kvs_encoded_command_size fields = None ∨
      ∃ n, kvs_encoded_command_size fields = Some n ∧ cap < n
  end ∧
  kvs_encoded_command_size fields =
    (let n := 1 + zlen (write_decimal (zlen fields)) + 2 + zlen (mjoin (write_field <$> fields)) in
     if bool_decide (fields = []) then None else if n <=? SIZE_MAX then Some n else None).
Proof.
  intros Hw Hl Hcap. split.
  - destruct (kvs_encode_command fields cap) as [out|] eqn:E.
    + apply encode_command_text in E as (_ & ? & _ & _ & ?); done.
    + revert E. unfold kvs_encode_command.
      destruct (kvs_encoded_command_size fields) as [n|]; [|by auto].
      destruct (Z.ltb_spec cap n); [|done]. right. right. by exists n.
  - unfold kvs_encoded_command_size. pose proof (zlen_nonneg fields).
    destruct (Z.eqb_spec (zlen fields) 0) as [E|E].
    + destruct fields; [done|]. rewrite zlen_cons in E. pose proof (zlen_nonneg fields). lia.
    + rewrite bool_decide_false by (intros ->; done).
      destruct (write_decimal_text (zlen fields) ltac:(lia)) as [_ ->].
      pose proof (decimal_digits_spec (zlen fields) ltac:(lia)).
      by rewrite encoded_size_loop_spec by (done || (unfold SIZE_MAX; lia)).
Qed.

Lemma encode_exact_witness :
  ∃ out, kvs_encode_command [slice_of (lit "SAVE")] 14 = Some out ∧ zlen out = 14 ∧
    kvs_encode_command [slice_of (lit "SAVE")] 13 = None.
Proof.
  assert (Forall wf_slice [slice_of (lit "SAVE")]) as Hw.
  { wf_slices. }
  pose proof (encode_exact [slice_of (lit "SAVE")] 14 Hw ltac:(vm_compute; discriminate) ltac:(vm_compute; discriminate)) as [H _].
  destruct (kvs_encode_command [slice_of (lit "SAVE")] 14) as [out|] eqn:E.
  - exists out. destruct H as [H Hle]. split_and!; [done| |vm_compute; done].
    assert (kvs_encoded_command_size [slice_of (lit "SAVE")] = Some 14) as E2 by (vm_compute; done).
    congruence.
  - exfalso. revert E. vm_compute. discriminate.
Defined.

(** A connection is a client as soon as its first byte is [*], a replica when
    its first bytes are the handshake [PING CRLF], undecided exactly while what
    has arrived is a proper prefix of the handshake, and invalid otherwise. *)
Theorem identify_connection_spec input :
  kvs_identify_connection (Some input) (zlen input) =
    if bool_decide ([STAR] `prefix_of` input) then KVS_CONNECTION_CLIENT
    else if bool_decide (handshake `prefix_of` input) then KVS_CONNECTION_REPLICA
    else if bool_decide (input `prefix_of` handshake) then KVS_CONNECTION_NEED_MORE
    else KVS_CONNECTION_INVALID.
Proof.
  unfold kvs_identify_connection.
  destruct (Z.eqb_spec (zlen input) 0) as [E0|E0].
  { destruct input; [done|]. rewrite zlen_cons in E0. pose proof (zlen_nonneg input). lia. }
  destruct input as [|c l]; [done|]. set (input := c :: l) in *.
  destruct (bool_decide_reflect (byte_at input 0 = STAR)) as [Hs|Hs].
  { change (c = STAR) in Hs. rewrite bool_decide_true; [done|]. exists l. by rewrite <- Hs. }
  rewrite (bool_decide_false ([STAR] `prefix_of` input)); [|intros [k Hk]; by injection Hk].
  assert (zlen handshake = 6) as H6 by done.
  destruct (Z.ltb_spec (zlen input) (zlen handshake)) as [Hlt|Hge].
  - rewrite (bool_decide_false (handshake `prefix_of` input));
      [|intros Hp%prefix_length; unfold zlen in *; lia].
    rewrite (take_ge input) by (unfold zlen in *; lia).
    destruct (bool_decide_reflect (input `prefix_of` handshake)) as [Hp|Hp].
    + rewrite bool_decide_true; [done|]. destruct Hp as [k Hk].
      unfold zlen. rewrite Nat2Z.id, Hk. by rewrite take_app_length.
    + rewrite bool_decide_false; [done|]. intros Hk. apply Hp. rewrite Hk. apply prefix_take.
  - rewrite (take_ge handshake) by (unfold zlen in *; lia).
    destruct (bool_decide_reflect (handshake `prefix_of` input)) as [Hp|Hp].
    + rewrite bool_decide_true; [done|]. destruct Hp as [k ->].
      unfold zlen. rewrite Nat2Z.id. by rewrite take_app_length.
    + rewrite bool_decide_false; [|intros Hk; apply Hp; rewrite <- Hk; apply prefix_take].
      simpl. rewrite bool_decide_false; [done|]. intros Hi. pose proof (prefix_length _ _ Hi).
      apply Hp. destruct Hi as [k Hk]. assert (k = []) as ->.
      { apply (f_equal List.length) in Hk. rewrite length_app in Hk. apply length_zero_iff_nil.
        unfold zlen in *. lia. }
      rewrite app_nil_r in Hk. by rewrite <- Hk.
Qed.
