(* ===== verification/ArrayEngine.v ===== *)
(** The array engine, src/engines/kvs_array.c: a fixed table of 1024 items whose
    first [total] are in use, searched linearly; deletion moves the last item
    into the hole.

    The instance is the global [global_array], so the tests [inst == NULL] of the
    code are constantly false and are left out; every other test is kept.  The
    table comes from [kvs_malloc] and is not cleared, so its slots are undefined
    ([None]) until they are written. *)

From Stdlib Require Import ZArith Lia.
From S2P Require Import Prelude Runtime Engine.

Definition KVS_ARRAY_SIZE : Z := 1024.

(** [kvs_array_item_t]; null pointers are [None]. *)
Record kvs_array_item_t := Item { key : option cstr; value : option cstr }.

(** [kvs_array_t]: the table is a block with its 1024 slots. *)
Record kvs_array_t := KvsArray {
  table : option (addr * list (option kvs_array_item_t));
  idx : Z;
  total : Z;
}.

Definition global_array_zero : kvs_array_t := KvsArray None 0 0.

Section ops.
Context `{CRuntime W}.

(** [inst->table[i]]: a null table, an index outside it and a slot never written
    have no defined value. *)
Definition item_at {V} (inst : kvs_array_t) (i : Z) : M V kvs_array_item_t :=
  '(_, slots) ← deref (table inst);
  slot ← deref (znth slots i);
  deref slot.

Definition set_item (inst : kvs_array_t) (i : Z) (it : kvs_array_item_t) : kvs_array_t :=
  KvsArray ((λ '(p, slots), (p, zupd i (Some it) slots)) <$> table inst) (idx inst) (total inst).

Definition set_total (inst : kvs_array_t) (n : Z) : kvs_array_t :=
  KvsArray (table inst) (idx inst) n.
Definition set_idx (inst : kvs_array_t) (n : Z) : kvs_array_t :=
  KvsArray (table inst) n (total inst).

Definition kvs_array_create (inst : kvs_array_t) : M W (Z * kvs_array_t) :=
  match table inst with
  | Some _ => mret (-1, inst)
  | None =>
      p ← kvs_malloc (KVS_ARRAY_SIZE * 16);
      match p with
      | None => mret (-1, inst)
      | Some p => mret (0, KvsArray (Some (p, replicate (Z.to_nat KVS_ARRAY_SIZE) None)) (idx inst) 0)
      end
  end.

(** The [for] loop of [kvs_array_destory], [n] iterations from [i] on. *)
Fixpoint kvs_array_destory_loop (n : nat) (i : Z) (inst : kvs_array_t) : M W kvs_array_t :=
  match n with
  | O => mret inst
  | S n' =>
      it ← item_at inst i;
      kvs_free (cs_addr <$> key it);;
      kvs_free (cs_addr <$> value it);;
      kvs_array_destory_loop n' (i + 1) (set_item inst i (Item None None))
  end.

Definition kvs_array_destory (inst : kvs_array_t) : M W kvs_array_t :=
  match table inst with
  | None => mret inst
  | Some _ =>
      inst ← kvs_array_destory_loop (Z.to_nat (total inst)) 0 inst;
      kvs_free (fst <$> table inst);;
      mret (KvsArray None 0 0)
  end.

(** The search loops: the index of the first item whose key equals [k].
    [get] and [mod] skip items with a null key; [del] passes the key to [strcmp]
    without looking ([skip_null = false]). *)
Fixpoint array_find {V} (skip_null : bool) (n : nat) (i : Z) (inst : kvs_array_t) (k : bytes) :
    M V (option Z) :=
  match n with
  | O => mret None
  | S n' =>
      it ← item_at inst i;
      match key it with
      | None => if skip_null then array_find skip_null n' (i + 1) inst k else undefined
      | Some c =>
          match strcmp (cs_str c) k with
          | Eq => mret (Some i)
          | _ => array_find skip_null n' (i + 1) inst k
          end
      end
  end.

Definition kvs_array_mod (inst : kvs_array_t) (k v : option bytes) : M W (Z * kvs_array_t) :=
  match k, v with
  | Some k, Some v =>
      found ← array_find true (Z.to_nat (total inst)) 0 inst k;
      match found with
      | None => mret (1, inst)
      | Some i =>
          it ← item_at inst i;
          kvalue ← malloc_copy v;
          match kvalue with
          | None => mret (-2, inst)
          | Some kvalue =>
              kvs_free (cs_addr <$> value it);;
              mret (0, set_item inst i (Item (key it) (Some kvalue)))
          end
      end
  | _, _ => mret (-1, inst)
  end.

(** The loop of [kvs_array_set] looking for an item with a null key. *)
Fixpoint array_find_null (n : nat) (i : Z) (inst : kvs_array_t) : M W (option Z) :=
  match n with
  | O => mret None
  | S n' =>
      it ← item_at inst i;
      match key it with
      | None => mret (Some i)
      | Some _ => array_find_null n' (i + 1) inst
      end
  end.

Definition kvs_array_set (inst : kvs_array_t) (k v : option bytes) : M W (Z * kvs_array_t) :=
  match table inst, k, v with
  | Some _, Some k', Some v' =>
      '(update_result, inst) ← kvs_array_mod inst k v;
      if update_result <=? 0 then mret (update_result, inst)
      else if KVS_ARRAY_SIZE <=? total inst then mret (-1, inst)
      else
        kcopy ← malloc_copy k';
        match kcopy with
        | None => mret (-2, inst)
        | Some kcopy =>
            kvalue ← malloc_copy v';
            match kvalue with
            | None => kvs_free (Some (cs_addr kcopy));; mret (-2, inst)
            | Some kvalue =>
                hole ← array_find_null (Z.to_nat (total inst)) 0 inst;
                let i := default (total inst) hole in
                if bool_decide (hole ≠ None) || (i <? KVS_ARRAY_SIZE) then
                  mret (0, set_total (set_item inst i (Item (Some kcopy) (Some kvalue))) (total inst + 1))
                else mret (0, inst)
            end
        end
  | _, _, _ => mret (-1, inst)
  end.

Definition kvs_array_get (inst : kvs_array_t) (k : option bytes) : M W (option bytes) :=
  match k with
  | None => mret None
  | Some k =>
      found ← array_find true (Z.to_nat (total inst)) 0 inst k;
      match found with
      | None => mret None
      | Some i => it ← item_at inst i; mret (cs_str <$> value it)
      end
  end.

Definition kvs_array_del (inst : kvs_array_t) (k : option bytes) : M W (Z * kvs_array_t) :=
  match k with
  | None => mret (-1, inst)
  | Some k =>
      found ← array_find false (Z.to_nat (total inst)) 0 inst k;
      match found with
      | None => mret (1, inst)
      | Some i =>
          it ← item_at inst i;
          kvs_free (cs_addr <$> key it);;
          kvs_free (cs_addr <$> value it);;
          let inst := set_total (set_item inst i (Item None None)) (total inst - 1) in
          inst ← (if bool_decide (i ≠ total inst)
                  then last ← item_at inst (total inst); mret (set_item inst i last)
                  else mret inst);
          mret (0, set_idx (set_item inst (total inst) (Item None None)) i)
      end
  end.

Definition kvs_array_exist (inst : kvs_array_t) (k : option bytes) : M W Z :=
  str ← kvs_array_get inst k;
  mret (match str with None => 1 | Some _ => 0 end).

Fixpoint kvs_array_foreach_loop {V C} (n : nat) (i : Z) (inst : kvs_array_t)
    (visitor : kvs_visit_handler V C) (context : C) : M V (Z * C) :=
  match n with
  | O => mret (0, context)
  | S n' =>
      it ← item_at inst i;
      match key it, value it with
      | Some k, Some v =>
          '(ret, context) ← visitor (cs_str k) (cs_str v) context;
          if ret <? 0 then mret (-1, context)
          else kvs_array_foreach_loop n' (i + 1) inst visitor context
      | _, _ => kvs_array_foreach_loop n' (i + 1) inst visitor context
      end
  end.

Definition kvs_array_foreach {V C} (inst : kvs_array_t)
    (visitor : option (kvs_visit_handler V C)) (context : C) : M V (Z * C) :=
  match table inst, visitor with
  | Some _, Some visitor =>
      kvs_array_foreach_loop (Z.to_nat (total inst)) 0 inst visitor context
  | _, _ => mret (-1, context)
  end.
End ops.

(** * Observations *)

Definition items_of (inst : kvs_array_t) : list (cstr * cstr) :=
  match table inst with
  | None => []
  | Some (_, slots) =>
      omap (λ s, match s with Some (Item (Some k) (Some v)) => Some (k, v) | _ => None end)
        (take (Z.to_nat (total inst)) slots)
  end.

Definition item_strs (it : cstr * cstr) : bytes * bytes := (cs_str it.1, cs_str it.2).
Definition item_addrs (es : list (cstr * cstr)) : list addr :=
  mjoin ((λ it : cstr * cstr, [cs_addr it.1; cs_addr it.2]) <$> es).

Definition kvs_array_entries (inst : kvs_array_t) : list (bytes * bytes) :=
  item_strs <$> items_of inst.

Definition kvs_array_owned (inst : kvs_array_t) : list addr :=
  match table inst with None => [] | Some (p, _) => [p] end ++
  item_addrs (items_of inst).

Definition full_item (it : cstr * cstr) : option kvs_array_item_t :=
  Some (Item (Some it.1) (Some it.2)).

(** The table holding exactly the items [es]. *)
Definition array_of (tp : addr) (es : list (cstr * cstr)) rest (i : Z) : kvs_array_t :=
  KvsArray (Some (tp, (full_item <$> es) ++ rest)) i (zlen es).

(** The invariant of a created array. *)
Definition kvs_array_wf (inst : kvs_array_t) : Prop :=
  ∃ tp es rest i, inst = array_of tp es rest i ∧
    (List.length es + List.length rest = Z.to_nat KVS_ARRAY_SIZE)%nat ∧
    NoDup (item_strs <$> es).*1.

#[export] Instance array_engine `{CRuntime W} : Engine W kvs_array_t := {|
  eng_zero := global_array_zero;
  eng_create := kvs_array_create;
  eng_destroy := kvs_array_destory;
  eng_set := kvs_array_set;
  eng_get := kvs_array_get;
  eng_del := kvs_array_del;
  eng_mod := kvs_array_mod;
  eng_exist := kvs_array_exist;
  eng_foreach := @kvs_array_foreach;
  eng_entries := kvs_array_entries;
  eng_owned := kvs_array_owned;
  eng_wf := kvs_array_wf;
  eng_key := λ _, True;
  eng_room := λ m, Z.of_nat (size m) <? KVS_ARRAY_SIZE;
  eng_del_missing := 1;
|}.

(** * Lemmas on the table *)

Section table.
Context `{CRuntimeLaws W}.
Implicit Types (es : list (cstr * cstr)) (tp i : Z) (inst : kvs_array_t) (w : W).

Lemma items_of_array tp es rest i : items_of (array_of tp es rest i) = es.
Proof.
  unfold items_of, array_of, zlen. simpl. rewrite Nat2Z.id.
  rewrite take_app_length' by (by rewrite length_fmap).
  induction es as [|[k v] es IH]; [done|]. simpl. by f_equal.
Qed.

Lemma array_entries tp es rest i : kvs_array_entries (array_of tp es rest i) = item_strs <$> es.
Proof. unfold kvs_array_entries. by rewrite items_of_array. Qed.

Lemma array_owned tp es rest i :
  kvs_array_owned (array_of tp es rest i) = tp :: item_addrs es.
Proof. unfold kvs_array_owned. by rewrite items_of_array. Qed.

Lemma item_addrs_app es1 es2 : item_addrs (es1 ++ es2) = item_addrs es1 ++ item_addrs es2.
Proof. unfold item_addrs. by rewrite fmap_app, join_app. Qed.

(** Slots are read and written by the number of items before them. *)
Lemma table_at es1 it es2 rest :
  znth ((full_item <$> es1 ++ it :: es2) ++ rest) (zlen es1) = Some (full_item it).
Proof.
  rewrite fmap_app, fmap_cons, <- app_assoc, <- (zlen_fmap full_item es1). apply znth_middle.
Qed.

Lemma item_at_of {V} tp es1 it es2 rest i (v : V) :
  item_at (array_of tp (es1 ++ it :: es2) rest i) (zlen es1) v =
  Ok (Item (Some it.1) (Some it.2)) v.
Proof. unfold item_at, mbind, M_bind. simpl. by rewrite table_at. Qed.

Lemma set_item_of tp es1 it es2 rest i it' :
  set_item (array_of tp (es1 ++ it :: es2) rest i) (zlen es1) (Item (Some it'.1) (Some it'.2)) =
  array_of tp (es1 ++ it' :: es2) rest i.
Proof.
  unfold set_item, array_of. simpl. f_equal.
  - do 2 f_equal. rewrite !fmap_app, !fmap_cons, <- !app_assoc, <- (zlen_fmap full_item es1).
    apply zupd_middle.
  - autorewrite with zlen. done.
Qed.

(** ** The search loops *)

(** Where the first item with key [k] is, by the items themselves. *)
Definition found_at es (k : bytes) (r : option Z) : Prop :=
  match r with
  | None => k ∉ (item_strs <$> es).*1
  | Some j => ∃ es1 it es2, es = es1 ++ it :: es2 ∧ cs_str it.1 = k ∧ j = zlen es1 ∧
                k ∉ (item_strs <$> es1).*1
  end.

Lemma array_find_loop {V} sk tp es1 es2 rest i k (v : V) :
  k ∉ (item_strs <$> es1).*1 →
  ∃ r, array_find sk (List.length es2) (zlen es1) (array_of tp (es1 ++ es2) rest i) k v = Ok r v ∧
    found_at (es1 ++ es2) k r.
Proof.
  revert es1. induction es2 as [|it es2 IH]; intros es1 Hk; simpl.
  - exists None. by rewrite app_nil_r.
  - unfold mbind, M_bind. rewrite item_at_of. simpl.
    destruct (strcmp (cs_str it.1) k) eqn:E.
    { apply strcmp_eq in E. exists (Some (zlen es1)). split; [done|]. by exists es1, it, es2. }
    all: destruct (IH (es1 ++ [it])) as (r & Hr & Hf);
      [rewrite !fmap_app, elem_of_app; simpl; intros [?|Hx%list_elem_of_singleton]; [done|];
       simpl in Hx; subst k; by rewrite strcmp_refl in E|];
      rewrite <- app_assoc in Hr, Hf; simpl in Hr, Hf; exists r;
      autorewrite with zlen in Hr; rewrite Z.add_0_r in Hr; done.
Qed.

Lemma array_find_spec {V} sk tp es rest i k (v : V) :
  ∃ r, array_find sk (Z.to_nat (total (array_of tp es rest i))) 0 (array_of tp es rest i) k v = Ok r v ∧
    found_at es k r.
Proof.
  destruct (array_find_loop sk tp [] es rest i k v) as (r & Hr & Hf); [set_solver|].
  exists r. unfold zlen in Hr. simpl in Hr. split; [|done].
  unfold array_of. simpl total. unfold zlen. by rewrite Nat2Z.id.
Qed.

Lemma array_find_null_spec tp es1 es2 rest i w :
  array_find_null (List.length es2) (zlen es1) (array_of tp (es1 ++ es2) rest i) w = Ok None w.
Proof.
  revert es1. induction es2 as [|it es2 IH]; intros es1; simpl; [done|].
  unfold mbind, M_bind. rewrite item_at_of. simpl.
  specialize (IH (es1 ++ [it])). rewrite <- app_assoc in IH. simpl in IH.
  autorewrite with zlen in IH. by rewrite Z.add_0_r in IH.
Qed.

(** The contents when the key is found, and when it is not. *)
Lemma found_lookup es k r :
  found_at es k r →
  (list_to_map (item_strs <$> es) : kvmap) !! k =
    match r with None => None | Some j => (λ it, cs_str it.2) <$> es !! Z.to_nat j end.
Proof.
  destruct r as [j|]; simpl.
  - intros (es1 & it & es2 & -> & <- & -> & Hk). unfold zlen. rewrite Nat2Z.id.
    rewrite list_lookup_middle by done. simpl. rewrite fmap_app, fmap_cons.
    by apply to_map_middle.
  - apply to_map_absent.
Qed.
End table.

(** * The contract *)

Section laws.
Context `{CRuntimeLaws W}.
Implicit Types (es : list (cstr * cstr)) (tp i : Z) (inst : kvs_array_t) (w : W)
  (k v : bytes) (F : gset addr).

Lemma item_addrs_middle es1 it es2 :
  item_addrs (es1 ++ it :: es2) ≡ₚ cs_addr it.1 :: cs_addr it.2 :: item_addrs (es1 ++ es2).
Proof. rewrite !item_addrs_app. simpl. unfold item_addrs at 2. simpl. solve_Permutation. Qed.

Lemma array_wf_intro tp es rest i :
  (List.length es + List.length rest = Z.to_nat KVS_ARRAY_SIZE)%nat →
  NoDup (item_strs <$> es).*1 → kvs_array_wf (array_of tp es rest i).
Proof. intros. by exists tp, es, rest, i. Qed.

Lemma array_map tp es rest i :
  eng_map (array_of tp es rest i) = list_to_map (item_strs <$> es).
Proof. unfold eng_map. simpl. by rewrite array_entries. Qed.

Lemma array_get_law inst k w : kvs_array_wf inst →
  kvs_array_get inst (Some k) w = Ok (eng_map inst !! k) w.
Proof.
  intros (tp & es & rest & i & -> & _ & _). rewrite array_map. unfold kvs_array_get.
  destruct (array_find_spec true tp es rest i k w) as (r & Hr & Hf).
  rewrite (found_lookup _ _ _ Hf). unfold mbind, M_bind. rewrite Hr.
  destruct r as [j|]; [|done]. destruct Hf as (es1 & it & es2 & -> & _ & -> & _).
  rewrite item_at_of. by rewrite lookup_zlen_middle.
Qed.

Lemma array_mod_law inst k v F w : kvs_array_wf inst → owns (kvs_array_owned inst) F w →
  wp (kvs_array_mod inst (Some k) (Some v)) w (λ '(r, inst') w', keeps_wf F w inst' w' ∧
    table inst' ≠ None ∧
    match eng_map inst !! k with
    | None => r = 1 ∧ inst' = inst
    | Some _ => (r = 0 ∧ eng_map inst' = <[k:=v]> (eng_map inst) ∨ r = -2 ∧ eng_map inst' = eng_map inst) ∧
                (roomy w → r = 0)
    end).
Proof.
  intros Hwf Hw. pose proof Hwf as (tp & es & rest & i & -> & Hlen & Hnd).
  unfold kvs_array_mod. destruct (array_find_spec true tp es rest i k w) as (r & Hr & Hf).
  eapply wp_eq; [exact Hr|]. rewrite (array_map tp es rest i), (found_lookup _ _ _ Hf).
  destruct r as [j|].
  2:{ apply wp_ret. unfold keeps_wf. split_and!; try done. }
  destruct Hf as (es1 & it & es2 & -> & <- & -> & Hk).
  rewrite lookup_zlen_middle. simpl.
  eapply wp_eq; [apply item_at_of|]. simpl.
  rewrite array_owned, item_addrs_middle in Hw.
  eapply wp_step; [by apply wp_malloc_copy|]. intros [c|] w1; simpl.
  - intros [[Hc Hw1] Hroom].
    eapply wp_step.
    { apply (wp_free (cs_addr it.2) (tp :: cs_addr c :: cs_addr it.1 :: item_addrs (es1 ++ es2)) F).
      revert Hw1. apply owns_perm. solve_Permutation. }
    intros _ w2 [Hw2 Hroom2]. apply wp_ret.
    rewrite (set_item_of _ _ _ _ _ _ (it.1, c)). split_and!; [|done| |naive_solver].
    + split_and!; [|simpl|naive_solver].
      * apply array_wf_intro; [rewrite !length_app in *; done|].
        revert Hnd. by rewrite !fmap_app.
      * rewrite array_owned, item_addrs_middle. revert Hw2. apply owns_perm. solve_Permutation.
    + left. split; [done|]. rewrite array_map, !fmap_app, !fmap_cons.
      unfold item_strs at 2 4; simpl. rewrite Hc. by apply to_map_update.
  - intros [Hw1 Hroom]. apply wp_ret. split_and!; [|done| |naive_solver].
    + split_and!; [done|simpl|naive_solver]. by rewrite array_owned, item_addrs_middle.
    + right. split; [done|]. by rewrite array_map.
Qed.

Lemma set_item_end tp es r rest i it :
  set_total (set_item (array_of tp es (r :: rest) i) (zlen es) (Item (Some it.1) (Some it.2))) (zlen es + 1) =
  array_of tp (es ++ [it]) rest i.
Proof.
  unfold set_total, set_item, array_of. simpl. f_equal.
  - do 2 f_equal. rewrite fmap_app, <- (zlen_fmap full_item es), zupd_middle, <- app_assoc. done.
  - by autorewrite with zlen.
Qed.

Lemma array_set_law inst k v F w : kvs_array_wf inst → owns (kvs_array_owned inst) F w →
  wp (kvs_array_set inst (Some k) (Some v)) w (λ '(r, inst') w', keeps_wf F w inst' w' ∧
    (r = 0 ∧ set_result (eng_map inst) k = 0 ∧ eng_map inst' = <[k:=v]> (eng_map inst) ∨
     r < 0 ∧ eng_map inst' = eng_map inst) ∧
    (roomy w → r = set_result (eng_map inst) k)).
Proof.
  intros Hwf Hw. unfold kvs_array_set, set_result.
  assert (∃ x, table inst = Some x) as [x ->] by (destruct Hwf as (? & ? & ? & ? & -> & _); eauto).
  simpl. eapply wp_step; [by apply array_mod_law|]. intros [r inst'] w1 ((Hwf1 & Hw1 & Hroom1) & Ht & Hr).
  destruct (eng_map inst !! k) as [v0|] eqn:Hlook; simpl.
  { destruct Hr as [Hr Hr0]. rewrite (proj2 (Z.leb_le _ _)) by (destruct Hr as [[-> _]|[-> _]]; lia).
    apply wp_ret.
    split_and!; [done|destruct Hr as [[-> ?]|[-> ?]]; [left|right]; done|done]. }
  destruct Hr as [-> ->]. simpl.
  pose proof Hwf as (tp & es & rest & i & -> & Hlen & Hnd).
  assert (Z.of_nat (size (eng_map (array_of tp es rest i))) = zlen es) as Hsize.
  { rewrite array_map, to_map_size by done. apply zlen_fmap. }
  rewrite Hsize. simpl total. destruct (Z.leb_spec KVS_ARRAY_SIZE (zlen es)).
  { rewrite (proj2 (Z.ltb_ge _ _)) by done. apply wp_ret.
    split_and!; [done|right; by split|done]. }
  rewrite (proj2 (Z.ltb_lt _ _)) by done.
  eapply wp_step; [by apply wp_malloc_copy|]. intros [kc|] w2; simpl.
  2:{ intros [Hw2 Hroom2]. apply wp_ret. split_and!; [split_and!; naive_solver|right; by split|naive_solver]. }
  intros [[Hkc Hw2] Hroom2].
  eapply wp_step; [by apply wp_malloc_copy|]. intros [vc|] w3; simpl.
  2:{ intros [Hw3 Hroom3]. eapply wp_step; [by apply wp_free|]. intros _ w4 [Hw4 Hroom4].
      apply wp_ret. split_and!; [split_and!; naive_solver|right; by split|naive_solver]. }
  intros [[Hvc Hw3] Hroom3].
  eapply wp_eq.
  { pose proof (array_find_null_spec tp [] es rest i w3) as E. unfold zlen. rewrite Nat2Z.id. exact E. }
  simpl. rewrite (proj2 (Z.ltb_lt _ _)) by done. simpl. apply wp_ret.
  destruct rest as [|r rest]; [unfold zlen in *; simpl in *; lia|].
  rewrite (set_item_end _ _ _ _ _ (kc, vc)).
  assert (k ∉ (item_strs <$> es).*1) as Hfresh.
  { rewrite array_map in Hlook. by apply not_elem_of_list_to_map_2 in Hlook. }
  split_and!; [split_and!| |done].
  - apply array_wf_intro; [rewrite length_app; simpl in *; lia|].
    rewrite !fmap_app. simpl. rewrite Hkc. apply NoDup_app. split_and!; [done| |apply NoDup_singleton].
    intros y Hy ->%list_elem_of_singleton. done.
  - rewrite array_owned, item_addrs_app. rewrite array_owned in Hw3. revert Hw3.
    apply owns_perm. unfold item_addrs at 3. simpl. solve_Permutation.
  - naive_solver.
  - left. split_and!; [done..|]. rewrite !array_map, fmap_app. simpl. unfold item_strs at 2. simpl.
    rewrite Hkc, Hvc. by apply to_map_snoc.
Qed.

(** ** Deletion *)

Lemma set_item_raw tp l a x b i n j it :
  l = a ++ x :: b → j = zlen a →
  set_item (KvsArray (Some (tp, l)) i n) j it = KvsArray (Some (tp, a ++ Some it :: b)) i n.
Proof. intros -> ->. unfold set_item. simpl. by rewrite zupd_middle. Qed.

Lemma item_at_raw {V} tp l a it b i n j (v : V) :
  l = a ++ Some it :: b → j = zlen a → item_at (KvsArray (Some (tp, l)) i n) j v = Ok it v.
Proof. intros -> ->. unfold item_at, mbind, M_bind. simpl. by rewrite znth_middle. Qed.

Lemma array_of_raw tp es1 it es2 rest i :
  array_of tp (es1 ++ it :: es2) rest i =
  KvsArray (Some (tp, (full_item <$> es1) ++ full_item it :: (full_item <$> es2) ++ rest)) i
    (zlen es1 + 1 + zlen es2).
Proof.
  unfold array_of. rewrite fmap_app, fmap_cons, <- app_assoc. simpl.
  f_equal. autorewrite with zlen. lia.
Qed.

(** The tail of [kvs_array_del]: the last item moves into the hole, if it is not
    the hole itself. *)
Lemma array_close_hole tp es1 x es2 rest i n w :
  n = zlen es1 + zlen es2 →
  let inst0 := KvsArray (Some (tp, (full_item <$> es1) ++ x :: (full_item <$> es2) ++ rest)) i n in
  ∃ es' rest',
    (inst ← (if bool_decide (zlen es1 ≠ total inst0)
             then last ← item_at inst0 (total inst0); mret (set_item inst0 (zlen es1) last)
             else mret inst0);
     mret (0, set_idx (set_item inst (total inst) (Item None None)) (zlen es1))) w =
    Ok (0, array_of tp es' rest' (zlen es1)) w ∧
    es' ≡ₚ es1 ++ es2 ∧ List.length rest' = S (List.length rest).
Proof.
  intros Hn inst0. subst inst0. cbn [total].
  destruct es2 as [|last es2 _] using rev_ind.
  - rewrite zlen_nil, Z.add_0_r in Hn. subst n. rewrite bool_decide_eq_false_2 by lia.
    exists es1, (Some (Item None None) :: rest). rewrite app_nil_r. split; [|done].
    unfold mbind, M_bind, mret, M_ret. cbn [total].
    rewrite (set_item_raw _ _ (full_item <$> es1) x rest) by (done || by rewrite zlen_fmap). done.
  - rewrite bool_decide_eq_true_2 by (autorewrite with zlen in Hn; pose proof (zlen_nonneg es2); lia).
    exists (es1 ++ last :: es2), (Some (Item None None) :: rest). split.
    2:{ split; [solve_Permutation|done]. }
    assert (∀ y, (full_item <$> es1) ++ y :: (full_item <$> es2 ++ [last]) ++ rest =
      ((full_item <$> es1) ++ y :: (full_item <$> es2)) ++ full_item last :: rest) as Hsplit.
    { intros z. rewrite fmap_app, <- !app_assoc. done. }
    assert (∀ y, n = zlen ((full_item <$> es1) ++ y :: (full_item <$> es2))) as Hl.
    { intros z. autorewrite with zlen in *. rewrite !zlen_fmap. lia. }
    unfold mbind, M_bind, mret, M_ret. cbn [total].
    rewrite (item_at_raw _ _ _ (Item (Some last.1) (Some last.2)) rest _ _ _ _ (Hsplit x) (Hl x)).
    rewrite (set_item_raw _ _ (full_item <$> es1) x ((full_item <$> es2 ++ [last]) ++ rest)) by (done || by rewrite zlen_fmap). cbn [total].
    rewrite (set_item_raw _ _ _ _ _ _ _ _ _ (Hsplit (full_item last)) (Hl (full_item last))).
    unfold set_idx, array_of. cbn [table total]. do 3 f_equal.
    + do 2 f_equal. by rewrite fmap_app, fmap_cons.
    + autorewrite with zlen in *. lia.
Qed.

Lemma nodup_middle_items es1 it es2 :
  NoDup (item_strs <$> es1 ++ it :: es2).*1 →
  cs_str it.1 ∉ (item_strs <$> es2).*1 ∧ NoDup (item_strs <$> es1 ++ es2).*1.
Proof.
  rewrite (fmap_app item_strs es1), (fmap_app item_strs es1), fmap_cons. intros Hn.
  by apply nodup_middle in Hn as (? & ? & ?).
Qed.

Lemma array_del_law inst k F w : kvs_array_wf inst → owns (kvs_array_owned inst) F w →
  wp (kvs_array_del inst (Some k)) w (λ '(r, inst') w', keeps_wf F w inst' w' ∧
    r = (if eng_map inst !! k then 0 else 1) ∧ eng_map inst' = delete k (eng_map inst)).
Proof.
  intros Hwf Hw. pose proof Hwf as (tp & es & rest & i & -> & Hlen & Hnd).
  unfold kvs_array_del. destruct (array_find_spec false tp es rest i k w) as (r & Hr & Hf).
  eapply wp_eq; [exact Hr|]. rewrite (array_map tp es rest i), (found_lookup _ _ _ Hf).
  destruct r as [j|].
  2:{ apply wp_ret. split_and!; [by split_and!|done|].
      rewrite array_map, delete_id; [done|]. by apply to_map_absent. }
  destruct Hf as (es1 & it & es2 & -> & <- & -> & Hk). rewrite lookup_zlen_middle. simpl.
  eapply wp_eq; [apply item_at_of|]. simpl. rewrite array_owned, item_addrs_middle in Hw.
  eapply wp_step.
  { apply (wp_free (cs_addr it.1) (tp :: cs_addr it.2 :: item_addrs (es1 ++ es2)) F).
    revert Hw. apply owns_perm. solve_Permutation. }
  intros _ w1 [Hw1 Hr1]. eapply wp_step.
  { apply (wp_free (cs_addr it.2) (tp :: item_addrs (es1 ++ es2)) F).
    revert Hw1. apply owns_perm. solve_Permutation. }
  intros _ w2 [Hw2 Hr2]. rewrite array_of_raw.
  rewrite (set_item_raw _ _ (full_item <$> es1) (full_item it) ((full_item <$> es2) ++ rest)) by (done || by rewrite zlen_fmap).
  unfold set_total. cbn [table idx total].
  destruct (array_close_hole tp es1 (Some (Item None None)) es2 rest i
    (zlen (es1 ++ it :: es2) - 1) w2)
    as (es' & rest' & E & Hp & Hlr); [autorewrite with zlen; lia|].
  unfold wp. cbv zeta in E. cbn [total] in E. cbv zeta. cbn [total]. rewrite E.
  apply nodup_middle_items in Hnd as (Hk2 & Hnd).
  split_and!; [split_and!| |].
  - apply array_wf_intro; [|by rewrite Hp].
    rewrite Hp, Hlr, !length_app in *. simpl in *. lia.
  - simpl. rewrite array_owned. revert Hw2. apply owns_perm. f_equiv. unfold item_addrs. by rewrite Hp.
  - naive_solver.
  - done.
  - rewrite !array_map, (to_map_perm (item_strs <$> es') (item_strs <$> es1 ++ es2)) by (by rewrite Hp).
    rewrite !fmap_app, fmap_cons. by apply to_map_remove.
Qed.


(** ** Creation, destruction, visiting *)

Lemma array_exist_law inst k w : kvs_array_wf inst →
  kvs_array_exist inst (Some k) w = Ok (if eng_map inst !! k then 0 else 1) w.
Proof.
  intros Hwf. unfold kvs_array_exist, mbind, M_bind. rewrite array_get_law by done.
  by destruct (eng_map inst !! k).
Qed.

Lemma array_create_law F w : owns [] F w →
  wp (kvs_array_create global_array_zero) w (λ '(r, inst') w',
    (r = 0 ∧ keeps_wf F w inst' w' ∧ kvs_array_entries inst' = [] ∨ r = -1 ∧ owns [] F w') ∧
    (roomy w → roomy w' ∧ r = 0)).
Proof.
  intros Hw. unfold kvs_array_create. simpl.
  eapply wp_step; [by apply wp_malloc|]. intros [p|] w' [Hw' Hr]; apply wp_ret; simpl.
  2:{ split; [by right|naive_solver]. }
  change (KvsArray _ _ _) with (array_of p [] (replicate (Z.to_nat KVS_ARRAY_SIZE) None) 0).
  split; [left|naive_solver]. split_and!; [done|split_and!|by rewrite array_entries].
  - apply array_wf_intro; [by rewrite length_replicate|apply NoDup_nil_2].
  - simpl. by rewrite array_owned.
  - naive_solver.
Qed.

Lemma array_destroy_loop_spec tp a es2 rest i n own F w :
  owns (item_addrs es2 ++ own) F w →
  wp (kvs_array_destory_loop (List.length es2) (zlen a)
       (KvsArray (Some (tp, a ++ (full_item <$> es2) ++ rest)) i n)) w
    (λ inst' w', fst <$> table inst' = Some tp ∧ owns own F w' ∧ (roomy w → roomy w')).
Proof.
  revert a w. induction es2 as [|it es2 IH]; intros a w Hw; [by apply wp_ret|].
  cbn [kvs_array_destory_loop List.length].
  eapply wp_eq; [by apply (item_at_raw _ _ a (Item (Some it.1) (Some it.2)) ((full_item <$> es2) ++ rest))|].
  cbn [key value fmap option_fmap option_map].
  change (item_addrs (it :: es2)) with (cs_addr it.1 :: cs_addr it.2 :: item_addrs es2) in Hw.
  cbn [app] in Hw. change (list_fmap _ _ full_item (it :: es2)) with (full_item it :: (full_item <$> es2)).
  cbn [app].
  eapply wp_step; [by eapply wp_free|]. intros _ w1 [Hw1 Hr1].
  eapply wp_step; [by eapply wp_free|]. intros _ w2 [Hw2 Hr2].
  rewrite (set_item_raw _ _ a (full_item it) ((full_item <$> es2) ++ rest)) by done.
  rewrite (cons_middle (Some (Item None None)) a), app_assoc.
  replace (zlen a + 1) with (zlen (a ++ [Some (Item None None)])) by by autorewrite with zlen.
  eapply wp_mono; [by apply IH|]. naive_solver.
Qed.

Lemma array_destroy_law inst F w : kvs_array_wf inst → owns (kvs_array_owned inst) F w →
  wp (kvs_array_destory inst) w (λ inst' w', inst' = global_array_zero ∧
    owns [] F w' ∧ (roomy w → roomy w')).
Proof.
  intros (tp & es & rest & i & -> & _ & _) Hw. rewrite array_owned in Hw.
  unfold kvs_array_destory. simpl. unfold zlen at 1. rewrite Nat2Z.id.
  eapply wp_step.
  { apply (array_destroy_loop_spec tp [] es rest i (zlen es) [tp] F). revert Hw. apply owns_perm. solve_Permutation. }
  intros inst' w1 (-> & Hw1 & Hr1). eapply wp_step; [by apply wp_free|].
  intros _ w2 [Hw2 Hr2]. apply wp_ret. naive_solver.
Qed.

Lemma array_foreach_loop_spec {V C} tp es1 es2 rest i (visitor : kvs_visit_handler V C) (c : C) (v : V) :
  kvs_array_foreach_loop (List.length es2) (zlen es1) (array_of tp (es1 ++ es2) rest i) visitor c v =
  visit_all visitor (item_strs <$> es2) c v.
Proof.
  revert es1 c v. induction es2 as [|it es2 IH]; intros es1 c v; [done|].
  cbn [kvs_array_foreach_loop List.length]. unfold mbind at 1, M_bind at 1. rewrite item_at_of. simpl.
  unfold mbind, M_bind. destruct (visitor _ _ c v) as [[r c'] v'|v'|]; [|done..].
  destruct (r <? 0); [done|].
  specialize (IH (es1 ++ [it])). rewrite <- app_assoc in IH.
  rewrite zlen_app in IH. apply IH.
Qed.

Lemma array_foreach_law {V C} inst (visitor : kvs_visit_handler V C) (c : C) (v : V) : kvs_array_wf inst →
  kvs_array_foreach inst (Some visitor) c v = visit_all visitor (kvs_array_entries inst) c v.
Proof.
  intros (tp & es & rest & i & -> & _ & _). rewrite array_entries.
  unfold kvs_array_foreach. simpl. unfold zlen. rewrite Nat2Z.id.
  apply (array_foreach_loop_spec tp [] es).
Qed.

#[export] Instance array_engine_laws : EngineLaws W kvs_array_t.
Proof.
  split.
  - intros e (tp & es & rest & i & -> & _ & Hnd). simpl. by rewrite array_entries.
  - simpl. by rewrite map_size_empty.
  - done.
  - intros e m k (tp & es & rest & i & -> & Hl & Hnd) Hsub Hm Hk. cbn [eng_room array_engine].
    apply Z.ltb_lt. apply map_subset_size_lt with (k := k) in Hsub; [|done|done].
    unfold eng_map in Hsub. cbn [eng_entries array_engine] in Hsub. rewrite array_entries, to_map_size in Hsub by done.
    rewrite length_fmap in Hsub. lia.
  - done.
  - intros F w Hw. eapply wp_mono; [by apply array_create_law|]. by intros [r e'].
  - intros e F w Hwf Hw. eapply wp_mono; [by apply array_destroy_law|]. naive_solver.
  - intros e k v F w Hwf _ Hw. by apply array_set_law.
  - intros e k w Hwf _. by apply array_get_law.
  - intros e k F w Hwf _ Hw. by apply array_del_law.
  - intros e k v F w Hwf _ Hw. eapply wp_mono; [by apply array_mod_law|].
    intros [r e'] w' (Hk & _ & Hr). split; [done|].
    destruct (eng_map e !! k); [done|]. destruct Hr as [-> ->]. done.
  - intros e k w Hwf _. by apply array_exist_law.
  - intros V C e visitor c v Hwf. by apply array_foreach_law.
Qed.
End laws.

(** * Properties *)

(** C30: The array engine implements a finite map of at most 1024 keys over its
    whole life.  Whatever operations are called between creation and destruction,
    in whatever state of the heap, no operation is undefined, every result and
    every effect is that of the abstract map (or a negative code and no effect
    when an allocation fails), and after [kvs_array_destory] exactly the blocks
    that were live before remain live.  When allocations succeed the results are
    exactly the abstract ones, [set] answering -1 for a 1025th key. *)
Theorem array_session_refines `{CRuntimeLaws W} (os : list engine_op) (F : gset addr) (w : W)
    (Hw : owns [] F w) :
  wp (engine_session (E := kvs_array_t) os) w (λ r w', owns [] F w' ∧
    (∀ rs, r = Some rs → ∃ m, map_run_or_oom (E := kvs_array_t) ∅ os rs m) ∧
    (roomy w → r = Some (map_run (E := kvs_array_t) ∅ os).1)).
Proof. apply engine_session_refines; [|done]. apply Forall_forall. done. Qed.

(** A session that sets, overwrites, reads, modifies and deletes. *)
Definition demo_ops : list engine_op :=
  [OpSet (lit "a") (lit "1"); OpSet (lit "b") (lit "2"); OpSet (lit "a") (lit "3");
   OpGet (lit "a"); OpMod (lit "c") (lit "4"); OpDel (lit "a"); OpExist (lit "a"); OpGet (lit "b")].

Lemma array_session_witness :
  owns [] ∅ empty_heap ∧
  wp (engine_session (E := kvs_array_t) demo_ops) empty_heap (λ r w', owns [] ∅ w' ∧
    (∀ rs, r = Some rs → ∃ m, map_run_or_oom (E := kvs_array_t) ∅ demo_ops rs m) ∧
    (roomy empty_heap → r = Some (map_run (E := kvs_array_t) ∅ demo_ops).1)) ∧
  (map_run (W := heap_rt) (E := kvs_array_t) ∅ demo_ops).1 =
    [RInt 0; RInt 0; RInt 0; RStr (Some (lit "3")); RInt 1; RInt 0; RInt 1; RStr (Some (lit "2"))].
Proof.
  refine (conj empty_heap_owns (conj (array_session_refines demo_ops ∅ empty_heap empty_heap_owns) _)).
  vm_compute. reflexivity.
Defined.

(** Running the code itself gives the same results. *)
Example array_session_run :
  (λ o, match o with Ok r _ => r | _ => None end) (engine_session (E := kvs_array_t) demo_ops empty_heap) =
  Some [RInt 0; RInt 0; RInt 0; RStr (Some (lit "3")); RInt 1; RInt 0; RInt 1; RStr (Some (lit "2"))].
Proof. vm_compute. reflexivity. Qed.

(** [kvs_array_foreach] presents every pair of the map to the visitor, each
    key once, in table order, and stops with -1 at the first negative answer. *)
Theorem array_foreach_visits `{CRuntimeLaws W} {V C} (inst : kvs_array_t)
    (visitor : kvs_visit_handler V C) (c : C) (v : V) (Hwf : kvs_array_wf inst) :
  ∃ l, kvs_array_foreach inst (Some visitor) c v = visit_all visitor l c v ∧
    NoDup l.*1 ∧ list_to_map l = eng_map (W := W) inst.
Proof.
  exists (kvs_array_entries inst). split_and!; [by apply array_foreach_law| |done].
  pose proof (eng_nodup (W := W) (E := kvs_array_t) inst Hwf) as Hnd. exact Hnd.
Qed.

Lemma array_foreach_witness :
  let inst := array_of 1 [(CStr 2 (lit "k"), CStr 3 (lit "v"))] (replicate 1023 None) 0 in
  let visitor : kvs_visit_handler unit (list bytes) := λ k v acc, mret (0, k :: v :: acc) in
  kvs_array_wf inst ∧
  ∃ l, kvs_array_foreach inst (Some visitor) [] tt = visit_all visitor l [] tt ∧
    NoDup l.*1 ∧ list_to_map l = eng_map (W := heap_rt) inst.
Proof.
  cbv zeta. refine ((λ Hwf, conj Hwf (array_foreach_visits _ _ _ _ Hwf)) _).
  refine (array_wf_intro _ _ _ _ _ _); [vm_compute; reflexivity|].
  apply (bool_decide_unpack _). vm_compute. exact I.
Defined.
