(* ===== verification/HashEngine.v ===== *)
(** The hash engine, src/engines/kvs_hash.c: 1024 buckets of singly linked nodes,
    indexed by the sum of the characters of the key.

    The instance is the global [global_hash], so the tests [hash == NULL] are
    constantly false and are left out.  A chain is the list of its nodes, each with
    the address of its block; keys and values of nodes are never null because
    [_create_node] is the only place that makes a node. *)

From Stdlib Require Import ZArith Lia.
From S2P Require Import Prelude Runtime Engine.

Definition MAX_TABLE_SIZE : Z := 1024.

(** [hashnode_t] *)
Record hashnode_t := HashNode { node_addr : addr; key : cstr; value : cstr }.

(** [kvs_hash_t]: the bucket table is a block with its chains. *)
Record kvs_hash_t := KvsHash {
  nodes : option (addr * list (list hashnode_t));
  max_slots : Z;
  count : Z;
}.

Definition global_hash_zero : kvs_hash_t := KvsHash None 0 0.

(** ** The hash function *)

(** The loop of [_hash]: characters are signed, and an addition that leaves the
    range of [int] is undefined ([None]). *)
Fixpoint hash_sum (sum : Z) (k : bytes) : option Z :=
  match k with
  | [] => Some sum
  | c :: k' =>
      let sum' := sum + schar c in
      if (- (INT_MAX + 1) <=? sum') && (sum' <=? INT_MAX) then hash_sum sum' k' else None
  end.

(** [_hash] on a non-null key; C's [%] truncates, so a negative sum gives a
    non-positive index. *)
Definition _hash (k : bytes) (size : Z) : option Z :=
  sum ← hash_sum 0 k; Some (Z.rem sum size).

(** The keys whose bucket lies inside the table. *)
Definition hash_key_ok (k : bytes) : bool :=
  match _hash k MAX_TABLE_SIZE with Some i => 0 <=? i | None => false end.

Section ops.
Context `{CRuntime W}.

Definition hash_node_alloc : M W (option addr) := kvs_malloc 24.
Definition hash_storge_free (node : addr) : M W unit := kvs_free (Some node).

Definition _create_node (k v : bytes) : M W (option hashnode_t) :=
  node ← hash_node_alloc;
  match node with
  | None => mret None
  | Some node =>
      kcopy ← malloc_copy k;
      match kcopy with
      | None => hash_storge_free node;; mret None
      | Some kcopy =>
          kvalue ← malloc_copy v;
          match kvalue with
          | None => kvs_free (Some (cs_addr kcopy));; hash_storge_free node;; mret None
          | Some kvalue => mret (Some (HashNode node kcopy kvalue))
          end
      end
  end.

Definition _hash_node_free (node : hashnode_t) : M W unit :=
  kvs_free (Some (cs_addr (key node)));;
  kvs_free (Some (cs_addr (value node)));;
  hash_storge_free (node_addr node).

Definition kvs_hash_create (hash : kvs_hash_t) : M W (Z * kvs_hash_t) :=
  p ← kvs_malloc (8 * MAX_TABLE_SIZE);
  match p with
  | None => mret (-1, KvsHash None (max_slots hash) (count hash))
  | Some p => mret (0, KvsHash (Some (p, replicate (Z.to_nat MAX_TABLE_SIZE) [])) MAX_TABLE_SIZE 0)
  end.

(** The inner [while] of [kvs_hash_destory]. *)
Fixpoint free_chain (chain : list hashnode_t) : M W unit :=
  match chain with
  | [] => mret tt
  | node :: next => _hash_node_free node;; free_chain next
  end.

(** [hash->nodes[i]], read and written. *)
Definition bucket_at {V} (hash : kvs_hash_t) (i : Z) : M V (list hashnode_t) :=
  '(_, buckets) ← deref (nodes hash);
  deref (znth buckets i).
Definition set_bucket (hash : kvs_hash_t) (i : Z) (chain : list hashnode_t) : kvs_hash_t :=
  KvsHash ((λ '(p, buckets), (p, zupd i chain buckets)) <$> nodes hash) (max_slots hash) (count hash).
Definition set_count (hash : kvs_hash_t) (n : Z) : kvs_hash_t :=
  KvsHash (nodes hash) (max_slots hash) n.

Fixpoint kvs_hash_destory_loop (n : nat) (i : Z) (hash : kvs_hash_t) : M W kvs_hash_t :=
  match n with
  | O => mret hash
  | S n' =>
      chain ← bucket_at hash i;
      free_chain chain;;
      kvs_hash_destory_loop n' (i + 1) (set_bucket hash i [])
  end.

Definition kvs_hash_destory (hash : kvs_hash_t) : M W kvs_hash_t :=
  hash ← kvs_hash_destory_loop (Z.to_nat (max_slots hash)) 0 hash;
  kvs_free (fst <$> nodes hash);;
  mret (KvsHash None 0 0).

(** The search loops: the first node with key [k], with the nodes before and
    after it. *)
Fixpoint chain_find (k : bytes) (chain : list hashnode_t) :
    option (list hashnode_t * hashnode_t * list hashnode_t) :=
  match chain with
  | [] => None
  | node :: next =>
      match strcmp (cs_str (key node)) k with
      | Eq => Some ([], node, next)
      | _ => '(before, found, after) ← chain_find k next; Some (node :: before, found, after)
      end
  end.

(** [node->value = new_value] *)
Definition set_value (node : hashnode_t) (v : cstr) : hashnode_t :=
  HashNode (node_addr node) (key node) v.

(** [malloc_copy] of a pointer: [strlen] of a null pointer is undefined. *)
Definition malloc_copy_ptr (v : option bytes) : M W (option cstr) :=
  v ← deref v; malloc_copy v.

Definition kvs_hash_set (hash : kvs_hash_t) (k v : option bytes) : M W (Z * kvs_hash_t) :=
  match k, v with
  | Some k, Some v =>
      idx ← deref (_hash k MAX_TABLE_SIZE);
      chain ← bucket_at hash idx;
      match chain_find k chain with
      | Some (before, node, after) =>
          new_value ← malloc_copy v;
          match new_value with
          | None => mret (-2, hash)
          | Some new_value =>
              kvs_free (Some (cs_addr (value node)));;
              mret (0, set_bucket hash idx (before ++ set_value node new_value :: after))
          end
      | None =>
          new_node ← _create_node k v;
          match new_node with
          | None => mret (-1, hash)
          | Some new_node => mret (0, set_count (set_bucket hash idx (new_node :: chain)) (count hash + 1))
          end
      end
  | _, _ => mret (-1, hash)
  end.

Definition kvs_hash_get (hash : kvs_hash_t) (k : option bytes) : M W (option bytes) :=
  match k with
  | None => mret None
  | Some k =>
      idx ← deref (_hash k MAX_TABLE_SIZE);
      chain ← bucket_at hash idx;
      match chain_find k chain with
      | Some (_, node, _) => mret (Some (cs_str (value node)))
      | None => mret None
      end
  end.

Definition kvs_hash_mod (hash : kvs_hash_t) (k v : option bytes) : M W (Z * kvs_hash_t) :=
  match k with
  | None => mret (-1, hash)
  | Some k =>
      idx ← deref (_hash k MAX_TABLE_SIZE);
      chain ← bucket_at hash idx;
      match chain_find k chain with
      | None => mret (1, hash)
      | Some (before, node, after) =>
          kvalue ← malloc_copy_ptr v;
          match kvalue with
          | None => mret (-2, hash)
          | Some kvalue =>
              kvs_free (Some (cs_addr (value node)));;
              mret (0, set_bucket hash idx (before ++ set_value node kvalue :: after))
          end
      end
  end.

Definition kvs_hash_count (hash : kvs_hash_t) : Z := count hash.

Definition kvs_hash_del (hash : kvs_hash_t) (k : option bytes) : M W (Z * kvs_hash_t) :=
  match k with
  | None => mret (-2, hash)
  | Some k =>
      idx ← deref (_hash k MAX_TABLE_SIZE);
      chain ← bucket_at hash idx;
      match chain with
      | [] => mret (-1, hash)
      | head :: next =>
          match strcmp (cs_str (key head)) k with
          | Eq =>
              let hash := set_bucket hash idx next in
              _hash_node_free head;;
              mret (0, set_count hash (count hash - 1))
          | _ =>
              match chain_find k next with
              | None => mret (-1, hash)
              | Some (before, tmp, after) =>
                  let hash := set_bucket hash idx (head :: before ++ after) in
                  _hash_node_free tmp;;
                  mret (0, set_count hash (count hash - 1))
              end
          end
      end
  end.

Definition kvs_hash_exist (hash : kvs_hash_t) (k : option bytes) : M W Z :=
  value ← kvs_hash_get hash k;
  mret (match value with None => 1 | Some _ => 0 end).

Fixpoint foreach_chain {V C} (visitor : kvs_visit_handler V C) (chain : list hashnode_t) (context : C) :
    M V (Z * C) :=
  match chain with
  | [] => mret (0, context)
  | node :: next =>
      '(ret, context) ← visitor (cs_str (key node)) (cs_str (value node)) context;
      if ret <? 0 then mret (-1, context) else foreach_chain visitor next context
  end.

Fixpoint kvs_hash_foreach_loop {V C} (n : nat) (i : Z) (hash : kvs_hash_t)
    (visitor : kvs_visit_handler V C) (context : C) : M V (Z * C) :=
  match n with
  | O => mret (0, context)
  | S n' =>
      chain ← bucket_at hash i;
      '(ret, context) ← foreach_chain visitor chain context;
      if ret <? 0 then mret (-1, context)
      else kvs_hash_foreach_loop n' (i + 1) hash visitor context
  end.

Definition kvs_hash_foreach {V C} (hash : kvs_hash_t)
    (visitor : option (kvs_visit_handler V C)) (context : C) : M V (Z * C) :=
  match nodes hash, visitor with
  | Some _, Some visitor =>
      kvs_hash_foreach_loop (Z.to_nat (max_slots hash)) 0 hash visitor context
  | _, _ => mret (-1, context)
  end.
End ops.

(** * Observations *)

Definition node_strs (n : hashnode_t) : bytes * bytes := (cs_str (key n), cs_str (value n)).
Definition node_addrs (n : hashnode_t) : list addr :=
  [cs_addr (key n); cs_addr (value n); node_addr n].

Definition all_nodes (hash : kvs_hash_t) : list hashnode_t :=
  match nodes hash with None => [] | Some (_, buckets) => mjoin buckets end.

Definition kvs_hash_entries (hash : kvs_hash_t) : list (bytes * bytes) := node_strs <$> all_nodes hash.

Definition kvs_hash_owned (hash : kvs_hash_t) : list addr :=
  match nodes hash with None => [] | Some (p, _) => [p] end ++ mjoin (node_addrs <$> all_nodes hash).

(** The table with the given buckets, its count in step. *)
Definition hash_of (tp : addr) (buckets : list (list hashnode_t)) : kvs_hash_t :=
  KvsHash (Some (tp, buckets)) MAX_TABLE_SIZE (zlen (mjoin buckets)).

(** Every node is in the bucket of its key. *)
Definition placed (buckets : list (list hashnode_t)) : Prop :=
  ∀ (i : nat) b n, buckets !! i = Some b → n ∈ b → _hash (cs_str (key n)) MAX_TABLE_SIZE = Some (Z.of_nat i).

Definition kvs_hash_wf (hash : kvs_hash_t) : Prop :=
  ∃ tp buckets, hash = hash_of tp buckets ∧
    List.length buckets = Z.to_nat MAX_TABLE_SIZE ∧ placed buckets ∧
    NoDup (node_strs <$> mjoin buckets).*1.

#[export] Instance hash_engine `{CRuntime W} : Engine W kvs_hash_t := {|
  eng_zero := global_hash_zero;
  eng_create := kvs_hash_create;
  eng_destroy := kvs_hash_destory;
  eng_set := kvs_hash_set;
  eng_get := kvs_hash_get;
  eng_del := kvs_hash_del;
  eng_mod := kvs_hash_mod;
  eng_exist := kvs_hash_exist;
  eng_foreach := @kvs_hash_foreach;
  eng_entries := kvs_hash_entries;
  eng_owned := kvs_hash_owned;
  eng_wf := kvs_hash_wf;
  eng_key := λ k, hash_key_ok k = true;
  eng_room := λ _, true;
  eng_del_missing := -1;
|}.

(** * Lemmas on the table *)

Section table.
Implicit Types (buckets : list (list hashnode_t)) (b : list hashnode_t) (n : hashnode_t) (k v : bytes).

Definition keys b : list bytes := (node_strs <$> b).*1.

Lemma keys_app b1 b2 : keys (b1 ++ b2) = keys b1 ++ keys b2.
Proof. unfold keys. by rewrite !fmap_app. Qed.

Lemma keys_cons n b : keys (n :: b) = cs_str (key n) :: keys b.
Proof. done. Qed.

Lemma elem_of_keys k b : k ∈ keys b ↔ ∃ n, n ∈ b ∧ cs_str (key n) = k.
Proof. unfold keys. rewrite <- list_fmap_compose, list_elem_of_fmap. naive_solver. Qed.

Lemma chain_find_spec k b :
  match chain_find k b with
  | None => k ∉ keys b
  | Some (before, n, after) => b = before ++ n :: after ∧ cs_str (key n) = k ∧ k ∉ keys before
  end.
Proof.
  induction b as [|n b IH]; simpl; [apply not_elem_of_nil|].
  destruct (strcmp (cs_str (key n)) k) eqn:E.
  { apply strcmp_eq in E. split_and!; [done|done|apply not_elem_of_nil]. }
  all: assert (cs_str (key n) ≠ k) by (intros Hnk; rewrite Hnk, strcmp_refl in E; done).
  all: destruct (chain_find k b) as [[[before n'] after]|]; simpl.
  all: rewrite !keys_cons.
  1,3: destruct IH as (-> & ? & ?); split_and!; [done|done|].
  all: rewrite not_elem_of_cons; auto.
Qed.

Lemma hash_index_bound k i : _hash k MAX_TABLE_SIZE = Some i → i < MAX_TABLE_SIZE.
Proof.
  unfold _hash. destruct (hash_sum 0 k) as [s|]; [|done]. simpl. intros E. apply (inj Some) in E as <-.
  pose proof (Z.rem_bound_abs s MAX_TABLE_SIZE ltac:(done)). unfold MAX_TABLE_SIZE in *. lia.
Qed.

Lemma placed_at bs1 b bs2 n :
  placed (bs1 ++ b :: bs2) → n ∈ b → _hash (cs_str (key n)) MAX_TABLE_SIZE = Some (zlen bs1).
Proof. intros Hp Hn. apply (Hp (List.length bs1) b); [|done]. by rewrite list_lookup_middle. Qed.

(** A key is only ever in its own bucket. *)
Lemma hash_split buckets k :
  List.length buckets = Z.to_nat MAX_TABLE_SIZE → placed buckets → hash_key_ok k = true →
  ∃ bs1 b bs2, buckets = bs1 ++ b :: bs2 ∧ _hash k MAX_TABLE_SIZE = Some (zlen bs1) ∧
    k ∉ keys (mjoin bs1) ∧ k ∉ keys (mjoin bs2).
Proof.
  intros Hlen Hpl Hk. unfold hash_key_ok in Hk.
  destruct (_hash k MAX_TABLE_SIZE) as [i|] eqn:Hi; [|done]. apply Z.leb_le in Hk.
  pose proof (hash_index_bound _ _ Hi) as Hlt.
  destruct (lookup_lt_is_Some_2 buckets (Z.to_nat i)) as [b Hb]; [lia|].
  apply list_elem_of_split_length in Hb as (bs1 & bs2 & -> & Hl).
  exists bs1, b, bs2. split_and!; [done|unfold zlen; f_equal; lia| |].
  - intros (n & (b' & Hn & Hb')%list_elem_of_join & <-)%elem_of_keys.
    apply list_elem_of_lookup in Hb' as [j Hj].
    pose proof (lookup_lt_Some _ _ _ Hj).
    specialize (Hpl j b' n). rewrite lookup_app_l in Hpl by done. specialize (Hpl Hj Hn).
    rewrite Hi in Hpl. apply (inj Some) in Hpl. lia.
  - intros (n & (b' & Hn & Hb')%list_elem_of_join & <-)%elem_of_keys.
    apply list_elem_of_lookup in Hb' as [j Hj].
    specialize (Hpl (List.length bs1 + S j)%nat b' n). rewrite lookup_app_r in Hpl by lia.
    rewrite Nat.add_comm, Nat.add_sub in Hpl. specialize (Hpl Hj Hn).
    rewrite Hi in Hpl. apply (inj Some) in Hpl. lia.
Qed.

Lemma placed_replace bs1 b b' bs2 :
  placed (bs1 ++ b :: bs2) →
  (∀ n, n ∈ b' → _hash (cs_str (key n)) MAX_TABLE_SIZE = Some (zlen bs1)) →
  placed (bs1 ++ b' :: bs2).
Proof.
  intros Hpl Hb' i b0 n Hi Hn.
  destruct (decide (i = List.length bs1)) as [->|Hne].
  { rewrite list_lookup_middle in Hi by done. apply (inj Some) in Hi as <-. by apply Hb'. }
  apply (Hpl i b0); [|done]. rewrite <- Hi, !lookup_app. destruct (bs1 !! i) eqn:Hb1; [done|].
  apply lookup_ge_None in Hb1. by destruct (i - List.length bs1)%nat eqn:E; [lia|].
Qed.

Lemma bucket_at_of {V} tp bs1 b bs2 m c (x : V) :
  bucket_at (KvsHash (Some (tp, bs1 ++ b :: bs2)) m c) (zlen bs1) x = Ok b x.
Proof. unfold bucket_at, mbind, M_bind. simpl. by rewrite znth_middle. Qed.

Lemma set_bucket_of tp bs1 b b' bs2 m c :
  set_bucket (KvsHash (Some (tp, bs1 ++ b :: bs2)) m c) (zlen bs1) b' =
  KvsHash (Some (tp, bs1 ++ b' :: bs2)) m c.
Proof. unfold set_bucket. simpl. by rewrite zupd_middle. Qed.

Lemma join_middle {A} (l1 l2 : list (list A)) (a : list A) : mjoin (l1 ++ a :: l2) = mjoin l1 ++ a ++ mjoin l2.
Proof. by rewrite join_app. Qed.
End table.

(** * The contract *)

Section laws.
Context `{CRuntimeLaws W}.
Implicit Types (buckets bs : list (list hashnode_t)) (b before after : list hashnode_t)
  (n : hashnode_t) (hash : kvs_hash_t) (w : W) (k v : bytes) (F : gset addr).

Definition addrs b : list addr := mjoin (node_addrs <$> b).

Lemma addrs_app b1 b2 : addrs (b1 ++ b2) = addrs b1 ++ addrs b2.
Proof. unfold addrs. by rewrite fmap_app, join_app. Qed.

Lemma addrs_cons n b : addrs (n :: b) = node_addrs n ++ addrs b.
Proof. done. Qed.

Lemma entries_middle tp bs1 b bs2 m c :
  kvs_hash_entries (KvsHash (Some (tp, bs1 ++ b :: bs2)) m c) =
  (node_strs <$> mjoin bs1) ++ (node_strs <$> b) ++ (node_strs <$> mjoin bs2).
Proof. unfold kvs_hash_entries, all_nodes. cbn [nodes]. by rewrite join_middle, !fmap_app. Qed.

Lemma owned_middle tp bs1 b bs2 m c :
  kvs_hash_owned (KvsHash (Some (tp, bs1 ++ b :: bs2)) m c) ≡ₚ
  addrs b ++ tp :: addrs (mjoin bs1) ++ addrs (mjoin bs2).
Proof.
  unfold kvs_hash_owned, all_nodes. cbn [nodes]. rewrite join_middle.
  change (mjoin (node_addrs <$> ?x)) with (addrs x). rewrite !addrs_app. solve_Permutation.
Qed.

(** Replacing a chain by one for the same bucket, the count adjusted. *)
Lemma hash_wf_replace tp bs1 b b' bs2 c :
  List.length (bs1 ++ b :: bs2) = Z.to_nat MAX_TABLE_SIZE → placed (bs1 ++ b :: bs2) →
  c = zlen (mjoin bs1) + zlen b' + zlen (mjoin bs2) →
  (∀ n, n ∈ b' → _hash (cs_str (key n)) MAX_TABLE_SIZE = Some (zlen bs1)) →
  NoDup ((node_strs <$> mjoin bs1) ++ (node_strs <$> b') ++ (node_strs <$> mjoin bs2)).*1 →
  kvs_hash_wf (KvsHash (Some (tp, bs1 ++ b' :: bs2)) MAX_TABLE_SIZE c).
Proof.
  intros Hlen Hpl -> Hb' Hnd. exists tp, (bs1 ++ b' :: bs2). split_and!.
  - unfold hash_of. f_equal. rewrite join_middle. autorewrite with zlen. lia.
  - rewrite length_app in *. simpl in *. lia.
  - by eapply placed_replace.
  - by rewrite join_middle, !fmap_app in *.
Qed.

Lemma hash_of_wf tp buckets : kvs_hash_wf (hash_of tp buckets) →
  List.length buckets = Z.to_nat MAX_TABLE_SIZE ∧ placed buckets ∧
  NoDup (node_strs <$> mjoin buckets).*1.
Proof. intros (tp' & bs' & [= <- <-] & ? & ? & ?). done. Qed.

(** The situation of an operation on key [k]: the chain of its bucket, and
    whether the key is in it. *)
Lemma hash_situation hash k :
  kvs_hash_wf hash → hash_key_ok k = true →
  ∃ tp bs1 b bs2, hash = hash_of tp (bs1 ++ b :: bs2) ∧ _hash k MAX_TABLE_SIZE = Some (zlen bs1) ∧
    k ∉ keys (mjoin bs1) ∧ k ∉ keys (mjoin bs2) ∧
    match chain_find k b with
    | None => k ∉ keys b ∧ eng_map hash !! k = None
    | Some (before, n, after) =>
        b = before ++ n :: after ∧ cs_str (key n) = k ∧ k ∉ keys before ∧
        eng_map hash !! k = Some (cs_str (value n))
    end.
Proof.
  intros (tp & bs & -> & Hlen & Hpl & Hnd) Hk.
  destruct (hash_split bs k) as (bs1 & b & bs2 & -> & Hi & Hk1 & Hk2); [done..|].
  exists tp, bs1, b, bs2. split_and!; [done..|].
  unfold eng_map. cbn [eng_entries hash_engine]. unfold hash_of. rewrite entries_middle.
  pose proof (chain_find_spec k b) as Hc. destruct (chain_find k b) as [[[before n] after]|].
  - destruct Hc as (-> & Hn & Hkb). split_and!; [done..|].
    rewrite fmap_app, fmap_cons, <- app_assoc, app_assoc. cbn [app].
    unfold node_strs at 3. rewrite Hn. apply to_map_middle. rewrite fmap_app. by apply not_elem_of_app.
  - split; [done|]. apply to_map_absent. rewrite !fmap_app, !not_elem_of_app. done.
Qed.

Lemma hash_get_law hash k w : kvs_hash_wf hash → hash_key_ok k = true →
  kvs_hash_get hash (Some k) w = Ok (eng_map hash !! k) w.
Proof.
  intros Hwf Hk. destruct (hash_situation hash k) as (tp & bs1 & b & bs2 & -> & Hi & _ & _ & Hc); [done..|].
  unfold kvs_hash_get. rewrite Hi. unfold mbind, M_bind. cbn [deref mret M_ret].
  unfold hash_of at 1. rewrite bucket_at_of.
  destruct (chain_find k b) as [[[before n] after]|].
  - by destruct Hc as (_ & _ & _ & ->).
  - by destruct Hc as [_ ->].
Qed.

(** Storing a new value in the node found. *)
Lemma hash_store tp bs1 before n after bs2 vc v F w w0 :
  kvs_hash_wf (hash_of tp (bs1 ++ (before ++ n :: after) :: bs2)) →
  cs_str (key n) ∉ keys (mjoin bs1) → cs_str (key n) ∉ keys before → cs_str vc = v →
  owns (cs_addr vc :: kvs_hash_owned (hash_of tp (bs1 ++ (before ++ n :: after) :: bs2))) F w →
  (roomy w0 → roomy w) →
  wp (kvs_free (Some (cs_addr (value n)));;
      mret (0, set_bucket (hash_of tp (bs1 ++ (before ++ n :: after) :: bs2)) (zlen bs1)
                 (before ++ set_value n vc :: after))) w
    (λ '(r, hash') w', r = 0 ∧ keeps_wf F w0 hash' w' ∧
      eng_map hash' = <[cs_str (key n):=v]> (eng_map (hash_of tp (bs1 ++ (before ++ n :: after) :: bs2)))).
Proof.
  intros Hwf Hk1 Hkb Hv Hw Hroom. destruct (hash_of_wf _ _ Hwf) as (Hlen & Hpl & Hnd).
  unfold hash_of in *. rewrite set_bucket_of. rewrite owned_middle in Hw.
  eapply wp_step.
  { apply (wp_free _ (addrs (before ++ set_value n vc :: after) ++ tp :: addrs (mjoin bs1) ++ addrs (mjoin bs2)) F).
    revert Hw. apply owns_perm. rewrite !addrs_app, !addrs_cons. unfold node_addrs. simpl. solve_Permutation. }
  intros _ w1 [Hw1 Hr1]. apply wp_ret. split_and!; [done|split_and!|].
  - eapply hash_wf_replace; [exact Hlen|exact Hpl| | |].
    + rewrite join_middle. autorewrite with zlen. lia.
    + intros n' Hn'. rewrite elem_of_app, elem_of_cons in Hn'. destruct Hn' as [?|[->|?]].
      * eapply placed_at; [exact Hpl|]. set_solver.
      * apply (placed_at _ _ _ n Hpl). set_solver.
      * eapply placed_at; [exact Hpl|]. set_solver.
    + revert Hnd. by rewrite join_middle, !fmap_app, !fmap_cons.
  - cbn [eng_owned hash_engine]. by rewrite owned_middle.
  - naive_solver.
  - unfold eng_map. cbn [eng_entries hash_engine]. rewrite !entries_middle, !fmap_app, !fmap_cons.
    rewrite <- !app_assoc, !(app_assoc (node_strs <$> mjoin bs1)). cbn [app].
    unfold node_strs at 3 7. cbn [set_value key value]. rewrite Hv. apply to_map_update.
    rewrite fmap_app. by apply not_elem_of_app.
Qed.

(** [_create_node] gives a node owning its three blocks, or nothing. *)
Lemma hash_create_node_spec k v own F w :
  owns own F w →
  wp (_create_node k v) w (λ r w',
    match r with
    | Some n => node_strs n = (k, v) ∧ owns (node_addrs n ++ own) F w'
    | None => owns own F w'
    end ∧ (roomy w → roomy w' ∧ r ≠ None)).
Proof.
  intros Hw. unfold _create_node, hash_node_alloc, hash_storge_free.
  eapply wp_step; [by apply wp_malloc|]. intros [p|] w1 [Hw1 Hr1]; [|by apply wp_ret; naive_solver].
  eapply wp_step; [by apply wp_malloc_copy|]. intros [kc|] w2 [Hw2 Hr2].
  2:{ eapply wp_step; [by apply wp_free|]. intros _ w3 [Hw3 Hr3]. apply wp_ret. naive_solver. }
  destruct Hw2 as [Hkc Hw2].
  eapply wp_step; [by apply wp_malloc_copy|]. intros [vc|] w3 [Hw3 Hr3].
  2:{ eapply wp_step; [by apply wp_free|]. intros _ w4 [Hw4 Hr4].
      eapply wp_step; [by apply wp_free|]. intros _ w5 [Hw5 Hr5]. apply wp_ret. naive_solver. }
  destruct Hw3 as [Hvc Hw3]. apply wp_ret. split; [|naive_solver].
  unfold node_strs, node_addrs. cbn [key value node_addr]. split; [congruence|].
  revert Hw3. apply owns_perm. solve_Permutation.
Qed.

Lemma node_free_spec n own F w :
  owns (node_addrs n ++ own) F w →
  wp (_hash_node_free n) w (λ _ w', owns own F w' ∧ (roomy w → roomy w')).
Proof.
  intros Hw. unfold _hash_node_free, hash_storge_free. cbn [node_addrs app] in Hw.
  eapply wp_step; [by apply wp_free|]. intros _ w1 [Hw1 Hr1].
  eapply wp_step; [by apply wp_free|]. intros _ w2 [Hw2 Hr2].
  eapply wp_mono; [by apply wp_free|]. naive_solver.
Qed.

Lemma hash_mod_law hash k v F w : kvs_hash_wf hash → hash_key_ok k = true →
  owns (kvs_hash_owned hash) F w →
  wp (kvs_hash_mod hash (Some k) (Some v)) w (λ '(r, hash') w', keeps_wf F w hash' w' ∧
    match eng_map hash !! k with
    | None => r = 1 ∧ eng_map hash' = eng_map hash
    | Some _ => (r = 0 ∧ eng_map hash' = <[k:=v]> (eng_map hash) ∨ r = -2 ∧ eng_map hash' = eng_map hash) ∧
                (roomy w → r = 0)
    end).
Proof.
  intros Hwf Hk Hw.
  destruct (hash_situation hash k) as (tp & bs1 & b & bs2 & -> & Hi & Hk1 & Hk2 & Hc); [done..|].
  unfold kvs_hash_mod. rewrite Hi. eapply wp_eq; [done|].
  unfold hash_of at 1. eapply wp_eq; [apply bucket_at_of|].
  destruct (chain_find k b) as [[[before n] after]|].
  2:{ destruct Hc as [Hkb ->]. apply wp_ret. split; [by split_and!|done]. }
  destruct Hc as (-> & <- & Hkb & ->). unfold malloc_copy_ptr. cbn [deref].
  eapply wp_step; [by apply wp_malloc_copy|]. intros [vc|] w1 [Hw1 Hr1].
  - destruct Hw1 as [Hv Hw1]. eapply wp_mono; [apply (hash_store _ _ _ _ _ _ _ v F w1 w); try done; naive_solver|].
    intros [r hash'] w' (-> & ? & ?). split; [done|]. auto.
  - apply wp_ret. split; [split_and!; naive_solver|]. naive_solver.
Qed.

(** Linking a new node at the head of its chain. *)
Lemma hash_link tp bs1 b bs2 n k v F w w0 :
  kvs_hash_wf (hash_of tp (bs1 ++ b :: bs2)) → _hash k MAX_TABLE_SIZE = Some (zlen bs1) →
  k ∉ keys (mjoin bs1) → k ∉ keys b → k ∉ keys (mjoin bs2) → node_strs n = (k, v) →
  owns (node_addrs n ++ kvs_hash_owned (hash_of tp (bs1 ++ b :: bs2))) F w → (roomy w0 → roomy w) →
  let hash := hash_of tp (bs1 ++ b :: bs2) in
  let hash' := set_count (set_bucket hash (zlen bs1) (n :: b)) (count hash + 1) in
  keeps_wf F w0 hash' w ∧ eng_map hash' = <[k:=v]> (eng_map hash).
Proof.
  intros Hwf Hi Hk1 Hkb Hk2 Hn Hw Hroom hash hash'. subst hash hash'.
  destruct (hash_of_wf _ _ Hwf) as (Hlen & Hpl & Hnd). rewrite join_middle, !fmap_app in Hnd.
  unfold hash_of in *. rewrite set_bucket_of. unfold set_count. cbn [nodes max_slots count].
  assert (cs_str (key n) = k) as Hnk by (by injection Hn).
  assert (NoDup ((k, v) :: (node_strs <$> mjoin bs1) ++ (node_strs <$> b) ++ (node_strs <$> mjoin bs2)).*1) as Hnd'.
  { rewrite fmap_cons. apply NoDup_cons. split; [|by rewrite !fmap_app in *].
    rewrite !fmap_app, !not_elem_of_app. done. }
  assert (((k, v) :: (node_strs <$> mjoin bs1) ++ (node_strs <$> b) ++ (node_strs <$> mjoin bs2)) ≡ₚ
    ((node_strs <$> mjoin bs1) ++ (node_strs <$> n :: b) ++ (node_strs <$> mjoin bs2))) as Hperm.
  { rewrite fmap_cons, Hn. solve_Permutation. }
  split; [split_and!|].
  - eapply hash_wf_replace; [exact Hlen|exact Hpl| | |].
    + rewrite join_middle. autorewrite with zlen. lia.
    + intros n' [->|Hn']%elem_of_cons; [by rewrite Hnk|]. by eapply placed_at.
    + by rewrite <- Hperm.
  - cbn [eng_owned hash_engine]. rewrite owned_middle, addrs_cons, <- app_assoc.
    revert Hw. by rewrite owned_middle.
  - done.
  - unfold eng_map. cbn [eng_entries hash_engine]. rewrite !entries_middle.
    by rewrite <- (to_map_perm _ _ Hnd' Hperm).
Qed.

Lemma hash_set_law hash k v F w : kvs_hash_wf hash → hash_key_ok k = true →
  owns (kvs_hash_owned hash) F w →
  wp (kvs_hash_set hash (Some k) (Some v)) w (λ '(r, hash') w', keeps_wf F w hash' w' ∧
    (r = 0 ∧ set_result (eng_map hash) k = 0 ∧ eng_map hash' = <[k:=v]> (eng_map hash) ∨
     r < 0 ∧ eng_map hash' = eng_map hash) ∧
    (roomy w → r = set_result (eng_map hash) k)).
Proof.
  intros Hwf Hk Hw.
  assert (set_result (eng_map hash) k = 0) as -> by (unfold set_result; simpl; by rewrite orb_true_r).
  destruct (hash_situation hash k) as (tp & bs1 & b & bs2 & -> & Hi & Hk1 & Hk2 & Hc); [done..|].
  unfold kvs_hash_set. rewrite Hi. eapply wp_eq; [done|].
  unfold hash_of at 1. eapply wp_eq; [apply bucket_at_of|].
  destruct (chain_find k b) as [[[before n] after]|].
  - destruct Hc as (-> & <- & Hkb & _).
    eapply wp_step; [by apply wp_malloc_copy|]. intros [vc|] w1 [Hw1 Hr1].
    + destruct Hw1 as [Hv Hw1]. eapply wp_mono; [apply (hash_store _ _ _ _ _ _ _ v F w1 w); try done; naive_solver|].
      intros [r hash'] w' (-> & ? & ?). split; [done|]. auto.
    + apply wp_ret. split; [split_and!; naive_solver|]. naive_solver.
  - destruct Hc as [Hkb _].
    eapply wp_step; [by apply hash_create_node_spec|]. intros [n|] w1 [Hw1 Hr1]; apply wp_ret.
    + destruct Hw1 as [Hn Hw1].
      destruct (hash_link tp bs1 b bs2 n k v F w1 w) as [? ?]; try done; naive_solver.
    + split; [split_and!; naive_solver|]. naive_solver.
Qed.

(** Unlinking a node and releasing it. *)
Lemma hash_unlink tp bs1 before n after bs2 F w :
  kvs_hash_wf (hash_of tp (bs1 ++ (before ++ n :: after) :: bs2)) →
  owns (kvs_hash_owned (hash_of tp (bs1 ++ (before ++ n :: after) :: bs2))) F w →
  let hash := hash_of tp (bs1 ++ (before ++ n :: after) :: bs2) in
  wp (_hash_node_free n;;
      mret (0, set_count (set_bucket hash (zlen bs1) (before ++ after))
                 (count (set_bucket hash (zlen bs1) (before ++ after)) - 1))) w
    (λ '(r, hash') w', r = 0 ∧ keeps_wf F w hash' w' ∧
      eng_map hash' = delete (cs_str (key n)) (eng_map hash)).
Proof.
  intros Hwf Hw hash. subst hash. destruct (hash_of_wf _ _ Hwf) as (Hlen & Hpl & Hnd).
  unfold hash_of in *. rewrite set_bucket_of. unfold set_count. cbn [nodes max_slots count].
  rewrite owned_middle, addrs_app, addrs_cons in Hw.
  eapply wp_step.
  { apply (node_free_spec _ (addrs (before ++ after) ++ tp :: addrs (mjoin bs1) ++ addrs (mjoin bs2)) F).
    revert Hw. apply owns_perm. rewrite addrs_app. solve_Permutation. }
  intros _ w1 [Hw1 Hr1]. apply wp_ret. split; [done|].
  rewrite join_middle, !(fmap_app node_strs), fmap_cons in Hnd.
  rewrite <- !app_assoc, (app_assoc (node_strs <$> mjoin bs1)) in Hnd. cbn [app] in Hnd.
  apply nodup_middle in Hnd as (Hn1 & Hn2 & Hnd). split; [split_and!|].
  - eapply hash_wf_replace; [exact Hlen|exact Hpl| | |].
    + rewrite join_middle. autorewrite with zlen. lia.
    + intros n' Hn'. eapply placed_at; [exact Hpl|]. set_solver.
    + revert Hnd. by rewrite (fmap_app node_strs), <- !app_assoc.
  - cbn [eng_owned hash_engine]. by rewrite owned_middle.
  - done.
  - unfold eng_map. cbn [eng_entries hash_engine]. rewrite !entries_middle, !fmap_app, fmap_cons.
    rewrite <- !app_assoc, !(app_assoc (node_strs <$> mjoin bs1)). cbn [app]. by apply to_map_remove.
Qed.

(** The head test of [kvs_hash_del] is the first step of the search. *)
Lemma chain_find_head k head next :
  chain_find k (head :: next) =
  match strcmp (cs_str (key head)) k with
  | Eq => Some ([], head, next)
  | _ => '(before, found, after) ← chain_find k next; Some (head :: before, found, after)
  end.
Proof. done. Qed.

Lemma hash_del_law hash k F w : kvs_hash_wf hash → hash_key_ok k = true →
  owns (kvs_hash_owned hash) F w →
  wp (kvs_hash_del hash (Some k)) w (λ '(r, hash') w', keeps_wf F w hash' w' ∧
    r = (if eng_map hash !! k then 0 else -1) ∧ eng_map hash' = delete k (eng_map hash)).
Proof.
  intros Hwf Hk Hw.
  destruct (hash_situation hash k) as (tp & bs1 & b & bs2 & -> & Hi & Hk1 & Hk2 & Hc); [done..|].
  unfold kvs_hash_del. rewrite Hi. eapply wp_eq; [done|].
  unfold hash_of at 1. eapply wp_eq; [apply bucket_at_of|].
  assert (∀ before n after, b = before ++ n :: after → cs_str (key n) = k →
    eng_map (hash_of tp (bs1 ++ b :: bs2)) !! k = Some (cs_str (value n)) →
    let hash := set_bucket (hash_of tp (bs1 ++ b :: bs2)) (zlen bs1) (before ++ after) in
    wp (_hash_node_free n;; mret (0, set_count hash (count hash - 1))) w
      (λ '(r, hash') w', keeps_wf F w hash' w' ∧
        r = (if eng_map (hash_of tp (bs1 ++ b :: bs2)) !! k then 0 else -1) ∧
        eng_map hash' = delete k (eng_map (hash_of tp (bs1 ++ b :: bs2))))) as Hunlink.
  { intros before n after -> Hn Hl hash. rewrite Hl. subst hash.
    eapply wp_mono; [by apply hash_unlink|]. intros [r hash'] w' (-> & ? & Hm). by rewrite Hm, Hn. }
  assert (eng_map (hash_of tp (bs1 ++ b :: bs2)) !! k = None →
    wp (mret (-1, hash_of tp (bs1 ++ b :: bs2))) w
      (λ '(r, hash') w', keeps_wf F w hash' w' ∧
        r = (if eng_map (hash_of tp (bs1 ++ b :: bs2)) !! k then 0 else -1) ∧
        eng_map hash' = delete k (eng_map (hash_of tp (bs1 ++ b :: bs2))))) as Hmiss.
  { intros Hl. apply wp_ret. rewrite Hl. split; [by split_and!|]. by rewrite delete_id. }
  destruct b as [|head next]; [apply Hmiss; apply Hc|].
  rewrite chain_find_head in Hc. destruct (strcmp (cs_str (key head)) k).
  { destruct Hc as (_ & ? & _ & ?). by apply (Hunlink [] head next). }
  all: destruct (chain_find k next) as [[[before n] after]|]; cbn in Hc; [|apply Hmiss; apply Hc].
  all: destruct Hc as ([= ->] & ? & _ & ?); by apply (Hunlink (head :: before) n after).
Qed.

Lemma hash_exist_law hash k w : kvs_hash_wf hash → hash_key_ok k = true →
  kvs_hash_exist hash (Some k) w = Ok (if eng_map hash !! k then 0 else 1) w.
Proof.
  intros Hwf Hk. unfold kvs_hash_exist, mbind, M_bind. rewrite hash_get_law by done.
  by destruct (eng_map hash !! k).
Qed.

Lemma join_empty_chains m : mjoin (replicate m ([] : list hashnode_t)) = [].
Proof. induction m; [done|]. simpl. done. Qed.

Lemma hash_create_law F w : owns [] F w →
  wp (kvs_hash_create global_hash_zero) w (λ '(r, hash') w',
    (r = 0 ∧ keeps_wf F w hash' w' ∧ kvs_hash_entries hash' = [] ∨ r = -1 ∧ owns [] F w') ∧
    (roomy w → roomy w' ∧ r = 0)).
Proof.
  intros Hw. unfold kvs_hash_create.
  eapply wp_step; [by apply wp_malloc|]. intros [p|] w' [Hw' Hr]; apply wp_ret.
  2:{ split; [by right|naive_solver]. }
  set (empty := replicate (Z.to_nat MAX_TABLE_SIZE) []).
  assert (mjoin empty = []) as Hj by apply join_empty_chains.
  assert (KvsHash (Some (p, empty)) MAX_TABLE_SIZE 0 = hash_of p empty) as -> by (unfold hash_of; by rewrite Hj).
  split; [left|naive_solver]. split_and!; [done|split_and!|].
  - exists p, empty. split_and!; [done|apply length_replicate| |rewrite Hj; apply NoDup_nil_2].
    intros i b n [-> _]%lookup_replicate Hn. by apply elem_of_nil in Hn.
  - cbn [eng_owned hash_engine]. unfold kvs_hash_owned, all_nodes. cbn [nodes hash_of]. by rewrite Hj.
  - naive_solver.
  - unfold kvs_hash_entries, all_nodes. cbn [nodes hash_of]. by rewrite Hj.
Qed.

Lemma free_chain_spec b own F w :
  owns (addrs b ++ own) F w → wp (free_chain b) w (λ _ w', owns own F w' ∧ (roomy w → roomy w')).
Proof.
  revert w. induction b as [|n b IH]; intros w Hw; [by apply wp_ret|].
  rewrite addrs_cons, <- app_assoc in Hw. cbn [free_chain].
  eapply wp_step; [by apply node_free_spec|]. intros _ w1 [Hw1 Hr1].
  eapply wp_mono; [by apply IH|]. naive_solver.
Qed.

Lemma hash_destroy_loop_spec tp done_bs bs m c own F w :
  owns (addrs (mjoin bs) ++ own) F w →
  wp (kvs_hash_destory_loop (List.length bs) (zlen done_bs) (KvsHash (Some (tp, done_bs ++ bs)) m c)) w
    (λ hash' w', fst <$> nodes hash' = Some tp ∧ owns own F w' ∧ (roomy w → roomy w')).
Proof.
  revert done_bs w. induction bs as [|b bs IH]; intros done_bs w Hw; [by apply wp_ret|].
  cbn [kvs_hash_destory_loop List.length].
  change (mjoin (b :: bs)) with (b ++ mjoin bs) in Hw. rewrite addrs_app, <- app_assoc in Hw.
  eapply wp_eq; [apply bucket_at_of|]. eapply wp_step; [by apply free_chain_spec|].
  intros _ w1 [Hw1 Hr1]. rewrite set_bucket_of, (cons_middle [] done_bs), app_assoc.
  replace (zlen done_bs + 1) with (zlen (done_bs ++ [[]])) by by autorewrite with zlen.
  eapply wp_mono; [by apply IH|]. naive_solver.
Qed.

Lemma hash_destroy_law hash F w : kvs_hash_wf hash → owns (kvs_hash_owned hash) F w →
  wp (kvs_hash_destory hash) w (λ hash' w', hash' = global_hash_zero ∧
    owns [] F w' ∧ (roomy w → roomy w')).
Proof.
  intros (tp & bs & -> & Hlen & _ & _) Hw. unfold kvs_hash_destory. unfold hash_of at 1.
  cbn [max_slots]. rewrite <- Hlen. eapply wp_step.
  { apply (hash_destroy_loop_spec tp [] bs MAX_TABLE_SIZE _ [tp] F). revert Hw. apply owns_perm.
    unfold kvs_hash_owned, all_nodes. cbn [nodes hash_of app]. change (mjoin (node_addrs <$> ?x)) with (addrs x).
    solve_Permutation. }
  intros hash' w1 (-> & Hw1 & Hr1). eapply wp_step; [by apply wp_free|].
  intros _ w2 [Hw2 Hr2]. apply wp_ret. naive_solver.
Qed.

Lemma foreach_chain_spec {V C} (visitor : kvs_visit_handler V C) b (c : C) (x : V) :
  foreach_chain visitor b c x = visit_all visitor (node_strs <$> b) c x.
Proof.
  revert c x. induction b as [|n b IH]; intros c x; [done|]. simpl.
  unfold mbind, M_bind. destruct (visitor _ _ c x) as [[r c'] x'|x'|]; [|done..].
  destruct (r <? 0); [done|]. apply IH.
Qed.

Lemma hash_foreach_loop_spec {V C} tp bs1 bs m cnt (visitor : kvs_visit_handler V C) (c : C) (x : V) :
  kvs_hash_foreach_loop (List.length bs) (zlen bs1) (KvsHash (Some (tp, bs1 ++ bs)) m cnt) visitor c x =
  visit_all visitor (node_strs <$> mjoin bs) c x.
Proof.
  revert bs1 c x. induction bs as [|b bs IH]; intros bs1 c x; [done|].
  cbn [kvs_hash_foreach_loop List.length]. unfold mbind at 1, M_bind at 1. rewrite bucket_at_of.
  change (mjoin (b :: bs)) with (b ++ mjoin bs). rewrite fmap_app, visit_all_app.
  unfold mbind, M_bind. rewrite foreach_chain_spec.
  destruct (visit_all visitor (node_strs <$> b) c x) as [[r c'] x'|x'|]; [|done..].
  destruct (r <? 0); [done|].
  specialize (IH (bs1 ++ [b])). rewrite <- app_assoc, zlen_app in IH. apply IH.
Qed.

Lemma hash_foreach_law {V C} hash (visitor : kvs_visit_handler V C) (c : C) (x : V) : kvs_hash_wf hash →
  kvs_hash_foreach hash (Some visitor) c x = visit_all visitor (kvs_hash_entries hash) c x.
Proof.
  intros (tp & bs & -> & Hlen & _ & _). unfold kvs_hash_foreach, kvs_hash_entries, all_nodes.
  cbn [nodes hash_of max_slots]. rewrite <- Hlen.
  apply (hash_foreach_loop_spec tp [] bs).
Qed.

(** The keys held have a bucket. *)
Lemma hash_stored_key tp bs k : placed bs → k ∈ (kvs_hash_entries (hash_of tp bs)).*1 → hash_key_ok k = true.
Proof.
  intros Hpl (e & -> & (n & -> & Hn)%list_elem_of_fmap)%list_elem_of_fmap. apply list_elem_of_join in Hn as (b & Hn & Hb).
  apply list_elem_of_lookup in Hb as [i Hi]. unfold hash_key_ok, node_strs. cbn [fst].
  rewrite (Hpl i b n Hi Hn). apply Z.leb_le. lia.
Qed.

#[export] Instance hash_engine_laws : EngineLaws W kvs_hash_t.
Proof.
  split.
  - intros e (tp & bs & -> & _ & _ & Hnd). done.
  - done.
  - intros e k (tp & bs & -> & _ & Hpl & _). apply hash_stored_key. exact Hpl.
  - done.
  - done.
  - intros F w Hw. eapply wp_mono; [by apply hash_create_law|]. by intros [r e'].
  - intros e F w Hwf Hw. eapply wp_mono; [by apply hash_destroy_law|]. naive_solver.
  - intros e k v F w Hwf Hk Hw. by apply hash_set_law.
  - intros e k w Hwf Hk. by apply hash_get_law.
  - intros e k F w Hwf Hk Hw. by apply hash_del_law.
  - intros e k v F w Hwf Hk Hw. by apply hash_mod_law.
  - intros e k w Hwf Hk. by apply hash_exist_law.
  - intros V C e visitor c v Hwf. by apply hash_foreach_law.
Qed.
End laws.

(** * Which keys have a bucket *)

Lemma hash_sum_ascii s k :
  Forall (λ c, uchar c < 128) k → 0 ≤ s → s + 127 * zlen k ≤ INT_MAX →
  ∃ s', hash_sum s k = Some s' ∧ s ≤ s'.
Proof.
  revert s. induction k as [|c k IH]; intros s Hk Hs Hb; simpl; [by exists s|].
  apply Forall_cons in Hk as [Hc Hk]. rewrite zlen_cons in Hb.
  assert (schar c = uchar c) as -> by (unfold schar; by rewrite (proj2 (Z.ltb_lt _ _))).
  pose proof (uchar_range c). pose proof (zlen_nonneg k).
  rewrite (proj2 (Z.leb_le _ _)) by (unfold INT_MAX; lia).
  rewrite (proj2 (Z.leb_le _ _)) by lia. simpl.
  destruct (IH (s + uchar c)) as (s' & ? & ?); [done|lia..|]. exists s'. split; [done|lia].
Qed.

(** * Properties *)

(** C14: Over its whole life the hash engine implements a finite map without a
    size limit, for keys whose bucket index is not negative: every operation is
    defined, returns the code and has the effect of the abstract map (-1 for the
    deletion of an absent key), and destruction releases exactly the blocks the
    table and its nodes held. *)
Theorem hash_session_refines `{CRuntimeLaws W} (os : list engine_op) (F : gset addr) (w : W)
    (Hk : Forall (λ o, hash_key_ok (op_key o) = true) os) (Hw : owns [] F w) :
  wp (engine_session (E := kvs_hash_t) os) w (λ r w', owns [] F w' ∧
    (∀ rs, r = Some rs → ∃ m, map_run_or_oom (E := kvs_hash_t) ∅ os rs m) ∧
    (roomy w → r = Some (map_run (E := kvs_hash_t) ∅ os).1)).
Proof. by apply engine_session_refines. Qed.

(** Two keys of the same bucket, the second inserted at the head of the chain. *)
Definition collision_ops : list engine_op :=
  [OpSet (lit "ab") (lit "1"); OpSet (lit "ba") (lit "2"); OpGet (lit "ab"); OpDel (lit "ab");
   OpGet (lit "ba"); OpDel (lit "ab"); OpMod (lit "ba") (lit "3"); OpGet (lit "ba")].

Lemma hash_session_witness :
  Forall (λ o, hash_key_ok (op_key o) = true) collision_ops ∧ owns [] ∅ empty_heap ∧
  wp (engine_session (E := kvs_hash_t) collision_ops) empty_heap (λ r w', owns [] ∅ w' ∧
    (∀ rs, r = Some rs → ∃ m, map_run_or_oom (E := kvs_hash_t) ∅ collision_ops rs m) ∧
    (roomy empty_heap → r = Some (map_run (E := kvs_hash_t) ∅ collision_ops).1)).
Proof.
  refine ((λ Hk, conj Hk (conj empty_heap_owns
    (hash_session_refines collision_ops ∅ empty_heap Hk empty_heap_owns))) _).
  repeat constructor.
Defined.

Example hash_session_run :
  (λ o, match o with Ok r _ => r | _ => None end)
    (engine_session (E := kvs_hash_t) collision_ops empty_heap) =
  Some [RInt 0; RInt 0; RStr (Some (lit "1")); RInt 0; RStr (Some (lit "2")); RInt (-1); RInt 0;
        RStr (Some (lit "3"))].
Proof. vm_compute. reflexivity. Qed.

(** Every ASCII key of at most 16 MiB has a bucket: the sum of its characters
    does not overflow and the index is inside the table. *)
Theorem hash_ascii_keys (k : bytes) (Hk : Forall (λ c, uchar c < 128) k) (Hlen : zlen k ≤ 2 ^ 24) :
  hash_key_ok k = true ∧ ∃ i, _hash k MAX_TABLE_SIZE = Some i ∧ 0 ≤ i < MAX_TABLE_SIZE.
Proof.
  destruct (hash_sum_ascii 0 k) as (s & Hs & Hpos); [done|lia|unfold INT_MAX; lia|].
  assert (_hash k MAX_TABLE_SIZE = Some (Z.rem s MAX_TABLE_SIZE)) as Hi by (unfold _hash; by rewrite Hs).
  pose proof (Z.rem_bound_pos s MAX_TABLE_SIZE Hpos ltac:(done)).
  split; [unfold hash_key_ok; rewrite Hi; apply Z.leb_le; lia|]. eauto.
Qed.

Lemma hash_ascii_keys_witness :
  Forall (λ c, uchar c < 128) (lit "Teacher1") ∧ zlen (lit "Teacher1") ≤ 2 ^ 24 ∧
  hash_key_ok (lit "Teacher1") = true ∧
  ∃ i, _hash (lit "Teacher1") MAX_TABLE_SIZE = Some i ∧ 0 ≤ i < MAX_TABLE_SIZE.
Proof.
  refine ((λ H1 H2, conj H1 (conj H2 (hash_ascii_keys _ H1 H2))) _ _).
  - repeat constructor.
  - vm_compute. discriminate.
Defined.

(** C38: for a key whose characters sum to a negative index, every keyed
    operation indexes the bucket table out of its bounds: the behaviour of the
    program is undefined.  A two-byte UTF-8 letter is such a key. *)
Theorem hash_negative_index_undefined `{CRuntime W} (hash : kvs_hash_t) (k v : bytes) (i : Z) (w : W)
    (Hi : _hash k MAX_TABLE_SIZE = Some i) (Hneg : i < 0) :
  kvs_hash_get hash (Some k) w = UB ∧ kvs_hash_exist hash (Some k) w = UB ∧
  kvs_hash_set hash (Some k) (Some v) w = UB ∧ kvs_hash_mod hash (Some k) (Some v) w = UB ∧
  kvs_hash_del hash (Some k) w = UB.
Proof.
  assert (∀ x : W, bucket_at hash i x = UB) as Hb.
  { intros x. unfold bucket_at, mbind, M_bind. destruct (nodes hash) as [[p bs]|]; [|done].
    unfold deref, mret, M_ret, znth. by rewrite (proj2 (Z.ltb_lt _ _)). }
  unfold kvs_hash_exist, kvs_hash_get, kvs_hash_set, kvs_hash_mod, kvs_hash_del.
  rewrite Hi. unfold mbind, M_bind. cbn [deref mret M_ret]. by rewrite Hb.
Qed.

Lemma hash_negative_index_witness :
  let k := [byte_of_Z 195; byte_of_Z 169] in
  let hash := KvsHash (Some (1, replicate 1024 [])) 1024 0 in
  _hash k MAX_TABLE_SIZE = Some (-148) ∧
  kvs_hash_get hash (Some k) empty_heap = UB ∧ kvs_hash_exist hash (Some k) empty_heap = UB ∧
  kvs_hash_set hash (Some k) (Some (lit "v")) empty_heap = UB ∧
  kvs_hash_mod hash (Some k) (Some (lit "v")) empty_heap = UB ∧
  kvs_hash_del hash (Some k) empty_heap = UB.
Proof.
  cbv zeta.
  refine ((λ H1 H2, conj H1 (hash_negative_index_undefined _ _ _ _ _ H1 H2)) _ _);
    [vm_compute; reflexivity|vm_compute; reflexivity].
Defined.
