(* ===== verification/SkipList.v ===== *)
(** The skip list engine, src/engines/kvs_skiplist.c: a header and nodes linked at
    up to seven levels, ordered by [strcmp].

    The nodes live in a heap, a finite map from addresses to nodes, and links are
    addresses: following a null or dangling pointer, or a level a node does not
    have, is undefined.  Loops that follow links carry a bound, one more than the
    number of nodes of the heap; that the bound is never reached is part of every
    theorem.  The instance is the global [global_skiplist], so the tests
    [inst == NULL] are constantly false and are left out.  [display] only prints
    and is not modelled. *)

From Stdlib Require Import ZArith Lia.
From S2P Require Import Prelude Runtime Engine.

Definition KVS_SKIPLIST_MAX_LEVEL : Z := 6.

(** [kvs_skiplist_node_t]; [forward] is a block with its pointers. *)
Record kvs_skiplist_node_t := SkNode {
  key : cstr;
  value : cstr;
  forward_addr : addr;
  forward : list (option addr);
}.

Abbreviation node_heap := (gmap addr kvs_skiplist_node_t) (only parsing).

(** [kvs_skiplist_t] with the nodes it reaches. *)
Record kvs_skiplist_t := KvsSkiplist {
  level : Z;
  header : option addr;
  heap : gmap Z kvs_skiplist_node_t;
}.

Definition global_skiplist_zero : kvs_skiplist_t := KvsSkiplist 0 None ∅.

(** ** Reading and writing nodes *)

Definition node_at {V} (h : node_heap) (p : addr) : M V kvs_skiplist_node_t := deref (h !! p).

(** [p->forward[i]] *)
Definition forward_at {V} (h : node_heap) (p : addr) (i : Z) : M V (option addr) :=
  n ← node_at h p; deref (znth (forward n) i).

Definition with_forward (n : kvs_skiplist_node_t) (f : list (option addr)) : kvs_skiplist_node_t :=
  SkNode (key n) (value n) (forward_addr n) f.
Definition with_value (n : kvs_skiplist_node_t) (v : cstr) : kvs_skiplist_node_t :=
  SkNode (key n) v (forward_addr n) (forward n).

(** [p->forward[i] = x] *)
Definition set_forward {V} (h : node_heap) (p : addr) (i : Z) (x : option addr) : M V node_heap :=
  n ← node_at h p;
  deref (znth (forward n) i);;
  mret (<[p := with_forward n (zupd i x (forward n))]> h).

(** ** Searching *)

(** The inner [while]: stay on level [i] as long as the next key is smaller. *)
Fixpoint advance {V} (fuel : nat) (h : node_heap) (i : Z) (k : bytes) (current : addr) : M V addr :=
  match fuel with
  | O => undefined
  | S fuel =>
      next ← forward_at h current i;
      match next with
      | None => mret current
      | Some q =>
          n ← node_at h q;
          match strcmp (cs_str (key n)) k with
          | Lt => advance fuel h i k q
          | _ => mret current
          end
      end
  end.

(** The outer [for], from level [n - 1] down to 0, recording in [update] where
    each level was left. *)
Fixpoint search_levels {V} (n : nat) (h : node_heap) (k : bytes) (current : addr)
    (update : list (option addr)) : M V (addr * list (option addr)) :=
  match n with
  | O => mret (current, update)
  | S i =>
      current ← advance (S (size h)) h (Z.of_nat i) k current;
      search_levels i h k current (<[i := Some current]> update)
  end.

(** The local array [update[KVS_SKIPLIST_MAX_LEVEL + 1]], uninitialised. *)
Definition update_array : list (option addr) := replicate (Z.to_nat (KVS_SKIPLIST_MAX_LEVEL + 1)) None.

(** Both loops, then [current->forward[0]]. *)
Definition search {V} (inst : kvs_skiplist_t) (k : bytes) : M V (option addr * list (option addr)) :=
  hd ← deref (header inst);
  '(current, update) ← search_levels (Z.to_nat (level inst + 1)) (heap inst) k hd update_array;
  next ← forward_at (heap inst) current 0;
  mret (next, update).

(** The node found is the one after the search if its key is the one sought. *)
Definition matching {V} (h : node_heap) (current : option addr) (k : bytes) :
    M V (option (addr * kvs_skiplist_node_t)) :=
  match current with
  | None => mret None
  | Some p =>
      n ← node_at h p;
      match strcmp (cs_str (key n)) k with
      | Eq => mret (Some (p, n))
      | _ => mret None
      end
  end.

Definition skiplist_search_node {V} (inst : kvs_skiplist_t) (k : bytes) :
    M V (option (addr * kvs_skiplist_node_t)) :=
  '(current, _) ← search inst k;
  matching (heap inst) current k.

Definition set_heap (inst : kvs_skiplist_t) (h : node_heap) : kvs_skiplist_t :=
  KvsSkiplist (level inst) (header inst) h.

Section ops.
Context `{CRuntime W}.

Definition skiplist_node_storage_alloc : M W (option addr) := kvs_malloc 24.
Definition skiplist_node_storage_free (p : addr) : M W unit := kvs_free (Some p).

Definition skiplist_create_node (lv : Z) (k v : bytes) : M W (option (addr * kvs_skiplist_node_t)) :=
  if (lv <? 0) || (KVS_SKIPLIST_MAX_LEVEL <? lv) then mret None else
  newNode ← skiplist_node_storage_alloc;
  match newNode with
  | None => mret None
  | Some p =>
      kc ← malloc_copy k;
      match kc with
      | None => skiplist_node_storage_free p;; mret None
      | Some kc =>
          vc ← malloc_copy v;
          match vc with
          | None => kvs_free (Some (cs_addr kc));; skiplist_node_storage_free p;; mret None
          | Some vc =>
              fa ← kvs_malloc ((lv + 1) * 8);
              match fa with
              | None =>
                  kvs_free (Some (cs_addr kc));; kvs_free (Some (cs_addr vc));;
                  skiplist_node_storage_free p;; mret None
              | Some fa => mret (Some (p, SkNode kc vc fa (replicate (Z.to_nat (lv + 1)) None)))
              end
          end
      end
  end.

Definition kvs_skiplist_create (inst : kvs_skiplist_t) : M W (Z * kvs_skiplist_t) :=
  hd ← skiplist_create_node KVS_SKIPLIST_MAX_LEVEL [] [];
  match hd with
  | None => mret (-1, KvsSkiplist 0 None (heap inst))
  | Some (p, n) => mret (0, KvsSkiplist 0 (Some p) (<[p := n]> (heap inst)))
  end.

(** The four releases of a node in [kvs_skiplist_destory]. *)
Definition destory_node (p : addr) (n : kvs_skiplist_node_t) : M W unit :=
  kvs_free (Some (cs_addr (key n)));;
  kvs_free (Some (cs_addr (value n)));;
  kvs_free (Some (forward_addr n));;
  skiplist_node_storage_free p.

Fixpoint kvs_skiplist_destory_loop (fuel : nat) (h : node_heap) (current : option addr) : M W node_heap :=
  match current with
  | None => mret h
  | Some p =>
      match fuel with
      | O => undefined
      | S fuel =>
          next ← forward_at h p 0;
          n ← node_at h p;
          destory_node p n;;
          kvs_skiplist_destory_loop fuel (delete p h) next
      end
  end.

Definition kvs_skiplist_destory (inst : kvs_skiplist_t) : M W kvs_skiplist_t :=
  match header inst with
  | None => mret inst
  | Some hd =>
      current ← forward_at (heap inst) hd 0;
      h ← kvs_skiplist_destory_loop (size (heap inst)) (heap inst) current;
      n ← node_at h hd;
      destory_node hd n;;
      mret (KvsSkiplist 0 None (delete hd h))
  end.

(** [rand() < RAND_MAX / 2] raises the level, at most to the maximum. *)
Fixpoint random_level_loop (fuel : nat) (lv : Z) : M W Z :=
  match fuel with
  | O => undefined
  | S fuel =>
      r ← c_rand;
      if (r <? RAND_MAX / 2) && (lv <? KVS_SKIPLIST_MAX_LEVEL)
      then random_level_loop fuel (lv + 1) else mret lv
  end.
Definition skiplist_random_level : M W Z :=
  random_level_loop (Z.to_nat (KVS_SKIPLIST_MAX_LEVEL + 1)) 0.

(** The [for] loop that enters the header for the levels above the list's. *)
Fixpoint raise_update (n : nat) (i : nat) (hd : addr) (update : list (option addr)) : list (option addr) :=
  match n with
  | O => update
  | S n => raise_update n (S i) hd (<[i := Some hd]> update)
  end.

(** The loop that links a new node, [n] levels from level [i] on. *)
Fixpoint link_node {V} (n : nat) (i : nat) (h : node_heap) (p : addr) (update : list (option addr)) :
    M V node_heap :=
  match n with
  | O => mret h
  | S n =>
      u ← deref (mjoin (update !! i));
      next ← forward_at h u (Z.of_nat i);
      h ← set_forward h p (Z.of_nat i) next;
      h ← set_forward h u (Z.of_nat i) (Some p);
      link_node n (S i) h p update
  end.

(** [new_value = copy of v; kvs_free(current->value); current->value = new_value] *)
Definition replace_value (inst : kvs_skiplist_t) (p : addr) (n : kvs_skiplist_node_t) (v : bytes) :
    M W (Z * kvs_skiplist_t) :=
  new_value ← malloc_copy v;
  match new_value with
  | None => mret (-2, inst)
  | Some new_value =>
      kvs_free (Some (cs_addr (value n)));;
      mret (0, set_heap inst (<[p := with_value n new_value]> (heap inst)))
  end.

Definition kvs_skiplist_set (inst : kvs_skiplist_t) (k v : option bytes) : M W (Z * kvs_skiplist_t) :=
  match header inst, k, v with
  | Some hd, Some k, Some v =>
      '(current, update) ← search inst k;
      found ← matching (heap inst) current k;
      match found with
      | None =>
          lv ← skiplist_random_level;
          let update :=
            if level inst <? lv
            then raise_update (Z.to_nat (lv - level inst)) (Z.to_nat (level inst + 1)) hd update
            else update in
          newNode ← skiplist_create_node lv k v;
          match newNode with
          | None => mret (-2, inst)
          | Some (p, n) =>
              let new_level := if level inst <? lv then lv else level inst in
              h ← link_node (Z.to_nat (lv + 1)) 0 (<[p := n]> (heap inst)) p update;
              mret (0, KvsSkiplist new_level (header inst) h)
          end
      | Some (p, n) => replace_value inst p n v
      end
  | _, _, _ => mret (-1, inst)
  end.

Definition kvs_skiplist_get (inst : kvs_skiplist_t) (k : option bytes) : M W (option bytes) :=
  match k with
  | None => mret None
  | Some k =>
      node ← skiplist_search_node inst k;
      mret ((λ '(_, n), cs_str (value n)) <$> node)
  end.

(** The loop that unlinks [current], from level [i] up, stopping at the first
    level where it is not linked. *)
Fixpoint unlink_node {V} (n : nat) (i : nat) (h : node_heap) (p : addr) (update : list (option addr)) :
    M V node_heap :=
  match n with
  | O => mret h
  | S n =>
      u ← deref (mjoin (update !! i));
      next ← forward_at h u (Z.of_nat i);
      if bool_decide (next ≠ Some p) then mret h
      else
        x ← forward_at h p (Z.of_nat i);
        h ← set_forward h u (Z.of_nat i) x;
        unlink_node n (S i) h p update
  end.

(** The loop that lowers the level of the list while its top level is empty. *)
Fixpoint lower_level {V} (lv : nat) (h : node_heap) (hd : addr) : M V nat :=
  match lv with
  | O => mret O
  | S lv' =>
      next ← forward_at h hd (Z.of_nat lv);
      match next with None => lower_level lv' h hd | Some _ => mret lv end
  end.

Definition kvs_skiplist_del (inst : kvs_skiplist_t) (k : option bytes) : M W (Z * kvs_skiplist_t) :=
  match header inst, k with
  | Some hd, Some k =>
      '(current, update) ← search inst k;
      found ← matching (heap inst) current k;
      match found with
      | None => mret (1, inst)
      | Some (p, _) =>
          h ← unlink_node (Z.to_nat (level inst + 1)) 0 (heap inst) p update;
          lv ← lower_level (Z.to_nat (level inst)) h hd;
          n ← node_at h p;
          kvs_free (Some (forward_addr n));;
          kvs_free (Some (cs_addr (value n)));;
          kvs_free (Some (cs_addr (key n)));;
          skiplist_node_storage_free p;;
          mret (0, KvsSkiplist (Z.of_nat lv) (header inst) (delete p h))
      end
  | _, _ => mret (-1, inst)
  end.

Definition kvs_skiplist_mod (inst : kvs_skiplist_t) (k v : option bytes) : M W (Z * kvs_skiplist_t) :=
  match header inst, k, v with
  | Some _, Some k, Some v =>
      node ← skiplist_search_node inst k;
      match node with
      | None => mret (1, inst)
      | Some (p, n) => replace_value inst p n v
      end
  | _, _, _ => mret (-1, inst)
  end.

Definition kvs_skiplist_exist (inst : kvs_skiplist_t) (k : option bytes) : M W Z :=
  match header inst, k with
  | Some _, Some k =>
      node ← skiplist_search_node inst k;
      mret (match node with Some _ => 0 | None => 1 end)
  | _, _ => mret (-1)
  end.

Fixpoint foreach_loop {V C} (fuel : nat) (h : node_heap) (visitor : kvs_visit_handler V C)
    (node : option addr) (context : C) : M V (Z * C) :=
  match node with
  | None => mret (0, context)
  | Some p =>
      match fuel with
      | O => undefined
      | S fuel =>
          n ← node_at h p;
          '(ret, context) ← visitor (cs_str (key n)) (cs_str (value n)) context;
          if ret <? 0 then mret (-1, context)
          else
            next ← forward_at h p 0;
            foreach_loop fuel h visitor next context
      end
  end.

Definition kvs_skiplist_foreach {V C} (inst : kvs_skiplist_t)
    (visitor : option (kvs_visit_handler V C)) (context : C) : M V (Z * C) :=
  match header inst, visitor with
  | Some hd, Some visitor =>
      node ← forward_at (heap inst) hd 0;
      foreach_loop (size (heap inst)) (heap inst) visitor node context
  | _, _ => mret (-1, context)
  end.
End ops.

(** * Observations *)

(** The nodes reached from [p] on level 0. *)
Fixpoint walk (fuel : nat) (h : node_heap) (p : option addr) : list (addr * kvs_skiplist_node_t) :=
  match fuel, p with
  | S fuel, Some a =>
      match h !! a with
      | Some n => (a, n) :: walk fuel h (mjoin (forward n !! O))
      | None => []
      end
  | _, _ => []
  end.

(** The header and then the nodes, in order. *)
Definition all_nodes (inst : kvs_skiplist_t) : list (addr * kvs_skiplist_node_t) :=
  walk (size (heap inst)) (heap inst) (header inst).

Definition node_strs (n : kvs_skiplist_node_t) : bytes * bytes := (cs_str (key n), cs_str (value n)).
Definition node_blocks (pn : addr * kvs_skiplist_node_t) : list addr :=
  [cs_addr (key pn.2); cs_addr (value pn.2); forward_addr pn.2; pn.1].

Definition kvs_skiplist_entries (inst : kvs_skiplist_t) : list (bytes * bytes) :=
  node_strs ∘ snd <$> tail (all_nodes inst).
Definition kvs_skiplist_owned (inst : kvs_skiplist_t) : list addr :=
  mjoin (node_blocks <$> all_nodes inst).

(** ** The list a skip list represents

    A skip list is determined by its nodes in key order and their heights: the
    link of a node on a level is the next node that reaches the level. *)

Record sk_node := Sk {
  sk_addr : addr;
  sk_key : cstr;
  sk_value : cstr;
  sk_block : addr;
  sk_height : nat;
}.

(** The first node of [ns] that reaches level [i], else [tl]. *)
Fixpoint next_at (tl : option addr) (i : nat) (ns : list sk_node) : option addr :=
  match ns with
  | [] => tl
  | n :: ns => if decide (i < sk_height n)%nat then Some (sk_addr n) else next_at tl i ns
  end.

(** The node [n] as it is in memory when [ns] follow it and level [i] goes on at
    [tl i] after them. *)
Definition sk_mem (tl : nat → option addr) (n : sk_node) (ns : list sk_node) : kvs_skiplist_node_t :=
  SkNode (sk_key n) (sk_value n) (sk_block n) ((λ i, next_at (tl i) i ns) <$> seq 0 (sk_height n)).

(** The heap of a segment of the list. *)
Fixpoint seg (tl : nat → option addr) (ns : list sk_node) : node_heap :=
  match ns with
  | [] => ∅
  | n :: ns => <[sk_addr n := sk_mem tl n ns]> (seg tl ns)
  end.

Definition no_tl : nat → option addr := λ _, None.

Definition skiplist_of (hd : sk_node) (ns : list sk_node) (lv : Z) : kvs_skiplist_t :=
  KvsSkiplist lv (Some (sk_addr hd)) (seg no_tl (hd :: ns)).

Definition sk_strs (n : sk_node) : bytes * bytes := (cs_str (sk_key n), cs_str (sk_value n)).
Definition sk_str (n : sk_node) : bytes := cs_str (sk_key n).

(** The heights fit the level of the list, which is the greatest one reached. *)
Definition heights_ok (hd : sk_node) (ns : list sk_node) (lv : Z) : Prop :=
  sk_height hd = Z.to_nat (KVS_SKIPLIST_MAX_LEVEL + 1) ∧ 0 ≤ lv ≤ KVS_SKIPLIST_MAX_LEVEL ∧
  Forall (λ n, (0 < sk_height n)%nat ∧ Z.of_nat (sk_height n) ≤ lv + 1) ns ∧
  (lv = 0 ∨ Exists (λ n, Z.of_nat (sk_height n) = lv + 1) ns).

Definition kvs_skiplist_wf (inst : kvs_skiplist_t) : Prop :=
  ∃ hd ns lv, inst = skiplist_of hd ns lv ∧ heights_ok hd ns lv ∧
    StronglySorted str_lt (sk_str <$> ns) ∧ NoDup (sk_addr <$> hd :: ns).

#[export] Instance skiplist_engine `{CRuntime W} : Engine W kvs_skiplist_t := {|
  eng_zero := global_skiplist_zero;
  eng_create := kvs_skiplist_create;
  eng_destroy := kvs_skiplist_destory;
  eng_set := kvs_skiplist_set;
  eng_get := kvs_skiplist_get;
  eng_del := kvs_skiplist_del;
  eng_mod := kvs_skiplist_mod;
  eng_exist := kvs_skiplist_exist;
  eng_foreach := @kvs_skiplist_foreach;
  eng_entries := kvs_skiplist_entries;
  eng_owned := kvs_skiplist_owned;
  eng_wf := kvs_skiplist_wf;
  eng_key := λ _, True;
  eng_room := λ _, true;
  eng_del_missing := 1;
|}.

(** * Segments *)

Section segments.
Implicit Types (tl : nat → option addr) (n c : sk_node) (ns A B S : list sk_node) (i j : nat).

Lemma next_at_app x i A B : next_at x i (A ++ B) = next_at (next_at x i B) i A.
Proof. induction A as [|n A IH]; simpl; [done|]. by rewrite IH. Qed.

Lemma next_at_skip x i S : Forall (λ n, (sk_height n <= i)%nat) S → next_at x i S = x.
Proof.
  induction 1 as [|n S Hn _ IH]; simpl; [done|]. by rewrite decide_False by lia.
Qed.

Lemma sk_mem_ext tl tl' n ns :
  (∀ i, (i < sk_height n)%nat → next_at (tl i) i ns = next_at (tl' i) i ns) →
  sk_mem tl n ns = sk_mem tl' n ns.
Proof.
  intros E. unfold sk_mem. f_equal. apply list_fmap_ext. intros j i Hi.
  apply lookup_seq in Hi as [-> ?]. by apply E.
Qed.

Lemma seg_ext tl tl' ns :
  (∀ i n, n ∈ ns → (i < sk_height n)%nat → tl i = tl' i) → seg tl ns = seg tl' ns.
Proof.
  induction ns as [|n ns IH]; simpl; intros E; [done|].
  rewrite IH by set_solver. f_equal. apply sk_mem_ext. intros i Hi. by rewrite (E i n) by set_solver.
Qed.

Lemma segment_app tl A B : seg tl (A ++ B) = seg (λ i, next_at (tl i) i B) A ∪ seg tl B.
Proof.
  induction A as [|n A IH]; simpl; [by rewrite (left_id_L ∅ (∪))|].
  rewrite IH, <- insert_union_l. f_equal. unfold sk_mem. f_equal.
  apply list_fmap_ext. intros j i _. apply next_at_app.
Qed.

Lemma seg_lookup_None tl ns p : p ∉ sk_addr <$> ns → seg tl ns !! p = None.
Proof.
  induction ns as [|n ns IH]; simpl; intros Hp; [done|].
  apply not_elem_of_cons in Hp as [? ?]. rewrite lookup_insert_ne by done. auto.
Qed.

Lemma seg_size tl ns : NoDup (sk_addr <$> ns) → size (seg tl ns) = List.length ns.
Proof.
  induction ns as [|n ns IH]; simpl; [done|]. intros [Hn Hnd]%NoDup_cons.
  rewrite map_size_insert_None by (by apply seg_lookup_None). by rewrite IH.
Qed.

Lemma seg_lookup tl A c B :
  sk_addr c ∉ sk_addr <$> A → seg tl (A ++ c :: B) !! sk_addr c = Some (sk_mem tl c B).
Proof.
  intros Hc. rewrite segment_app, lookup_union_r by (by apply seg_lookup_None). simpl.
  apply lookup_insert_eq.
Qed.

Lemma nodup_middle_notin A c B : NoDup (sk_addr <$> A ++ c :: B) → sk_addr c ∉ sk_addr <$> A.
Proof.
  rewrite fmap_app, fmap_cons, NoDup_app. intros (_ & Hd & _) Hin. apply (Hd _ Hin). set_solver.
Qed.

(** Redirecting one level behind a segment changes one link: that of the last
    node reaching the level. *)
Definition redirect tl j (x : option addr) : nat → option addr := λ i, if decide (i = j) then x else tl i.

Lemma redirect_eq tl j x : redirect tl j x j = x.
Proof. unfold redirect. by rewrite decide_True. Qed.

Lemma redirect_ne tl j x i : i ≠ j → redirect tl j x i = tl i.
Proof. intros. unfold redirect. by rewrite decide_False. Qed.

Lemma sk_mem_redirect tl c S j x :
  (j < sk_height c)%nat → Forall (λ n, (sk_height n <= j)%nat) S →
  with_forward (sk_mem tl c S) (zupd (Z.of_nat j) x (forward (sk_mem tl c S))) =
  sk_mem (redirect tl j x) c S.
Proof.
  intros Hj HS. unfold sk_mem, with_forward. simpl. f_equal.
  unfold zupd. rewrite Nat2Z.id. apply list_eq. intros i.
  destruct (decide (i = j)) as [->|Hne].
  - rewrite list_lookup_insert_eq by (by rewrite length_fmap, length_seq).
    rewrite list_lookup_fmap, lookup_seq_lt by done. simpl. by rewrite redirect_eq, next_at_skip.
  - rewrite list_lookup_insert_ne by done. rewrite !list_lookup_fmap.
    destruct (decide (i < sk_height c)%nat).
    + rewrite lookup_seq_lt by done. simpl. by rewrite redirect_ne.
    + by rewrite lookup_seq_ge by lia.
Qed.

Lemma seg_redirect tl A c S j x :
  NoDup (sk_addr <$> A ++ c :: S) → (j < sk_height c)%nat → Forall (λ n, (sk_height n <= j)%nat) S →
  <[sk_addr c := sk_mem (redirect tl j x) c S]> (seg tl (A ++ c :: S)) =
  seg (redirect tl j x) (A ++ c :: S).
Proof.
  intros Hnd Hj HS. apply nodup_middle_notin in Hnd. rewrite !segment_app.
  rewrite insert_union_r by (by apply seg_lookup_None). simpl. rewrite insert_insert_eq.
  f_equal.
  - apply seg_ext. intros i n _ _. destruct (decide (i = j)) as [->|Hne].
    + by rewrite !decide_True.
    + by rewrite redirect_ne.
  - f_equal. apply seg_ext. intros i n Hn Hi. rewrite redirect_ne; [done|].
    apply Forall_forall with (x := n) in HS; [|done]. lia.
Qed.
End segments.

(** * Searching *)

Section searching.
Implicit Types (tl : nat → option addr) (n c hd : sk_node) (ns A B S L lo hi : list sk_node) (i j : nat) (k : bytes).

(** [c] is the last node of [L] that reaches level [i]. *)
Definition stop_at i L c : Prop :=
  ∃ A S, L = A ++ c :: S ∧ (i < sk_height c)%nat ∧ Forall (λ n, (sk_height n <= i)%nat) S.

Lemma node_at_seg {V} tl ns A c B (v : V) :
  ns = A ++ c :: B → NoDup (sk_addr <$> ns) →
  node_at (seg tl ns) (sk_addr c) v = Ok (sk_mem tl c B) v.
Proof.
  intros -> Hnd%nodup_middle_notin. unfold node_at. by rewrite seg_lookup.
Qed.

Lemma forward_at_seg {V} tl ns A c B i (v : V) :
  ns = A ++ c :: B → NoDup (sk_addr <$> ns) → (i < sk_height c)%nat →
  forward_at (seg tl ns) (sk_addr c) (Z.of_nat i) v = Ok (next_at (tl i) i B) v.
Proof.
  intros Hns Hnd Hi. unfold forward_at, mbind, M_bind. erewrite node_at_seg by done. simpl.
  by rewrite znth_lookup, list_lookup_fmap, lookup_seq_lt.
Qed.

Lemma next_at_Some i ns q :
  next_at None i ns = Some q → ∃ A n B, ns = A ++ n :: B ∧ q = sk_addr n.
Proof.
  induction ns as [|n ns IH]; simpl; [done|]. destruct (decide _).
  - intros [= <-]. by exists [], n, ns.
  - intros (A & m & B & -> & ->)%IH. by exists (n :: A), m, B.
Qed.

Lemma advance_spec {V} L i k hi B A c S fuel (v : V) :
  L = A ++ c :: S ++ B → NoDup (sk_addr <$> L ++ hi) → (i < sk_height c)%nat →
  Forall (λ n, (sk_height n <= i)%nat) S →
  Forall (λ n, str_lt (sk_str n) k) B → Forall (λ n, ¬ str_lt (sk_str n) k) hi →
  (List.length B < fuel)%nat →
  ∃ c', advance fuel (seg no_tl (L ++ hi)) (Z.of_nat i) k (sk_addr c) v = Ok (sk_addr c') v ∧
    stop_at i L c'.
Proof.
  intros HL Hnd. revert A c S fuel HL. induction B as [|b B IH]; intros A c S fuel HL Hc HS HB Hhi Hf;
    (destruct fuel as [|fuel]; [simpl in Hf; lia|]).
  - exists c. rewrite app_nil_r in HL. split; [|by exists A, S].
    cbn [advance]. unfold mbind at 1, M_bind at 1.
    rewrite (forward_at_seg _ _ A c (S ++ hi)) by (done || by rewrite HL, <- app_assoc).
    unfold no_tl. rewrite next_at_app, next_at_skip by done.
    destruct (next_at None i hi) as [q|] eqn:Hq; [|done].
    apply next_at_Some in Hq as (H1 & n & H2 & -> & ->).
    unfold mbind, M_bind. rewrite (node_at_seg _ _ (L ++ H1) n H2) by (done || by rewrite <- app_assoc).
    cbn [sk_mem key]. apply Forall_app in Hhi as [_ [Hn _]%Forall_cons]. unfold str_lt, sk_str in Hn.
    by destruct (strcmp (cs_str (sk_key n)) k).
  - apply Forall_cons in HB as [Hb HB]. simpl in Hf. destruct (decide (i < sk_height b)%nat) as [Hib|Hib].
    + destruct (IH (A ++ c :: S) b [] fuel) as (c' & E & Hstop); try done; [|lia|].
      { rewrite HL, <- app_assoc. done. }
      exists c'. split; [|done]. cbn [advance]. unfold mbind at 1, M_bind at 1.
      rewrite (forward_at_seg _ _ A c ((S ++ b :: B) ++ hi)) by (done || by rewrite HL, <- app_assoc).
      rewrite <- app_assoc, next_at_app, next_at_skip by done. cbn [next_at app]. rewrite decide_True by done.
      unfold mbind, M_bind.
      rewrite (node_at_seg _ _ (A ++ c :: S) b (B ++ hi)) by (done || rewrite HL, <- !app_assoc; cbn [app]; by rewrite <- app_assoc).
      cbn [sk_mem key]. unfold str_lt, sk_str in Hb. by rewrite Hb.
    + destruct (IH A c (S ++ [b]) (Datatypes.S fuel)) as (c' & E & Hstop); try done; [| |lia|].
      { rewrite HL, <- app_assoc. done. }
      { apply Forall_app; split; [done|]. apply Forall_singleton. lia. }
      by exists c'.
Qed.

(** ** All levels *)

Lemma suffix_smaller k A c B hd lo :
  hd :: lo = A ++ c :: B → Forall (λ n, str_lt (sk_str n) k) lo → Forall (λ n, str_lt (sk_str n) k) B.
Proof.
  intros E Hlo. destruct A as [|a A]; cbn [app] in E.
  - by injection E as -> ->.
  - injection E as -> ->. by apply Forall_app in Hlo as [_ [_ ?]%Forall_cons].
Qed.

Lemma search_levels_spec {V} (m : nat) k hd lo hi c (update : list (option addr)) (v : V) :
  let L := hd :: lo in
  NoDup (sk_addr <$> L ++ hi) → c ∈ L → (m <= sk_height c)%nat → (m <= List.length update)%nat →
  Forall (λ n, str_lt (sk_str n) k) lo → Forall (λ n, ¬ str_lt (sk_str n) k) hi →
  ∃ c' update', search_levels m (seg no_tl (L ++ hi)) k (sk_addr c) update v = Ok (sk_addr c', update') v ∧
    List.length update' = List.length update ∧
    (if decide (m = O) then c' = c else stop_at 0 L c') ∧
    ∀ i, if decide (i < m)%nat then ∃ ci, update' !! i = Some (Some (sk_addr ci)) ∧ stop_at i L ci
         else update' !! i = update !! i.
Proof.
  intros L Hnd. revert c update. induction m as [|i IH]; intros c update Hc Hn Hu Hlo Hhi.
  { exists c, update. split_and!; [done..|]. intros i. by rewrite decide_False by lia. }
  apply list_elem_of_split in Hc as (A & B & HL).
  destruct (advance_spec L i k hi B A c [] (S (size (seg no_tl (L ++ hi)))) v) as (c1 & E1 & Hs1); try done.
  { by eapply suffix_smaller. }
  { rewrite seg_size by done. rewrite length_app, HL, length_app. simpl. lia. }
  destruct (IH c1 (<[i := Some (sk_addr c1)]> update)) as (c' & update' & E & Hlen & H0 & Hall); try done.
  { destruct Hs1 as (A1 & S1 & -> & _). set_solver. }
  { destruct Hs1 as (A1 & S1 & _ & ? & _). lia. }
  { rewrite length_insert. lia. }
  exists c', update'. rewrite length_insert in Hlen. split_and!; [|done| |].
  - cbn [search_levels]. unfold mbind, M_bind. by rewrite E1.
  - destruct (decide (i = O)) as [->|]; [by subst c'|done].
  - intros j. specialize (Hall j). destruct (decide (j < i)%nat).
    { by rewrite decide_True by lia. }
    destruct (decide (j < S i)%nat).
    + assert (j = i) as -> by lia. exists c1. split; [|done].
      rewrite Hall, list_lookup_insert_eq by lia. done.
    + rewrite Hall, list_lookup_insert_ne by lia. done.
Qed.
End searching.

(** * What a skip list holds *)

Section contents.
Implicit Types (n c hd : sk_node) (ns A B lo hi : list sk_node) (lv : Z) (i : nat) (k : bytes).

Definition sk_blocks n : list addr := [cs_addr (sk_key n); cs_addr (sk_value n); sk_block n; sk_addr n].
Definition blocks ns : list addr := mjoin (sk_blocks <$> ns).

(** The nodes of a segment as they are in memory, in order. *)
Fixpoint mem_nodes ns : list (addr * kvs_skiplist_node_t) :=
  match ns with
  | [] => []
  | n :: ns => (sk_addr n, sk_mem no_tl n ns) :: mem_nodes ns
  end.

Lemma mem_nodes_strs ns : node_strs ∘ snd <$> mem_nodes ns = sk_strs <$> ns.
Proof. induction ns as [|n ns IH]; simpl; [done|]. by f_equal. Qed.

Lemma mem_nodes_blocks ns : mjoin (node_blocks <$> mem_nodes ns) = blocks ns.
Proof. unfold blocks. induction ns as [|n ns IH]; simpl; [done|]. by do 4 f_equal. Qed.

Definition linked ns : Prop := Forall (λ n, (0 < sk_height n)%nat) ns.

(** On level 0 the next node is the next of the list. *)
Lemma next_at_0 ns : linked ns → next_at None 0 ns = sk_addr <$> head ns.
Proof. intros Hl. destruct ns as [|n ns]; simpl; [done|]. apply Forall_cons in Hl as [? _]. by rewrite decide_True. Qed.

Lemma forward_0_mem n ns : (0 < sk_height n)%nat → linked ns →
  forward (sk_mem no_tl n ns) !! O = Some (sk_addr <$> head ns).
Proof.
  intros Hn Hl. unfold sk_mem. simpl. rewrite list_lookup_fmap, lookup_seq_lt by done. simpl.
  unfold no_tl. by rewrite next_at_0.
Qed.

Lemma walk_spec L A B fuel :
  L = A ++ B → NoDup (sk_addr <$> L) → linked B → (List.length B <= fuel)%nat →
  walk fuel (seg no_tl L) (sk_addr <$> head B) = mem_nodes B.
Proof.
  intros HL Hnd. revert A fuel HL. induction B as [|n B IH]; intros A fuel HL Hl Hf.
  { by destruct fuel. }
  destruct fuel as [|fuel]; [simpl in Hf; lia|]. apply Forall_cons in Hl as [Hn Hl]. simpl in Hf.
  cbn [walk head fmap option_fmap option_map]. subst L.
  rewrite seg_lookup by (by eapply nodup_middle_notin).
  rewrite forward_0_mem by done. cbn [mem_nodes mjoin option_join]. f_equal.
  rewrite (IH (A ++ [n]) fuel); [done|by rewrite <- app_assoc|done|lia].
Qed.

Lemma heights_linked hd ns lv : heights_ok hd ns lv → linked (hd :: ns).
Proof.
  intros (Hh & _ & Hns & _). apply Forall_cons. split; [rewrite Hh; unfold KVS_SKIPLIST_MAX_LEVEL; lia|].
  eapply Forall_impl; [exact Hns|]. naive_solver.
Qed.

Lemma all_nodes_of hd ns lv : linked (hd :: ns) → NoDup (sk_addr <$> hd :: ns) →
  all_nodes (skiplist_of hd ns lv) = mem_nodes (hd :: ns).
Proof.
  intros Hl Hnd. unfold all_nodes, skiplist_of. cbn [heap header].
  rewrite seg_size by done. apply (walk_spec _ [] (hd :: ns)); done.
Qed.

Lemma skiplist_entries_of hd ns lv : linked (hd :: ns) → NoDup (sk_addr <$> hd :: ns) →
  kvs_skiplist_entries (skiplist_of hd ns lv) = sk_strs <$> ns.
Proof. intros. unfold kvs_skiplist_entries. rewrite all_nodes_of by done. apply mem_nodes_strs. Qed.

Lemma skiplist_owned_of hd ns lv : linked (hd :: ns) → NoDup (sk_addr <$> hd :: ns) →
  kvs_skiplist_owned (skiplist_of hd ns lv) = blocks (hd :: ns).
Proof. intros. unfold kvs_skiplist_owned. rewrite all_nodes_of by done. apply mem_nodes_blocks. Qed.

Lemma sk_strs_keys ns : (sk_strs <$> ns).*1 = sk_str <$> ns.
Proof. by rewrite <- list_fmap_compose. Qed.

(** Sorted nodes are split by any key. *)
Lemma sorted_split ns k : StronglySorted str_lt (sk_str <$> ns) →
  ∃ lo hi, Forall (λ n, str_lt (sk_str n) k) lo ∧ Forall (λ n, str_lt k (sk_str n)) hi ∧
    (ns = lo ++ hi ∨ ∃ n, sk_str n = k ∧ ns = lo ++ n :: hi).
Proof.
  induction ns as [|n ns IH]; simpl.
  { intros _. exists [], []. auto. }
  intros Hs. apply StronglySorted_inv in Hs as [Hs Hn]. rewrite Forall_fmap in Hn.
  destruct (str_lt_total (sk_str n) k) as [Hlt|[Heq|Hgt]].
  - destruct (IH Hs) as (lo & hi & Hlo & Hhi & Hns). exists (n :: lo), hi.
    split_and!; [by apply Forall_cons|done|]. destruct Hns as [->|(m & ? & ->)]; [by left|right]. by exists m.
  - exists [], ns. split_and!; [by apply Forall_nil| |right; by exists n].
    eapply Forall_impl; [exact Hn|]. intros m Hm. simpl in Hm. by rewrite <- Heq.
  - exists [], (n :: ns). split_and!; [by apply Forall_nil| |by left].
    apply Forall_cons. split; [done|]. eapply Forall_impl; [exact Hn|]. intros m Hm. simpl in Hm.
    by eapply str_lt_trans.
Qed.

Lemma greater_not_less k ns : Forall (λ n, str_lt k (sk_str n)) ns → Forall (λ n, ¬ str_lt (sk_str n) k) ns.
Proof.
  intros Hns. eapply Forall_impl; [exact Hns|]. intros n H1 H2.
  eapply str_lt_irrefl, str_lt_trans; [exact H1|exact H2].
Qed.

Lemma less_notin k ns : Forall (λ n, str_lt (sk_str n) k) ns → k ∉ (sk_strs <$> ns).*1.
Proof. intros Hns. rewrite sk_strs_keys. apply below_notin. by rewrite Forall_fmap. Qed.

Lemma greater_notin k ns : Forall (λ n, str_lt k (sk_str n)) ns → k ∉ (sk_strs <$> ns).*1.
Proof. intros Hns. rewrite sk_strs_keys. apply above_notin. by rewrite Forall_fmap. Qed.

(** The well-formed list with its parts. *)
Definition skiplist_rep hd ns lv : Prop :=
  heights_ok hd ns lv ∧ StronglySorted str_lt (sk_str <$> ns) ∧ NoDup (sk_addr <$> hd :: ns).

Lemma rep_wf hd ns lv : skiplist_rep hd ns lv → kvs_skiplist_wf (skiplist_of hd ns lv).
Proof. intros (? & ? & ?). by exists hd, ns, lv. Qed.

Lemma rep_map `{CRuntime W} hd ns lv : skiplist_rep hd ns lv →
  eng_map (W := W) (skiplist_of hd ns lv) = list_to_map (sk_strs <$> ns).
Proof.
  intros (Hh & _ & Hnd). unfold eng_map. cbn [eng_entries skiplist_engine].
  rewrite skiplist_entries_of; [done|by eapply heights_linked|done].
Qed.

Lemma rep_owned hd ns lv : skiplist_rep hd ns lv →
  kvs_skiplist_owned (skiplist_of hd ns lv) = blocks (hd :: ns).
Proof. intros (Hh & _ & Hnd). rewrite skiplist_owned_of; [done|by eapply heights_linked|done]. Qed.

(** Where the search leaves each level. *)
Definition update_ok hd lo lv (update : list (option addr)) : Prop :=
  List.length update = Z.to_nat (KVS_SKIPLIST_MAX_LEVEL + 1) ∧
  ∀ i, Z.of_nat i ≤ lv → ∃ c, update !! i = Some (Some (sk_addr c)) ∧ stop_at i (hd :: lo) c.

Lemma search_spec {V} hd lo hi lv k (v : V) :
  skiplist_rep hd (lo ++ hi) lv →
  Forall (λ n, str_lt (sk_str n) k) lo → Forall (λ n, ¬ str_lt (sk_str n) k) hi →
  ∃ update, search (skiplist_of hd (lo ++ hi) lv) k v = Ok (sk_addr <$> head hi, update) v ∧
    update_ok hd lo lv update.
Proof.
  intros (Hh & _ & Hnd) Hlo Hhi. pose proof (heights_linked _ _ _ Hh) as Hl.
  destruct Hh as (Hhd & Hlv & _). unfold KVS_SKIPLIST_MAX_LEVEL in *.
  destruct (search_levels_spec (Z.to_nat (lv + 1)) k hd lo hi hd update_array v)
    as (c & update & E & Hlen & H0 & Hall); try done.
  { set_solver. }
  { lia. }
  { unfold update_array, KVS_SKIPLIST_MAX_LEVEL. rewrite length_replicate. lia. }
  exists update. rewrite decide_False in H0 by lia. split.
  - unfold search, skiplist_of. cbn [header heap level deref]. unfold mbind at 1, M_bind at 1. cbn [mret M_ret].
    unfold mbind at 1, M_bind at 1. rewrite app_comm_cons, E.
    destruct H0 as (A & S & HL & Hc & HS). unfold mbind, M_bind.
    change 0 with (Z.of_nat 0).
    rewrite (forward_at_seg _ _ A c (S ++ hi)) by (done || by rewrite HL, <- app_assoc).
    unfold no_tl. rewrite next_at_app, (next_at_skip _ _ S) by done. rewrite next_at_0; [done|].
    unfold linked in Hl. rewrite app_comm_cons, Forall_app in Hl. apply Hl.
  - split; [by rewrite Hlen|]. intros i Hi. specialize (Hall i). by rewrite decide_True in Hall by lia.
Qed.

(** The outcome of searching for a key in a well-formed list. *)
Lemma search_situation `{CRuntime W} {V} inst k (v : V) : kvs_skiplist_wf inst →
  ∃ hd lo hi lv update,
    Forall (λ n, str_lt (sk_str n) k) lo ∧ Forall (λ n, str_lt k (sk_str n)) hi ∧ update_ok hd lo lv update ∧
    ((∃ n, sk_str n = k ∧ inst = skiplist_of hd (lo ++ n :: hi) lv ∧ skiplist_rep hd (lo ++ n :: hi) lv ∧
       search inst k v = Ok (Some (sk_addr n), update) v ∧
       matching (heap inst) (Some (sk_addr n)) k v = Ok (Some (sk_addr n, sk_mem no_tl n hi)) v ∧
       eng_map (W := W) inst !! k = Some (cs_str (sk_value n))) ∨
     (inst = skiplist_of hd (lo ++ hi) lv ∧ skiplist_rep hd (lo ++ hi) lv ∧
       ∃ next, search inst k v = Ok (next, update) v ∧ matching (heap inst) next k v = Ok None v ∧
       eng_map (W := W) inst !! k = None)).
Proof.
  intros (hd & ns & lv & -> & Hrep). pose proof Hrep as (_ & Hs & Hnd).
  destruct (sorted_split ns k Hs) as (lo & hi & Hlo & Hhi & [->|(n & Hn & ->)]).
  - destruct (search_spec hd lo hi lv k v) as (update & E & Hu); [done|done|by apply greater_not_less|].
    exists hd, lo, hi, lv, update. split_and!; [done..|]. right. split_and!; [done..|].
    eexists. split_and!; [exact E| |].
    + destruct hi as [|m hi]; [done|]. unfold matching. cbn [head fmap option_fmap option_map]. unfold mbind, M_bind.
      cbn [skiplist_of heap]. rewrite (node_at_seg _ _ (hd :: lo) m hi) by done. cbn [sk_mem key].
      apply Forall_cons in Hhi as [Hm _]. unfold str_lt, sk_str in Hm. by rewrite strcmp_antisym, Hm.
    + rewrite rep_map by done. apply to_map_absent. rewrite !fmap_app, not_elem_of_app.
      split; [by apply less_notin|by apply greater_notin].
  - assert (¬ str_lt (sk_str n) k) as Hnk by (rewrite Hn; apply str_lt_irrefl).
    destruct (search_spec hd lo (n :: hi) lv k v) as (update & E & Hu);
      [done|done|by apply Forall_cons; split; [|apply greater_not_less]|].
    exists hd, lo, hi, lv, update. split_and!; [done..|]. left. exists n. split_and!; [done..| |].
    + unfold matching, mbind, M_bind. cbn [skiplist_of heap].
      rewrite (node_at_seg _ _ (hd :: lo) n hi) by done. cbn [sk_mem key].
      unfold sk_str in Hn. by rewrite Hn, strcmp_refl.
    + rewrite rep_map, fmap_app, fmap_cons by done. unfold sk_strs at 2. unfold sk_str in Hn. rewrite Hn.
      apply to_map_middle. by apply less_notin.
Qed.
End contents.

(** * Linking and unlinking a node *)

Section linking.
Implicit Types (tl : nat → option addr) (x c hd : sk_node) (L lo hi : list sk_node)
  (n : kvs_skiplist_node_t) (i j m : nat) (p : addr).

(** A heap in which one node [p] with contents [n] lies between the segments [L]
    and [hi], linked only as far as [tl] says. *)
Definition part tl p n L hi : node_heap := <[p := n]> (seg tl L ∪ seg no_tl hi).

Definition apart L p hi : Prop := NoDup (sk_addr <$> L) ∧ p ∉ sk_addr <$> L ∧ p ∉ sk_addr <$> hi ∧
  (∀ a, a ∈ sk_addr <$> L → a ∉ sk_addr <$> hi).

Lemma apart_intro L x hi : NoDup (sk_addr <$> L ++ x :: hi) → apart L (sk_addr x) hi.
Proof.
  rewrite fmap_app, fmap_cons, NoDup_app, NoDup_cons. intros (? & Hd & ? & ?). split_and!; try done; set_solver.
Qed.

Lemma part_ext tl tl' p n L hi : (∀ i, tl i = tl' i) → part tl p n L hi = part tl' p n L hi.
Proof. intros E. unfold part. by rewrite (seg_ext tl tl'). Qed.

Lemma part_lookup_left tl p n L hi A c S :
  apart L p hi → L = A ++ c :: S → part tl p n L hi !! sk_addr c = Some (sk_mem tl c S).
Proof.
  intros (Hnd & Hp & _ & _) ->. unfold part. rewrite lookup_insert_ne by set_solver.
  apply lookup_union_Some_l. apply seg_lookup. by eapply nodup_middle_notin.
Qed.

Lemma part_forward {V} tl p n L hi c i (v : V) :
  apart L p hi → stop_at i L c →
  forward_at (part tl p n L hi) (sk_addr c) (Z.of_nat i) v = Ok (tl i) v.
Proof.
  intros Ha (A & S & HL & Hc & HS). unfold forward_at, node_at, mbind, M_bind.
  erewrite part_lookup_left by done. simpl.
  rewrite znth_lookup, list_lookup_fmap, lookup_seq_lt by done. simpl. by rewrite next_at_skip.
Qed.

Lemma part_set {V} tl p n L hi c i y (v : V) :
  apart L p hi → stop_at i L c →
  set_forward (part tl p n L hi) (sk_addr c) (Z.of_nat i) y v = Ok (part (redirect tl i y) p n L hi) v.
Proof.
  intros Ha (A & S & HL & Hc & HS). unfold set_forward, node_at, mbind, M_bind.
  erewrite part_lookup_left by done. cbn [deref mret M_ret].
  assert (znth (forward (sk_mem tl c S)) (Z.of_nat i) = Some (next_at (tl i) i S)) as ->.
  { rewrite znth_lookup. simpl. by rewrite list_lookup_fmap, lookup_seq_lt. }
  cbn [deref mret M_ret]. f_equal. rewrite sk_mem_redirect by done.
  destruct Ha as (Hnd & Hp & _ & _). unfold part. rewrite insert_insert_ne.
  2:{ intros <-. apply Hp. rewrite HL. set_solver. }
  f_equal. rewrite insert_union_l. f_equal. rewrite HL in *. by rewrite seg_redirect.
Qed.

Lemma part_new_node {V} tl p n L hi (v : V) : node_at (part tl p n L hi) p v = Ok n v.
Proof. unfold node_at, part. by rewrite lookup_insert_eq. Qed.

Lemma part_new_set {V} tl p n L hi i y z (v : V) :
  forward n !! i = Some z →
  set_forward (part tl p n L hi) p (Z.of_nat i) y v =
  Ok (part tl p (with_forward n (zupd (Z.of_nat i) y (forward n))) L hi) v.
Proof.
  intros Hz. unfold set_forward, mbind, M_bind. rewrite part_new_node, znth_lookup, Hz.
  cbn [deref mret M_ret]. f_equal. unfold part. by rewrite insert_insert_eq.
Qed.

Lemma seg_part_before tl p n L hi : seg no_tl (L ++ hi) = seg (λ i, next_at None i hi) L ∪ seg no_tl hi.
Proof. by rewrite segment_app. Qed.

Lemma seg_part_after L x hi :
  apart L (sk_addr x) hi →
  seg no_tl (L ++ x :: hi) = part (λ i, next_at None i (x :: hi)) (sk_addr x) (sk_mem no_tl x hi) L hi.
Proof.
  intros (_ & Hx & _). rewrite segment_app. unfold part. cbn [seg].
  by rewrite insert_union_r by (by apply seg_lookup_None).
Qed.

Lemma delete_part tl p n L hi : apart L p hi → delete p (part tl p n L hi) = seg tl L ∪ seg no_tl hi.
Proof.
  intros (_ & Hp & Hp' & _). unfold part. rewrite delete_insert_eq, delete_id; [done|].
  by rewrite lookup_union, !seg_lookup_None.
Qed.

(** ** Linking *)

(** The new node when its first [m] levels are linked. *)
Definition half_linked x hi m : kvs_skiplist_node_t :=
  SkNode (sk_key x) (sk_value x) (sk_block x)
    ((λ i, if decide (i < m)%nat then next_at None i hi else None) <$> seq 0 (sk_height x)).

Definition tl_linked x hi m : nat → option addr :=
  λ i, if decide (i < m)%nat then Some (sk_addr x) else next_at None i hi.

Lemma tl_linked_here x hi m : tl_linked x hi m m = next_at None m hi.
Proof. unfold tl_linked. by rewrite decide_False by lia. Qed.

Lemma half_linked_step x hi m : (m < sk_height x)%nat →
  with_forward (half_linked x hi m) (zupd (Z.of_nat m) (next_at None m hi) (forward (half_linked x hi m))) =
  half_linked x hi (S m).
Proof.
  intros Hm. unfold half_linked, with_forward. simpl. f_equal. unfold zupd. rewrite Nat2Z.id.
  apply list_eq. intros i. destruct (decide (i = m)) as [->|Hne].
  - rewrite list_lookup_insert_eq by (by rewrite length_fmap, length_seq).
    rewrite list_lookup_fmap, lookup_seq_lt by done. simpl. by rewrite decide_True by lia.
  - rewrite list_lookup_insert_ne by done. rewrite !list_lookup_fmap.
    destruct (decide (i < sk_height x)%nat); [|by rewrite lookup_seq_ge by lia].
    rewrite lookup_seq_lt by done. simpl. f_equal.
    destruct (decide (i < m)%nat); [by rewrite decide_True by lia|by rewrite decide_False by lia].
Qed.

Lemma link_node_spec {V} L x hi r m update (v : V) :
  apart L (sk_addr x) hi → (m + r = sk_height x)%nat →
  (∀ i, (i < sk_height x)%nat → ∃ c, update !! i = Some (Some (sk_addr c)) ∧ stop_at i L c) →
  link_node r m (part (tl_linked x hi m) (sk_addr x) (half_linked x hi m) L hi) (sk_addr x) update v =
  Ok (seg no_tl (L ++ x :: hi)) v.
Proof.
  intros Ha Hr Hu. revert m Hr. induction r as [|r IH]; intros m Hr.
  - cbn [link_node]. unfold mret, M_ret. f_equal. rewrite seg_part_after by done.
    assert (half_linked x hi m = sk_mem no_tl x hi) as ->.
    { unfold half_linked, sk_mem. f_equal. apply list_fmap_ext. intros ? i Hi.
      apply lookup_seq in Hi as [-> ?]. by rewrite decide_True by lia. }
    apply part_ext. intros i. unfold tl_linked. simpl. replace m with (sk_height x) by lia. done.
  - destruct (Hu m) as (c & Hc & Hstop); [lia|].
    cbn [link_node]. rewrite Hc. unfold mbind, M_bind. cbn [mjoin option_join deref mret M_ret].
    rewrite part_forward, tl_linked_here by done.
    erewrite part_new_set by (unfold half_linked; simpl; by rewrite list_lookup_fmap, lookup_seq_lt by lia).
    rewrite half_linked_step by lia. rewrite part_set by done.
    rewrite (part_ext _ (tl_linked x hi (S m))); [apply IH; lia|].
    intros i. unfold redirect, tl_linked. destruct (decide (i = m)) as [->|Hne].
    + by rewrite decide_True by lia.
    + destruct (decide (i < m)%nat); [by rewrite decide_True by lia|by rewrite decide_False by lia].
Qed.

(** ** Unlinking *)

Definition tl_unlinked x hi m : nat → option addr :=
  λ i, if decide (i < m)%nat then next_at None i hi else next_at None i (x :: hi).

Lemma tl_unlinked_here x hi m : tl_unlinked x hi m m = next_at None m (x :: hi).
Proof. unfold tl_unlinked. by rewrite decide_False by lia. Qed.

Lemma next_at_notin p i hi : p ∉ sk_addr <$> hi → next_at None i hi ≠ Some p.
Proof.
  intros Hp Hn. apply Hp. apply next_at_Some in Hn as (A & n & B & -> & ->). set_solver.
Qed.

Lemma unlink_node_spec {V} L x hi r m update (v : V) :
  apart L (sk_addr x) hi → (sk_height x <= m + r)%nat →
  (∀ i, (i < m + r)%nat → ∃ c, update !! i = Some (Some (sk_addr c)) ∧ stop_at i L c) →
  unlink_node r m (part (tl_unlinked x hi m) (sk_addr x) (sk_mem no_tl x hi) L hi) (sk_addr x) update v =
  Ok (part (λ i, next_at None i hi) (sk_addr x) (sk_mem no_tl x hi) L hi) v.
Proof.
  intros Ha. revert m. induction r as [|r IH]; intros m Hr Hu.
  - cbn [unlink_node]. unfold mret, M_ret. f_equal. apply part_ext. intros i. unfold tl_unlinked.
    destruct (decide (i < m)%nat); [done|]. simpl. by rewrite decide_False by lia.
  - destruct (Hu m) as (c & Hc & Hstop); [lia|].
    cbn [unlink_node]. rewrite Hc. unfold mbind, M_bind. cbn [mjoin option_join deref mret M_ret].
    rewrite part_forward, tl_unlinked_here by done. cbn [next_at].
    destruct (decide (m < sk_height x)%nat) as [Hm|Hm].
    + rewrite bool_decide_eq_false_2 by naive_solver.
      unfold forward_at, mbind, M_bind. rewrite part_new_node. cbn [deref mret M_ret].
      rewrite znth_lookup. cbn [sk_mem forward]. rewrite list_lookup_fmap, lookup_seq_lt by done. simpl.
      rewrite part_set by done. unfold no_tl.
      rewrite (part_ext _ (tl_unlinked x hi (S m))); [apply IH; [lia|intros; apply Hu; lia]|].
      intros i. unfold redirect, tl_unlinked. destruct (decide (i = m)) as [->|Hne].
      * by rewrite decide_True by lia.
      * destruct (decide (i < m)%nat); [by rewrite decide_True by lia|by rewrite decide_False by lia].
    + rewrite bool_decide_eq_true_2 by (apply next_at_notin; by destruct Ha as (_ & _ & ? & _)).
      unfold mret, M_ret. f_equal. apply part_ext. intros i. unfold tl_unlinked.
      destruct (decide (i < m)%nat); [done|]. simpl. by rewrite decide_False by lia.
Qed.

Lemma next_at_None i ns : next_at None i ns = None → Forall (λ c, (sk_height c <= i)%nat) ns.
Proof.
  induction ns as [|n ns IH]; simpl; [by intros; apply Forall_nil|]. destruct (decide _); [done|].
  intros. apply Forall_cons. split; [lia|auto].
Qed.

Lemma next_at_exists i ns a : next_at None i ns = Some a → Exists (λ c, (i < sk_height c)%nat) ns.
Proof.
  induction ns as [|n ns IH]; simpl; [done|]. destruct (decide _).
  - intros _. by left.
  - intros ?. right. auto.
Qed.

(** The level found is the greatest with a node, or 0. *)
Lemma lower_level_spec {V} h hd (ns : list sk_node) lv (v : V) :
  (∀ i, (i <= lv)%nat → forward_at h (sk_addr hd) (Z.of_nat i) v = Ok (next_at None i ns) v) →
  Forall (λ c, (sk_height c <= S lv)%nat) ns →
  ∃ lv', lower_level lv h (sk_addr hd) v = Ok lv' v ∧ (lv' <= lv)%nat ∧
    Forall (λ c, (sk_height c <= S lv')%nat) ns ∧
    (lv' = O ∨ Exists (λ c, sk_height c = S lv') ns).
Proof.
  induction lv as [|lv IH]; intros Hf Hns.
  { exists O. split_and!; [done|done|done|by left]. }
  cbn [lower_level]. unfold mbind, M_bind. rewrite Hf by done.
  destruct (next_at None (S lv) ns) as [a|] eqn:E.
  - exists (S lv). split_and!; [done..|right]. apply next_at_exists in E.
    apply Exists_exists in E as (n & Hn & Hh). apply Exists_exists. exists n. split; [done|].
    apply Forall_forall with (x := n) in Hns; [|done]. lia.
  - destruct IH as (lv' & E' & ? & ? & ?).
    + intros i Hi. apply Hf. lia.
    + apply next_at_None in E. done.
    + exists lv'. split_and!; [done|lia|done|done].
Qed.
End linking.

(** * The contract *)

Section laws.
Context `{CRuntimeLaws W}.
Implicit Types (x hd : sk_node) (lo hi ns : list sk_node) (lv : Z) (inst : kvs_skiplist_t)
  (w : W) (k v : bytes) (F : gset addr).

Lemma blocks_middle ns1 x ns2 : blocks (ns1 ++ x :: ns2) ≡ₚ sk_blocks x ++ blocks (ns1 ++ ns2).
Proof. unfold blocks. rewrite !fmap_app, fmap_cons, !join_app. simpl. solve_Permutation. Qed.

Lemma rep_keeps F w w' hd ns lv :
  skiplist_rep hd ns lv → owns (blocks (hd :: ns)) F w' → (roomy w → roomy w') →
  keeps_wf F w (skiplist_of hd ns lv) w'.
Proof.
  intros Hrep Hw Hr. split_and!; [by apply rep_wf| |done].
  cbn [eng_owned skiplist_engine]. by rewrite rep_owned.
Qed.

(** ** Values *)

Definition set_sk_value x (vc : cstr) : sk_node := Sk (sk_addr x) (sk_key x) vc (sk_block x) (sk_height x).

Lemma seg_set_value lo x hi vc :
  NoDup (sk_addr <$> lo ++ x :: hi) →
  <[sk_addr x := with_value (sk_mem no_tl x hi) vc]> (seg no_tl (lo ++ x :: hi)) =
  seg no_tl (lo ++ set_sk_value x vc :: hi).
Proof.
  intros Hnd%nodup_middle_notin. rewrite !segment_app, insert_union_r by (by apply seg_lookup_None).
  cbn [seg]. rewrite insert_insert_eq. f_equal.
Qed.

Lemma rep_set_value hd lo x hi lv vc :
  skiplist_rep hd (lo ++ x :: hi) lv → skiplist_rep hd (lo ++ set_sk_value x vc :: hi) lv.
Proof.
  intros ((Hhd & Hlv & Hns & Hex) & Hs & Hnd). split_and!; [split_and!| |].
  - done.
  - apply Hlv.
  - apply Hlv.
  - apply Forall_app in Hns as [? [? ?]%Forall_cons]. apply Forall_app. split; [done|]. by apply Forall_cons.
  - destruct Hex as [?|Hex]; [by left|right]. rewrite Exists_app, Exists_cons in *. done.
  - by rewrite fmap_app, fmap_cons in *.
  - revert Hnd. by rewrite !fmap_cons, !fmap_app, !fmap_cons.
Qed.

Lemma replace_value_spec hd lo x hi lv v F w :
  skiplist_rep hd (lo ++ x :: hi) lv → sk_str x ∉ (sk_strs <$> lo).*1 →
  owns (kvs_skiplist_owned (skiplist_of hd (lo ++ x :: hi) lv)) F w →
  let inst := skiplist_of hd (lo ++ x :: hi) lv in
  wp (replace_value inst (sk_addr x) (sk_mem no_tl x hi) v) w (λ '(r, inst') w', keeps_wf F w inst' w' ∧
    (r = 0 ∧ eng_map (W := W) inst' = <[sk_str x:=v]> (eng_map (W := W) inst) ∨ r = -2 ∧ inst' = inst) ∧
    (roomy w → r = 0)).
Proof.
  intros Hrep Hlo Hw inst. subst inst. rewrite rep_owned in Hw by done. unfold replace_value.
  eapply wp_step; [by apply wp_malloc_copy|]. intros [vc|] w1 [Hw1 Hr1].
  2:{ apply wp_ret. split; [apply rep_keeps; naive_solver|]. split; [by right|naive_solver]. }
  destruct Hw1 as [Hvc Hw1]. eapply wp_step.
  { apply (wp_free _ (blocks (hd :: lo ++ set_sk_value x vc :: hi)) F). revert Hw1. apply owns_perm.
    rewrite !app_comm_cons, !blocks_middle. unfold sk_blocks. cbn [sk_mem value set_sk_value sk_value sk_key sk_block sk_addr].
    solve_Permutation. }
  intros _ w2 [Hw2 Hr2]. apply wp_ret. pose proof Hrep as (_ & _ & Hnd).
  assert (set_heap (skiplist_of hd (lo ++ x :: hi) lv)
    (<[sk_addr x := with_value (sk_mem no_tl x hi) vc]> (heap (skiplist_of hd (lo ++ x :: hi) lv))) =
    skiplist_of hd (lo ++ set_sk_value x vc :: hi) lv) as ->.
  { unfold set_heap, skiplist_of. cbn [level header heap]. f_equal. by apply (seg_set_value (hd :: lo)). }
  pose proof (rep_set_value hd lo x hi lv vc Hrep) as Hrep'.
  split; [apply rep_keeps; naive_solver|]. split; [left|done]. split; [done|].
  rewrite !rep_map, !fmap_app, !fmap_cons by done. unfold sk_strs at 2 4. cbn [set_sk_value sk_key sk_value].
  rewrite Hvc. by apply to_map_update.
Qed.

(** ** Nodes and levels *)

Lemma skiplist_create_node_spec i k v own F w :
  0 ≤ i ≤ KVS_SKIPLIST_MAX_LEVEL → owns own F w →
  wp (skiplist_create_node i k v) w (λ r w',
    match r with
    | Some (p, n) => ∃ kc vc fa, n = SkNode kc vc fa (replicate (Z.to_nat (i + 1)) None) ∧
        cs_str kc = k ∧ cs_str vc = v ∧ owns ([cs_addr kc; cs_addr vc; fa; p] ++ own) F w'
    | None => owns own F w'
    end ∧ (roomy w → roomy w' ∧ r ≠ None)).
Proof.
  intros Hi Hw. unfold skiplist_create_node, skiplist_node_storage_alloc, skiplist_node_storage_free.
  rewrite (proj2 (Z.ltb_ge _ _)) by lia. rewrite (proj2 (Z.ltb_ge _ _)) by lia. cbn [orb].
  eapply wp_step; [by apply wp_malloc|]. intros [p|] w1 [Hw1 Hr1]; [|by apply wp_ret; naive_solver].
  eapply wp_step; [by apply wp_malloc_copy|]. intros [kc|] w2 [Hw2 Hr2].
  2:{ eapply wp_step; [by apply wp_free|]. intros _ w3 [Hw3 Hr3]. apply wp_ret. naive_solver. }
  destruct Hw2 as [Hkc Hw2].
  eapply wp_step; [by apply wp_malloc_copy|]. intros [vc|] w3 [Hw3 Hr3].
  2:{ eapply wp_step; [by apply wp_free|]. intros _ w4 [Hw4 Hr4].
      eapply wp_step; [by apply wp_free|]. intros _ w5 [Hw5 Hr5]. apply wp_ret. naive_solver. }
  destruct Hw3 as [Hvc Hw3].
  eapply wp_step; [apply wp_malloc; [lia|done]|]. intros [fa|] w4 [Hw4 Hr4].
  2:{ eapply wp_step; [apply (wp_free (cs_addr kc) (cs_addr vc :: p :: own) F); revert Hw4; apply owns_perm; solve_Permutation|].
      intros _ w5 [Hw5 Hr5]. eapply wp_step; [by apply wp_free|]. intros _ w6 [Hw6 Hr6].
      eapply wp_step; [by apply wp_free|]. intros _ w7 [Hw7 Hr7]. apply wp_ret. naive_solver. }
  apply wp_ret. split; [|naive_solver]. exists kc, vc, fa. split_and!; [done..|].
  revert Hw4. apply owns_perm. solve_Permutation.
Qed.

Lemma random_level_spec own F w :
  owns own F w →
  wp skiplist_random_level w (λ r w', 0 ≤ r ≤ KVS_SKIPLIST_MAX_LEVEL ∧ owns own F w' ∧ (roomy w → roomy w')).
Proof.
  unfold skiplist_random_level.
  assert (∀ fuel i w, 0 ≤ i ≤ KVS_SKIPLIST_MAX_LEVEL → KVS_SKIPLIST_MAX_LEVEL < i + Z.of_nat fuel → owns own F w →
    wp (random_level_loop fuel i) w (λ r w',
      0 ≤ r ≤ KVS_SKIPLIST_MAX_LEVEL ∧ owns own F w' ∧ (roomy w → roomy w'))) as Hloop.
  { induction fuel as [|fuel IH]; intros i w0 Hi Hf Hw; [lia|]. cbn [random_level_loop].
    eapply wp_step; [by apply wp_rand|]. intros r w1 (_ & Hw1 & Hr1).
    destruct (Z.ltb_spec r (RAND_MAX / 2)), (Z.ltb_spec i KVS_SKIPLIST_MAX_LEVEL); cbn [andb];
      try (apply wp_ret; naive_solver).
    eapply wp_mono; [apply IH; [lia|lia|done]|]. naive_solver. }
  intros Hw. by apply Hloop.
Qed.

Lemma raise_update_lookup m i a update j :
  (i + m <= List.length update)%nat →
  raise_update m i a update !! j = if decide (i <= j < i + m)%nat then Some (Some a) else update !! j.
Proof.
  revert i update. induction m as [|m IH]; intros i update Hl; cbn [raise_update].
  { by rewrite decide_False by lia. }
  rewrite IH by (rewrite length_insert; lia).
  destruct (decide (S i <= j < S i + m)%nat), (decide (i <= j < i + S m)%nat); try done; [lia| |].
  - assert (j = i) as -> by lia. apply list_lookup_insert_eq. lia.
  - apply list_lookup_insert_ne. lia.
Qed.

(** After the levels above the list's are set to the header, every level of the
    new node has its predecessor. *)
Lemma update_raised hd lo hi lv nlv update :
  heights_ok hd (lo ++ hi) lv → update_ok hd lo lv update → 0 ≤ nlv ≤ KVS_SKIPLIST_MAX_LEVEL →
  ∀ i, (i < Z.to_nat (nlv + 1))%nat → ∃ c,
    (if lv <? nlv then raise_update (Z.to_nat (nlv - lv)) (Z.to_nat (lv + 1)) (sk_addr hd) update else update) !! i =
      Some (Some (sk_addr c)) ∧ stop_at i (hd :: lo) c.
Proof.
  intros (Hhd & Hlv & Hns & _) (Hlen & Hu) Hn i Hi.
  destruct (decide (Z.of_nat i ≤ lv)) as [Hle|Hgt].
  - destruct (Hu i Hle) as (c & Hc & Hs). exists c. split; [|done].
    destruct (Z.ltb_spec lv nlv); [|done]. rewrite raise_update_lookup by lia. by rewrite decide_False by lia.
  - exists hd. rewrite (proj2 (Z.ltb_lt _ _)) by lia. rewrite raise_update_lookup by lia.
    rewrite decide_True by lia. split; [done|]. exists [], lo. split_and!; [done|lia|].
    apply Forall_app in Hns as [Hlo _]. eapply Forall_impl; [exact Hlo|]. intros n [_ Hh]. lia.
Qed.

(** ** Inserting *)

Lemma blocks_addrs ns a : a ∈ sk_addr <$> ns → a ∈ blocks ns.
Proof.
  intros (n & -> & Hn)%list_elem_of_fmap. unfold blocks. apply list_elem_of_join.
  exists (sk_blocks n). split; [|by apply list_elem_of_fmap_2]. unfold sk_blocks. set_solver.
Qed.

Lemma rep_insert hd lo hi lv nlv x F w :
  skiplist_rep hd (lo ++ hi) lv → 0 ≤ nlv ≤ KVS_SKIPLIST_MAX_LEVEL → sk_height x = Z.to_nat (nlv + 1) →
  Forall (λ n, str_lt (sk_str n) (sk_str x)) lo → Forall (λ n, str_lt (sk_str x) (sk_str n)) hi →
  owns (sk_blocks x ++ blocks (hd :: lo ++ hi)) F w →
  skiplist_rep hd (lo ++ x :: hi) (if lv <? nlv then nlv else lv) ∧ apart (hd :: lo) (sk_addr x) hi.
Proof.
  intros ((Hhd & Hlv & Hns & Hex) & Hs & Hnd) Hn Hx Hlo Hhi (_ & Hown & _).
  assert (sk_addr x ∉ sk_addr <$> hd :: lo ++ hi) as Hfresh.
  { intros Hin%blocks_addrs. apply NoDup_app in Hown as (_ & Hd & _). apply (Hd (sk_addr x)); [|done].
    unfold sk_blocks. set_solver. }
  assert (NoDup (sk_addr <$> hd :: lo ++ x :: hi)) as Hnd'.
  { rewrite app_comm_cons, (Permutation_app_comm (hd :: lo)). cbn [app]. rewrite fmap_cons. apply NoDup_cons. split.
    - revert Hfresh. rewrite app_comm_cons, !fmap_app. set_solver.
    - revert Hnd. rewrite app_comm_cons. by rewrite (Permutation_app_comm hi). }
  split; [|by apply (apart_intro (hd :: lo))]. split_and!; [split_and!| |done].
  - done.
  - destruct (lv <? nlv); lia.
  - destruct (lv <? nlv); lia.
  - apply Forall_app in Hns as [H1 H2]. apply Forall_app; split; [|apply Forall_cons; split].
    + eapply Forall_impl; [exact H1|]. intros n [? ?]. destruct (Z.ltb_spec lv nlv); lia.
    + destruct (Z.ltb_spec lv nlv); lia.
    + eapply Forall_impl; [exact H2|]. intros n [? ?]. destruct (Z.ltb_spec lv nlv); lia.
  - destruct (Z.ltb_spec lv nlv).
    + right. apply Exists_app. right. left. lia.
    + destruct Hex as [?|Hex]; [by left|right]. rewrite Exists_app, Exists_cons in *. naive_solver.
  - rewrite fmap_app, fmap_cons in *. apply strongly_sorted_middle; [done|by apply Forall_fmap..].
Qed.

Lemma link_new hd lo hi lv nlv update p kc vc fa w :
  let x := Sk p kc vc fa (Z.to_nat (nlv + 1)) in
  apart (hd :: lo) p hi →
  (∀ i, (i < Z.to_nat (nlv + 1))%nat → ∃ c, update !! i = Some (Some (sk_addr c)) ∧ stop_at i (hd :: lo) c) →
  link_node (Z.to_nat (nlv + 1)) 0
    (<[p := SkNode kc vc fa (replicate (Z.to_nat (nlv + 1)) None)]> (heap (skiplist_of hd (lo ++ hi) lv))) p update w =
  Ok (seg no_tl (hd :: lo ++ x :: hi)) w.
Proof.
  intros x Ha Hu. rewrite (app_comm_cons lo _ hd).
  rewrite <- (link_node_spec (hd :: lo) x hi (Z.to_nat (nlv + 1)) 0 update w) by done.
  f_equal. unfold part. cbn [skiplist_of heap]. rewrite (app_comm_cons lo _ hd), segment_app.
  change (sk_addr x) with p. f_equal. unfold half_linked. cbn [x sk_key sk_value sk_block sk_height]. f_equal.
  apply list_eq. intros i. rewrite list_lookup_fmap.
  destruct (decide (i < Z.to_nat (nlv + 1))%nat).
  - rewrite lookup_replicate_2, lookup_seq_lt by done. done.
  - rewrite lookup_seq_ge by lia. by apply lookup_replicate_None; lia.
Qed.

Lemma skiplist_set_law inst k v F w : kvs_skiplist_wf inst → owns (kvs_skiplist_owned inst) F w →
  wp (kvs_skiplist_set inst (Some k) (Some v)) w (λ '(r, inst') w', keeps_wf F w inst' w' ∧
    (r = 0 ∧ set_result (eng_map (W := W) inst) k = 0 ∧
       eng_map (W := W) inst' = <[k:=v]> (eng_map (W := W) inst) ∨
     r < 0 ∧ eng_map (W := W) inst' = eng_map (W := W) inst) ∧
    (roomy w → r = set_result (eng_map (W := W) inst) k)).
Proof.
  intros Hwf Hw.
  assert (set_result (eng_map (W := W) inst) k = 0) as -> by (unfold set_result; simpl; by rewrite orb_true_r).
  destruct (search_situation (W := W) inst k w Hwf)
    as (hd & lo & hi & lv & update & Hlo & Hhi & Hu & [(x & Hk & -> & Hrep & E1 & E2 & _)|
        (-> & Hrep & next & E1 & E2 & _)]); unfold kvs_skiplist_set; cbn [skiplist_of header];
    (eapply wp_eq; [exact E1|]); cbn beta iota; (eapply wp_eq; [exact E2|]); cbn beta iota.
  - subst k. eapply wp_mono; [apply replace_value_spec; [done|by apply less_notin|exact Hw]|].
    intros [r inst'] w' (Hkw & Hr & Hr0). split; [done|].
    destruct Hr as [[-> ?]|[-> ->]]; [naive_solver|]. split; [by right|done].
  - eapply wp_step; [by apply random_level_spec|]. intros nlv w1 (Hn & Hw1 & Hr1).
    eapply wp_step; [by apply skiplist_create_node_spec|]. intros [[p n]|] w2 [Hw2 Hr2]; cbv zeta.
    2:{ apply wp_ret. split; [apply rep_keeps; [done| |naive_solver]|naive_solver].
        by rewrite <- (rep_owned _ _ lv). }
    destruct Hw2 as (kc & vc & fa & -> & Hkc & Hvc & Hw2).
    set (x := Sk p kc vc fa (Z.to_nat (nlv + 1))). rewrite rep_owned in Hw2 by done.
    assert (sk_str x = k) as Hx by done. rewrite <- Hx in Hlo, Hhi.
    destruct (rep_insert hd lo hi lv nlv x F w2) as [Hrep' Ha]; [done..|].
    eapply wp_eq. { eapply link_new; [exact Ha|]. eapply update_raised; [apply Hrep|done|done]. }
    apply wp_ret. fold x. cbn [level].
    change (KvsSkiplist ?l _ (seg no_tl (hd :: ?ns))) with (skiplist_of hd ns l).
    split; [apply rep_keeps; [done| |naive_solver]|].
    { revert Hw2. apply owns_perm. rewrite (app_comm_cons lo _ hd), (app_comm_cons lo (x :: hi) hd). by rewrite blocks_middle. }
    split; [left|done]. split_and!; [done..|].
    rewrite !rep_map by done. rewrite !fmap_app, fmap_cons. unfold sk_strs at 2. cbn [x sk_key sk_value].
    rewrite Hkc, Hvc. fold sk_strs. rewrite Hx in Hlo, Hhi.
    rewrite <- (to_map_insert_middle (sk_strs <$> lo) (sk_strs <$> hi) k v); [done|by apply less_notin].
Qed.

(** ** Reading *)

Lemma search_node_law inst k w : kvs_skiplist_wf inst →
  ∃ r, skiplist_search_node inst k w = Ok r w ∧ (λ '(_, n), cs_str (value n)) <$> r = eng_map (W := W) inst !! k.
Proof.
  intros Hwf. unfold skiplist_search_node.
  destruct (search_situation (W := W) inst k w Hwf)
    as (hd & lo & hi & lv & update & _ & _ & _ & [(x & _ & _ & _ & E1 & E2 & Hm)|(_ & _ & next & E1 & E2 & Hm)]);
    unfold mbind, M_bind; rewrite E1, E2, Hm; eexists; split; done.
Qed.

Lemma skiplist_get_law inst k w : kvs_skiplist_wf inst →
  kvs_skiplist_get inst (Some k) w = Ok (eng_map (W := W) inst !! k) w.
Proof.
  intros Hwf. destruct (search_node_law inst k w Hwf) as (r & E & <-).
  unfold kvs_skiplist_get, mbind, M_bind. by rewrite E.
Qed.

Lemma wf_header inst : kvs_skiplist_wf inst → ∃ p, header inst = Some p.
Proof. intros (hd & ns & lv & -> & _). by eexists. Qed.

Lemma skiplist_exist_law inst k w : kvs_skiplist_wf inst →
  kvs_skiplist_exist inst (Some k) w = Ok (if eng_map (W := W) inst !! k then 0 else 1) w.
Proof.
  intros Hwf. destruct (search_node_law inst k w Hwf) as (r & E & <-).
  destruct (wf_header _ Hwf) as [hd Hhd].
  unfold kvs_skiplist_exist, mbind, M_bind. rewrite Hhd, E. by destruct r as [[p n]|].
Qed.

Lemma skiplist_mod_law inst k v F w : kvs_skiplist_wf inst → owns (kvs_skiplist_owned inst) F w →
  wp (kvs_skiplist_mod inst (Some k) (Some v)) w (λ '(r, inst') w', keeps_wf F w inst' w' ∧
    match eng_map (W := W) inst !! k with
    | None => r = 1 ∧ eng_map (W := W) inst' = eng_map (W := W) inst
    | Some _ => (r = 0 ∧ eng_map (W := W) inst' = <[k:=v]> (eng_map (W := W) inst) ∨
                 r = -2 ∧ eng_map (W := W) inst' = eng_map (W := W) inst) ∧ (roomy w → r = 0)
    end).
Proof.
  intros Hwf Hw.
  destruct (search_situation (W := W) inst k w Hwf)
    as (hd & lo & hi & lv & update & Hlo & _ & _ & [(x & Hk & -> & Hrep & E1 & E2 & Hm)|
        (-> & Hrep & next & E1 & E2 & Hm)]); unfold kvs_skiplist_mod, skiplist_search_node;
    cbn [skiplist_of header]; rewrite Hm; (apply wp_bind; eapply wp_eq; [exact E1|]); cbn beta iota;
    unfold wp at 1; rewrite E2.
  - subst k. eapply wp_mono; [apply replace_value_spec; [done|by apply less_notin|exact Hw]|].
    intros [r inst'] w' (Hkw & Hr & Hr0). split; [done|]. split; [|done].
    destruct Hr as [?|[-> ->]]; [by left|by right].
  - apply wp_ret. split; [by apply keeps_wf_refl|done].
Qed.

(** ** Deleting *)

Lemma rep_delete hd lo hi lv (lv' : nat) x :
  skiplist_rep hd (lo ++ x :: hi) lv → (lv' <= Z.to_nat lv)%nat →
  Forall (λ c, (sk_height c <= S lv')%nat) (lo ++ hi) →
  (lv' = O ∨ Exists (λ c, sk_height c = S lv') (lo ++ hi)) →
  skiplist_rep hd (lo ++ hi) (Z.of_nat lv').
Proof.
  intros ((Hhd & Hlv & Hns & _) & Hs & Hnd) Hlv' Hall Hex. split_and!; [split_and!| |].
  - done.
  - lia.
  - lia.
  - apply Forall_app in Hns as [H1 [_ H2]%Forall_cons].
    assert (Forall (λ n, (0 < sk_height n)%nat) (lo ++ hi)) as Hpos.
    { apply Forall_app; split; (eapply Forall_impl; [eassumption|]); naive_solver. }
    eapply Forall_impl; [by apply Forall_and; split; [exact Hpos|exact Hall]|]. intros n [? ?]. simpl in *. lia.
  - destruct Hex as [->|Hex]; [by left|right]. eapply Exists_impl; [exact Hex|]. simpl. lia.
  - rewrite fmap_app, fmap_cons in *. by eapply strongly_sorted_remove.
  - revert Hnd. rewrite !app_comm_cons. rewrite (Permutation_app_comm (hd :: lo)). cbn [app]. rewrite fmap_cons.
    intros [_ Hnd]%NoDup_cons. by rewrite (Permutation_app_comm hi) in Hnd.
Qed.

Lemma free_node_blocks {Y} x own F w (m : M W Y) (Q : Y → W → Prop) :
  owns (sk_blocks x ++ own) F w →
  (∀ w', owns own F w' → (roomy w → roomy w') → wp m w' Q) →
  wp (kvs_free (Some (sk_block x));; kvs_free (Some (cs_addr (sk_value x)));;
      kvs_free (Some (cs_addr (sk_key x)));; skiplist_node_storage_free (sk_addr x);; m) w Q.
Proof.
  intros Hw Hm. unfold skiplist_node_storage_free.
  eapply wp_step. { apply (wp_free _ ([cs_addr (sk_value x); cs_addr (sk_key x); sk_addr x] ++ own) F).
    revert Hw. apply owns_perm. unfold sk_blocks. solve_Permutation. }
  intros _ w1 [Hw1 Hr1]. eapply wp_step; [by apply wp_free|]. intros _ w2 [Hw2 Hr2].
  eapply wp_step; [by apply wp_free|]. intros _ w3 [Hw3 Hr3].
  eapply wp_step; [by apply wp_free|]. intros _ w4 [Hw4 Hr4]. apply Hm; naive_solver.
Qed.

Lemma skiplist_del_law inst k F w : kvs_skiplist_wf inst → owns (kvs_skiplist_owned inst) F w →
  wp (kvs_skiplist_del inst (Some k)) w (λ '(r, inst') w', keeps_wf F w inst' w' ∧
    r = (if eng_map (W := W) inst !! k then 0 else 1) ∧
    eng_map (W := W) inst' = delete k (eng_map (W := W) inst)).
Proof.
  intros Hwf Hw.
  destruct (search_situation (W := W) inst k w Hwf)
    as (hd & lo & hi & lv & update & Hlo & Hhi & Hu & [(x & Hk & -> & Hrep & E1 & E2 & Hm)|
        (-> & Hrep & next & E1 & E2 & Hm)]); unfold kvs_skiplist_del; cbn [skiplist_of header]; rewrite Hm;
    (eapply wp_eq; [exact E1|]); cbn beta iota; (eapply wp_eq; [exact E2|]); cbn beta iota.
  2:{ apply wp_ret. split; [by apply keeps_wf_refl|]. split; [done|]. by rewrite delete_id. }
  pose proof Hrep as ((Hhd & Hlv & Hns & _) & _ & Hnd).
  pose proof (apart_intro (hd :: lo) x hi Hnd) as Ha. cbn [heap level].
  eapply wp_eq.
  { cbn [skiplist_of heap level]. rewrite (app_comm_cons lo _ hd), seg_part_after by done.
    apply (unlink_node_spec (hd :: lo) x hi (Z.to_nat (lv + 1)) 0 update w Ha).
    - apply Forall_app in Hns as [_ [[_ ?] _]%Forall_cons]. lia.
    - intros i Hi. apply (proj2 Hu). lia. }
  set (h := part _ _ _ _ _).
  destruct (lower_level_spec h hd (lo ++ hi) (Z.to_nat lv) w) as (lv' & E & Hle & Hall & Hex).
  { intros i Hi. unfold h. rewrite next_at_app. unfold forward_at, node_at, mbind, M_bind.
    rewrite (part_lookup_left _ _ _ _ _ [] hd lo) by done. cbn [deref mret M_ret sk_mem forward].
    rewrite znth_lookup, list_lookup_fmap, lookup_seq_lt; [done|].
    rewrite Hhd. unfold KVS_SKIPLIST_MAX_LEVEL in *. lia. }
  { apply Forall_app in Hns as [H1 [_ H2]%Forall_cons].
    apply Forall_app; split; (eapply Forall_impl; [eassumption|]); intros n [? ?]; lia. }
  eapply wp_eq; [exact E|]. eapply wp_eq; [apply part_new_node|].
  rewrite rep_owned in Hw by done. cbn [sk_mem forward_addr value key].
  rewrite (app_comm_cons lo _ hd), blocks_middle in Hw.
  eapply free_node_blocks; [exact Hw|]. intros w1 Hw1 Hr1. apply wp_ret.
  unfold h. rewrite delete_part, <- segment_app by done.
  change (KvsSkiplist _ _ _) with (skiplist_of hd (lo ++ hi) (Z.of_nat lv')).
  pose proof (rep_delete hd lo hi lv lv' x Hrep Hle Hall Hex) as Hrep'.
  split; [by apply rep_keeps|]. split; [done|].
  rewrite !rep_map by done. rewrite !fmap_app, fmap_cons. subst k.
  apply to_map_remove; [by apply less_notin|by apply greater_notin].
Qed.

(** ** Creation, destruction, visiting *)

Lemma skiplist_create_law F w : owns [] F w →
  wp (kvs_skiplist_create global_skiplist_zero) w (λ '(r, inst') w',
    (r = 0 ∧ keeps_wf F w inst' w' ∧ kvs_skiplist_entries inst' = [] ∨ r = -1 ∧ owns [] F w') ∧
    (roomy w → roomy w' ∧ r = 0)).
Proof.
  intros Hw. unfold kvs_skiplist_create.
  eapply wp_step; [by apply skiplist_create_node_spec|]. intros [[p n]|] w1 [Hw1 Hr1]; apply wp_ret.
  2:{ split; [by right|naive_solver]. }
  destruct Hw1 as (kc & vc & fa & -> & _ & _ & Hw1).
  set (hd := Sk p kc vc fa (Z.to_nat (KVS_SKIPLIST_MAX_LEVEL + 1))).
  change (KvsSkiplist 0 _ _) with (skiplist_of hd [] 0).
  assert (skiplist_rep hd [] 0) as Hrep.
  { split_and!; [split_and!| |].
    - done.
    - done.
    - done.
    - by apply Forall_nil.
    - by left.
    - apply SSorted_nil.
    - apply NoDup_singleton. }
  split; [left|naive_solver]. split_and!; [done| |].
  - apply rep_keeps; [done| |naive_solver]. revert Hw1. by apply owns_perm.
  - destruct Hrep as (Hh & _ & Hnd). apply (skiplist_entries_of hd [] 0); [by eapply heights_linked|done].
Qed.

Lemma destory_node_spec {Y} x tl ns own F w (m : M W Y) (Q : Y → W → Prop) :
  owns (sk_blocks x ++ own) F w →
  (∀ w', owns own F w' → (roomy w → roomy w') → wp m w' Q) →
  wp (destory_node (sk_addr x) (sk_mem tl x ns);; m) w Q.
Proof.
  intros Hw Hm. unfold destory_node, skiplist_node_storage_free. apply wp_bind.
  cbn [sk_mem key value forward_addr]. unfold sk_blocks in Hw. cbn [app] in Hw.
  eapply wp_step; [by apply wp_free|]. intros _ w1 [Hw1 Hr1].
  eapply wp_step; [by apply wp_free|]. intros _ w2 [Hw2 Hr2].
  eapply wp_step; [by apply wp_free|]. intros _ w3 [Hw3 Hr3].
  eapply wp_mono; [by apply wp_free|]. intros _ w4 [Hw4 Hr4]. apply Hm; naive_solver.
Qed.

Lemma destory_loop_spec hd tl ns0 ns fuel own F w :
  linked ns → NoDup (sk_addr <$> hd :: ns) → (List.length ns <= fuel)%nat →
  owns (blocks ns ++ own) F w →
  wp (kvs_skiplist_destory_loop fuel (<[sk_addr hd := sk_mem tl hd ns0]> (seg no_tl ns)) (sk_addr <$> head ns)) w
    (λ h w', h = <[sk_addr hd := sk_mem tl hd ns0]> ∅ ∧ owns own F w' ∧ (roomy w → roomy w')).
Proof.
  revert fuel w. induction ns as [|x ns IH]; intros fuel w Hl Hnd Hf Hw.
  { destruct fuel; by apply wp_ret. }
  destruct fuel as [|fuel]; [simpl in Hf; lia|]. apply Forall_cons in Hl as [Hx Hl]. simpl in Hf.
  rewrite !fmap_cons, !NoDup_cons in Hnd. destruct Hnd as (Hhd & Hxn & Hnd).
  assert (sk_addr hd ≠ sk_addr x) by set_solver.
  cbn [kvs_skiplist_destory_loop head fmap option_fmap option_map].
  assert (∀ v : W, node_at (<[sk_addr hd:=sk_mem tl hd ns0]> (seg no_tl (x :: ns))) (sk_addr x) v =
    Ok (sk_mem no_tl x ns) v) as Hnode.
  { intros v. unfold node_at. rewrite lookup_insert_ne by done. cbn [seg]. by rewrite lookup_insert_eq. }
  eapply wp_eq.
  { unfold forward_at, mbind, M_bind. rewrite Hnode. change 0 with (Z.of_nat 0).
    by rewrite znth_lookup, forward_0_mem by done. }
  eapply wp_eq; [apply Hnode|]. unfold blocks in Hw. rewrite fmap_cons in Hw. cbn [mjoin list_join] in Hw.
  rewrite <- app_assoc in Hw. change (mjoin (sk_blocks <$> ns)) with (blocks ns) in Hw.
  eapply destory_node_spec; [exact Hw|]. intros w1 Hw1 Hr1.
  rewrite delete_insert_ne by done. cbn [seg]. rewrite delete_insert_eq, delete_id by (by apply seg_lookup_None).
  eapply wp_mono; [apply IH; [done| |lia|done]|naive_solver].
  rewrite fmap_cons. apply NoDup_cons. split; [set_solver|done].
Qed.

Lemma skiplist_destroy_law inst F w : kvs_skiplist_wf inst → owns (kvs_skiplist_owned inst) F w →
  wp (kvs_skiplist_destory inst) w (λ inst' w', inst' = global_skiplist_zero ∧
    owns [] F w' ∧ (roomy w → roomy w')).
Proof.
  intros (hd & ns & lv & -> & Hrep) Hw. rewrite rep_owned in Hw by done.
  pose proof Hrep as (Hh & _ & Hnd). pose proof (heights_linked _ _ _ Hh) as Hl.
  unfold kvs_skiplist_destory, skiplist_of. cbn [header heap].
  apply Forall_cons in Hl as [Hhd Hl].
  eapply wp_eq.
  { change 0 with (Z.of_nat 0). rewrite (forward_at_seg no_tl _ [] hd ns) by done.
    unfold no_tl. rewrite next_at_0 by done. done. }
  eapply wp_step.
  { cbn [seg]. apply (destory_loop_spec hd no_tl ns ns _ (sk_blocks hd) F); [done|done| |].
    - change (<[_ := _]> _) with (seg no_tl (hd :: ns)). rewrite seg_size by done. simpl. lia.
    - revert Hw. apply owns_perm. unfold blocks. simpl. solve_Permutation. }
  intros h w1 (-> & Hw1 & Hr1). eapply wp_eq.
  { unfold node_at. by rewrite lookup_insert_eq. }
  eapply destory_node_spec; [by rewrite app_nil_r|]. intros w2 Hw2 Hr2. apply wp_ret.
  rewrite delete_insert_eq, delete_id by done. naive_solver.
Qed.

Lemma foreach_loop_spec {V C} L A B fuel (visitor : kvs_visit_handler V C) (c : C) (v : V) :
  L = A ++ B → NoDup (sk_addr <$> L) → linked B → (List.length B <= fuel)%nat →
  foreach_loop fuel (seg no_tl L) visitor (sk_addr <$> head B) c v = visit_all visitor (sk_strs <$> B) c v.
Proof.
  intros HL Hnd. revert A fuel c v HL. induction B as [|x B IH]; intros A fuel c v HL Hl Hf.
  { by destruct fuel. }
  destruct fuel as [|fuel]; [simpl in Hf; lia|]. apply Forall_cons in Hl as [Hx Hl]. simpl in Hf.
  cbn [foreach_loop head fmap option_fmap option_map]. unfold mbind, M_bind.
  rewrite (node_at_seg _ _ A x B) by done. cbn [sk_mem key value].
  rewrite fmap_cons. cbn [visit_all sk_strs]. unfold mbind, M_bind, sk_strs at 1.
  destruct (visitor _ _ c v) as [[r c'] v'|v'|]; [|done..]. destruct (r <? 0); [done|].
  change 0 with (Z.of_nat 0). rewrite (forward_at_seg _ _ A x B) by done. unfold no_tl.
  rewrite next_at_0 by done. apply (IH (A ++ [x])); [by rewrite <- app_assoc|done|lia].
Qed.

Lemma skiplist_foreach_law {V C} inst (visitor : kvs_visit_handler V C) (c : C) (v : V) : kvs_skiplist_wf inst →
  kvs_skiplist_foreach inst (Some visitor) c v = visit_all visitor (kvs_skiplist_entries inst) c v.
Proof.
  intros (hd & ns & lv & -> & Hrep). pose proof Hrep as (Hh & _ & Hnd).
  pose proof (heights_linked _ _ _ Hh) as Hl. rewrite skiplist_entries_of by done.
  apply Forall_cons in Hl as [Hhd Hl].
  unfold kvs_skiplist_foreach. cbn [skiplist_of header heap]. unfold mbind, M_bind.
  change 0 with (Z.of_nat 0). rewrite (forward_at_seg no_tl _ [] hd ns) by done.
  unfold no_tl. rewrite next_at_0 by done.
  apply (foreach_loop_spec (hd :: ns) [hd] ns); [done..|]. rewrite seg_size by done. simpl. lia.
Qed.

#[export] Instance skiplist_engine_laws : EngineLaws W kvs_skiplist_t.
Proof.
  split.
  - intros e (hd & ns & lv & -> & Hrep). pose proof Hrep as (Hh & Hs & Hnd). cbn [eng_entries skiplist_engine].
    rewrite skiplist_entries_of by (done || by eapply heights_linked).
    rewrite sk_strs_keys. by apply sorted_nodup.
  - done.
  - done.
  - done.
  - done.
  - intros F w Hw. eapply wp_mono; [by apply skiplist_create_law|]. by intros [r e'].
  - intros e F w Hwf Hw. eapply wp_mono; [by apply skiplist_destroy_law|]. naive_solver.
  - intros e k v F w Hwf _ Hw. by apply skiplist_set_law.
  - intros e k w Hwf _. by apply skiplist_get_law.
  - intros e k F w Hwf _ Hw. by apply skiplist_del_law.
  - intros e k v F w Hwf _ Hw. by apply skiplist_mod_law.
  - intros e k w Hwf _. by apply skiplist_exist_law.
  - intros V C e visitor c v Hwf. by apply skiplist_foreach_law.
Qed.
End laws.

(** * Properties *)

(** C15: Over its whole life the skip list implements a finite map without a size
    limit, whatever levels [rand] chooses: every operation terminates, follows no
    null or dangling link, returns the code and has the effect of the abstract
    map, and destruction releases exactly the blocks of the header and the
    nodes. *)
Theorem skiplist_session_refines `{CRuntimeLaws W} (os : list engine_op) (F : gset addr) (w : W)
    (Hw : owns [] F w) :
  wp (engine_session (E := kvs_skiplist_t) os) w (λ r w', owns [] F w' ∧
    (∀ rs, r = Some rs → ∃ m, map_run_or_oom (E := kvs_skiplist_t) ∅ os rs m) ∧
    (roomy w → r = Some (map_run (E := kvs_skiplist_t) ∅ os).1)).
Proof. apply engine_session_refines; [|done]. apply Forall_forall. done. Qed.

Definition sk_demo_ops : list engine_op :=
  [OpSet (lit "Dad") (lit "Jasper"); OpSet (lit "Teacher") (lit "King"); OpSet (lit "Dad") (lit "Sao");
   OpSet (lit "Name") (lit "Alice"); OpGet (lit "Dad"); OpDel (lit "Name"); OpGet (lit "Name");
   OpMod (lit "Missing") (lit "Value"); OpDel (lit "Missing"); OpExist (lit "Teacher")].

Lemma skiplist_session_witness :
  owns [] ∅ empty_heap ∧
  wp (engine_session (E := kvs_skiplist_t) sk_demo_ops) empty_heap (λ r w', owns [] ∅ w' ∧
    (∀ rs, r = Some rs → ∃ m, map_run_or_oom (E := kvs_skiplist_t) ∅ sk_demo_ops rs m) ∧
    (roomy empty_heap → r = Some (map_run (E := kvs_skiplist_t) ∅ sk_demo_ops).1)).
Proof.
  exact (conj empty_heap_owns (skiplist_session_refines sk_demo_ops ∅ empty_heap empty_heap_owns)).
Defined.

Example skiplist_session_run :
  (λ o, match o with Ok r _ => r | _ => None end)
    (engine_session (E := kvs_skiplist_t) sk_demo_ops empty_heap) =
  Some [RInt 0; RInt 0; RInt 0; RInt 0; RStr (Some (lit "Sao")); RInt 0; RStr None; RInt 1; RInt 1; RInt 0].
Proof. vm_compute. reflexivity. Qed.

(** Whatever operations are applied to a well-formed skip list, the result is
    well formed: keys strictly increasing in [strcmp] order, every level of the
    list the chain of exactly the nodes tall enough for it, and the recorded level
    the greatest one in use. *)
Theorem skiplist_reachable_wf `{CRuntimeLaws W} (inst : kvs_skiplist_t) (os : list engine_op)
    (F : gset addr) (w : W) (Hwf : kvs_skiplist_wf inst) (Hw : owns (kvs_skiplist_owned inst) F w) :
  wp (engine_run inst os) w (λ '(_, inst') w',
    (∃ hd ns, inst' = skiplist_of hd ns (level inst') ∧ StronglySorted str_lt (sk_str <$> ns) ∧
      (∀ i, level inst' < Z.of_nat i → next_at None i ns = None) ∧
      (0 < level inst' → next_at None (Z.to_nat (level inst')) ns ≠ None)) ∧
    owns (kvs_skiplist_owned inst') F w').
Proof.
  eapply wp_mono; [apply (engine_run_refines (E := kvs_skiplist_t) os inst F w); [done|by apply Forall_forall|done]|].
  intros [rs inst'] w' (((hd & ns & lv & -> & (Hhd & Hlv & Hns & Hex) & Hs & Hnd) & Hw' & _) & _).
  split; [|done]. exists hd, ns. cbn [skiplist_of level]. split_and!; [done..| |].
  - intros i Hi. apply next_at_skip. eapply Forall_impl; [exact Hns|]. simpl. lia.
  - intros Hlv0 Hnone%next_at_None. destruct Hex as [->|Hex]; [lia|].
    apply Exists_exists in Hex as (n & Hn & Hh). rewrite Forall_forall in Hnone.
    specialize (Hnone n Hn). lia.
Qed.

Definition header_only : sk_node := Sk 1 (CStr 2 []) (CStr 3 []) 4 7.
Definition heap4 : heap_rt := HeapRt 5 {[1; 2; 3; 4]} None 0.

Lemma heap4_owns : owns (kvs_skiplist_owned (skiplist_of header_only [] 0)) ∅ heap4.
Proof.
  assert (kvs_skiplist_owned (skiplist_of header_only [] 0) = [2; 3; 4; 1]) as -> by (vm_compute; reflexivity).
  split_and!.
  - intros p Hp. cbn in *. set_unfold in Hp. lia.
  - apply (bool_decide_unpack _). vm_compute. exact I.
  - cbn. set_solver.
  - set_solver.
Qed.

Lemma skiplist_header_wf : kvs_skiplist_wf (skiplist_of header_only [] 0).
Proof.
  exists header_only, [], 0. split; [done|]. split; [|split; [apply SSorted_nil|apply NoDup_singleton]].
  split_and!; [done|done|done|by apply Forall_nil|by left].
Qed.

Lemma skiplist_reachable_witness :
  kvs_skiplist_wf (skiplist_of header_only [] 0) ∧
  owns (kvs_skiplist_owned (skiplist_of header_only [] 0)) ∅ heap4 ∧
  wp (engine_run (skiplist_of header_only [] 0) sk_demo_ops) heap4 (λ '(_, inst') w',
    (∃ hd ns, inst' = skiplist_of hd ns (level inst') ∧ StronglySorted str_lt (sk_str <$> ns) ∧
      (∀ i, level inst' < Z.of_nat i → next_at None i ns = None) ∧
      (0 < level inst' → next_at None (Z.to_nat (level inst')) ns ≠ None)) ∧
    owns (kvs_skiplist_owned inst') ∅ w').
Proof.
  exact (conj skiplist_header_wf (conj heap4_owns
    (skiplist_reachable_wf _ sk_demo_ops ∅ heap4 skiplist_header_wf heap4_owns))).
Defined.

(** [kvs_skiplist_foreach] presents every pair of the map to the visitor, in
    strictly increasing [strcmp] order of the keys. *)
Theorem skiplist_foreach_sorted `{CRuntime W} {V C} (inst : kvs_skiplist_t)
    (visitor : kvs_visit_handler V C) (c : C) (v : V) (Hwf : kvs_skiplist_wf inst) :
  ∃ l, kvs_skiplist_foreach inst (Some visitor) c v = visit_all visitor l c v ∧
    StronglySorted str_lt l.*1 ∧ list_to_map l = eng_map (W := W) inst.
Proof.
  exists (kvs_skiplist_entries inst). split_and!; [by apply skiplist_foreach_law| |done].
  destruct Hwf as (hd & ns & lv & -> & Hh & Hs & Hnd).
  rewrite skiplist_entries_of, sk_strs_keys by (done || by eapply heights_linked). done.
Qed.

Lemma skiplist_foreach_witness :
  let visitor : kvs_visit_handler unit (list bytes) := λ k v acc, mret (0, k :: v :: acc) in
  kvs_skiplist_wf (skiplist_of header_only [] 0) ∧
  ∃ l, kvs_skiplist_foreach (skiplist_of header_only [] 0) (Some visitor) [] tt = visit_all visitor l [] tt ∧
    StronglySorted str_lt l.*1 ∧ list_to_map l = eng_map (W := heap_rt) (skiplist_of header_only [] 0).
Proof.
  exact (conj skiplist_header_wf (skiplist_foreach_sorted _ _ _ _ skiplist_header_wf)).
Defined.
