(* ===== verification/RbTree.v ===== *)
(** The red-black tree engine, src/engines/kvs_rbtree.c: a binary search tree in
    [strcmp] order with parent pointers and a sentinel [nil] node, rebalanced after
    insertion and deletion.

    The nodes live in a heap, a finite map from addresses to nodes; following a
    null, dangling or uninitialised pointer is undefined.  The functions on the bare
    tree run on the tree as their state; the engine's operations thread it.  Loops
    carry a bound, the number of nodes of the heap or one more; that the bound is
    never reached is part of every theorem.  The instance is the global
    [global_rbtree], so the tests [inst == NULL] are constantly false and are left
    out.  [rbtree_traversal] and the code under [#if 0] only print and are not
    modelled. *)

From Stdlib Require Import ZArith Lia.
From S2P Require Import Prelude Runtime Engine.

(** * Data *)

Inductive rb_color := RED | BLACK.
#[export] Instance rb_color_eq_dec : EqDecision rb_color.
Proof. solve_decision. Defined.

(** A pointer; [None] is null. *)
Abbreviation ptr := (option addr) (only parsing).

(** [rbtree_node]; a colour or a pointer never written is [None]. *)
Record rbtree_node := RbNode {
  node_color : option rb_color;
  node_right : option ptr;
  node_left : option ptr;
  node_parent : option ptr;
  node_key : option cstr;
  node_value : option cstr;
}.

(** [kvs_rbtree_t] with the nodes of the heap. *)
Record kvs_rbtree_t := KvsRbtree {
  rb_root : ptr;
  rb_nil : ptr;
  rb_nodes : gmap Z rbtree_node;
}.

Definition global_rbtree_zero : kvs_rbtree_t := KvsRbtree None None ∅.

(** ** Reading and writing nodes *)

Abbreviation T := (M kvs_rbtree_t) (only parsing).

Definition node_at (p : ptr) : T rbtree_node :=
  a ← deref p;
  nodes ← gets rb_nodes;
  deref (nodes !! a).

Definition field {X} (f : rbtree_node → option X) (p : ptr) : T X := n ← node_at p; deref (f n).
Definition color : ptr → T rb_color := field node_color.
Definition right_of : ptr → T ptr := field node_right.
Definition left_of : ptr → T ptr := field node_left.
Definition parent : ptr → T ptr := field node_parent.
Definition key_of : ptr → T cstr := field node_key.

Definition put_nodes (h : gmap Z rbtree_node) (t : kvs_rbtree_t) : kvs_rbtree_t := KvsRbtree (rb_root t) (rb_nil t) h.

Definition update (f : rbtree_node → rbtree_node) (p : ptr) : T unit :=
  a ← deref p;
  n ← node_at p;
  modify (λ t, put_nodes (<[a := f n]> (rb_nodes t)) t).

Definition with_color (c : rb_color) (n : rbtree_node) : rbtree_node :=
  RbNode (Some c) (node_right n) (node_left n) (node_parent n) (node_key n) (node_value n).
Definition with_right (q : ptr) (n : rbtree_node) : rbtree_node :=
  RbNode (node_color n) (Some q) (node_left n) (node_parent n) (node_key n) (node_value n).
Definition with_left (q : ptr) (n : rbtree_node) : rbtree_node :=
  RbNode (node_color n) (node_right n) (Some q) (node_parent n) (node_key n) (node_value n).
Definition with_parent (q : ptr) (n : rbtree_node) : rbtree_node :=
  RbNode (node_color n) (node_right n) (node_left n) (Some q) (node_key n) (node_value n).
Definition with_key (k : option cstr) (n : rbtree_node) : rbtree_node :=
  RbNode (node_color n) (node_right n) (node_left n) (node_parent n) k (node_value n).
Definition with_value (v : option cstr) (n : rbtree_node) : rbtree_node :=
  RbNode (node_color n) (node_right n) (node_left n) (node_parent n) (node_key n) v.

(** [p->color = c] and the like. *)
Definition set_color (p : ptr) (c : rb_color) : T unit := update (with_color c) p.
Definition set_right (p q : ptr) : T unit := update (with_right q) p.
Definition set_left (p q : ptr) : T unit := update (with_left q) p.
Definition set_parent (p q : ptr) : T unit := update (with_parent q) p.
Definition set_root (p : ptr) : T unit := modify (λ t, KvsRbtree p (rb_nil t) (rb_nodes t)).

(** [p == T->nil] *)
Definition is_nil (p : ptr) : T bool := nil ← gets rb_nil; mret (bool_decide (p = nil)).

(** The bound of the loops. *)
Definition bound : T nat := gets (λ t, S (size (rb_nodes t))).

(** * The tree *)

(** The loops of [rbtree_mini] and [rbtree_maxi]. *)
Fixpoint walk_down (step : ptr → T ptr) (fuel : nat) (x : ptr) : T ptr :=
  next ← step x;
  last ← is_nil next;
  if last : bool then mret x else
  match fuel with O => undefined | S fuel => walk_down step fuel next end.

Definition rbtree_mini (x : ptr) : T ptr := n ← bound; walk_down left_of n x.
Definition rbtree_maxi (x : ptr) : T ptr := n ← bound; walk_down right_of n x.

(** The [while] of [rbtree_successor]. *)
Fixpoint climb (fuel : nat) (x y : ptr) : T ptr :=
  top ← is_nil y;
  if top : bool then mret y else
  r ← right_of y;
  if negb (bool_decide (x = r)) then mret y else
  match fuel with
  | O => undefined
  | S fuel => p ← parent y; climb fuel y p
  end.

Definition rbtree_successor (x : ptr) : T ptr :=
  y ← parent x;
  r ← right_of x;
  r_nil ← is_nil r;
  if negb r_nil then (r ← right_of x; rbtree_mini r) else
  n ← bound;
  climb n x y.

Definition rbtree_left_rotate (x : ptr) : T unit :=
  y ← right_of x;
  yl ← left_of y;
  set_right x yl;;
  yl ← left_of y;
  yl_nil ← is_nil yl;
  (if negb yl_nil then (yl ← left_of y; set_parent yl x) else mret tt);;
  p ← parent x;
  set_parent y p;;
  p ← parent x;
  p_nil ← is_nil p;
  (if p_nil : bool then set_root y
   else
     pl ← left_of p;
     if bool_decide (x = pl) then set_left p y else set_right p y);;
  set_left y x;;
  set_parent x y.

Definition rbtree_right_rotate (y : ptr) : T unit :=
  x ← left_of y;
  xr ← right_of x;
  set_left y xr;;
  xr ← right_of x;
  xr_nil ← is_nil xr;
  (if negb xr_nil then (xr ← right_of x; set_parent xr y) else mret tt);;
  p ← parent y;
  set_parent x p;;
  p ← parent y;
  p_nil ← is_nil p;
  (if p_nil : bool then set_root x
   else
     pr ← right_of p;
     if bool_decide (y = pr) then set_right p x else set_left p x);;
  set_right x y;;
  set_parent y x.

(** ** Insertion *)

(** [z->parent->parent] *)
Definition grandparent (z : ptr) : T ptr := p ← parent z; parent p.

(** The body of the [while] of [rbtree_insert_fixup]; the new [z]. *)
Definition insert_fixup_body (z : ptr) : T ptr :=
  p ← parent z;
  g ← grandparent z;
  gl ← left_of g;
  if bool_decide (p = gl) then
    g ← grandparent z;
    y ← right_of g;
    c ← color y;
    if bool_decide (c = RED) then
      p ← parent z; set_color p BLACK;;
      set_color y BLACK;;
      g ← grandparent z; set_color g RED;;
      grandparent z
    else
      p ← parent z;
      r ← right_of p;
      z ← (if bool_decide (z = r) then
             z ← parent z; rbtree_left_rotate z;; mret z
           else mret z);
      p ← parent z; set_color p BLACK;;
      g ← grandparent z; set_color g RED;;
      g ← grandparent z; rbtree_right_rotate g;;
      mret z
  else
    g ← grandparent z;
    y ← left_of g;
    c ← color y;
    if bool_decide (c = RED) then
      p ← parent z; set_color p BLACK;;
      set_color y BLACK;;
      g ← grandparent z; set_color g RED;;
      grandparent z
    else
      p ← parent z;
      l ← left_of p;
      z ← (if bool_decide (z = l) then
             z ← parent z; rbtree_right_rotate z;; mret z
           else mret z);
      p ← parent z; set_color p BLACK;;
      g ← grandparent z; set_color g RED;;
      g ← grandparent z; rbtree_left_rotate g;;
      mret z.

Fixpoint insert_fixup_loop (fuel : nat) (z : ptr) : T unit :=
  p ← parent z;
  c ← color p;
  if negb (bool_decide (c = RED)) then mret tt else
  match fuel with
  | O => undefined
  | S fuel => z ← insert_fixup_body z; insert_fixup_loop fuel z
  end.

Definition rbtree_insert_fixup (z : ptr) : T unit :=
  n ← bound;
  insert_fixup_loop n z;;
  root ← gets rb_root;
  set_color root BLACK.

(** The [while] of [rbtree_insert]: the parent to be, or [None] when the key is
    there already. *)
Fixpoint insert_search (fuel : nat) (z y x : ptr) : T (option ptr) :=
  x_nil ← is_nil x;
  if x_nil : bool then mret (Some y) else
  match fuel with
  | O => undefined
  | S fuel =>
      zk ← key_of z;
      xk ← key_of x;
      match strcmp (cs_str zk) (cs_str xk) with
      | Lt => l ← left_of x; insert_search fuel z x l
      | Gt => r ← right_of x; insert_search fuel z x r
      | Eq => mret None
      end
  end.

Definition rbtree_insert (z : ptr) : T unit :=
  nil ← gets rb_nil;
  root ← gets rb_root;
  n ← bound;
  found ← insert_search n z nil root;
  match found with
  | None => mret tt
  | Some y =>
      set_parent z y;;
      y_nil ← is_nil y;
      (if y_nil : bool then set_root z
       else
         zk ← key_of z;
         yk ← key_of y;
         match strcmp (cs_str zk) (cs_str yk) with
         | Lt => set_left y z
         | _ => set_right y z
         end);;
      set_left z nil;;
      set_right z nil;;
      set_color z RED;;
      rbtree_insert_fixup z
  end.

(** ** Deletion *)

(** [(w->left->color == BLACK) && (w->right->color == BLACK)] *)
Definition both_black (w : ptr) : T bool :=
  wl ← left_of w; cl ← color wl;
  if bool_decide (cl = BLACK) then (wr ← right_of w; cr ← color wr; mret (bool_decide (cr = BLACK))) else mret false.

(** The body of the [while] of [rbtree_delete_fixup]; the new [x]. *)
Definition delete_fixup_body (x : ptr) : T ptr :=
  p ← parent x;
  pl ← left_of p;
  if bool_decide (x = pl) then
    p ← parent x;
    w ← right_of p;
    cw ← color w;
    w ← (if bool_decide (cw = RED) then
           set_color w BLACK;;
           p ← parent x; set_color p RED;;
           p ← parent x; rbtree_left_rotate p;;
           p ← parent x; right_of p
         else mret w);
    both ← both_black w;
    if both : bool then
      set_color w RED;;
      parent x
    else
      wr ← right_of w; cr ← color wr;
      w ← (if bool_decide (cr = BLACK) then
             wl ← left_of w; set_color wl BLACK;;
             set_color w RED;;
             rbtree_right_rotate w;;
             p ← parent x; right_of p
           else mret w);
      p ← parent x; cp ← color p; set_color w cp;;
      p ← parent x; set_color p BLACK;;
      wr ← right_of w; set_color wr BLACK;;
      p ← parent x; rbtree_left_rotate p;;
      gets rb_root
  else
    p ← parent x;
    w ← left_of p;
    cw ← color w;
    w ← (if bool_decide (cw = RED) then
           set_color w BLACK;;
           p ← parent x; set_color p RED;;
           p ← parent x; rbtree_right_rotate p;;
           p ← parent x; left_of p
         else mret w);
    both ← both_black w;
    if both : bool then
      set_color w RED;;
      parent x
    else
      wl ← left_of w; cl ← color wl;
      w ← (if bool_decide (cl = BLACK) then
             wr ← right_of w; set_color wr BLACK;;
             set_color w RED;;
             rbtree_left_rotate w;;
             p ← parent x; left_of p
           else mret w);
      p ← parent x; cp ← color p; set_color w cp;;
      p ← parent x; set_color p BLACK;;
      wl ← left_of w; set_color wl BLACK;;
      p ← parent x; rbtree_right_rotate p;;
      gets rb_root.

Fixpoint delete_fixup_loop (fuel : nat) (x : ptr) : T ptr :=
  root ← gets rb_root;
  if bool_decide (x = root) then mret x else
  c ← color x;
  if negb (bool_decide (c = BLACK)) then mret x else
  match fuel with
  | O => undefined
  | S fuel => x ← delete_fixup_body x; delete_fixup_loop fuel x
  end.

Definition rbtree_delete_fixup (x : ptr) : T unit :=
  n ← bound;
  x ← delete_fixup_loop n x;
  set_color x BLACK.

(** The nodes swap their keys and values. *)
Definition swap_data (z y : ptr) : T unit :=
  nz ← node_at z;
  ny ← node_at y;
  update (with_key (node_key ny)) z;;
  update (with_key (node_key nz)) y;;
  update (with_value (node_value ny)) z;;
  update (with_value (node_value nz)) y.

(** The node [y] makes way for its only child, or for the sentinel: the [x] chosen,
    the parent of [x] and the place of [y] in its parent. *)
Definition rbtree_unlink (y : ptr) : T ptr :=
  nil ← gets rb_nil;
  yl ← left_of y;
  x ← (if negb (bool_decide (yl = nil)) then left_of y
       else yr ← right_of y; if negb (bool_decide (yr = nil)) then right_of y else mret nil);
  p ← parent y;
  set_parent x p;;
  p ← parent y;
  (if bool_decide (p = nil) then set_root x
   else
     pl ← left_of p;
     if bool_decide (y = pl) then set_left p x else set_right p x);;
  mret x.

Definition rbtree_delete (z : ptr) : T ptr :=
  nil ← gets rb_nil;
  zl ← left_of z;
  y ← (if bool_decide (zl = nil) then mret z
       else zr ← right_of z; if bool_decide (zr = nil) then mret z else rbtree_successor z);
  x ← rbtree_unlink y;
  (if negb (bool_decide (y = z)) then swap_data z y else mret tt);;
  c ← color y;
  (if bool_decide (c = BLACK) then rbtree_delete_fixup x else mret tt);;
  mret y.

(** ** Search *)

Fixpoint search_loop (fuel : nat) (key : bytes) (node : ptr) : T ptr :=
  node_nil ← is_nil node;
  if node_nil : bool then gets rb_nil else
  match fuel with
  | O => undefined
  | S fuel =>
      nk ← key_of node;
      match strcmp key (cs_str nk) with
      | Lt => l ← left_of node; search_loop fuel key l
      | Gt => r ← right_of node; search_loop fuel key r
      | Eq => mret node
      end
  end.

Definition rbtree_search (key : bytes) : T ptr :=
  root ← gets rb_root;
  n ← bound;
  search_loop n key root.


(** * The two sides

    The code treats left and right alike; each function is one of a pair of mirror
    images, written once for both. *)

Inductive side := Lft | Rgt.
#[export] Instance side_eq_dec : EqDecision side.
Proof. solve_decision. Defined.
Definition opp (d : side) : side := match d with Lft => Rgt | Rgt => Lft end.

Definition child (d : side) : ptr → T ptr := match d with Lft => left_of | Rgt => right_of end.
Definition set_child (d : side) : ptr → ptr → T unit := match d with Lft => set_left | Rgt => set_right end.

Definition rotate (d : side) (x : ptr) : T unit :=
  y ← child (opp d) x;
  yl ← child d y;
  set_child (opp d) x yl;;
  yl ← child d y;
  yl_nil ← is_nil yl;
  (if negb yl_nil then (yl ← child d y; set_parent yl x) else mret tt);;
  p ← parent x;
  set_parent y p;;
  p ← parent x;
  p_nil ← is_nil p;
  (if p_nil : bool then set_root y
   else
     pl ← child d p;
     if bool_decide (x = pl) then set_child d p y else set_child (opp d) p y);;
  set_child d y x;;
  set_parent x y.

Lemma rotate_sides : rbtree_left_rotate = rotate Lft ∧ rbtree_right_rotate = rotate Rgt.
Proof. done. Qed.

Definition insert_side (d : side) (z : ptr) : T ptr :=
  g ← grandparent z;
  y ← child (opp d) g;
  c ← color y;
  if bool_decide (c = RED) then
    p ← parent z; set_color p BLACK;;
    set_color y BLACK;;
    g ← grandparent z; set_color g RED;;
    grandparent z
  else
    p ← parent z;
    r ← child (opp d) p;
    z ← (if bool_decide (z = r) then
           z ← parent z; rotate d z;; mret z
         else mret z);
    p ← parent z; set_color p BLACK;;
    g ← grandparent z; set_color g RED;;
    g ← grandparent z; rotate (opp d) g;;
    mret z.

Lemma insert_sides z : insert_fixup_body z =
  (p ← parent z; g ← grandparent z; gl ← left_of g; if bool_decide (p = gl) then insert_side Lft z else insert_side Rgt z).
Proof. done. Qed.

Definition delete_side (d : side) (x : ptr) : T ptr :=
  p ← parent x;
  w ← child (opp d) p;
  cw ← color w;
  w ← (if bool_decide (cw = RED) then
         set_color w BLACK;;
         p ← parent x; set_color p RED;;
         p ← parent x; rotate d p;;
         p ← parent x; child (opp d) p
       else mret w);
  both ← both_black w;
  if both : bool then
    set_color w RED;;
    parent x
  else
    wr ← child (opp d) w; cr ← color wr;
    w ← (if bool_decide (cr = BLACK) then
           wl ← child d w; set_color wl BLACK;;
           set_color w RED;;
           rotate (opp d) w;;
           p ← parent x; child (opp d) p
         else mret w);
    p ← parent x; cp ← color p; set_color w cp;;
    p ← parent x; set_color p BLACK;;
    wr ← child (opp d) w; set_color wr BLACK;;
    p ← parent x; rotate d p;;
    gets rb_root.

Lemma delete_sides x : delete_fixup_body x =
  (p ← parent x; pl ← left_of p; if bool_decide (x = pl) then delete_side Lft x else delete_side Rgt x).
Proof. done. Qed.

(** * The tree in the heap *)

Record info := Info { i_addr : addr; i_key : cstr; i_value : cstr }.

Inductive tree := Leaf | Node (c : rb_color) (l : tree) (n : info) (r : tree).

(** A node with its subtree on side [d] first. *)
Definition node (d : side) (c : rb_color) (near : tree) (n : info) (far : tree) : tree :=
  match d with Lft => Node c near n far | Rgt => Node c far n near end.

Fixpoint inorder (t : tree) : list info :=
  match t with Leaf => [] | Node _ l n r => inorder l ++ n :: inorder r end.
Definition addrs (t : tree) : list addr := i_addr <$> inorder t.

(** The address of the root. *)
Definition top (nl : addr) (t : tree) : addr := match t with Leaf => nl | Node _ _ n _ => i_addr n end.

(** A node as it is in memory. *)
Definition mem (c : rb_color) (l r p : addr) (n : info) : rbtree_node :=
  RbNode (Some c) (Some (Some r)) (Some (Some l)) (Some (Some p)) (Some (i_key n)) (Some (i_value n)).
Definition side_mem (d : side) (c : rb_color) (near far p : addr) (n : info) : rbtree_node :=
  match d with Lft => mem c near far p n | Rgt => mem c far near p n end.
Definition nil_mem (nl p : addr) : rbtree_node :=
  RbNode (Some BLACK) (Some (Some nl)) (Some (Some nl)) (Some (Some p)) None None.

Abbreviation heap := (gmap Z rbtree_node) (only parsing).

(** The tree [t] under the parent [p]. *)
Fixpoint tree_in (h : heap) (nl p : addr) (t : tree) : Prop :=
  match t with
  | Leaf => True
  | Node c l n r => h !! i_addr n = Some (mem c (top nl l) (top nl r) p n) ∧ tree_in h nl (i_addr n) l ∧ tree_in h nl (i_addr n) r
  end.

(** The path from a place in the tree up to the root: at each node, the side the
    place is on and the subtree on the other side. *)
Record frame := Fr { f_side : side; f_color : rb_color; f_info : info; f_sibling : tree }.
Abbreviation path := (list frame) (only parsing).

Fixpoint plug (ctx : path) (t : tree) : tree :=
  match ctx with [] => t | Fr d c n s :: ctx => plug ctx (node d c t n s) end.

Definition path_infos (ctx : path) : list info := f ← ctx; f_info f :: inorder (f_sibling f).
Definition path_addrs (ctx : path) : list addr := i_addr <$> path_infos ctx.

Definition path_parent (nl : addr) (ctx : path) : addr := match ctx with [] => nl | f :: _ => i_addr (f_info f) end.
Fixpoint path_root (ctx : path) (a : addr) : addr := match ctx with [] => a | f :: ctx => path_root ctx (i_addr (f_info f)) end.

(** The path in memory, with [a] in its place. *)
Fixpoint path_in (h : heap) (nl : addr) (ctx : path) (a : addr) : Prop :=
  match ctx with
  | [] => True
  | Fr d c n s :: ctx =>
      h !! i_addr n = Some (side_mem d c a (top nl s) (path_parent nl ctx) n) ∧
      tree_in h nl (i_addr n) s ∧ path_in h nl ctx (i_addr n)
  end.

(** The heap holds the sentinel, the nodes [l] and the detached nodes [X], all at
    different places. *)
Definition footprint (h : heap) (nl : addr) (X : heap) (l : list addr) : Prop :=
  NoDup (nl :: l) ∧ X ⊆ h ∧ (∀ a, a ∈ nl :: l → X !! a = None) ∧
  dom h = list_to_set (nl :: l) ∪ dom X.

(** The tree [plug ctx t] is in memory; the parent field of the sentinel is [pn]. *)
Definition shape (nl pn : addr) (X : heap) (ctx : path) (t : tree) (i : kvs_rbtree_t) : Prop :=
  rb_root i = Some (path_root ctx (top nl t)) ∧ rb_nil i = Some nl ∧ rb_nodes i !! nl = Some (nil_mem nl pn) ∧
  tree_in (rb_nodes i) nl (path_parent nl ctx) t ∧ path_in (rb_nodes i) nl ctx (top nl t) ∧
  footprint (rb_nodes i) nl X (addrs t ++ path_addrs ctx).

(** ** Steps *)

Lemma step_field {X Y} (f : rbtree_node → option X) a n x (k : X → T Y) i Q :
  rb_nodes i !! a = Some n → f n = Some x → wp (k x) i Q → wp (field f (Some a) ≫= k) i Q.
Proof.
  intros Ha Hf Hk. eapply wp_eq; [|exact Hk]. unfold field, node_at, gets, mbind, M_bind. cbn. rewrite Ha. cbn. by rewrite Hf.
Qed.

Lemma step_node_at {Y} a n (k : rbtree_node → T Y) i Q :
  rb_nodes i !! a = Some n → wp (k n) i Q → wp (node_at (Some a) ≫= k) i Q.
Proof. intros Ha Hk. eapply wp_eq; [|exact Hk]. unfold node_at, gets, mbind, M_bind. cbn. by rewrite Ha. Qed.

Lemma step_update {Y} f a n (k : unit → T Y) i Q :
  rb_nodes i !! a = Some n → wp (k tt) (put_nodes (<[a := f n]> (rb_nodes i)) i) Q → wp (update f (Some a) ≫= k) i Q.
Proof.
  intros Ha Hk. eapply wp_eq; [|exact Hk]. unfold update, node_at, gets, modify, mbind, M_bind. cbn. by rewrite Ha.
Qed.

Lemma wp_update f a n i (Q : unit → kvs_rbtree_t → Prop) :
  rb_nodes i !! a = Some n → Q tt (put_nodes (<[a := f n]> (rb_nodes i)) i) → wp (update f (Some a)) i Q.
Proof. intros Ha Hq. unfold wp, update, node_at, gets, modify, mbind, M_bind. cbn. by rewrite Ha. Qed.

Lemma wp_field {X} (f : rbtree_node → option X) a n x i (Q : X → kvs_rbtree_t → Prop) :
  rb_nodes i !! a = Some n → f n = Some x → Q x i → wp (field f (Some a)) i Q.
Proof. intros Ha Hf Hq. unfold wp, field, node_at, gets, mbind, M_bind. cbn. rewrite Ha. cbn. by rewrite Hf. Qed.

Lemma step_is_nil {Y} (p : addr) nl (k : bool → T Y) i Q :
  rb_nil i = Some nl → wp (k (bool_decide (p = nl))) i Q → wp (is_nil (Some p) ≫= k) i Q.
Proof.
  intros Hn Hk. eapply wp_eq; [|exact Hk]. unfold is_nil, gets, mbind, M_bind. rewrite Hn. cbn. f_equal.
  apply bool_decide_ext. split; [by intros [= ->]|by intros ->].
Qed.

(** ** Footprints *)

Lemma footprint_perm h nl X l l' : l ≡ₚ l' → footprint h nl X l → footprint h nl X l'.
Proof.
  intros Hp (Hnd & Hx & Hd & Hdom). unfold footprint. split; [by rewrite <- Hp|]. split; [done|]. split.
  - intros a. rewrite <- Hp. apply Hd.
  - rewrite Hdom. by rewrite Hp.
Qed.

Lemma footprint_update h nl X l a n : a ∈ nl :: l → footprint h nl X l → footprint (<[a := n]> h) nl X l.
Proof.
  intros Ha (Hnd & Hx & Hd & Hdom). split; [done|]. split; [|split; [done|]].
  - apply insert_subseteq_r; [by apply Hd|done].
  - rewrite dom_insert_L, Hdom. set_solver.
Qed.

Lemma tree_in_ext h h' nl p t : (∀ a, a ∈ addrs t → h' !! a = h !! a) → tree_in h nl p t → tree_in h' nl p t.
Proof.
  revert p. induction t as [|c l IHl n r IHr]; intros p Hext; [done|]. cbn. unfold addrs in *. cbn in Hext.
  setoid_rewrite fmap_app in Hext. setoid_rewrite elem_of_app in Hext. rewrite fmap_cons in Hext. setoid_rewrite elem_of_cons in Hext.
  intros (Hn & Hl & Hr). split; [rewrite Hext; auto|]. split; [apply IHl|apply IHr]; auto.
Qed.

Lemma path_addrs_cons f ctx : path_addrs (f :: ctx) = i_addr (f_info f) :: addrs (f_sibling f) ++ path_addrs ctx.
Proof. unfold path_addrs, path_infos. cbn. by rewrite fmap_app. Qed.

Lemma path_in_ext h h' nl ctx a : (∀ b, b ∈ path_addrs ctx → h' !! b = h !! b) → path_in h nl ctx a → path_in h' nl ctx a.
Proof.
  revert a. induction ctx as [|[d c n s] ctx IH]; intros a Hext; [done|]. rewrite path_addrs_cons in Hext. cbn in *.
  setoid_rewrite elem_of_cons in Hext. setoid_rewrite elem_of_app in Hext.
  intros (Hn & Hs & Hc). split; [rewrite Hext; auto|]. split; [eapply tree_in_ext; [|exact Hs]; auto|apply IH; auto].
Qed.

Lemma addrs_node d c a n b : addrs (node d c a n b) ≡ₚ i_addr n :: addrs a ++ addrs b.
Proof. unfold addrs. destruct d; cbn; rewrite fmap_app, fmap_cons; solve_Permutation. Qed.

Lemma tree_in_node h nl p d c a n b : tree_in h nl p (node d c a n b) ↔
  h !! i_addr n = Some (side_mem d c (top nl a) (top nl b) p n) ∧ tree_in h nl (i_addr n) a ∧ tree_in h nl (i_addr n) b.
Proof. destruct d; cbn; tauto. Qed.

Lemma top_node nl d c a n b : top nl (node d c a n b) = i_addr n.
Proof. by destruct d. Qed.

(** Moving along the path. *)
Lemma shape_move nl pn X d c n s ctx t i :
  shape nl pn X (Fr d c n s :: ctx) t i ↔ shape nl pn X ctx (node d c t n s) i.
Proof.
  assert (addrs t ++ path_addrs (Fr d c n s :: ctx) ≡ₚ addrs (node d c t n s) ++ path_addrs ctx) as Hp.
  { rewrite path_addrs_cons, addrs_node. cbn. solve_Permutation. }
  unfold shape. rewrite tree_in_node, top_node. cbn [path_root path_parent path_in f_info].
  split; (intros (Hr & Hn & Hnl & Ht & Hc & Hf); split_and!; try done; try tauto; eapply footprint_perm; [|exact Hf]; by rewrite Hp).
Qed.

Lemma shape_plug nl pn X ctx t i : shape nl pn X ctx t i ↔ shape nl pn X [] (plug ctx t) i.
Proof. revert t. induction ctx as [|[d c n s] ctx IH]; intros t; [done|]. cbn [plug]. by rewrite shape_move. Qed.

Lemma shape_refocus nl pn X ctx t ctx' t' i : plug ctx t = plug ctx' t' → shape nl pn X ctx t i ↔ shape nl pn X ctx' t' i.
Proof. intros E. by rewrite shape_plug, E, <- shape_plug. Qed.

(** ** Single steps on nodes in memory *)

Lemma side_mem_opp d c a b p n : side_mem (opp d) c a b p n = side_mem d c b a p n.
Proof. by destruct d. Qed.
Lemma node_opp d c a n b : node (opp d) c a n b = node d c b n a.
Proof. by destruct d. Qed.
Lemma opp_opp d : opp (opp d) = d.
Proof. by destruct d. Qed.

Section steps.
Context {Y : Type} (a : addr) (d : side) (c : rb_color) (near far p : addr) (n : info) (i : kvs_rbtree_t)
  (Q : Y → kvs_rbtree_t → Prop).
Hypothesis Ha : rb_nodes i !! a = Some (side_mem d c near far p n).

Lemma step_near (k : ptr → T Y) : wp (k (Some near)) i Q → wp (child d (Some a) ≫= k) i Q.
Proof using Ha. intros Hk. destruct d; eapply step_field; done. Qed.
Lemma step_far (k : ptr → T Y) : wp (k (Some far)) i Q → wp (child (opp d) (Some a) ≫= k) i Q.
Proof using Ha. intros Hk. destruct d; eapply step_field; done. Qed.
Lemma step_parent (k : ptr → T Y) : wp (k (Some p)) i Q → wp (parent (Some a) ≫= k) i Q.
Proof using Ha. intros Hk. destruct d; eapply step_field; done. Qed.
Lemma step_color (k : rb_color → T Y) : wp (k c) i Q → wp (color (Some a) ≫= k) i Q.
Proof using Ha. intros Hk. destruct d; eapply step_field; done. Qed.
Lemma step_set_near q (k : unit → T Y) :
  wp (k tt) (put_nodes (<[a := side_mem d c q far p n]> (rb_nodes i)) i) Q → wp (set_child d (Some a) (Some q) ≫= k) i Q.
Proof using Ha. intros Hk. destruct d; eapply step_update; done. Qed.
Lemma step_set_far q (k : unit → T Y) :
  wp (k tt) (put_nodes (<[a := side_mem d c near q p n]> (rb_nodes i)) i) Q → wp (set_child (opp d) (Some a) (Some q) ≫= k) i Q.
Proof using Ha. intros Hk. destruct d; eapply step_update; done. Qed.
Lemma step_set_parent q (k : unit → T Y) :
  wp (k tt) (put_nodes (<[a := side_mem d c near far q n]> (rb_nodes i)) i) Q → wp (set_parent (Some a) (Some q) ≫= k) i Q.
Proof using Ha. intros Hk. destruct d; eapply step_update; done. Qed.
Lemma step_set_color q (k : unit → T Y) :
  wp (k tt) (put_nodes (<[a := side_mem d q near far p n]> (rb_nodes i)) i) Q → wp (set_color (Some a) q ≫= k) i Q.
Proof using Ha. intros Hk. destruct d; eapply step_update; done. Qed.
End steps.

(** ** Rotation *)

Lemma tree_in_reparent h h' nl p q t :
  tree_in h nl p t → NoDup (addrs t) → (∀ a, a ∈ addrs t → a ≠ top nl t → h' !! a = h !! a) →
  (∀ c l n r, t = Node c l n r → h' !! i_addr n = Some (mem c (top nl l) (top nl r) q n)) → tree_in h' nl q t.
Proof.
  destruct t as [|c l n r]; [done|]. intros (_ & Hl & Hr) Hnd Hext Hn. cbn. split; [by apply Hn|].
  change (Node c l n r) with (node Lft c l n r) in *. rewrite addrs_node in Hnd. apply NoDup_cons in Hnd as [Hni _].
  split; (eapply tree_in_ext; [|done]); intros a Ha; apply Hext; rewrite ?addrs_node, ?top_node; set_solver.
Qed.

Lemma path_in_rehole h h' nl ctx a a' :
  path_in h nl ctx a → NoDup (path_addrs ctx) → (∀ b, b ∈ path_addrs ctx → b ≠ path_parent nl ctx → h' !! b = h !! b) →
  (∀ d c n s ctx', ctx = Fr d c n s :: ctx' → h' !! i_addr n = Some (side_mem d c a' (top nl s) (path_parent nl ctx') n)) →
  path_in h' nl ctx a'.
Proof.
  destruct ctx as [|[d c n s] ctx]; [done|]. rewrite path_addrs_cons. intros (_ & Hs & Hc) Hnd Hext Hn.
  apply NoDup_cons in Hnd as [Hni _]. cbn in *. split; [by eapply Hn|].
  split; [eapply tree_in_ext; [|done]|eapply path_in_ext; [|done]]; intros b Hb; apply Hext; set_solver.
Qed.

Lemma parts_disjoint (nl x y : addr) la lb le lc : NoDup (nl :: x :: y :: la ++ lb ++ le ++ lc) →
  nl ≠ x ∧ nl ≠ y ∧ x ≠ y ∧ (nl ∉ lb ∧ nl ∉ lc) ∧
  (∀ z, z ∈ la → z ≠ x ∧ z ≠ y ∧ z ∉ lb ∧ z ∉ lc) ∧
  (∀ z, z ∈ lb → z ≠ x ∧ z ≠ y ∧ z ∉ lc) ∧
  (∀ z, z ∈ le → z ≠ x ∧ z ≠ y ∧ z ∉ lb ∧ z ∉ lc) ∧
  (∀ z, z ∈ lc → z ≠ x ∧ z ≠ y ∧ z ∉ lb) ∧ NoDup lb ∧ NoDup lc.
Proof.
  rewrite !NoDup_cons, !NoDup_app, !not_elem_of_cons, !not_elem_of_app.
  intros ((? & ? & ? & ? & ? & ?) & (? & ? & ? & ? & ?) & (? & ? & ? & ?) & ? & Hda & ? & Hdb & ? & Hde & ?).
  split_and!; try done; intros z Hz.
  - specialize (Hda z Hz). rewrite !not_elem_of_app in Hda. split_and!; (by intros ->) || tauto.
  - specialize (Hdb z Hz). rewrite !not_elem_of_app in Hdb. split_and!; (by intros ->) || tauto.
  - specialize (Hde z Hz). split_and!; try (by intros ->); [|done]. intros Hb. specialize (Hdb z Hb). rewrite not_elem_of_app in Hdb. tauto.
  - split_and!; try (by intros ->). intros Hb. specialize (Hdb z Hb). rewrite not_elem_of_app in Hdb. tauto.
Qed.

Lemma top_in nl t : t = Leaf ∨ top nl t ∈ addrs t.
Proof. destruct t as [|c l n r]; [by left|right]. change (Node c l n r) with (node Lft c l n r). rewrite addrs_node. by left. Qed.
Lemma path_parent_in nl ctx : ctx = [] ∨ path_parent nl ctx ∈ path_addrs ctx.
Proof. destruct ctx as [|f ctx]; [by left|right]. rewrite path_addrs_cons. by left. Qed.

(** What a rotation leaves, from the nodes it wrote. *)
Lemma rotate_done d ctx nl pn X c x a c' y b e i h' rt' :
  shape nl pn X ctx (node d c a x (node d c' b y e)) i →
  h' !! i_addr x = Some (side_mem d c (top nl a) (top nl b) (i_addr y) x) →
  h' !! i_addr y = Some (side_mem d c' (i_addr x) (top nl e) (path_parent nl ctx) y) →
  (∀ bc bl bn br, b = Node bc bl bn br → h' !! i_addr bn = Some (mem bc (top nl bl) (top nl br) (i_addr x) bn)) →
  (∀ d0 c0 n s ctx', ctx = Fr d0 c0 n s :: ctx' →
     h' !! i_addr n = Some (side_mem d0 c0 (i_addr y) (top nl s) (path_parent nl ctx') n)) →
  (∀ z, z ≠ i_addr x → z ≠ i_addr y → (z ≠ top nl b ∨ b = Leaf) → (z ≠ path_parent nl ctx ∨ ctx = []) → h' !! z = rb_nodes i !! z) →
  dom h' = dom (rb_nodes i) → rt' = Some (path_root ctx (i_addr y)) →
  shape nl pn X ctx (node d c' (node d c a x b) y e) (KvsRbtree rt' (Some nl) h').
Proof.
  intros (Hr & Hn & Hnl & Ht & Hc & Hf) Hx Hy Hb Hp Hext Hdom ->.
  assert (addrs (node d c a x (node d c' b y e)) ++ path_addrs ctx ≡ₚ
    i_addr x :: i_addr y :: addrs a ++ addrs b ++ addrs e ++ path_addrs ctx) as Hperm.
  { rewrite !addrs_node. cbn. solve_Permutation. }
  assert (addrs (node d c' (node d c a x b) y e) ++ path_addrs ctx ≡ₚ
    i_addr x :: i_addr y :: addrs a ++ addrs b ++ addrs e ++ path_addrs ctx) as Hperm'.
  { rewrite !addrs_node. cbn. solve_Permutation. }
  pose proof (footprint_perm _ _ _ _ _ Hperm Hf) as (Hnd & HX & HXd & Hd). clear Hperm Hf.
  rewrite tree_in_node in Ht. destruct Ht as (_ & Ha & Hyt). rewrite tree_in_node in Hyt. destruct Hyt as (_ & Hbt & He).
  pose proof (parts_disjoint _ _ _ _ _ _ _ Hnd) as (Hnx & Hny & _ & Hnp & Hpa & Hpb & Hpe & Hpc & Hndb & Hndc).
  assert (∀ z, z ≠ i_addr x → z ≠ i_addr y → z ∉ addrs b → z ∉ path_addrs ctx → h' !! z = rb_nodes i !! z) as Hout.
  { intros z ? ? Hzb Hzc. apply Hext; [done|done| |].
    - destruct (top_in nl b) as [->|Hin]; [by right|left]. by intros ->.
    - destruct (path_parent_in nl ctx) as [->|Hin]; [by right|left]. by intros ->. }
  unfold shape. cbn [rb_root rb_nil rb_nodes]. rewrite tree_in_node, tree_in_node, !top_node.
  split; [done|]. split; [done|]. split.
  { rewrite Hout; [done|done|done|apply Hnp|apply Hnp]. }
  split; [|split].
  - split; [done|]. split; [|eapply tree_in_ext; [|exact He]; intros z Hz; apply Hout; by apply Hpe].
    split; [done|]. split; [eapply tree_in_ext; [|exact Ha]; intros z Hz; apply Hout; by apply Hpa|].
    eapply tree_in_reparent; [exact Hbt|done| |done].
    intros z Hz Hne. apply Hext; [by apply Hpb|by apply Hpb|by left|].
    destruct (path_parent_in nl ctx) as [->|Hin]; [by right|left]. intros ->. by apply (Hpb _ Hz).
  - eapply path_in_rehole; [exact Hc|done| |done].
    intros z Hz Hne. apply Hext; [by apply Hpc|by apply Hpc| |by left].
    destruct (top_in nl b) as [->|Hin]; [by right|left]. intros ->. by apply (Hpc _ Hz).
  - eapply footprint_perm; [symmetry; exact Hperm'|]. split; [done|]. split; [|split; [done|by rewrite Hdom]].
    apply map_subseteq_spec. intros z v Hz.
    assert (∀ z', z' ∈ nl :: i_addr x :: i_addr y :: addrs a ++ addrs b ++ addrs e ++ path_addrs ctx → z ≠ z') as Hzn.
    { intros z' Hz' ->. by rewrite HXd in Hz. }
    rewrite Hout; [by eapply lookup_weaken|apply Hzn|apply Hzn| |].
    + rewrite !elem_of_cons. tauto.
    + rewrite !elem_of_cons. tauto.
    + intros Hin. eapply Hzn; [|done]. rewrite !elem_of_cons, !elem_of_app. tauto.
    + intros Hin. eapply Hzn; [|done]. rewrite !elem_of_cons, !elem_of_app. tauto.
Qed.

Lemma shape_node nl pn X ctx d c a n b i : shape nl pn X ctx (node d c a n b) i →
  rb_nodes i !! i_addr n = Some (side_mem d c (top nl a) (top nl b) (path_parent nl ctx) n).
Proof. intros (_ & _ & _ & Ht & _). rewrite tree_in_node in Ht. apply Ht. Qed.

Lemma shape_frame nl pn X d c n s ctx t i : shape nl pn X (Fr d c n s :: ctx) t i →
  rb_nodes i !! i_addr n = Some (side_mem d c (top nl t) (top nl s) (path_parent nl ctx) n).
Proof. rewrite shape_move. apply shape_node. Qed.

Lemma shape_NoDup nl pn X ctx t i : shape nl pn X ctx t i → NoDup (nl :: addrs t ++ path_addrs ctx).
Proof. intros (_ & _ & _ & _ & _ & Hnd & _). exact Hnd. Qed.

Ltac lk := cbn [rb_nodes put_nodes rb_root rb_nil]; repeat first [rewrite lookup_insert_eq | rewrite lookup_insert_ne by congruence]; try done; try eassumption.

Lemma with_parent_mem c l r p n q : with_parent (Some q) (mem c l r p n) = mem c l r q n.
Proof. done. Qed.

Lemma top_nil nl t : nl ∉ addrs t → bool_decide (top nl t = nl) = match t with Leaf => true | _ => false end.
Proof.
  destruct (top_in nl t) as [->|Hin]; [intros _; by rewrite bool_decide_eq_true_2|]. intros Hn.
  rewrite bool_decide_eq_false_2 by (by intros E; rewrite E in Hin). by destruct t; [apply elem_of_nil in Hin|].
Qed.

Lemma rotate_spec d ctx nl pn X c x a c' y b e i :
  shape nl pn X ctx (node d c a x (node d c' b y e)) i →
  wp (rotate d (Some (i_addr x))) i (λ _ i', shape nl pn X ctx (node d c' (node d c a x b) y e) i').
Proof.
  intros Hs. pose proof Hs as (Hr & Hn & Hnl & Ht & Hc & Hf).
  rewrite tree_in_node, top_node in Ht. destruct Ht as (Hx & Ha & Ht). rewrite tree_in_node in Ht. destruct Ht as (Hy & Hb & He).
  assert (NoDup (nl :: i_addr x :: i_addr y :: addrs a ++ addrs b ++ addrs e ++ path_addrs ctx)) as Hnd.
  { eapply (footprint_perm _ _ _ _ (i_addr x :: i_addr y :: addrs a ++ addrs b ++ addrs e ++ path_addrs ctx)), proj1 in Hf; [done|].
    rewrite !addrs_node. cbn. solve_Permutation. }
  pose proof (parts_disjoint _ _ _ _ _ _ _ Hnd) as (Hnx & Hny & Hxy & [Hnb Hnc] & Hpa & Hpb & Hpe & Hpc & Hndb & Hndc).
  unfold rotate.
  eapply step_far; [exact Hx|]. eapply step_near; [exact Hy|]. eapply step_set_far; [exact Hx|].
  eapply step_near; [lk|]. eapply step_is_nil; [done|]. rewrite top_nil by done.
  (* the subtree that changes sides *)
  set (i1 := put_nodes _ i).
  assert (∃ h1, wp (if negb match b with Leaf => true | _ => false end then yl ← child d (Some (i_addr y)); set_parent yl (Some (i_addr x)) else mret tt)
      i1 (λ _ i2, i2 = put_nodes h1 i) ∧
    (∀ z, z ∉ addrs b → h1 !! z = rb_nodes i1 !! z) ∧ dom h1 = dom (rb_nodes i) ∧
    (∀ z, z ≠ i_addr x → z ≠ top nl b ∨ b = Leaf → h1 !! z = rb_nodes i !! z) ∧
    (∀ bc bl bn br, b = Node bc bl bn br → h1 !! i_addr bn = Some (mem bc (top nl bl) (top nl br) (i_addr x) bn))) as (h1 & Hw1 & Hout1 & Hdom1 & Hext1 & Hb1).
  { assert (dom (rb_nodes i1) = dom (rb_nodes i)) as Hdom1 by (unfold i1; cbn; by apply dom_insert_lookup_L).
    assert (∀ z, z ≠ i_addr x → rb_nodes i1 !! z = rb_nodes i !! z) as Hi1 by (intros z Hz; unfold i1; cbn; by rewrite lookup_insert_ne).
    destruct b as [|bc bl bn br]; cbn [negb].
    - exists (rb_nodes i1). split; [by apply wp_ret|]. split; [done|]. split; [done|]. split; [by intros; apply Hi1|done].
    - destruct Hb as (Hbn & _). assert (i_addr bn ∈ addrs (Node bc bl bn br)) as Hin by (destruct (top_in nl (Node bc bl bn br)); done).
      pose proof (Hpb _ Hin) as (Hbx & Hby & _).
      exists (<[i_addr bn := mem bc (top nl bl) (top nl br) (i_addr x) bn]> (rb_nodes i1)).
      split; [eapply step_near; [unfold i1; lk|]; eapply wp_update; [rewrite Hi1 by done; exact Hbn|]; done|].
      cbn [top]. split; [intros z Hz; rewrite lookup_insert_ne; [done|]; intros E; apply Hz; by rewrite <- E|].
      split; [rewrite dom_insert_lookup_L; [done|rewrite Hi1 by done; by eexists]|].
      split; [intros z ? [?|?]; [|done]; rewrite lookup_insert_ne by done; by apply Hi1|].
      intros ???? [= <- <- <- <-]. by rewrite lookup_insert_eq. }
  eapply wp_step; [exact Hw1|]. intros _ i2 ->. clear Hw1.
  assert (h1 !! i_addr x = Some (side_mem d c (top nl a) (top nl b) (path_parent nl ctx) x)) as Hx1.
  { rewrite Hout1 by (intros Hin; by destruct (Hpb _ Hin) as (? & ? & _)). unfold i1. lk. }
  assert (h1 !! i_addr y = Some (side_mem d c' (top nl b) (top nl e) (i_addr x) y)) as Hy1.
  { rewrite Hout1 by (intros Hin; by destruct (Hpb _ Hin) as (? & ? & _)). unfold i1. lk. }
  eapply step_parent; [exact Hx1|]. eapply step_set_parent; [exact Hy1|]. cbn [rb_nodes put_nodes].
  eapply step_parent; [lk|]. eapply step_is_nil; [done|].
  destruct ctx as [|[d0 c0 n s] ctx]; cbn [path_parent f_info].
  - rewrite bool_decide_eq_true_2 by done. unfold set_root. eapply wp_eq; [reflexivity|]. cbv beta.
    cbn [rb_nodes put_nodes rb_nil rb_root].
    eapply step_set_near; [lk|]. apply wp_tail. eapply step_set_parent; [lk|]. apply wp_ret.
    unfold put_nodes. cbn [rb_nodes rb_nil rb_root]. rewrite Hn.
    eapply rotate_done; [exact Hs|lk|lk| |done| |lk|done].
    + intros bc bl bn br ->. assert (i_addr bn ∈ addrs (Node bc bl bn br)) as Hin by (destruct (top_in nl (Node bc bl bn br)); done).
      pose proof (Hpb _ Hin) as (Hbx & Hby & _). rewrite !lookup_insert_ne by done. by eapply Hb1.
    + intros z ? ? ? _. rewrite !lookup_insert_ne by done. by apply Hext1.
    + rewrite !dom_insert_L, Hdom1. assert (i_addr x ∈ dom (rb_nodes i) ∧ i_addr y ∈ dom (rb_nodes i)) as [? ?]
        by (split; apply elem_of_dom; by eexists). set_solver.
  - assert (i_addr n ∈ path_addrs (Fr d0 c0 n s :: ctx)) as Hin by (rewrite path_addrs_cons; by left).
    pose proof (Hpc _ Hin) as (Hpx & Hpy & Hpb'). destruct Hc as (Hp & _).
    assert (i_addr n ≠ nl) as Hpn by congruence. rewrite bool_decide_eq_false_2 by done.
    assert (h1 !! i_addr n = Some (side_mem d0 c0 (i_addr x) (top nl s) (path_parent nl ctx) n)) as Hp1.
    { rewrite Hout1 by done. unfold i1. lk. rewrite Hp. by rewrite top_node. }
    assert (i_addr x ≠ top nl s) as Hxs.
    { destruct (top_in nl s) as [->|Hs']; [cbn [top]; congruence|]. intros E. destruct (Hpc (i_addr x)) as [? _]; [|done]. rewrite path_addrs_cons, E. right.
      apply elem_of_app. by left. }
    eapply wp_step; [instantiate (1 := λ _ i', i' = put_nodes
      (<[i_addr n := side_mem d0 c0 (i_addr y) (top nl s) (path_parent nl ctx) n]> (<[i_addr y:=side_mem d c' (top nl b) (top nl e) (i_addr n) y]> h1)) i)|].
    { destruct (decide (d0 = d)) as [->|Hd].
      - eapply step_near; [lk|]. rewrite bool_decide_eq_true_2 by done. apply wp_tail. eapply step_set_near; [lk|]. by apply wp_ret.
      - assert (d0 = opp d) as -> by (by destruct d, d0). rewrite side_mem_opp in Hp1.
        eapply step_near; [lk|]. rewrite bool_decide_eq_false_2 by congruence.
        apply wp_tail. eapply step_set_far; [lk|]. apply wp_ret. by rewrite side_mem_opp. }
    intros _ i2 ->. cbn [rb_nodes put_nodes rb_nil rb_root].
    eapply step_set_near; [lk|]. apply wp_tail. eapply step_set_parent; [lk|]. apply wp_ret.
    unfold put_nodes. cbn [rb_nodes rb_nil rb_root]. rewrite Hn.
    eapply rotate_done; [exact Hs|lk|lk| | | | |].
    + intros bc bl bn br ->. assert (i_addr bn ∈ addrs (Node bc bl bn br)) as Hinb by (destruct (top_in nl (Node bc bl bn br)); done).
      pose proof (Hpb _ Hinb) as (Hbx & Hby & Hbp). rewrite !lookup_insert_ne by (congruence || (intros E; apply Hbp; by rewrite <- E)). by eapply Hb1.
    + intros ????? [= <- <- <- <- <-]. lk.
    + intros z ? ? ? [?|?]; [|done]. cbn in *. rewrite !lookup_insert_ne by congruence. by apply Hext1.
    + rewrite !dom_insert_L, Hdom1. assert (i_addr x ∈ dom (rb_nodes i) ∧ i_addr y ∈ dom (rb_nodes i) ∧ i_addr n ∈ dom (rb_nodes i)) as (? & ? & ?)
        by (split_and!; apply elem_of_dom; by eexists). set_solver.
    + rewrite Hr. cbn. done.
Qed.

(** ** Writing at the focus *)

(** New colour and data for the node in focus. *)
Lemma shape_set nl pn X ctx d c c' a n n' b i : shape nl pn X ctx (node d c a n b) i → i_addr n' = i_addr n →
  shape nl pn X ctx (node d c' a n' b)
    (put_nodes (<[i_addr n := side_mem d c' (top nl a) (top nl b) (path_parent nl ctx) n']> (rb_nodes i)) i).
Proof.
  intros Hs En. pose proof Hs as (Hr & Hn & Hnl & Ht & Hc & Hf). rewrite tree_in_node in Ht. destruct Ht as (Hx & Ha & Hb).
  assert (addrs (node d c' a n' b) ++ path_addrs ctx ≡ₚ addrs (node d c a n b) ++ path_addrs ctx) as Hp
    by (by rewrite !addrs_node, En).
  pose proof Hf as (Hnd & _). rewrite addrs_node in Hnd. cbn [app] in Hnd.
  rewrite !NoDup_cons, not_elem_of_cons, <- app_assoc, !not_elem_of_app in Hnd. destruct Hnd as ((? & ? & ? & ?) & (? & ? & ?) & _).
  unfold shape. cbn [put_nodes rb_root rb_nil rb_nodes]. rewrite tree_in_node, top_node, En. rewrite top_node in Hr, Hc.
  split; [done|]. split; [done|]. split; [by rewrite lookup_insert_ne by done|]. split; [|split].
  - rewrite lookup_insert_eq. split; [done|]. split; (eapply tree_in_ext; [|eassumption]); intros z Hz; rewrite lookup_insert_ne; set_solver.
  - eapply path_in_ext; [|exact Hc]. intros z Hz; rewrite lookup_insert_ne; set_solver.
  - eapply footprint_perm; [symmetry; exact Hp|]. apply footprint_update; [|done]. rewrite addrs_node. right. left.
Qed.

Lemma wp_set_color nl pn X ctx d c c' a n b i : shape nl pn X ctx (node d c a n b) i →
  wp (set_color (Some (i_addr n)) c') i (λ _ i', shape nl pn X ctx (node d c' a n b) i').
Proof.
  intros Hs. pose proof (shape_node _ _ _ _ _ _ _ _ _ _ Hs) as Hn. apply wp_tail. eapply step_set_color; [exact Hn|].
  apply wp_ret. by eapply shape_set.
Qed.

(** The colour of a subtree; the sentinel is black. *)
Definition tree_color (t : tree) : rb_color := match t with Leaf => BLACK | Node c _ _ _ => c end.

Lemma tree_color_node d c a n b : tree_color (node d c a n b) = c.
Proof. by destruct d. Qed.

Lemma step_color_top {Y} nl pn h p t i (k : rb_color → T Y) Q :
  rb_nodes i = h → h !! nl = Some (nil_mem nl pn) → tree_in h nl p t →
  wp (k (tree_color t)) i Q → wp (color (Some (top nl t)) ≫= k) i Q.
Proof. intros <- Hnl Ht Hk. destruct t as [|c l n r]; [|destruct Ht as (Hn & _)]; eapply step_field; done. Qed.

(** The colour of the sibling subtree and of the subtree in focus. *)
Lemma step_color_sibling {Y} nl pn X d c n s ctx t i (k : rb_color → T Y) Q :
  shape nl pn X (Fr d c n s :: ctx) t i → wp (k (tree_color s)) i Q → wp (color (Some (top nl s)) ≫= k) i Q.
Proof. intros (_ & _ & Hnl & _ & (_ & Hs & _) & _). by eapply step_color_top. Qed.
Lemma step_color_focus {Y} nl pn X ctx t i (k : rb_color → T Y) Q :
  shape nl pn X ctx t i → wp (k (tree_color t)) i Q → wp (color (Some (top nl t)) ≫= k) i Q.
Proof. intros (_ & _ & Hnl & Ht & _). by eapply step_color_top. Qed.

Lemma step_parent_focus {Y} nl pn X ctx t i (k : ptr → T Y) Q :
  shape nl pn X ctx t i → (t = Leaf → pn = path_parent nl ctx) → wp (k (Some (path_parent nl ctx))) i Q →
  wp (parent (Some (top nl t)) ≫= k) i Q.
Proof.
  intros (_ & _ & Hnl & Ht & _) Hp Hk. destruct t as [|c l n r]; [|destruct Ht as (Hn & _)]; eapply step_field; try done.
  cbn. by rewrite Hp.
Qed.

(** The sibling in focus instead. *)
Lemma shape_sibling nl pn X d c n s ctx t i :
  shape nl pn X (Fr d c n s :: ctx) t i ↔ shape nl pn X (Fr (opp d) c n t :: ctx) s i.
Proof. by rewrite !shape_move, node_opp. Qed.

(** ** Order *)

Fixpoint path_before (ctx : path) : list info :=
  match ctx with [] => [] | Fr d _ n s :: ctx => path_before ctx ++ (if d is Lft then [] else inorder s ++ [n]) end.
Fixpoint path_after (ctx : path) : list info :=
  match ctx with [] => [] | Fr d _ n s :: ctx => (if d is Lft then n :: inorder s else []) ++ path_after ctx end.

Lemma inorder_plug ctx t : inorder (plug ctx t) = path_before ctx ++ inorder t ++ path_after ctx.
Proof.
  revert t. induction ctx as [|[d c n s] ctx IH]; intros t; cbn [plug path_before path_after]; [by rewrite app_nil_r|].
  rewrite IH. destruct d; cbn [node inorder]; rewrite ?app_nil_r, <- ?app_assoc; cbn [app]; by rewrite <- ?app_assoc.
Qed.

(** ** Balance *)

(** No red node has a red child, and every path from the root down to a leaf has
    [k] black nodes. *)
Fixpoint rb (t : tree) (k : nat) : Prop :=
  match t with
  | Leaf => k = O
  | Node RED l _ r => tree_color l = BLACK ∧ tree_color r = BLACK ∧ rb l k ∧ rb r k
  | Node BLACK l _ r => match k with O => False | S k => rb l k ∧ rb r k end
  end.

Lemma rb_node_red d a n b k : rb (node d RED a n b) k ↔ tree_color a = BLACK ∧ tree_color b = BLACK ∧ rb a k ∧ rb b k.
Proof. destruct d; cbn; tauto. Qed.
Lemma rb_node_black d a n b k : rb (node d BLACK a n b) k ↔ ∃ j, k = S j ∧ rb a j ∧ rb b j.
Proof. destruct d, k; cbn; naive_solver. Qed.

(** The path completes a tree of colour [c] and black height [k] to a balanced tree
    with a black root. *)
Fixpoint rb_path (ctx : path) (c : rb_color) (k : nat) : Prop :=
  match ctx with
  | [] => c = BLACK
  | Fr _ RED _ s :: ctx => c = BLACK ∧ tree_color s = BLACK ∧ rb s k ∧ rb_path ctx RED k
  | Fr _ BLACK _ s :: ctx => rb s k ∧ rb_path ctx BLACK (S k)
  end.

Lemma rb_path_black ctx c k : rb_path ctx c k → rb_path ctx BLACK k.
Proof. destruct ctx as [|[d [] n s] ctx]; cbn; tauto. Qed.

(** The nodes on the longest way down. *)
Fixpoint height (t : tree) : nat :=
  match t with Leaf => O | Node _ l _ r => S (Nat.max (height l) (height r)) end.

Lemma height_size t : (height t <= List.length (inorder t))%nat.
Proof. induction t as [|c l IHl n r IHr]; [done|]. cbn. rewrite length_app. cbn. lia. Qed.

Definition balanced (t : tree) : Prop := tree_color t = BLACK ∧ ∃ k, rb t k.

Lemma rb_height t k : rb t k → (height t <= 2 * k + if tree_color t is RED then 1 else 0)%nat.
Proof.
  revert k. induction t as [|[] l IHl n r IHr]; intros k; cbn [rb tree_color height]; [lia| |].
  - intros (Hl & Hr & Hkl & Hkr). specialize (IHl k Hkl). specialize (IHr k Hkr). rewrite Hl in IHl. rewrite Hr in IHr. lia.
  - destruct k as [|k]; [done|]. intros [Hkl Hkr]. specialize (IHl k Hkl). specialize (IHr k Hkr).
    destruct (tree_color l), (tree_color r); lia.
Qed.

Lemma rb_size t k : rb t k → (2 ^ k <= S (List.length (inorder t)))%nat.
Proof.
  revert k. induction t as [|[] l IHl n r IHr]; intros k; cbn [rb inorder]; [by intros ->| |]; rewrite length_app; cbn [List.length].
  - intros (_ & _ & Hkl & _). specialize (IHl k Hkl). lia.
  - destruct k as [|k]; [done|]. intros [Hkl Hkr]. specialize (IHl k Hkl). specialize (IHr k Hkr). rewrite Nat.pow_succ_r'. lia.
Qed.

(** A balanced tree of [n] nodes is at most [2 log2 (n + 1)] high. *)
Lemma balanced_height t : balanced t → (height t <= 2 * Nat.log2 (S (List.length (inorder t))))%nat.
Proof.
  intros [Hc [k Hk]]. pose proof (rb_height t k Hk) as Hh. rewrite Hc in Hh.
  pose proof (rb_size t k Hk) as Hs. apply Nat.log2_le_mono in Hs. rewrite Nat.log2_pow2 in Hs by lia. lia.
Qed.

Lemma rb_plug ctx t k : rb t k → rb_path ctx (tree_color t) k → balanced (plug ctx t).
Proof.
  revert t k. induction ctx as [|[d [] n s] ctx IH]; intros t k Ht; cbn [rb_path plug].
  - intros Hc. split; [done|by exists k].
  - intros (Hc & Hsc & Hs & Hctx). apply (IH _ k); [by apply rb_node_red|by rewrite tree_color_node].
  - intros (Hs & Hctx). apply (IH _ (S k)); [apply rb_node_black; by exists k|by rewrite tree_color_node].
Qed.

Lemma rb_unplug ctx t : balanced (plug ctx t) → ∃ k, rb t k ∧ rb_path ctx (tree_color t) k.
Proof.
  revert t. induction ctx as [|[d c n s] ctx IH]; intros t; cbn [rb_path plug].
  - intros (Hc & k & Hk). by exists k.
  - intros Hb. destruct (IH _ Hb) as (k & Hk & Hc). rewrite tree_color_node in Hc. destruct c.
    + rewrite rb_node_red in Hk. destruct Hk as (? & ? & ? & ?). by exists k.
    + rewrite rb_node_black in Hk. destruct Hk as (j & -> & ? & ?). by exists j.
Qed.

(** * Insertion *)

(** One turn of the fix-up loop on the path above a red node. *)
Inductive insert_step : path → tree → path → tree → Prop :=
| step_red d d0 p s g ul un ur ctx t :
    insert_step (Fr d0 RED p s :: Fr d BLACK g (Node RED ul un ur) :: ctx) t
      ctx (node d RED (node d0 BLACK t p s) g (Node BLACK ul un ur))
| step_outer d p s g u ctx t :
    tree_color u = BLACK →
    insert_step (Fr d RED p s :: Fr d BLACK g u :: ctx) t (Fr d BLACK p (node d RED s g u) :: ctx) t
| step_inner d p s g u ctx t1 z t2 :
    tree_color u = BLACK →
    insert_step (Fr (opp d) RED p s :: Fr d BLACK g u :: ctx) (node d RED t1 z t2)
      (Fr d BLACK z (node d RED t2 g u) :: ctx) (node d RED s p t1).

Lemma insert_step_inorder ctx t ctx' t' : insert_step ctx t ctx' t' → inorder (plug ctx' t') = inorder (plug ctx t).
Proof.
  intros Hs. destruct Hs as [d d0 p s g ul un ur ctx t|d p s g u ctx t _|d p s g u ctx t1 z t2 _]; rewrite !inorder_plug.
  - destruct d, d0; cbn; by rewrite <- ?app_assoc; cbn; rewrite <- ?app_assoc.
  - destruct d; cbn; rewrite <- ?app_assoc; cbn; by rewrite ?app_nil_r, <- ?app_assoc.
  - destruct d; cbn; rewrite <- ?app_assoc; cbn; rewrite <- ?app_assoc; cbn; by rewrite ?app_nil_r.
Qed.

(** The path and the red node in focus: only the root may have to be blackened, or
    the node and its parent are both red. *)
Definition insert_inv (ctx : path) (t : tree) : Prop :=
  tree_color t = RED ∧ ∃ k, rb t k ∧ rb_path ctx BLACK k.

Lemma insert_step_inv ctx t ctx' t' : insert_step ctx t ctx' t' → insert_inv ctx t → insert_inv ctx' t'.
Proof.
  intros Hs (Hc & k & Ht & Hp). destruct Hs as [d d0 p s g ul un ur ctx t|d p s g u ctx t Hu|d p s g u ctx t1 z t2 Hu];
    cbn [rb_path] in Hp; destruct Hp as (_ & Hsc & Hs & Hgu & Hctx).
  - split; [by rewrite tree_color_node|]. exists (S k). split; [|done]. cbn in Hgu. destruct Hgu as (? & ? & ? & ?).
    apply rb_node_red. rewrite tree_color_node. split; [done|]. split; [done|]. split; [apply rb_node_black; by exists k|done].
  - split; [done|]. exists k. split; [done|]. cbn [rb_path]. split; [by apply rb_node_red|done].
  - rewrite rb_node_red in Ht. destruct Ht as (? & ? & ? & ?). split; [by rewrite tree_color_node|]. exists k.
    split; [by apply rb_node_red|]. cbn [rb_path]. split; [by apply rb_node_red|done].
Qed.

Lemma insert_step_shorter ctx t ctx' t' : insert_step ctx t ctx' t' → (List.length ctx' < List.length ctx)%nat.
Proof. intros []; cbn; lia. Qed.

(** Where the parent is red there is a black grandparent. *)
Lemma insert_inv_grandparent d0 p s ctx t : insert_inv (Fr d0 RED p s :: ctx) t →
  ∃ d g u ctx', ctx = Fr d BLACK g u :: ctx'.
Proof.
  intros (_ & k & _ & _ & _ & _ & Hctx). destruct ctx as [|[d c g u] ctx]; [done|].
  destruct c; [|by exists d, g, u, ctx]. by destruct Hctx.
Qed.

Lemma step_grandparent {Y} nl pn X d0 c0 p s ctx t i (k : ptr → T Y) Q :
  shape nl pn X (Fr d0 c0 p s :: ctx) t i → t ≠ Leaf → wp (k (Some (path_parent nl ctx))) i Q →
  wp (grandparent (Some (top nl t)) ≫= k) i Q.
Proof.
  intros Hs Hne Hk. unfold grandparent. apply wp_bind_assoc. eapply step_parent_focus; [exact Hs|by intros ->|].
  cbn [path_parent f_info]. eapply step_parent; [by eapply shape_frame|done].
Qed.

Lemma tree_side d t : t ≠ Leaf → ∃ c a n b, t = node d c a n b.
Proof. destruct t as [|c l n r]; [done|]. intros _. destruct d; [by exists c, l, n, r|by exists c, r, n, l]. Qed.

(** The two subtrees of a node are at different places. *)
Lemma shape_apart nl pn X d c n s ctx t i : shape nl pn X (Fr d c n s :: ctx) t i → t ≠ Leaf → top nl t ≠ top nl s.
Proof.
  intros (_ & _ & _ & _ & _ & Hnd & _) Hne. rewrite path_addrs_cons in Hnd. apply NoDup_cons in Hnd as [Hnl Hnd].
  destruct (top_in nl t) as [?|Ht]; [done|]. destruct (top_in nl s) as [->|Hs]; cbn [top].
  - intros E. apply Hnl. rewrite <- E. apply elem_of_app. by left.
  - intros E. apply NoDup_app in Hnd as (_ & Hd & _). apply (Hd _ Ht). rewrite E. right. apply elem_of_app. by left.
Qed.

(** [p->color = c] for the parent [p]. *)
Lemma set_color_parent {nl pn X d c} c' {n s ctx t i} : shape nl pn X (Fr d c n s :: ctx) t i →
  wp (set_color (Some (i_addr n)) c') i (λ _ i', shape nl pn X (Fr d c' n s :: ctx) t i').
Proof. setoid_rewrite shape_move. apply wp_set_color. Qed.

Lemma set_color_grandparent {nl pn X d0 c0 p s d c} c' {n u ctx t i} : shape nl pn X (Fr d0 c0 p s :: Fr d c n u :: ctx) t i →
  wp (set_color (Some (i_addr n)) c') i (λ _ i', shape nl pn X (Fr d0 c0 p s :: Fr d c' n u :: ctx) t i').
Proof. setoid_rewrite (shape_move _ _ _ d0). apply set_color_parent. Qed.

Lemma set_color_uncle {nl pn X d0 c0 p s d c n} d' {cu} c' {u1 u u2 ctx t i} :
  shape nl pn X (Fr d0 c0 p s :: Fr d c n (node d' cu u1 u u2) :: ctx) t i →
  wp (set_color (Some (i_addr u)) c') i (λ _ i', shape nl pn X (Fr d0 c0 p s :: Fr d c n (node d' c' u1 u u2) :: ctx) t i').
Proof. setoid_rewrite (shape_move _ _ _ d0). setoid_rewrite shape_sibling. apply wp_set_color. Qed.

(** The body of the loop, on the side of the parent. *)
Lemma insert_side_spec nl pn X d0 p s d g u ctx t i :
  shape nl pn X (Fr d0 RED p s :: Fr d BLACK g u :: ctx) t i → t ≠ Leaf → tree_color t = RED →
  wp (insert_side d (Some (top nl t))) i (λ z' i', ∃ ctx' t', insert_step (Fr d0 RED p s :: Fr d BLACK g u :: ctx) t ctx' t' ∧
    z' = Some (top nl t') ∧ shape nl pn X ctx' t' i').
Proof.
  intros Hs Hne Hred. unfold insert_side.
  eapply step_grandparent; [exact Hs|done|]. cbn [path_parent f_info].
  pose proof (proj1 (shape_move _ _ _ _ _ _ _ _ _ _) Hs) as Hs1.
  eapply step_far; [by eapply shape_frame|].
  eapply step_color_sibling; [exact Hs1|].
  destruct (tree_color u) eqn:Hu.
  - destruct u as [|cu ul un ur]; [done|]. cbn in Hu. subst cu. rewrite bool_decide_eq_true_2 by done.
    eapply step_parent_focus; [exact Hs|by intros ->|]. cbn [path_parent f_info].
    eapply wp_step; [exact (set_color_parent BLACK Hs)|]. intros [] i2 Hs2. cbn [top].
    eapply wp_step; [exact (set_color_uncle Lft BLACK Hs2)|]. intros [] i3 Hs3.
    eapply step_grandparent; [exact Hs3|done|]. cbn [path_parent f_info].
    eapply wp_step; [exact (set_color_grandparent RED Hs3)|]. intros [] i4 Hs4.
    apply wp_tail. eapply step_grandparent; [exact Hs4|done|]. apply wp_ret. cbn [path_parent f_info].
    eexists _, _. split; [apply step_red|]. rewrite top_node. split; [done|]. by rewrite <- !shape_move.
  - rewrite bool_decide_eq_false_2 by done.
    eapply step_parent_focus; [exact Hs|by intros ->|]. cbn [path_parent f_info].
    (* the nodes as they are after the first rotation, if there is one *)
    assert (∃ d1 p1 s1 t1, wp (r ← child (opp d) (Some (i_addr p));
        if bool_decide (Some (top nl t) = r) then z ← parent (Some (top nl t)); rotate d z;; mret z else mret (Some (top nl t))) i
      (λ z' i', z' = Some (top nl t1) ∧ shape nl pn X (Fr d RED p1 s1 :: Fr d BLACK g u :: ctx) t1 i') ∧ t1 ≠ Leaf ∧ d1 = d ∧
      insert_step (Fr d0 RED p s :: Fr d BLACK g u :: ctx) t (Fr d BLACK p1 (node d RED s1 g u) :: ctx) t1) as (d1 & p1 & s1 & t1 & Hw & Hne1 & -> & Hstep).
    { destruct (decide (d0 = d)) as [->|Hd].
      - exists d, p, s, t. split; [|by split_and!; [| |apply step_outer]].
        eapply step_far; [by eapply shape_frame|]. rewrite bool_decide_eq_false_2; [by apply wp_ret|].
        intros [= E]. by apply (shape_apart _ _ _ _ _ _ _ _ _ _ Hs).
      - assert (d0 = opp d) as -> by (by destruct d, d0). destruct (tree_side d t Hne) as (ct & t1 & z & t2 & ->).
        rewrite tree_color_node in Hred. subst ct.
        exists d, z, t2, (node d RED s p t1). split; [|by split_and!; [destruct d| |apply step_inner]].
        eapply step_near; [by eapply shape_frame|]. rewrite bool_decide_eq_true_2 by done.
        eapply step_parent_focus; [exact Hs|by destruct d|]. cbn [path_parent f_info].
        rewrite shape_move, node_opp in Hs. eapply wp_step; [by apply rotate_spec|].
        intros [] i2 Hs2. apply wp_ret. rewrite top_node. split; [done|]. by rewrite shape_move. }
    eapply wp_step2; [exact Hw|]. intros z' i2 [-> Hs2].
    eapply step_parent_focus; [exact Hs2|by intros ->|]. cbn [path_parent f_info].
    eapply wp_step; [exact (set_color_parent BLACK Hs2)|]. intros [] i3 Hs3.
    eapply step_grandparent; [exact Hs3|done|]. cbn [path_parent f_info].
    eapply wp_step; [exact (set_color_grandparent RED Hs3)|]. intros [] i4 Hs4.
    eapply step_grandparent; [exact Hs4|done|]. cbn [path_parent f_info].
    rewrite !shape_move in Hs4. rewrite <- (node_opp d), <- (node_opp d BLACK) in Hs4.
    eapply wp_step; [by apply rotate_spec|]. intros [] i5 Hs5. apply wp_ret.
    eexists _, _. split; [exact Hstep|]. split; [done|]. rewrite shape_move.
    by rewrite !node_opp in Hs5.
Qed.

Lemma insert_body_spec nl pn X d0 p s ctx t i :
  shape nl pn X (Fr d0 RED p s :: ctx) t i → insert_inv (Fr d0 RED p s :: ctx) t →
  wp (insert_fixup_body (Some (top nl t))) i (λ z' i', ∃ ctx' t', insert_step (Fr d0 RED p s :: ctx) t ctx' t' ∧
    z' = Some (top nl t') ∧ shape nl pn X ctx' t' i').
Proof.
  intros Hs Hinv. destruct (insert_inv_grandparent _ _ _ _ _ Hinv) as (d & g & u & ctx' & ->).
  destruct Hinv as [Hred _]. assert (t ≠ Leaf) as Hne by (by intros ->).
  rewrite insert_sides. eapply step_parent_focus; [exact Hs|by intros ->|]. cbn [path_parent f_info].
  eapply step_grandparent; [exact Hs|done|]. cbn [path_parent f_info].
  pose proof Hs as Hs1. rewrite shape_move in Hs1. pose proof (shape_frame _ _ _ _ _ _ _ _ _ _ Hs1) as Hg. rewrite top_node in Hg.
  destruct d.
  - eapply (step_near _ Lft); [exact Hg|]. rewrite bool_decide_eq_true_2 by done. by apply insert_side_spec.
  - eapply (step_far _ Rgt); [exact Hg|]. rewrite bool_decide_eq_false_2; [by apply insert_side_spec|].
    intros [= E]. apply shape_apart in Hs1; [|by destruct d0]. by rewrite top_node in Hs1.
Qed.

(** ** Bounds *)

Lemma footprint_size h nl X l : footprint h nl X l → (List.length l < size h)%nat.
Proof.
  intros (Hnd & _ & _ & Hdom). rewrite <- (size_dom (D := gset Z)), Hdom.
  assert (size (list_to_set (nl :: l) : gset Z) = S (List.length l)) as Hs by (by rewrite size_list_to_set).
  assert (size (list_to_set (nl :: l) : gset Z) <= size (list_to_set (nl :: l) ∪ dom X : gset Z))%nat
    by (apply subseteq_size, union_subseteq_l). lia.
Qed.

Lemma path_addrs_length ctx : (List.length ctx <= List.length (path_addrs ctx))%nat.
Proof. induction ctx as [|f ctx IH]; [done|]. rewrite path_addrs_cons. cbn. rewrite length_app. lia. Qed.

Lemma shape_bound {Y} nl pn X ctx t i (k : nat → T Y) Q : shape nl pn X ctx t i →
  (∀ n, (List.length ctx + List.length (inorder t) < n)%nat → wp (k n) i Q) → wp (bound ≫= k) i Q.
Proof.
  intros (_ & _ & _ & _ & _ & Hf) Hk. eapply wp_eq; [reflexivity|]. cbv beta. apply Hk.
  apply footprint_size in Hf. rewrite length_app in Hf. pose proof (path_addrs_length ctx).
  unfold addrs in Hf. rewrite length_fmap in Hf. lia.
Qed.

(** ** The loop *)

Definition head_black (ctx : path) : Prop := match ctx with Fr _ RED _ _ :: _ => False | _ => True end.

Lemma step_color_parent {Y} nl pn X ctx t i (k : rb_color → T Y) Q : shape nl pn X ctx t i →
  wp (k (match ctx with [] => BLACK | f :: _ => f_color f end)) i Q → wp (color (Some (path_parent nl ctx)) ≫= k) i Q.
Proof.
  intros Hs Hk. destruct ctx as [|[d c n s] ctx].
  - destruct Hs as (_ & _ & Hnl & _). by eapply step_field.
  - eapply step_color; [by eapply shape_frame|done].
Qed.

Lemma insert_loop_spec nl pn X fuel ctx t i :
  shape nl pn X ctx t i → insert_inv ctx t → (List.length ctx <= fuel)%nat →
  wp (insert_fixup_loop fuel (Some (top nl t))) i (λ _ i', ∃ ctx' t',
    inorder (plug ctx' t') = inorder (plug ctx t) ∧ shape nl pn X ctx' t' i' ∧ insert_inv ctx' t' ∧ head_black ctx').
Proof.
  revert ctx t i. induction fuel as [|fuel IH]; intros ctx t i Hs Hinv Hf; cbn [insert_fixup_loop].
  all: assert (t ≠ Leaf) as Hne by (intros ->; by destruct Hinv).
  all: eapply step_parent_focus; [exact Hs|by intros ->|]; eapply step_color_parent; [exact Hs|].
  all: destruct ctx as [|[d [] p s] ctx]; cbn [f_color].
  all: try (rewrite bool_decide_eq_false_2 by done; apply wp_ret; by eexists _, _).
  - cbn in Hf. lia.
  - rewrite bool_decide_eq_true_2 by done. cbn [negb].
    eapply wp_step; [by apply insert_body_spec|]. intros z' i' (ctx' & t' & Hst & -> & Hs').
    eapply wp_mono; [apply IH; [exact Hs'|by eapply insert_step_inv|apply insert_step_shorter in Hst; cbn in *; lia]|].
    intros [] i2 (ctx2 & t2 & E & ?). exists ctx2, t2. split; [|done]. rewrite E. by apply insert_step_inorder.
Qed.

Definition blacken (t : tree) : tree := match t with Leaf => Leaf | Node _ l n r => Node BLACK l n r end.

Lemma inorder_blacken t : inorder (blacken t) = inorder t.
Proof. by destruct t. Qed.

Lemma blacken_focus nl pn X ctx t i : shape nl pn X ctx t i →
  wp (set_color (Some (top nl t)) BLACK) i (λ _ i', shape nl pn X ctx (blacken t) i').
Proof.
  intros Hs. destruct t as [|c l n r].
  - pose proof Hs as (_ & _ & Hnl & _). eapply wp_update; [exact Hnl|]. cbn [top] in *.
    change (with_color BLACK (nil_mem nl pn)) with (nil_mem nl pn). rewrite insert_id by done. destruct i. exact Hs.
  - apply (wp_set_color nl pn X ctx Lft c BLACK l n r i Hs).
Qed.

Lemma balanced_black t k : rb t k → tree_color t = BLACK → balanced t.
Proof. split; [done|by exists k]. Qed.

Lemma insert_inv_done ctx t : insert_inv ctx t → head_black ctx → balanced (blacken (plug ctx t)).
Proof.
  intros (Hc & k & Ht & Hp) Hh. destruct ctx as [|[d [] n s] ctx]; [|done|].
  - cbn [plug]. destruct t as [|c l n r]; [done|]. cbn in Hc. subst c. cbn in Ht.
    apply (balanced_black _ (S k)); [|done]. cbn. tauto.
  - pose proof (rb_plug (Fr d BLACK n s :: ctx) t k Ht Hp) as [Hb Hk]. destruct (plug _ t) as [|c l m r]; [done|]. cbn in Hb. by subst c.
Qed.

Lemma insert_fixup_spec nl pn X ctx t i : shape nl pn X ctx t i → insert_inv ctx t →
  wp (rbtree_insert_fixup (Some (top nl t))) i (λ _ i', ∃ t',
    inorder t' = inorder (plug ctx t) ∧ balanced t' ∧ shape nl pn X [] t' i').
Proof.
  intros Hs Hinv. unfold rbtree_insert_fixup. eapply shape_bound; [exact Hs|]. intros n Hn.
  eapply wp_step; [apply insert_loop_spec; [done|done|lia]|]. intros [] i' (ctx' & t' & E & Hs' & Hinv' & Hh).
  rewrite shape_plug in Hs'. pose proof Hs' as (Hr & _). eapply wp_eq; [reflexivity|]. cbv beta. rewrite Hr. cbn [path_root].
  eapply wp_mono; [by apply blacken_focus|]. intros [] i2 Hs2. exists (blacken (plug ctx' t')).
  split; [by rewrite inorder_blacken|]. split; [by apply insert_inv_done|done].
Qed.

(** ** Searching *)

Definition key_str (n : info) : bytes := cs_str (i_key n).
Definition sorted (l : list info) : Prop := StronglySorted str_lt (key_str <$> l).

(** The place of the key [k]: smaller keys before it, greater ones after it, and the
    key itself in focus or nothing. *)
Definition position (k : bytes) (ctx : path) (t : tree) : Prop :=
  Forall (λ n, str_lt (key_str n) k) (path_before ctx) ∧ Forall (λ n, str_lt k (key_str n)) (path_after ctx) ∧
  match t with Leaf => True | Node _ _ n _ => key_str n = k end.

Lemma sorted_app l1 l2 : sorted (l1 ++ l2) → sorted l1 ∧ sorted l2.
Proof.
  unfold sorted. rewrite fmap_app. intros Hs. split; [by eapply StronglySorted_app_1_l|by eapply StronglySorted_app_1_r].
Qed.

Lemma sorted_lt l1 l2 m n : sorted (l1 ++ l2) → m ∈ l1 → n ∈ l2 → str_lt (key_str m) (key_str n).
Proof.
  unfold sorted. rewrite fmap_app. intros Hs Hm Hn.
  eapply StronglySorted_app_1_elem_of; [exact Hs| |]; by apply list_elem_of_fmap_2.
Qed.

Lemma sorted_before l1 n l2 k : sorted (l1 ++ n :: l2) → str_lt (key_str n) k → Forall (λ m, str_lt (key_str m) k) (l1 ++ [n]).
Proof.
  intros Hs Hn. apply Forall_app. split; [|by constructor]. apply Forall_forall. intros m Hm. etrans; [|exact Hn].
  eapply sorted_lt; [exact Hs|done|by left].
Qed.

Lemma sorted_after l1 n l2 k : sorted (l1 ++ n :: l2) → str_lt k (key_str n) → Forall (λ m, str_lt k (key_str m)) (n :: l2).
Proof.
  intros Hs Hn. constructor; [done|]. apply Forall_forall. intros m Hm. etrans; [exact Hn|].
  rewrite (cons_middle n l1 l2), app_assoc in Hs. eapply sorted_lt; [exact Hs| |done]. apply elem_of_app. right. by left.
Qed.

(** Descending one level. *)
Definition open_position (k : bytes) (ctx : path) (t : tree) : Prop :=
  Forall (λ n, str_lt (key_str n) k) (path_before ctx) ∧ Forall (λ n, str_lt k (key_str n)) (path_after ctx) ∧ sorted (inorder t).

Lemma position_left k ctx c l n r : open_position k ctx (Node c l n r) → strcmp k (key_str n) = Lt → open_position k (Fr Lft c n r :: ctx) l.
Proof.
  intros (Hb & Ha & Hs) Hlt. split; [cbn; by rewrite app_nil_r|]. cbn in Hs. split; [|by destruct (sorted_app _ _ Hs)].
  cbn [path_after]. apply Forall_app. split; [by eapply sorted_after|done].
Qed.
Lemma position_right k ctx c l n r : open_position k ctx (Node c l n r) → strcmp k (key_str n) = Gt → open_position k (Fr Rgt c n l :: ctx) r.
Proof.
  intros (Hb & Ha & Hs) Hgt. assert (str_lt (key_str n) k) as Hlt by (unfold str_lt; by rewrite strcmp_antisym, Hgt).
  cbn in Hs. split; [cbn [path_before]; apply Forall_app; split; [done|by eapply sorted_before]|]. split; [done|].
  rewrite (cons_middle n), app_assoc in Hs. by destruct (sorted_app _ _ Hs).
Qed.

Lemma step_top_nil {Y} nl pn X ctx t i (k : bool → T Y) Q : shape nl pn X ctx t i →
  wp (k (match t with Leaf => true | _ => false end)) i Q → wp (is_nil (Some (top nl t)) ≫= k) i Q.
Proof.
  intros (_ & Hn & _ & _ & _ & Hnd & _) Hk. eapply step_is_nil; [exact Hn|]. rewrite top_nil; [done|].
  apply NoDup_cons in Hnd as [Hnl _]. intros Hin. apply Hnl, elem_of_app. by left.
Qed.

Lemma step_key {Y} nl pn X ctx c l n r i (k : cstr → T Y) Q : shape nl pn X ctx (Node c l n r) i →
  wp (k (i_key n)) i Q → wp (key_of (Some (i_addr n)) ≫= k) i Q.
Proof. intros (_ & _ & _ & (Hn & _) & _) Hk. by eapply step_field. Qed.

Lemma search_loop_spec nl pn X fuel k ctx t i :
  shape nl pn X ctx t i → open_position k ctx t → (height t <= fuel)%nat →
  wp (search_loop fuel k (Some (top nl t))) i (λ r i', i' = i ∧ ∃ ctx' t', plug ctx' t' = plug ctx t ∧
    r = Some (top nl t') ∧ position k ctx' t').
Proof.
  revert ctx t. induction fuel as [|fuel IH]; intros ctx t Hs Hpos Hf; cbn [search_loop].
  all: eapply step_top_nil; [exact Hs|]; destruct t as [|c l n r]; [|cbn in Hf; try lia].
  1, 2: pose proof Hs as (_ & Hn & _); unfold wp; cbn; split; [done|]; exists ctx, Leaf; rewrite Hn; split; [done|]; split; [done|];
    destruct Hpos as (? & ? & _); by split_and!.
  - cbn [top]. eapply step_key; [exact Hs|].
    fold (key_str n). destruct (strcmp k (key_str n)) eqn:E.
    + apply wp_ret. split; [done|]. exists ctx, (Node c l n r). split; [done|]. split; [done|].
      destruct Hpos as (? & ? & _). split; [done|]. split; [done|]. symmetry. by apply strcmp_eq.
    + eapply (step_near _ Lft); [by apply (shape_node nl pn X ctx Lft c l n r)|].
      eapply (IH (Fr Lft c n r :: ctx)); [by apply (shape_move nl pn X Lft c n r)|by eapply position_left|lia].
    + eapply (step_near _ Rgt); [by apply (shape_node nl pn X ctx Rgt c r n l)|].
      eapply (IH (Fr Rgt c n l :: ctx)); [by apply (shape_move nl pn X Rgt c n l)|by eapply position_right|lia].
Qed.

Lemma rb_search_spec nl pn X k t i : shape nl pn X [] t i → sorted (inorder t) →
  wp (rbtree_search k) i (λ r i', i' = i ∧ ∃ ctx' t', plug ctx' t' = t ∧ r = Some (top nl t') ∧ position k ctx' t').
Proof.
  intros Hs Hsort. unfold rbtree_search. pose proof Hs as (Hr & _). eapply wp_eq; [reflexivity|]. cbv beta.
  eapply shape_bound; [exact Hs|]. intros n Hn. rewrite Hr. cbn [path_root].
  eapply wp_mono; [apply (search_loop_spec nl pn X n k [] t); [done|by split_and!|pose proof (height_size t); cbn in Hn; lia]|]. done.
Qed.

Lemma insert_search_spec nl pn X fuel z nz kc k ctx t i :
  shape nl pn X ctx t i → X !! z = Some nz → node_key nz = Some kc → cs_str kc = k →
  open_position k ctx t → (List.length (inorder t) < fuel)%nat →
  wp (insert_search fuel (Some z) (Some (path_parent nl ctx)) (Some (top nl t))) i (λ r i', i' = i ∧
    ∃ ctx' t', plug ctx' t' = plug ctx t ∧ position k ctx' t' ∧
      r = match t' with Leaf => Some (Some (path_parent nl ctx')) | _ => None end).
Proof.
  intros Hs Hz Hk Hkc. revert ctx t Hs. induction fuel as [|fuel IH]; intros ctx t Hs Hpos Hf; [lia|]. cbn [insert_search].
  eapply step_top_nil; [exact Hs|]. destruct t as [|c l n r].
  - apply wp_ret. split; [done|]. exists ctx, Leaf. split; [done|]. destruct Hpos as (? & ? & _). by split_and!.
  - cbn [top]. assert (rb_nodes i !! z = Some nz) as Hz'.
    { destruct Hs as (_ & _ & _ & _ & _ & _ & HX & _). by eapply lookup_weaken. }
    eapply step_field; [exact Hz'|exact Hk|]. rewrite Hkc.
    eapply step_key; [exact Hs|]. cbn [inorder] in Hf. rewrite length_app in Hf. cbn [List.length] in Hf.
    fold (key_str n). destruct (strcmp k (key_str n)) eqn:E.
    + apply wp_ret. split; [done|]. exists ctx, (Node c l n r). split; [done|]. split; [|done].
      destruct Hpos as (? & ? & _). split; [done|]. split; [done|]. symmetry. by apply strcmp_eq.
    + eapply (step_near _ Lft); [by apply (shape_node nl pn X ctx Lft c l n r)|].
      eapply (IH (Fr Lft c n r :: ctx)); [by apply (shape_move nl pn X Lft c n r)|by eapply position_left|lia].
    + eapply (step_near _ Rgt); [by apply (shape_node nl pn X ctx Rgt c r n l)|].
      eapply (IH (Fr Rgt c n l :: ctx)); [by apply (shape_move nl pn X Rgt c n l)|by eapply position_right|lia].
Qed.

(** ** Linking a new node *)

Lemma position_side k d c n s ctx : position k (Fr d c n s :: ctx) Leaf →
  strcmp k (key_str n) = match d with Lft => Lt | Rgt => Gt end.
Proof.
  intros (Hb & Ha & _). destruct d; cbn in Hb, Ha.
  - by apply Forall_cons in Ha as [? _].
  - rewrite Forall_app, Forall_app in Hb. destruct Hb as (_ & _ & Hb). apply Forall_cons in Hb as [Hb _].
    unfold str_lt in Hb. by rewrite strcmp_antisym, Hb.
Qed.

(** The heap once [z] hangs red in the place of a leaf. *)
Lemma shape_link nl pn z nz n ctx i h' rt' :
  shape nl pn {[z := nz]} ctx Leaf i → i_addr n = z →
  h' !! z = Some (mem RED nl nl (path_parent nl ctx) n) →
  (∀ d c m s ctx', ctx = Fr d c m s :: ctx' → h' !! i_addr m = Some (side_mem d c z (top nl s) (path_parent nl ctx') m)) →
  (∀ a, a ≠ z → (a ≠ path_parent nl ctx ∨ ctx = []) → h' !! a = rb_nodes i !! a) →
  dom h' = dom (rb_nodes i) → rt' = Some (path_root ctx z) →
  shape nl pn ∅ ctx (Node RED Leaf n Leaf) (KvsRbtree rt' (Some nl) h').
Proof.
  intros (Hr & Hn & Hnl & _ & Hc & Hnd & HX & Hd & Hdom) <- Hz Hp Hext Hdom' ->. cbn [app addrs inorder fmap list_fmap] in *.
  assert (∀ a, a ∈ nl :: path_addrs ctx → a ≠ i_addr n) as Hne.
  { intros a Ha ->. apply Hd in Ha. by rewrite lookup_singleton_eq in Ha. }
  apply NoDup_cons in Hnd as [Hnlc Hnd].
  assert (nl ≠ path_parent nl ctx ∨ ctx = []) as Hnlp.
  { destruct (path_parent_in nl ctx) as [?|Hin]; [by right|left]. congruence. }
  unfold shape. cbn [rb_root rb_nil rb_nodes top]. split; [done|]. split; [done|]. split; [rewrite Hext; [done|apply Hne; by left|done]|].
  split; [done|]. split.
  - eapply path_in_rehole; [exact Hc|done| |done]. intros b Hb Hb'. apply Hext; [apply Hne; by right|by left].
  - unfold addrs. cbn [inorder fmap list_fmap app]. split; [|split; [apply map_empty_subseteq|split; [intros; apply lookup_empty|]]].
    + rewrite !NoDup_cons, not_elem_of_cons. split_and!; try done; [apply Hne; by left|].
      intros Hin. by apply (Hne (i_addr n)); [right|].
    + rewrite Hdom', Hdom, dom_singleton_L, dom_empty_L. set_solver.
Qed.

Lemma insert_spec nl pn z nz kc vc t i :
  shape nl pn {[z := nz]} [] t i → node_key nz = Some kc → node_value nz = Some vc →
  sorted (inorder t) → balanced t → Forall (λ n, key_str n ≠ cs_str kc) (inorder t) →
  wp (rbtree_insert (Some z)) i (λ _ i', ∃ ctx t', plug ctx Leaf = t ∧ position (cs_str kc) ctx Leaf ∧
    inorder t' = path_before ctx ++ Info z kc vc :: path_after ctx ∧ balanced t' ∧ shape nl pn ∅ [] t' i').
Proof.
  intros Hs Hk Hv Hsort Hbal Hnew. pose proof Hs as (Hr & Hn & _). unfold rbtree_insert.
  do 2 (eapply wp_eq; [reflexivity|]; cbv beta). eapply shape_bound; [exact Hs|]. intros fuel Hfuel. rewrite Hn, Hr. cbn [path_root].
  eapply wp_step; [eapply (insert_search_spec nl pn _ fuel z nz kc _ [] t i Hs);
    [apply lookup_singleton_eq|done|done|by split_and!|cbn in Hfuel; lia]|].
  intros r i' (-> & ctx & t0 & Ep & Hpos & ->). cbn [plug] in Ep. subst t. rewrite inorder_plug in Hnew.
  destruct t0 as [|c0 l0 n0 r0].
  2: { exfalso. destruct Hpos as (_ & _ & E). rewrite Forall_forall in Hnew. apply (Hnew n0); [|done].
    cbn. rewrite !elem_of_app, elem_of_cons. tauto. }
  apply shape_plug in Hs. pose proof Hs as (Hr' & _ & Hnl & _ & Hc & Hnd & HX & Hd & Hdom). cbn in Hnd, Hd.
  assert (rb_nodes i !! z = Some nz) as Hz by (eapply lookup_weaken; [apply lookup_singleton_eq|done]).
  assert (∀ a, a ∈ nl :: path_addrs ctx → a ≠ z) as Hne.
  { intros a Ha ->. apply Hd in Ha. by rewrite lookup_singleton_eq in Ha. }
  assert (nl ≠ z) as Hnlz by (apply Hne; by left).
  destruct nz as [zc zr zl zp zk zv]. cbn in Hk, Hv. subst zk zv.
  eapply step_update; [exact Hz|]. cbn [rb_nodes put_nodes]. eapply step_is_nil; [exact Hn|]. cbn [with_parent node_color node_right node_left node_key node_value].
  set (np := RbNode zc zr zl (Some (Some (path_parent nl ctx))) (Some kc) (Some vc)).
  eapply (wp_step _ _ _ (λ _ i2, ∃ h2, i2 = KvsRbtree (Some (path_root ctx z)) (Some nl) h2 ∧ h2 !! z = Some np ∧
    (∀ d c m s ctx', ctx = Fr d c m s :: ctx' → h2 !! i_addr m = Some (side_mem d c z (top nl s) (path_parent nl ctx') m)) ∧
    (∀ a, a ≠ z → (a ≠ path_parent nl ctx ∨ ctx = []) → h2 !! a = rb_nodes i !! a) ∧ dom h2 = dom (rb_nodes i))).
  { destruct ctx as [|[d c m s] ctx]; cbn [path_parent f_info].
    - rewrite bool_decide_eq_true_2 by done. eexists. cbn. rewrite Hn. split; [done|]. split; [lk|]. split; [done|].
      split; [intros; lk|by apply dom_insert_lookup_L].
    - assert (i_addr m ∈ path_addrs (Fr d c m s :: ctx)) as Hin by (rewrite path_addrs_cons; by left).
      assert (i_addr m ≠ z) as Hmz by (apply Hne; by right).
      assert (i_addr m ≠ nl) as Hmn by (apply NoDup_cons in Hnd as [? _]; congruence).
      rewrite bool_decide_eq_false_2 by done. destruct Hc as (Hm & _).
      eapply step_field; [lk|done|]. eapply step_field; [lk|by destruct d|]. fold (key_str m).
      rewrite (position_side _ _ _ _ _ _ Hpos).
      assert (wp (set_child d (Some (i_addr m)) (Some z)) (put_nodes (<[z := np]> (rb_nodes i)) i) (λ _ i2, i2 =
        KvsRbtree (rb_root i) (rb_nil i) (<[i_addr m := side_mem d c z (top nl s) (path_parent nl ctx) m]> (<[z := np]> (rb_nodes i))))) as Hw.
      { apply wp_tail. eapply step_set_near; [lk|]. by apply wp_ret. }
      eapply wp_mono; [destruct d; exact Hw|]. intros [] i2 ->. eexists. rewrite Hr', Hn. split; [done|].
      split; [lk|]. split; [intros ????? [= <- <- <- <- <-]; lk|].
      split; [intros a ? [?|?]; [lk|done]|]. rewrite !dom_insert_lookup_L; [done|by eexists|lk; by eexists]. }
  intros [] i2 (h2 & -> & Hz2 & Hp2 & Hext2 & Hdom2).
  eapply step_update; [exact Hz2|]. cbn [rb_nodes put_nodes rb_root rb_nil].
  eapply step_update; [lk|]. cbn [rb_nodes put_nodes rb_root rb_nil]. eapply step_update; [lk|]. cbn [rb_nodes put_nodes rb_root rb_nil].
  rewrite !insert_insert_eq.
  set (h3 := <[z := _]> h2). assert (shape nl pn ∅ ctx (Node RED Leaf (Info z kc vc) Leaf) (KvsRbtree (Some (path_root ctx z)) (Some nl) h3)) as Hs3.
  { eapply shape_link; [exact Hs|done| | | | |done]; unfold h3.
    - lk.
    - intros d c m s ctx' ->. assert (i_addr m ≠ z) by (apply Hne; right; rewrite path_addrs_cons; by left). lk. by eapply Hp2.
    - intros. lk. by apply Hext2.
    - rewrite dom_insert_lookup_L; [done|by eexists]. }
  eapply wp_mono; [apply (insert_fixup_spec _ _ _ _ _ _ Hs3)|].
  - apply rb_unplug in Hbal as (k & -> & Hp). split; [done|]. exists O. split; [done|]. exact Hp.
  - intros [] i4 (t' & E & Hb & Hs4). exists ctx, t'. split; [done|]. split; [done|]. rewrite E, inorder_plug. done.
Qed.
