(* ===== verification/RbDelete.v ===== *)
(** Deletion from the red-black tree: [rbtree_delete_fixup] restores the balance,
    [rbtree_delete] takes one node out and keeps the others in order. *)

From Stdlib Require Import ZArith Lia.
From S2P Require Import Prelude Runtime Engine RbTree.

(** * Deletion *)

(** ** The fix-up loop

    The subtree in focus lacks one black node: the path completes a black tree one
    higher.  A red focus makes up for it when it is blackened. *)

Definition delete_inv (ctx : path) (t : tree) : Prop :=
  ∃ k, rb_path ctx BLACK (S k) ∧ match tree_color t with BLACK => rb t k | RED => rb (blacken t) (S k) end.

(** The turns left. *)
Definition delete_measure (ctx : path) (t : tree) : nat :=
  match tree_color t with RED => O | BLACK => List.length ctx end.

Lemma delete_measure_root t : delete_measure [] t = O.
Proof. unfold delete_measure. by destruct (tree_color t). Qed.

Ltac solve_inorder := rewrite ?inorder_plug; repeat match goal with d : side |- _ => destruct d end; cbn; rewrite <- ?app_assoc; cbn;
  rewrite <- ?app_assoc; cbn; by rewrite ?app_nil_r, <- ?app_assoc.

Lemma rb_not_leaf t k : rb t (S k) → t ≠ Leaf.
Proof. by intros Ht ->. Qed.

(** One turn of the loop, in its three parts. *)
Inductive sibling_black : path → path → Prop :=
| sib_black d c p a w b ctx : sibling_black (Fr d c p (node d BLACK a w b) :: ctx) (Fr d c p (node d BLACK a w b) :: ctx)
| sib_red d p a w b ctx :
    sibling_black (Fr d BLACK p (node d RED a w b) :: ctx) (Fr d RED p a :: Fr d BLACK w b :: ctx).

Lemma sibling_black_inorder ctx ctx' t : sibling_black ctx ctx' → inorder (plug ctx' t) = inorder (plug ctx t).
Proof. intros []; [done|]. solve_inorder. Qed.

Lemma sibling_black_inv ctx ctx' t : sibling_black ctx ctx' → delete_inv ctx t → delete_inv ctx' t.
Proof.
  intros [|d p a w b ctx0] (k & Hp & Ht); [by exists k|]. exists k. split; [|done]. cbn [rb_path] in *.
  rewrite rb_node_red in Hp. tauto.
Qed.

Lemma sibling_black_depth f ctx d c p s ctx' : sibling_black (f :: ctx) (Fr d c p s :: ctx') → c = RED ∨ ctx' = ctx.
Proof. inversion 1; subst; auto. Qed.

(** The sibling is a black node now. *)
Lemma delete_inv_sibling d c p s ctx t : delete_inv (Fr d c p s :: ctx) t → tree_color s = BLACK →
  ∃ a w b, s = node d BLACK a w b.
Proof.
  intros (k & Hp & _) Hc. assert (rb s (S k)) as Hs by (destruct c; cbn in Hp; tauto).
  destruct (tree_side d s) as (c' & a & w & b & ->); [by eapply rb_not_leaf|]. rewrite tree_color_node in Hc. subst c'. by exists a, w, b.
Qed.

(** The far nephew is red from here on. *)
Inductive nephew_red : tree → tree → Prop :=
| nep_far d a w b1 n b2 : nephew_red (node d BLACK a w (node d RED b1 n b2)) (node d BLACK a w (node d RED b1 n b2))
| nep_near d a1 n a2 w b : tree_color b = BLACK →
    nephew_red (node d BLACK (node d RED a1 n a2) w b) (node d BLACK a1 n (node d RED a2 w b)).

Lemma nephew_red_inorder s s' : nephew_red s s' → inorder s' = inorder s.
Proof. intros []; [done|]. solve_inorder. Qed.

Lemma nephew_red_rb s s' k : nephew_red s s' → rb s k → rb s' k.
Proof.
  intros [d a w b1 n b2|d a1 n a2 w b Hb]; [done|]. rewrite rb_node_black. intros (j & -> & Ha & Hbj).
  rewrite rb_node_red in Ha. apply rb_node_black. exists j. split; [done|]. split; [tauto|]. apply rb_node_red. tauto.
Qed.

Lemma delete_inv_replace d c p s s' ctx t : delete_inv (Fr d c p s :: ctx) t →
  tree_color s' = tree_color s → (∀ k, rb s k → rb s' k) → delete_inv (Fr d c p s' :: ctx) t.
Proof.
  intros (k & Hp & Ht) Hc Hrb. exists k. split; [|done]. destruct c; cbn in *; rewrite ?Hc; intuition auto.
Qed.

(** Both nephews black: the sibling turns red and the focus moves up. *)
Lemma delete_inv_up d c p a w b ctx t : delete_inv (Fr d c p (node d BLACK a w b) :: ctx) t →
  tree_color t = BLACK → tree_color a = BLACK → tree_color b = BLACK → delete_inv ctx (node d c t p (node d RED a w b)).
Proof.
  intros (k & Hp & Ht) Hc Ha Hb. rewrite Hc in Ht.
  assert (rb (node d RED a w b) k) as Hw.
  { apply rb_node_red. destruct c; cbn [rb_path] in Hp; rewrite rb_node_black in Hp; naive_solver. }
  unfold delete_inv. rewrite tree_color_node. destruct c; cbn [rb_path] in Hp.
  - exists k. split; [apply rb_path_black with RED; tauto|]. destruct d; cbn in *; tauto.
  - exists (S k). split; [tauto|]. apply rb_node_black. by exists k.
Qed.

(** The far nephew red: the last rotation repairs the tree. *)
Lemma delete_inv_last d c p a w b1 n b2 ctx t : delete_inv (Fr d c p (node d BLACK a w (node d RED b1 n b2)) :: ctx) t →
  tree_color t = BLACK → delete_inv [] (plug ctx (node d c (node d BLACK t p a) w (node d BLACK b1 n b2))).
Proof.
  intros (k & Hp & Ht) Hc. rewrite Hc in Ht.
  assert (rb (node d BLACK a w (node d RED b1 n b2)) (S k)) as Hw by (destruct c; cbn [rb_path] in Hp; tauto).
  rewrite rb_node_black in Hw. destruct Hw as (j & [= <-] & Ha & Hb). rewrite rb_node_red in Hb. destruct Hb as (_ & _ & Hb1 & Hb2).
  destruct (rb_plug ctx (node d c (node d BLACK t p a) w (node d BLACK b1 n b2)) (match c with RED => S k | BLACK => S (S k) end)) as [Hcol [m Hm]].
  - assert (rb (node d BLACK t p a) (S k) ∧ rb (node d BLACK b1 n b2) (S k)) as [? ?] by (split; apply rb_node_black; by exists k).
    destruct c; [apply rb_node_red; by rewrite !tree_color_node|apply rb_node_black; by exists (S k)].
  - rewrite tree_color_node. destruct c; cbn [rb_path] in Hp; tauto.
  - exists m. split; [done|]. by rewrite Hcol.
Qed.

(** *** The writes of the loop *)

Lemma set_color_sibling {nl pn X d c n d' cs} c' {a s b ctx t i} : shape nl pn X (Fr d c n (node d' cs a s b) :: ctx) t i →
  wp (set_color (Some (i_addr s)) c') i (λ _ i', shape nl pn X (Fr d c n (node d' c' a s b) :: ctx) t i').
Proof. setoid_rewrite shape_sibling. apply wp_set_color. Qed.

Lemma set_color_nephew {nl pn X d c n d' cs d2 c2} c' {a1 m a2 s b ctx t i} :
  shape nl pn X (Fr d c n (node d' cs (node d2 c2 a1 m a2) s b) :: ctx) t i →
  wp (set_color (Some (i_addr m)) c') i (λ _ i', shape nl pn X (Fr d c n (node d' cs (node d2 c' a1 m a2) s b) :: ctx) t i').
Proof. setoid_rewrite shape_sibling. setoid_rewrite <- shape_move. apply wp_set_color. Qed.

Lemma step_sibling {Y} nl pn X d c n s ctx t i (k : ptr → T Y) Q : shape nl pn X (Fr d c n s :: ctx) t i →
  wp (k (Some (top nl s))) i Q → wp (child (opp d) (Some (i_addr n)) ≫= k) i Q.
Proof. intros Hs Hk. eapply step_far; [by eapply shape_frame|done]. Qed.

Lemma shape_sibling_node nl pn X d c n d' cs a s b ctx t i : shape nl pn X (Fr d c n (node d' cs a s b) :: ctx) t i →
  rb_nodes i !! i_addr s = Some (side_mem d' cs (top nl a) (top nl b) (i_addr n) s).
Proof. rewrite shape_sibling. apply shape_node. Qed.

Lemma step_color_near {Y} nl pn X d c n d' cs a s b ctx t i (k : rb_color → T Y) Q :
  shape nl pn X (Fr d c n (node d' cs a s b) :: ctx) t i → wp (k (tree_color a)) i Q → wp (color (Some (top nl a)) ≫= k) i Q.
Proof. rewrite shape_sibling, <- shape_move. apply step_color_focus. Qed.
Lemma step_color_far {Y} nl pn X d c n d' cs a s b ctx t i (k : rb_color → T Y) Q :
  shape nl pn X (Fr d c n (node d' cs a s b) :: ctx) t i → wp (k (tree_color b)) i Q → wp (color (Some (top nl b)) ≫= k) i Q.
Proof. rewrite shape_sibling, <- shape_move. apply step_color_sibling. Qed.

Lemma step_both_black {Y} nl pn X d c n d' cs a s b ctx t i (k : bool → T Y) Q :
  shape nl pn X (Fr d c n (node d' cs a s b) :: ctx) t i →
  wp (k (bool_decide (tree_color a = BLACK) && bool_decide (tree_color b = BLACK))) i Q →
  wp (both_black (Some (i_addr s)) ≫= k) i Q.
Proof.
  intros Hs Hk. unfold both_black. apply wp_bind_assoc.
  pose proof (shape_sibling_node _ _ _ _ _ _ _ _ _ _ _ _ _ _ Hs) as Hn. destruct d'.
  - eapply (step_near _ Lft); [exact Hn|]. apply wp_bind_assoc. eapply step_color_near; [exact Hs|].
    destruct (tree_color a) eqn:E; [exact Hk|]. cbn. apply wp_bind_assoc. eapply (step_far _ Lft); [exact Hn|].
    apply wp_bind_assoc. eapply step_color_far; [exact Hs|]. exact Hk.
  - eapply (step_far _ Rgt); [exact Hn|]. apply wp_bind_assoc. eapply step_color_far; [exact Hs|]. rewrite andb_comm in Hk.
    destruct (tree_color b) eqn:E; [exact Hk|]. cbn. apply wp_bind_assoc. eapply (step_near _ Rgt); [exact Hn|].
    apply wp_bind_assoc. eapply step_color_near; [exact Hs|]. exact Hk.
Qed.

Section delete_parts.
Context (nl pn : addr) (X : heap) (t : tree).
Hypothesis Hblack : tree_color t = BLACK.

(** The focus knows its parent, the sentinel by the parent left in it. *)
Definition focus_in (ctx : path) (i : kvs_rbtree_t) : Prop := shape nl pn X ctx t i ∧ (t = Leaf → pn = path_parent nl ctx).

Lemma step_focus {Y} d c p s ctx i (k : ptr → T Y) Q : focus_in (Fr d c p s :: ctx) i →
  wp (k (Some (i_addr p))) i Q → wp (parent (Some (top nl t)) ≫= k) i Q.
Proof using. intros [Hs Hp] Hk. eapply step_parent_focus; [exact Hs|done|exact Hk]. Qed.

Lemma red_sibling_spec d c p s ctx i :
  focus_in (Fr d c p s :: ctx) i → delete_inv (Fr d c p s :: ctx) t →
  wp (if bool_decide (tree_color s = RED) then
        set_color (Some (top nl s)) BLACK;;
        p ← parent (Some (top nl t)); set_color p RED;;
        p ← parent (Some (top nl t)); rotate d p;;
        p ← parent (Some (top nl t)); child (opp d) p
      else mret (Some (top nl s))) i (λ w' i', ∃ c' a w b ctx', w' = Some (i_addr w) ∧
    sibling_black (Fr d c p s :: ctx) (Fr d c' p (node d BLACK a w b) :: ctx') ∧
    focus_in (Fr d c' p (node d BLACK a w b) :: ctx') i').
Proof using.
  intros Hf Hinv. destruct (tree_color s) eqn:Hc.
  - rewrite bool_decide_eq_true_2 by done. destruct (tree_side d s) as (cs & a & w & b & ->); [by intros ->|].
    rewrite tree_color_node in Hc. subst cs. rewrite top_node. pose proof Hinv as (k & Hp & _).
    assert (c = BLACK) as -> by (destruct c; [cbn in Hp; rewrite tree_color_node in Hp; naive_solver|done]).
    assert (∃ aa aw ab, a = node d BLACK aa aw ab) as (aa & aw & ab & ->).
    { eapply (delete_inv_sibling d RED p _ (Fr d BLACK w b :: ctx) t); [eapply sibling_black_inv; [apply sib_red|done]|].
      cbn [rb_path] in Hp. rewrite rb_node_red in Hp. tauto. }
    destruct Hf as [Hs Hpn].
    eapply wp_step; [exact (set_color_sibling BLACK Hs)|]. intros [] i2 Hs2.
    eapply step_focus; [split; [exact Hs2|done]|].
    eapply wp_step; [exact (set_color_parent RED Hs2)|]. intros [] i3 Hs3.
    eapply step_focus; [split; [exact Hs3|done]|]. rewrite shape_move in Hs3.
    eapply wp_step; [by apply rotate_spec|]. intros [] i4 Hs4. rewrite <- !shape_move in Hs4.
    eapply step_focus; [split; [exact Hs4|done]|]. apply wp_tail. eapply step_sibling; [exact Hs4|]. apply wp_ret. rewrite top_node.
    exists RED, aa, aw, ab, (Fr d BLACK w b :: ctx). split; [done|]. split; [apply sib_red|]. by split.
  - rewrite bool_decide_eq_false_2 by done. destruct (delete_inv_sibling _ _ _ _ _ _ Hinv Hc) as (a & w & b & ->).
    apply wp_ret. rewrite top_node. exists c, a, w, b, ctx. split; [done|]. split; [apply sib_black|done].
Qed.

Lemma red_nephew_spec d c p a w b ctx i :
  focus_in (Fr d c p (node d BLACK a w b) :: ctx) i →
  bool_decide (tree_color a = BLACK) && bool_decide (tree_color b = BLACK) = false →
  wp (if bool_decide (tree_color b = BLACK) then
        wl ← child d (Some (i_addr w)); set_color wl BLACK;;
        set_color (Some (i_addr w)) RED;;
        rotate (opp d) (Some (i_addr w));;
        p ← parent (Some (top nl t)); child (opp d) p
      else mret (Some (i_addr w))) i (λ w' i', ∃ a' v b1 n b2, w' = Some (i_addr v) ∧
    nephew_red (node d BLACK a w b) (node d BLACK a' v (node d RED b1 n b2)) ∧
    focus_in (Fr d c p (node d BLACK a' v (node d RED b1 n b2)) :: ctx) i').
Proof using.
  intros [Hs Hpn] Hbb.
  destruct (tree_color b) eqn:Hb.
  - rewrite bool_decide_eq_false_2 by done. destruct (tree_side d b) as (cb & b1 & n & b2 & ->); [by intros ->|].
    rewrite tree_color_node in Hb. subst cb. apply wp_ret. exists a, w, b1, n, b2. split; [done|]. split; [apply nep_far|done].
  - rewrite bool_decide_eq_true_2 by done. destruct (tree_color a) eqn:Ha; [|done].
    destruct (tree_side d a) as (ca & a1 & n & a2 & ->); [by intros ->|]. rewrite tree_color_node in Ha. subst ca.
    eapply step_near; [by eapply shape_sibling_node|]. rewrite top_node.
    eapply wp_step; [exact (set_color_nephew BLACK Hs)|]. intros [] i2 Hs2.
    eapply wp_step; [exact (set_color_sibling RED Hs2)|]. intros [] i3 Hs3.
    rewrite shape_sibling, <- !(node_opp d) in Hs3.
    eapply wp_step; [by apply rotate_spec|]. intros [] i4 Hs4. rewrite shape_sibling, opp_opp, !node_opp in Hs4.
    eapply step_focus; [split; [exact Hs4|done]|]. apply wp_tail. eapply step_sibling; [exact Hs4|]. apply wp_ret. rewrite top_node.
    exists a1, n, a2, w, b. split; [done|]. split; [by apply nep_near|]. by split.
Qed.

Lemma last_rotation_spec d c p a w b1 n b2 ctx i :
  focus_in (Fr d c p (node d BLACK a w (node d RED b1 n b2)) :: ctx) i →
  wp (p ← parent (Some (top nl t)); cp ← color p; set_color (Some (i_addr w)) cp;;
      p ← parent (Some (top nl t)); set_color p BLACK;;
      wr ← child (opp d) (Some (i_addr w)); set_color wr BLACK;;
      p ← parent (Some (top nl t)); rotate d p;;
      gets rb_root) i
    (λ x' i', let t' := plug ctx (node d c (node d BLACK t p a) w (node d BLACK b1 n b2)) in
       x' = Some (top nl t') ∧ shape nl pn X [] t' i').
Proof using.
  intros [Hs Hpn]. eapply step_focus; [by split|]. eapply step_color; [by eapply shape_frame|].
  eapply wp_step; [exact (set_color_sibling c Hs)|]. intros [] i2 Hs2.
  eapply step_focus; [by split|]. eapply wp_step; [exact (set_color_parent BLACK Hs2)|]. intros [] i3 Hs3.
  eapply step_far; [by eapply shape_sibling_node|]. rewrite top_node.
  rewrite <- (node_opp d) in Hs3. eapply wp_step; [exact (set_color_nephew BLACK Hs3)|]. intros [] i4 Hs4. rewrite node_opp in Hs4.
  eapply step_focus; [by split|]. rewrite shape_move in Hs4.
  eapply wp_step; [by apply rotate_spec|]. intros [] i5 Hs5. rewrite shape_plug in Hs5. unfold wp, gets. cbn.
  split; [|done]. by destruct Hs5 as (-> & _).
Qed.

Lemma delete_side_spec d c p s ctx i :
  focus_in (Fr d c p s :: ctx) i → delete_inv (Fr d c p s :: ctx) t →
  wp (delete_side d (Some (top nl t))) i (λ x' i', ∃ ctx' t', x' = Some (top nl t') ∧ t' ≠ Leaf ∧ shape nl pn X ctx' t' i' ∧
    inorder (plug ctx' t') = inorder (plug (Fr d c p s :: ctx) t) ∧ delete_inv ctx' t' ∧
    (delete_measure ctx' t' < delete_measure (Fr d c p s :: ctx) t)%nat).
Proof using Hblack.
  intros Hf Hinv. unfold delete_side. eapply step_focus; [exact Hf|].
  eapply step_sibling; [apply Hf|]. pose proof (proj1 Hf) as Hs0. eapply step_color_sibling; [exact Hs0|].
  eapply wp_step; [by apply (red_sibling_spec d c p s ctx)|].
  intros w' i2 (c2 & a & w & b & ctx2 & -> & Hsib & Hf2).
  pose proof (sibling_black_inv _ _ _ Hsib Hinv) as Hinv2.
  rewrite <- (sibling_black_inorder _ _ t Hsib).
  unfold delete_measure at 2. rewrite Hblack. cbn [List.length].
  pose proof (proj1 Hf2) as Hs2. eapply step_both_black; [exact Hs2|].
  destruct (bool_decide (tree_color a = BLACK) && bool_decide (tree_color b = BLACK)) eqn:Hbb.
  - apply andb_true_iff in Hbb as [Ha Hb]. apply bool_decide_eq_true_1 in Ha, Hb.
    eapply wp_step; [exact (set_color_sibling RED Hs2)|]. intros [] i3 Hs3.
    apply wp_tail. eapply step_focus; [split; [exact Hs3|apply Hf2]|]. apply wp_ret.
    exists ctx2, (node d c2 t p (node d RED a w b)). rewrite top_node. split; [done|]. split; [by destruct d|].
    split; [by rewrite <- shape_move|]. split; [solve_inorder|]. split; [by apply delete_inv_up|].
    unfold delete_measure. rewrite tree_color_node. apply sibling_black_depth in Hsib as [->| ->]; [lia|destruct c2; lia].
  - eapply step_far; [by eapply shape_sibling_node|]. eapply step_color_far; [exact Hs2|].
    eapply wp_step; [by apply red_nephew_spec|]. intros w' i3 (a' & v & b1 & n & b2 & -> & Hnep & Hf3).
    assert (delete_inv (Fr d c2 p (node d BLACK a' v (node d RED b1 n b2)) :: ctx2) t) as Hinv3.
    { eapply delete_inv_replace; [exact Hinv2|by rewrite !tree_color_node|]. intros k. by apply nephew_red_rb. }
    eapply wp_mono; [by apply last_rotation_spec|]. intros x' i4 [-> Hs4].
    exists [], (plug ctx2 (node d c2 (node d BLACK t p a') v (node d BLACK b1 n b2))).
    split; [done|]. split; [|split; [done|]].
    + intros E. assert (v ∈ inorder (plug ctx2 (node d c2 (node d BLACK t p a') v (node d BLACK b1 n b2)))) as Hin; [|rewrite E in Hin; by apply elem_of_nil in Hin].
      rewrite inorder_plug, !elem_of_app. right. left. destruct d; cbn; rewrite elem_of_app, elem_of_cons; tauto.
    + split; [|split; [by apply delete_inv_last|rewrite delete_measure_root; lia]].
      apply nephew_red_inorder in Hnep. transitivity (inorder (plug (Fr d c2 p (node d BLACK a' v (node d RED b1 n b2)) :: ctx2) t)).
      { clear. solve_inorder. }
      cbn [plug]. rewrite !inorder_plug. f_equal. f_equal. destruct d; cbn in *; by rewrite Hnep.
Qed.
End delete_parts.

(** *** The loop *)

Lemma path_root_in ctx a : ctx ≠ [] → path_root ctx a ∈ path_addrs ctx.
Proof.
  revert a. induction ctx as [|f ctx IH]; intros a Hne; [done|]. rewrite path_addrs_cons. cbn.
  destruct ctx as [|f' ctx]; [by left|]. right. apply elem_of_app. right. by apply IH.
Qed.

Lemma step_at_root {Y} nl pn X ctx t i (k : ptr → T Y) Q : shape nl pn X ctx t i →
  (∀ r, bool_decide (Some (top nl t) = r) = match ctx with [] => true | _ => false end → wp (k r) i Q) →
  wp (gets rb_root ≫= k) i Q.
Proof.
  intros (Hr & _ & _ & _ & _ & Hnd & _) Hk. eapply wp_eq; [reflexivity|]. cbv beta. rewrite Hr. apply Hk.
  destruct ctx as [|f ctx]; [by rewrite bool_decide_eq_true_2|]. apply bool_decide_eq_false_2. intros [= E].
  assert (path_root (f :: ctx) (top nl t) ∈ path_addrs (f :: ctx)) as Hin by (by apply path_root_in).
  apply NoDup_cons in Hnd as [Hnl Hnd]. apply NoDup_app in Hnd as (_ & Hd & _).
  change (top nl t = path_root (f :: ctx) (top nl t)) in E. rewrite <- E in Hin. destruct (top_in nl t) as [->|Ht]; [|by apply (Hd _ Ht)].
  apply Hnl, elem_of_app. by right.
Qed.

Lemma delete_body_spec nl pn X f ctx t i :
  focus_in nl pn X t (f :: ctx) i → delete_inv (f :: ctx) t → tree_color t = BLACK →
  wp (delete_fixup_body (Some (top nl t))) i (λ x' i', ∃ ctx' t', x' = Some (top nl t') ∧ t' ≠ Leaf ∧ shape nl pn X ctx' t' i' ∧
    inorder (plug ctx' t') = inorder (plug (f :: ctx) t) ∧ delete_inv ctx' t' ∧
    (delete_measure ctx' t' < delete_measure (f :: ctx) t)%nat).
Proof.
  destruct f as [d c p s]. intros Hf Hinv Hc. rewrite delete_sides. eapply step_focus; [exact Hf|].
  pose proof (proj1 Hf) as Hs. assert (top nl s ≠ top nl t) as Hne.
  { apply shape_sibling in Hs. eapply shape_apart; [exact Hs|]. destruct Hinv as (k & Hp & _).
    apply (rb_not_leaf s k). destruct c; cbn in Hp; tauto. }
  destruct d.
  - eapply (step_near _ Lft); [by eapply shape_frame|]. rewrite bool_decide_eq_true_2 by done. by apply delete_side_spec.
  - eapply (step_far _ Rgt); [by eapply shape_frame|]. rewrite bool_decide_eq_false_2 by congruence. by apply delete_side_spec.
Qed.

Lemma delete_loop_spec nl pn X fuel ctx t i :
  focus_in nl pn X t ctx i → delete_inv ctx t → (delete_measure ctx t <= fuel)%nat →
  wp (delete_fixup_loop fuel (Some (top nl t))) i (λ x' i', ∃ ctx' t', x' = Some (top nl t') ∧ shape nl pn X ctx' t' i' ∧
    inorder (plug ctx' t') = inorder (plug ctx t) ∧ delete_inv ctx' t' ∧ (ctx' = [] ∨ tree_color t' = RED)).
Proof.
  revert ctx t i. induction fuel as [|fuel IH]; intros ctx t i Hf Hinv Hm; cbn [delete_fixup_loop].
  all: eapply step_at_root; [apply Hf|]; intros r ->.
  all: destruct ctx as [|f ctx]; [apply wp_ret; exists [], t; split; [done|]; split; [apply Hf|]; by split_and!; [| |left]|].
  all: eapply step_color_focus; [apply Hf|]; destruct (tree_color t) eqn:Hc.
  all: try (rewrite bool_decide_eq_false_2 by done; apply wp_ret; exists (f :: ctx), t; split; [done|]; split; [apply Hf|]; by split_and!; [| |right]).
  - unfold delete_measure in Hm. rewrite Hc in Hm. cbn in Hm. lia.
  - rewrite bool_decide_eq_true_2 by done. cbn [negb].
    eapply wp_step; [by apply delete_body_spec|]. intros x' i' (ctx' & t' & -> & Hne & Hs' & E & Hinv' & Hm').
    eapply wp_mono; [apply IH; [by split|done|lia]|]. intros x2 i2 (ctx2 & t2 & -> & Hs2 & E2 & Hrest).
    exists ctx2, t2. split; [done|]. split; [done|]. split; [by rewrite E2|done].
Qed.

Lemma delete_inv_done ctx t : delete_inv ctx t → ctx = [] ∨ tree_color t = RED → balanced (plug ctx (blacken t)).
Proof.
  intros (k & Hp & Ht) Hdone. destruct (tree_color t) eqn:Hc.
  - apply (rb_plug ctx _ (S k)); [done|]. by destruct t.
  - destruct Hdone as [->|?]; [|done]. assert (blacken t = t) as -> by (by destruct t as [|[]]). by apply (balanced_black t k).
Qed.

Lemma delete_fixup_spec nl pn X ctx t i : focus_in nl pn X t ctx i → delete_inv ctx t →
  wp (rbtree_delete_fixup (Some (top nl t))) i (λ _ i', ∃ t',
    inorder t' = inorder (plug ctx t) ∧ balanced t' ∧ shape nl pn X [] t' i').
Proof.
  intros Hf Hinv. unfold rbtree_delete_fixup. eapply shape_bound; [apply Hf|]. intros n Hn.
  eapply wp_step; [apply delete_loop_spec; [done|done|unfold delete_measure; destruct (tree_color t); lia]|].
  intros x' i' (ctx' & t' & -> & Hs' & E & Hinv' & Hdone).
  eapply wp_mono; [by apply blacken_focus|]. intros [] i2 Hs2. exists (plug ctx' (blacken t')).
  rewrite shape_plug in Hs2. split; [by rewrite inorder_plug, inorder_blacken, <- inorder_plug|]. split; [by apply delete_inv_done|done].
Qed.

(** ** The successor *)

Lemma plug_app c1 c2 t : plug (c1 ++ c2) t = plug c2 (plug c1 t).
Proof. revert t. induction c1 as [|[d c n s] c1 IH]; intros t; [done|]. apply IH. Qed.
Lemma path_before_app c1 c2 : path_before (c1 ++ c2) = path_before c2 ++ path_before c1.
Proof. induction c1 as [|[d c n s] c1 IH]; cbn; [by rewrite app_nil_r|]. by rewrite IH, app_assoc. Qed.
Lemma path_after_app c1 c2 : path_after (c1 ++ c2) = path_after c1 ++ path_after c2.
Proof. induction c1 as [|[d c n s] c1 IH]; cbn; [done|]. by rewrite IH, app_assoc. Qed.

(** The leftmost node of a tree. *)
Definition leftmost (t : tree) (ctx : path) (c : rb_color) (n : info) (r : tree) : Prop :=
  plug ctx (Node c Leaf n r) = t ∧ path_before ctx = [].

Lemma walk_left_spec nl pn X fuel ctx t i :
  shape nl pn X ctx t i → t ≠ Leaf → (List.length (inorder t) <= fuel)%nat →
  wp (walk_down left_of fuel (Some (top nl t))) i (λ m i', i' = i ∧ ∃ ctx' c n r, leftmost t ctx' c n r ∧ m = Some (i_addr n)).
Proof.
  revert ctx t. induction fuel as [|fuel IH]; intros ctx t Hs Hne Hf.
  all: destruct t as [|c l n r]; [done|]; cbn [inorder] in Hf; rewrite length_app in Hf; cbn [List.length] in Hf; try lia.
  cbn [walk_down top]. eapply (step_near _ Lft); [by apply (shape_node nl pn X ctx Lft c l n r)|].
  pose proof (proj2 (shape_move nl pn X Lft c n r ctx l i) Hs) as Hl. eapply step_top_nil; [exact Hl|].
  destruct l as [|lc ll ln lr].
  - apply wp_ret. split; [done|]. by exists [], c, n, r.
  - eapply wp_mono; [by apply (IH _ _ Hl); [|lia]|]. intros m i' (-> & ctx' & c' & n' & r' & [E Hb] & ->). split; [done|].
    exists (ctx' ++ [Fr Lft c n r]), c', n', r'. split; [|done]. split; [by rewrite plug_app, E|]. by rewrite path_before_app, Hb.
Qed.

Lemma mini_spec nl pn X ctx t i : shape nl pn X ctx t i → t ≠ Leaf →
  wp (rbtree_mini (Some (top nl t))) i (λ m i', i' = i ∧ ∃ ctx' c n r, leftmost t ctx' c n r ∧ m = Some (i_addr n)).
Proof.
  intros Hs Hne. unfold rbtree_mini. eapply shape_bound; [exact Hs|]. intros n Hn. eapply walk_left_spec; [exact Hs|done|lia].
Qed.

Lemma successor_spec nl pn X ctx c l n r i : shape nl pn X ctx (Node c l n r) i → r ≠ Leaf →
  wp (rbtree_successor (Some (i_addr n))) i (λ m i', i' = i ∧ ∃ ctx' c' n' r', leftmost r ctx' c' n' r' ∧ m = Some (i_addr n')).
Proof.
  intros Hs Hne. unfold rbtree_successor. pose proof (shape_node nl pn X ctx Rgt c r n l i Hs) as Hn.
  eapply step_parent; [exact Hn|]. eapply (step_near _ Rgt); [exact Hn|].
  pose proof (proj2 (shape_move nl pn X Rgt c n l ctx r i) Hs) as Hr. eapply step_top_nil; [exact Hr|].
  destruct r as [|rc rl rn rr]; [done|]. cbn [negb]. eapply (step_near _ Rgt); [exact Hn|]. by eapply mini_spec.
Qed.

(** ** Unlinking a node with at most one child *)

(** The heap once [s] hangs in the place of the node [y] above it, which leaves the
    tree. *)
Lemma shape_cut nl pn pn' X ctx d c s y i h' rt' ny :
  shape nl pn X ctx (node d c s y Leaf) i →
  h' !! nl = Some (nil_mem nl pn') → h' !! i_addr y = Some ny →
  (∀ sc sl sn sr, s = Node sc sl sn sr → h' !! i_addr sn = Some (mem sc (top nl sl) (top nl sr) (path_parent nl ctx) sn)) →
  (∀ d c m s' ctx', ctx = Fr d c m s' :: ctx' → h' !! i_addr m = Some (side_mem d c (top nl s) (top nl s') (path_parent nl ctx') m)) →
  (∀ a, a ≠ nl → a ≠ i_addr y → a ≠ top nl s → (a ≠ path_parent nl ctx ∨ ctx = []) → h' !! a = rb_nodes i !! a) →
  dom h' = dom (rb_nodes i) → rt' = Some (path_root ctx (top nl s)) →
  shape nl pn' (<[i_addr y := ny]> X) ctx s (KvsRbtree rt' (Some nl) h').
Proof.
  intros (Hr & Hn & Hnl & Ht & Hc & Hf) Hnl' Hy Hst Hp Hext Hdom' ->.
  assert (addrs (node d c s y Leaf) ++ path_addrs ctx ≡ₚ i_addr y :: addrs s ++ path_addrs ctx) as Hperm.
  { rewrite addrs_node. cbn. by rewrite app_nil_r. }
  pose proof (footprint_perm _ _ _ _ _ Hperm Hf) as (Hnd & HX & Hd & Hdom).
  rewrite tree_in_node in Ht. destruct Ht as (_ & Hts & _). rewrite top_node in Hc.
  rewrite !NoDup_cons, NoDup_app, not_elem_of_cons, !not_elem_of_app in Hnd.
  destruct Hnd as ((Hny & Hns & Hnc) & (Hys & Hyc) & Hnds & Hsc & Hndc).
  unfold shape. cbn [rb_root rb_nil rb_nodes]. split; [done|]. split; [done|]. split; [done|]. split; [|split; [|split; [|split; [|split]]]].
  - eapply tree_in_reparent; [exact Hts|done| |done]. intros a Ha Hne. apply Hext; [congruence|congruence|done|].
    destruct (path_parent_in nl ctx) as [?|Hin]; [by right|left]. intros ->. by apply (Hsc _ Ha).
  - eapply path_in_rehole; [exact Hc|done| |done]. intros a Ha Hne. apply Hext; [congruence|congruence| |by left].
    destruct (top_in nl s) as [->|Hin]; [cbn; congruence|]. intros ->. by apply (Hsc _ Hin).
  - rewrite NoDup_cons, NoDup_app, not_elem_of_app. done.
  - apply insert_subseteq_l; [done|]. apply map_subseteq_spec. intros a v Ha.
    assert (∀ b, b ∈ nl :: i_addr y :: addrs s ++ path_addrs ctx → a ≠ b) as Hne by (intros b Hb ->; by rewrite Hd in Ha).
    rewrite Hext; [by eapply lookup_weaken|apply Hne; by left|apply Hne; right; by left| |].
    + destruct (top_in nl s) as [->|Hin]; [apply Hne; by left|apply Hne]. rewrite !elem_of_cons, elem_of_app. tauto.
    + destruct (path_parent_in nl ctx) as [?|Hin]; [by right|left; apply Hne]. rewrite !elem_of_cons, elem_of_app. tauto.
  - intros a Ha. rewrite lookup_insert_ne; [apply Hd; rewrite elem_of_cons in *; rewrite elem_of_cons; tauto|].
    rewrite elem_of_cons, elem_of_app in Ha. intros <-. naive_solver.
  - rewrite Hdom', Hdom, dom_insert_L. set_solver.
Qed.

(** The child that takes the place of [y]. *)
Lemma only_child_spec nl pn X ctx d c s y i : shape nl pn X ctx (node d c s y Leaf) i →
  wp (yl ← left_of (Some (i_addr y));
      if negb (bool_decide (yl = Some nl)) then left_of (Some (i_addr y))
      else yr ← right_of (Some (i_addr y)); if negb (bool_decide (yr = Some nl)) then right_of (Some (i_addr y)) else mret (Some nl))
    i (λ x i', x = Some (top nl s) ∧ i' = i).
Proof.
  intros Hs. pose proof (shape_node _ _ _ _ _ _ _ _ _ _ Hs) as Hy. pose proof (shape_NoDup _ _ _ _ _ _ Hs) as Hnd.
  assert (bool_decide (Some (top nl s) = Some nl) = match s with Leaf => true | _ => false end) as Hsn.
  { rewrite <- (top_nil nl s); [apply bool_decide_ext; split; [by intros [= ->]|by intros ->]|].
    apply NoDup_cons in Hnd as [Hnl _]. rewrite addrs_node in Hnl. cbn in Hnl. rewrite !not_elem_of_cons, !not_elem_of_app in Hnl. tauto. }
  assert (bool_decide (Some nl = Some nl) = true) as Hnn by (by apply bool_decide_eq_true_2).
  destruct d; (eapply step_field; [exact Hy|done|]); destruct s as [|sc sl sn sr]; cbn [side_mem mem node_left top] in *;
    rewrite ?Hsn, ?Hnn; cbn [negb];
    repeat (eapply step_field; [exact Hy|done|]); cbn [side_mem mem node_right top]; rewrite ?Hnn, ?Hsn; cbn [negb]; try (by apply wp_ret);
    apply wp_tail; (eapply step_field; [exact Hy|done|]); by apply wp_ret.
Qed.

(** [x->parent = p], where [x] may be the sentinel. *)
Lemma adopt_spec nl pn p q s i :
  rb_nodes i !! nl = Some (nil_mem nl pn) → tree_in (rb_nodes i) nl q s → nl ∉ addrs s →
  wp (set_parent (Some (top nl s)) (Some p)) i (λ _ i2, ∃ h2 pn', i2 = put_nodes h2 i ∧ (s = Leaf → pn' = p) ∧
    h2 !! nl = Some (nil_mem nl pn') ∧
    (∀ sc sl sn sr, s = Node sc sl sn sr → h2 !! i_addr sn = Some (mem sc (top nl sl) (top nl sr) p sn)) ∧
    (∀ a, a ≠ nl → a ≠ top nl s → h2 !! a = rb_nodes i !! a) ∧ dom h2 = dom (rb_nodes i)).
Proof.
  intros Hnl Hts Hns. destruct s as [|sc sl sn sr]; cbn [top].
  - eapply wp_update; [exact Hnl|]. eexists _, p. split; [done|]. split; [done|]. split; [lk|]. split; [done|].
    split; [intros; lk|by apply dom_insert_lookup_L].
  - destruct Hts as (Hsn & _). eapply wp_update; [exact Hsn|]. eexists _, pn. split; [done|]. split; [done|].
    assert (i_addr sn ∈ addrs (Node sc sl sn sr)) as Hin by (by destruct (top_in nl (Node sc sl sn sr))).
    split; [rewrite lookup_insert_ne; [done|congruence]|]. split; [intros ???? [= <- <- <- <-]; lk|].
    split; [intros; lk|by apply dom_insert_lookup_L].
Qed.

(** [x] takes the place of [y] in the parent of [y], or at the root. *)
Lemma replace_child_spec nl ctx x y i :
  rb_nil i = Some nl → rb_root i = Some (path_root ctx y) → path_in (rb_nodes i) nl ctx y → NoDup (nl :: path_addrs ctx) →
  y ∉ nl :: path_addrs ctx →
  wp (if bool_decide (Some (path_parent nl ctx) = Some nl) then set_root (Some x)
      else
        pl ← left_of (Some (path_parent nl ctx));
        if bool_decide (Some y = pl) then set_left (Some (path_parent nl ctx)) (Some x)
        else set_right (Some (path_parent nl ctx)) (Some x)) i
    (λ _ i3, ∃ h3, i3 = KvsRbtree (Some (path_root ctx x)) (Some nl) h3 ∧
      (∀ d c m s ctx', ctx = Fr d c m s :: ctx' → h3 !! i_addr m = Some (side_mem d c x (top nl s) (path_parent nl ctx') m)) ∧
      (∀ a, a ≠ path_parent nl ctx ∨ ctx = [] → h3 !! a = rb_nodes i !! a) ∧ dom h3 = dom (rb_nodes i)).
Proof.
  intros Hn Hr Hc Hnd Hy. destruct ctx as [|[d c m s] ctx]; cbn [path_parent f_info].
  - rewrite bool_decide_eq_true_2 by done. exists (rb_nodes i). cbn. by rewrite Hn.
  - destruct Hc as (Hm & _). rewrite path_addrs_cons in Hnd, Hy. cbn in Hnd, Hy. apply NoDup_cons in Hnd as [Hnl _].
    rewrite bool_decide_eq_false_2 by (intros [= E]; apply Hnl; rewrite E; by left).
    assert (y ≠ top nl s) as Hys.
    { intros E. apply Hy. rewrite E. destruct (top_in nl s) as [->|Hin]; [by left|]. rewrite !elem_of_cons, elem_of_app. tauto. }
    eapply (wp_mono _ _ (λ _ i3, i3 = put_nodes (<[i_addr m := side_mem d c x (top nl s) (path_parent nl ctx) m]> (rb_nodes i)) i)).
    { destruct d; (eapply step_field; [exact Hm|done|]); [rewrite bool_decide_eq_true_2 by done|rewrite bool_decide_eq_false_2 by congruence];
        apply wp_tail; (eapply (step_set_near _ Lft) || eapply (step_set_near _ Rgt)); [exact Hm| |exact Hm|]; by apply wp_ret. }
    intros [] i3 ->. eexists. unfold put_nodes. rewrite Hr, Hn. split; [done|]. split; [intros ????? [= <- <- <- <- <-]; lk|].
    split; [intros a [?|?]; [lk|done]|]. rewrite dom_insert_lookup_L; [done|by eexists].
Qed.

Lemma unlink_spec nl pn X ctx d c s y i : shape nl pn X ctx (node d c s y Leaf) i →
  wp (rbtree_unlink (Some (i_addr y))) i (λ x i', x = Some (top nl s) ∧ ∃ pn' ny,
    node_color ny = Some c ∧ node_key ny = Some (i_key y) ∧ node_value ny = Some (i_value y) ∧
    focus_in nl pn' (<[i_addr y := ny]> X) s ctx i').
Proof.
  intros Hs. pose proof (shape_node _ _ _ _ _ _ _ _ _ _ Hs) as Hy. pose proof Hs as (Hr & Hn & Hnl & Ht & Hc & Hf).
  rewrite tree_in_node in Ht. destruct Ht as (_ & Hts & _). rewrite top_node in Hr, Hc.
  assert (NoDup (nl :: i_addr y :: addrs s ++ path_addrs ctx)) as Hnd.
  { pose proof (shape_NoDup _ _ _ _ _ _ Hs) as Hnd. rewrite addrs_node in Hnd. cbn in Hnd. by rewrite app_nil_r in Hnd. }
  rewrite !NoDup_cons, NoDup_app, not_elem_of_cons, !not_elem_of_app in Hnd.
  destruct Hnd as ((Hny & Hns & Hnc) & (Hys & Hyc) & Hnds & Hsc & Hndc).
  unfold rbtree_unlink. eapply wp_eq; [reflexivity|]. cbv beta. rewrite Hn.
  eapply wp_step2; [by eapply only_child_spec|]. intros x i' [-> ->]. eapply step_parent; [exact Hy|].
  eapply wp_step; [by apply (adopt_spec nl pn (path_parent nl ctx) (i_addr y))|].
  intros [] i2 (h2 & pn' & -> & Hpn & Hnl2 & Hs2 & Hext2 & Hdom2).
  assert (∀ a, a ∈ i_addr y :: path_addrs ctx → h2 !! a = rb_nodes i !! a) as Hout.
  { intros a [->|Ha]%elem_of_cons; apply Hext2; try congruence; destruct (top_in nl s) as [->|Hin]; try (cbn; congruence).
    intros ->. by apply (Hsc _ Hin). }
  eapply step_parent; [cbn; rewrite Hout by (by left); exact Hy|].
  eapply wp_step; [apply (replace_child_spec nl ctx (top nl s) (i_addr y)); try done|].
  { eapply path_in_ext; [|exact Hc]. intros a Ha. apply Hout. by right. }
  { by apply NoDup_cons. }
  { rewrite not_elem_of_cons. by split. }
  intros [] i3 (h3 & -> & Hp3 & Hext3 & Hdom3). cbn [rb_nodes put_nodes] in *. apply wp_ret. split; [done|]. exists pn', (side_mem d c (top nl s) nl (path_parent nl ctx) y).
  split; [by destruct d|]. split; [by destruct d|]. split; [by destruct d|]. split; [|done].
  assert (∀ a, a ∉ path_addrs ctx → h3 !! a = h2 !! a) as Hoff.
  { intros a Ha. apply Hext3. destruct (path_parent_in nl ctx) as [?|Hin]; [by right|left]. congruence. }
  eapply shape_cut; [exact Hs| | | |done| |congruence|done].
  - by rewrite Hoff.
  - rewrite Hoff by done. rewrite Hout by (by left). exact Hy.
  - intros sc sl sn sr ->. rewrite Hoff; [by eapply Hs2|]. apply Hsc. by destruct (top_in nl (Node sc sl sn sr)).
  - intros a ? ? ? Hp. rewrite Hext3 by done. by apply Hext2.
Qed.

(** ** Swapping the data of two nodes *)

Lemma shape_detached nl pn X ctx t a n n' i : shape nl pn X ctx t i → X !! a = Some n →
  shape nl pn (<[a := n']> X) ctx t (put_nodes (<[a := n']> (rb_nodes i)) i).
Proof.
  intros (Hr & Hn & Hnl & Ht & Hc & Hnd & HX & Hd & Hdom) Ha.
  assert (∀ b, b ∈ nl :: addrs t ++ path_addrs ctx → b ≠ a) as Hne by (intros b Hb ->; apply Hd in Hb; congruence).
  unfold shape. cbn [put_nodes rb_root rb_nil rb_nodes]. split; [done|]. split; [done|].
  split; [rewrite lookup_insert_ne; [done|by apply not_eq_sym, Hne; left]|].
  split; [|split; [|split; [done|split; [|split]]]].
  - eapply tree_in_ext; [|exact Ht]. intros b Hb. apply lookup_insert_ne, not_eq_sym, Hne. right. apply elem_of_app. by left.
  - eapply path_in_ext; [|exact Hc]. intros b Hb. apply lookup_insert_ne, not_eq_sym, Hne. right. apply elem_of_app. by right.
  - by apply insert_mono.
  - intros b Hb. rewrite lookup_insert_ne by (by apply not_eq_sym, Hne). by apply Hd.
  - rewrite !dom_insert_L, Hdom. set_solver.
Qed.

Lemma swap_spec nl pn X ctx d c a z b y ny i :
  shape nl pn X ctx (node d c a z b) i → X !! y = Some ny → ∀ k v, node_key ny = Some k → node_value ny = Some v →
  wp (swap_data (Some (i_addr z)) (Some y)) i (λ _ i', ∃ ny', node_color ny' = node_color ny ∧
    node_key ny' = Some (i_key z) ∧ node_value ny' = Some (i_value z) ∧
    shape nl pn (<[y := ny']> X) ctx (node d c a (Info (i_addr z) k v) b) i').
Proof.
  intros Hs Hy k v Hk Hv. pose proof (shape_node _ _ _ _ _ _ _ _ _ _ Hs) as Hz.
  assert (rb_nodes i !! y = Some ny) as Hy' by (destruct Hs as (_ & _ & _ & _ & _ & _ & HX & _); by eapply lookup_weaken).
  assert (i_addr z ≠ y) as Hzy.
  { intros <-. destruct Hs as (_ & _ & _ & _ & _ & _ & _ & Hd & _). rewrite Hd in Hy; [done|]. rewrite addrs_node. right. by left. }
  unfold swap_data. do 2 (eapply step_node_at; [done|]). rewrite Hk, Hv.
  eapply step_update; [exact Hz|]. eapply step_update; [lk|]. eapply step_update; [lk|]. eapply wp_update; [lk|].
  cbn [put_nodes rb_nodes rb_root rb_nil]. exists (with_value (Some (i_value z)) (with_key (Some (i_key z)) ny)).
  split; [done|]. split; [done|]. split; [done|].
  pose proof (shape_set _ _ _ _ _ _ c _ _ (Info (i_addr z) k v) _ _ Hs eq_refl) as Hs1.
  apply (shape_detached _ _ _ _ _ y ny (with_value (Some (i_value z)) (with_key (Some (i_key z)) ny))) in Hs1; [|done].
  match goal with |- shape _ _ _ _ _ ?i2 => match type of Hs1 with shape _ _ _ _ _ ?i1 => assert (i1 = i2) as <-; [|exact Hs1] end end.
  unfold put_nodes. cbn. rewrite (insert_insert_ne _ (i_addr z) y) by done. rewrite !insert_insert_eq. by destruct d.
Qed.

(** ** Deleting a node *)

Definition pair_of (n : info) : cstr * cstr := (i_key n, i_value n).

Lemma step_detached_color {Y} nl pn X ctx t y ny c i (k : rb_color → T Y) Q : shape nl pn X ctx t i →
  X !! y = Some ny → node_color ny = Some c → wp (k c) i Q → wp (color (Some y) ≫= k) i Q.
Proof.
  intros (_ & _ & _ & _ & _ & _ & HX & _) Hy Hc Hk. eapply step_field; [by eapply lookup_weaken|exact Hc|done].
Qed.

(** The black node that left is made up for. *)
Lemma repair_spec nl pn X ctx c s y ny i : focus_in nl pn X s ctx i → X !! y = Some ny → node_color ny = Some c →
  ∀ d n k, rb (node d c s n Leaf) k → rb_path ctx c k →
  wp (c ← color (Some y); (if bool_decide (c = BLACK) then rbtree_delete_fixup (Some (top nl s)) else mret tt);; mret (Some y)) i
    (λ r i', r = Some y ∧ ∃ t', inorder t' = inorder (plug ctx s) ∧ balanced t' ∧ shape nl pn X [] t' i').
Proof.
  intros Hf Hy Hc d n k Hk Hp. eapply step_detached_color; [apply Hf|exact Hy|exact Hc|].
  eapply (wp_step _ _ _ (λ _ i', ∃ t', inorder t' = inorder (plug ctx s) ∧ balanced t' ∧ shape nl pn X [] t' i')).
  - destruct c.
    + rewrite bool_decide_eq_false_2 by done. apply wp_ret. exists (plug ctx s). split; [done|]. rewrite <- shape_plug.
      split; [|apply Hf]. rewrite rb_node_red in Hk. destruct Hk as (Hs & _ & Hk & _).
      apply (rb_plug _ _ k); [done|]. rewrite Hs. by apply rb_path_black with RED.
    + rewrite bool_decide_eq_true_2 by done. apply delete_fixup_spec; [done|].
      rewrite rb_node_black in Hk. destruct Hk as (j & -> & Hk & _). exists j. split; [done|].
      destruct s as [|[] l m r]; [done| |done]. cbn in *. tauto.
  - intros [] i' Ht. by apply wp_ret.
Qed.

Lemma plug_zoom c1 d c n s c2 t : plug (c1 ++ Fr d c n s :: c2) t = plug c2 (node d c (plug c1 t) n s).
Proof. by rewrite plug_app. Qed.

Lemma shape_zoom nl pn X c1 d c n s c2 t i :
  shape nl pn X (c1 ++ Fr d c n s :: c2) t i ↔ shape nl pn X c2 (node d c (plug c1 t) n s) i.
Proof. apply shape_refocus, plug_zoom. Qed.

Lemma rb_path_info c1 d c n n' s c2 col k : rb_path (c1 ++ Fr d c n s :: c2) col k → rb_path (c1 ++ Fr d c n' s :: c2) col k.
Proof.
  revert col k. induction c1 as [|[d0 c0 n0 s0] c1 IH]; intros col k; [done|]. cbn [app rb_path]. destruct c0; intuition auto.
Qed.

Lemma path_parent_info nl c1 d c n n' s c2 : i_addr n' = i_addr n →
  path_parent nl (c1 ++ Fr d c n' s :: c2) = path_parent nl (c1 ++ Fr d c n s :: c2).
Proof. by destruct c1. Qed.

(** What a deletion promises: the node that left the tree, with the data of [n], and the
    rest of the entries in order. *)
Definition deleted (nl : addr) (ctx : path) (l : tree) (n : info) (r : tree) (y : ptr) (i : kvs_rbtree_t) : Prop :=
  ∃ p ny pn t', y = Some p ∧ node_key ny = Some (i_key n) ∧ node_value ny = Some (i_value n) ∧
    pair_of <$> inorder t' = pair_of <$> (path_before ctx ++ inorder l ++ inorder r ++ path_after ctx) ∧
    p :: (i_addr <$> inorder t') ≡ₚ i_addr <$> (path_before ctx ++ inorder l ++ n :: inorder r ++ path_after ctx) ∧
    balanced t' ∧ shape nl pn {[p := ny]} [] t' i.

Lemma deleted_side nl ctx s n y i : deleted nl ctx s n Leaf y i → deleted nl ctx Leaf n s y i.
Proof.
  intros (p & ny & pn & t' & Hy & Hk & Hv & E & Hp & Hrest). exists p, ny, pn, t'. split; [done|]. split; [done|]. split; [done|].
  split; [by rewrite E|]. split; [|done]. rewrite Hp, !fmap_app, !fmap_cons. cbn. rewrite !fmap_app. solve_Permutation.
Qed.

Lemma delete_simple nl pn ctx d c s n i : shape nl pn ∅ ctx (node d c s n Leaf) i → balanced (plug ctx (node d c s n Leaf)) →
  wp (x ← rbtree_unlink (Some (i_addr n));
      (if negb (bool_decide (Some (i_addr n) = Some (i_addr n))) then swap_data (Some (i_addr n)) (Some (i_addr n)) else mret tt);;
      c ← color (Some (i_addr n));
      (if bool_decide (c = BLACK) then rbtree_delete_fixup x else mret tt);;
      mret (Some (i_addr n))) i (deleted nl ctx s n Leaf).
Proof.
  intros Hs Hb. apply rb_unplug in Hb as (k & Hk & Hp). rewrite tree_color_node in Hp.
  eapply wp_step; [by eapply unlink_spec|]. intros x i2 (-> & pn' & ny & Hc & Hkey & Hval & Hf). rewrite insert_empty in Hf.
  rewrite bool_decide_eq_true_2 by done. eapply wp_eq; [reflexivity|]. cbv beta.
  eapply wp_mono; [by eapply repair_spec; [exact Hf|apply lookup_singleton_eq|exact Hc|exact Hk|]|].
  intros r i3 (-> & t' & E & Hb & Hs3). exists (i_addr n), ny, pn', t'. split; [done|]. split; [done|]. split; [done|].
  rewrite E, inorder_plug. split; [done|]. split; [|done].
  rewrite !fmap_app, !fmap_cons. cbn. solve_Permutation.
Qed.

Lemma delete_swapped nl pn ctx c l n r i : shape nl pn ∅ ctx (Node c l n r) i → balanced (plug ctx (Node c l n r)) → r ≠ Leaf →
  wp (y ← rbtree_successor (Some (i_addr n));
      x ← rbtree_unlink y;
      (if negb (bool_decide (y = Some (i_addr n))) then swap_data (Some (i_addr n)) y else mret tt);;
      c ← color y;
      (if bool_decide (c = BLACK) then rbtree_delete_fixup x else mret tt);;
      mret y) i (deleted nl ctx l n r).
Proof.
  intros Hs Hb Hr. eapply wp_step; [by eapply successor_spec|]. intros m i' (-> & cy & cc & y & s & [<- Hbefore] & ->).
  apply (shape_zoom nl pn ∅ cy Rgt c n l ctx (node Rgt cc s y Leaf)) in Hs.
  assert (rb_unplug_at : ∃ k, rb (node Rgt cc s y Leaf) k ∧ rb_path (cy ++ Fr Rgt c n l :: ctx) cc k).
  { destruct (rb_unplug (cy ++ Fr Rgt c n l :: ctx) (node Rgt cc s y Leaf)) as (k & Hk & Hp); [by rewrite plug_zoom|]. by exists k. }
  destruct rb_unplug_at as (k & Hk & Hp).
  assert (i_addr y ≠ i_addr n) as Hyn.
  { apply shape_NoDup in Hs. intros E. rewrite addrs_node, E in Hs. cbn in Hs. rewrite !NoDup_cons, not_elem_of_app in Hs.
    destruct Hs as (_ & (_ & Hn) & _). apply Hn. unfold path_addrs, path_infos. rewrite bind_app, fmap_app. apply elem_of_app. right. by left. }
  eapply wp_step; [by eapply unlink_spec|]. intros x i2 (-> & pn' & ny & Hc & Hkey & Hval & Hs2 & Hpn). rewrite insert_empty in Hs2.
  rewrite bool_decide_eq_false_2 by congruence. apply shape_zoom in Hs2.
  eapply wp_step; [by eapply swap_spec; [exact Hs2|apply lookup_singleton_eq| |]|]. intros [] i3 (ny' & Hc' & Hkey' & Hval' & Hs3).
  rewrite insert_singleton_eq in Hs3. apply shape_zoom in Hs3.
  eapply wp_mono; [eapply repair_spec; [split; [exact Hs3|]|apply lookup_singleton_eq|by rewrite Hc'|exact Hk|by eapply rb_path_info]|].
  { intros Hl. rewrite (path_parent_info _ _ _ _ n); auto. }
  intros r i4 (-> & t' & E & Hb' & Hs4). exists (i_addr y), ny', pn', t'. split; [done|]. split; [done|]. split; [done|].
  rewrite E, inorder_plug, path_before_app, path_after_app, inorder_plug, Hbefore. cbn.
  split; [rewrite !fmap_app, !fmap_cons, !fmap_app; cbn; by rewrite <- !app_assoc|]. split; [|done].
  rewrite !fmap_app, !fmap_cons, !fmap_app. cbn. solve_Permutation.
Qed.

Lemma delete_spec nl pn ctx c l n r i : shape nl pn ∅ ctx (Node c l n r) i → balanced (plug ctx (Node c l n r)) →
  wp (rbtree_delete (Some (i_addr n))) i (deleted nl ctx l n r).
Proof.
  intros Hs Hb. pose proof (shape_node nl pn ∅ ctx Lft c l n r i Hs) as Hn. pose proof Hs as (_ & Hnil & _).
  unfold rbtree_delete. eapply wp_eq; [reflexivity|]. cbv beta. rewrite Hnil.
  assert (∀ t, t = l ∨ t = r → bool_decide (Some (top nl t) = Some nl) = match t with Leaf => true | _ => false end) as Hnilp.
  { intros t Ht. rewrite <- (top_nil nl t); [apply bool_decide_ext; split; [by intros [= ->]|by intros ->]|].
    apply shape_NoDup, NoDup_cons in Hs as [Hnl _]. unfold addrs in Hnl. cbn in Hnl.
    rewrite fmap_app, fmap_cons, !not_elem_of_app, not_elem_of_cons in Hnl. destruct Ht as [->| ->]; tauto. }
  eapply (step_near _ Lft); [exact Hn|]. rewrite (Hnilp l) by auto.
  destruct l as [|lc ll ln lr].
  - eapply wp_eq; [reflexivity|]. cbv beta. eapply wp_mono; [by apply (delete_simple nl pn ctx Rgt c r n)|]. apply deleted_side.
  - apply wp_bind_assoc. eapply (step_far _ Lft); [exact Hn|]. rewrite (Hnilp r) by auto. destruct r as [|rc rl rn rr].
    + eapply wp_eq; [reflexivity|]. cbv beta. by apply (delete_simple nl pn ctx Lft c _ n).
    + by eapply delete_swapped.
Qed.
