(* ===== verification/RbEngine.v ===== *)
(** The red-black tree engine: the operations of src/engines/kvs_rbtree.c on the tree
    of RbTree and the storage contract.  An instance is well formed when its heap
    holds a sentinel and one tree, balanced and in strictly increasing order of the
    keys, and nothing else. *)

From Stdlib Require Import ZArith Lia.
From S2P Require Import Prelude Runtime Engine RbTree RbDelete.

(** * Operations *)

(** A function on the tree, called by code that holds the instance. *)
Definition on_tree {W X} (m : T X) (inst : kvs_rbtree_t) : M W (X * kvs_rbtree_t) := λ w,
  match m inst with Ok x inst => Ok (x, inst) w | Halt _ => Halt w | UB => UB end.

Section ops.
Context `{CRuntime W}.

Definition rbtree_node_alloc : M W ptr := kvs_malloc 48.
Definition rbtree_node_storage_free (node : ptr) : M W unit :=
  if bool_decide (node = None) then mret tt else kvs_free node.

(** The node leaves the heap. *)
Definition rbtree_node_free (inst : kvs_rbtree_t) (node : ptr) : M W kvs_rbtree_t :=
  match node with
  | None => mret inst
  | Some p =>
      n ← deref (rb_nodes inst !! p);
      kvs_free (cs_addr <$> node_key n);;
      kvs_free (cs_addr <$> node_value n);;
      rbtree_node_storage_free (Some p);;
      mret (put_nodes (delete p (rb_nodes inst)) inst)
  end.

Definition nil_node (p : addr) : rbtree_node :=
  RbNode (Some BLACK) (Some (Some p)) (Some (Some p)) (Some (Some p)) None None.

Definition kvs_rbtree_create (inst : kvs_rbtree_t) : M W (Z * kvs_rbtree_t) :=
  nil ← kvs_malloc 48;
  match nil with
  | None => mret (-1, KvsRbtree None None (rb_nodes inst))
  | Some p => mret (0, KvsRbtree (Some p) (Some p) (<[p := nil_node p]> (rb_nodes inst)))
  end.

(** The [while] of [kvs_rbtree_destory]. *)
Fixpoint destory_loop (fuel : nat) (inst : kvs_rbtree_t) : M W kvs_rbtree_t :=
  if bool_decide (rb_root inst = rb_nil inst) then mret inst else
  match fuel with
  | O => undefined
  | S fuel =>
      '(mini, inst) ← on_tree (rbtree_mini (rb_root inst)) inst;
      '(removed, inst) ← on_tree (rbtree_delete mini) inst;
      inst ← rbtree_node_free inst removed;
      destory_loop fuel inst
  end.

Definition kvs_rbtree_destory (inst : kvs_rbtree_t) : M W kvs_rbtree_t :=
  match rb_nil inst with
  | None => mret inst
  | Some _ =>
      inst ← destory_loop (size (rb_nodes inst)) inst;
      kvs_free (rb_nil inst);;
      mret (KvsRbtree None None (from_option (λ p, delete p (rb_nodes inst)) (rb_nodes inst) (rb_nil inst)))
  end.

(** The replacement of a value, in [kvs_rbtree_set] and [kvs_rbtree_mod]. *)
Definition replace_value (inst : kvs_rbtree_t) (node : ptr) (v : bytes) : M W (Z * kvs_rbtree_t) :=
  new_value ← malloc_copy v;
  match new_value with
  | None => mret (-2, inst)
  | Some nv =>
      '(n, inst) ← on_tree (node_at node) inst;
      kvs_free (cs_addr <$> node_value n);;
      '(_, inst) ← on_tree (update (with_value (Some nv)) node) inst;
      mret (0, inst)
  end.

Definition kvs_rbtree_set (inst : kvs_rbtree_t) (key value : option bytes) : M W (Z * kvs_rbtree_t) :=
  match key, value with
  | Some k, Some v =>
      '(existing, inst) ← on_tree (rbtree_search k) inst;
      if negb (bool_decide (existing = rb_nil inst)) then replace_value inst existing v else
      node ← rbtree_node_alloc;
      match node with
      | None => mret (-2, inst)
      | Some p =>
          kc ← malloc_copy k;
          match kc with
          | None => rbtree_node_storage_free node;; mret (-2, inst)
          | Some kc =>
              vc ← malloc_copy v;
              match vc with
              | None =>
                  kvs_free (Some (cs_addr kc));;
                  rbtree_node_storage_free node;;
                  mret (-2, inst)
              | Some vc =>
                  let fresh := RbNode None None None None (Some kc) (Some vc) in
                  '(_, inst) ← on_tree (rbtree_insert node) (put_nodes (<[p := fresh]> (rb_nodes inst)) inst);
                  mret (0, inst)
              end
          end
      end
  | _, _ => mret (-1, inst)
  end.

Definition kvs_rbtree_get (inst : kvs_rbtree_t) (key : option bytes) : M W (option bytes) :=
  match key with
  | None => mret None
  | Some k =>
      '(node, inst) ← on_tree (rbtree_search k) inst;
      '(n, _) ← on_tree (node_at node) inst;
      mret (cs_str <$> node_value n)
  end.

Definition kvs_rbtree_del (inst : kvs_rbtree_t) (key : option bytes) : M W (Z * kvs_rbtree_t) :=
  match key with
  | None => mret (-1, inst)
  | Some k =>
      '(node, inst) ← on_tree (rbtree_search k) inst;
      if bool_decide (node = rb_nil inst) then mret (1, inst) else
      '(cur, inst) ← on_tree (rbtree_delete node) inst;
      inst ← rbtree_node_free inst cur;
      mret (0, inst)
  end.

Definition kvs_rbtree_mod (inst : kvs_rbtree_t) (key value : option bytes) : M W (Z * kvs_rbtree_t) :=
  match key, value with
  | Some k, Some v =>
      '(node, inst) ← on_tree (rbtree_search k) inst;
      if bool_decide (node = rb_nil inst) then mret (1, inst) else replace_value inst node v
  | _, _ => mret (-1, inst)
  end.

Definition kvs_rbtree_exist (inst : kvs_rbtree_t) (key : option bytes) : M W Z :=
  match key with
  | None => mret (-1)
  | Some k =>
      '(node, inst) ← on_tree (rbtree_search k) inst;
      mret (if bool_decide (node = rb_nil inst) then 1 else 0)
  end.

(** The recursion of [kvs_rbtree_foreach_node], which may be as deep as [fuel]. *)
Fixpoint kvs_rbtree_foreach_node {V C} (fuel : nat) (inst : kvs_rbtree_t) (node : ptr)
    (visitor : kvs_visit_handler V C) (context : C) : M V (Z * C) :=
  if bool_decide (node = None) then mret (-1, context) else
  if bool_decide (node = rb_nil inst) then mret (0, context) else
  match fuel with
  | O => undefined
  | S fuel =>
      '(n, _) ← on_tree (node_at node) inst;
      left ← deref (node_left n);
      '(r, context) ← kvs_rbtree_foreach_node fuel inst left visitor context;
      if r <? 0 then mret (-1, context) else
      '(ret, context) ← (match node_key n, node_value n with
                         | Some k, Some v => visitor (cs_str k) (cs_str v) context
                         | _, _ => mret (0, context)
                         end);
      if ret <? 0 then mret (-1, context) else
      right ← deref (node_right n);
      '(r, context) ← kvs_rbtree_foreach_node fuel inst right visitor context;
      if r <? 0 then mret (-1, context) else mret (0, context)
  end.

Definition kvs_rbtree_foreach {V C} (inst : kvs_rbtree_t) (visitor : option (kvs_visit_handler V C)) (context : C) :
    M V (Z * C) :=
  match rb_root inst, rb_nil inst, visitor with
  | Some _, Some _, Some visitor => kvs_rbtree_foreach_node (size (rb_nodes inst)) inst (rb_root inst) visitor context
  | _, _, _ => mret (-1, context)
  end.
End ops.

(** ** Observations *)

(** The nodes below [p] in order. *)
Fixpoint walk_nodes (fuel : nat) (h : gmap Z rbtree_node) (nil p : ptr) : list info :=
  match fuel, p with
  | S fuel, Some a =>
      if bool_decide (p = nil) then [] else
      match h !! a with
      | Some (RbNode _ (Some r) (Some l) _ (Some k) (Some v)) =>
          walk_nodes fuel h nil l ++ Info a k v :: walk_nodes fuel h nil r
      | _ => []
      end
  | _, _ => []
  end.

Definition rb_infos (inst : kvs_rbtree_t) : list info := walk_nodes (size (rb_nodes inst)) (rb_nodes inst) (rb_nil inst) (rb_root inst).
Definition info_strs (n : info) : bytes * bytes := (cs_str (i_key n), cs_str (i_value n)).
Definition info_blocks (n : info) : list addr := [i_addr n; cs_addr (i_key n); cs_addr (i_value n)].

Definition kvs_rbtree_entries (inst : kvs_rbtree_t) : list (bytes * bytes) := info_strs <$> rb_infos inst.
Definition kvs_rbtree_owned (inst : kvs_rbtree_t) : list addr :=
  match rb_nil inst with None => [] | Some nl => nl :: mjoin (info_blocks <$> rb_infos inst) end.

(** The instance holds the tree [t]. *)
Definition rb_rep (inst : kvs_rbtree_t) (nl : addr) (t : tree) : Prop :=
  (∃ pn, shape nl pn ∅ [] t inst) ∧ sorted (inorder t) ∧ balanced t.
Definition kvs_rbtree_wf (inst : kvs_rbtree_t) : Prop := ∃ nl t, rb_rep inst nl t.

#[export] Instance rbtree_engine `{CRuntime W} : Engine W kvs_rbtree_t := {|
  eng_zero := global_rbtree_zero;
  eng_create := kvs_rbtree_create;
  eng_destroy := kvs_rbtree_destory;
  eng_set := kvs_rbtree_set;
  eng_get := kvs_rbtree_get;
  eng_del := kvs_rbtree_del;
  eng_mod := kvs_rbtree_mod;
  eng_exist := kvs_rbtree_exist;
  eng_foreach := @kvs_rbtree_foreach;
  eng_entries := kvs_rbtree_entries;
  eng_owned := kvs_rbtree_owned;
  eng_wf := kvs_rbtree_wf;
  eng_key := λ _, True;
  eng_room := λ _, true;
  eng_del_missing := 1;
|}.

(** * The representation *)

Lemma rb_walk_spec h nl p t fuel : tree_in h nl p t → nl ∉ addrs t → (List.length (inorder t) <= fuel)%nat →
  walk_nodes fuel h (Some nl) (Some (top nl t)) = inorder t.
Proof.
  revert p fuel. induction t as [|c l IHl n r IHr]; intros p fuel Ht Hnl Hf.
  { destruct fuel; [done|]. cbn. by rewrite bool_decide_eq_true_2. }
  destruct Ht as (Hn & Hl & Hr). change (Node c l n r) with (node Lft c l n r) in Hnl. rewrite addrs_node in Hnl.
  rewrite not_elem_of_cons, not_elem_of_app in Hnl. destruct Hnl as (Hnn & Hnl & Hnr).
  cbn [inorder] in Hf. rewrite length_app in Hf. cbn [List.length] in Hf. destruct fuel as [|fuel]; [lia|].
  cbn [walk_nodes top]. rewrite bool_decide_eq_false_2 by congruence. rewrite Hn. cbn [mem].
  rewrite (IHl _ fuel Hl Hnl ltac:(lia)), (IHr _ fuel Hr Hnr ltac:(lia)). by destruct n.
Qed.

Lemma rep_infos inst nl t : rb_rep inst nl t → rb_infos inst = inorder t.
Proof.
  intros ((pn & Hr & Hn & Hnl & Ht & _ & Hf) & _). unfold rb_infos. rewrite Hr, Hn. cbn [path_root].
  rewrite app_nil_r in Hf. pose proof (footprint_size _ _ _ _ Hf) as Hsize. unfold addrs in Hsize. rewrite length_fmap in Hsize.
  destruct Hf as (Hnd & _). apply NoDup_cons in Hnd as [Hnd _]. eapply rb_walk_spec; [exact Ht|done|lia].
Qed.

Lemma rep_entries inst nl t : rb_rep inst nl t → kvs_rbtree_entries inst = info_strs <$> inorder t.
Proof. intros Hrep. unfold kvs_rbtree_entries. by rewrite (rep_infos _ _ _ Hrep). Qed.

Lemma rb_rep_owned inst nl t : rb_rep inst nl t → kvs_rbtree_owned inst = nl :: mjoin (info_blocks <$> inorder t).
Proof.
  intros Hrep. unfold kvs_rbtree_owned. rewrite (rep_infos _ _ _ Hrep). by destruct Hrep as ((pn & _ & -> & _) & _).
Qed.

Lemma strs_keys l : (info_strs <$> l).*1 = key_str <$> l.
Proof. by rewrite <- list_fmap_compose. Qed.

(** The blocks of the nodes: their addresses and those of their data. *)
Definition data_blocks (kv : cstr * cstr) : list addr := [cs_addr kv.1; cs_addr kv.2].

Lemma blocks_split l : mjoin (info_blocks <$> l) ≡ₚ (i_addr <$> l) ++ mjoin (data_blocks <$> (pair_of <$> l)).
Proof. induction l as [|n l IH]; [done|]. rewrite !fmap_cons. cbn. rewrite IH. solve_Permutation. Qed.

Lemma blocks_app l1 l2 : mjoin (info_blocks <$> l1 ++ l2) = mjoin (info_blocks <$> l1) ++ mjoin (info_blocks <$> l2).
Proof. by rewrite fmap_app, join_app. Qed.

Section maps.
Context `{CRuntime W}.

Lemma rb_rep_map inst nl t : rb_rep inst nl t → eng_map (W := W) inst = list_to_map (info_strs <$> inorder t).
Proof. intros Hrep. unfold eng_map. cbn [eng_entries rbtree_engine]. by rewrite (rep_entries _ _ _ Hrep). Qed.

(** The keys before and after the place of [k]. *)
Lemma position_notin k ctx t : position k ctx t →
  k ∉ (info_strs <$> path_before ctx).*1 ∧ k ∉ (info_strs <$> path_after ctx).*1.
Proof.
  intros (Hb & Ha & _). rewrite !strs_keys. split; [apply below_notin|apply above_notin]; by rewrite Forall_fmap.
Qed.

Lemma rep_sorted_plug inst nl ctx t : rb_rep inst nl (plug ctx t) → sorted (path_before ctx ++ inorder t ++ path_after ctx).
Proof. intros (_ & Hs & _). by rewrite inorder_plug in Hs. Qed.

(** The children of a node in its place are on their sides of it. *)
Lemma found_inorder ctx c l n r : inorder (plug ctx (Node c l n r)) = (path_before ctx ++ inorder l) ++ n :: (inorder r ++ path_after ctx).
Proof. rewrite inorder_plug. cbn. by rewrite <- !app_assoc. Qed.

Lemma sorted_notin l1 n l2 : sorted (l1 ++ n :: l2) → key_str n ∉ (info_strs <$> l1).*1 ∧ key_str n ∉ (info_strs <$> l2).*1.
Proof.
  unfold sorted. rewrite fmap_app, fmap_cons, !strs_keys. intros Hs. apply sorted_nodup in Hs.
  rewrite NoDup_app, NoDup_cons in Hs. destruct Hs as (_ & Hd & Hn & _). split; [|done]. intros Hin. apply (Hd _ Hin). by left.
Qed.

Lemma rep_lookup inst nl k ctx t : rb_rep inst nl (plug ctx t) → position k ctx t →
  eng_map (W := W) inst !! k = match t with Leaf => None | Node _ _ n _ => Some (cs_str (i_value n)) end.
Proof.
  intros Hrep Hpos. rewrite (rb_rep_map _ _ _ Hrep). destruct t as [|c l n r].
  - rewrite inorder_plug. cbn. destruct (position_notin _ _ _ Hpos) as [Hb Ha].
    apply to_map_absent. rewrite !fmap_app, not_elem_of_app. done.
  - pose proof Hrep as (_ & Hs & _). rewrite found_inorder in *. destruct Hpos as (_ & _ & <-).
    rewrite fmap_app, fmap_cons. apply to_map_middle. by destruct (sorted_notin _ _ _ Hs).
Qed.
End maps.

(** * The contract *)

Lemma wp_on_tree {W X} (m : T X) inst (w : W) (Q : X * kvs_rbtree_t → W → Prop) :
  wp m inst (λ x inst', Q (x, inst') w) → wp (on_tree m inst) w Q.
Proof. unfold wp, on_tree. by destruct (m inst). Qed.

Lemma step_on_tree {W X Y} (m : T X) inst (w : W) (P : X → kvs_rbtree_t → Prop) (k : X * kvs_rbtree_t → M W Y) Q :
  wp m inst P → (∀ x inst', P x inst' → wp (k (x, inst')) w Q) → wp (on_tree m inst ≫= k) w Q.
Proof. intros Hm Hk. apply wp_bind, wp_on_tree. eapply wp_mono; [exact Hm|]. auto. Qed.

Lemma wp_node_at a n i (Q : rbtree_node → kvs_rbtree_t → Prop) :
  rb_nodes i !! a = Some n → Q n i → wp (node_at (Some a)) i Q.
Proof. intros Ha Hq. apply wp_tail. eapply step_node_at; [exact Ha|by apply wp_ret]. Qed.

Section laws.
Context `{CRuntimeLaws W}.
Implicit Types (w : W) (F : gset addr).

Definition blocks (nl : addr) (l : list info) : list addr := nl :: mjoin (info_blocks <$> l).

Lemma rb_rep_keeps F w w' inst nl t : rb_rep inst nl t → owns (blocks nl (inorder t)) F w' → (roomy w → roomy w') →
  keeps_wf F w inst w'.
Proof.
  intros Hrep Hw Hr. split; [by exists nl, t|]. split; [|done]. cbn [eng_owned rbtree_engine]. by rewrite (rb_rep_owned _ _ _ Hrep).
Qed.

Lemma rb_blocks_middle nl l1 n l2 : blocks nl (l1 ++ n :: l2) ≡ₚ info_blocks n ++ blocks nl (l1 ++ l2).
Proof. unfold blocks. rewrite !fmap_app, fmap_cons, !join_app. cbn. solve_Permutation. Qed.

(** The search of an operation. *)
Lemma step_search {Y} inst nl t k w (f : ptr * kvs_rbtree_t → M W Y) (Q : Y → W → Prop) : rb_rep inst nl t →
  (∀ ctx t', rb_rep inst nl (plug ctx t') → plug ctx t' = t → position k ctx t' → wp (f (Some (top nl t'), inst)) w Q) →
  wp (on_tree (rbtree_search k) inst ≫= f) w Q.
Proof.
  intros Hrep Hk. pose proof Hrep as ((pn & Hs) & Hsort & _).
  eapply step_on_tree; [by eapply rb_search_spec|]. intros x inst' (-> & ctx & t' & E & -> & Hpos).
  apply (Hk ctx t'); [by rewrite E|done..].
Qed.

Lemma rep_found inst nl ctx t : rb_rep inst nl (plug ctx t) →
  bool_decide (Some (top nl t) = rb_nil inst) = match t with Leaf => true | _ => false end.
Proof.
  intros ((pn & Hs) & _). rewrite <- shape_plug in Hs. pose proof Hs as (_ & -> & _).
  apply shape_NoDup, NoDup_cons in Hs as [Hnl _]. rewrite <- (top_nil nl t).
  - apply bool_decide_ext. split; [by intros [= ->]|by intros ->].
  - rewrite not_elem_of_app in Hnl. tauto.
Qed.

(** ** A new value *)

Lemma balanced_info ctx c l n n' r : balanced (plug ctx (Node c l n r)) → balanced (plug ctx (Node c l n' r)).
Proof. intros (k & Hk & Hp)%rb_unplug. by apply (rb_plug ctx _ k). Qed.

Lemma rb_rep_set_value inst nl ctx c l n r v : rb_rep inst nl (plug ctx (Node c l n r)) →
  wp (update (with_value (Some v)) (Some (i_addr n))) inst (λ _ inst',
    rb_rep inst' nl (plug ctx (Node c l (Info (i_addr n) (i_key n) v) r))).
Proof.
  intros ((pn & Hs) & Hsort & Hb). rewrite <- shape_plug in Hs. pose proof (shape_node _ _ _ _ Lft _ _ _ _ _ Hs) as Hn.
  eapply wp_update; [exact Hn|]. split; [|split].
  - exists pn. rewrite <- shape_plug. by apply (shape_set nl pn ∅ ctx Lft c c l n (Info (i_addr n) (i_key n) v) r).
  - unfold sorted in *. rewrite found_inorder in *. by rewrite fmap_app, fmap_cons in *.
  - by eapply balanced_info.
Qed.

Lemma rb_replace_value_spec inst nl ctx c l n r v F w :
  rb_rep inst nl (plug ctx (Node c l n r)) → owns (kvs_rbtree_owned inst) F w →
  wp (replace_value inst (Some (i_addr n)) v) w (λ '(ret, inst') w', keeps_wf F w inst' w' ∧
    (ret = 0 ∧ eng_map (W := W) inst' = <[key_str n := v]> (eng_map (W := W) inst) ∨ ret = -2 ∧ inst' = inst) ∧
    (roomy w → ret = 0)).
Proof.
  intros Hrep Hw. rewrite (rb_rep_owned _ _ _ Hrep) in Hw. fold (blocks nl (inorder (plug ctx (Node c l n r)))) in Hw.
  unfold replace_value. eapply wp_step; [by apply wp_malloc_copy|]. intros [vc|] w1 [Hw1 Hr1]; cbv beta iota.
  2:{ apply wp_ret. split; [by apply (rb_rep_keeps F w w1 inst nl _ Hrep); [|naive_solver]|naive_solver]. }
  destruct Hw1 as [Hvc Hw1]. pose proof Hrep as ((pn & Hs) & _). rewrite <- shape_plug in Hs.
  pose proof (shape_node _ _ _ _ Lft _ _ _ _ _ Hs) as Hn.
  eapply (step_on_tree _ _ _ (λ x i', x = mem c (top nl l) (top nl r) (path_parent nl ctx) n ∧ i' = inst)); [by eapply wp_node_at|].
  intros x i' [-> ->]. cbn [node_value mem fmap option_fmap option_map]. rewrite found_inorder in Hw1.
  eapply wp_step.
  { eapply (wp_free _ (cs_addr vc :: [i_addr n; cs_addr (i_key n)] ++ blocks nl ((path_before ctx ++ inorder l) ++ inorder r ++ path_after ctx)) F).
    revert Hw1. apply owns_perm. rewrite rb_blocks_middle. unfold info_blocks. solve_Permutation. }
  intros _ w2 [Hw2 Hr2]. eapply step_on_tree; [by apply rb_rep_set_value|]. intros [] inst' Hrep'. apply wp_ret. split; [|split; [left|done]].
  - eapply rb_rep_keeps; [exact Hrep'| |naive_solver]. revert Hw2. apply owns_perm. rewrite found_inorder, rb_blocks_middle.
    unfold info_blocks. cbn. solve_Permutation.
  - split; [done|]. rewrite (rb_rep_map _ _ _ Hrep), (rb_rep_map _ _ _ Hrep'), !found_inorder, !fmap_app, !fmap_cons.
    pose proof Hrep as (_ & Hsort & _). rewrite found_inorder in Hsort. destruct (sorted_notin _ _ _ Hsort) as [Hk _].
    rewrite <- Hvc. rewrite fmap_app in Hk. by apply (to_map_update _ _ (key_str n) (cs_str (i_value n)) (cs_str vc)).
Qed.

(** ** A new node *)

Lemma shape_alloc nl pn t p n i : shape nl pn ∅ [] t i → rb_nodes i !! p = None →
  shape nl pn {[p := n]} [] t (put_nodes (<[p := n]> (rb_nodes i)) i).
Proof.
  intros (Hr & Hn & Hnl & Ht & Hc & Hnd & _ & _ & Hdom) Hp. rewrite app_nil_r in *.
  assert (∀ a, a ∈ nl :: addrs t → a ≠ p) as Hne.
  { intros a Ha ->. apply not_elem_of_dom_2 in Hp. apply Hp. rewrite Hdom. set_solver. }
  unfold shape. cbn [put_nodes rb_root rb_nil rb_nodes]. rewrite app_nil_r. split; [done|]. split; [done|].
  split; [rewrite lookup_insert_ne; [done|by apply not_eq_sym, Hne; left]|]. split; [|split; [done|split; [done|split; [|split]]]].
  - eapply tree_in_ext; [|exact Ht]. intros a Ha. apply lookup_insert_ne, not_eq_sym, Hne. by right.
  - by apply map_singleton_subseteq_l, lookup_insert_eq.
  - intros a Ha. by apply lookup_singleton_ne, not_eq_sym, Hne.
  - rewrite dom_insert_L, Hdom, dom_empty_L, dom_singleton_L. set_solver.
Qed.

Lemma shape_free nl pn t p n i : shape nl pn {[p := n]} [] t i → shape nl pn ∅ [] t (put_nodes (delete p (rb_nodes i)) i).
Proof.
  intros (Hr & Hn & Hnl & Ht & Hc & Hnd & _ & Hd & Hdom). rewrite app_nil_r in *.
  assert (∀ a, a ∈ nl :: addrs t → a ≠ p) as Hne by (intros a Ha ->; apply Hd in Ha; by rewrite lookup_singleton_eq in Ha).
  unfold shape. cbn [put_nodes rb_root rb_nil rb_nodes]. rewrite app_nil_r. split; [done|]. split; [done|].
  split; [rewrite lookup_delete_ne; [done|by apply not_eq_sym, Hne; left]|]. split; [|split; [done|split; [done|split; [|split]]]].
  - eapply tree_in_ext; [|exact Ht]. intros a Ha. apply lookup_delete_ne, not_eq_sym, Hne. by right.
  - apply map_empty_subseteq.
  - done.
  - rewrite dom_delete_L, Hdom, dom_empty_L, dom_singleton_L.
    assert (p ∉ nl :: addrs t) as Hp by (intros Hp; by apply (Hne p)). revert Hp. clear. set_solver.
Qed.

Lemma rep_fresh inst nl t p : rb_rep inst nl t → p ∉ blocks nl (inorder t) → rb_nodes inst !! p = None.
Proof.
  intros ((pn & _ & _ & _ & _ & _ & _ & _ & _ & Hdom) & _) Hp. apply not_elem_of_dom. rewrite Hdom, app_nil_r. cbn.
  unfold blocks in Hp. rewrite blocks_split in Hp. unfold addrs. revert Hp. clear. set_solver.
Qed.

(** What the operations that write promise. *)
Definition wrote F w (inst : kvs_rbtree_t) (m : kvmap) (r : Z) (inst' : kvs_rbtree_t) w' : Prop :=
  keeps_wf F w inst' w' ∧
  (r = 0 ∧ eng_map (W := W) inst' = m ∨ r = -2 ∧ inst' = inst) ∧ (roomy w → r = 0).

Lemma insert_node_spec inst nl ctx p kc vc F w w1 :
  rb_rep inst nl (plug ctx Leaf) → position (cs_str kc) ctx Leaf →
  owns (cs_addr vc :: cs_addr kc :: p :: kvs_rbtree_owned inst) F w1 → (roomy w → roomy w1) →
  wp ('(_, inst) ← on_tree (rbtree_insert (Some p))
        (put_nodes (<[p := RbNode None None None None (Some kc) (Some vc)]> (rb_nodes inst)) inst); mret (0, inst)) w1
    (λ '(r, inst') w', wrote F w inst (<[cs_str kc := cs_str vc]> (eng_map (W := W) inst)) r inst' w').
Proof.
  intros Hrep Hpos Hw Hroom. pose proof Hrep as ((pn & Hs) & Hsort & Hbal). rewrite (rb_rep_owned _ _ _ Hrep) in Hw.
  fold (blocks nl (inorder (plug ctx Leaf))) in Hw.
  assert (p ∉ blocks nl (inorder (plug ctx Leaf))) as Hp.
  { destruct Hw as (_ & Hnd & _). rewrite !NoDup_cons in Hnd. tauto. }
  pose proof (rep_fresh _ _ _ _ Hrep Hp) as Hfresh.
  destruct (position_notin _ _ _ Hpos) as [Hkb Hka].
  eapply step_on_tree.
  { eapply insert_spec; [by apply (shape_alloc _ _ _ _ _ _ Hs Hfresh)|done|done|done|done|].
    rewrite inorder_plug. cbn. rewrite strs_keys in Hkb, Hka. apply Forall_app. split; apply Forall_forall; intros n Hn E;
      [apply Hkb|apply Hka]; rewrite <- E; by apply list_elem_of_fmap_2. }
  intros [] inst' (ctx' & t' & E & Hpos' & Ht' & Hbal' & Hs').
  destruct (position_notin _ _ _ Hpos') as [Hkb' Hka'].
  assert (rb_rep inst' nl t') as Hrep'.
  { split; [by exists pn|]. split; [|done]. unfold sorted in *. rewrite <- E, inorder_plug in Hsort. cbn in Hsort.
    rewrite Ht', fmap_app, fmap_cons. rewrite fmap_app in Hsort. destruct Hpos' as (Hb & Ha & _).
    apply strongly_sorted_middle; [done|by rewrite Forall_fmap..]. }
  apply wp_ret. split; [|split; [left|done]].
  - eapply rb_rep_keeps; [exact Hrep'| |done]. revert Hw. apply owns_perm. rewrite Ht', rb_blocks_middle, <- E, inorder_plug.
    unfold info_blocks. cbn. solve_Permutation.
  - split; [done|]. rewrite (rb_rep_map _ _ _ Hrep), (rb_rep_map _ _ _ Hrep'), Ht', <- E, inorder_plug. cbn. rewrite !fmap_app, fmap_cons.
    by apply (to_map_insert_middle _ _ (cs_str kc) (cs_str vc)).
Qed.

Lemma rbtree_set_spec inst k v F w : kvs_rbtree_wf inst → owns (kvs_rbtree_owned inst) F w →
  wp (kvs_rbtree_set inst (Some k) (Some v)) w (λ '(r, inst') w', wrote F w inst (<[k := v]> (eng_map (W := W) inst)) r inst' w').
Proof.
  intros (nl & t & Hrep) Hw. unfold kvs_rbtree_set. eapply step_search; [exact Hrep|]. intros ctx t' Hrep' _ Hpos. clear Hrep t.
  rewrite (rep_found _ _ _ _ Hrep'). pose proof (rb_rep_owned _ _ _ Hrep') as Ho. destruct t' as [|c l n r]; cbn [negb top].
  2:{ destruct Hpos as (_ & _ & <-). eapply wp_mono; [by eapply rb_replace_value_spec|]. by intros [r' inst'] w'. }
  assert (∀ w', owns (kvs_rbtree_owned inst) F w' → (roomy w → roomy w') → keeps_wf F w inst w') as Hkeep.
  { intros w' Hw' Hr'. rewrite Ho in Hw'. by eapply rb_rep_keeps. }
  eapply wp_step; [apply wp_malloc; [lia|exact Hw]|]. intros [p|] w1 [Hw1 Hr1]; cbv beta iota.
  2:{ apply wp_ret. split; [apply Hkeep; naive_solver|naive_solver]. }
  eapply wp_step; [by apply wp_malloc_copy|]. intros [kc|] w2 [Hw2 Hr2]; cbv beta iota.
  2:{ eapply wp_step; [by apply wp_free|]. intros _ w3 [Hw3 Hr3]. apply wp_ret. split; [apply Hkeep; naive_solver|naive_solver]. }
  destruct Hw2 as [<- Hw2].
  eapply wp_step; [by apply wp_malloc_copy|]. intros [vc|] w3 [Hw3 Hr3]; cbv beta iota.
  2:{ eapply wp_step; [by apply wp_free|]. intros _ w4 [Hw4 Hr4]. eapply wp_step; [by apply wp_free|].
      intros _ w5 [Hw5 Hr5]. apply wp_ret. split; [apply Hkeep; naive_solver|naive_solver]. }
  destruct Hw3 as [<- Hw3]. eapply insert_node_spec; [done|done|done|naive_solver].
Qed.

(** ** Reading *)

Lemma rbtree_lookup {Y} inst k w (f : ptr * kvs_rbtree_t → M W Y) (y : Y) : kvs_rbtree_wf inst →
  (∀ nl ctx t, rb_rep inst nl (plug ctx t) → position k ctx t → f (Some (top nl t), inst) w = Ok y w) →
  (on_tree (rbtree_search k) inst ≫= f) w = Ok y w.
Proof.
  intros (nl & t & Hrep) Hf.
  assert (wp (on_tree (rbtree_search k) inst ≫= f) w (λ y' w', y' = y ∧ w' = w)) as Hwp.
  { eapply step_search; [exact Hrep|]. intros ctx t' Hrep' _ Hpos. unfold wp. by rewrite (Hf nl ctx t'). }
  apply wp_Ok in Hwp as (y' & w' & -> & -> & ->). done.
Qed.

Lemma rbtree_get_law inst k w : kvs_rbtree_wf inst → kvs_rbtree_get inst (Some k) w = Ok (eng_map (W := W) inst !! k) w.
Proof.
  intros Hwf. unfold kvs_rbtree_get. apply rbtree_lookup; [done|]. intros nl ctx t Hrep Hpos.
  rewrite (rep_lookup _ _ _ _ _ Hrep Hpos). pose proof Hrep as ((pn & Hs) & _). rewrite <- shape_plug in Hs.
  unfold on_tree, node_at, gets, mbind, M_bind. cbn. destruct t as [|c l n r].
  - destruct Hs as (_ & _ & Hnl & _). cbn [top]. by rewrite Hnl.
  - pose proof (shape_node nl pn ∅ ctx Lft c l n r inst Hs) as Hn. cbn [top]. by rewrite Hn.
Qed.

Lemma rbtree_exist_law inst k w : kvs_rbtree_wf inst →
  kvs_rbtree_exist inst (Some k) w = Ok (if eng_map (W := W) inst !! k then 0 else 1) w.
Proof.
  intros Hwf. unfold kvs_rbtree_exist. apply rbtree_lookup; [done|]. intros nl ctx t Hrep Hpos.
  rewrite (rep_lookup _ _ _ _ _ Hrep Hpos), (rep_found _ _ _ _ Hrep). by destruct t.
Qed.

Lemma rbtree_mod_spec inst k v F w : kvs_rbtree_wf inst → owns (kvs_rbtree_owned inst) F w →
  wp (kvs_rbtree_mod inst (Some k) (Some v)) w (λ '(r, inst') w',
    match eng_map (W := W) inst !! k with
    | None => r = 1 ∧ inst' = inst ∧ w' = w
    | Some _ => wrote F w inst (<[k := v]> (eng_map (W := W) inst)) r inst' w'
    end).
Proof.
  intros (nl & t & Hrep) Hw. unfold kvs_rbtree_mod. eapply step_search; [exact Hrep|]. intros ctx t' Hrep' _ Hpos. clear Hrep t.
  rewrite (rep_found _ _ _ _ Hrep'), (rep_lookup _ _ _ _ _ Hrep' Hpos). destruct t' as [|c l n r]; cbn [top].
  - by apply wp_ret.
  - destruct Hpos as (_ & _ & <-). eapply wp_mono; [by eapply rb_replace_value_spec|]. by intros [r' inst'] w'.
Qed.

(** ** Removing a node *)

Lemma rb_node_free_spec inst nl pn t p ny k v own F w :
  shape nl pn {[p := ny]} [] t inst → node_key ny = Some k → node_value ny = Some v →
  owns (cs_addr k :: cs_addr v :: p :: own) F w →
  wp (rbtree_node_free inst (Some p)) w (λ inst' w', shape nl pn ∅ [] t inst' ∧ owns own F w' ∧ (roomy w → roomy w')).
Proof.
  intros Hs Hk Hv Hw. assert (rb_nodes inst !! p = Some ny) as Hp.
  { destruct Hs as (_ & _ & _ & _ & _ & _ & HX & _). by eapply lookup_weaken; [apply lookup_singleton_eq|]. }
  unfold rbtree_node_free, rbtree_node_storage_free. eapply wp_eq; [by rewrite Hp|]. cbv beta. rewrite Hk, Hv. cbn [fmap option_fmap option_map].
  eapply wp_step; [by apply wp_free|]. intros _ w1 [Hw1 Hr1]. eapply wp_step; [by apply wp_free|]. intros _ w2 [Hw2 Hr2].
  eapply wp_step; [by apply wp_free|]. intros _ w3 [Hw3 Hr3]. apply wp_ret. split; [by eapply shape_free|naive_solver].
Qed.

Lemma strs_pairs (l l' : list info) : pair_of <$> l = pair_of <$> l' → info_strs <$> l = info_strs <$> l'.
Proof.
  intros E. apply (f_equal (fmap (prod_map cs_str cs_str))) in E. by rewrite <- !list_fmap_compose in E.
Qed.

(** The node with its blocks leaves an instance. *)
Lemma step_remove {Y} inst nl ctx c l n r F w (f : kvs_rbtree_t → M W Y) (Q : Y → W → Prop) :
  rb_rep inst nl (plug ctx (Node c l n r)) → owns (kvs_rbtree_owned inst) F w →
  (∀ inst' t' w', rb_rep inst' nl t' →
     info_strs <$> inorder t' = info_strs <$> (path_before ctx ++ inorder l) ++ (inorder r ++ path_after ctx) →
     owns (blocks nl (inorder t')) F w' → (roomy w → roomy w') → wp (f inst') w' Q) →
  wp ('(cur, inst) ← on_tree (rbtree_delete (Some (i_addr n))) inst; inst ← rbtree_node_free inst cur; f inst) w Q.
Proof.
  intros Hrep Hw Hk. rewrite (rb_rep_owned _ _ _ Hrep) in Hw. pose proof Hrep as ((pn & Hs) & Hsort & Hbal).
  rewrite <- shape_plug in Hs. rewrite found_inorder in Hsort, Hw.
  eapply step_on_tree; [by eapply delete_spec|]. intros cur inst1 (p & ny & pn' & t' & -> & Hky & Hvy & Epairs & Eaddrs & Hbal' & Hs').
  assert (info_strs <$> inorder t' = info_strs <$> (path_before ctx ++ inorder l) ++ (inorder r ++ path_after ctx)) as E.
  { rewrite <- app_assoc. by apply strs_pairs. }
  eapply wp_step.
  { eapply (rb_node_free_spec _ _ _ _ _ _ _ _ (blocks nl (inorder t')) F); [exact Hs'|done|done|]. revert Hw. apply owns_perm.
    unfold blocks. rewrite !blocks_split, Epairs, !fmap_app, !fmap_cons, !join_app. cbn [mjoin list_join].
    rewrite !fmap_app, !fmap_cons, !fmap_app in Eaddrs. rewrite !fmap_app, !join_app. change (i_addr <$> inorder t') with (addrs t') in *.
    transitivity (nl :: (p :: addrs t') ++ [cs_addr (i_key n); cs_addr (i_value n)] ++ mjoin (data_blocks <$> (pair_of <$> path_before ctx)) ++
      mjoin (data_blocks <$> (pair_of <$> inorder l)) ++ mjoin (data_blocks <$> (pair_of <$> inorder r)) ++ mjoin (data_blocks <$> (pair_of <$> path_after ctx))).
    - rewrite Eaddrs. cbn. solve_Permutation.
    - solve_Permutation. }
  intros inst' w1 (Hs1 & Hw1 & Hr1). apply (Hk inst' t' w1); [|done|done|done]. split; [by exists pn'|]. split; [|done].
  unfold sorted in *. rewrite <- strs_keys, E, strs_keys, fmap_app. rewrite fmap_app, fmap_cons in Hsort. by eapply strongly_sorted_remove.
Qed.

Lemma rbtree_del_law inst k F w : kvs_rbtree_wf inst → owns (kvs_rbtree_owned inst) F w →
  wp (kvs_rbtree_del inst (Some k)) w (λ '(r, inst') w', keeps_wf F w inst' w' ∧
    r = (if eng_map (W := W) inst !! k then 0 else 1) ∧
    eng_map (W := W) inst' = delete k (eng_map (W := W) inst)).
Proof.
  intros (nl & t & Hrep0) Hw. unfold kvs_rbtree_del. eapply step_search; [exact Hrep0|]. intros ctx t' Hrep _ Hpos. clear Hrep0 t.
  rewrite (rep_found _ _ _ _ Hrep), (rep_lookup _ _ _ _ _ Hrep Hpos). destruct t' as [|c l n r]; cbn [top].
  - apply wp_ret. split; [apply keeps_wf_refl; [by eexists _, _|done]|]. split; [done|]. symmetry. apply delete_id.
    by rewrite (rep_lookup _ _ _ _ _ Hrep Hpos).
  - eapply step_remove; [exact Hrep|done|]. intros inst' t' w' Hrep' E Hw' Hr'. apply wp_ret.
    split; [by eapply rb_rep_keeps|]. split; [done|]. pose proof Hrep as (_ & Hsort & _). rewrite found_inorder in Hsort.
    destruct (sorted_notin _ _ _ Hsort) as [H1 H2]. destruct Hpos as (_ & _ & <-).
    rewrite (rb_rep_map _ _ _ Hrep), (rb_rep_map _ _ _ Hrep'), E, found_inorder, fmap_app, (fmap_app _ _ (n :: _)), fmap_cons.
    by apply to_map_remove.
Qed.

(** ** Creation, destruction, visiting *)

Lemma rbtree_create_law F w : owns [] F w →
  wp (kvs_rbtree_create global_rbtree_zero) w (λ '(r, inst') w',
    (r = 0 ∧ keeps_wf F w inst' w' ∧ kvs_rbtree_entries inst' = [] ∨ r = -1 ∧ owns [] F w') ∧
    (roomy w → roomy w' ∧ r = 0)).
Proof.
  intros Hw. unfold kvs_rbtree_create. eapply wp_step; [apply wp_malloc; [lia|exact Hw]|]. intros [p|] w1 [Hw1 Hr1]; apply wp_ret.
  2:{ split; [by right|naive_solver]. }
  assert (rb_rep (KvsRbtree (Some p) (Some p) (<[p := nil_node p]> ∅)) p Leaf) as Hrep.
  { split; [exists p|split; [apply SSorted_nil|split; [done|by exists O]]].
    split; [done|]. split; [done|]. split; [apply lookup_insert_eq|]. split; [done|]. split; [done|].
    split; [apply NoDup_singleton|]. split; [apply map_empty_subseteq|]. split; [done|]. cbn [rb_nodes]. rewrite dom_insert_L, !dom_empty_L. set_solver. }
  change (rb_nodes global_rbtree_zero) with (∅ : gmap Z rbtree_node).
  split; [left|naive_solver]. split; [done|]. split; [eapply rb_rep_keeps; [exact Hrep|exact Hw1|naive_solver]|]. by rewrite (rep_entries _ _ _ Hrep).
Qed.

Lemma rep_root inst nl t : rb_rep inst nl t → rb_root inst = Some (top nl t).
Proof. by intros ((pn & -> & _) & _). Qed.

Lemma rb_destory_loop_spec fuel inst nl t F w : rb_rep inst nl t → (List.length (inorder t) <= fuel)%nat → owns (blocks nl (inorder t)) F w →
  wp (destory_loop fuel inst) w (λ inst' w', rb_rep inst' nl Leaf ∧ owns [nl] F w' ∧ (roomy w → roomy w')).
Proof.
  revert inst t w. induction fuel as [|fuel IH]; intros inst t w Hrep Hf Hw; cbn [destory_loop].
  all: rewrite (rep_root _ _ _ Hrep), (rep_found inst nl [] t Hrep).
  all: destruct t as [|c l n r]; [apply wp_ret; by split_and!|].
  { cbn in Hf. rewrite length_app in Hf. cbn in Hf. lia. }
  pose proof Hrep as ((pn & Hs) & _). eapply step_on_tree; [eapply (mini_spec nl pn ∅ [] _ _ Hs); done|].
  intros m inst1 (-> & ctx & c' & n' & r' & [E _] & ->). cbn beta iota. rewrite <- E in Hrep, Hw, Hf.
  eapply step_remove; [exact Hrep|by rewrite (rb_rep_owned _ _ _ Hrep)|]. intros inst' t' w' Hrep' E' Hw' Hr'.
  eapply wp_mono; [apply (IH inst' t'); [done| |done]|naive_solver].
  apply (f_equal List.length) in E'. rewrite !length_fmap, length_app in E'.
  rewrite found_inorder, length_app in Hf. cbn [List.length] in Hf. lia.
Qed.

Lemma rbtree_destroy_law inst F w : kvs_rbtree_wf inst → owns (kvs_rbtree_owned inst) F w →
  wp (kvs_rbtree_destory inst) w (λ inst' w', inst' = global_rbtree_zero ∧ owns [] F w' ∧ (roomy w → roomy w')).
Proof.
  intros (nl & t & Hrep) Hw. rewrite (rb_rep_owned _ _ _ Hrep) in Hw. pose proof Hrep as ((pn & _ & Hn & _ & _ & _ & Hf) & _).
  unfold kvs_rbtree_destory. rewrite Hn. eapply wp_step.
  { eapply rb_destory_loop_spec; [exact Hrep| |exact Hw]. apply footprint_size in Hf. rewrite app_nil_r in Hf. unfold addrs in Hf.
    rewrite length_fmap in Hf. lia. }
  intros inst' w1 (Hrep' & Hw1 & Hr1). destruct Hrep' as ((pn' & _ & Hn' & _ & _ & _ & _ & _ & _ & Hdom) & _). rewrite Hn'.
  eapply wp_step; [by apply wp_free|]. intros _ w2 [Hw2 Hr2]. apply wp_ret. split; [|naive_solver]. cbn [from_option id].
  unfold global_rbtree_zero. f_equal. apply dom_empty_inv_L. rewrite dom_delete_L, Hdom. cbn. set_solver.
Qed.

Lemma foreach_node_spec {V C} inst nl p t fuel (visitor : kvs_visit_handler V C) (c : C) (v : V) :
  rb_nil inst = Some nl → tree_in (rb_nodes inst) nl p t → nl ∉ addrs t → (List.length (inorder t) <= fuel)%nat →
  kvs_rbtree_foreach_node fuel inst (Some (top nl t)) visitor c v = visit_all visitor (info_strs <$> inorder t) c v.
Proof.
  intros Hn. revert p fuel c v. induction t as [|col l IHl n r IHr]; intros p fuel c v Ht Hnl Hf.
  { destruct fuel; cbn; rewrite Hn, bool_decide_eq_true_2; done. }
  destruct Ht as (Hm & Hl & Hr). change (Node col l n r) with (node Lft col l n r) in Hnl. rewrite addrs_node in Hnl.
  rewrite not_elem_of_cons, not_elem_of_app in Hnl. destruct Hnl as (Hnn & Hnl & Hnr).
  cbn [inorder] in *. rewrite length_app in Hf. cbn [List.length] in Hf. destruct fuel as [|fuel]; [lia|].
  cbn [kvs_rbtree_foreach_node top]. rewrite bool_decide_eq_false_2 by done. rewrite Hn, bool_decide_eq_false_2 by congruence.
  rewrite fmap_app, visit_all_app, fmap_cons. cbn [visit_all info_strs].
  unfold on_tree, node_at, gets, mbind, M_bind. cbn. rewrite Hm. cbn [deref mret M_ret mem node_left node_key node_value node_right].
  rewrite (IHl _ fuel c v Hl Hnl) by lia. destruct (visit_all visitor (info_strs <$> inorder l) c v) as [[r1 c1] v1|v1|]; [|done..].
  destruct (r1 <? 0); [done|]. unfold info_strs at 1. destruct (visitor _ _ c1 v1) as [[r2 c2] v2|v2|]; [|done..].
  destruct (r2 <? 0); [done|]. cbn. rewrite (IHr _ fuel c2 v2 Hr Hnr) by lia.
  destruct (visit_all visitor (info_strs <$> inorder r) c2 v2) as [[r3 c3] v3|v3|] eqn:E; [|done..].
  destruct (visit_all_result _ _ _ _ _ _ _ E) as [->| ->]; done.
Qed.

Lemma rbtree_foreach_law {V C} inst (visitor : kvs_visit_handler V C) (c : C) (v : V) : kvs_rbtree_wf inst →
  kvs_rbtree_foreach inst (Some visitor) c v = visit_all visitor (kvs_rbtree_entries inst) c v.
Proof.
  intros (nl & t & Hrep). rewrite (rep_entries _ _ _ Hrep). destruct Hrep as ((pn & Hr & Hn & _ & Ht & _ & Hf) & _).
  unfold kvs_rbtree_foreach. rewrite Hr, Hn. rewrite app_nil_r in Hf. pose proof (footprint_size _ _ _ _ Hf) as Hsize.
  unfold addrs in Hsize. rewrite length_fmap in Hsize. destruct Hf as (Hnd & _). apply NoDup_cons in Hnd as [Hnd _].
  eapply foreach_node_spec; [done|exact Ht|done|lia].
Qed.

#[export] Instance rbtree_engine_laws : EngineLaws W kvs_rbtree_t.
Proof.
  split.
  - intros e (nl & t & Hrep). cbn [eng_entries rbtree_engine]. rewrite (rep_entries _ _ _ Hrep), strs_keys.
    apply sorted_nodup. by destruct Hrep as (_ & ? & _).
  - done.
  - done.
  - done.
  - done.
  - intros F w Hw. eapply wp_mono; [by apply rbtree_create_law|]. by intros [r e'].
  - intros e F w Hwf Hw. eapply wp_mono; [by apply rbtree_destroy_law|]. naive_solver.
  - intros e k v F w Hwf _ Hw. assert (set_result (eng_map (W := W) e) k = 0) as -> by (unfold set_result; simpl; by rewrite orb_true_r).
    eapply wp_mono; [by apply rbtree_set_spec|]. intros [r e'] w' (Hk & [[-> E]|[-> ->]] & Hr); (split; [done|]); [by split; [left|]|].
    split; [right; split; [lia|done]|done].
  - intros e k w Hwf _. by apply rbtree_get_law.
  - intros e k F w Hwf _ Hw. by apply rbtree_del_law.
  - intros e k v F w Hwf _ Hw. eapply wp_mono; [by apply rbtree_mod_spec|]. intros [r e'] w'. destruct (eng_map e !! k).
    + intros (Hk & Hm & Hr). split; [done|]. split; [|done]. destruct Hm as [?|[-> ->]]; [by left|by right].
    + intros (-> & -> & ->). split; [by apply keeps_wf_refl|done].
  - intros e k w Hwf _. by apply rbtree_exist_law.
  - intros V C e visitor c v Hwf. by apply rbtree_foreach_law.
Qed.
End laws.

(** * Properties *)

(** C16: Over its whole life the red-black tree implements a finite map without a size
    limit: every operation terminates, follows no null, dangling or uninitialised
    pointer, returns the code and has the effect of the abstract map, rebalancing
    included; when an allocation fails the tree is unchanged; and destruction
    releases exactly the blocks of the sentinel and the nodes. *)
Theorem rbtree_session_refines `{CRuntimeLaws W} (os : list engine_op) (F : gset addr) (w : W)
    (Hw : owns [] F w) :
  wp (engine_session (E := kvs_rbtree_t) os) w (λ r w', owns [] F w' ∧
    (∀ rs, r = Some rs → ∃ m, map_run_or_oom (E := kvs_rbtree_t) ∅ os rs m) ∧
    (roomy w → r = Some (map_run (E := kvs_rbtree_t) ∅ os).1)).
Proof. apply engine_session_refines; [|done]. apply Forall_forall. done. Qed.

Definition rb_demo_ops : list engine_op :=
  [OpSet (lit "d") (lit "4"); OpSet (lit "b") (lit "2"); OpSet (lit "a") (lit "1"); OpSet (lit "c") (lit "3");
   OpSet (lit "e") (lit "5"); OpSet (lit "f") (lit "6"); OpGet (lit "c"); OpDel (lit "b"); OpGet (lit "b");
   OpDel (lit "a"); OpMod (lit "d") (lit "44"); OpGet (lit "d"); OpMod (lit "Missing") (lit "Value");
   OpDel (lit "Missing"); OpExist (lit "f")].

Lemma rbtree_session_witness :
  owns [] ∅ empty_heap ∧
  wp (engine_session (E := kvs_rbtree_t) rb_demo_ops) empty_heap (λ r w', owns [] ∅ w' ∧
    (∀ rs, r = Some rs → ∃ m, map_run_or_oom (E := kvs_rbtree_t) ∅ rb_demo_ops rs m) ∧
    (roomy empty_heap → r = Some (map_run (E := kvs_rbtree_t) ∅ rb_demo_ops).1)).
Proof.
  exact (conj empty_heap_owns (rbtree_session_refines rb_demo_ops ∅ empty_heap empty_heap_owns)).
Defined.

Example rbtree_session_run :
  (λ o, match o with Ok r _ => r | _ => None end)
    (engine_session (E := kvs_rbtree_t) rb_demo_ops empty_heap) =
  Some [RInt 0; RInt 0; RInt 0; RInt 0; RInt 0; RInt 0; RStr (Some (lit "3")); RInt 0; RStr None; RInt 0; RInt 0;
        RStr (Some (lit "44")); RInt 1; RInt 1; RInt 0].
Proof. vm_compute. reflexivity. Qed.

(** C17: Whatever operations are applied to a well-formed tree, the heap holds again
    the sentinel and exactly one binary tree with correct parent pointers, its keys
    strictly increasing from left to right, its root black, no red node with a red
    child, and the same number of black nodes on every way down. *)
Theorem rbtree_reachable_balanced `{CRuntimeLaws W} (inst : kvs_rbtree_t) (os : list engine_op)
    (F : gset addr) (w : W) (Hwf : kvs_rbtree_wf inst) (Hw : owns (kvs_rbtree_owned inst) F w) :
  wp (engine_run inst os) w (λ '(_, inst') w',
    (∃ nl pn t, shape nl pn ∅ [] t inst' ∧ StronglySorted str_lt (key_str <$> inorder t) ∧
      tree_color t = BLACK ∧ ∃ k, rb t k) ∧
    owns (kvs_rbtree_owned inst') F w').
Proof.
  eapply wp_mono; [apply (engine_run_refines (E := kvs_rbtree_t) os inst F w); [done|by apply Forall_forall|done]|].
  intros [rs inst'] w' (((nl & t & (pn & Hs) & Hsort & Hc & Hk) & Hw' & _) & _). split; [|done]. by exists nl, pn, t.
Qed.

Definition rb_empty : kvs_rbtree_t := KvsRbtree (Some 1) (Some 1) {[1 := nil_node 1]}.
Definition heap1 : heap_rt := HeapRt 2 {[1]} None 0.

Lemma rb_empty_wf : kvs_rbtree_wf rb_empty.
Proof.
  exists 1, Leaf. split; [exists 1|split; [apply SSorted_nil|split; [done|by exists O]]].
  split; [done|]. split; [done|]. split; [done|]. split; [done|]. split; [done|].
  split; [apply NoDup_singleton|]. split; [apply map_empty_subseteq|]. split; [done|]. apply (bool_decide_unpack _). vm_compute. exact I.
Qed.

Lemma heap1_owns : owns (kvs_rbtree_owned rb_empty) ∅ heap1.
Proof.
  change (kvs_rbtree_owned rb_empty) with [1]. split_and!.
  - intros p Hp. cbn in *. set_unfold in Hp. lia.
  - apply NoDup_singleton.
  - cbn. set_solver.
  - set_solver.
Qed.

Lemma rbtree_reachable_witness :
  kvs_rbtree_wf rb_empty ∧ owns (kvs_rbtree_owned rb_empty) ∅ heap1 ∧
  wp (engine_run rb_empty rb_demo_ops) heap1 (λ '(_, inst') w',
    (∃ nl pn t, shape nl pn ∅ [] t inst' ∧ StronglySorted str_lt (key_str <$> inorder t) ∧
      tree_color t = BLACK ∧ ∃ k, rb t k) ∧
    owns (kvs_rbtree_owned inst') ∅ w').
Proof.
  exact (conj rb_empty_wf (conj heap1_owns (rbtree_reachable_balanced _ rb_demo_ops ∅ heap1 rb_empty_wf heap1_owns))).
Defined.

Lemma log2_twice n : (2 * Nat.log2 (S n) <= S (S n))%nat.
Proof.
  destruct (Nat.le_gt_cases n 2) as [Hn|Hn].
  - destruct n as [|[|[|n]]]; cbn; lia.
  - assert (∀ m, (2 <= m)%nat → (2 * m <= 2 ^ m)%nat) as Hpow.
    { induction 1 as [|m Hm IH]; [done|]. rewrite Nat.pow_succ_r'. lia. }
    pose proof (Nat.log2_spec (S n) ltac:(lia)) as [Hl _]. assert (2 <= Nat.log2 (S n))%nat as H2.
    { change 2%nat with (Nat.log2 4). apply Nat.log2_le_mono. lia. }
    specialize (Hpow _ H2). lia.
Qed.

Lemma search_loop_mono fuel fuel' k p i r i' : search_loop fuel k p i = Ok r i' → (fuel <= fuel')%nat →
  search_loop fuel' k p i = Ok r i'.
Proof.
  revert fuel' p i. induction fuel as [|fuel IH]; intros fuel' p i E Hle.
  - destruct fuel' as [|fuel']; [done|]. cbn [search_loop] in *. unfold is_nil, gets, mbind, M_bind in *. cbn in *.
    by destruct (bool_decide (p = rb_nil i)).
  - destruct fuel' as [|fuel']; [lia|]. cbn [search_loop] in *. unfold is_nil, gets, mbind, M_bind, key_of, left_of, right_of in *. cbn in *.
    destruct (bool_decide (p = rb_nil i)); [done|]. destruct (field node_key p i) as [x j|j|]; [|done..].
    destruct (strcmp _ _); [done|..]; destruct (field _ p j); try done; apply IH; auto; lia.
Qed.


