(* ===== verification/Allocator.v ===== *)
(** The memory allocator, src/memory/kvs_allocator.c: small blocks come from slabs of
    64 KiB, one pool of slabs per size class, with a free list and a bitmap in each;
    larger blocks get a mapping of their own on a doubly dlinked list.  The SYSTEM
    back end passes everything on to [malloc] and [free].

    The operating system is the interface [VirtualMemory]: [mmap] and [munmap], which
    may fail at any time, beside the system's own [malloc] of [CRuntime].  A region is
    found by the address it starts at; reading through any other address is
    undefined.  Chains of slabs are lists of addresses; the free list of a slab is a
    chain of pointers stored in its free blocks, which are lost when a block is handed
    out.  [abort] ends the process.  Sizes are those of x86-64. *)

From Stdlib Require Import ZArith Lia.
From S2P Require Import Prelude Runtime.

(** * The operating system *)

(** [sysconf(_SC_PAGESIZE)], anonymous [mmap] and [munmap]. *)
Class VirtualMemory (V : Type) := {
  page_size : Z;
  mmap : Z → M V (option addr);
  munmap : addr → Z → M V Z;
  (** the addresses that are mapped *)
  mapped : V → Z → Prop;
  (** no mapping is refused release *)
  vm_reliable : V → Prop;
}.

(** What [mmap(2)] and [munmap(2)] promise: a mapping is page aligned, inside the
    address space and overlaps no other; [munmap] removes a range or fails without
    effect.  [malloc] is not disturbed. *)
Class VirtualMemoryLaws (V : Type) `{CRuntime V, !VirtualMemory V} : Prop := {
  mmap_law n v : rt_ok v → 0 < n → n mod page_size = 0 →
    wp (mmap n) v (λ r v', rt_ok v' ∧ live v' = live v ∧ (vm_reliable v → vm_reliable v') ∧
      match r with
      | Some p => 0 < p ∧ p mod page_size = 0 ∧ p + n ≤ SIZE_MAX ∧ (∀ a, p ≤ a < p + n → ¬ mapped v a) ∧
                  (∀ a, mapped v' a ↔ mapped v a ∨ p ≤ a < p + n)
      | None => ∀ a, mapped v' a ↔ mapped v a
      end);
  munmap_law p n v : rt_ok v → 0 < n → p mod page_size = 0 → n mod page_size = 0 →
    wp (munmap p n) v (λ r v', rt_ok v' ∧ live v' = live v ∧ (vm_reliable v → vm_reliable v' ∧ r = 0) ∧
      (r = 0 ∧ (∀ a, mapped v' a ↔ mapped v a ∧ ¬ (p ≤ a < p + n)) ∨ r = -1 ∧ (∀ a, mapped v' a ↔ mapped v a)));
  vm_malloc_law n v : rt_ok v → wp (kvs_malloc n) v (λ _ v', (vm_reliable v → vm_reliable v') ∧ ∀ a, mapped v' a ↔ mapped v a);
  vm_free_law p v : rt_ok v → p ∈ live v →
    wp (kvs_free (Some p)) v (λ _ v', (vm_reliable v → vm_reliable v') ∧ ∀ a, mapped v' a ↔ mapped v a);
  vm_rand_law v : rt_ok v → wp c_rand v (λ _ v', (vm_reliable v → vm_reliable v') ∧ ∀ a, mapped v' a ↔ mapped v a);
}.

(** * Data *)

Definition KVS_SLAB_SIZE : Z := 64 * 1024.
Definition MAX_ALIGN : Z := 16.
Definition SIZEOF_SLAB : Z := 64.
Definition SIZEOF_LARGE : Z := 32.
Definition SIZEOF_FREE_BLOCK : Z := 8.

Inductive kvs_allocator_backend_t := KVS_ALLOCATOR_SYSTEM | KVS_ALLOCATOR_POOL.
#[export] Instance backend_eq_dec : EqDecision kvs_allocator_backend_t.
Proof. solve_decision. Defined.

(** [slab_links] are the [next] pointers in the blocks that are free. *)
Record kvs_slab_t := KvsSlab {
  slab_block_size : Z;
  slab_capacity : Z;
  slab_used_count : Z;
  slab_free_list : option addr;
  slab_bitmap : list Z;
  slab_data : addr;
  slab_links : gmap Z (option addr);
}.

Record kvs_large_t := KvsLarge {
  mapping_size : Z;
  large_prev : option addr;
  large_next : option addr;
}.

(** [kvs_region_kind_t] with the structure it announces. *)
Inductive region := RegionSlab (s : kvs_slab_t) | RegionLarge (l : kvs_large_t).

Record kvs_size_class_t := KvsSizeClass { pool_block_size : Z; pool_slabs : list addr }.

Definition class_sizes : list Z := [16; 32; 48; 64; 96; 128; 192; 256; 384; 512; 768; 1024; 1536; 2048; 3072; 4096].

(** The static variables of the file, the regions in memory and the system. *)
Record allocator (V : Type) := Allocator {
  allocator_initialized : bool;
  allocator_backend : kvs_allocator_backend_t;
  pools : list kvs_size_class_t;
  large_regions : option addr;
  regions : gmap Z region;
  system : V;
}.
Arguments Allocator {_}. Arguments allocator_initialized {_}. Arguments allocator_backend {_}. Arguments pools {_}.
Arguments large_regions {_}. Arguments regions {_}. Arguments system {_}.

(** The program as it starts. *)
Definition allocator_zero {V} (v : V) : allocator V :=
  Allocator false KVS_ALLOCATOR_SYSTEM ((λ b, KvsSizeClass b []) <$> class_sizes) None ∅ v.

Section operations.
Context `{CRuntime V, !VirtualMemory V}.
Abbreviation A := (M (allocator V)) (only parsing).

Definition put_pools (p : list kvs_size_class_t) (s : allocator V) : allocator V :=
  Allocator (allocator_initialized s) (allocator_backend s) p (large_regions s) (regions s) (system s).
Definition put_large (l : option addr) (s : allocator V) : allocator V :=
  Allocator (allocator_initialized s) (allocator_backend s) (pools s) l (regions s) (system s).
Definition put_regions (r : gmap Z region) (s : allocator V) : allocator V :=
  Allocator (allocator_initialized s) (allocator_backend s) (pools s) (large_regions s) r (system s).
Definition put_system (v : V) (s : allocator V) : allocator V :=
  Allocator (allocator_initialized s) (allocator_backend s) (pools s) (large_regions s) (regions s) v.
Definition put_initialized (b : bool) (s : allocator V) : allocator V :=
  Allocator b (allocator_backend s) (pools s) (large_regions s) (regions s) (system s).

Definition on_system {X} : M V X → A X := zoom system put_system.

Definition region_at (p : addr) : A region := r ← gets regions; deref (r !! p).
Definition slab_at (p : addr) : A kvs_slab_t := r ← region_at p; match r with RegionSlab s => mret s | _ => undefined end.
Definition large_at (p : addr) : A kvs_large_t := r ← region_at p; match r with RegionLarge l => mret l | _ => undefined end.
Definition put_region (p : addr) (r : region) : A unit := modify (λ s, put_regions (<[p := r]> (regions s)) s).

(** * Initialisation *)

Definition kvs_allocator_init (backend : Z) : A Z :=
  initialized ← gets allocator_initialized;
  if initialized : bool then mret (-1) else
  if negb (backend =? 0) && negb (backend =? 1) then mret (-1) else
  modify (λ s, Allocator true (if backend =? 1 then KVS_ALLOCATOR_POOL else KVS_ALLOCATOR_SYSTEM)
    ((λ c, KvsSizeClass (pool_block_size c) []) <$> pools s) (large_regions s) (regions s) (system s));;
  mret 0.

(** * Small blocks *)

(** The position of the pool found by [find_size_class]. *)
Fixpoint find_size_class (size : Z) (ps : list kvs_size_class_t) : option nat :=
  match ps with
  | [] => None
  | p :: ps => if size <=? pool_block_size p then Some O else S <$> find_size_class size ps
  end.

(** [1u << (index % 8)] as an unsigned char. *)
Definition bit_mask (index : Z) : Z := Z.shiftl 1 (index mod 8) mod 256.

Definition slab_alloc_block (slab : addr) : A (option addr) :=
  s ← slab_at slab;
  match slab_free_list s with
  | None => mret None
  | Some block =>
      let index := (block - slab_data s) / slab_block_size s in
      next ← deref (slab_links s !! block);
      byte ← deref (znth (slab_bitmap s) (index / 8));
      put_region slab (RegionSlab (KvsSlab (slab_block_size s) (slab_capacity s) (slab_used_count s + 1) next
        (zupd (index / 8) (Z.lor byte (bit_mask index)) (slab_bitmap s)) (slab_data s) (delete block (slab_links s))));;
      mret (Some block)
  end.

(** The start of the 64 KiB unit of an address. *)
Definition unit_start (p : Z) : Z := Z.land p (Z.lnot (KVS_SLAB_SIZE - 1)).

Definition region_memory_alloc (size : Z) : A (option addr) :=
  let page := page_size in
  if (page <=? 0) || negb (KVS_SLAB_SIZE mod page =? 0) || (size =? 0) || negb (size mod page =? 0) then mret None else
  if SIZE_MAX - KVS_SLAB_SIZE <? size then mret None else
  let reserved_size := size + KVS_SLAB_SIZE in
  raw ← on_system (mmap reserved_size);
  match raw with
  | None => mret None
  | Some raw =>
      let aligned := unit_start ((raw + KVS_SLAB_SIZE - 1) mod (SIZE_MAX + 1)) in
      let prefix := aligned - raw in
      let suffix := reserved_size - prefix - size in
      failed ← (if negb (prefix =? 0) then r ← on_system (munmap raw prefix); mret (negb (r =? 0)) else mret false);
      if failed : bool then on_system (munmap raw reserved_size);; mret None else
      failed ← (if negb (suffix =? 0) then r ← on_system (munmap (aligned + size) suffix); mret (negb (r =? 0)) else mret false);
      if failed : bool then on_system (munmap aligned (reserved_size - prefix));; mret None else
      mret (Some aligned)
  end.

(** The layout of a slab: the length of the bitmap and the offset of the data. *)
Definition bitmap_bytes (block_size : Z) : Z :=
  let upper_count := (KVS_SLAB_SIZE - SIZEOF_SLAB) / block_size in
  upper_count / 8 + (if upper_count mod 8 =? 0 then 0 else 1).
Definition data_offset (block_size : Z) : Z :=
  (SIZEOF_SLAB + bitmap_bytes block_size + MAX_ALIGN - 1) / MAX_ALIGN * MAX_ALIGN.

(** The loop that cuts the data into blocks: [n] blocks from number [i] on. *)
Fixpoint thread_blocks (n : nat) (i data block_size : Z) (free_list : option addr) (links : gmap Z (option addr)) :
    option addr * gmap Z (option addr) :=
  match n with
  | O => (free_list, links)
  | S n =>
      let block := data + i * block_size in
      thread_blocks n (i + 1) data block_size (Some block) (<[block := free_list]> links)
  end.

Definition slab_create (block_size : Z) : A (option addr) :=
  ps ← gets pools;
  last ← deref (list.last ps);
  if (block_size <? SIZEOF_FREE_BLOCK) || negb (block_size mod MAX_ALIGN =? 0) || (pool_block_size last <? block_size) then mret None else
  let offset := data_offset block_size in
  if (KVS_SLAB_SIZE <=? offset) || ((KVS_SLAB_SIZE - offset) / block_size =? 0) then mret None else
  slab ← region_memory_alloc KVS_SLAB_SIZE;
  match slab with
  | None => mret None
  | Some slab =>
      let capacity := (KVS_SLAB_SIZE - offset) / block_size in
      let '(free_list, links) := thread_blocks (Z.to_nat capacity) 0 (slab + offset) block_size None ∅ in
      put_region slab (RegionSlab (KvsSlab block_size capacity 0 free_list
        (replicate (Z.to_nat (bitmap_bytes block_size)) 0) (slab + offset) links));;
      mret (Some slab)
  end.

(** The [while] that skips full slabs. *)
Fixpoint first_free (slabs : list addr) : A (option addr) :=
  match slabs with
  | [] => mret None
  | p :: slabs => s ← slab_at p; match slab_free_list s with None => first_free slabs | Some _ => mret (Some p) end
  end.

Definition pool_alloc_small (size : Z) : A (option addr) :=
  if size =? 0 then mret None else
  ps ← gets pools;
  match find_size_class size ps with
  | None => mret None
  | Some i =>
      pool ← deref (ps !! i);
      slab ← first_free (pool_slabs pool);
      match slab with
      | Some slab => slab_alloc_block slab
      | None =>
          slab ← slab_create (pool_block_size pool);
          match slab with
          | None => mret None
          | Some slab =>
              modify (λ s, put_pools (<[i := KvsSizeClass (pool_block_size pool) (slab :: pool_slabs pool)]> (pools s)) s);;
              slab_alloc_block slab
          end
      end
  end.

Definition pool_free_small (ptr : addr) : A Z :=
  let slab := unit_start ptr in
  s ← slab_at slab;
  if ptr <? slab_data s then mret (-1) else
  let offset := ptr - slab_data s in
  if negb (offset mod slab_block_size s =? 0) || (slab_capacity s <=? offset / slab_block_size s) then mret (-1) else
  let index := offset / slab_block_size s in
  let mask := bit_mask index in
  byte ← deref (znth (slab_bitmap s) (index / 8));
  if (Z.land byte mask =? 0) || (slab_used_count s =? 0) then mret (-1) else
  put_region slab (RegionSlab (KvsSlab (slab_block_size s) (slab_capacity s) (slab_used_count s - 1) (Some ptr)
    (zupd (index / 8) (Z.land byte (Z.lnot mask mod 256)) (slab_bitmap s)) (slab_data s)
    (<[ptr := slab_free_list s]> (slab_links s))));;
  mret 0.

(** * Large blocks *)

Definition LARGE_OFFSET : Z := (SIZEOF_LARGE + MAX_ALIGN - 1) / MAX_ALIGN * MAX_ALIGN.

Definition set_prev (p : addr) (prev : option addr) : A unit :=
  l ← large_at p; put_region p (RegionLarge (KvsLarge (mapping_size l) prev (large_next l))).
Definition set_next (p : addr) (next : option addr) : A unit :=
  l ← large_at p; put_region p (RegionLarge (KvsLarge (mapping_size l) (large_prev l) next)).

Definition pool_alloc_large (size : Z) : A (option addr) :=
  let page := page_size in
  if (page <=? 0) || (size =? 0) then mret None else
  let offset := LARGE_OFFSET in
  if (KVS_SLAB_SIZE <=? offset) || (SIZE_MAX - offset <? size) then mret None else
  let total := offset + size in
  let remainder := total mod page in
  let padding := if remainder =? 0 then 0 else page - remainder in
  if SIZE_MAX - padding <? total then mret None else
  let mapping := total + padding in
  large ← region_memory_alloc mapping;
  match large with
  | None => mret None
  | Some large =>
      first ← gets large_regions;
      put_region large (RegionLarge (KvsLarge mapping None first));;
      (match first with Some first => set_prev first (Some large) | None => mret tt end);;
      modify (put_large (Some large));;
      mret (Some (large + offset))
  end.

(** [prev->next = p], or the head of the list; [next->prev = p]. *)
Definition link_next (prev p : option addr) : A unit :=
  match prev with Some prev => set_next prev p | None => modify (put_large p) end.
Definition link_prev (next p : option addr) : A unit :=
  match next with Some next => set_prev next p | None => mret tt end.

Definition pool_free_large (large : addr) : A Z :=
  l ← large_at large;
  let prev := large_prev l in
  let next := large_next l in
  link_next prev next;;
  link_prev next prev;;
  r ← on_system (munmap large (mapping_size l));
  if r =? 0 then modify (λ s, put_regions (delete large (regions s)) s);; mret 0 else
  link_next prev (Some large);;
  link_prev next (Some large);;
  mret (-1).

(** * Entry points *)

Definition kvs_allocator_alloc (size : Z) : A (option addr) :=
  initialized ← gets allocator_initialized;
  if negb initialized || (size =? 0) then mret None else
  backend ← gets allocator_backend;
  if bool_decide (backend = KVS_ALLOCATOR_POOL) then
    ps ← gets pools;
    last ← deref (list.last ps);
    if pool_block_size last <? size then pool_alloc_large size else pool_alloc_small size
  else on_system (kvs_malloc size).

Definition kvs_allocator_free (ptr : option addr) : A unit :=
  match ptr with
  | None => mret tt
  | Some p =>
      initialized ← gets allocator_initialized;
      if negb initialized then exit_process else
      backend ← gets allocator_backend;
      if bool_decide (backend = KVS_ALLOCATOR_POOL) then
        let start := unit_start p in
        kind ← region_at start;
        result ← (match kind with RegionSlab _ => pool_free_small p | RegionLarge _ => pool_free_large start end);
        if negb (result =? 0) then exit_process else mret tt
      else on_system (kvs_free (Some p))
  end.

(** * Destruction and statistics *)

(** The first loop of [pool_destroy]: no slab is in use. *)
Fixpoint slabs_unused (slabs : list addr) : A bool :=
  match slabs with
  | [] => mret true
  | p :: slabs => s ← slab_at p; if negb (slab_used_count s =? 0) then mret false else slabs_unused slabs
  end.
Fixpoint pools_unused (ps : list kvs_size_class_t) : A bool :=
  match ps with
  | [] => mret true
  | p :: ps => unused ← slabs_unused (pool_slabs p); if unused : bool then pools_unused ps else mret false
  end.

(** The second loop: the slabs of pool [i] are unmapped one by one. *)
Fixpoint unmap_slabs (i : nat) (block_size : Z) (slabs : list addr) : A bool :=
  match slabs with
  | [] => mret true
  | p :: next =>
      r ← on_system (munmap p KVS_SLAB_SIZE);
      if negb (r =? 0) then mret false else
      modify (λ s, put_pools (<[i := KvsSizeClass block_size next]> (pools s)) (put_regions (delete p (regions s)) s));;
      unmap_slabs i block_size next
  end.
Fixpoint unmap_pools (i : nat) (ps : list kvs_size_class_t) : A bool :=
  match ps with
  | [] => mret true
  | p :: ps => done ← unmap_slabs i (pool_block_size p) (pool_slabs p); if done : bool then unmap_pools (S i) ps else mret false
  end.

Definition pool_destroy : A Z :=
  ps ← gets pools;
  unused ← pools_unused ps;
  if negb unused then mret (-1) else
  done ← unmap_pools 0 ps;
  mret (if done : bool then 0 else -1).

Definition kvs_allocator_destroy : A Z :=
  initialized ← gets allocator_initialized;
  if negb initialized then mret 0 else
  first ← gets large_regions;
  if bool_decide (first ≠ None) then mret (-1) else
  r ← pool_destroy;
  if negb (r =? 0) then mret (-1) else
  modify (put_initialized false);;
  mret 0.

Record kvs_pool_stats_t := KvsPoolStats { live_objects : Z; slab_count : Z; large_count : Z; mapped_bytes : Z }.

Fixpoint count_slabs (slabs : list addr) (result : kvs_pool_stats_t) : A kvs_pool_stats_t :=
  match slabs with
  | [] => mret result
  | p :: slabs =>
      s ← slab_at p;
      count_slabs slabs (KvsPoolStats (live_objects result + slab_used_count s) (slab_count result + 1) (large_count result)
        (mapped_bytes result + KVS_SLAB_SIZE))
  end.
Fixpoint count_pools (ps : list kvs_size_class_t) (result : kvs_pool_stats_t) : A kvs_pool_stats_t :=
  match ps with [] => mret result | p :: ps => result ← count_slabs (pool_slabs p) result; count_pools ps result end.
Fixpoint count_large (fuel : nat) (large : option addr) (result : kvs_pool_stats_t) : A kvs_pool_stats_t :=
  match large, fuel with
  | None, _ => mret result
  | Some _, O => undefined
  | Some p, S fuel =>
      l ← large_at p;
      count_large fuel (large_next l) (KvsPoolStats (live_objects result + 1) (slab_count result) (large_count result + 1)
        (mapped_bytes result + mapping_size l))
  end.

(** The statistics, or [None] for the result -1. *)
Definition kvs_allocator_pool_stats : A (option kvs_pool_stats_t) :=
  initialized ← gets allocator_initialized;
  backend ← gets allocator_backend;
  if negb initialized || bool_decide (backend ≠ KVS_ALLOCATOR_POOL) then mret None else
  ps ← gets pools;
  result ← count_pools ps (KvsPoolStats 0 0 0 0);
  first ← gets large_regions;
  fuel ← gets (λ s, size (regions s));
  result ← count_large fuel first result;
  mret (Some result).
End operations.

(** * Bits *)

Definition used_bit (bitmap : list Z) (i : Z) : bool :=
  match znth bitmap (i / 8) with Some b => Z.testbit b (i mod 8) | None => false end.

Lemma bit_mask_pow i : bit_mask i = 2 ^ (i mod 8).
Proof.
  unfold bit_mask. pose proof (Z.mod_pos_bound i 8 ltac:(lia)). rewrite Z.shiftl_1_l. apply Z.mod_small.
  split; [apply Z.pow_nonneg; lia|]. change 256 with (2 ^ 8). apply Z.pow_lt_mono_r; lia.
Qed.

Lemma testbit_mask i j : 0 ≤ j → Z.testbit (bit_mask i) j = bool_decide (j = i mod 8).
Proof.
  intros Hj. pose proof (Z.mod_pos_bound i 8 ltac:(lia)). rewrite bit_mask_pow. case_bool_decide as E.
  - subst j. apply Z.pow2_bits_true. lia.
  - apply Z.pow2_bits_false. congruence.
Qed.

Lemma land_mask_zero b i : Z.land b (bit_mask i) = 0 ↔ Z.testbit b (i mod 8) = false.
Proof.
  pose proof (Z.mod_pos_bound i 8 ltac:(lia)). split.
  - intros E. apply (f_equal (λ x, Z.testbit x (i mod 8))) in E. rewrite Z.land_spec, testbit_mask, bool_decide_eq_true_2, andb_true_r, Z.bits_0 in E by lia.
    done.
  - intros E. apply Z.bits_inj'. intros j Hj. rewrite Z.land_spec, testbit_mask, Z.bits_0 by done. case_bool_decide as Ej; [subst j; by rewrite E|apply andb_false_r].
Qed.

Lemma byte_bits b : (∀ j, 8 ≤ j → Z.testbit b j = false) → 0 ≤ b → 0 ≤ b < 256.
Proof.
  intros Hb Hpos. split; [done|]. destruct (Z.lt_ge_cases b 256) as [?|Hge]; [done|]. exfalso.
  assert (8 ≤ Z.log2 b) as Hlog by (change 8 with (Z.log2 256); by apply Z.log2_le_mono).
  pose proof (Z.bit_log2 b ltac:(lia)) as Ht. by rewrite Hb in Ht.
Qed.

Lemma byte_high b j : 0 ≤ b < 256 → 8 ≤ j → Z.testbit b j = false.
Proof.
  intros Hb Hj. destruct (decide (b = 0)) as [->|Hne]; [apply Z.bits_0|]. apply Z.bits_above_log2; [lia|].
  assert (Z.log2 b < 8); [|lia]. apply Z.log2_lt_pow2; lia.
Qed.

Definition set_bit (bitmap : list Z) (i b : Z) : list Z := zupd (i / 8) (Z.lor b (bit_mask i)) bitmap.
Definition clear_bit (bitmap : list Z) (i b : Z) : list Z := zupd (i / 8) (Z.land b (Z.lnot (bit_mask i) mod 256)) bitmap.

Lemma div8_mod8 i j : i / 8 = j / 8 → i mod 8 = j mod 8 → i = j.
Proof. intros. rewrite (Z.div_mod i 8), (Z.div_mod j 8) by lia. congruence. Qed.

(** Reading a bit after one byte was replaced. *)
Lemma used_bit_upd bitmap i b b' j : 0 ≤ i → 0 ≤ j → znth bitmap (i / 8) = Some b →
  (∀ k, 0 ≤ k < 8 → k ≠ i mod 8 → Z.testbit b' k = Z.testbit b k) →
  used_bit (zupd (i / 8) b' bitmap) j = if bool_decide (j = i) then Z.testbit b' (i mod 8) else used_bit bitmap j.
Proof.
  intros Hi Hj Hb Hk. assert (0 ≤ i / 8) as Hi8 by (apply Z.div_pos; lia). assert (0 ≤ j / 8) as Hj8 by (apply Z.div_pos; lia).
  pose proof (Z.mod_pos_bound j 8 ltac:(lia)). unfold used_bit, znth, zupd in *. destruct (Z.ltb_spec (i / 8) 0); [lia|]. destruct (Z.ltb_spec (j / 8) 0); [lia|].
  destruct (decide (j / 8 = i / 8)) as [E|E].
  - rewrite E, list_lookup_insert_eq by (by eapply lookup_lt_Some). rewrite Hb. case_bool_decide as Eij; [by subst j|].
    apply Hk; [lia|]. intros E'. apply Eij. by apply div8_mod8.
  - rewrite list_lookup_insert_ne by lia. rewrite bool_decide_eq_false_2 by congruence. done.
Qed.

Lemma used_bit_set bitmap i j b : 0 ≤ i → 0 ≤ j → znth bitmap (i / 8) = Some b →
  used_bit (set_bit bitmap i b) j = bool_decide (j = i) || used_bit bitmap j.
Proof.
  intros Hi Hj Hb. pose proof (Z.mod_pos_bound i 8 ltac:(lia)). unfold set_bit. rewrite (used_bit_upd _ _ b) by
    (done || intros k Hk Hne; rewrite Z.lor_spec, testbit_mask by lia; rewrite bool_decide_eq_false_2, orb_false_r by done; done).
  case_bool_decide; [|done]. rewrite Z.lor_spec, testbit_mask, bool_decide_eq_true_2, orb_true_r by lia. done.
Qed.

Lemma used_bit_clear bitmap i j b : 0 ≤ i → 0 ≤ j → znth bitmap (i / 8) = Some b →
  used_bit (clear_bit bitmap i b) j = negb (bool_decide (j = i)) && used_bit bitmap j.
Proof.
  intros Hi Hj Hb. pose proof (Z.mod_pos_bound i 8 ltac:(lia)).
  assert (∀ k, 0 ≤ k < 8 → Z.testbit (Z.lnot (bit_mask i) mod 256) k = negb (bool_decide (k = i mod 8))) as Hm.
  { intros k Hk. change 256 with (2 ^ 8). rewrite Z.mod_pow2_bits_low, Z.lnot_spec, testbit_mask by lia. done. }
  unfold clear_bit. rewrite (used_bit_upd _ _ b) by
    (done || intros k Hk Hne; rewrite Z.land_spec, Hm, bool_decide_eq_false_2, andb_true_r by done; done).
  case_bool_decide; [|done]. rewrite Z.land_spec, Hm, bool_decide_eq_true_2, andb_false_r by lia. done.
Qed.

Lemma set_bit_bytes bitmap i b : Forall (λ x, 0 ≤ x < 256) bitmap → znth bitmap (i / 8) = Some b →
  Forall (λ x, 0 ≤ x < 256) (set_bit bitmap i b).
Proof.
  intros Hall Hb. unfold znth in Hb. destruct (_ <? 0); [done|]. apply Forall_insert; [done|].
  pose proof (Forall_lookup_1 _ _ _ _ Hall Hb) as Hr. simpl in Hr. pose proof (Z.mod_pos_bound i 8 ltac:(lia)). apply byte_bits.
  - intros j Hj. rewrite Z.lor_spec, testbit_mask, byte_high, bool_decide_eq_false_2 by lia. done.
  - apply Z.lor_nonneg. split; [lia|]. rewrite bit_mask_pow. apply Z.pow_nonneg. lia.
Qed.

Lemma clear_bit_bytes bitmap i b : Forall (λ x, 0 ≤ x < 256) bitmap → znth bitmap (i / 8) = Some b →
  Forall (λ x, 0 ≤ x < 256) (clear_bit bitmap i b).
Proof.
  intros Hall Hb. unfold znth in Hb. destruct (_ <? 0); [done|]. apply Forall_insert; [done|].
  pose proof (Forall_lookup_1 _ _ _ _ Hall Hb) as Hr. simpl in Hr. apply byte_bits.
  - intros j Hj. rewrite Z.land_spec, byte_high by lia. done.
  - apply Z.land_nonneg. lia.
Qed.

(** * Slabs *)

Definition slab_slots (bs : Z) : Z := (KVS_SLAB_SIZE - data_offset bs) / bs.
Definition block_at (start bs i : Z) : addr := start + data_offset bs + i * bs.

(** The constants of every size class. *)
Definition layout_ok (bs : Z) : bool :=
  (SIZEOF_FREE_BLOCK <=? bs) && (bs mod MAX_ALIGN =? 0) && (bs <=? 4096) && (data_offset bs mod MAX_ALIGN =? 0) &&
  (SIZEOF_SLAB + bitmap_bytes bs <=? data_offset bs) && (data_offset bs <? KVS_SLAB_SIZE) && (1 <=? slab_slots bs) &&
  (slab_slots bs <=? 8 * bitmap_bytes bs) && (data_offset bs + slab_slots bs * bs <=? KVS_SLAB_SIZE).

Lemma class_layout bs : bs ∈ class_sizes → layout_ok bs = true.
Proof. intros Hin. assert (Forall (λ b, layout_ok b = true) class_sizes) as Hall by (repeat constructor). by eapply Forall_forall in Hall. Qed.

Lemma layout_facts bs : layout_ok bs = true →
  8 ≤ bs ∧ bs mod 16 = 0 ∧ bs ≤ 4096 ∧ data_offset bs mod 16 = 0 ∧ 64 + bitmap_bytes bs ≤ data_offset bs < KVS_SLAB_SIZE ∧
  1 ≤ slab_slots bs ≤ 8 * bitmap_bytes bs ∧ data_offset bs + slab_slots bs * bs ≤ KVS_SLAB_SIZE.
Proof.
  unfold layout_ok. rewrite !andb_true_iff, !Z.leb_le, !Z.ltb_lt, !Z.eqb_eq. unfold SIZEOF_FREE_BLOCK, MAX_ALIGN, SIZEOF_SLAB. tauto.
Qed.

(** The chain of free blocks from [p]: the slots [fl]. *)
Fixpoint free_list_ok (start bs : Z) (links : gmap Z (option addr)) (p : option addr) (fl : list Z) : Prop :=
  match fl with
  | [] => p = None
  | i :: fl => p = Some (block_at start bs i) ∧ ∃ next, links !! block_at start bs i = Some next ∧ free_list_ok start bs links next fl
  end.

(** A slab of blocks of [bs] bytes at [start] whose free slots are [fl]. *)
Definition slab_ok (start bs : Z) (s : kvs_slab_t) (fl : list Z) : Prop :=
  slab_block_size s = bs ∧ slab_capacity s = slab_slots bs ∧ slab_data s = start + data_offset bs ∧
  slab_used_count s = slab_slots bs - zlen fl ∧
  zlen (slab_bitmap s) = bitmap_bytes bs ∧ Forall (λ b, 0 ≤ b < 256) (slab_bitmap s) ∧
  NoDup fl ∧ Forall (λ i, 0 ≤ i < slab_slots bs) fl ∧
  (∀ i, 0 ≤ i < slab_slots bs → used_bit (slab_bitmap s) i = bool_decide (i ∉ fl)) ∧
  free_list_ok start bs (slab_links s) (slab_free_list s) fl.

Section slab.
Context (start bs : Z).
Hypothesis Hlayout : layout_ok bs = true.

Lemma slot_inj i j : block_at start bs i = block_at start bs j → i = j.
Proof using Hlayout. pose proof (layout_facts bs Hlayout). unfold block_at. intros. nia. Qed.

Lemma slot_index i : (block_at start bs i - (start + data_offset bs)) / bs = i.
Proof using Hlayout.
  pose proof (layout_facts bs Hlayout). unfold block_at. replace (_ - _) with (i * bs) by lia. apply Z.div_mul. lia.
Qed.

Lemma slot_range i : 0 ≤ i < slab_slots bs → start < block_at start bs i ∧ block_at start bs i + bs ≤ start + KVS_SLAB_SIZE.
Proof using Hlayout. pose proof (layout_facts bs Hlayout) as Hf. unfold block_at. nia. Qed.

Lemma free_chain_ext links links' p fl : (∀ i, i ∈ fl → links' !! block_at start bs i = links !! block_at start bs i) →
  free_list_ok start bs links p fl → free_list_ok start bs links' p fl.
Proof using.
  revert p. induction fl as [|i fl IH]; intros p Hext; [done|]. intros (-> & next & Hn & Hc). split; [done|]. exists next.
  split; [rewrite Hext by (by left); done|]. apply IH; [|done]. intros j Hj. apply Hext. by right.
Qed.

Lemma slab_byte s fl i : slab_ok start bs s fl → 0 ≤ i < slab_slots bs → ∃ b, znth (slab_bitmap s) (i / 8) = Some b.
Proof using Hlayout.
  intros (_ & _ & _ & _ & Hlen & _) Hi. pose proof (layout_facts bs Hlayout) as Hf. unfold znth.
  assert (0 ≤ i / 8 < bitmap_bytes bs) as Hb by (split; [apply Z.div_pos; lia|apply Z.div_lt_upper_bound; lia]).
  destruct (Z.ltb_spec (i / 8) 0); [lia|]. apply lookup_lt_is_Some. unfold zlen in Hlen. lia.
Qed.

(** Taking the first free block, giving one back. *)
Definition slab_taken (s : kvs_slab_t) (i : Z) (next : option addr) (b : Z) : kvs_slab_t :=
  KvsSlab (slab_block_size s) (slab_capacity s) (slab_used_count s + 1) next (set_bit (slab_bitmap s) i b) (slab_data s)
    (delete (block_at start bs i) (slab_links s)).
Definition slab_given (s : kvs_slab_t) (i : Z) (b : Z) : kvs_slab_t :=
  KvsSlab (slab_block_size s) (slab_capacity s) (slab_used_count s - 1) (Some (block_at start bs i)) (clear_bit (slab_bitmap s) i b) (slab_data s)
    (<[block_at start bs i := slab_free_list s]> (slab_links s)).

Lemma slab_take s i fl : slab_ok start bs s (i :: fl) → ∃ next b,
  slab_free_list s = Some (block_at start bs i) ∧ slab_links s !! block_at start bs i = Some next ∧ znth (slab_bitmap s) (i / 8) = Some b ∧
  slab_ok start bs (slab_taken s i next b) fl.
Proof using Hlayout.
  intros Hok. pose proof Hok as (Hbs & Hcap & Hdata & Hused & Hlen & Hbytes & Hnd & Hin & Hbit & Hfree & next & Hnext & Hchain).
  apply NoDup_cons in Hnd as [Hi Hnd]. apply Forall_cons in Hin as [Hir Hin].
  destruct (slab_byte s _ i Hok Hir) as (b & Hb). exists next, b. split; [done|]. split; [done|]. split; [done|].
  split; [done|]. split; [done|]. split; [done|]. split; [cbn; rewrite Hused, zlen_cons; lia|].
  split; [cbn; unfold set_bit, zupd, zlen in *; by rewrite length_insert|]. split; [by apply set_bit_bytes|]. split; [done|]. split; [done|]. split.
  - intros j Hj. cbn. rewrite used_bit_set, Hbit by (done || lia). destruct (decide (j = i)) as [->|Hne].
    + rewrite (bool_decide_eq_true_2 (i = i)), (bool_decide_eq_true_2 (i ∉ fl)) by done. done.
    + rewrite (bool_decide_eq_false_2 (j = i)) by done. cbn. apply bool_decide_ext. set_solver.
  - eapply free_chain_ext; [|exact Hchain]. intros j Hj. cbn. apply lookup_delete_ne. intros E%slot_inj. congruence.
Qed.

Lemma slab_give s i fl : slab_ok start bs s fl → 0 ≤ i < slab_slots bs → i ∉ fl → ∃ b,
  znth (slab_bitmap s) (i / 8) = Some b ∧ Z.testbit b (i mod 8) = true ∧ 0 < slab_used_count s ∧
  slab_ok start bs (slab_given s i b) (i :: fl).
Proof using Hlayout.
  intros Hok Hir Hi. pose proof Hok as (Hbs & Hcap & Hdata & Hused & Hlen & Hbytes & Hnd & Hin & Hbit & Hchain).
  destruct (slab_byte s _ i Hok Hir) as (b & Hb). exists b. split; [done|].
  pose proof (Hbit i Hir) as Hbi. rewrite bool_decide_eq_true_2 in Hbi by done. unfold used_bit in Hbi. rewrite Hb in Hbi.
  assert (zlen (i :: fl) ≤ slab_slots bs) as Hcount.
  { assert (i :: fl ⊆+ seqZ 0 (slab_slots bs)) as Hsub.
    { apply NoDup_submseteq; [by apply NoDup_cons|]. intros j [->|Hj]%elem_of_cons; apply elem_of_seqZ; [lia|].
      rewrite Forall_forall in Hin. specialize (Hin j Hj). lia. }
    apply submseteq_length in Hsub. rewrite length_seqZ in Hsub. unfold zlen. lia. }
  rewrite zlen_cons in Hcount. split; [done|]. split; [lia|].
  split; [done|]. split; [done|]. split; [done|]. split; [cbn; rewrite Hused, zlen_cons; lia|].
  split; [cbn; unfold clear_bit, zupd, zlen in *; by rewrite length_insert|]. split; [by apply clear_bit_bytes|].
  split; [by apply NoDup_cons|]. split; [by apply Forall_cons|]. split.
  - intros j Hj. cbn. rewrite used_bit_clear, Hbit by (done || lia). destruct (decide (j = i)) as [->|Hne].
    + rewrite (bool_decide_eq_true_2 (i = i)) by done. symmetry. apply bool_decide_eq_false_2. set_solver.
    + rewrite (bool_decide_eq_false_2 (j = i)) by done. cbn. apply bool_decide_ext. set_solver.
  - split; [done|]. exists (slab_free_list s). cbn. split; [by rewrite lookup_insert_eq|].
    eapply free_chain_ext; [|exact Hchain]. intros j Hj. apply lookup_insert_ne. intros E%slot_inj. congruence.
Qed.
End slab.

Lemma thread_blocks_chain start bs n i p links fl : layout_ok bs = true → 0 ≤ i →
  free_list_ok start bs links p fl → Forall (λ j, j < i) fl →
  let '(p', links') := thread_blocks n i (start + data_offset bs) bs p links in
  free_list_ok start bs links' p' (reverse (seqZ i (Z.of_nat n)) ++ fl).
Proof.
  intros Hl. revert i p links fl. induction n as [|n IH]; intros i p links fl Hi Hc Hfl; [done|].
  cbn [thread_blocks]. cbv zeta. fold (block_at start bs i). replace (Z.of_nat (S n)) with (Z.succ (Z.of_nat n)) by lia. rewrite seqZ_cons, reverse_cons by lia.
  rewrite <- app_assoc. cbn [app]. replace (Z.pred (Z.succ (Z.of_nat n))) with (Z.of_nat n) by lia. replace (Z.succ i) with (i + 1) by lia.
  apply IH; [lia| |].
  - split; [done|]. exists p. split; [apply lookup_insert_eq|]. eapply free_chain_ext; [|exact Hc].
    intros j Hj. apply lookup_insert_ne. intros E%slot_inj; [|done]. rewrite Forall_forall in Hfl. specialize (Hfl j Hj). lia.
  - apply Forall_cons. split; [lia|]. eapply Forall_impl; [exact Hfl|]. intros j Hj. simpl in *. lia.
Qed.

Lemma elem_of_reverse_seqZ i n : i ∈ reverse (seqZ 0 n) ↔ 0 ≤ i < n.
Proof. rewrite elem_of_reverse, elem_of_seqZ. lia. Qed.

(** A slab as [slab_create] leaves it. *)
Lemma slab_fresh start bs : layout_ok bs = true →
  let '(free_list, links) := thread_blocks (Z.to_nat (slab_slots bs)) 0 (start + data_offset bs) bs None ∅ in
  slab_ok start bs (KvsSlab bs (slab_slots bs) 0 free_list (replicate (Z.to_nat (bitmap_bytes bs)) 0) (start + data_offset bs) links)
    (reverse (seqZ 0 (slab_slots bs))).
Proof.
  intros Hl. pose proof (layout_facts bs Hl) as Hf.
  pose proof (thread_blocks_chain start bs (Z.to_nat (slab_slots bs)) 0 None ∅ [] Hl ltac:(lia) eq_refl (Forall_nil_2 _)) as Hc.
  destruct (thread_blocks _ _ _ _ _ _) as [p links]. rewrite app_nil_r, Z2Nat.id in Hc by lia.
  split; [done|]. split; [done|]. split; [done|]. split; [unfold zlen; cbn; rewrite length_reverse, length_seqZ; lia|].
  split; [unfold zlen; cbn; rewrite length_replicate; lia|]. split; [apply Forall_replicate; lia|].
  split; [cbn; rewrite reverse_Permutation; apply NoDup_seqZ|].
  split; [apply Forall_forall; intros i Hi; by apply elem_of_reverse_seqZ|]. split; [|exact Hc].
  intros i Hi. rewrite bool_decide_eq_false_2 by (intros Hn; by apply Hn, elem_of_reverse_seqZ). unfold used_bit, znth. cbn.
  destruct (_ <? 0); [done|]. destruct (replicate _ _ !! _) as [b|] eqn:E; [|done]. apply lookup_replicate in E as [-> _]. apply Z.bits_0.
Qed.

(** * Mappings *)

Lemma unit_start_div p : unit_start p = KVS_SLAB_SIZE * (p / KVS_SLAB_SIZE).
Proof.
  unfold unit_start. change (KVS_SLAB_SIZE - 1) with (Z.ones 16). rewrite <- Z.ldiff_land, Z.ldiff_ones_r by lia.
  rewrite Z.shiftl_mul_pow2, Z.shiftr_div_pow2 by lia. change (2 ^ 16) with KVS_SLAB_SIZE. lia.
Qed.

Lemma unit_start_at start p : start mod KVS_SLAB_SIZE = 0 → start ≤ p < start + KVS_SLAB_SIZE → unit_start p = start.
Proof. rewrite unit_start_div. unfold KVS_SLAB_SIZE. intros Hm Hp. pose proof (Z.div_mod start (64 * 1024)). pose proof (Z.div_mod p (64 * 1024)).
  pose proof (Z.mod_pos_bound p (64 * 1024)). nia. Qed.

(** Rounding up stays within a unit, on a page. *)
Lemma unit_align_up page raw : 0 < page → KVS_SLAB_SIZE mod page = 0 → raw mod page = 0 →
  let aligned := unit_start (raw + KVS_SLAB_SIZE - 1) in
  raw ≤ aligned < raw + KVS_SLAB_SIZE ∧ aligned mod KVS_SLAB_SIZE = 0 ∧ (aligned - raw) mod page = 0.
Proof.
  intros Hpage Hunit Hraw. cbv zeta. rewrite unit_start_div. set (q := (raw + KVS_SLAB_SIZE - 1) / KVS_SLAB_SIZE).
  assert (0 < KVS_SLAB_SIZE) as Hpos by done. pose proof (Z.div_mod (raw + KVS_SLAB_SIZE - 1) KVS_SLAB_SIZE ltac:(lia)) as Hd. fold q in Hd.
  pose proof (Z.mod_pos_bound (raw + KVS_SLAB_SIZE - 1) KVS_SLAB_SIZE Hpos). split; [lia|]. split; [rewrite Z.mul_comm; apply Z.mod_mul; lia|].
  rewrite Zminus_mod, Hraw, <- Z.mul_mod_idemp_l, Hunit by lia. by rewrite Z.mul_0_l, Z.mod_0_l by lia.
Qed.

Section regions.
Context `{VirtualMemoryLaws V}.
Implicit Types (s : allocator V) (v : V).

Lemma wp_system {X} (m : M V X) s (Q : X → allocator V → Prop) : wp m (system s) (λ x v, Q x (put_system v s)) → wp (on_system m) s Q.
Proof. apply wp_zoom. Qed.

(** What every call of the system keeps. *)
Definition calm v v' : Prop := rt_ok v' ∧ live v' = live v ∧ (vm_reliable v → vm_reliable v').

Lemma calm_trans v1 v2 v3 : calm v1 v2 → calm v2 v3 → calm v1 v3.
Proof. unfold calm. intros (? & E & ?) (? & E' & ?). rewrite E', E. auto. Qed.

Lemma munmap_step {X} p n s (k : Z → M (allocator V) X) Q : rt_ok (system s) → 0 < n → p mod page_size = 0 → n mod page_size = 0 →
  (∀ r v', calm (system s) v' → (vm_reliable (system s) → r = 0) →
     (r = 0 ∧ (∀ a, mapped v' a ↔ mapped (system s) a ∧ ¬ (p ≤ a < p + n)) ∨ r = -1 ∧ (∀ a, mapped v' a ↔ mapped (system s) a)) →
     wp (k r) (put_system v' s) Q) →
  wp (on_system (munmap p n) ≫= k) s Q.
Proof.
  intros Hok Hn Hp Hm Hk. apply wp_bind, wp_system. eapply wp_mono; [by apply munmap_law|]. intros r v' (Hok' & Hl & Hr & Hcase).
  apply Hk; [split; [done|]; split; [done|]; naive_solver|naive_solver|done].
Qed.

(** A new region: aligned, of the asked size, overlapping nothing mapped before. *)
Definition new_region (size : Z) v v' (p : addr) : Prop :=
  0 < p ∧ p mod KVS_SLAB_SIZE = 0 ∧ p mod page_size = 0 ∧ size mod page_size = 0 ∧
  (∀ a, p ≤ a < p + size → mapped v' a ∧ ¬ mapped v a).

Lemma region_memory_alloc_spec size s : rt_ok (system s) → 0 ≤ size →
  wp (region_memory_alloc size) s (λ r s', ∃ v', s' = put_system v' s ∧ calm (system s) v' ∧
    (∀ a, mapped (system s) a → mapped v' a) ∧ match r with Some p => new_region size (system s) v' p | None => True end).
Proof.
  intros Hok Hsize. assert (∀ s, put_system (system s) s = s) as Hput by (by intros []).
  assert (calm (system s) (system s)) as Hrefl by done. unfold region_memory_alloc. cbv zeta.
  destruct (_ || _ || _ || _) eqn:Hguard.
  { apply wp_ret. exists (system s). by rewrite Hput. }
  destruct (SIZE_MAX - KVS_SLAB_SIZE <? size) eqn:Hbig.
  { apply wp_ret. exists (system s). by rewrite Hput. }
  rewrite !orb_false_iff, Z.leb_gt, !negb_false_iff, !Z.eqb_eq in Hguard. destruct Hguard as (((Hpage & Hunit) & Hs0) & Hsp).
  apply Z.eqb_neq in Hs0. apply Z.ltb_ge in Hbig. assert (0 < KVS_SLAB_SIZE) as Hpos by done.
  assert ((size + KVS_SLAB_SIZE) mod page_size = 0) as Hres by (by rewrite Z.add_mod, Hunit, Hsp, Z.mod_0_l by lia).
  apply wp_bind, wp_system. eapply wp_mono; [apply mmap_law; [done|lia|done]|]. intros [raw|] v1 (Hok1 & Hl1 & Hr1 & Hm1).
  2:{ apply wp_ret. exists v1. split; [done|]. split; [done|]. split; [|done]. intros a Ha. by apply Hm1. }
  destruct Hm1 as (Hraw & Hrawp & Hmax & Hnew & Hmap). assert (calm (system s) v1) as Hc1 by done.
  assert (unit_start ((raw + KVS_SLAB_SIZE - 1) mod (SIZE_MAX + 1)) = unit_start (raw + KVS_SLAB_SIZE - 1)) as -> by (rewrite Z.mod_small; [done|lia]).
  pose proof (unit_align_up page_size raw Hpage Hunit Hrawp) as Ha. cbv zeta in Ha. set (aligned := unit_start _) in *. destruct Ha as (Hal & Hal64 & Halp).
  assert (aligned mod page_size = 0) as Halpage.
  { replace aligned with ((aligned - raw) + raw) by lia. by rewrite Z.add_mod, Halp, Hrawp, Z.mod_0_l by lia. }
  assert ((size + KVS_SLAB_SIZE - (aligned - raw)) mod page_size = 0) as Hrest by (by rewrite Zminus_mod, Hres, Halp, Z.mod_0_l by lia).
  assert ((size + KVS_SLAB_SIZE - (aligned - raw) - size) mod page_size = 0) as Hsuf by (by rewrite Zminus_mod, Hrest, Hsp, Z.mod_0_l by lia).
  (* the part before the aligned start *)
  eapply (wp_step _ _ _ (λ failed s', ∃ v', s' = put_system v' s ∧ calm (system s) v' ∧
    (if failed : bool then ∀ a, mapped (system s) a → mapped v' a
     else ∀ a, mapped v' a ↔ mapped (system s) a ∨ aligned ≤ a < raw + (size + KVS_SLAB_SIZE)))).
  { destruct (aligned - raw =? 0) eqn:Hpre; cbn [negb].
    - apply Z.eqb_eq in Hpre. apply wp_ret. exists v1. split; [done|]. split; [done|]. intros a. rewrite Hmap. by replace aligned with raw by lia.
    - apply Z.eqb_neq in Hpre. eapply munmap_step; [done|lia|done|done|]. intros r v2 Hc2 _ Hcase. apply wp_ret. exists v2. split; [done|].
      split; [by eapply calm_trans|]. cbn [system put_system] in Hcase. destruct Hcase as [[-> Hm2]|[-> Hm2]]; cbn.
      + intros a. rewrite Hm2, Hmap. split.
        { intros [[Hma|Hin] Hout]; [by left|right; lia]. }
        intros [Hma|Hin]; [split; [by left|intros Hin; apply (Hnew a); [lia|done]]|split; [right; lia|lia]].
      + intros a Hma. rewrite Hm2, Hmap. by left. }
  intros failed s2 (v2 & -> & Hc2 & Hm2). destruct failed.
  { eapply munmap_step; [apply Hc2|lia|done|done|]. intros r v3 Hc3 _ Hcase. apply wp_ret. exists v3. split; [done|].
    split; [by eapply calm_trans|]. split; [|done]. cbn [system put_system] in Hcase. intros a Hma. specialize (Hm2 a Hma).
    destruct Hcase as [[_ Hm3]|[_ Hm3]]; apply Hm3; [|done]. split; [done|]. intros Hin. by apply (Hnew a). }
  (* the part behind *)
  eapply (wp_step _ _ _ (λ failed s', ∃ v', s' = put_system v' s ∧ calm (system s) v' ∧
    (if failed : bool then ∀ a, mapped (system s) a → mapped v' a
     else ∀ a, mapped v' a ↔ mapped (system s) a ∨ aligned ≤ a < aligned + size))).
  { destruct (size + KVS_SLAB_SIZE - (aligned - raw) - size =? 0) eqn:Hpre; cbn [negb].
    - apply Z.eqb_eq in Hpre. apply wp_ret. exists v2. split; [done|]. split; [done|]. intros a. rewrite Hm2. by replace (aligned + size) with (raw + (size + KVS_SLAB_SIZE)) by lia.
    - apply Z.eqb_neq in Hpre. eapply munmap_step; [apply Hc2|lia|by rewrite Z.add_mod, Halpage, Hsp, Z.mod_0_l by lia|done|].
      intros r v3 Hc3 _ Hcase. apply wp_ret. exists v3. split; [done|].
      split; [by eapply calm_trans|]. cbn [system put_system] in Hcase. destruct Hcase as [[-> Hm3]|[-> Hm3]]; cbn.
      + intros a. rewrite Hm3, Hm2. split.
        { intros [[Hma|Hin] Hout]; [by left|right; lia]. }
        intros [Hma|Hin]; [split; [by left|intros Hin; apply (Hnew a); [lia|done]]|split; [right; lia|lia]].
      + intros a Hma. rewrite Hm3, Hm2. by left. }
  intros failed s3 (v3 & -> & Hc3 & Hm3). destruct failed.
  { eapply munmap_step; [apply Hc3|lia|done|done|]. intros r v4 Hc4 _ Hcase. apply wp_ret. exists v4. split; [done|].
    split; [by eapply calm_trans|]. split; [|done]. cbn [system put_system] in Hcase. intros a Hma. specialize (Hm3 a Hma).
    destruct Hcase as [[_ Hm4]|[_ Hm4]]; apply Hm4; [|done]. split; [done|]. intros Hin. apply (Hnew a); [lia|done]. }
  apply wp_ret. exists v3. split; [done|]. split; [done|]. split; [intros a Hma; rewrite Hm3; by left|].
  split; [lia|]. split; [done|]. split; [done|]. split; [done|]. intros a Ha. rewrite Hm3. split; [by right|]. apply Hnew. lia.
Qed.
End regions.

(** * The blocks in use *)

Definition region_size (r : region) : Z := match r with RegionSlab _ => KVS_SLAB_SIZE | RegionLarge l => mapping_size l end.
(** The bytes a block of the region offers. *)
Definition block_room (r : region) : Z := match r with RegionSlab s => slab_block_size s | RegionLarge l => mapping_size l - LARGE_OFFSET end.

Definition region_blocks (start : addr) (r : region) : list addr :=
  match r with
  | RegionSlab s => (λ i, slab_data s + i * slab_block_size s) <$> filter (λ i, used_bit (slab_bitmap s) i = true) (seqZ 0 (slab_capacity s))
  | RegionLarge _ => [start + LARGE_OFFSET]
  end.
Definition live_blocks (rs : gmap Z region) : gset addr := list_to_set (mjoin ((λ '(p, r), region_blocks p r) <$> map_to_list rs)).

Lemma elem_of_live p rs : p ∈ live_blocks rs ↔ ∃ start r, rs !! start = Some r ∧ p ∈ region_blocks start r.
Proof.
  unfold live_blocks. rewrite elem_of_list_to_set, list_elem_of_join. setoid_rewrite list_elem_of_fmap. split.
  - intros (l & Hp & [start r] & -> & Hr). apply elem_of_map_to_list in Hr. by exists start, r.
  - intros (start & r & Hr & Hp). exists (region_blocks start r). split; [done|]. exists (start, r). split; [done|]. by apply elem_of_map_to_list.
Qed.

Lemma slab_blocks start bs s fl p : slab_ok start bs s fl →
  p ∈ region_blocks start (RegionSlab s) ↔ ∃ i, 0 ≤ i < slab_slots bs ∧ i ∉ fl ∧ p = block_at start bs i.
Proof.
  intros (Hbs & Hcap & Hdata & _ & _ & _ & _ & _ & Hbit & _). cbn. rewrite Hbs, Hcap, Hdata, list_elem_of_fmap.
  setoid_rewrite list_elem_of_filter. setoid_rewrite elem_of_seqZ. split.
  - intros (i & -> & Hi & Hr). exists i. assert (0 ≤ i < slab_slots bs) as Hi' by lia. split; [done|].
    rewrite Hbit in Hi by done. split; [by apply bool_decide_eq_true_1 in Hi|unfold block_at; lia].
  - intros (i & Hr & Hi & ->). exists i. split; [unfold block_at; lia|]. split; [|lia]. rewrite Hbit by done. by apply bool_decide_eq_true_2.
Qed.

(** * The invariant *)

Section invariant.
Context `{VirtualMemory V}.
Implicit Types (s : allocator V) (v : V) (h : gmap Z region) (L : list addr).

Definition region_ok (start : addr) (r : region) : Prop :=
  0 < start ∧ start mod KVS_SLAB_SIZE = 0 ∧ start mod page_size = 0 ∧ region_size r mod page_size = 0 ∧
  match r with
  | RegionSlab s => slab_block_size s ∈ class_sizes ∧ ∃ fl, slab_ok start (slab_block_size s) s fl
  | RegionLarge l => LARGE_OFFSET < mapping_size l
  end.

(** Everything but the links of the large regions. *)
Record core s : Prop := {
  core_init : allocator_initialized s = true;
  core_regions : map_Forall region_ok (regions s);
  core_mapped p r a : regions s !! p = Some r → p ≤ a < p + region_size r → mapped (system s) a;
  core_apart p1 r1 p2 r2 a : regions s !! p1 = Some r1 → regions s !! p2 = Some r2 → p1 ≠ p2 →
    p1 ≤ a < p1 + region_size r1 → ¬ (p2 ≤ a < p2 + region_size r2);
  core_classes : pool_block_size <$> pools s = class_sizes;
  core_chains : NoDup (mjoin (pool_slabs <$> pools s));
  core_slabs p : p ∈ mjoin (pool_slabs <$> pools s) ↔ ∃ x, regions s !! p = Some (RegionSlab x);
  core_class i pool p x : pools s !! i = Some pool → p ∈ pool_slabs pool → regions s !! p = Some (RegionSlab x) →
    slab_block_size x = pool_block_size pool;
}.

(** The regions of [L] dlinked in both directions, between [prev] and [next]. *)
Definition hd_or (next : option addr) L : option addr := match L with [] => next | p :: _ => Some p end.
Definition last_or (prev : option addr) L : option addr := match list.last L with Some p => Some p | None => prev end.
Fixpoint dlinked h (prev : option addr) L (next : option addr) : Prop :=
  match L with
  | [] => True
  | p :: L => (∃ size, h !! p = Some (RegionLarge (KvsLarge size prev (hd_or next L)))) ∧ dlinked h (Some p) L next
  end.

Definition large_ok s L : Prop :=
  NoDup L ∧ large_regions s = hd_or None L ∧ dlinked (regions s) None L None ∧ ∀ p, p ∈ L ↔ ∃ l, regions s !! p = Some (RegionLarge l).

Definition inv s : Prop := core s ∧ ∃ L, large_ok s L.

(** ** Blocks and their regions *)

Lemma region_block_unit start r p : region_ok start r → p ∈ region_blocks start r →
  start < p ∧ 0 < block_room r ∧ p + block_room r ≤ start + region_size r ∧ p < start + KVS_SLAB_SIZE ∧ p mod MAX_ALIGN = 0 ∧ unit_start p = start.
Proof.
  intros (Hpos & Hmod & _ & _ & Hr) Hp. destruct r as [x|l].
  - destruct Hr as (Hcl & fl & Hok). pose proof (class_layout _ Hcl) as Hl. pose proof (layout_facts _ Hl) as Hf.
    apply (slab_blocks _ _ _ _ _ Hok) in Hp as (i & Hi & _ & ->). pose proof (slot_range start _ Hl i Hi) as Hs. cbn.
    split; [lia|]. split; [lia|]. split; [lia|]. split; [lia|]. split; [|apply unit_start_at; [done|lia]].
    unfold block_at, MAX_ALIGN, KVS_SLAB_SIZE in *. apply Z.mod_divide; [lia|]. repeat apply Z.divide_add_r; [..|apply Z.divide_mul_r]; apply Z.mod_divide; try lia.
    apply Z.mod_divide in Hmod as [k ->]; [|lia]. replace (k * (64 * 1024)) with (k * 4096 * 16) by lia. apply Z.mod_mul. lia.
  - apply list_elem_of_singleton in Hp as ->. cbn in *. change LARGE_OFFSET with 32 in *. unfold MAX_ALIGN, KVS_SLAB_SIZE in *.
    split; [lia|]. split; [lia|]. split; [lia|]. split; [lia|]. split; [|apply unit_start_at; [done|unfold KVS_SLAB_SIZE; lia]].
    apply Z.mod_divide in Hmod as [k ->]; [|lia]. replace (k * (64 * 1024) + 32) with ((k * 4096 + 2) * 16) by lia. apply Z.mod_mul. lia.
Qed.

Lemma live_at h p : map_Forall region_ok h →
  p ∈ live_blocks h ↔ ∃ r, h !! unit_start p = Some r ∧ p ∈ region_blocks (unit_start p) r.
Proof.
  intros Hok. rewrite elem_of_live. split.
  - intros (start & r & Hr & Hp). assert (unit_start p = start) as -> by (eapply region_block_unit; [by eapply Hok|done]). by exists r.
  - intros (r & Hr & Hp). by exists (unit_start p), r.
Qed.

(** Writing one region, dropping one. *)
Lemma live_insert h start r p : map_Forall region_ok h → region_ok start r →
  p ∈ live_blocks (<[start := r]> h) ↔ p ∈ region_blocks start r ∨ unit_start p ≠ start ∧ p ∈ live_blocks h.
Proof.
  intros Hok Hr. rewrite live_at by (by apply map_Forall_insert_2). rewrite live_at by done. split.
  - destruct (decide (unit_start p = start)) as [E|E].
    + rewrite E, lookup_insert_eq. intros (? & [= <-] & Hp). by left.
    + rewrite lookup_insert_ne by done. intros Hp. by right.
  - intros [Hp|[E Hp]].
    + assert (unit_start p = start) as -> by (by eapply region_block_unit). exists r. by rewrite lookup_insert_eq.
    + by rewrite lookup_insert_ne.
Qed.

Lemma live_delete h start p : map_Forall region_ok h →
  p ∈ live_blocks (delete start h) ↔ unit_start p ≠ start ∧ p ∈ live_blocks h.
Proof.
  intros Hok. rewrite live_at by (by apply map_Forall_delete). rewrite live_at by done. destruct (decide (unit_start p = start)) as [E|E].
  - rewrite E, lookup_delete_eq. naive_solver.
  - rewrite lookup_delete_ne by done. naive_solver.
Qed.

(** The region of a block, and that different blocks do not overlap. *)
Definition room s p : Z := match regions s !! unit_start p with Some r => block_room r | None => 0 end.

Lemma blocks_apart s p q : core s → p ∈ live_blocks (regions s) → q ∈ live_blocks (regions s) → p ≠ q →
  p + room s p ≤ q ∨ q + room s q ≤ p.
Proof.
  intros Hcore Hp Hq Hne. pose proof (core_regions _ Hcore) as Hok. apply live_at in Hp as (r1 & Hr1 & Hp); [|done]. apply live_at in Hq as (r2 & Hr2 & Hq); [|done].
  unfold room. rewrite Hr1, Hr2. pose proof (region_block_unit _ _ _ (Hok _ _ Hr1) Hp) as Hpu. pose proof (region_block_unit _ _ _ (Hok _ _ Hr2) Hq) as Hqu.
  destruct (decide (unit_start p = unit_start q)) as [E|E].
  - rewrite E in *. set (start := unit_start q) in *. clearbody start. assert (r1 = r2) as -> by congruence. destruct r2 as [x|l]; [|cbn in Hp, Hq; apply list_elem_of_singleton in Hp, Hq; lia].
    destruct (Hok _ _ Hr2) as (_ & _ & _ & _ & Hcl & fl & Hs). apply (slab_blocks _ _ _ _ _ Hs) in Hp as (i & _ & _ & ->).
    apply (slab_blocks _ _ _ _ _ Hs) in Hq as (j & _ & _ & ->). cbn. pose proof (layout_facts _ (class_layout _ Hcl)).
    unfold block_at in *. assert (i ≠ j) by congruence. destruct (Z.lt_ge_cases i j); [left|right]; nia.
  - destruct (Z.le_gt_cases (p + block_room r1) q); [by left|right].
    destruct (Z.le_gt_cases (q + block_room r2) p) as [?|Hov2]; [done|exfalso].
    destruct (Z.le_ge_cases p q); [apply (core_apart _ Hcore _ _ _ _ q Hr1 Hr2 E)|apply (core_apart _ Hcore _ _ _ _ p Hr1 Hr2 E)]; lia.
Qed.
End invariant.
