(* ===== verification/PoolSteps.v ===== *)
(** The operations of the allocator preserve its invariant and do what they promise:
    taking and returning blocks of slabs, new slabs, the list of large regions, the
    entry points, the statistics and destruction. *)

From Stdlib Require Import ZArith Lia.
From S2P Require Import Prelude Runtime Allocator.

(** * Operations on the invariant *)

Section steps.
Context `{VirtualMemoryLaws V}.
Implicit Types (s : allocator V) (v : V) (h : gmap Z region) (L : list addr).

Lemma linked_ext h h' prev L next : (∀ p, p ∈ L → h' !! p = h !! p) → dlinked h prev L next → dlinked h' prev L next.
Proof.
  revert prev. induction L as [|p L IH]; intros prev Hext; [done|]. intros [Hp HL]. split; [rewrite Hext; [done|by left]|].
  apply IH; [|done]. intros q Hq. apply Hext. by right.
Qed.

Lemma step_slab {X} p x s (k : kvs_slab_t → M (allocator V) X) Q : regions s !! p = Some (RegionSlab x) →
  wp (k x) s Q → wp (slab_at p ≫= k) s Q.
Proof. intros Hp Hk. eapply wp_eq; [|exact Hk]. unfold slab_at, region_at, gets, mbind, M_bind. cbn. by rewrite Hp. Qed.

Lemma step_large {X} p l s (k : kvs_large_t → M (allocator V) X) Q : regions s !! p = Some (RegionLarge l) →
  wp (k l) s Q → wp (large_at p ≫= k) s Q.
Proof. intros Hp Hk. eapply wp_eq; [|exact Hk]. unfold large_at, region_at, gets, mbind, M_bind. cbn. by rewrite Hp. Qed.

Lemma core_slab s p x : core s → regions s !! p = Some (RegionSlab x) →
  slab_block_size x ∈ class_sizes ∧ layout_ok (slab_block_size x) = true ∧ ∃ fl, slab_ok p (slab_block_size x) x fl.
Proof. intros Hc Hp. destruct (core_regions _ Hc _ _ Hp) as (_ & _ & _ & _ & Hcl & Hs). split; [done|]. split; [by apply class_layout|done]. Qed.

(** A slab replaced by one of the same class. *)
Lemma inv_put_slab s p x x' : inv s → regions s !! p = Some (RegionSlab x) → slab_block_size x' = slab_block_size x →
  (∃ fl, slab_ok p (slab_block_size x) x' fl) → inv (put_regions (<[p := RegionSlab x']> (regions s)) s).
Proof.
  intros (Hc & L & Hnd & Hfirst & Hlink & HL) Hp Hbs Hok.
  assert (∀ q r, <[p := RegionSlab x']> (regions s) !! q = Some r → ∃ r0, regions s !! q = Some r0 ∧ region_size r = region_size r0) as Hsame.
  { intros q r. destruct (decide (q = p)) as [->|Hne]; [rewrite lookup_insert_eq|rewrite lookup_insert_ne by done].
    - intros [= <-]. by exists (RegionSlab x).
    - intros Hq. by exists r. }
  assert (∀ q, (∃ y, <[p := RegionSlab x']> (regions s) !! q = Some (RegionSlab y)) ↔ ∃ y, regions s !! q = Some (RegionSlab y)) as Hslabs.
  { intros q. destruct (decide (q = p)) as [->|Hne]; [rewrite lookup_insert_eq|by rewrite lookup_insert_ne by done]. split; intros _; by eexists. }
  split; [split|].
  - apply Hc.
  - cbn. apply map_Forall_insert_2; [|apply Hc]. destruct (core_regions _ Hc _ _ Hp) as (? & ? & ? & ? & ? & _).
    split; [done|]. split; [done|]. split; [done|]. split; [done|]. by rewrite Hbs.
  - intros q r a Hq Ha. destruct (Hsame q r Hq) as (r0 & Hr0 & E). rewrite E in Ha. by eapply (core_mapped _ Hc).
  - intros p1 r1 p2 r2 a H1 H2 Hne. destruct (Hsame p1 r1 H1) as (r01 & Hr01 & ->). destruct (Hsame p2 r2 H2) as (r02 & Hr02 & ->). by eapply (core_apart _ Hc).
  - apply Hc.
  - apply Hc.
  - intros q. cbn. rewrite Hslabs. apply Hc.
  - intros i pool q y Hi Hq. cbn. destruct (decide (q = p)) as [->|Hne]; [rewrite lookup_insert_eq|rewrite lookup_insert_ne by done; by eapply (core_class _ Hc)].
    intros [= <-]. rewrite Hbs. by eapply (core_class _ Hc).
  - exists L. split; [done|]. split; [done|]. assert (p ∉ L) as HpL by (intros (l & Hl)%HL; congruence). split.
    + eapply linked_ext; [|exact Hlink]. intros q Hq. cbn. apply lookup_insert_ne. by intros ->.
    + intros q. rewrite HL. cbn. destruct (decide (q = p)) as [->|Hne]; [rewrite lookup_insert_eq, Hp|by rewrite lookup_insert_ne by done].
      split; intros [l Hl]; done.
Qed.

(** What every operation keeps, and what an allocation gives. *)
Definition pool_kept s s' : Prop := inv s' ∧ calm (system s) (system s') ∧ allocator_backend s' = allocator_backend s.
Definition allocated (size : Z) s (r : option addr) s' : Prop :=
  match r with
  | Some p => p ∉ live_blocks (regions s) ∧ live_blocks (regions s') = {[p]} ∪ live_blocks (regions s) ∧
              p mod MAX_ALIGN = 0 ∧ size ≤ room s' p
  | None => live_blocks (regions s') = live_blocks (regions s)
  end.

Lemma slab_alloc_block_spec s p x : inv s → rt_ok (system s) → regions s !! p = Some (RegionSlab x) → slab_free_list x ≠ None →
  wp (slab_alloc_block p) s (λ r s', pool_kept s s' ∧ r ≠ None ∧ allocated (slab_block_size x) s r s').
Proof.
  intros Hinv Hsys Hp Hfree. pose proof Hinv as (Hc & _). destruct (core_slab _ _ _ Hc Hp) as (Hcl & Hl & fl & Hok).
  destruct fl as [|i fl]; [by destruct Hok as (_ & _ & _ & _ & _ & _ & _ & _ & _ & E)|].
  destruct (slab_take p _ Hl x i fl Hok) as (next & b & Hfl & Hnext & Hb & Hok'). set (bs := slab_block_size x) in *.
  unfold slab_alloc_block. eapply step_slab; [exact Hp|]. rewrite Hfl. cbv zeta. fold bs.
  assert ((block_at p bs i - slab_data x) / bs = i) as -> by (destruct Hok as (_ & _ & -> & _); by apply slot_index).
  eapply wp_eq; [by rewrite Hnext|]. cbv beta. eapply wp_eq; [by rewrite Hb|]. cbv beta. eapply wp_eq; [reflexivity|]. apply wp_ret. set (x' := slab_taken p bs x i next b) in *.
  change (put_regions _ s) with (put_regions (<[p := RegionSlab x']> (regions s)) s).
  assert (inv (put_regions (<[p := RegionSlab x']> (regions s)) s)) as Hinv' by (by apply (inv_put_slab s p x); [| | |exists fl]).
  split; [by split|]. split; [done|]. pose proof Hok as (_ & _ & _ & _ & _ & _ & [Hi Hnd]%NoDup_cons & [Hir _]%Forall_cons & _).
  assert (block_at p bs i ∈ region_blocks p (RegionSlab x')) as Hin by (apply (slab_blocks _ _ _ _ _ Hok'); by exists i).
  assert (region_ok p (RegionSlab x')) as Hro by (apply (core_regions _ (proj1 Hinv')); apply lookup_insert_eq).
  pose proof (region_block_unit _ _ _ Hro Hin) as (_ & _ & _ & _ & Halign & Hunit).
  assert (block_at p bs i ∉ live_blocks (regions s)) as Hnew.
  { rewrite live_at by apply Hc. rewrite Hunit. intros (r & Hr & Hr'). rewrite Hp in Hr. injection Hr as <-.
    apply (slab_blocks _ _ _ _ _ Hok) in Hr' as (j & _ & Hj & E%slot_inj); [|done]. subst j. apply Hj. by left. }
  split; [done|]. split; [|split; [done|unfold room; cbn; by rewrite Hunit, lookup_insert_eq]].
  apply set_eq. intros q. cbn [put_regions regions]. rewrite live_insert by (done || apply Hc). rewrite elem_of_union, elem_of_singleton.
  rewrite (slab_blocks _ _ _ _ _ Hok'). rewrite (live_at _ q) by apply Hc. split.
  - intros [(j & Hj & Hjf & ->)|[_ Hq]]; [|by right]. destruct (decide (j = i)) as [->|Hne]; [by left|right].
    exists (RegionSlab x). rewrite (unit_start_at p) by (apply Hro || (pose proof (slot_range p bs Hl j Hj); pose proof (layout_facts _ Hl); lia)). split; [done|].
    apply (slab_blocks _ _ _ _ _ Hok). exists j. split; [done|]. split; [|done]. rewrite elem_of_cons. naive_solver.
  - intros [->|(r & Hr & Hq)]; [left; by exists i|]. destruct (decide (unit_start q = p)) as [E|E]; [left|right; split; [done|by exists r]].
    rewrite E, Hp in Hr. injection Hr as <-. rewrite E in Hq. apply (slab_blocks _ _ _ _ _ Hok) in Hq as (j & Hj & Hjf & ->).
    exists j. rewrite elem_of_cons in Hjf. split; [done|]. split; [tauto|done].
Qed.

(** Giving back: a block in use leaves the live set; any other address is refused. *)
Lemma pool_free_small_spec s p x : inv s → rt_ok (system s) → regions s !! unit_start p = Some (RegionSlab x) → p ∈ live_blocks (regions s) →
  wp (pool_free_small p) s (λ r s', pool_kept s s' ∧ r = 0 ∧ live_blocks (regions s') = live_blocks (regions s) ∖ {[p]}).
Proof.
  intros Hinv Hsys Hp Hlive. pose proof Hinv as (Hc & _). destruct (core_slab _ _ _ Hc Hp) as (Hcl & Hl & fl & Hok).
  set (start := unit_start p) in *. set (bs := slab_block_size x) in *.
  rewrite live_at in Hlive by apply Hc. destruct Hlive as (r & Hr & Hin). fold start in Hr, Hin. rewrite Hp in Hr. injection Hr as <-.
  apply (slab_blocks _ _ _ _ _ Hok) in Hin as (i & Hi & Hif & Ep).
  destruct (slab_give start bs Hl x i fl Hok Hi Hif) as (b & Hb & Hbit & Hused & Hok'). pose proof Hok as (_ & Hcap & Hdata & _).
  pose proof (layout_facts _ Hl) as Hf. unfold pool_free_small. cbv zeta. fold start. eapply step_slab; [exact Hp|]. rewrite Hdata.
  assert (p - (start + data_offset bs) = i * bs) as Eoff by (rewrite Ep; unfold block_at; lia).
  rewrite (proj2 (Z.ltb_ge _ _)) by nia. rewrite Eoff. fold bs. rewrite Z.mod_mul, Z.div_mul by lia. rewrite Hcap.
  rewrite (proj2 (Z.leb_gt (slab_slots bs) i)) by lia. cbn [Z.eqb negb orb]. eapply wp_eq; [by rewrite Hb|]. cbv beta.
  rewrite (proj2 (Z.eqb_neq _ 0)) by (intros E%land_mask_zero; congruence). rewrite (proj2 (Z.eqb_neq (slab_used_count x) 0)) by lia. cbn [orb].
  eapply wp_eq; [reflexivity|]. apply wp_ret. set (x' := slab_given start bs x i b) in *.
  match goal with |- context [RegionSlab (KvsSlab ?a1 ?a2 ?a3 ?a4 ?a5 ?a6 ?a7)] => replace (KvsSlab a1 a2 a3 a4 a5 a6 a7) with x' end.
  2:{ unfold x', slab_given. by rewrite Ep, Hdata, Hcap. }
  assert (inv (put_regions (<[start := RegionSlab x']> (regions s)) s)) as Hinv' by (by apply (inv_put_slab s start x); [| | |exists (i :: fl)]).
  assert (region_ok start (RegionSlab x')) as Hro by (apply (core_regions _ (proj1 Hinv')); apply lookup_insert_eq).
  split; [by split|]. split; [done|]. apply set_eq. intros q. cbn [put_regions regions]. rewrite live_insert by (done || apply Hc).
  rewrite elem_of_difference, elem_of_singleton, (slab_blocks _ _ _ _ _ Hok'), (live_at _ q) by apply Hc. split.
  - intros [(j & Hj & Hjf & ->)|[Hne (r & Hr & Hq)]].
    + rewrite not_elem_of_cons in Hjf. destruct Hjf as [Hji Hjf]. split; [|rewrite Ep; by intros E%slot_inj].
      exists (RegionSlab x). rewrite (unit_start_at start) by (apply Hro || (pose proof (slot_range start bs Hl j Hj); lia)). split; [done|].
      apply (slab_blocks _ _ _ _ _ Hok). by exists j.
    + split; [by exists r|]. by intros ->.
  - intros [(r & Hr & Hq) Hne]. destruct (decide (unit_start q = start)) as [E|E]; [left|right; split; [done|by exists r]].
    rewrite E, Hp in Hr. injection Hr as <-. rewrite E in Hq. apply (slab_blocks _ _ _ _ _ Hok) in Hq as (j & Hj & Hjf & ->).
    exists j. rewrite not_elem_of_cons. split; [done|]. split; [split; [by intros ->|done]|done].
Qed.

Lemma pool_free_small_refuses s p x : inv s → regions s !! unit_start p = Some (RegionSlab x) → p ∉ live_blocks (regions s) →
  wp (pool_free_small p) s (λ r s', r = -1 ∧ s' = s).
Proof.
  intros Hinv Hp Hdead. pose proof Hinv as (Hc & _). destruct (core_slab _ _ _ Hc Hp) as (Hcl & Hl & fl & Hok).
  set (start := unit_start p) in *. set (bs := slab_block_size x) in *. pose proof (layout_facts _ Hl) as Hf.
  pose proof Hok as (_ & Hcap & Hdata & _). unfold pool_free_small. cbv zeta. fold start. eapply step_slab; [exact Hp|]. rewrite Hdata. fold bs.
  destruct (Z.ltb_spec p (start + data_offset bs)); [by apply wp_ret|].
  destruct (_ || _) eqn:Hbad; [by apply wp_ret|]. rewrite orb_false_iff, negb_false_iff, Z.eqb_eq, Z.leb_gt, Hcap in Hbad. destruct Hbad as [Hmod Hlt].
  set (i := (p - (start + data_offset bs)) / bs) in *. assert (0 ≤ i < slab_slots bs) as Hi by (split; [apply Z.div_pos; lia|done]).
  assert (p = block_at start bs i) as Ep.
  { pose proof (Z.div_mod (p - (start + data_offset bs)) bs ltac:(lia)) as E. rewrite Hmod in E. fold i in E. unfold block_at. lia. }
  destruct (slab_byte start bs Hl x fl i Hok Hi) as (b & Hb). eapply wp_eq; [by rewrite Hb|]. cbv beta.
  assert (i ∈ fl) as Hif.
  { destruct (decide (i ∈ fl)) as [?|Hif]; [done|]. exfalso. apply Hdead. apply live_at; [apply Hc|]. fold start. exists (RegionSlab x). split; [done|].
    apply (slab_blocks _ _ _ _ _ Hok). by exists i. }
  pose proof Hok as (_ & _ & _ & _ & _ & _ & _ & _ & Hbit & _). specialize (Hbit i Hi). unfold used_bit in Hbit.
  rewrite Hb, bool_decide_eq_false_2 in Hbit by tauto. apply land_mask_zero in Hbit. rewrite Hbit. cbn [Z.eqb orb]. by apply wp_ret.
Qed.

(** ** New slabs *)

Lemma pool_kept_refl s : inv s → rt_ok (system s) → pool_kept s s.
Proof. by split; [|split]. Qed.
Lemma pool_kept_trans s1 s2 s3 : pool_kept s1 s2 → pool_kept s2 s3 → pool_kept s1 s3.
Proof. intros (_ & Hc & E) (? & Hc' & E'). split; [done|]. split; [by eapply calm_trans|]. by rewrite E', E. Qed.

(** The system moved on, keeping the mappings. *)
Lemma core_system s v : core s → (∀ p r a, regions s !! p = Some r → p ≤ a < p + region_size r → mapped (system s) a → mapped v a) → core (put_system v s).
Proof. intros [] Hm. split; try done. intros p r a Hp Ha. eapply Hm; [done|done|]. eauto. Qed.
Lemma inv_system s v : inv s → (∀ a, mapped (system s) a → mapped v a) → inv (put_system v s).
Proof. intros [Hc HL] Hm. split; [|done]. apply core_system; [done|]. auto. Qed.

(** A new region overlaps no other. *)
Lemma new_region_fresh s v p size r : inv s → (∀ a, mapped (system s) a → mapped v a) → new_region size (system s) v p → 0 < size →
  region_size r = size → regions s !! p = None ∧
  (∀ q r0 a, regions s !! q = Some r0 → p ≤ a < p + size → ¬ (q ≤ a < q + region_size r0)).
Proof.
  intros [Hc _] Hm (_ & _ & _ & _ & Hnew) Hs _.
  assert (∀ q r0 a, regions s !! q = Some r0 → p ≤ a < p + size → ¬ (q ≤ a < q + region_size r0)) as Hapart.
  { intros q r0 a Hq Ha Hin. destruct (Hnew a Ha) as [_ Hun]. by eapply Hun, (core_mapped _ Hc). }
  split; [|done]. destruct (regions s !! p) as [r0|] eqn:E; [|done]. exfalso. apply (Hapart p r0 p E); [lia|].
  destruct (core_regions _ Hc _ _ E) as (_ & _ & _ & _ & Hr). destruct r0 as [x|l]; cbn in *; [unfold KVS_SLAB_SIZE; lia|].
  change LARGE_OFFSET with 32 in Hr. lia.
Qed.

Lemma core_add s v p r ps : inv s → (∀ a, mapped (system s) a → mapped v a) → new_region (region_size r) (system s) v p → 0 < region_size r →
  region_ok p r → pool_block_size <$> ps = class_sizes →
  NoDup (mjoin (pool_slabs <$> ps)) → (∀ q, q ∈ mjoin (pool_slabs <$> ps) ↔ ∃ x, <[p := r]> (regions s) !! q = Some (RegionSlab x)) →
  (∀ i pool q x, ps !! i = Some pool → q ∈ pool_slabs pool → <[p := r]> (regions s) !! q = Some (RegionSlab x) → slab_block_size x = pool_block_size pool) →
  core (put_pools ps (put_regions (<[p := r]> (regions s)) (put_system v s))).
Proof.
  intros Hinv Hm Hnew Hpos Hr Hps Hnd Hslabs Hclass. destruct (new_region_fresh s v p _ r Hinv Hm Hnew Hpos eq_refl) as [Hfresh Hapart].
  destruct Hinv as [Hc _]. split; cbn; try done.
  - apply Hc.
  - by apply map_Forall_insert_2; [|apply Hc].
  - intros q r0 a. destruct (decide (q = p)) as [->|Hne]; [rewrite lookup_insert_eq|rewrite lookup_insert_ne by done].
    + intros [= <-] Ha. destruct Hnew as (_ & _ & _ & _ & Hnew). by apply Hnew.
    + intros Hq Ha. by eapply Hm, (core_mapped _ Hc).
  - intros p1 r1 p2 r2 a. destruct (decide (p1 = p)) as [->|H1]; [rewrite lookup_insert_eq|rewrite lookup_insert_ne by done];
      (destruct (decide (p2 = p)) as [->|H2]; [rewrite lookup_insert_eq|rewrite lookup_insert_ne by done]); intros E1 E2 Hne Ha.
    + done.
    + injection E1 as <-. by eapply Hapart.
    + injection E2 as <-. intros Ha2. by eapply (Hapart p1 r1 a).
    + exact (core_apart _ Hc _ _ _ _ _ E1 E2 Hne Ha).
Qed.

Lemma chains_insert ps i pool : ps !! i = Some pool → ∃ rest, mjoin (pool_slabs <$> ps) ≡ₚ pool_slabs pool ++ rest ∧
  ∀ b l, mjoin (pool_slabs <$> <[i := KvsSizeClass b l]> ps) ≡ₚ l ++ rest.
Proof.
  intros Hi. rewrite <- (take_drop_middle _ _ _ Hi). exists (mjoin (pool_slabs <$> take i ps) ++ mjoin (pool_slabs <$> drop (S i) ps)).
  assert (i < List.length ps)%nat as Hlt by (by eapply lookup_lt_Some). split.
  - rewrite fmap_app, join_app, fmap_cons. cbn. solve_Permutation.
  - intros b l. rewrite insert_app_r_alt by (rewrite length_take; lia). rewrite length_take, Nat.min_l, Nat.sub_diag by lia. cbn [insert list_insert].
    rewrite fmap_app, join_app, fmap_cons. cbn. solve_Permutation.
Qed.

Lemma last_class s : core s → ∃ last, list.last (pools s) = Some last ∧ pool_block_size last = 4096.
Proof.
  intros Hc. pose proof (core_classes _ Hc) as E. apply (f_equal list.last) in E. rewrite fmap_last in E. destruct (list.last (pools s)) as [last|]; [|done].
  exists last. split; [done|]. by injection E.
Qed.

Lemma find_size_class_spec s size : core s → size ≤ 4096 → ∃ i pool, find_size_class size (pools s) = Some i ∧ pools s !! i = Some pool ∧
  size ≤ pool_block_size pool ∧ pool_block_size pool ∈ class_sizes.
Proof.
  intros Hc Hsize. assert (∃ i pool, find_size_class size (pools s) = Some i ∧ pools s !! i = Some pool ∧ size ≤ pool_block_size pool) as (i & pool & Hi & Hpool & Hle).
  { destruct (last_class s Hc) as (last & Hlast & E). apply last_Some in Hlast as [l Hl]. rewrite Hl. clear Hl. induction l as [|pl l IH]; cbn.
    - rewrite (proj2 (Z.leb_le _ _)) by lia. exists O, last. split; [done|]. split; [done|lia].
    - destruct (Z.leb_spec size (pool_block_size pl)); [by exists O, pl|]. destruct IH as (i & pool & -> & Hpool & Hle). by exists (S i), pool. }
  exists i, pool. split; [done|]. split; [done|]. split; [done|]. rewrite <- (core_classes _ Hc). apply list_elem_of_fmap_2. by eapply list_elem_of_lookup_2.
Qed.

Lemma first_free_spec s slabs : (∀ p, p ∈ slabs → ∃ x, regions s !! p = Some (RegionSlab x)) →
  wp (first_free slabs) s (λ r s', s' = s ∧ match r with Some p => ∃ x, p ∈ slabs ∧ regions s !! p = Some (RegionSlab x) ∧ slab_free_list x ≠ None | None => True end).
Proof.
  induction slabs as [|p slabs IH]; intros Hs; cbn [first_free]; [by apply wp_ret|].
  destruct (Hs p ltac:(by left)) as (x & Hx). eapply step_slab; [exact Hx|]. destruct (slab_free_list x) as [b|] eqn:E.
  - apply wp_ret. split; [done|]. exists x. rewrite E. split; [by left|done].
  - eapply wp_mono; [apply IH; intros q Hq; apply Hs; by right|]. intros [q|] s' [-> Hr]; split; try done. destruct Hr as (y & Hq & Hy). exists y. split; [by right|done].
Qed.

Lemma in_chain ps i pool p : ps !! i = Some pool → p ∈ pool_slabs pool → p ∈ mjoin (pool_slabs <$> ps).
Proof. intros Hi Hp. apply list_elem_of_join. exists (pool_slabs pool). split; [done|]. apply list_elem_of_fmap_2. by eapply list_elem_of_lookup_2. Qed.

(** A new slab on the chain of its pool. *)
Lemma add_slab s v p bs x i pool : inv s → (∀ a, mapped (system s) a → mapped v a) → new_region KVS_SLAB_SIZE (system s) v p →
  bs ∈ class_sizes → slab_ok p bs x (reverse (seqZ 0 (slab_slots bs))) → pools s !! i = Some pool → pool_block_size pool = bs →
  let s' := put_pools (<[i := KvsSizeClass bs (p :: pool_slabs pool)]> (pools s)) (put_regions (<[p := RegionSlab x]> (regions s)) (put_system v s)) in
  inv s' ∧ live_blocks (regions s') = live_blocks (regions s).
Proof.
  intros Hinv Hm Hnew Hbs Hok Hi Hpool s'. pose proof Hinv as (Hc & L & HndL & Hfirst & Hlink & HL).
  destruct (new_region_fresh s v p _ (RegionSlab x) Hinv Hm Hnew ltac:(done) eq_refl) as [Hfresh _].
  assert (slab_block_size x = bs) as Ebs by apply Hok.
  assert (region_ok p (RegionSlab x)) as Hro.
  { destruct Hnew as (? & ? & ? & ? & _). split; [done|]. split; [done|]. split; [done|]. split; [done|]. rewrite Ebs. split; [done|]. by eexists. }
  destruct (chains_insert _ _ _ Hi) as (rest & Hp1 & Hp2). specialize (Hp2 bs (p :: pool_slabs pool)).
  assert (p ∉ mjoin (pool_slabs <$> pools s)) as HpC by (intros [y Hy]%(core_slabs _ Hc); congruence).
  assert (mjoin (pool_slabs <$> <[i := KvsSizeClass bs (p :: pool_slabs pool)]> (pools s)) ≡ₚ p :: mjoin (pool_slabs <$> pools s)) as Hperm by (by rewrite Hp2, Hp1).
  split; [split|].
  - apply core_add; try done.
    + rewrite list_fmap_insert. cbn. rewrite <- (core_classes _ Hc). apply list_insert_id. by rewrite list_lookup_fmap, Hi, <- Hpool.
    + rewrite Hperm. apply NoDup_cons. split; [done|apply Hc].
    + intros q. rewrite Hperm, elem_of_cons, (core_slabs _ Hc). destruct (decide (q = p)) as [->|Hne]; [rewrite lookup_insert_eq|rewrite lookup_insert_ne by done; naive_solver].
      split; [intros _; by eexists|by left].
    + intros j pool' q y Hj Hq. destruct (decide (j = i)) as [->|Hne].
      * rewrite list_lookup_insert_eq in Hj by (by eapply lookup_lt_Some). injection Hj as <-. cbn in *.
        destruct (decide (q = p)) as [->|Hqp]; [rewrite lookup_insert_eq; by intros [= <-]|rewrite lookup_insert_ne by done].
        apply elem_of_cons in Hq as [->|Hq]; [done|]. rewrite <- Hpool. by eapply (core_class _ Hc).
      * rewrite list_lookup_insert_ne in Hj by done. assert (q ≠ p) by (intros ->; apply HpC; by eapply in_chain).
        rewrite lookup_insert_ne by done. by eapply (core_class _ Hc).
  - exists L. split; [done|]. split; [done|]. assert (p ∉ L) as HpL by (intros (l & Hl)%HL; congruence). split.
    + eapply linked_ext; [|exact Hlink]. intros q Hq. cbn. apply lookup_insert_ne. by intros ->.
    + intros q. rewrite HL. cbn. destruct (decide (q = p)) as [->|Hne]; [rewrite lookup_insert_eq, Hfresh|by rewrite lookup_insert_ne by done]. split; intros [l Hl]; done.
  - apply set_eq. intros q. cbn. rewrite live_insert by (done || apply Hc). rewrite (slab_blocks _ _ _ _ _ Hok). split.
    + intros [(j & Hj & Hjf & _)|[_ Hq]]; [|done]. by rewrite elem_of_reverse_seqZ in Hjf.
    + intros Hq. right. split; [|done]. intros E. apply live_at in Hq as (r & Hr & _); [|apply Hc]. rewrite E in Hr. congruence.
Qed.

Lemma pool_alloc_small_spec s size : inv s → rt_ok (system s) → 0 < size ≤ 4096 →
  wp (pool_alloc_small size) s (λ r s', pool_kept s s' ∧ allocated size s r s').
Proof.
  intros Hinv Hsys Hsize. pose proof Hinv as (Hc & _). destruct (find_size_class_spec s size Hc) as (i & pool & Hfind & Hi & Hle & Hcl); [lia|].
  unfold pool_alloc_small. rewrite (proj2 (Z.eqb_neq _ _)) by lia. eapply wp_eq; [reflexivity|]. cbv beta. rewrite Hfind. eapply wp_eq; [by rewrite Hi|]. cbv beta.
  assert (∀ p, p ∈ pool_slabs pool → ∃ x, regions s !! p = Some (RegionSlab x)) as Hslabs by (intros p Hp; apply (core_slabs _ Hc); by eapply in_chain).
  eapply wp_step; [by apply first_free_spec|]. intros [p|] s1 [-> Hr].
  - destruct Hr as (x & Hp & Hx & Hfree). eapply wp_mono; [by eapply slab_alloc_block_spec|]. intros r s' (Hk & Hne & Ha). split; [done|].
    destruct r as [b|]; [|done]. destruct Ha as (? & ? & ? & ?). rewrite (core_class _ Hc i pool p x) in * by done. split_and!; try done. lia.
  - clear Hr. destruct (last_class s Hc) as (last & Hlast & Elast). pose proof (class_layout _ Hcl) as Hl. pose proof (layout_facts _ Hl) as Hf.
    set (bs := pool_block_size pool) in *. unfold slab_create. apply wp_bind_assoc. eapply wp_eq; [reflexivity|]. cbv beta. apply wp_bind_assoc. eapply wp_eq; [by rewrite Hlast|]. cbv beta.
    rewrite Elast. cbv zeta. rewrite (proj2 (Z.ltb_ge bs _)) by (unfold SIZEOF_FREE_BLOCK; lia). change MAX_ALIGN with 16. rewrite (proj1 (proj2 Hf)).
    rewrite (proj2 (Z.ltb_ge 4096 bs)) by lia. cbn [Z.eqb negb orb]. fold (slab_slots bs).
    rewrite (proj2 (Z.leb_gt KVS_SLAB_SIZE (data_offset bs))), (proj2 (Z.eqb_neq (slab_slots bs) 0)) by lia. cbn [orb]. apply wp_bind_assoc.
    eapply wp_step; [by apply region_memory_alloc_spec|]. intros r s1 (v & -> & Hcalm & Hm & Hr). destruct r as [p|]; cbv beta iota.
    2:{ apply wp_bind, wp_ret, wp_ret. split; [|done]. split; [by apply inv_system|done]. }
    pose proof (slab_fresh p bs Hl) as Hok. destruct (thread_blocks _ _ _ _ _ _) as [free_list links]. set (x := KvsSlab bs _ _ _ _ _ _) in *.
    apply wp_bind_assoc. eapply wp_eq; [reflexivity|]. cbv beta. eapply wp_eq; [reflexivity|]. cbv beta iota. eapply wp_eq; [reflexivity|]. cbv beta.
    destruct (add_slab s v p bs x i pool Hinv Hm Hr Hcl Hok Hi eq_refl) as [Hinv' Hlive]. set (s' := put_pools _ _) in *.
    change (put_pools _ _) with s'.
    assert (pool_kept s s') as Hk by (split; [done|split; done]).
    assert (regions s' !! p = Some (RegionSlab x)) as Hp by (cbn; apply lookup_insert_eq).
    eapply wp_mono; [eapply (slab_alloc_block_spec s' p x); [done|apply Hcalm|done|]|].
    { destruct Hok as (_ & _ & _ & _ & _ & _ & _ & _ & _ & Hch). intros E. rewrite E in Hch.
      destruct (reverse (seqZ 0 (slab_slots bs))) as [|j fl] eqn:El; [|by destruct Hch]. apply (f_equal List.length) in El. rewrite length_reverse, length_seqZ in El. cbn in El. lia. }
    intros r s2 (Hk2 & Hne & Ha). split; [by eapply pool_kept_trans|]. destruct r as [b|]; [|done]. unfold allocated in *. rewrite Hlive in Ha. destruct Ha as (? & ? & ? & Hroom).
    split_and!; try done. change (slab_block_size x) with bs in Hroom. lia.
Qed.


(** ** The list of large regions *)

Lemma hd_or_app next L1 L2 : hd_or next (L1 ++ L2) = hd_or (hd_or next L2) L1.
Proof. by destruct L1. Qed.
Lemma last_or_cons prev p L : last_or prev (p :: L) = last_or (Some p) L.
Proof. unfold last_or. rewrite last_cons. by destruct (list.last L). Qed.
Lemma last_or_snoc prev L p : last_or prev (L ++ [p]) = Some p.
Proof. unfold last_or. by rewrite last_snoc. Qed.

Lemma linked_app h prev L1 L2 next :
  dlinked h prev (L1 ++ L2) next ↔ dlinked h prev L1 (hd_or next L2) ∧ dlinked h (last_or prev L1) L2 next.
Proof.
  revert prev. induction L1 as [|p L1 IH]; intros prev; cbn [app dlinked]; [tauto|]. rewrite IH, hd_or_app, last_or_cons. tauto.
Qed.

(** Only the links of large regions differ. *)
Definition relinked h h' : Prop := ∀ p,
  match h !! p with
  | Some (RegionLarge l) => ∃ l', h' !! p = Some (RegionLarge l') ∧ mapping_size l' = mapping_size l
  | r => h' !! p = r
  end.

Lemma relinked_refl h : relinked h h.
Proof. intros p. destruct (h !! p) as [[x|l]|]; [done| |done]. by exists l. Qed.

Lemma relinked_trans h1 h2 h3 : relinked h1 h2 → relinked h2 h3 → relinked h1 h3.
Proof.
  intros H1 H2 p. specialize (H1 p). specialize (H2 p). destruct (h1 !! p) as [[x|l]|]; [by rewrite H1 in H2| |by rewrite H1 in H2].
  destruct H1 as (l' & E & Es). rewrite E in H2. destruct H2 as (l'' & E' & Es'). exists l''. by rewrite Es'.
Qed.

Lemma relinked_insert h p l l' : h !! p = Some (RegionLarge l) → mapping_size l' = mapping_size l → relinked h (<[p := RegionLarge l']> h).
Proof.
  intros Hp Hs q. destruct (decide (q = p)) as [->|Hne]; [rewrite Hp, lookup_insert_eq; by exists l'|rewrite lookup_insert_ne by done].
  apply relinked_refl.
Qed.

Lemma relinked_back h h' p r' : relinked h h' → h' !! p = Some r' → ∃ r, h !! p = Some r ∧ region_size r = region_size r' ∧ block_room r = block_room r' ∧
  region_blocks p r = region_blocks p r' ∧ (∀ x, r = RegionSlab x ↔ r' = RegionSlab x) ∧ (region_ok p r → region_ok p r').
Proof.
  intros Hr Hp. specialize (Hr p). destruct (h !! p) as [[x|l]|] eqn:E.
  - rewrite Hr in Hp. injection Hp as <-. by exists (RegionSlab x).
  - destruct Hr as (l' & E' & Es). rewrite E' in Hp. injection Hp as <-. exists (RegionLarge l). unfold region_ok. cbn. rewrite Es. done.
  - congruence.
Qed.
Lemma relinked_forth h h' p r : relinked h h' → h !! p = Some r → ∃ r', h' !! p = Some r' ∧ region_blocks p r' = region_blocks p r ∧
  (∀ x, r = RegionSlab x ↔ r' = RegionSlab x).
Proof.
  intros Hr Hp. specialize (Hr p). rewrite Hp in Hr. destruct r as [x|l]; [by exists (RegionSlab x)|].
  destruct Hr as (l' & E' & Es). by exists (RegionLarge l').
Qed.

Lemma relinked_live h h' : relinked h h' → live_blocks h' = live_blocks h.
Proof.
  intros Hr. apply set_eq. intros q. rewrite !elem_of_live. split.
  - intros (p & r' & Hp & Hq). destruct (relinked_back _ _ _ _ Hr Hp) as (r & Hp' & _ & _ & E & _). exists p, r. by rewrite E.
  - intros (p & r & Hp & Hq). destruct (relinked_forth _ _ _ _ Hr Hp) as (r' & Hp' & E & _). exists p, r'. by rewrite E.
Qed.

Lemma core_relinked s h' l : core s → relinked (regions s) h' → core (put_large l (put_regions h' s)).
Proof.
  intros Hc Hr.
  assert (∀ p x, h' !! p = Some (RegionSlab x) ↔ regions s !! p = Some (RegionSlab x)) as Hslab.
  { intros p x. split.
    - intros Hp. destruct (relinked_back _ _ _ _ Hr Hp) as (r & Hp' & _ & _ & _ & E & _). rewrite Hp'. f_equal. by apply E.
    - intros Hp. destruct (relinked_forth _ _ _ _ Hr Hp) as (r & Hp' & _ & E). rewrite Hp'. f_equal. by apply E. }
  split; cbn; try apply Hc.
  - intros p r' Hp. destruct (relinked_back _ _ _ _ Hr Hp) as (r & Hp' & _ & _ & _ & _ & Hok). by apply Hok, (core_regions _ Hc).
  - intros p r' a Hp. destruct (relinked_back _ _ _ _ Hr Hp) as (r & Hp' & <- & _). by apply (core_mapped _ Hc).
  - intros p1 r1' p2 r2' a H1 H2. destruct (relinked_back _ _ _ _ Hr H1) as (r1 & H1' & <- & _). destruct (relinked_back _ _ _ _ Hr H2) as (r2 & H2' & <- & _).
    by apply (core_apart _ Hc).
  - intros p. setoid_rewrite Hslab. apply Hc.
  - intros i pool p x Hi Hp. rewrite Hslab. by eapply (core_class _ Hc).
Qed.

Lemma put_same s : put_large (large_regions s) (put_regions (regions s) s) = s.
Proof. by destruct s. Qed.

(** Both halves of a change of links. *)
Lemma link_next_spec s L nxt nxt' : NoDup L → dlinked (regions s) None L nxt → large_regions s = hd_or nxt L →
  wp (link_next (last_or None L) nxt') s (λ _ s', ∃ h', s' = put_large (hd_or nxt' L) (put_regions h' s) ∧ relinked (regions s) h' ∧
    dlinked h' None L nxt' ∧ ∀ q, q ∉ L → h' !! q = regions s !! q).
Proof.
  intros Hnd Hl Hfirst. destruct L as [|q L0 _] using rev_ind.
  - cbn. exists (regions s). split; [by destruct s|]. split; [apply relinked_refl|done].
  - rewrite last_or_snoc. cbn [link_next]. rewrite linked_app in Hl. destruct Hl as [Hl0 [[size Hq] _]].
    unfold set_next. eapply step_large; [exact Hq|]. unfold put_region, wp, modify. cbn.
    exists (<[q := RegionLarge (KvsLarge size (last_or None L0) nxt')]> (regions s)). split; [|split; [by eapply relinked_insert; [exact Hq|]|split]].
    + rewrite !hd_or_app in *. cbn [hd_or] in *. rewrite <- Hfirst. by destruct s.
    + apply NoDup_app in Hnd as (_ & Hd & _). rewrite linked_app. split; [|split; [|done]].
      * eapply linked_ext; [|exact Hl0]. intros p Hp. apply lookup_insert_ne. intros ->. apply (Hd _ Hp). by left.
      * exists size. apply lookup_insert_eq.
    + intros p Hp. apply lookup_insert_ne. intros ->. apply Hp, elem_of_app. right. by left.
Qed.

Lemma link_prev_spec s L prev prev' : NoDup L → dlinked (regions s) prev L None →
  wp (link_prev (hd_or None L) prev') s (λ _ s', ∃ h', s' = put_regions h' s ∧ relinked (regions s) h' ∧
    dlinked h' prev' L None ∧ ∀ q, q ∉ L → h' !! q = regions s !! q).
Proof.
  intros Hnd Hl. destruct L as [|q L].
  - cbn. exists (regions s). split; [by destruct s|]. split; [apply relinked_refl|done].
  - cbn [hd_or link_prev]. destruct Hl as [[size Hq] Hl]. unfold set_prev. eapply step_large; [exact Hq|]. unfold put_region, wp, modify. cbn.
    eexists. split; [done|]. split; [by eapply relinked_insert; [exact Hq|]|]. apply NoDup_cons in Hnd as [HqL _]. split.
    + split; [exists size; apply lookup_insert_eq|]. eapply linked_ext; [|exact Hl]. intros p Hp. apply lookup_insert_ne. by intros ->.
    + intros p Hp. apply lookup_insert_ne. intros ->. apply Hp. by left.
Qed.

(** A region between two parts of the list is taken out, or put back. *)
Lemma relink_spec s L1 L2 nxt nxt' prev prev' : NoDup (L1 ++ L2) → dlinked (regions s) None L1 nxt → dlinked (regions s) prev L2 None →
  large_regions s = hd_or nxt L1 →
  wp (link_next (last_or None L1) nxt';; link_prev (hd_or None L2) prev') s (λ _ s', ∃ h',
    s' = put_large (hd_or nxt' L1) (put_regions h' s) ∧ relinked (regions s) h' ∧ dlinked h' None L1 nxt' ∧ dlinked h' prev' L2 None ∧
    ∀ q, q ∉ L1 ++ L2 → h' !! q = regions s !! q).
Proof.
  intros (Hnd1 & Hd & Hnd2)%NoDup_app Hl1 Hl2 Hfirst. eapply wp_step; [by apply (link_next_spec s L1 nxt)|]. intros [] s1 (h1 & -> & Hr1 & Hl1' & Hout1).
  eapply wp_mono; [apply (link_prev_spec _ L2 prev prev'); [done|]|].
  { eapply linked_ext; [|exact Hl2]. intros p Hp. cbn. apply Hout1. intros Hp1. by apply (Hd _ Hp1). }
  intros [] s2 (h2 & -> & Hr2 & Hl2' & Hout2). cbn in Hr2, Hout2. exists h2. split; [done|]. split; [by eapply relinked_trans|]. split; [|split; [done|]].
  - eapply linked_ext; [|exact Hl1']. intros p Hp. apply Hout2. by apply Hd.
  - intros q Hq. rewrite not_elem_of_app in Hq. rewrite Hout2, Hout1 by tauto. done.
Qed.

Lemma pool_free_large_spec s p l : inv s → rt_ok (system s) → regions s !! p = Some (RegionLarge l) →
  wp (pool_free_large p) s (λ r s', pool_kept s s' ∧ (vm_reliable (system s) → r = 0) ∧
    (r = 0 ∧ live_blocks (regions s') = live_blocks (regions s) ∖ {[p + LARGE_OFFSET]} ∨
     r = -1 ∧ live_blocks (regions s') = live_blocks (regions s))).
Proof.
  intros (Hc & L & Hnd & Hfirst & Hlink & HL) Hsys Hp.
  assert (p ∈ L) as Hin by (apply HL; by exists l). apply list_elem_of_split in Hin as (L1 & L2 & ->).
  rewrite linked_app in Hlink. destruct Hlink as (Hl1 & [size Hp'] & Hl2). cbn [hd_or] in Hl1, Hp'. rewrite Hp in Hp'. injection Hp' as ->.
  rewrite hd_or_app in Hfirst. cbn [hd_or] in Hfirst.
  pose proof Hnd as (Hnd1 & Hd & [HpL2 Hnd2]%NoDup_cons)%NoDup_app.
  assert (NoDup (L1 ++ L2)) as Hnd12.
  { apply NoDup_app. split; [done|]. split; [|done]. intros q Hq Hq2. apply (Hd q Hq). by right. }
  assert (p ∉ L1 ++ L2) as Hpout by (rewrite not_elem_of_app; split; [intros HpL; apply (Hd p HpL); by left|done]).
  destruct (core_regions _ Hc _ _ Hp) as (Hpos & H64 & Hpage & Hsize & Hlo). cbn in Hsize, Hlo.
  unfold pool_free_large. eapply step_large; [exact Hp|]. cbv zeta. cbn [large_prev large_next mapping_size].
  eapply wp_step2; [by apply (relink_spec s L1 L2 (Some p) (hd_or None L2) (Some p) (last_or None L1))|]. intros [] s1 (h1 & -> & Hr1 & Hl1' & Hl2' & Hout1).
  pose proof (core_relinked s h1 (hd_or (hd_or None L2) L1) Hc Hr1) as Hc1. pose proof (Hout1 p Hpout) as Hp1. rewrite Hp in Hp1.
  eapply munmap_step; [done|change LARGE_OFFSET with 32 in Hlo; cbn in *; lia|done|done|]. intros r v Hcalm Hrel Hcase. cbn [system put_large put_regions] in Hcalm, Hrel, Hcase.
  destruct Hcase as [[-> Hm]|[-> Hm]].
  - cbn [Z.eqb]. eapply wp_eq; [reflexivity|]. apply wp_ret. cbn [regions put_system put_large put_regions].
    assert (∀ q r, delete p h1 !! q = Some r → q ≠ p ∧ h1 !! q = Some r) as Hdel by (intros q r0 Hq%lookup_delete_Some; naive_solver).
    split; [split; [split|split; [done|done]]|split; [done|left; split; [done|]]].
    + split; cbn; try apply Hc1.
      * apply map_Forall_delete, Hc1.
      * intros q r0 a [Hne Hq]%Hdel Ha. apply Hm. split; [by eapply (core_mapped _ Hc1)|]. intros Hap.
        eapply (core_apart _ Hc1 q r0 p _ a Hq Hp1 Hne Ha). exact Hap.
      * intros p1 r1 p2 r2 a [_ H1]%Hdel [_ H2]%Hdel. by apply (core_apart _ Hc1).
      * intros q. rewrite (core_slabs _ Hc1). cbn. split; intros [x Hx]; exists x.
        { rewrite lookup_delete_ne; [done|]. intros ->. congruence. }
        { by apply Hdel in Hx as [_ ?]. }
      * intros i pool q x Hi Hq [_ Hx]%Hdel. by eapply (core_class _ Hc1).
    + exists (L1 ++ L2). split; [done|]. split; [cbn; by rewrite hd_or_app|]. split.
      * cbn. eapply (linked_ext h1); [intros q Hq; apply lookup_delete_ne; by intros ->|]. apply linked_app. by split.
      * intros q. cbn. split.
        { intros Hq. assert (q ≠ p) by (by intros ->). destruct (proj1 (HL q)) as [l Hl]; [rewrite elem_of_app in *; rewrite elem_of_cons; tauto|].
          specialize (Hr1 q). rewrite Hl in Hr1. destruct Hr1 as (l' & Hl' & _). exists l'. by rewrite lookup_delete_ne. }
        { intros [l [Hne Hl]%Hdel]. destruct (relinked_back _ _ _ _ Hr1 Hl) as (r0 & Hr0 & _ & _ & _ & Hsl & _). destruct r0 as [x|l0]; [by pose proof (proj1 (Hsl x) eq_refl)|].
          assert (q ∈ L1 ++ p :: L2) as Hq by (apply HL; by exists l0). rewrite elem_of_app, elem_of_cons in Hq. rewrite elem_of_app. tauto. }
    + apply set_eq. intros q. rewrite live_delete by apply Hc1. rewrite (relinked_live _ _ Hr1), elem_of_difference, elem_of_singleton. split.
      * intros [Hne Hq]. split; [done|]. intros ->. apply Hne. eapply region_block_unit; [by apply (core_regions _ Hc)|by left].
      * intros [Hq Hne]. split; [|done]. intros E. apply live_at in Hq as (r0 & Hr0 & Hq); [|apply Hc]. rewrite E, Hp in Hr0. injection Hr0 as <-.
        apply list_elem_of_singleton in Hq. congruence.
  - cbn [Z.eqb]. eapply wp_step2; [apply (relink_spec _ L1 L2 (hd_or None L2) (Some p) (last_or None L1) (Some p)); [done|done|done|done]|].
    intros [] s2 (h2 & -> & Hr2 & Hl1'' & Hl2'' & Hout2). cbn [regions put_system put_large put_regions] in Hr2, Hout2. apply wp_ret.
    pose proof (relinked_trans _ _ _ Hr1 Hr2) as Hr12. split; [split; [split|split; [done|done]]|split; [done|right; split; [done|by apply relinked_live]]].
    + pose proof (core_relinked s h2 (hd_or (Some p) L1) Hc Hr12) as Hc2.
      apply (core_system _ v Hc2). intros q r0 a _ _. cbn. by rewrite Hm.
    + exists (L1 ++ p :: L2). split; [done|]. split; [cbn; by rewrite hd_or_app|]. split.
      * cbn. apply linked_app. split; [done|]. split; [|done]. exists size. by rewrite Hout2.
      * intros q. rewrite HL. cbn. split.
        { intros [l Hl]. specialize (Hr12 q). rewrite Hl in Hr12. destruct Hr12 as (l' & Hl' & _). by exists l'. }
        { intros [l Hl]. destruct (relinked_back _ _ _ _ Hr12 Hl) as (r0 & Hr0 & _ & _ & _ & Hsl & _). destruct r0 as [x|l0]; [by pose proof (proj1 (Hsl x) eq_refl)|by exists l0]. }
Qed.

Lemma pool_alloc_large_spec s size : inv s → rt_ok (system s) → 0 < size →
  wp (pool_alloc_large size) s (λ r s', pool_kept s s' ∧ allocated size s r s').
Proof.
  intros Hinv Hsys Hsize. pose proof Hinv as (Hc & L & Hnd & Hfirst & Hlink & HL).
  assert (wp (mret None : M (allocator V) (option addr)) s (λ r s', pool_kept s s' ∧ allocated size s r s')) as Hnone by (apply wp_ret; split; [by apply pool_kept_refl|done]).
  unfold pool_alloc_large. cbv zeta. change LARGE_OFFSET with 32. destruct ((page_size <=? 0) || _) eqn:Hg1; [done|]. destruct ((KVS_SLAB_SIZE <=? 32) || _) eqn:Hg2; [done|].
  set (padding := if (32 + size) mod page_size =? 0 then 0 else _) in *. destruct (SIZE_MAX - padding <? _) eqn:Hg3; [done|].
  rewrite !orb_false_iff, !Z.leb_gt, !Z.eqb_neq in *. bool_to_prop.
  assert (0 ≤ padding) as Hpad.
  { unfold padding. destruct (_ =? 0); [done|]. pose proof (Z.mod_pos_bound (32 + size) _ (proj1 Hg1)). lia. }
  clearbody padding. eapply wp_step; [apply region_memory_alloc_spec; [done|lia]|]. intros r s1 (v & -> & Hcalm & Hm & Hr). destruct r as [p|].
  2:{ apply wp_ret. split; [|done]. split; [by apply inv_system|done]. }
  eapply wp_eq; [reflexivity|]. cbv beta. cbn [large_regions put_system]. rewrite Hfirst. eapply wp_eq; [reflexivity|]. cbv beta.
  set (l := KvsLarge _ None (hd_or None L)) in *. set (s1 := put_regions _ _).
  destruct (new_region_fresh s v p _ (RegionLarge l) Hinv Hm Hr ltac:(lia) eq_refl) as [Hfresh _].
  assert (region_ok p (RegionLarge l)) as Hro.
  { destruct Hr as (? & ? & ? & ? & _). split; [done|]. split; [done|]. split; [done|]. split; [done|]. cbn. change LARGE_OFFSET with 32. lia. }
  assert (core s1) as Hc1.
  { apply (core_add s v p (RegionLarge l) (pools s)); try done; [cbn; lia|apply Hc|apply Hc| |].
    - intros q. rewrite (core_slabs _ Hc). destruct (decide (q = p)) as [->|Hne]; [rewrite lookup_insert_eq, Hfresh|by rewrite lookup_insert_ne by done]. split; by intros [].
    - intros i pool q x Hi Hq. destruct (decide (q = p)) as [->|Hne]; [by rewrite lookup_insert_eq|rewrite lookup_insert_ne by done]. by eapply (core_class _ Hc). }
  assert (p ∉ L) as HpL by (intros (l' & Hl)%HL; congruence).
  assert (dlinked (regions s1) None L None) as Hl1 by (eapply linked_ext; [|exact Hlink]; intros q Hq; cbn; apply lookup_insert_ne; by intros ->).
  change (match hd_or None L with Some first => set_prev first (Some p) | None => mret tt end) with (link_prev (V := V) (hd_or None L) (Some p)).
  eapply wp_step; [by apply (link_prev_spec s1 L None (Some p))|]. intros [] s2 (h & -> & Hre & Hlh & Hout). eapply wp_eq; [reflexivity|]. apply wp_ret.
  pose proof (core_relinked s1 h (Some p) Hc1 Hre) as Hc2. set (s2 := put_large _ _) in *.
  assert (h !! p = Some (RegionLarge l)) as Hp by (rewrite Hout by done; apply lookup_insert_eq).
  assert (inv s2) as Hinv2.
  { split; [done|]. exists (p :: L). split; [by apply NoDup_cons|]. split; [done|]. split; [split; [by eexists|done]|].
    intros q. rewrite elem_of_cons, HL. cbn. destruct (decide (q = p)) as [->|Hne]; [rewrite Hp; split; [by eexists|by left]|]. specialize (Hre q). cbn in Hre.
    rewrite lookup_insert_ne in Hre by done. destruct (regions s !! q) as [[x|l0]|]; [|destruct Hre as (l' & -> & _)|]; [rewrite Hre| |rewrite Hre]; naive_solver. }
  split; [split; [done|split; done]|]. destruct (region_block_unit p (RegionLarge l) (p + 32)) as (_ & _ & _ & _ & Halign & Hunit); [done|by left|].
  split; [|split; [|split; [done|unfold room; cbn; rewrite Hunit, Hp; cbn; change LARGE_OFFSET with 32; lia]]].
  - intros (r & Hr' & _)%live_at; [|apply Hc]. rewrite Hunit in Hr'. congruence.
  - cbn. rewrite (relinked_live _ _ Hre). apply set_eq. intros q. cbn. rewrite live_insert by (done || apply Hc). cbn. rewrite elem_of_union, elem_of_singleton, list_elem_of_singleton.
    split; [tauto|]. intros [->|Hq]; [by left|right]. split; [|done]. intros E. apply live_at in Hq as (r & Hr' & _); [|apply Hc]. rewrite E in Hr'. congruence.
Qed.

(** ** Entry points *)

(** A free in the pool: a block in use is released; any other address ends the process,
    with nothing changed, when a region is found for it. *)
Lemma pool_free_spec s p : inv s → rt_ok (system s) → allocator_backend s = KVS_ALLOCATOR_POOL → vm_reliable (system s) →
  p ∈ live_blocks (regions s) →
  wp (kvs_allocator_free (Some p)) s (λ _ s', pool_kept s s' ∧ live_blocks (regions s') = live_blocks (regions s) ∖ {[p]}).
Proof.
  intros Hinv Hsys Hback Hrel Hp. pose proof Hinv as (Hc & _). unfold kvs_allocator_free. eapply wp_eq; [reflexivity|]. cbv beta. rewrite (core_init _ Hc). cbn [negb].
  eapply wp_eq; [reflexivity|]. cbv beta. rewrite Hback, bool_decide_eq_true_2 by done. cbv zeta.
  pose proof Hp as (r & Hr & Hin)%live_at; [|apply Hc]. eapply wp_eq; [unfold region_at, gets, mbind, M_bind; cbn; by rewrite Hr|]. cbv beta.
  destruct r as [x|l].
  - eapply wp_step; [by eapply pool_free_small_spec|]. intros r s' (Hk & -> & Hlive). by apply wp_ret.
  - eapply wp_step; [by eapply pool_free_large_spec|]. intros r s' (Hk & -> & Hlive); [|done]. apply wp_ret. split; [done|].
    apply list_elem_of_singleton in Hin. destruct Hlive as [[_ ->]|[? _]]; [by rewrite <- Hin|done].
Qed.

Lemma pool_alloc_spec s size : inv s → rt_ok (system s) → allocator_backend s = KVS_ALLOCATOR_POOL → 0 < size →
  wp (kvs_allocator_alloc size) s (λ r s', pool_kept s s' ∧ allocated size s r s').
Proof.
  intros Hinv Hsys Hback Hsize. pose proof Hinv as (Hc & _). unfold kvs_allocator_alloc. eapply wp_eq; [reflexivity|]. cbv beta. rewrite (core_init _ Hc).
  rewrite (proj2 (Z.eqb_neq size 0)) by lia. cbn [negb orb]. eapply wp_eq; [reflexivity|]. cbv beta. rewrite Hback, bool_decide_eq_true_2 by done.
  eapply wp_eq; [reflexivity|]. cbv beta. destruct (last_class s Hc) as (last & Hlast & E). eapply wp_eq; [by rewrite Hlast|]. cbv beta. rewrite E.
  destruct (Z.ltb_spec 4096 size); [by apply pool_alloc_large_spec|]. by apply pool_alloc_small_spec.
Qed.

(** ** Counting *)

(** A figure summed over the regions, and over a list of them. *)
Definition sum_over (g : addr → region → Z) h : Z := map_fold (λ p r n, g p r + n) 0 h.
Definition list_sum (g : addr → region → Z) h (l : list addr) : Z :=
  foldr (λ p n, from_option (g p) 0 (h !! p) + n) 0 l.

Lemma list_sum_app g h l1 l2 : list_sum g h (l1 ++ l2) = list_sum g h l1 + list_sum g h l2.
Proof. unfold list_sum. induction l1 as [|p l1 IH]; cbn; [done|]. rewrite IH. lia. Qed.

Lemma list_sum_ext g h h' l : (∀ p, p ∈ l → h' !! p = h !! p) → list_sum g h' l = list_sum g h l.
Proof.
  induction l as [|p l IH]; cbn; intros Hext; [done|]. unfold list_sum in *. rewrite IH by (intros q Hq; apply Hext; by right).
  by rewrite Hext by (by left).
Qed.

Lemma sum_over_list g h l : NoDup l → (∀ p, p ∈ l ↔ is_Some (h !! p)) → sum_over g h = list_sum g h l.
Proof.
  revert h. induction l as [|p l IH]; intros h Hnd Hin.
  - replace h with (∅ : gmap Z region); [done|]. symmetry. apply map_empty. intros p. apply eq_None_not_Some. intros Hp%Hin. by apply not_elem_of_nil in Hp.
  - apply NoDup_cons in Hnd as [Hp Hnd]. destruct (proj1 (Hin p) ltac:(by left)) as [r Hr]. unfold sum_over.
    rewrite (map_fold_delete_L _ _ p r) by (done || intros; lia). cbn [list_sum foldr]. rewrite Hr. cbn. f_equal.
    fold (sum_over g (delete p h)). rewrite IH; [|done|].
    + apply list_sum_ext. intros q Hq. apply lookup_delete_ne. by intros ->.
    + intros q. destruct (decide (q = p)) as [->|Hne]; [rewrite lookup_delete_eq; split; [done|by intros []]|rewrite lookup_delete_ne by done].
      rewrite <- Hin, elem_of_cons. naive_solver.
Qed.

Lemma slab_used_blocks start bs x fl : layout_ok bs = true → slab_ok start bs x fl → zlen (region_blocks start (RegionSlab x)) = slab_used_count x.
Proof.
  intros Hl (Hbs & Hcap & _ & Hused & _ & _ & Hnd & Hin & Hbit & _). rewrite Hused. unfold zlen. cbn. rewrite length_fmap, Hcap.
  pose proof (layout_facts _ Hl) as Hf.
  assert (filter (λ i, used_bit (slab_bitmap x) i = true) (seqZ 0 (slab_slots bs)) ++ fl ≡ₚ seqZ 0 (slab_slots bs)) as Hperm.
  { assert (∀ i, i ∈ filter (λ i, used_bit (slab_bitmap x) i = true) (seqZ 0 (slab_slots bs)) ↔ 0 ≤ i < slab_slots bs ∧ i ∉ fl) as Hfil.
    { intros i. rewrite list_elem_of_filter, elem_of_seqZ. split.
      - intros [Hb Hi]. rewrite Hbit in Hb by lia. apply bool_decide_eq_true_1 in Hb. split; [lia|done].
      - intros [Hi Hf']. rewrite Hbit by lia. split; [by apply bool_decide_eq_true_2|lia]. }
    apply NoDup_Permutation; [|apply NoDup_seqZ|].
    - apply NoDup_app. split; [apply NoDup_filter, NoDup_seqZ|]. split; [|done]. intros i Hi. by apply Hfil in Hi as [_ ?].
    - intros i. rewrite elem_of_app, Hfil, elem_of_seqZ. rewrite Forall_forall in Hin. specialize (Hin i). destruct (decide (i ∈ fl)) as [Hi|Hi]; [specialize (Hin Hi)|]; naive_solver lia. }
  apply Permutation_length in Hperm. rewrite length_app, length_seqZ in Hperm. lia.
Qed.

Lemma region_blocks_nodup start r : region_ok start r → NoDup (region_blocks start r).
Proof.
  intros (_ & _ & _ & _ & Hr). destruct r as [x|l]; [|apply NoDup_singleton]. destruct Hr as (Hcl & _). pose proof (layout_facts _ (class_layout _ Hcl)). cbn.
  apply (NoDup_fmap_2_strong _ _); [|apply NoDup_filter, NoDup_seqZ]. intros i j _ _ E. nia.
Qed.

Lemma size_live h : map_Forall region_ok h → Z.of_nat (size (live_blocks h)) = sum_over (λ p r, zlen (region_blocks p r)) h.
Proof.
  induction h as [|p r h Hp IH] using map_ind; [done|]. intros Hok. pose proof (map_Forall_insert_1_1 _ _ _ _ Hok) as Hr. apply map_Forall_insert_1_2 in Hok; [|done].
  unfold sum_over. rewrite map_fold_insert_L by (done || intros; lia). fold (sum_over (λ p r, zlen (region_blocks p r)) h). rewrite <- IH by done.
  replace (live_blocks (<[p:=r]> h)) with (list_to_set (region_blocks p r) ∪ live_blocks h).
  - rewrite size_union, size_list_to_set by (by apply region_blocks_nodup || (intros q; rewrite elem_of_list_to_set; intros Hq (r' & Hr' & _)%live_at; [|done];
      assert (unit_start q = p) as E by (by eapply region_block_unit); congruence)). unfold zlen. lia.
  - apply set_eq. intros q. rewrite live_insert, elem_of_union, elem_of_list_to_set by done. split; [|tauto]. intros [Hq|Hq]; [by left|].
    right. split; [|done]. apply live_at in Hq as (r' & Hr' & _); [|done]. congruence.
Qed.

(** The chains of the pools and the list of large regions are all the regions. *)
Lemma all_regions s L : core s → large_ok s L → NoDup (mjoin (pool_slabs <$> pools s) ++ L) ∧
  ∀ p, p ∈ mjoin (pool_slabs <$> pools s) ++ L ↔ is_Some (regions s !! p).
Proof.
  intros Hc (Hnd & _ & _ & HL). split.
  - apply NoDup_app. split; [apply Hc|]. split; [|done]. intros p [x Hx]%(core_slabs _ Hc) [l Hl]%HL. congruence.
  - intros p. rewrite elem_of_app, (core_slabs _ Hc), HL. split; [intros [[x ->]|[l ->]]; by eexists|]. intros [[x|l] Hr]; [left|right]; by eexists.
Qed.

Definition is_slab (r : region) : Z := match r with RegionSlab _ => 1 | RegionLarge _ => 0 end.
Definition is_large (r : region) : Z := 1 - is_slab r.

(** The true figures. *)
Definition true_stats h : kvs_pool_stats_t :=
  KvsPoolStats (Z.of_nat (size (live_blocks h))) (sum_over (λ _, is_slab) h) (sum_over (λ _, is_large) h) (sum_over (λ _, region_size) h).

Definition list_stats h (l : list addr) : kvs_pool_stats_t :=
  KvsPoolStats (list_sum (λ p r, zlen (region_blocks p r)) h l) (list_sum (λ _, is_slab) h l) (list_sum (λ _, is_large) h l) (list_sum (λ _, region_size) h l).
Definition plus_stats (a b : kvs_pool_stats_t) : kvs_pool_stats_t :=
  KvsPoolStats (live_objects a + live_objects b) (slab_count a + slab_count b) (large_count a + large_count b) (mapped_bytes a + mapped_bytes b).

Lemma plus_stats_assoc a b c : plus_stats (plus_stats a b) c = plus_stats a (plus_stats b c).
Proof. unfold plus_stats. cbn. f_equal; lia. Qed.
Lemma list_stats_app h l1 l2 : list_stats h (l1 ++ l2) = plus_stats (list_stats h l1) (list_stats h l2).
Proof. unfold list_stats, plus_stats. cbn. f_equal; apply list_sum_app. Qed.
Lemma plus_stats_nil h a : plus_stats a (list_stats h []) = a.
Proof. destruct a. unfold plus_stats. cbn. f_equal; lia. Qed.

Lemma count_slabs_spec s slabs a : core s → (∀ p, p ∈ slabs → ∃ x, regions s !! p = Some (RegionSlab x)) →
  wp (count_slabs slabs a) s (λ r s', s' = s ∧ r = plus_stats a (list_stats (regions s) slabs)).
Proof.
  intros Hc. revert a. induction slabs as [|p slabs IH]; intros a Hs; cbn [count_slabs]; [apply wp_ret; by rewrite plus_stats_nil|].
  destruct (Hs p ltac:(by left)) as (x & Hx). eapply step_slab; [exact Hx|]. eapply wp_mono; [apply IH; intros q Hq; apply Hs; by right|].
  intros r s' [-> ->]. split; [done|]. change (p :: slabs) with ([p] ++ slabs). rewrite list_stats_app, <- plus_stats_assoc. f_equal.
  destruct (core_slab _ _ _ Hc Hx) as (_ & Hl & fl & Hok). unfold plus_stats, list_stats, list_sum, is_large, is_slab, from_option. cbn [foldr live_objects slab_count large_count mapped_bytes].
  rewrite Hx. rewrite (slab_used_blocks _ _ _ _ Hl Hok). cbn [region_size]. f_equal; lia.
Qed.

Lemma count_pools_spec s ps a : core s → (∀ p, p ∈ mjoin (pool_slabs <$> ps) → ∃ x, regions s !! p = Some (RegionSlab x)) →
  wp (count_pools ps a) s (λ r s', s' = s ∧ r = plus_stats a (list_stats (regions s) (mjoin (pool_slabs <$> ps)))).
Proof.
  intros Hc. revert a. induction ps as [|p ps IH]; intros a Hs; cbn [count_pools]; [apply wp_ret; by rewrite plus_stats_nil|].
  rewrite fmap_cons in Hs. cbn [mjoin list_join] in Hs. eapply wp_step; [apply count_slabs_spec; [done|intros q Hq; apply Hs, elem_of_app; by left]|]. intros r s' [-> ->].
  eapply wp_mono; [apply IH; intros q Hq; apply Hs, elem_of_app; by right|]. intros r s' [-> ->]. split; [done|].
  rewrite plus_stats_assoc. by rewrite fmap_cons, <- list_stats_app.
Qed.

Lemma count_large_spec s L prev a fuel : dlinked (regions s) prev L None → (List.length L ≤ fuel)%nat →
  wp (count_large fuel (hd_or None L) a) s (λ r s', s' = s ∧ r = plus_stats a (list_stats (regions s) L)).
Proof.
  revert prev a fuel. induction L as [|p L IH]; intros prev a fuel Hl Hf; [destruct fuel; apply wp_ret; by rewrite plus_stats_nil|].
  cbn in Hf. destruct fuel as [|fuel]; [lia|]. cbn [hd_or count_large]. destruct Hl as [[sz Hp] Hl]. eapply step_large; [exact Hp|]. cbn [large_next].
  eapply wp_mono; [by eapply IH; [|lia]|]. intros r s' [-> ->]. split; [done|]. change (p :: L) with ([p] ++ L). rewrite list_stats_app, <- plus_stats_assoc. f_equal.
  unfold plus_stats, list_stats, list_sum, is_large, is_slab, from_option. cbn [foldr live_objects slab_count large_count mapped_bytes]. rewrite Hp. cbn. f_equal; lia.
Qed.

Lemma pool_stats_spec s : inv s → allocator_backend s = KVS_ALLOCATOR_POOL →
  kvs_allocator_pool_stats s = Ok (Some (true_stats (regions s))) s.
Proof.
  intros (Hc & L & HL) Hback. destruct (all_regions s L Hc HL) as [Hnd Hall]. pose proof HL as (HndL & Hfirst & Hlink & _).
  assert (wp kvs_allocator_pool_stats s (λ r s', s' = s ∧ r = Some (true_stats (regions s)))) as Hwp; [|apply wp_Ok in Hwp as (r & s' & -> & -> & ->); done].
  unfold kvs_allocator_pool_stats. eapply wp_eq; [reflexivity|]. cbv beta. eapply wp_eq; [reflexivity|]. cbv beta. rewrite (core_init _ Hc), Hback.
  rewrite bool_decide_eq_false_2 by tauto. cbn [negb orb]. eapply wp_eq; [reflexivity|]. cbv beta.
  eapply wp_step; [apply count_pools_spec; [done|intros p Hp; by apply (core_slabs _ Hc)]|]. intros r1 s1 [-> ->].
  eapply wp_eq; [reflexivity|]. cbv beta. eapply wp_eq; [reflexivity|]. cbv beta. rewrite Hfirst. eapply wp_step; [eapply (count_large_spec s L); [done|]|].
  { assert (L ⊆+ (map_to_list (regions s)).*1) as Hsub%submseteq_length.
    { apply NoDup_submseteq; [done|]. intros p Hp. destruct (proj1 (Hall p)) as [r Hr]; [apply elem_of_app; by right|].
      apply list_elem_of_fmap. exists (p, r). split; [done|]. by apply elem_of_map_to_list. }
    by rewrite length_fmap, length_map_to_list in Hsub. }
  intros r s1 [-> ->]. apply wp_ret. split; [done|]. f_equal. rewrite plus_stats_assoc, <- list_stats_app. unfold true_stats, list_stats, plus_stats. cbn.
  rewrite size_live by apply Hc. rewrite !(sum_over_list _ _ _ Hnd Hall). done.
Qed.

(** ** The life of the allocator *)

Definition no_pools : list kvs_size_class_t := (λ b, KvsSizeClass b []) <$> class_sizes.
(** Not initialised and holding nothing. *)
Definition idle s : Prop := allocator_initialized s = false ∧ large_regions s = None ∧ regions s = ∅ ∧ pools s = no_pools.

Definition backend_of (b : Z) : kvs_allocator_backend_t := if b =? 1 then KVS_ALLOCATOR_POOL else KVS_ALLOCATOR_SYSTEM.

Lemma no_chains : mjoin (pool_slabs <$> no_pools) = [].
Proof. reflexivity. Qed.

Lemma inv_empty b v : inv (Allocator true b no_pools None ∅ v).
Proof.
  split; [split; cbn [regions pools allocator_initialized system]|].
  - done.
  - apply map_Forall_empty.
  - done.
  - done.
  - done.
  - rewrite no_chains. apply NoDup_nil_2.
  - intros p. rewrite no_chains. split; [by intros ?%elem_of_nil|by intros []].
  - done.
  - exists []. split; [apply NoDup_nil_2|]. split; [done|]. split; [done|]. intros p. split; [by intros ?%elem_of_nil|by intros []].
Qed.

Lemma allocator_init_spec s b : idle s → b = 0 ∨ b = 1 →
  kvs_allocator_init b s = Ok 0 (Allocator true (backend_of b) no_pools None ∅ (system s)).
Proof.
  destruct s as [i bk ps l rs v]. intros (Ei & El & Er & Ep) Hb. cbn in Ei, El, Er, Ep. subst. by destruct Hb as [-> | ->].
Qed.

Lemma slabs_unused_spec s slabs : core s → (∀ p, p ∈ slabs → ∃ x, regions s !! p = Some (RegionSlab x)) →
  wp (slabs_unused slabs) s (λ r s', s' = s ∧ (r = true ↔ ∀ p x, p ∈ slabs → regions s !! p = Some (RegionSlab x) → slab_used_count x = 0)).
Proof.
  intros Hc. induction slabs as [|p slabs IH]; intros Hs; cbn [slabs_unused]; [apply wp_ret; split; [done|]; split; [by intros _ ? ? ?%elem_of_nil|done]|].
  destruct (Hs p ltac:(by left)) as (x & Hx). eapply step_slab; [exact Hx|]. destruct (Z.eqb_spec (slab_used_count x) 0) as [E|E]; cbn [negb].
  - eapply wp_mono; [apply IH; intros q Hq; apply Hs; by right|]. intros r s' [-> Hr]. split; [done|]. rewrite Hr. split.
    + intros Hall q y [->|Hq]%elem_of_cons Hy; [congruence|by eapply Hall].
    + intros Hall q y Hq. apply Hall. by right.
  - apply wp_ret. split; [done|]. split; [done|]. intros Hall. destruct E. apply (Hall p x); [by left|done].
Qed.

Lemma pools_unused_spec s ps : core s → (∀ p, p ∈ mjoin (pool_slabs <$> ps) → ∃ x, regions s !! p = Some (RegionSlab x)) →
  wp (pools_unused ps) s (λ r s', s' = s ∧
    (r = true ↔ ∀ p x, p ∈ mjoin (pool_slabs <$> ps) → regions s !! p = Some (RegionSlab x) → slab_used_count x = 0)).
Proof.
  intros Hc. induction ps as [|p ps IH]; intros Hs; cbn [pools_unused]; [apply wp_ret; split; [done|]; split; [by intros _ ? ? ?%elem_of_nil|done]|].
  rewrite fmap_cons in *. cbn [mjoin list_join] in *.
  eapply wp_step; [apply slabs_unused_spec; [done|intros q Hq; apply Hs, elem_of_app; by left]|]. intros r s' [-> Hr]. destruct r.
  - eapply wp_mono; [apply IH; intros q Hq; apply Hs, elem_of_app; by right|]. intros r s' [-> Hr']. split; [done|]. rewrite Hr'. split.
    + intros Hall q y [Hq|Hq]%elem_of_app Hy; [by eapply Hr|by eapply Hall].
    + intros Hall q y Hq. apply Hall, elem_of_app. by right.
  - apply wp_ret. split; [done|]. split; [done|]. intros Hall. apply Hr. intros q y Hq. apply Hall, elem_of_app. by left.
Qed.

(** Unmapping the slabs of a pool, and of all pools. *)
Definition removed h h' (l : list addr) : Prop := ∀ q, h' !! q = if bool_decide (q ∈ l) then None else h !! q.

Lemma removed_nil h : removed h h [].
Proof. intros q. by rewrite bool_decide_eq_false_2 by apply not_elem_of_nil. Qed.
Lemma removed_trans h1 h2 h3 l1 l2 : removed h1 h2 l1 → removed h2 h3 l2 → removed h1 h3 (l1 ++ l2).
Proof.
  intros H1 H2 q. rewrite H2, H1. destruct (decide (q ∈ l2)) as [E2|E2]; [rewrite !bool_decide_eq_true_2 by (done || (apply elem_of_app; by right)); done|].
  rewrite (bool_decide_eq_false_2 (q ∈ l2)) by done. erewrite bool_decide_ext; [reflexivity|]. rewrite elem_of_app. tauto.
Qed.
Lemma removed_one h p : removed h (delete p h) [p].
Proof.
  intros q. destruct (decide (q = p)) as [->|Hne]; [rewrite lookup_delete_eq, bool_decide_eq_true_2 by (by left); done|].
  by rewrite lookup_delete_ne, bool_decide_eq_false_2 by (done || by rewrite list_elem_of_singleton).
Qed.

Definition unmappable (p : addr) : Prop := p mod page_size = 0 ∧ KVS_SLAB_SIZE mod page_size = 0.

Lemma unmap_slabs_spec i b slabs s : rt_ok (system s) → vm_reliable (system s) → (∀ p, p ∈ slabs → unmappable p) →
  pools s !! i = Some (KvsSizeClass b slabs) →
  wp (unmap_slabs i b slabs) s (λ r s', r = true ∧ ∃ v h, calm (system s) v ∧ removed (regions s) h slabs ∧
    s' = put_pools (<[i := KvsSizeClass b []]> (pools s)) (put_regions h (put_system v s))).
Proof.
  revert s. induction slabs as [|p slabs IH]; intros s Hsys Hrel Hun Hi; cbn [unmap_slabs].
  - apply wp_ret. split; [done|]. exists (system s), (regions s). split; [done|]. split; [apply removed_nil|]. rewrite list_insert_id by done. by destruct s.
  - destruct (Hun p ltac:(by left)) as [Hp Hpage]. eapply munmap_step; [done|done|done|done|]. intros r v Hcalm -> _; [|done]. cbn [Z.eqb negb].
    eapply wp_eq; [reflexivity|]. cbv beta. eapply wp_mono; [apply IH; cbn|].
    + apply Hcalm.
    + by apply Hcalm.
    + intros q Hq. apply Hun. by right.
    + apply list_lookup_insert_eq. by eapply lookup_lt_Some.
    + cbn. intros r' s' (-> & v' & h & Hcalm' & Hrem & ->). split; [done|]. exists v', h. split; [by eapply calm_trans|].
      split; [by eapply (removed_trans _ _ _ [p]); [apply removed_one|]|]. cbn. by rewrite list_insert_insert_eq.
Qed.

Definition emptied (p : kvs_size_class_t) : kvs_size_class_t := KvsSizeClass (pool_block_size p) [].

Lemma unmap_pools_spec before ps s : rt_ok (system s) → vm_reliable (system s) → (∀ p, p ∈ mjoin (pool_slabs <$> ps) → unmappable p) →
  pools s = before ++ ps →
  wp (unmap_pools (List.length before) ps) s (λ r s', r = true ∧ ∃ v h, calm (system s) v ∧ removed (regions s) h (mjoin (pool_slabs <$> ps)) ∧
    s' = put_pools (before ++ (emptied <$> ps)) (put_regions h (put_system v s))).
Proof.
  revert before s. induction ps as [|p ps IH]; intros before s Hsys Hrel Hun Hps; cbn [unmap_pools].
  - apply wp_ret. split; [done|]. exists (system s), (regions s). split; [done|]. split; [apply removed_nil|]. cbn. rewrite <- Hps. by destruct s.
  - rewrite fmap_cons in *. cbn [mjoin list_join] in *. eapply wp_step; [apply unmap_slabs_spec; [done|done|intros q Hq; apply Hun, elem_of_app; by left|]|].
    { rewrite Hps, list_lookup_middle by done. by destruct p. }
    intros r s1 (-> & v & h & Hcalm & Hrem & ->). replace (S (List.length before)) with (List.length (before ++ [emptied p])) by (rewrite length_app; cbn; lia).
    eapply wp_mono; [apply IH; cbn|].
    + apply Hcalm.
    + by apply Hcalm.
    + intros q Hq. apply Hun, elem_of_app. by right.
    + rewrite Hps. replace (List.length before) with (List.length before + 0)%nat by lia. rewrite insert_app_r, <- app_assoc. done.
    + cbn. intros r' s' (-> & v' & h' & Hcalm' & Hrem' & ->). split; [done|]. exists v', h'. split; [by eapply calm_trans|].
      split; [by eapply removed_trans|]. cbn. by rewrite <- app_assoc.
Qed.

Lemma used_live s p x : core s → regions s !! p = Some (RegionSlab x) → slab_used_count x = 0 ↔ region_blocks p (RegionSlab x) = [].
Proof.
  intros Hc Hp. destruct (core_slab _ _ _ Hc Hp) as (_ & Hl & fl & Hok). rewrite <- (slab_used_blocks _ _ _ _ Hl Hok). unfold zlen. rewrite <- length_zero_iff_nil. lia.
Qed.

(** Destruction refuses while a block is in use, and releases everything otherwise. *)
Lemma allocator_destroy_refuses s : inv s → live_blocks (regions s) ≠ ∅ → kvs_allocator_destroy s = Ok (-1) s.
Proof.
  intros (Hc & L & Hnd & Hfirst & Hlink & HL) Hlive.
  assert (wp kvs_allocator_destroy s (λ r s', s' = s ∧ r = -1)) as Hwp; [|apply wp_Ok in Hwp as (r & s' & -> & -> & ->); done].
  unfold kvs_allocator_destroy. eapply wp_eq; [reflexivity|]. cbv beta. rewrite (core_init _ Hc). cbn [negb]. eapply wp_eq; [reflexivity|]. cbv beta. rewrite Hfirst.
  destruct L as [|p L]; [|rewrite bool_decide_eq_true_2 by done; by apply wp_ret]. rewrite bool_decide_eq_false_2 by (intros E; by apply E). unfold pool_destroy.
  apply wp_bind_assoc. eapply wp_eq; [reflexivity|]. cbv beta. apply wp_bind_assoc. eapply wp_step; [apply pools_unused_spec; [done|intros p Hp; by apply (core_slabs _ Hc)]|].
  intros r s1 [-> Hr]. destruct r; [|cbn [negb]; apply wp_bind, wp_ret; by apply wp_ret]. exfalso. apply Hlive. pose proof (proj1 Hr eq_refl) as Hall. apply set_eq. intros p.
  split; [|done]. intros (start & r & Hr' & Hp)%elem_of_live. destruct r as [x|l].
  - assert (start ∈ mjoin (pool_slabs <$> pools s)) as Hin by (apply (core_slabs _ Hc); by eexists). specialize (Hall _ _ Hin Hr'). apply (used_live s start x Hc Hr') in Hall. rewrite Hall in Hp. by apply not_elem_of_nil in Hp.
  - assert (start ∈ []) as Hn by (apply HL; by eexists). by apply not_elem_of_nil in Hn.
Qed.

Lemma allocator_destroy_spec s : inv s → rt_ok (system s) → vm_reliable (system s) → live_blocks (regions s) = ∅ →
  wp kvs_allocator_destroy s (λ r s', r = 0 ∧ idle s' ∧ calm (system s) (system s')).
Proof.
  intros (Hc & L & Hnd & Hfirst & Hlink & HL) Hsys Hrel Hlive.
  assert (∀ start r, regions s !! start = Some r → region_blocks start r = []) as Hnone.
  { intros start r Hr. destruct (region_blocks start r) as [|q l] eqn:E; [done|]. assert (q ∈ live_blocks (regions s)) as Hq by (apply elem_of_live; exists start, r; rewrite E; split; [done|by left]).
    by rewrite Hlive in Hq. }
  assert (L = []) as -> by (destruct L as [|p L]; [done|]; destruct (proj1 (HL p) ltac:(by left)) as [l Hl]; by specialize (Hnone _ _ Hl)).
  unfold kvs_allocator_destroy. eapply wp_eq; [reflexivity|]. cbv beta. rewrite (core_init _ Hc). cbn [negb]. eapply wp_eq; [reflexivity|]. cbv beta. rewrite Hfirst.
  rewrite bool_decide_eq_false_2 by (intros E; by apply E). unfold pool_destroy.
  apply wp_bind_assoc. eapply wp_eq; [reflexivity|]. cbv beta. apply wp_bind_assoc. eapply wp_step; [apply pools_unused_spec; [done|intros p Hp; by apply (core_slabs _ Hc)]|].
  intros r s1 [-> Hr]. assert (r = true) as -> by (apply Hr; intros p x _ Hx; by apply (used_live s p x), Hnone). cbn [negb]. apply wp_bind_assoc.
  eapply wp_step; [apply (unmap_pools_spec []); [done|done| |done]|].
  { intros p [x Hx]%(core_slabs _ Hc). destruct (core_regions _ Hc _ _ Hx) as (_ & _ & ? & ? & _). by split. }
  intros r s1 (-> & v & h & Hcalm & Hrem & ->). apply wp_bind, wp_ret. cbn [Z.eqb negb]. eapply wp_eq; [reflexivity|]. apply wp_ret. split; [done|]. split; [|done].
  split; [done|]. split; [done|]. split.
  - cbn. apply map_empty. intros q. rewrite Hrem. case_bool_decide as Hq; [done|]. destruct (regions s !! q) as [[x|l]|] eqn:E; [|..]; [|destruct (not_elem_of_nil q); apply HL; by eexists|done].
    destruct Hq. apply (core_slabs _ Hc). by eexists.
  - cbn [pools put_initialized put_pools app]. unfold no_pools. rewrite <- (core_classes _ Hc), <- list_fmap_compose. done.
Qed.
End steps.
