(* ===== verification/PoolRuntime.v ===== *)
(** The allocator in the place of the system's [malloc]: it meets the contract of a C
    runtime the engines are verified against, with either back end.  A concrete
    operating system, and the properties of the allocator. *)

From Stdlib Require Import ZArith Lia.
From S2P Require Import Prelude Runtime Engine RbTree RbDelete RbEngine Allocator PoolSteps.

(** * The allocator as a C runtime *)

Section runtime.
Context `{VirtualMemoryLaws V, !CRuntimeLaws V} (b : kvs_allocator_backend_t).
Implicit Types (s : allocator V) (v : V).

Definition is_pool : bool := bool_decide (b = KVS_ALLOCATOR_POOL).

(** The allocator, initialised with back end [b], in the place of the system's
    [malloc]: what the engines call [kvs_malloc] and [kvs_free]. *)
Definition allocator_runtime : CRuntime (allocator V) := {|
  kvs_malloc := kvs_allocator_alloc;
  kvs_free := kvs_allocator_free;
  c_rand := on_system c_rand;
  live s := if is_pool then live_blocks (regions s) else live (system s);
  rt_ok s := inv s ∧ allocator_backend s = b ∧ rt_ok (system s) ∧ vm_reliable (system s) ∧ (is_pool = false → regions s = ∅);
  roomy s := is_pool = false ∧ roomy (system s);
|}.
#[local] Existing Instance allocator_runtime.

Lemma wp_and {W X} (m : M W X) w (P Q : X → W → Prop) : wp m w P → wp m w Q → wp m w (λ x w', P x w' ∧ Q x w').
Proof. unfold wp. by destruct (m w). Qed.

Lemma kept_ok s s' : is_pool = true → rt_ok s → pool_kept s s' → rt_ok s'.
Proof.
  intros Hp (Hinv & Hb & Hsys & Hrel & _) (Hinv' & (Hsys' & _ & Hrel') & Hb'). cbn. rewrite Hp. split; [done|]. split; [congruence|]. split; [done|].
  split; [auto|done].
Qed.

Lemma system_ok s v : rt_ok s → rt_ok v → (vm_reliable (system s) → vm_reliable v) → (∀ a, mapped v a ↔ mapped (system s) a) → rt_ok (put_system v s).
Proof.
  intros (Hinv & Hb & Hsys & Hrel & Hempty) Hv Hr Hm. split; [apply inv_system; [done|]; intros a Ha; by apply Hm|]. split; [done|]. split; [done|]. split; [by apply Hr|done].
Qed.

Lemma backend_cases : (is_pool = true ∧ b = KVS_ALLOCATOR_POOL) ∨ (is_pool = false ∧ b = KVS_ALLOCATOR_SYSTEM).
Proof. unfold is_pool. destruct b; [right|left]; done. Qed.

#[export] Instance allocator_runtime_laws : CRuntimeLaws (allocator V).
Proof.
  split.
  - intros n s Hok Hn. pose proof Hok as (Hinv & Hb & Hsys & Hrel & _). destruct backend_cases as [[Hp Eb]|[Hp Eb]].
    + eapply wp_mono; [apply pool_alloc_spec; [done|done|congruence|done]|]. intros r s' [Hk Ha]. split; [by eapply kept_ok|]. cbn. rewrite Hp.
      split; [|by intros [? _]]. destruct r as [p|]; [|done]. by destruct Ha as (? & ? & _).
    + cbn [kvs_malloc allocator_runtime]. unfold kvs_allocator_alloc. eapply wp_eq; [reflexivity|]. cbv beta. rewrite (core_init _ (proj1 Hinv)), (proj2 (Z.eqb_neq n 0)) by lia.
      eapply wp_eq; [reflexivity|]. cbv beta. cbn [negb orb]. rewrite Hb, Eb, bool_decide_eq_false_2 by done. apply wp_system.
      eapply wp_mono; [apply wp_and; [by apply malloc_law|by apply vm_malloc_law]|]. intros r v ((Hv & Hr & Hroom) & Hvr & Hm).
      split; [by apply system_ok|]. cbn. rewrite Hp. split; [done|]. intros [_ Hro]. by destruct (Hroom Hro).
  - done.
  - intros p s Hok Hlive. pose proof Hok as (Hinv & Hb & Hsys & Hrel & _). cbn [live allocator_runtime] in Hlive. destruct backend_cases as [[Hp Eb]|[Hp Eb]]; rewrite Hp in Hlive.
    + eapply wp_mono; [apply pool_free_spec; [done|done|congruence|done|done]|]. intros r s' [Hk Ha]. split; [by eapply kept_ok|]. cbn. rewrite Hp.
      split; [done|by intros [? _]].
    + cbn [kvs_free allocator_runtime]. unfold kvs_allocator_free. eapply wp_eq; [reflexivity|]. cbv beta. rewrite (core_init _ (proj1 Hinv)). cbn [negb].
      eapply wp_eq; [reflexivity|]. cbv beta. rewrite Hb, Eb, bool_decide_eq_false_2 by done. apply wp_system.
      eapply wp_mono; [apply wp_and; [by apply free_law|by apply vm_free_law]|]. intros r v ((Hv & Hr & Hroom) & Hvr & Hm).
      split; [by apply system_ok|]. cbn. rewrite Hp. split; [done|]. intros [_ Hro]. auto.
  - intros s Hok. pose proof Hok as (Hinv & Hb & Hsys & Hrel & _). apply wp_system.
    eapply wp_mono; [apply wp_and; [by apply rand_law|by apply vm_rand_law]|]. intros r v ((Hv & Hlive & Hrange & Hroom) & Hvr & Hm).
    split; [by apply system_ok|]. cbn. split; [by destruct is_pool|]. split; [done|]. intros [? Hro]. auto.
Qed.

(** The life of a process that uses one engine: the allocator is initialised, the
    engine created, used and destroyed, and the allocator destroyed, as [main] does. *)
Definition allocator_life {E} `{!Engine (allocator V) E} (os : list engine_op) : M (allocator V) (Z * option (list op_result) * Z) :=
  i ← kvs_allocator_init (if is_pool then 1 else 0);
  rs ← engine_session os;
  d ← kvs_allocator_destroy;
  mret (i, rs, d).

(** C26: A process that initialises the allocator with either back end, runs an engine
    on it from creation to destruction and destroys the allocator gets the answers of
    the abstract map, or of one whose allocations may fail; the destruction of the
    allocator succeeds, since no block is left, and with the system's back end
    everything taken from [malloc] is given back. *)
Theorem engine_on_allocator {E} `{!Engine (allocator V) E, !EngineLaws (allocator V) E} (os : list engine_op) (v : V)
    (Hv : rt_ok v) (Hrel : vm_reliable v) (Hkeys : Forall (λ o, eng_key (op_key o)) os) :
  wp (allocator_life os) (allocator_zero v) (λ '(i, rs, d) s, i = 0 ∧ d = 0 ∧ idle s ∧
    (∀ l, rs = Some l → ∃ m, map_run_or_oom ∅ os l m) ∧
    (b = KVS_ALLOCATOR_SYSTEM → live (system s) = live v ∧ (roomy v → rs = Some (map_run ∅ os).1))).
Proof.
  unfold allocator_life. eapply wp_eq; [apply (allocator_init_spec (allocator_zero v)); [done|destruct is_pool; [by right|by left]]|]. cbv beta.
  set (s0 := Allocator _ _ _ _ _ _).
  assert (owns [] (live s0) s0) as Hw.
  { split; [|split; [apply NoDup_nil_2|split; [by rewrite list_to_set_nil, (left_id_L ∅ (∪))|by intros ? ?%elem_of_nil]]].
    split; [apply inv_empty|]. split; [|done]. unfold s0. cbn [allocator_backend]. by destruct backend_cases as [[-> ->]|[-> ->]]. }
  eapply wp_step; [by apply engine_session_refines|]. intros rs s1 (((Hinv & Hb & Hsys & Hr & Hempty) & _ & Hlive & _) & Hrun & Hroom).
  rewrite list_to_set_nil, (left_id_L ∅ (∪)) in Hlive.
  assert (live_blocks (regions s1) = ∅) as Hnone.
  { cbn in Hlive. destruct backend_cases as [[Hp Eb]|[Hp Eb]]; [by rewrite Hp in Hlive|by rewrite Hempty]. }
  eapply wp_step; [by apply allocator_destroy_spec|]. intros d s2 (-> & Hidle & Hcalm). apply wp_ret. split; [done|]. split; [done|]. split; [done|]. split; [done|].
  intros Eb. cbn in Hlive, Hroom. unfold is_pool in *. rewrite bool_decide_eq_false_2 in Hlive, Hroom by congruence. split; [|intros Hro; by apply Hroom].
  destruct Hcalm as (_ & -> & _). exact Hlive.
Qed.
End runtime.

(** * A concrete system *)

(** The heap of [Runtime] with pages that are mapped at growing addresses. *)
Record vm_heap := VmHeap { vm_rt : heap_rt; vm_next : Z; vm_pages : gset Z }.

Definition vm_page_size : Z := 4096.
Definition pages_of (p n : Z) : gset Z := list_to_set (seqZ (p / vm_page_size) (n / vm_page_size)).
Definition vm_mmap (n : Z) : M vm_heap (option addr) := λ v,
  if SIZE_MAX <? vm_next v + n then Ok None v
  else Ok (Some (vm_next v)) (VmHeap (vm_rt v) (vm_next v + n) (pages_of (vm_next v) n ∪ vm_pages v)).
Definition vm_munmap (p n : Z) : M vm_heap Z := λ v, Ok 0 (VmHeap (vm_rt v) (vm_next v) (vm_pages v ∖ pages_of p n)).
Definition put_vm_rt (h : heap_rt) (v : vm_heap) : vm_heap := VmHeap h (vm_next v) (vm_pages v).
Definition vm_ok (v : vm_heap) : Prop :=
  rt_ok (vm_rt v) ∧ 0 < vm_next v ∧ vm_next v mod vm_page_size = 0 ∧ ∀ q, q ∈ vm_pages v → q < vm_next v / vm_page_size.

#[export] Instance vm_heap_runtime : CRuntime vm_heap := {|
  kvs_malloc n := zoom vm_rt put_vm_rt (kvs_malloc n);
  kvs_free p := zoom vm_rt put_vm_rt (kvs_free p);
  c_rand := zoom vm_rt put_vm_rt c_rand;
  live v := live (vm_rt v);
  rt_ok := vm_ok;
  roomy v := roomy (vm_rt v);
|}.
#[export] Instance vm_heap_memory : VirtualMemory vm_heap := {|
  page_size := vm_page_size;
  mmap := vm_mmap;
  munmap := vm_munmap;
  mapped v a := a / vm_page_size ∈ vm_pages v;
  vm_reliable _ := True;
|}.

Lemma elem_of_pages p n a : p mod vm_page_size = 0 → n mod vm_page_size = 0 → a / vm_page_size ∈ pages_of p n ↔ p ≤ a < p + n.
Proof.
  unfold pages_of, vm_page_size. intros Hp Hn. rewrite elem_of_list_to_set, elem_of_seqZ. pose proof (Z.div_mod p 4096 ltac:(lia)). pose proof (Z.div_mod n 4096 ltac:(lia)).
  pose proof (Z.div_mod a 4096 ltac:(lia)). pose proof (Z.mod_pos_bound a 4096 ltac:(lia)). lia.
Qed.

#[export] Instance vm_heap_runtime_laws : CRuntimeLaws vm_heap.
Proof.
  split.
  - intros n v (Hok & Hv) Hn. apply wp_zoom. eapply wp_mono; [by apply (malloc_law (W := heap_rt))|]. intros r h (Hh & Hr & Hroom). by split.
  - by intros [].
  - intros p v (Hok & Hv) Hp. apply wp_zoom. eapply wp_mono; [by apply (free_law (W := heap_rt))|]. intros r h (Hh & Hr & Hroom). by split.
  - intros v (Hok & Hv). apply wp_zoom. eapply wp_mono; [by apply (rand_law (W := heap_rt))|]. intros r h (Hh & Hr & Hroom). by split.
Qed.

#[export] Instance vm_heap_memory_laws : VirtualMemoryLaws vm_heap.
Proof.
  split.
  - intros n v (Hok & Hpos & Hal & Hlt) Hn Hm. cbn in Hm. unfold wp. cbn [mmap vm_heap_memory]. unfold vm_mmap. destruct (Z.ltb_spec SIZE_MAX (vm_next v + n)); [done|].
    assert (vm_next v / vm_page_size * vm_page_size = vm_next v) as Hdiv by (pose proof (Z.div_mod (vm_next v) vm_page_size ltac:(done)); lia).
    split; [split; [done|split; [cbn; lia|split]]|split; [done|split; [done|split; [done|split; [done|split; [done|split]]]]]]; cbn.
    + by rewrite Z.add_mod, Hal, Hm by done.
    + intros q Hq. assert (q = q * vm_page_size / vm_page_size) as Eq by (by rewrite Z.div_mul by done). rewrite elem_of_union in Hq. destruct Hq as [Hq|Hq].
      * rewrite Eq, elem_of_pages in Hq by done. unfold vm_page_size in *. pose proof (Z.div_mod (vm_next v + n) 4096 ltac:(lia)).
        assert ((vm_next v + n) mod 4096 = 0) by (by rewrite Z.add_mod, Hal, Hm by done). lia.
      * apply Hlt in Hq. unfold vm_page_size in *. pose proof (Z.div_le_mono (vm_next v) (vm_next v + n) 4096). lia.
    + intros a Ha Hin%Hlt. unfold vm_page_size in *. pose proof (Z.div_le_mono (vm_next v) a 4096). lia.
    + intros a. rewrite elem_of_union, elem_of_pages by done. tauto.
  - intros p n v (Hok & Hpos & Hal & Hlt) Hn Hp Hm. unfold wp. cbn. split; [split; [done|split; [done|split; [done|]]]|split; [done|split; [done|left; split; [done|]]]].
    + intros q [Hq _]%elem_of_difference. by apply Hlt.
    + intros a. by rewrite elem_of_difference, elem_of_pages by done.
  - intros n v _. unfold wp. cbn. unfold zoom, heap_malloc. by destruct (h_budget (vm_rt v)) as [[|k]|].
  - intros p v _ Hp. unfold wp. cbn in *. unfold zoom, heap_free. by rewrite bool_decide_eq_true_2 by done.
  - intros v _. done.
Qed.

(** A heap with nothing allocated; the first mapping is not aligned to 64 KiB. *)
Definition vm_start : vm_heap := VmHeap empty_heap 12288 ∅.
Lemma vm_start_ok : vm_ok vm_start.
Proof. split; [by intros p Hp|]. by split. Qed.

(** * Properties *)


(** A pool just initialised. *)
Definition pool_start : allocator vm_heap := Allocator true KVS_ALLOCATOR_POOL no_pools None ∅ vm_start.
Definition outcome_state {W X} (o : outcome W X) (w : W) : W := match o with Ok _ w' => w' | Halt w' => w' | UB => w end.
(** A small and a large block in use. *)
Definition pool_used : allocator vm_heap :=
  outcome_state ((p ← kvs_allocator_alloc 40; kvs_allocator_alloc 5000) pool_start) pool_start.

Lemma pool_used_inv : inv pool_used ∧ rt_ok (system pool_used).
Proof.
  assert (wp (p ← kvs_allocator_alloc 40; kvs_allocator_alloc 5000) pool_start (λ _ s', inv s' ∧ rt_ok (system s'))) as Hwp.
  { eapply wp_step; [apply pool_alloc_spec; [apply inv_empty|apply vm_start_ok|done|done]|]. intros r s ((Hi & (Hr & _) & Hb) & _).
    eapply wp_mono; [by apply pool_alloc_spec|]. intros r' s' ((Hi' & (Hr' & _) & _) & _). done. }
  unfold pool_used. unfold wp in Hwp. by destruct (_ ≫= _).
Qed.


(** C28: Releasing a block in use takes exactly that block out of use, and keeps the
    allocator well formed; releasing an address in a slab that is no block in use, a
    block released twice included, ends the process with nothing changed. *)
Theorem pool_free_exact `{VirtualMemoryLaws V} (p : addr) (s : allocator V)
    (Hinv : inv s) (Hback : allocator_backend s = KVS_ALLOCATOR_POOL) (Hsys : rt_ok (system s)) (Hrel : vm_reliable (system s)) :
  (p ∈ live_blocks (regions s) → wp (kvs_allocator_free (Some p)) s (λ _ s', inv s' ∧
     allocator_backend s' = KVS_ALLOCATOR_POOL ∧ live_blocks (regions s') = live_blocks (regions s) ∖ {[p]})) ∧
  (p ∉ live_blocks (regions s) → (∃ x, regions s !! unit_start p = Some (RegionSlab x)) → kvs_allocator_free (Some p) s = Halt s).
Proof.
  split.
  - intros Hp. eapply wp_mono; [by apply pool_free_spec|]. intros _ s' ((Hi & _ & Hb) & Hl). split; [done|]. split; [congruence|done].
  - intros Hp [x Hx]. unfold kvs_allocator_free, region_at, gets, mbind, M_bind. cbn. rewrite (core_init _ (proj1 Hinv)). cbn. rewrite bool_decide_eq_true_2 by done. rewrite Hx.
    pose proof (pool_free_small_refuses s p x Hinv Hx Hp) as (r & s' & E & -> & ->)%wp_Ok. cbn. by rewrite E.
Qed.

(** The small block of [pool_used], and the address of the next one. *)
Definition small_block : addr := 131008.

Lemma pool_free_witness :
  (inv pool_used ∧ allocator_backend pool_used = KVS_ALLOCATOR_POOL ∧ rt_ok (system pool_used) ∧ vm_reliable (system pool_used)) ∧
  small_block ∈ live_blocks (regions pool_used) ∧ small_block - 48 ∉ live_blocks (regions pool_used) ∧
  wp (kvs_allocator_free (Some small_block)) pool_used (λ _ s', inv s' ∧
     allocator_backend s' = KVS_ALLOCATOR_POOL ∧ live_blocks (regions s') = live_blocks (regions pool_used) ∖ {[small_block]}) ∧
  kvs_allocator_free (Some (small_block - 48)) pool_used = Halt pool_used.
Proof.
  assert (allocator_backend pool_used = KVS_ALLOCATOR_POOL) as Hb by (vm_compute; reflexivity). assert (vm_reliable (system pool_used)) as Hr by exact I.
  assert (small_block ∈ live_blocks (regions pool_used)) as H1 by (apply (bool_decide_unpack _); vm_compute; exact I).
  assert (small_block - 48 ∉ live_blocks (regions pool_used)) as H2 by (apply (bool_decide_unpack _); vm_compute; exact I).
  split; [split; [apply pool_used_inv|split; [done|split; [apply pool_used_inv|done]]]|]. split; [exact H1|]. split; [exact H2|]. split.
  - exact (proj1 (pool_free_exact small_block pool_used (proj1 pool_used_inv) Hb (proj2 pool_used_inv) Hr) H1).
  - apply (proj2 (pool_free_exact (small_block - 48) pool_used (proj1 pool_used_inv) Hb (proj2 pool_used_inv) Hr) H2).
    assert (from_option is_slab 0 (regions pool_used !! unit_start (small_block - 48)) = 1) as E by (vm_compute; reflexivity).
    destruct (regions pool_used !! unit_start (small_block - 48)) as [[x|l]|]; [by exists x|discriminate E|discriminate E].
Defined.

(** The statistics of the pool are the true ones: the number of blocks in use, of
    slabs and of large regions, and the bytes mapped for them; and the allocator can
    be destroyed exactly when they report no block in use, leaving nothing mapped for
    slabs and the state a new process starts from; otherwise it refuses and changes
    nothing. *)
Theorem pool_stats_exact `{VirtualMemoryLaws V} (s : allocator V)
    (Hinv : inv s) (Hback : allocator_backend s = KVS_ALLOCATOR_POOL) (Hsys : rt_ok (system s)) (Hrel : vm_reliable (system s)) :
  kvs_allocator_pool_stats s = Ok (Some (true_stats (regions s))) s ∧
  (live_objects (true_stats (regions s)) ≠ 0 → kvs_allocator_destroy s = Ok (-1) s) ∧
  (live_objects (true_stats (regions s)) = 0 → wp kvs_allocator_destroy s (λ r s', r = 0 ∧ idle s')).
Proof.
  split; [by apply pool_stats_spec|]. cbn. split.
  - intros Hn. apply allocator_destroy_refuses; [done|]. intros E. rewrite E in Hn. by apply Hn.
  - intros Hn. eapply wp_mono; [apply allocator_destroy_spec; try done|]; [|by intros r s' (-> & ? & _)]. apply leibniz_equiv, size_empty_iff. lia.
Qed.

Lemma pool_stats_witness :
  (inv pool_used ∧ allocator_backend pool_used = KVS_ALLOCATOR_POOL ∧ rt_ok (system pool_used) ∧ vm_reliable (system pool_used)) ∧
  kvs_allocator_pool_stats pool_used = Ok (Some (KvsPoolStats 2 1 1 73728)) pool_used ∧ kvs_allocator_destroy pool_used = Ok (-1) pool_used.
Proof.
  assert (allocator_backend pool_used = KVS_ALLOCATOR_POOL) as Hb by (vm_compute; reflexivity). assert (vm_reliable (system pool_used)) as Hr by exact I.
  split; [split; [apply pool_used_inv|split; [done|split; [apply pool_used_inv|done]]]|].
  destruct (pool_stats_exact pool_used (proj1 pool_used_inv) Hb (proj2 pool_used_inv) Hr) as (Hs & Hd & _).
  assert (true_stats (regions pool_used) = KvsPoolStats 2 1 1 73728) as E by (vm_compute; reflexivity). rewrite E in Hs, Hd. split; [exact Hs|apply Hd; discriminate].
Defined.

Definition pool_demo : list engine_op := [OpSet (lit "k") (mjoin (replicate 5000 (lit "A"))); OpSet (lit "j") (lit "1"); OpGet (lit "j"); OpDel (lit "k"); OpExist (lit "k")].
Definition pool_rt : CRuntime (allocator vm_heap) := allocator_runtime KVS_ALLOCATOR_POOL.

Lemma engine_on_allocator_witness :
  (rt_ok vm_start ∧ vm_reliable vm_start ∧ Forall (λ o, eng_key (H := pool_rt) (E := kvs_rbtree_t) (op_key o)) pool_demo) ∧
  wp (allocator_life KVS_ALLOCATOR_POOL (Engine0 := rbtree_engine (H := pool_rt)) pool_demo) (allocator_zero vm_start) (λ '(i, rs, d) s,
    i = 0 ∧ d = 0 ∧ idle s ∧
    (∀ l, rs = Some l → ∃ m, map_run_or_oom (H := pool_rt) (E := kvs_rbtree_t) ∅ pool_demo l m) ∧
    (KVS_ALLOCATOR_POOL = KVS_ALLOCATOR_SYSTEM → live (system s) = live vm_start ∧
      (roomy vm_start → rs = Some (map_run (H := pool_rt) (E := kvs_rbtree_t) ∅ pool_demo).1))).
Proof.
  assert (Forall (λ o, eng_key (H := pool_rt) (E := kvs_rbtree_t) (op_key o)) pool_demo) as Hk by (by apply Forall_forall).
  split; [split; [apply vm_start_ok|split; [exact I|exact Hk]]|].
  exact (engine_on_allocator KVS_ALLOCATOR_POOL (Engine0 := rbtree_engine (H := pool_rt)) (EngineLaws0 := rbtree_engine_laws (H := pool_rt)) pool_demo vm_start vm_start_ok I Hk).
Defined.

Example pool_demo_run :
  (λ o, match o with Ok r _ => Some r | _ => None end)
    (allocator_life KVS_ALLOCATOR_POOL (Engine0 := rbtree_engine (H := pool_rt)) pool_demo (allocator_zero vm_start)) =
  Some (0, Some [RInt 0; RInt 0; RStr (Some (lit "1")); RInt 0; RInt 1], 0).
Proof. vm_compute. reflexivity. Qed.
