(* ===== verification/Kvengine.v ===== *)
(** The four engines of the server, src/kvstore.c: their creation and destruction
    as a whole, and the selection of one of them by a command.

    The server is verified for any four types that meet the [EngineLaws]
    contract; [engine_id] names the engines in the order of the command table. *)

From Stdlib Require Import ZArith Lia.
From S2P Require Import Prelude Runtime RbEngine Engine ArrayEngine HashEngine SkipList.

Inductive engine_id := ARRAY | RBTREE | HASH | SKIPLIST.
#[export] Instance engine_id_eq_dec : EqDecision engine_id.
Proof. solve_decision. Defined.

(** [global_array], [global_rbtree], [global_hash], [global_skiplist] *)
Record kv_engines (Ea Er Eh Es : Type) := KvEngines {
  global_array : Ea;
  global_rbtree : Er;
  global_hash : Eh;
  global_skiplist : Es;
}.
Arguments KvEngines {_ _ _ _}.
Arguments global_array {_ _ _ _}.
Arguments global_rbtree {_ _ _ _}.
Arguments global_hash {_ _ _ _}.
Arguments global_skiplist {_ _ _ _}.

Section engines.
Context `{CRuntime W} {Ea Er Eh Es : Type}
  `{!Engine W Ea} `{!Engine W Er} `{!Engine W Eh} `{!Engine W Es}.
Notation engines := (kv_engines Ea Er Eh Es).

(** ** Selecting an engine *)

Definition engine_type (i : engine_id) : Type :=
  match i with ARRAY => Ea | RBTREE => Er | HASH => Eh | SKIPLIST => Es end.

#[export] Instance engine_of (i : engine_id) : Engine W (engine_type i) :=
  match i with
  | ARRAY => (_ : Engine W Ea)
  | RBTREE => (_ : Engine W Er)
  | HASH => (_ : Engine W Eh)
  | SKIPLIST => (_ : Engine W Es)
  end.

Definition get_engine (i : engine_id) (es : engines) : engine_type i :=
  match i with
  | ARRAY => global_array es
  | RBTREE => global_rbtree es
  | HASH => global_hash es
  | SKIPLIST => global_skiplist es
  end.

Definition set_engine (i : engine_id) : engine_type i → engines → engines :=
  match i with
  | ARRAY => λ x '(KvEngines a r h s), KvEngines x r h s
  | RBTREE => λ x '(KvEngines a r h s), KvEngines a x h s
  | HASH => λ x '(KvEngines a r h s), KvEngines a r x s
  | SKIPLIST => λ x '(KvEngines a r h s), KvEngines a r h x
  end.

(** Run an operation of the engine [i]. *)
Definition on_engine {X} (i : engine_id) (es : engines)
    (f : engine_type i → M W (X * engine_type i)) : M W (X * engines) :=
  '(x, e) ← f (get_engine i es);
  mret (x, set_engine i e es).

(** ** [init_kvengine] and [dest_kvengine] *)

(** [memset] of one engine and, unless an earlier creation failed, its creation:
    whether creation has failed so far, whether this engine was created, and the
    engine. *)
Definition create_unless {E} `{Engine W E} (failed : bool) : M W (bool * bool * E) :=
  if failed then mret (true, false, eng_zero)
  else
    '(r, e) ← eng_create eng_zero;
    if r =? 0 then mret (false, true, e) else mret (true, false, e).

Definition destory_if {E} `{Engine W E} (created : bool) (e : E) : M W E :=
  if created then eng_destroy e else mret e.

Definition init_kvengine : M W (Z * engines) :=
  '(failed, array_created, a) ← create_unless false;
  '(failed, rbtree_created, r) ← create_unless failed;
  '(failed, hash_created, h) ← create_unless failed;
  '(failed, skiplist_created, s) ← create_unless failed;
  if negb failed then mret (0, KvEngines a r h s)
  else
    s ← destory_if skiplist_created s;
    h ← destory_if hash_created h;
    r ← destory_if rbtree_created r;
    a ← destory_if array_created a;
    mret (-1, KvEngines a r h s).

Definition dest_kvengine (es : engines) : M W engines :=
  a ← eng_destroy (global_array es);
  r ← eng_destroy (global_rbtree es);
  h ← eng_destroy (global_hash es);
  s ← eng_destroy (global_skiplist es);
  mret (KvEngines a r h s).

(** ** The data set *)

(** The contents of the four engines. *)
Definition kv_maps : Type := engine_id → gmap bytes bytes.
Definition empty_maps : kv_maps := λ _, ∅.
Definition engine_maps (es : engines) : kv_maps := λ i, eng_map (get_engine i es).
Definition set_map (i : engine_id) (m : gmap bytes bytes) (ms : kv_maps) : kv_maps :=
  λ j, if decide (j = i) then m else ms j.
Definition maps_eq (ms ms' : kv_maps) : Prop := ∀ i, ms i = ms' i.

Definition engines_wf (es : engines) : Prop := ∀ i, eng_wf (get_engine i es).
Definition engines_owned (es : engines) : list addr :=
  eng_owned (global_array es) ++ eng_owned (global_rbtree es) ++
  eng_owned (global_hash es) ++ eng_owned (global_skiplist es).

(** What every operation on the data set keeps, with [own] other blocks held by
    the caller. *)
Definition engines_keep (own : list addr) (F : gset addr) (w : W) (es : engines) (w' : W) : Prop :=
  engines_wf es ∧ owns (own ++ engines_owned es) F w' ∧ (roomy w → roomy w').
End engines.

#[export] Instance maps_eq_equiv : Equivalence maps_eq.
Proof.
  split; [by intros ms i|by intros ms ms' E i|]. intros m1 m2 m3 E1 E2 i. by rewrite E1.
Qed.

#[export] Instance set_map_proper i m : Proper (maps_eq ==> maps_eq) (set_map i m).
Proof. intros ms ms' E j. unfold set_map. by destruct (decide (j = i)). Qed.

Section laws.
Context `{CRuntimeLaws W} {Ea Er Eh Es : Type}
  `{!Engine W Ea} `{!Engine W Er} `{!Engine W Eh} `{!Engine W Es}
  `{!EngineLaws W Ea} `{!EngineLaws W Er} `{!EngineLaws W Eh} `{!EngineLaws W Es}.
Notation engines := (kv_engines Ea Er Eh Es).
Notation engine_type := (@engine_type Ea Er Eh Es).
Implicit Types (es : engines) (F : gset addr) (w : W).

#[export] Instance laws_of (i : engine_id) : EngineLaws W (engine_type i).
Proof. destruct i; assumption. Qed.

Lemma get_set_eq i x es : get_engine i (set_engine i x es) = x.
Proof. destruct i, es; done. Qed.

Lemma get_set_ne i j x es : j ≠ i → get_engine j (set_engine i x es) = get_engine j es.
Proof. destruct i, j, es; done. Qed.

(** The blocks of the engines other than [i]. *)
Definition owned_except (i : engine_id) es : list addr :=
  match i with ARRAY => [] | _ => eng_owned (global_array es) end ++
  match i with RBTREE => [] | _ => eng_owned (global_rbtree es) end ++
  match i with HASH => [] | _ => eng_owned (global_hash es) end ++
  match i with SKIPLIST => [] | _ => eng_owned (global_skiplist es) end.

Lemma engines_owned_split i es :
  engines_owned es ≡ₚ eng_owned (get_engine i es) ++ owned_except i es.
Proof. unfold engines_owned, owned_except. destruct i; simpl; solve_Permutation. Qed.

Lemma engines_owned_set i x es :
  engines_owned (set_engine i x es) ≡ₚ eng_owned x ++ owned_except i es.
Proof. unfold engines_owned, owned_except. destruct i, es; simpl; solve_Permutation. Qed.

Lemma engine_maps_set i x es : maps_eq (engine_maps (set_engine i x es)) (set_map i (eng_map x) (engine_maps es)).
Proof.
  intros j. unfold engine_maps, set_map. destruct (decide (j = i)) as [->|Hne].
  - by rewrite get_set_eq.
  - by rewrite get_set_ne.
Qed.

Lemma set_map_same i (ms : kv_maps) m : m = ms i → maps_eq (set_map i m ms) ms.
Proof. intros -> j. unfold set_map. by destruct (decide (j = i)) as [->|]. Qed.

(** An operation that meets its contract on one engine, with every other block as
    frame, meets it on the data set. *)
Lemma wp_on_engine {X} (i : engine_id) (f : engine_type i → M W (X * engine_type i))
    (P : X → gmap bytes bytes → Prop) own es F w :
  engines_wf es → owns (own ++ engines_owned es) F w →
  (∀ F' , owns (eng_owned (get_engine i es)) F' w →
     wp (f (get_engine i es)) w (λ '(x, e') w', keeps_wf F' w e' w' ∧ P x (eng_map e'))) →
  wp (on_engine i es f) w (λ '(x, es') w', engines_keep own F w es' w' ∧
    ∃ m', P x m' ∧ maps_eq (engine_maps es') (set_map i m' (engine_maps es))).
Proof.
  intros Hwf Hw Hf.
  assert (own ++ engines_owned es ≡ₚ eng_owned (get_engine i es) ++ (owned_except i es ++ own)) as Hp.
  { rewrite (engines_owned_split i). solve_Permutation. }
  rewrite Hp in Hw. apply owns_app in Hw as (Hw & Hnd & Hfr).
  unfold on_engine. eapply wp_step; [by apply Hf|].
  intros [x e'] w' ((Hwf' & Hw' & Hr) & HP). apply wp_ret. split; [split_and!|].
  - intros j. destruct (decide (j = i)) as [->|Hne]; [by rewrite get_set_eq|by rewrite get_set_ne].
  - assert (own ++ engines_owned (set_engine i e' es) ≡ₚ eng_owned e' ++ (owned_except i es ++ own)) as ->.
    { rewrite engines_owned_set. solve_Permutation. }
    by apply owns_app.
  - done.
  - exists (eng_map e'). split; [done|]. apply engine_maps_set.
Qed.
End laws.

(** * Creation and destruction *)

Section one.
Context `{CRuntimeLaws W} {E : Type} `{!Engine W E} `{!EngineLaws W E}.
Implicit Types (e : E) (F : gset addr) (w : W).

(** The blocks of an engine that may not have been created. *)
Definition slot (created : bool) e : list addr := if created then eng_owned e else [].

Lemma create_unless_spec failed own F w :
  owns own F w →
  wp (create_unless (E := E) failed) w (λ '(failed', created, e) w',
    (roomy w → roomy w' ∧ failed' = failed) ∧ created = negb failed' ∧ (failed = true → failed' = true) ∧
    (created = true → eng_wf e ∧ eng_entries e = []) ∧ owns (slot created e ++ own) F w').
Proof.
  intros Hw. unfold create_unless. destruct failed; [apply wp_ret; naive_solver|].
  change own with ([] ++ own) in Hw. apply owns_app in Hw as (Hw & Hnd & Hf).
  eapply wp_step; [by apply eng_create_law|]. intros [r e] w' [[(-> & (Hwf & Hw' & _) & He)|(-> & Hw')] Hr];
    cbn [Z.eqb]; apply wp_ret; cbn [slot negb]; (split_and!; [naive_solver|done|done| |]).
  - done.
  - by apply owns_app.
  - done.
  - by apply owns_app.
Qed.

Lemma destroy_framed e own F w :
  eng_wf e → owns (eng_owned e ++ own) F w →
  wp (eng_destroy e) w (λ e' w', owns own F w' ∧ (roomy w → roomy w')).
Proof.
  intros Hwf (Hw & Hnd & Hf)%owns_app. eapply wp_mono; [by apply eng_destroy_law|].
  intros e' w' [Hw' Hr]. split; [|done]. change own with ([] ++ own). by apply owns_app.
Qed.

Lemma destory_if_spec created e own F w :
  (created = true → eng_wf e) → owns (slot created e ++ own) F w →
  wp (destory_if created e) w (λ e' w', owns own F w' ∧ (roomy w → roomy w')).
Proof. destruct created; simpl; intros Hwf Hw; [apply destroy_framed; auto|by apply wp_ret]. Qed.

Lemma fresh_map e : eng_entries e = [] → eng_map e = ∅.
Proof. intros He. unfold eng_map. by rewrite He. Qed.
End one.

Section lifecycle.
Context `{CRuntimeLaws W} {Ea Er Eh Es : Type}
  `{!Engine W Ea} `{!Engine W Er} `{!Engine W Eh} `{!Engine W Es}
  `{!EngineLaws W Ea} `{!EngineLaws W Er} `{!EngineLaws W Eh} `{!EngineLaws W Es}.
Notation engines := (kv_engines Ea Er Eh Es).
Implicit Types (es : engines) (F : gset addr) (w : W).

Lemma init_spec own F w :
  owns own F w →
  wp (init_kvengine (Ea := Ea) (Er := Er) (Eh := Eh) (Es := Es)) w (λ '(r, es) w',
    (roomy w → roomy w' ∧ r = 0) ∧
    (r = 0 ∧ engines_wf es ∧ owns (own ++ engines_owned es) F w' ∧ maps_eq (engine_maps es) empty_maps ∨
     r = -1 ∧ owns own F w')).
Proof.
  intros Hw. unfold init_kvengine.
  eapply wp_step; [by apply create_unless_spec|]. intros [[f1 c1] a] w1 (Hr1 & Hc1 & _ & Ha & Hw1).
  eapply wp_step; [by apply create_unless_spec|]. intros [[f2 c2] r] w2 (Hr2 & Hc2 & Hf2 & Hr & Hw2).
  eapply wp_step; [by apply create_unless_spec|]. intros [[f3 c3] h] w3 (Hr3 & Hc3 & Hf3 & Hh & Hw3).
  eapply wp_step; [by apply create_unless_spec|]. intros [[f4 c4] s] w4 (Hr4 & Hc4 & Hf4 & Hs & Hw4).
  destruct f4; cbn [negb] in *.
  - eapply wp_step; [apply destory_if_spec; [naive_solver|done]|]. intros s' w5 [Hw5 Hr5].
    eapply wp_step; [apply destory_if_spec; [naive_solver|done]|]. intros h' w6 [Hw6 Hr6].
    eapply wp_step; [apply destory_if_spec; [naive_solver|done]|]. intros r' w7 [Hw7 Hr7].
    eapply wp_step; [apply destory_if_spec; [naive_solver|done]|]. intros a' w8 [Hw8 Hr8].
    apply wp_ret. split; [naive_solver|by right].
  - assert (f3 = false) as -> by (destruct f3; naive_solver).
    assert (f2 = false) as -> by (destruct f2; naive_solver).
    assert (f1 = false) as -> by (destruct f1; naive_solver). cbn [negb] in *. subst c1 c2 c3 c4.
    destruct Ha as [Ha Ha']; [done|]. destruct Hr as [Hr Hr']; [done|].
    destruct Hh as [Hh Hh']; [done|]. destruct Hs as [Hs Hs']; [done|].
    apply wp_ret. split; [naive_solver|left]. split_and!; [done| | |].
    + intros i. by destruct i.
    + revert Hw4. apply owns_perm. unfold engines_owned. cbn. solve_Permutation.
    + intros i. unfold engine_maps, empty_maps. destruct i; by apply fresh_map.
Qed.

Lemma dest_spec es own F w :
  engines_wf es → owns (own ++ engines_owned es) F w →
  wp (dest_kvengine es) w (λ es' w', owns own F w' ∧ (roomy w → roomy w')).
Proof.
  intros Hwf Hw. unfold dest_kvengine.
  assert (own ++ engines_owned es ≡ₚ eng_owned (global_array es) ++ eng_owned (global_rbtree es) ++
    eng_owned (global_hash es) ++ eng_owned (global_skiplist es) ++ own) as Hp
    by (unfold engines_owned; solve_Permutation).
  rewrite Hp in Hw.
  eapply wp_step; [apply destroy_framed; [exact (Hwf ARRAY)|exact Hw]|]. intros a' w1 [Hw1 Hr1].
  eapply wp_step; [apply destroy_framed; [exact (Hwf RBTREE)|exact Hw1]|]. intros r' w2 [Hw2 Hr2].
  eapply wp_step; [apply destroy_framed; [exact (Hwf HASH)|exact Hw2]|]. intros h' w3 [Hw3 Hr3].
  eapply wp_step; [apply destroy_framed; [exact (Hwf SKIPLIST)|exact Hw3]|]. intros s' w4 [Hw4 Hr4].
  apply wp_ret. naive_solver.
Qed.

End lifecycle.

(** * Properties *)

(** Creating the engines either gives four empty well-formed engines, or
    fails with -1 having released everything the engines created before the
    failing one had allocated; it succeeds when memory does. *)
Theorem init_kvengine_all_or_nothing `{CRuntimeLaws W} {Ea Er Eh Es : Type}
    `{!Engine W Ea} `{!Engine W Er} `{!Engine W Eh} `{!Engine W Es}
    `{!EngineLaws W Ea} `{!EngineLaws W Er} `{!EngineLaws W Eh} `{!EngineLaws W Es}
    (own : list addr) (F : gset addr) (w : W) (Hw : owns own F w) :
  wp (init_kvengine (Ea := Ea) (Er := Er) (Eh := Eh) (Es := Es)) w (λ '(r, es) w',
    (roomy w → roomy w' ∧ r = 0) ∧
    (r = 0 ∧ engines_wf es ∧ owns (own ++ engines_owned es) F w' ∧ maps_eq (engine_maps es) empty_maps ∨
     r = -1 ∧ owns own F w')).
Proof. by apply init_spec. Qed.

(** The skip list takes the place of the red-black tree here. *)
Lemma init_kvengine_witness :
  owns [] ∅ empty_heap ∧
  wp (init_kvengine (W := heap_rt) (Ea := kvs_array_t) (Er := RbTree.kvs_rbtree_t) (Eh := kvs_hash_t) (Es := kvs_skiplist_t))
    empty_heap (λ '(r, es) w',
      (roomy empty_heap → roomy w' ∧ r = 0) ∧
      (r = 0 ∧ engines_wf es ∧ owns ([] ++ engines_owned es) ∅ w' ∧ maps_eq (engine_maps es) empty_maps ∨
       r = -1 ∧ owns [] ∅ w')).
Proof.
  refine ((λ Hw, conj Hw (init_kvengine_all_or_nothing [] ∅ empty_heap Hw)) _). exact empty_heap_owns.
Defined.
