(* ===== verification/Buffer.v ===== *)
(** Connection buffers, src/network/buffer.c: growable input and output buffers,
    removal of consumed input, and the line splitter.

    A buffer's block is its list of cells; a cell that was never written holds no
    value ([None]).  Buffers are always passed by the address of a live structure,
    so the tests [buffer == NULL] are constantly false and are left out. *)

From Stdlib Require Import ZArith Lia.
From S2P Require Import Prelude Runtime.

Definition BUFFER_LENGTH : Z := 1024.

(** What a stream handler returns when it has nothing to send yet. *)
Definition KVS_STREAM_WAIT : Z := -2.

Abbreviation cells := (list (option byte)) (only parsing).

(** [kvs_input_buffer_t] *)
Record kvs_input_buffer_t := InputBuffer {
  i_data : option (addr * list (option byte));
  i_length : Z;
  i_capacity : Z;
}.

(** [kvs_output_buffer_t] *)
Record kvs_output_buffer_t := OutputBuffer {
  o_data : option (addr * list (option byte));
  o_length : Z;
  o_offset : Z;
  o_capacity : Z;
}.

(** [memcpy(block + at, bytes, n)] for bytes outside the block. *)
Definition store (at_ : Z) (s : cells) (block : cells) : cells :=
  take (Z.to_nat at_) block ++ s ++ drop (Z.to_nat at_ + List.length s) block.

Section ops.
Context `{CRuntime W}.

(** The doubling loop: at most 31 steps lead from 1 past any [int]. *)
Fixpoint grow_capacity (fuel : nat) (new_capacity required : Z) : option Z :=
  if new_capacity <? required then
    match fuel with
    | O => None
    | S fuel =>
        grow_capacity fuel (if INT_MAX / 2 <? new_capacity then required else new_capacity * 2) required
    end
  else Some new_capacity.

Definition ensure_buffer_space (data : option (addr * cells)) (length capacity minimum_free : Z) :
    M W (Z * (option (addr * cells) * Z)) :=
  if (minimum_free <=? 0) || (length <? 0) || (capacity <? 0) || (capacity <? length)
  then mret (-1, (data, capacity)) else
  if ((capacity =? 0) && bool_decide (data ≠ None)) || ((0 <? capacity) && bool_decide (data = None))
  then mret (-1, (data, capacity)) else
  if minimum_free <=? capacity - length then mret (0, (data, capacity)) else
  if INT_MAX - minimum_free <? length then mret (-1, (data, capacity)) else
  let required := length + minimum_free in
  new_capacity ← deref (grow_capacity 31 (if 0 <? capacity then capacity else BUFFER_LENGTH) required);
  new_data ← kvs_malloc new_capacity;
  match new_data with
  | None => mret (-1, (data, capacity))
  | Some p =>
      let fresh := replicate (Z.to_nat new_capacity) None in
      block ← (if 0 <? length then
                 '(_, old) ← deref data; mret (store 0 (take (Z.to_nat length) old) fresh)
               else mret fresh);
      kvs_free (fst <$> data);;
      mret (0, (Some (p, block), new_capacity))
  end.

Definition kvs_input_buffer_ensure_space (buffer : kvs_input_buffer_t) (minimum_free : Z) :
    M W (Z * kvs_input_buffer_t) :=
  '(r, (data, capacity)) ←
    ensure_buffer_space (i_data buffer) (i_length buffer) (i_capacity buffer) minimum_free;
  mret (r, InputBuffer data (i_length buffer) capacity).

Definition kvs_input_buffer_free (buffer : kvs_input_buffer_t) : M W kvs_input_buffer_t :=
  kvs_free (fst <$> i_data buffer);;
  mret (InputBuffer None 0 0).

Definition kvs_output_buffer_ensure_space (buffer : kvs_output_buffer_t) (minimum_free : Z) :
    M W (Z * kvs_output_buffer_t) :=
  if (o_offset buffer <? 0) || (o_length buffer <? o_offset buffer) then mret (-1, buffer) else
  '(r, (data, capacity)) ←
    ensure_buffer_space (o_data buffer) (o_length buffer) (o_capacity buffer) minimum_free;
  mret (r, OutputBuffer data (o_length buffer) (o_offset buffer) capacity).

Definition kvs_output_buffer_free (buffer : kvs_output_buffer_t) : M W kvs_output_buffer_t :=
  kvs_free (fst <$> o_data buffer);;
  mret (OutputBuffer None 0 0 0).
End ops.

(** [memmove(data, data + consumed, remaining)] and the new length. *)
Definition kvs_input_buffer_consume (buffer : kvs_input_buffer_t) (consumed_length : Z) :
    Z * kvs_input_buffer_t :=
  if (i_length buffer <? consumed_length) || (consumed_length <? 0) then (-1, buffer) else
  let remaining_length := i_length buffer - consumed_length in
  let data :=
    if (0 <? consumed_length) && (0 <? remaining_length) then
      (λ '(p, block), (p, store 0 (take (Z.to_nat remaining_length) (drop (Z.to_nat consumed_length) block)) block))
        <$> i_data buffer
    else i_data buffer in
  (0, InputBuffer data remaining_length (i_capacity buffer)).

(** ** Lines *)

(** [kvs_find_line_end]: the index of the end of the first line and the length of
    its delimiter; [None] when there is no complete line. *)
Fixpoint find_line_end_loop (i : Z) (prev : option byte) (msg : bytes) : option (Z * Z) :=
  match msg with
  | [] => None
  | c :: msg' =>
      if bool_decide (c ≠ LF) then find_line_end_loop (i + 1) (Some c) msg'
      else if (0 <? i) && bool_decide (prev = Some CR) then Some (i - 1, 2)
      else Some (i, 1)
  end.

Definition kvs_find_line_end (msg : bytes) (length : Z) : option (Z * Z) :=
  if length <=? 0 then None else find_line_end_loop 0 None (take (Z.to_nat length) msg).

(** [kvs_frame_handler]: the frame and the room for the reply; the result is the
    reply written and the length returned. *)
Definition kvs_frame_handler (V : Type) : Type := bytes → Z → M V (Z * bytes).

(** The loop of [kvs_line_batch_protocol] from [request_offset]; each step
    consumes at least two bytes, so the length bounds the number of steps. *)
Fixpoint line_batch_loop {V} (fuel : nat) (msg : bytes) (length request_offset response_offset : Z)
    (response : bytes) (response_capacity : Z) (frame_handler : kvs_frame_handler V) :
    M V (option (Z * bytes)) :=
  if request_offset <? length then
    match fuel with
    | O => undefined
    | S fuel =>
        let frame_start := drop (Z.to_nat request_offset) msg in
        match kvs_find_line_end frame_start (length - request_offset) with
        | None => mret (Some (request_offset, response))
        | Some (frame_end, delimiter_length) =>
            if frame_end =? 0 then mret None else
            if response_capacity <=? response_offset then mret None else
            let remaining_response_capacity := response_capacity - response_offset in
            '(response_length, reply) ←
              frame_handler (take (Z.to_nat frame_end) frame_start) remaining_response_capacity;
            if (response_length <? 0) || (remaining_response_capacity <? response_length) then mret None else
            line_batch_loop fuel msg length (request_offset + frame_end + delimiter_length)
              (response_offset + response_length)
              (response ++ take (Z.to_nat response_length) reply) response_capacity frame_handler
        end
    end
  else mret (Some (request_offset, response)).

(** The result is the number of bytes consumed and the replies, or [None] for -1. *)
Definition kvs_line_batch_protocol {V} (msg : bytes) (length response_capacity : Z)
    (frame_handler : kvs_frame_handler V) : M V (option (Z * bytes)) :=
  if (length <=? 0) || (response_capacity <=? 0) then mret None else
  line_batch_loop (Z.to_nat length) msg length 0 0 [] response_capacity frame_handler.

(** * Growth *)

Section growth.
Context `{CRuntimeLaws W}.
Implicit Types (data : option (addr * list (option byte))) (length capacity : Z) (F : gset addr) (w : W).

Lemma grow_capacity_spec fuel c required :
  0 < c ≤ INT_MAX → required ≤ INT_MAX → required ≤ c * 2 ^ Z.of_nat fuel →
  ∃ c', grow_capacity fuel c required = Some c' ∧ required ≤ c' ≤ INT_MAX ∧ c ≤ c'.
Proof.
  revert c. induction fuel as [|fuel IH]; intros c Hc Hr Hp; cbn [grow_capacity];
    destruct (Z.ltb_spec c required).
  - simpl in Hp. lia.
  - exists c. split; [done|lia].
  - rewrite Nat2Z.inj_succ, Z.pow_succ_r in Hp by lia.
    pose proof (Z.pow_pos_nonneg 2 (Z.of_nat fuel) ltac:(lia) ltac:(lia)).
    destruct (Z.ltb_spec (INT_MAX / 2) c).
    + destruct (IH required) as (c' & ? & ? & ?); [lia|lia|nia|]. exists c'. split; [done|lia].
    + change (INT_MAX / 2) with 1073741823 in *. change INT_MAX with 2147483647 in *.
      destruct (IH (c * 2)) as (c' & ? & ? & ?); [lia|lia|nia|]. exists c'. split; [done|lia].
  - exists c. split; [done|lia].
Qed.

(** A block of exactly [capacity] cells, or none and no capacity. *)
Definition buffer_ok data length capacity : Prop :=
  0 ≤ length ≤ capacity ∧ capacity ≤ INT_MAX ∧
  match data with None => capacity = 0 | Some (_, block) => 0 < capacity ∧ zlen block = capacity end.

Definition contents data : cells := match data with None => [] | Some (_, block) => block end.
Definition owned data : list addr := match data with None => [] | Some (p, _) => [p] end.

Lemma take_store_0 (s block : cells) : take (List.length s) (store 0 s block) = s.
Proof. unfold store. simpl. by rewrite take_app_length. Qed.

Lemma zlen_store at_ (s block : cells) :
  0 ≤ at_ → at_ + zlen s ≤ zlen block → zlen (store at_ s block) = zlen block.
Proof.
  intros Ha Hs. unfold store, zlen in *. rewrite !length_app, length_take, length_drop. lia.
Qed.

Lemma free_block data own F w :
  owns (owned data ++ own) F w →
  wp (kvs_free (fst <$> data)) w (λ _ w', owns own F w' ∧ (roomy w → roomy w')).
Proof. destruct data as [[p block]|]; simpl; intros Hw; [by apply wp_free|by apply wp_free_null]. Qed.

Lemma ensure_grows data length capacity minimum_free F w :
  buffer_ok data length capacity → 0 < minimum_free → capacity - length < minimum_free →
  length + minimum_free ≤ INT_MAX → owns (owned data) F w →
  wp (ensure_buffer_space data length capacity minimum_free) w (λ '(r, (data', capacity')) w',
    owns (owned data') F w' ∧ (roomy w → roomy w' ∧ r = 0) ∧
    (r = 0 ∧ buffer_ok data' length capacity' ∧ minimum_free ≤ capacity' - length ∧
       take (Z.to_nat length) (contents data') = take (Z.to_nat length) (contents data) ∨
     r = -1 ∧ data' = data ∧ capacity' = capacity)).
Proof.
  intros (Hl & Hc & Hd) Hm Hfull Hmax Hw. unfold ensure_buffer_space.
  rewrite !(proj2 (Z.leb_gt _ _)), !(proj2 (Z.ltb_ge _ _)) by lia. cbn [orb].
  assert (((capacity =? 0) && bool_decide (data ≠ None)) || ((0 <? capacity) && bool_decide (data = None)) = false) as ->.
  { destruct data as [[p block]|]; [destruct (Z.eqb_spec capacity 0); [lia|]; by rewrite andb_false_r|].
    subst capacity. done. }
  rewrite (proj2 (Z.ltb_ge (INT_MAX - minimum_free) length)) by lia.
  cbv zeta. set (start := if 0 <? capacity then capacity else BUFFER_LENGTH).
  assert (0 < start ≤ INT_MAX) as Hstart.
  { unfold start, BUFFER_LENGTH, INT_MAX in *. destruct (Z.ltb_spec 0 capacity); lia. }
  destruct (grow_capacity_spec 31 start (length + minimum_free)) as (nc & -> & Hnc & _);
    [done|lia|unfold INT_MAX in *; lia|].
  eapply wp_eq; [done|]. eapply wp_step; [apply wp_malloc; [lia|done]|].
  intros [p|] w1 [Hw1 Hr1].
  2:{ apply wp_ret. split_and!; [done|naive_solver|by right]. }
  set (fresh := replicate (Z.to_nat nc) None).
  assert (zlen fresh = nc) as Hfresh by (unfold fresh, zlen; rewrite length_replicate; lia).
  eapply (wp_eq _ _ _ (store 0 (take (Z.to_nat length) (contents data)) fresh)).
  { destruct (Z.ltb_spec 0 length).
    - by destruct data as [[q block]|]; [|lia].
    - replace (Z.to_nat length) with O by lia. done. }
  assert (List.length (take (Z.to_nat length) (contents data)) = Z.to_nat length) as Hlen.
  { rewrite length_take. destruct data as [[q block]|]; unfold contents, zlen in *; [lia|simpl; lia]. }
  eapply wp_step; [apply (free_block data [p] F); revert Hw1; apply owns_perm; solve_Permutation|].
  intros _ w2 [Hw2 Hr2]. apply wp_ret. split_and!; [done|naive_solver|left]. split_and!; [done|..].
  - split_and!; [lia..|]. rewrite zlen_store; [lia|lia|]. unfold zlen at 1. rewrite Hlen. lia.
  - lia.
  - cbn [contents]. rewrite <- Hlen at 1. by rewrite take_store_0.
Qed.

(** The whole contract of the growth routine. *)
Lemma ensure_spec data length capacity minimum_free F w :
  buffer_ok data length capacity → 0 < minimum_free → owns (owned data) F w →
  wp (ensure_buffer_space data length capacity minimum_free) w (λ '(r, (data', capacity')) w',
    owns (owned data') F w' ∧ (roomy w → roomy w' ∧ (length + minimum_free ≤ INT_MAX → r = 0)) ∧
    (r = 0 ∧ buffer_ok data' length capacity' ∧ minimum_free ≤ capacity' - length ∧
       take (Z.to_nat length) (contents data') = take (Z.to_nat length) (contents data) ∨
     r = -1 ∧ data' = data ∧ capacity' = capacity)).
Proof.
  intros Hok Hm Hw. destruct (decide (capacity - length < minimum_free)) as [Hfull|Hfit].
  - destruct (decide (length + minimum_free ≤ INT_MAX)) as [Hmax|Hmax].
    { eapply wp_mono; [by apply ensure_grows|]. intros [r [d c]] w'. naive_solver. }
    unfold ensure_buffer_space. destruct Hok as (Hl & Hc & Hd).
    repeat case_goal; try (apply wp_ret; split_and!; [done|naive_solver|by right]);
      bool_to_prop; lia.
  - unfold ensure_buffer_space. pose proof Hok as (Hl & Hc & Hd).
    rewrite !(proj2 (Z.leb_gt _ _)), !(proj2 (Z.ltb_ge _ _)) by lia. cbn [orb].
    assert (((capacity =? 0) && bool_decide (data ≠ None)) || ((0 <? capacity) && bool_decide (data = None)) = false) as ->.
    { destruct data as [[p block]|]; [destruct (Z.eqb_spec capacity 0); [lia|]; by rewrite andb_false_r|].
      subst capacity. done. }
    rewrite (proj2 (Z.leb_le _ _)) by lia. apply wp_ret. split_and!; [done|done|left]. split_and!; try done; lia.
Qed.
End growth.

(** * Replies *)

(** A buffer with [o_length] bytes of content. *)
Definition reply_buffer (b : kvs_output_buffer_t) : Prop :=
  buffer_ok (o_data b) (o_length b) (o_capacity b) ∧ 0 ≤ o_offset b ≤ o_length b ∧ is_Some (o_data b).

(** [b'] is [b] with [s] stored behind its content; what lies behind [s] is of no
    interest. *)
Definition replied (b : kvs_output_buffer_t) (s : bytes) (b' : kvs_output_buffer_t) : Prop :=
  reply_buffer b' ∧ o_length b' = o_length b ∧ o_offset b' = o_offset b ∧
  o_length b + zlen s ≤ o_capacity b' ∧
  take (Z.to_nat (o_length b + zlen s)) (contents (o_data b')) =
    take (Z.to_nat (o_length b)) (contents (o_data b)) ++ (Some <$> s).

(** [b'] holds the content of [b]. *)
Definition kept (b b' : kvs_output_buffer_t) : Prop :=
  reply_buffer b' ∧ o_length b' = o_length b ∧ o_offset b' = o_offset b ∧
  take (Z.to_nat (o_length b)) (contents (o_data b')) = take (Z.to_nat (o_length b)) (contents (o_data b)).

(** * Lines by a reference definition *)

(** The complete lines of a text: each without its delimiter, and with the number
    of bytes it takes.  The delimiter is a line feed and the carriage return just
    before it. *)
Definition strip_cr (line : bytes) : bytes :=
  match last line with
  | Some c => if bool_decide (c = CR) then removelast line else line
  | None => line
  end.

Fixpoint split_lines (acc msg : bytes) : list (bytes * Z) :=
  match msg with
  | [] => []
  | c :: msg =>
      if bool_decide (c = LF) then (strip_cr acc, zlen acc + 1) :: split_lines [] msg
      else split_lines (acc ++ [c]) msg
  end.

(** Serving lines one after another: empty lines, missing room and replies out of
    range end the batch with an error. *)
Fixpoint serve_lines {V} (lines : list (bytes * Z)) (consumed replied : Z) (response : bytes)
    (response_capacity : Z) (frame_handler : kvs_frame_handler V) : M V (option (Z * bytes)) :=
  match lines with
  | [] => mret (Some (consumed, response))
  | (line, size) :: lines =>
      if bool_decide (line = []) || (response_capacity <=? replied) then mret None else
      '(n, reply) ← frame_handler line (response_capacity - replied);
      if (n <? 0) || (response_capacity - replied <? n) then mret None else
      serve_lines lines (consumed + size) (replied + n)
        (response ++ take (Z.to_nat n) reply) response_capacity frame_handler
  end.

Section lines.
Implicit Types (msg acc : bytes).

Lemma strip_cr_snoc acc c : strip_cr (acc ++ [c]) = if bool_decide (c = CR) then acc else acc ++ [c].
Proof. unfold strip_cr. rewrite last_snoc. by rewrite removelast_last. Qed.

(** What the scan finds is the first line of the reference. *)
Lemma find_line_end_loop_spec acc msg :
  match find_line_end_loop (zlen acc) (last acc) msg with
  | None => split_lines acc msg = []
  | Some (e, d) => ∃ rest, split_lines acc msg = (take (Z.to_nat e) (acc ++ msg), e + d) :: split_lines [] rest ∧
      acc ++ msg = take (Z.to_nat (e + d)) (acc ++ msg) ++ rest ∧ 0 ≤ e ∧ 1 ≤ d ∧ e + d ≤ zlen (acc ++ msg)
  end.
Proof.
  revert acc. induction msg as [|c msg IH]; intros acc; cbn [find_line_end_loop split_lines]; [done|].
  destruct (decide (c = LF)) as [->|Hc].
  - rewrite bool_decide_eq_false_2, (bool_decide_eq_true_2 (LF = LF)) by naive_solver.
    pose proof (zlen_nonneg acc). pose proof (zlen_nonneg msg).
    assert (∀ n, n = Z.to_nat (zlen acc + 1) → acc ++ LF :: msg = take n (acc ++ LF :: msg) ++ msg) as Hrest.
    { intros n ->. rewrite (cons_middle LF acc), app_assoc, take_app_length'; [done|].
      rewrite length_app. unfold zlen. simpl. lia. }
    destruct acc as [|a acc _] using rev_ind.
    { exists msg. split_and!; [done|by apply Hrest|done|lia|]. autorewrite with zlen. lia. }
    rewrite last_snoc, strip_cr_snoc. autorewrite with zlen in *. pose proof (zlen_nonneg acc).
    rewrite (proj2 (Z.ltb_lt 0 _)) by lia. cbn [andb].
    destruct (decide (a = CR)) as [->|Ha].
    + rewrite !bool_decide_eq_true_2 by done. exists msg. split_and!; [|apply Hrest; f_equal; lia|lia|lia|lia].
      f_equal. f_equal; [|lia]. rewrite <- app_assoc, take_app_length'; [done|unfold zlen; lia].
    + rewrite !bool_decide_eq_false_2 by congruence. exists msg.
      split_and!; [|apply Hrest; f_equal; lia|lia|lia|lia].
      f_equal. f_equal. rewrite take_app_length'; [done|]. rewrite length_app. unfold zlen. simpl. lia.
  - rewrite bool_decide_eq_true_2, (bool_decide_eq_false_2 (c = LF)) by done.
    specialize (IH (acc ++ [c])). rewrite last_snoc, <- app_assoc in IH. autorewrite with zlen in IH.
    rewrite Z.add_0_r in IH. autorewrite with zlen. exact IH.
Qed.

Lemma line_batch_loop_spec {V} fuel msg off replied response cap (h : kvs_frame_handler V) (v : V) :
  0 ≤ off ≤ zlen msg → zlen msg - off ≤ Z.of_nat fuel →
  line_batch_loop fuel msg (zlen msg) off replied response cap h v =
  serve_lines (split_lines [] (drop (Z.to_nat off) msg)) off replied response cap h v.
Proof.
  revert off replied response v. induction fuel as [|fuel IH]; intros off replied response v Hoff Hf;
    cbn [line_batch_loop]; destruct (Z.ltb_spec off (zlen msg)); try lia.
  1,3: rewrite drop_ge by (unfold zlen in *; lia); done.
  set (rest := drop (Z.to_nat off) msg).
  assert (zlen rest = zlen msg - off) as Hrl by (unfold rest, zlen in *; rewrite length_drop; lia).
  unfold kvs_find_line_end. rewrite <- Hrl, (proj2 (Z.leb_gt _ _)) by lia.
  rewrite take_ge by (unfold zlen; lia).
  pose proof (find_line_end_loop_spec [] rest) as Hfind. cbn [last app zlen List.length Z.of_nat] in Hfind.
  change (zlen []) with 0 in Hfind. destruct (find_line_end_loop 0 None rest) as [[e d]|].
  2:{ by rewrite Hfind. }
  destruct Hfind as (rest' & -> & Hsplit & He & Hd & Hle). cbn [serve_lines].
  assert (bool_decide (take (Z.to_nat e) rest = []) = (e =? 0)) as ->.
  { destruct (Z.eqb_spec e 0) as [->|Hne]; [done|]. apply bool_decide_eq_false_2. intros Hnil.
    apply (f_equal List.length) in Hnil. rewrite length_take in Hnil. unfold zlen in *. simpl in Hnil. lia. }
  destruct (e =? 0); [done|]. cbn [orb]. destruct (cap <=? replied); [done|].
  unfold mbind, M_bind. destruct (h _ _ v) as [[n reply] v'|v'|]; [|done..].
  destruct ((n <? 0) || (cap - replied <? n)); [done|].
  replace (off + e + d) with (off + (e + d)) by lia.
  rewrite IH; [|lia..]. do 3 f_equal.
  assert (rest' = drop (Z.to_nat (e + d)) rest) as ->.
  { rewrite Hsplit. rewrite drop_app_length'; [done|]. rewrite length_take. unfold zlen in *. lia. }
  unfold rest. rewrite drop_drop. f_equal. lia.
Qed.
End lines.

(** * Properties *)

(** Growing an output buffer keeps it well formed and keeps the bytes it
    holds, and leaves at least the requested room; the capacity never exceeds
    [INT_MAX].  A failure leaves the buffer as it was, and happens only when the
    total would pass [INT_MAX] or the allocation fails.  The old block is released
    exactly when a new one replaces it. *)
Theorem output_ensure_space_spec `{CRuntimeLaws W} (b : kvs_output_buffer_t) (minimum_free : Z)
    (F : gset addr) (w : W)
    (Hok : buffer_ok (o_data b) (o_length b) (o_capacity b)) (Hoff : 0 ≤ o_offset b ≤ o_length b)
    (Hm : 0 < minimum_free) (Hw : owns (owned (o_data b)) F w) :
  wp (kvs_output_buffer_ensure_space b minimum_free) w (λ '(r, b') w',
    owns (owned (o_data b')) F w' ∧ o_length b' = o_length b ∧ o_offset b' = o_offset b ∧
    (roomy w → o_length b + minimum_free ≤ INT_MAX → r = 0) ∧
    (r = 0 ∧ buffer_ok (o_data b') (o_length b') (o_capacity b') ∧
       minimum_free ≤ o_capacity b' - o_length b' ∧
       take (Z.to_nat (o_length b)) (contents (o_data b')) = take (Z.to_nat (o_length b)) (contents (o_data b)) ∨
     r = -1 ∧ b' = b)).
Proof.
  unfold kvs_output_buffer_ensure_space. rewrite !(proj2 (Z.ltb_ge _ _)) by lia. cbn [orb].
  eapply wp_step; [by apply ensure_spec|]. intros [r [d c]] w' (Hw' & Hroom & Hr). apply wp_ret. simpl.
  split_and!; [done..|naive_solver|]. destruct Hr as [?|(-> & -> & ->)]; [left; done|right].
  split; [done|]. by destruct b.
Qed.

Definition small_output : kvs_output_buffer_t :=
  OutputBuffer (Some (1, [Some CR; Some LF; None; None])) 2 0 4.

Lemma output_ensure_space_witness :
  let h := HeapRt 2 {[1]} None 0 in
  owns (owned (o_data small_output)) ∅ h ∧
  wp (kvs_output_buffer_ensure_space small_output 3) h (λ '(r, b') w',
    owns (owned (o_data b')) ∅ w' ∧ o_length b' = 2 ∧ o_offset b' = 0 ∧
    (roomy h → 2 + 3 ≤ INT_MAX → r = 0) ∧
    (r = 0 ∧ buffer_ok (o_data b') (o_length b') (o_capacity b') ∧ 3 ≤ o_capacity b' - o_length b' ∧
       take 2 (contents (o_data b')) = [Some CR; Some LF] ∨ r = -1 ∧ b' = small_output)).
Proof.
  cbv zeta. refine ((λ Hw, conj Hw (output_ensure_space_spec small_output 3 ∅ _ _ _ _ Hw)) _).
  - unfold buffer_ok. simpl. unfold INT_MAX. split_and!; try lia; done.
  - simpl. lia.
  - lia.
  - split_and!; [|apply NoDup_singleton|simpl; set_solver|set_solver].
    intros p Hp. simpl in Hp. set_unfold in Hp. simpl. lia.
Defined.

(** Removing consumed input keeps exactly the bytes after it, in order. *)
Theorem input_consume_spec (b : kvs_input_buffer_t) (n : Z)
    (Hok : buffer_ok (i_data b) (i_length b) (i_capacity b)) :
  if (n <? 0) || (i_length b <? n) then kvs_input_buffer_consume b n = (-1, b)
  else ∃ b', kvs_input_buffer_consume b n = (0, b') ∧ i_length b' = i_length b - n ∧
    i_capacity b' = i_capacity b ∧ owned (i_data b') = owned (i_data b) ∧
    buffer_ok (i_data b') (i_length b') (i_capacity b') ∧
    take (Z.to_nat (i_length b')) (contents (i_data b')) =
      drop (Z.to_nat n) (take (Z.to_nat (i_length b)) (contents (i_data b))).
Proof.
  destruct b as [data length capacity]. destruct Hok as (Hl & Hc & Hd). unfold kvs_input_buffer_consume.
  cbn [i_data i_length i_capacity] in *. rewrite orb_comm. destruct (Z.ltb_spec length n), (Z.ltb_spec n 0); try done.
  eexists. split; [done|]. cbn [orb i_data i_length i_capacity]. split_and!; [done|done| | |].
  - destruct data as [[p block]|]; by repeat case_match.
  - split; [lia|]. split; [done|]. destruct data as [[p block]|]; [|by repeat case_match].
    destruct (Z.ltb_spec 0 n), (Z.ltb_spec 0 (length - n)); simpl; try done.
    split; [lia|]. rewrite zlen_store; [lia|lia|].
    unfold zlen in *. rewrite length_take, length_drop. lia.
  - destruct data as [[p block]|]; cbn [contents].
    2:{ subst capacity. assert (n = 0) as -> by lia. assert (length = 0) as -> by lia. done. }
    rewrite skipn_firstn_comm. replace (Z.to_nat length - Z.to_nat n)%nat with (Z.to_nat (length - n)) by lia.
    destruct (Z.ltb_spec 0 n); cbn [andb]; [|by replace n with 0 by lia].
    destruct (Z.ltb_spec 0 (length - n)); cbn [andb fmap option_fmap option_map contents].
    2:{ by replace (Z.to_nat (length - n)) with O by lia. }
    assert (List.length (take (Z.to_nat (length - n)) (drop (Z.to_nat n) block)) = Z.to_nat (length - n)) as Hlen
      by (unfold zlen in *; rewrite length_take, length_drop; lia).
    rewrite <- Hlen at 1. apply take_store_0.
Qed.

Lemma input_consume_witness :
  let b := InputBuffer (Some (1, [Some CR; Some LF; Some NUL; None])) 3 4 in
  buffer_ok (i_data b) (i_length b) (i_capacity b) ∧
  ∃ b', kvs_input_buffer_consume b 1 = (0, b') ∧ i_length b' = 2 ∧ i_capacity b' = 4 ∧
    owned (i_data b') = [1] ∧ buffer_ok (i_data b') (i_length b') (i_capacity b') ∧
    take (Z.to_nat (i_length b')) (contents (i_data b')) = [Some LF; Some NUL].
Proof.
  cbv zeta. refine ((λ Hok, conj Hok (input_consume_spec _ 1 Hok)) _).
  unfold buffer_ok. simpl. unfold INT_MAX. split_and!; try lia; done.
Defined.

(** The line batcher is the reference splitter followed by serving the lines
    in order: it terminates, hands the handler every complete line without its
    delimiter, consumes exactly the complete lines, appends the replies in order
    and reports an error for an empty line or a reply that does not fit. *)
Theorem line_batch_serves_lines {V} (msg : bytes) (response_capacity : Z)
    (frame_handler : kvs_frame_handler V) (v : V) :
  kvs_line_batch_protocol msg (zlen msg) response_capacity frame_handler v =
  if (zlen msg <=? 0) || (response_capacity <=? 0) then Ok None v
  else serve_lines (split_lines [] msg) 0 0 [] response_capacity frame_handler v.
Proof.
  unfold kvs_line_batch_protocol. destruct (_ || _) eqn:E; [done|]. pose proof (zlen_nonneg msg).
  rewrite line_batch_loop_spec by (unfold zlen in *; lia). done.
Qed.

Example line_batch_run :
  kvs_line_batch_protocol (lit "A b" ++ crlf ++ lit "C" ++ [LF] ++ lit "rest") 11 64
    (λ line _, mret (zlen line, line)) tt = Ok (Some (7, lit "A bC")) tt.
Proof. vm_compute. reflexivity. Qed.
