(* ===== verification/Os.v ===== *)
(** The operating system as the persistence layer uses it: files, descriptors,
    mappings, and the write and sync requests of src/persistence/uring_io.c.

    The system calls are parameters.  [OsLaws] states what POSIX documents of them
    on three observations: the regular files by name, their contents by file
    identity, and the open descriptors.  Any call may fail; a failed call changes
    nothing except that a failed write may leave part of its data.  In a [healthy]
    state calls succeed; in particular the directories named by the paths exist and
    are writable.  [mem_os] is an in-memory system that meets the laws.

    The laws of the requests are those that Uring proves of the functions of
    uring_io.c over io_uring, for calls that return: [uring_abort_requests] ends the
    process when it cannot account for a request, which these laws leave out. *)

From Stdlib Require Import ZArith Lia.
From S2P Require Import Prelude.

(** [open] for reading: a descriptor, [errno == ENOENT], or another error. *)
Inductive open_result := Opened (fd : Z) | NoEntry | OpenFailed.

(** One request of [kvs_uring_io_write_batch]: data and file offset. *)
Record kvs_uring_write_t := UringWrite { uw_data : bytes; uw_offset : Z }.

(** Bytes written at an offset; a gap before it reads as zeros. *)
Definition pwrite (offset : Z) (data file : bytes) : bytes :=
  let n := Z.to_nat offset in
  take n file ++ replicate (n - List.length file) NUL ++ data ++ drop (n + List.length data) file.

Definition pwrites (ws : list kvs_uring_write_t) (file : bytes) : bytes :=
  foldl (λ f w, pwrite (uw_offset w) (uw_data w) f) file ws.

(** The entries of the queue of requests (uring_io.h). *)
Definition KVS_URING_QUEUE_DEPTH : Z := 8.

(** What [kvs_uring_io_write_batch] accepts: not too many blocks, none of them empty
    (an empty one would be skipped), in separate ranges of the file. *)
Definition separate (w1 w2 : kvs_uring_write_t) : Prop :=
  uw_offset w1 + zlen (uw_data w1) ≤ uw_offset w2 ∨ uw_offset w2 + zlen (uw_data w2) ≤ uw_offset w1.
Definition pairwise (ws : list kvs_uring_write_t) : Prop := ∀ j k w1 w2, j ≠ k → ws !! j = Some w1 → ws !! k = Some w2 → separate w1 w2.
Definition batch_ok (ws : list kvs_uring_write_t) : Prop :=
  zlen ws ≤ KVS_URING_QUEUE_DEPTH ∧ pairwise ws ∧
  Forall (λ w, uw_data w ≠ [] ∧ 0 ≤ uw_offset w ∧ uw_offset w + zlen (uw_data w) ≤ INT64_MAX) ws.

Class Os (D : Type) := {
  os_names : D → gmap bytes Z;
  os_data : D → gmap Z bytes;
  os_fds : D → gmap Z Z;
  healthy : D → Prop;
  (** [open(path, O_RDONLY)], [open(path, O_WRONLY | O_CREAT)] *)
  sys_open_read : bytes → M D open_result;
  sys_open_write : bytes → M D (option Z);
  sys_open_directory : bytes → M D (option Z);
  sys_mkstemp : bytes → M D (option (Z * bytes));
  (** [fstat]: whether the file is regular, and its size *)
  sys_fstat : Z → M D (option (bool * Z));
  sys_close : Z → M D Z;
  sys_rename : bytes → bytes → M D Z;
  sys_unlink : bytes → M D Z;
  (** the result, and whether [errno == EINTR]; interruptions come to an end *)
  sys_ftruncate : Z → Z → M D (Z * bool);
  sys_fsync : Z → M D (Z * bool);
  interruptions : D → nat;
  (** the bytes read, or an error and whether [errno == EINTR] *)
  sys_pread : Z → Z → Z → M D (option bytes * bool);
  (** [mmap] of a whole file for reading gives its bytes *)
  sys_mmap : Z → Z → M D (option bytes);
  sys_munmap : Z → M D Z;
  (** [open(path, O_WRONLY | O_CREAT | O_TRUNC)] *)
  sys_open_truncate : bytes → M D (option Z);
  (** [write] at the position of the descriptor, which is given; the number of bytes
      written, and whether [errno == EINTR] *)
  sys_write : Z → Z → bytes → M D (Z * bool);
  (** [stat]: whether the file is regular, and its size *)
  sys_stat : bytes → M D (option (bool * Z));
  (** [getrandom]: the bytes, or an error and whether [errno == EINTR] *)
  sys_getrandom : Z → M D (option bytes * bool);
  (** src/persistence/uring_io.c *)
  kvs_uring_io_init : M D Z;
  kvs_uring_io_close : M D unit;
  kvs_uring_io_write_batch : Z → list kvs_uring_write_t → M D Z;
  kvs_uring_io_sync : Z → M D Z;
}.

(** Names, contents and descriptors are as before. *)
Definition os_same {D} `{Os D} (d d' : D) : Prop :=
  os_names d' = os_names d ∧ os_data d' = os_data d ∧ os_fds d' = os_fds d.

(** The contents of the regular file [p], and of the file open at [fd]. *)
Definition file_at {D} `{Os D} (d : D) (p : bytes) : option bytes := os_names d !! p ≫= λ i, os_data d !! i.
Definition fd_file {D} `{Os D} (d : D) (fd : Z) : option bytes := os_fds d !! fd ≫= λ i, os_data d !! i.

(** [names] and contents as before, one more descriptor. *)
Definition os_opened {D} `{Os D} (d : D) (fd i : Z) (d' : D) : Prop :=
  0 ≤ fd ∧ os_fds d !! fd = None ∧ os_fds d' = <[fd := i]> (os_fds d).

(** A call that never fails in a healthy state. *)
Definition keeps_health {D} `{Os D} (d d' : D) : Prop := healthy d → healthy d'.

Class OsLaws (D : Type) `{Os D} : Prop := {
  open_read_law p d : wp (sys_open_read p) d (λ r d', keeps_health d d' ∧
    match r with
    | Opened fd => ∃ i, os_opened d fd i d' ∧ os_names d' = os_names d ∧ os_data d' = os_data d ∧
        match os_names d !! p with Some j => i = j | None => os_data d !! i = None end
    | NoEntry => os_same d d' ∧ os_names d !! p = None
    | OpenFailed => os_same d d' ∧ (healthy d → os_names d !! p = None)
    end);
  open_write_law p d : wp (sys_open_write p) d (λ r d', keeps_health d d' ∧
    match r with
    | Some fd => ∃ i, os_opened d fd i d' ∧
        match os_names d !! p with
        | Some j => i = j ∧ os_names d' = os_names d ∧ os_data d' = os_data d
        | None => os_names d' = <[p := i]> (os_names d) ∧ os_data d !! i = None ∧
            os_data d' = <[i := []]> (os_data d) ∨
            os_names d' = os_names d ∧ os_data d' = os_data d ∧ os_data d !! i = None
        end
    | None => os_same d d' ∧ ¬ healthy d
    end);
  fstat_law fd d : is_Some (os_fds d !! fd) → wp (sys_fstat fd) d (λ r d', keeps_health d d' ∧ os_same d d' ∧
    match r with
    | Some (true, n) => ∃ f, fd_file d fd = Some f ∧ n = zlen f
    | Some (false, _) => fd_file d fd = None
    | None => ¬ healthy d
    end);
  close_law fd d : wp (sys_close fd) d (λ r d', keeps_health d d' ∧
    os_names d' = os_names d ∧ os_data d' = os_data d ∧ os_fds d' = delete fd (os_fds d) ∧
    (healthy d → is_Some (os_fds d !! fd) → r = 0) ∧ (r = 0 ∨ r = -1));
  ftruncate_law fd n f d : fd_file d fd = Some f → 0 ≤ n →
    wp (sys_ftruncate fd n) d (λ '(r, eintr) d', keeps_health d d' ∧
      if r <? 0 then os_same d d' ∧ ¬ healthy d ∧ (eintr = true → (interruptions d' < interruptions d)%nat)
      else os_names d' = os_names d ∧ os_fds d' = os_fds d ∧ ∃ i, os_fds d !! fd = Some i ∧
        os_data d' = <[i := take (Z.to_nat n) f ++ replicate (Z.to_nat n - List.length f) NUL]> (os_data d));
  open_directory_law p d : wp (sys_open_directory p) d (λ r d', keeps_health d d' ∧
    match r with
    | Some fd => ∃ i, os_opened d fd i d' ∧ os_names d' = os_names d ∧ os_data d' = os_data d ∧ os_data d !! i = None
    | None => os_same d d' ∧ ¬ healthy d
    end);
  (** a new file under a new name *)
  mkstemp_law template d : wp (sys_mkstemp template) d (λ r d', keeps_health d d' ∧
    match r with
    | Some (fd, q) => ∃ i, os_opened d fd i d' ∧ os_names d !! q = None ∧ os_data d !! i = None ∧
        os_names d' = <[q := i]> (os_names d) ∧ os_data d' = <[i := []]> (os_data d)
    | None => os_same d d' ∧ ¬ healthy d
    end);
  (** [rename] replaces the target in one step or changes nothing *)
  rename_law p q i d : os_names d !! p = Some i → wp (sys_rename p q) d (λ r d', keeps_health d d' ∧
    (r = 0 ∨ r = -1) ∧
    if r <? 0 then os_same d d' ∧ ¬ healthy d
    else os_names d' = <[q := i]> (delete p (os_names d)) ∧ os_data d' = os_data d ∧ os_fds d' = os_fds d);
  unlink_law p d : wp (sys_unlink p) d (λ r d', keeps_health d d' ∧
    if r <? 0 then os_same d d' ∧ ¬ healthy d
    else os_names d' = delete p (os_names d) ∧ os_data d' = os_data d ∧ os_fds d' = os_fds d);
  fsync_law fd d : wp (sys_fsync fd) d (λ '(r, eintr) d', keeps_health d d' ∧ os_same d d' ∧ (r = 0 ∨ r = -1) ∧
    (r < 0 → ¬ healthy d ∧ (eintr = true → (interruptions d' < interruptions d)%nat)));
  pread_law fd n off f d : fd_file d fd = Some f → 0 < n → 0 ≤ off →
    wp (sys_pread fd n off) d (λ '(r, eintr) d', keeps_health d d' ∧ os_same d d' ∧
      match r with
      | Some b => b `prefix_of` drop (Z.to_nat off) f ∧ zlen b ≤ n ∧ (b = [] → zlen f ≤ off)
      | None => ¬ healthy d ∧ (eintr = true → (interruptions d' < interruptions d)%nat)
      end);
  mmap_law fd n f d : fd_file d fd = Some f → n = zlen f →
    wp (sys_mmap fd n) d (λ r d', keeps_health d d' ∧ os_same d d' ∧
      match r with Some view => view = f | None => ¬ healthy d end);
  munmap_law n d : wp (sys_munmap n) d (λ r d', keeps_health d d' ∧ os_same d d' ∧ (healthy d → 0 ≤ r));
  (** the path names no device *)
  open_truncate_law p d : wp (sys_open_truncate p) d (λ r d', keeps_health d d' ∧
    match r with
    | Some fd => ∃ i, os_opened d fd i d' ∧ os_data d' = <[i := []]> (os_data d) ∧
        match os_names d !! p with
        | Some j => i = j ∧ os_names d' = os_names d
        | None => os_names d' = <[p := i]> (os_names d) ∧ os_data d !! i = None
        end
    | None => os_same d d' ∧ ¬ healthy d
    end);
  write_law fd off data f d : fd_file d fd = Some f → data ≠ [] → 0 ≤ off ≤ zlen f →
    wp (sys_write fd off data) d (λ '(r, eintr) d', keeps_health d d' ∧
      if r <? 0 then os_same d d' ∧ ¬ healthy d ∧ (eintr = true → (interruptions d' < interruptions d)%nat)
      else os_names d' = os_names d ∧ os_fds d' = os_fds d ∧ (interruptions d' ≤ interruptions d)%nat ∧ r ≤ zlen data ∧ (healthy d → 0 < r) ∧
        ∃ i, os_fds d !! fd = Some i ∧ os_data d' = <[i := pwrite off (take (Z.to_nat r) data) f]> (os_data d));
  stat_law p d : wp (sys_stat p) d (λ r d', keeps_health d d' ∧ os_same d d' ∧
    match r with
    | Some (true, n) => ∃ f, file_at d p = Some f ∧ n = zlen f
    | Some (false, _) => file_at d p = None
    | None => healthy d → file_at d p = None
    end);
  getrandom_law n d : 0 < n → wp (sys_getrandom n) d (λ '(r, eintr) d', keeps_health d d' ∧ os_same d d' ∧
    match r with
    | Some b => zlen b ≤ n ∧ (healthy d → b ≠ []) ∧ (interruptions d' ≤ interruptions d)%nat
    | None => ¬ healthy d ∧ (eintr = true → (interruptions d' < interruptions d)%nat)
    end);
  uring_init_law d : wp kvs_uring_io_init d (λ r d', keeps_health d d' ∧ os_same d d' ∧ (healthy d → 0 ≤ r));
  uring_close_law d : wp kvs_uring_io_close d (λ _ d', keeps_health d d' ∧ os_same d d');
  (** a batch that fails may have written some of its bytes, but no others *)
  uring_write_law fd ws f d : fd_file d fd = Some f → ws ≠ [] → batch_ok ws →
    wp (kvs_uring_io_write_batch fd ws) d (λ r d', keeps_health d d' ∧
      os_names d' = os_names d ∧ os_fds d' = os_fds d ∧ ∃ i f', os_fds d !! fd = Some i ∧
      os_data d' = <[i := f']> (os_data d) ∧
      if r <? 0 then ¬ healthy d ∧
        (∀ n, Forall (λ w, Z.of_nat n ≤ uw_offset w) ws → (n ≤ List.length f)%nat → take n f' = take n f)
      else f' = pwrites ws f);
  uring_sync_law fd d : wp (kvs_uring_io_sync fd) d (λ r d', keeps_health d d' ∧ os_same d d' ∧
    (healthy d → is_Some (os_fds d !! fd) → 0 ≤ r));
}.

(** * Lemmas *)

Lemma separate_sym w1 w2 : separate w1 w2 → separate w2 w1.
Proof. unfold separate. lia. Qed.

Lemma pairwise_cons_iff w ws : pairwise (w :: ws) ↔ Forall (separate w) ws ∧ pairwise ws.
Proof.
  split.
  - intros Hp. split; [apply Forall_lookup; intros k w2 Hk; by apply (Hp O (S k))|]. intros j k w1 w2 Hjk Hj Hk.
    apply (Hp (S j) (S k)); [congruence|done|done].
  - intros [Hs Hp] [|j] [|k] w1 w2 Hjk Hj Hk; [done| | |].
    + injection Hj as <-. rewrite Forall_lookup in Hs. by apply (Hs k).
    + injection Hk as <-. rewrite Forall_lookup in Hs. by apply separate_sym, (Hs j).
    + apply (Hp j k); [congruence|done|done].
Qed.

Lemma pairwise_nil : pairwise [].
Proof. intros j k w1 w2 _ Hj. done. Qed.

Section lemmas.
Context {D} `{OsLaws D}.
Implicit Types d : D.

Lemma os_same_refl d : os_same d d.
Proof. by split_and!. Qed.

Lemma os_same_trans d1 d2 d3 : os_same d1 d2 → os_same d2 d3 → os_same d1 d3.
Proof. unfold os_same. naive_solver congruence. Qed.

Lemma file_at_same d d' p : os_same d d' → file_at d' p = file_at d p.
Proof. intros (E1 & E2 & _). unfold file_at. by rewrite E1, E2. Qed.

Lemma fd_file_same d d' fd : os_same d d' → fd_file d' fd = fd_file d fd.
Proof. intros (_ & E2 & E3). unfold fd_file. by rewrite E2, E3. Qed.
End lemmas.

(** Appending: a write at the end of the file. *)
Lemma pwrite_end (data file : bytes) : pwrite (zlen file) data file = file ++ data.
Proof.
  unfold pwrite, zlen. rewrite Nat2Z.id, Nat.sub_diag, firstn_all. simpl.
  rewrite drop_ge by lia. by rewrite app_nil_r.
Qed.

Lemma pwrite_take (n : nat) offset (data file : bytes) :
  Z.of_nat n ≤ offset → (n ≤ List.length file)%nat → take n (pwrite offset data file) = take n file.
Proof.
  intros Hn Hl. unfold pwrite. rewrite take_app, take_take, length_take.
  replace (n `min` Z.to_nat offset)%nat with n by lia.
  replace (n - Z.to_nat offset `min` List.length file)%nat with O by lia.
  by rewrite app_nil_r.
Qed.

(** * An in-memory system *)

(** With [mem_faults] every call fails. *)
Record mem_os := MemOs {
  mem_names : gmap bytes Z;
  mem_data : gmap Z bytes;
  mem_fds : gmap Z Z;
  mem_faults : bool;
}.

(** A key above every key of the map. *)
Definition above {A} (m : gmap Z A) : Z := map_fold (λ k _ acc, Z.max (k + 1) acc) 0 m.

Lemma above_spec {A} (m : gmap Z A) : 0 ≤ above m ∧ ∀ k x, m !! k = Some x → k < above m.
Proof.
  unfold above. refine (map_fold_weak_ind (λ b (m : gmap Z A), 0 ≤ b ∧ ∀ k x, m !! k = Some x → k < b) _ _ _ _ m).
  - split; [done|]. intros k x. by rewrite lookup_empty.
  - intros k x m' b _ [Hb IH]. split; [lia|]. intros j y. destruct (decide (j = k)) as [->|Hne].
    + lia.
    + rewrite lookup_insert_ne by done. intros Hj%IH. lia.
Qed.

Lemma above_fresh {A} (m : gmap Z A) : m !! above m = None.
Proof.
  destruct (m !! above m) eqn:E; [|done]. apply above_spec in E. lia.
Qed.

Section mem.
Implicit Types d : mem_os.

Definition mem_fallible {X} (failure : X) (m : M mem_os X) : M mem_os X := λ d,
  if mem_faults d then Ok failure d else m d.

Definition mem_set_data (i : Z) (f : bytes) d : mem_os :=
  MemOs (mem_names d) (<[i := f]> (mem_data d)) (mem_fds d) (mem_faults d).

Definition mem_open (i : Z) d : Z * mem_os :=
  let fd := above (mem_fds d) in
  (fd, MemOs (mem_names d) (mem_data d) (<[fd := i]> (mem_fds d)) (mem_faults d)).

Definition mem_create (p : bytes) d : Z * mem_os :=
  let i := above (mem_data d) in
  mem_open i (MemOs (<[p := i]> (mem_names d)) (<[i := []]> (mem_data d)) (mem_fds d) (mem_faults d)).

(** A name that is longer than every name in use. *)
Definition mem_unique (template : bytes) d : bytes :=
  template ++ replicate (S (map_fold (λ k _ n, List.length k `max` n)%nat O (mem_names d))) (byte_of_Z 120).

Lemma longest_spec {A} (m : gmap bytes A) k x :
  m !! k = Some x → (List.length k ≤ map_fold (λ k _ n, List.length k `max` n)%nat O m)%nat.
Proof.
  revert k x. refine (map_fold_weak_ind (λ n (m : gmap bytes A), ∀ k x, m !! k = Some x → (List.length k ≤ n)%nat) _ _ _ _ m).
  - intros k x. by rewrite lookup_empty.
  - intros j y m' n _ IH k x. destruct (decide (k = j)) as [->|Hne]; [lia|].
    rewrite lookup_insert_ne by done. intros Hk%IH. lia.
Qed.

Lemma mem_unique_fresh template d : mem_names d !! mem_unique template d = None.
Proof.
  destruct (mem_names d !! mem_unique template d) eqn:E; [|done]. apply longest_spec in E.
  unfold mem_unique in E. rewrite length_app, length_replicate in E. lia.
Qed.

Definition mem_file d (fd : Z) : option bytes := mem_fds d !! fd ≫= λ i, mem_data d !! i.

Definition mem_update (fd : Z) (g : bytes → bytes) : M mem_os Z := λ d,
  match mem_fds d !! fd with
  | Some i => match mem_data d !! i with
              | Some f => Ok 0 (mem_set_data i (g f) d)
              | None => Ok (-1) d
              end
  | None => Ok (-1) d
  end.

#[export] Instance mem_os_os : Os mem_os := {|
  os_names := mem_names;
  os_data := mem_data;
  os_fds := mem_fds;
  healthy := λ d, mem_faults d = false;
  sys_open_read p := mem_fallible OpenFailed (λ d,
    match mem_names d !! p with
    | Some i => let '(fd, d') := mem_open i d in Ok (Opened fd) d'
    | None => Ok NoEntry d
    end);
  sys_open_write p := mem_fallible None (λ d,
    let '(fd, d') := match mem_names d !! p with Some i => mem_open i d | None => mem_create p d end in
    Ok (Some fd) d');
  sys_open_directory p := mem_fallible None (λ d,
    let '(fd, d') := mem_open (above (mem_data d)) d in Ok (Some fd) d');
  sys_mkstemp template := mem_fallible None (λ d,
    let name := mem_unique template d in
    let '(fd, d') := mem_create name d in Ok (Some (fd, name)) d');
  sys_fstat fd := mem_fallible None (λ d,
    Ok (Some match mem_file d fd with Some f => (true, zlen f) | None => (false, 0) end) d);
  sys_close fd := λ d,
    Ok (if mem_faults d then -1 else if mem_fds d !! fd then 0 else -1)
       (MemOs (mem_names d) (mem_data d) (delete fd (mem_fds d)) (mem_faults d));
  sys_rename p q := mem_fallible (-1) (λ d,
    match mem_names d !! p with
    | Some i => Ok 0 (MemOs (<[q := i]> (delete p (mem_names d))) (mem_data d) (mem_fds d) (mem_faults d))
    | None => Ok (-1) d
    end);
  sys_unlink p := mem_fallible (-1) (λ d,
    Ok 0 (MemOs (delete p (mem_names d)) (mem_data d) (mem_fds d) (mem_faults d)));
  sys_ftruncate fd n := mem_fallible (-1, false) (λ d,
    match mem_update fd (λ f, take (Z.to_nat n) f ++ replicate (Z.to_nat n - List.length f) NUL) d with
    | Ok r d' => Ok (r, false) d' | Halt d' => Halt d' | UB => UB end);
  sys_fsync fd := mem_fallible (-1, false) (λ d, Ok (0, false) d);
  interruptions := λ _, O;
  sys_pread fd n off := mem_fallible (None, false) (λ d,
    Ok (match mem_file d fd with
        | Some f => Some (take (Z.to_nat n) (drop (Z.to_nat off) f))
        | None => None
        end, false) d);
  sys_mmap fd n := mem_fallible None (λ d, Ok (mem_file d fd) d);
  sys_munmap n := mem_fallible (-1) (λ d, Ok 0 d);
  sys_open_truncate p := mem_fallible None (λ d,
    let '(fd, d') := match mem_names d !! p with Some i => mem_open i (mem_set_data i [] d) | None => mem_create p d end in
    Ok (Some fd) d');
  sys_write fd off data := mem_fallible (-1, false) (λ d,
    match mem_update fd (pwrite off data) d with Ok r d' => Ok (if r <? 0 then r else zlen data, false) d' | Halt d' => Halt d' | UB => UB end);
  sys_stat p := mem_fallible None (λ d,
    Ok match mem_names d !! p ≫= λ i, mem_data d !! i with Some f => Some (true, zlen f) | None => None end d);
  sys_getrandom n := mem_fallible (None, false) (λ d, Ok (Some (replicate (Z.to_nat n) (byte_of_Z 90)), false) d);
  kvs_uring_io_init := mem_fallible (-1) (λ d, Ok 0 d);
  kvs_uring_io_close := λ d, Ok tt d;
  kvs_uring_io_write_batch fd ws := mem_fallible (-1) (mem_update fd (pwrites ws));
  kvs_uring_io_sync fd := mem_fallible (-1) (λ d, Ok 0 d);
|}.

Lemma mem_opened i d : os_opened d (mem_open i d).1 i (mem_open i d).2.
Proof.
  unfold os_opened, mem_open. simpl. split_and!; [apply above_spec|apply above_fresh|done].
Qed.

Lemma mem_created p d : os_opened d (mem_create p d).1 (above (mem_data d)) (mem_create p d).2.
Proof.
  unfold os_opened, mem_create, mem_open. simpl. split_and!; [apply above_spec|apply above_fresh|done].
Qed.

(** A fallible call meets its law when it does so without faults. *)
Lemma wp_mem_fallible {X} (failure : X) (m : M mem_os X) d (Q : X → mem_os → Prop) :
  (mem_faults d = true → Q failure d) → (mem_faults d = false → wp m d Q) → wp (mem_fallible failure m) d Q.
Proof. unfold wp, mem_fallible. intros H1 H2. destruct (mem_faults d); [by apply H1|by apply H2]. Qed.

Lemma mem_same d : os_same d d ∧ keeps_health d d.
Proof. unfold keeps_health. by split_and!. Qed.
#[local] Hint Resolve mem_same : core.
#[local] Hint Extern 0 (os_same _ _) => by split_and! : core.
#[local] Hint Extern 0 (keeps_health _ _) => (unfold keeps_health; done) : core.

Lemma mem_file_at d fd f : fd_file d fd = Some f → ∃ i, mem_fds d !! fd = Some i ∧ mem_data d !! i = Some f.
Proof. unfold fd_file. simpl. destruct (mem_fds d !! fd) as [i|]; simpl; [eauto|done]. Qed.

#[export] Instance mem_os_laws : OsLaws mem_os.
Proof.
  split.
  - intros p d. apply wp_mem_fallible; intros Hf; [split; [done|split; [done|simpl; congruence]]|].
    unfold wp. destruct (mem_names d !! p) as [i|] eqn:E; [|done].
    change (keeps_health d (mem_open i d).2 ∧ ∃ i0, os_opened d (mem_open i d).1 i0 (mem_open i d).2 ∧
      os_names (mem_open i d).2 = os_names d ∧ os_data (mem_open i d).2 = os_data d ∧
      match os_names d !! p with Some j => i0 = j | None => os_data d !! i0 = None end).
    split; [done|]. exists i. split_and!; [apply mem_opened|done|done|]. simpl. by rewrite E.
  - intros p d. apply wp_mem_fallible; intros Hf; [split; [done|split; [done|simpl; congruence]]|].
    unfold wp. simpl. destruct (mem_names d !! p) as [i|] eqn:E.
    + split; [done|]. exists i. split; [apply mem_opened|done].
    + split; [done|]. exists (above (mem_data d)). split; [apply mem_created|]. left.
      split_and!; [done|apply above_fresh|done].
  - intros fd d [i Hi]. simpl in Hi.
    apply wp_mem_fallible; intros Hf; [split; [done|split; [done|simpl; congruence]]|].
    unfold wp, mem_file, fd_file. simpl. rewrite Hi. simpl.
    destruct (mem_data d !! i) as [f|]; simpl; (split_and!; [done|done|]); eauto.
  - intros fd d. unfold wp. simpl. split_and!; [done..| |].
    + intros -> [i ->]. done.
    + destruct (mem_faults d); [by right|]. destruct (mem_fds d !! fd); auto.
  - intros fd n f d (i & Hi & Hd)%mem_file_at Hn.
    apply wp_mem_fallible; intros Hf; [split; [done|split_and!; [done|simpl; congruence|done]]|].
    unfold wp, mem_update. simpl. rewrite Hi, Hd. simpl. split_and!; [done..|]. eauto.
  - intros p d. apply wp_mem_fallible; intros Hf; [split; [done|split; [done|simpl; congruence]]|].
    unfold wp. simpl. split; [done|].
    exists (above (mem_data d)). split_and!; [apply mem_opened|done|done|apply above_fresh].
  - intros t d. apply wp_mem_fallible; intros Hf; [split; [done|split; [done|simpl; congruence]]|]. unfold wp.
    split; [done|]. exists (above (mem_data d)).
    split_and!; [apply mem_created|apply mem_unique_fresh|apply above_fresh|done|done].
  - intros p q i d Hp. simpl in Hp.
    apply wp_mem_fallible; intros Hf; [split; [done|split; [by right|split; [done|simpl; congruence]]]|]. unfold wp. rewrite Hp. split; [done|]. split; [by left|done].
  - intros p d. apply wp_mem_fallible; intros Hf; [split; [done|split; [done|simpl; congruence]]|done].
  - intros fd d. apply wp_mem_fallible; intros Hf; (split; [done|split; [done|simpl]]).
    + split; [by right|]. intros _. split; [congruence|done].
    + split; [by left|lia].
  - intros fd n off f d (i & Hi & Hd)%mem_file_at Hn Hoff.
    apply wp_mem_fallible; intros Hf; [split; [done|split; [done|split; [simpl; congruence|done]]]|].
    unfold wp, mem_file. rewrite Hi. simpl. rewrite Hd. split; [done|]. split; [done|]. split_and!.
    + eexists. by rewrite take_drop.
    + unfold zlen. rewrite length_take. lia.
    + intros Hnil%(f_equal List.length). rewrite length_take, length_drop in Hnil. unfold zlen. simpl in Hnil. lia.
  - intros fd n f d (i & Hi & Hd)%mem_file_at Hn.
    apply wp_mem_fallible; intros Hf; [split; [done|split; [done|simpl; congruence]]|].
    unfold wp, mem_file. by rewrite Hi; simpl; rewrite Hd.
  - intros n d. apply wp_mem_fallible; intros Hf; (split; [done|split; [done|simpl; try congruence]]). lia.
  - intros p d. apply wp_mem_fallible; intros Hf; [split; [done|split; [done|simpl; congruence]]|].
    unfold wp. simpl. destruct (mem_names d !! p) as [i|] eqn:E.
    + split; [done|]. exists i. split; [apply (mem_opened i (mem_set_data i [] d))|done].
    + split; [done|]. exists (above (mem_data d)). split; [apply mem_created|]. split; [done|]. split; [done|apply above_fresh].
  - intros fd off data f d (i & Hi & Hd)%mem_file_at Hne Hoff. apply wp_mem_fallible; intros Hf; [split; [done|simpl; split; [done|split; [congruence|done]]]|].
    unfold wp, mem_update. simpl. rewrite Hi, Hd. simpl. pose proof (zlen_nonneg data). rewrite (proj2 (Z.ltb_ge _ _)) by done.
    split; [done|]. split; [done|]. split; [done|]. split; [done|]. split; [lia|]. split; [intros _; destruct data; [done|rewrite zlen_cons; pose proof (zlen_nonneg data); lia]|].
    exists i. split; [done|]. unfold zlen. by rewrite Nat2Z.id, firstn_all.
  - intros p d. apply wp_mem_fallible; intros Hf; [split; [done|split; [done|simpl; congruence]]|].
    unfold wp. simpl. split; [done|]. split; [done|]. change (mem_names d !! p ≫= λ i, mem_data d !! i) with (file_at d p).
    destruct (file_at d p) as [f|]; [by exists f|done].
  - intros n d Hn. apply wp_mem_fallible; intros Hf; [split; [done|split; [done|split; [simpl; congruence|done]]]|].
    unfold wp. simpl. split; [done|]. split; [done|]. split; [unfold zlen; rewrite length_replicate; lia|]. split; [|done].
    intros _. destruct (Z.to_nat n) eqn:E; [lia|done].
  - intros d. apply wp_mem_fallible; intros Hf; (split; [done|split; [done|simpl; try congruence]]). lia.
  - done.
  - intros fd ws f d (i & Hi & Hd)%mem_file_at Hws Hpos.
    apply wp_mem_fallible; intros Hf.
    + split_and!; [done..|]. exists i, f. split; [done|]. split; [simpl; by rewrite insert_id|]. split; [simpl; congruence|done].
    + unfold wp, mem_update. rewrite Hi, Hd. split_and!; [done..|]. exists i, (pwrites ws f). done.
  - intros fd d. apply wp_mem_fallible; intros Hf; (split; [done|split; [done|simpl; try congruence]]). lia.
Qed.
End mem.

Definition empty_os : mem_os := MemOs ∅ ∅ ∅ false.
