(* ===== verification/Uring.v ===== *)
(** The write and sync requests of src/persistence/uring_io.c, over io_uring.

    liburing is an interface.  [RingLaws] states what its manual pages document on these
    observations: the files and descriptors, the entries prepared, and the requests
    submitted whose completion was not taken.  Requests complete in any order; the
    bytes that a completed write stored are a beginning of its data; calls may be
    interrupted, and may fail when the state is not healthy.  The theorems show that a
    batch is written as [OsLaws] of Os promises, and that no request is in flight when a
    function returns, so that the caller's buffers are its own again.  [errno] is not
    modelled. *)

From Stdlib Require Import ZArith Lia.
From S2P Require Import Prelude Os.

Definition EINTR : Z := 4.
Definition ENOENT : Z := 2.

(** A submission entry: what [io_uring_prep_write] or [io_uring_prep_fsync] put into it,
    and its [user_data]. *)
Inductive uring_op :=
| WriteOp (fd : Z) (data : bytes) (position : Z)
| FsyncOp (fd : Z).
Record io_uring_sqe := Sqe { sqe_op : option uring_op; user_data : Z }.
Definition blank_sqe : io_uring_sqe := Sqe None 0.

(** A completion: [user_data] and [res]. *)
Record io_uring_cqe := Cqe { cqe_user_data : Z; cqe_res : Z }.

Class Ring (U : Type) := {
  ring_names : U → gmap bytes Z;
  ring_data : U → gmap Z bytes;
  ring_fds : U → gmap Z Z;
  (** the descriptor was opened with [O_APPEND] *)
  ring_append : U → Z → bool;
  ring_healthy : U → Prop;
  ring_interruptions : U → nat;
  (** the entries of the submission queue *)
  ring_entries : U → Z;
  ring_prepared : U → list io_uring_sqe;
  ring_flight : U → list io_uring_sqe;
  io_uring_queue_init : Z → M U Z;
  io_uring_queue_exit : M U unit;
  (** the index of the entry, or a null pointer *)
  io_uring_get_sqe : M U (option nat);
  io_uring_prep : nat → uring_op → M U unit;
  io_uring_sqe_set_data64 : nat → Z → M U unit;
  io_uring_submit : M U Z;
  io_uring_wait_cqe : M U (Z * io_uring_cqe);
  io_uring_cqe_seen : io_uring_cqe → M U unit;
  io_uring_register_sync_cancel : Z → M U Z;
  (** [fcntl(fd, F_GETFL)]: whether [O_APPEND] is set, or an error *)
  sys_fcntl_getfl : Z → M U (option bool);
}.

(** * Definitions *)

Section ops.
Context `{Ring U}.

(** [kvs_uring_io_t] with its ring. *)
Record kvs_uring_io_t := UringIo { io_initialized : bool; io_ring : U }.
Notation S' := kvs_uring_io_t.
Definition put_ring (u : U) (io : kvs_uring_io_t) : kvs_uring_io_t := UringIo (io_initialized io) u.
Definition on_ring {X} (m : M U X) : M S' X := zoom io_ring put_ring m.

Record uring_write_progress_t := Progress { completed_bytes : Z; requested_bytes : Z }.

(** The number of requests, or -1, and the progress. *)
Fixpoint uring_prepare_writes (fd : Z) (i : Z) (writes : list kvs_uring_write_t) (progress : list uring_write_progress_t) :
    M S' (Z * list uring_write_progress_t) :=
  match writes, progress with
  | block :: writes, state :: progress =>
      let length := zlen (uw_data block) in
      if completed_bytes state =? length then
        '(n, progress) ← uring_prepare_writes fd (i + 1) writes progress;
        mret (n, Progress (completed_bytes state) 0 :: progress)
      else
        let completed := completed_bytes state in
        let remaining_bytes := length - completed in
        let request_bytes := if INT_MAX <? remaining_bytes then INT_MAX else remaining_bytes in
        sqe ← on_ring io_uring_get_sqe;
        match sqe with
        | None => mret (-1, Progress completed 0 :: progress)
        | Some sqe =>
            on_ring (io_uring_prep sqe (WriteOp fd (take (Z.to_nat request_bytes) (drop (Z.to_nat completed) (uw_data block)))
              (uw_offset block + completed)));;
            on_ring (io_uring_sqe_set_data64 sqe i);;
            '(n, progress) ← uring_prepare_writes fd (i + 1) writes progress;
            mret (if n <? 0 then -1 else n + 1, Progress completed request_bytes :: progress)
        end
  | _, _ => mret (0, [])
  end.

(** The loop of [uring_submit_prepared]: the result and [*submitted_count].  A turn submits
    a request or is interrupted. *)
Fixpoint submit_loop (fuel : nat) (prepared_count submitted_count : Z) : M S' (Z * Z) :=
  if submitted_count <? prepared_count then
    match fuel with
    | O => undefined
    | S fuel =>
        result ← on_ring io_uring_submit;
        if result =? - EINTR then submit_loop fuel prepared_count submitted_count else
        if result <? 0 then mret (-1, submitted_count) else
        if result =? 0 then mret (-1, submitted_count) else
        submit_loop fuel prepared_count (submitted_count + result)
    end
  else mret (0, submitted_count).

Definition interruptions_left : M S' nat := gets (λ io, ring_interruptions (io_ring io)).

Definition uring_submit_prepared (prepared_count : Z) : M S' (Z * Z) :=
  k ← interruptions_left;
  submit_loop (Z.to_nat prepared_count + k) prepared_count 0.

(** The [do ... while (result == -EINTR)] loops. *)
Fixpoint wait_loop (fuel : nat) : M S' (Z * io_uring_cqe) :=
  '(result, cqe) ← on_ring io_uring_wait_cqe;
  if result =? - EINTR then match fuel with O => undefined | S fuel => wait_loop fuel end else mret (result, cqe).
Fixpoint submit_one_loop (fuel : nat) : M S' Z :=
  result ← on_ring io_uring_submit;
  if result =? - EINTR then match fuel with O => undefined | S fuel => submit_one_loop fuel end else mret result.
Fixpoint cancel_loop (fuel : nat) (i : Z) : M S' Z :=
  result ← on_ring (io_uring_register_sync_cancel i);
  if result =? - EINTR then match fuel with O => undefined | S fuel => cancel_loop fuel i end else mret result.

(** [*block_index] and [*write_result], or [None] for -1. *)
Definition uring_receive_write_result : M S' (option (Z * Z)) :=
  k ← interruptions_left;
  '(result, cqe) ← wait_loop k;
  if result <? 0 then mret None else
  on_ring (io_uring_cqe_seen cqe);;
  mret (Some (cqe_user_data cqe, cqe_res cqe)).

Definition kvs_uring_io_init : M S' Z :=
  io ← gets id;
  if io_initialized io then mret (-1) else
  result ← on_ring (io_uring_queue_init KVS_URING_QUEUE_DEPTH);
  if result <? 0 then mret (-1) else
  modify (λ io, UringIo true (io_ring io));;
  mret 0.

Definition kvs_uring_io_close : M S' unit :=
  io ← gets id;
  if negb (io_initialized io) then mret tt else
  on_ring io_uring_queue_exit;;
  modify (λ io, UringIo false (io_ring io)).

(** The two loops of [uring_abort_requests]; the process ends when a request cannot be
    accounted for. *)
Fixpoint cancel_all (count : nat) (i : Z) : M S' unit :=
  match count with
  | O => mret tt
  | S count =>
      k ← interruptions_left;
      result ← cancel_loop k i;
      if (result <? 0) && negb (result =? - ENOENT) then exit_process else cancel_all count (i + 1)
  end.
Fixpoint reap_all (pending_count : nat) : M S' unit :=
  match pending_count with
  | O => mret tt
  | S pending_count =>
      r ← uring_receive_write_result;
      match r with
      | None => exit_process
      | Some _ => reap_all pending_count
      end
  end.
Definition uring_abort_requests (pending_count : Z) : M S' unit :=
  (if 0 <? pending_count then cancel_all (Z.to_nat KVS_URING_QUEUE_DEPTH) 0;; reap_all (Z.to_nat pending_count) else mret tt);;
  kvs_uring_io_close.

(** The loop of [kvs_uring_io_sync]; every turn but the last is an interrupted request. *)
Fixpoint sync_loop (fuel : nat) (fd : Z) : M S' Z :=
  sqe ← on_ring io_uring_get_sqe;
  match sqe with
  | None => mret (-1)
  | Some sqe =>
      on_ring (io_uring_prep sqe (FsyncOp fd));;
      on_ring (io_uring_sqe_set_data64 sqe 0);;
      k ← interruptions_left;
      result ← submit_one_loop k;
      if negb (result =? 1) then kvs_uring_io_close;; mret (-1) else
      k ← interruptions_left;
      '(result, cqe) ← wait_loop k;
      if result <? 0 then uring_abort_requests 1;; mret (-1) else
      on_ring (io_uring_cqe_seen cqe);;
      if cqe_res cqe =? - EINTR then match fuel with O => undefined | S fuel => sync_loop fuel fd end else
      mret (if negb (cqe_res cqe =? 0) then -1 else 0)
  end.

Definition kvs_uring_io_sync (fd : Z) : M S' Z :=
  io ← gets id;
  if negb (io_initialized io) || (fd <? 0) then mret (-1) else
  k ← interruptions_left;
  sync_loop k fd.

(** The checks of one block against the earlier ones with their [range_ends]. *)
Definition overlaps (block : kvs_uring_write_t) (range_end : Z) (earlier : kvs_uring_write_t * Z) : bool :=
  negb (zlen (uw_data (earlier.1)) =? 0) && (uw_offset block <? earlier.2) && (uw_offset (earlier.1) <? range_end).
Fixpoint check_ranges (earlier : list (kvs_uring_write_t * Z)) (writes : list kvs_uring_write_t) : bool :=
  match writes with
  | [] => true
  | block :: writes =>
      let range_end := uw_offset block + zlen (uw_data block) in
      (0 <=? uw_offset block) && (range_end <=? INT64_MAX) &&
      ((zlen (uw_data block) =? 0) || negb (existsb (overlaps block range_end) earlier)) &&
      check_ranges (earlier ++ [(block, range_end)]) writes
  end.

(** One completion of a round: the progress and [first_error]. *)
Definition account (block_index write_result : Z) (progress : list uring_write_progress_t) (first_error : bool) :
    list uring_write_progress_t * bool :=
  match znth progress block_index with
  | None => (progress, true)
  | Some state =>
      if requested_bytes state =? 0 then (progress, true) else
      let requested := requested_bytes state in
      let cleared := Progress (completed_bytes state) 0 in
      if write_result =? - EINTR then (zupd block_index cleared progress, first_error) else
      if (write_result <=? 0) || (requested <? write_result) then (zupd block_index cleared progress, true) else
      (zupd block_index (Progress (completed_bytes state + write_result) 0) progress, first_error)
  end.

(** The loop over the completions of a round: [None] when waiting failed. *)
Fixpoint receive_loop (pending : nat) (progress : list uring_write_progress_t) (first_error : bool) :
    M S' (option (list uring_write_progress_t * bool)) :=
  match pending with
  | O => mret (Some (progress, first_error))
  | S pending' =>
      r ← uring_receive_write_result;
      match r with
      | None => uring_abort_requests (Z.of_nat pending);; mret None
      | Some (block_index, write_result) =>
          let '(progress, first_error) := account block_index write_result progress first_error in
          receive_loop pending' progress first_error
      end
  end.

(** The rounds; every turn stores a byte or is interrupted. *)
Fixpoint write_rounds (fuel : nat) (fd : Z) (writes : list kvs_uring_write_t) (progress : list uring_write_progress_t) : M S' Z :=
  '(prepared_count, progress) ← uring_prepare_writes fd 0 writes progress;
  if prepared_count <? 0 then uring_abort_requests 0;; mret (-1) else
  if prepared_count =? 0 then mret 0 else
  match fuel with
  | O => undefined
  | S fuel =>
      '(r, submitted_count) ← uring_submit_prepared prepared_count;
      if r <? 0 then uring_abort_requests submitted_count;; mret (-1) else
      received ← receive_loop (Z.to_nat submitted_count) progress false;
      match received with
      | None => mret (-1)
      | Some (progress, first_error) => if (first_error : bool) then mret (-1) else write_rounds fuel fd writes progress
      end
  end.

Definition total_bytes (writes : list kvs_uring_write_t) : nat := sum_list_with (λ w, List.length (uw_data w)) writes.

Definition kvs_uring_io_write_batch (fd : Z) (writes : list kvs_uring_write_t) : M S' Z :=
  io ← gets id;
  if negb (io_initialized io) || (fd <? 0) || (KVS_URING_QUEUE_DEPTH <? zlen writes) then mret (-1) else
  if zlen writes =? 0 then mret 0 else
  file_flags ← on_ring (sys_fcntl_getfl fd);
  match file_flags with
  | None => mret (-1)
  | Some append =>
      if append : bool then mret (-1) else
      if negb (check_ranges [] writes) then mret (-1) else
      k ← interruptions_left;
      write_rounds (total_bytes writes + k) fd writes (replicate (List.length writes) (Progress 0 0))
  end.
End ops.

(** * The laws of the interface *)

Section laws_of.
Context `{Ring U}.
Implicit Types u : U.

(** Health is kept, and interruptions come to an end. *)
Definition ring_step u u' : Prop := (ring_healthy u → ring_healthy u') ∧ (ring_interruptions u' ≤ ring_interruptions u)%nat.

(** Everything but the contents of files. *)
Definition ring_named u u' : Prop :=
  ring_names u' = ring_names u ∧ ring_fds u' = ring_fds u ∧ ring_append u' = ring_append u.
Definition ring_files u u' : Prop := ring_named u u' ∧ ring_data u' = ring_data u.

(** An interruption, or [r]. *)
Definition interrupted u (r : Z) u' : Prop := r = - EINTR → (ring_interruptions u' < ring_interruptions u)%nat.

(** What is left behind a request that completed with [res]: a write has stored the
    first [k] bytes of its data. *)
Definition stored u fd data position (k : nat) u' : Prop :=
  match ring_fds u !! fd ≫= λ i, f ← ring_data u !! i; Some (i, f) with
  | Some (i, f) => ring_data u' = if decide (k = O) then ring_data u else <[i := pwrite position (take k data) f]> (ring_data u)
  | None => ring_data u' = ring_data u ∧ k = O
  end.
Definition completed (op : option uring_op) u (res : Z) u' : Prop :=
  match op with
  | Some (WriteOp fd data position) => ∃ k, (k ≤ List.length data)%nat ∧ stored u fd data position k u' ∧
      (0 ≤ res → Z.of_nat k = res) ∧ (res = - EINTR → k = O) ∧
      (ring_healthy u → is_Some (ring_fds u !! fd ≫= λ i, ring_data u !! i) → data ≠ [] → 0 < res ∨ res = - EINTR)
  | Some (FsyncOp fd) => ring_data u' = ring_data u ∧
      (ring_healthy u → is_Some (ring_fds u !! fd) → res = 0 ∨ res = - EINTR)
  | None => ring_data u' = ring_data u
  end.
End laws_of.

Class RingLaws (U : Type) `{Ring U} : Prop := {
  queue_init_law n u : 0 < n → ring_flight u = [] → wp (io_uring_queue_init n) u (λ r u', ring_step u u' ∧ ring_files u u' ∧ ring_flight u' = [] ∧
    (0 ≤ r → ring_prepared u' = [] ∧ n ≤ ring_entries u') ∧ (ring_healthy u → 0 ≤ r));
  (** the queue may go only when nothing is in flight *)
  queue_exit_law u : ring_flight u = [] → wp io_uring_queue_exit u (λ _ u', ring_step u u' ∧ ring_files u u' ∧ ring_flight u' = []);
  get_sqe_law u : wp io_uring_get_sqe u (λ r u', ring_step u u' ∧ ring_files u u' ∧ ring_entries u' = ring_entries u ∧ ring_flight u' = ring_flight u ∧
    match r with
    | Some k => k = List.length (ring_prepared u) ∧ ring_prepared u' = ring_prepared u ++ [blank_sqe]
    | None => ring_entries u ≤ zlen (ring_prepared u) ∧ ring_prepared u' = ring_prepared u
    end);
  prep_law k op u : (k < List.length (ring_prepared u))%nat → wp (io_uring_prep k op) u (λ _ u', ring_step u u' ∧ ring_files u u' ∧
    ring_entries u' = ring_entries u ∧ ring_flight u' = ring_flight u ∧ ring_prepared u' = alter (λ e, Sqe (Some op) (user_data e)) k (ring_prepared u));
  set_data64_law k x u : (k < List.length (ring_prepared u))%nat → wp (io_uring_sqe_set_data64 k x) u (λ _ u', ring_step u u' ∧ ring_files u u' ∧
    ring_entries u' = ring_entries u ∧ ring_flight u' = ring_flight u ∧ ring_prepared u' = alter (λ e, Sqe (sqe_op e) x) k (ring_prepared u));
  (** some of the entries are submitted, in order *)
  submit_law u : wp io_uring_submit u (λ r u', ring_step u u' ∧ ring_files u u' ∧ ring_entries u' = ring_entries u ∧ interrupted u r u' ∧
    (if 0 <? r then r ≤ zlen (ring_prepared u) ∧ ring_flight u' = ring_flight u ++ take (Z.to_nat r) (ring_prepared u) ∧
       ring_prepared u' = drop (Z.to_nat r) (ring_prepared u)
     else ring_flight u' = ring_flight u ∧ ring_prepared u' = ring_prepared u) ∧
    (ring_healthy u → ring_prepared u ≠ [] → 0 < r ∨ r = - EINTR));
  (** any request in flight completes; waiting needs one *)
  wait_law u : ring_flight u ≠ [] → wp io_uring_wait_cqe u (λ '(r, cqe) u', ring_step u u' ∧ ring_named u u' ∧ ring_entries u' = ring_entries u ∧
    ring_prepared u' = ring_prepared u ∧
    if r <? 0 then ring_data u' = ring_data u ∧ ring_flight u' = ring_flight u ∧ interrupted u r u' ∧ (ring_healthy u → r = - EINTR)
    else ∃ s, ring_flight u ≡ₚ s :: ring_flight u' ∧ cqe_user_data cqe = user_data s ∧ interrupted u (cqe_res cqe) u' ∧
      completed (sqe_op s) u (cqe_res cqe) u');
  cqe_seen_law c u : wp (io_uring_cqe_seen c) u (λ _ u', ring_step u u' ∧ ring_files u u' ∧ ring_entries u' = ring_entries u ∧
    ring_flight u' = ring_flight u ∧ ring_prepared u' = ring_prepared u);
  (** a cancelled request still completes *)
  cancel_law i u : wp (io_uring_register_sync_cancel i) u (λ r u', ring_step u u' ∧ ring_files u u' ∧ ring_entries u' = ring_entries u ∧
    ring_flight u' = ring_flight u ∧ ring_prepared u' = ring_prepared u ∧ interrupted u r u' ∧
    (ring_healthy u → 0 ≤ r ∨ r = - ENOENT ∨ r = - EINTR));
  getfl_law fd u : wp (sys_fcntl_getfl fd) u (λ r u', ring_step u u' ∧ ring_files u u' ∧ ring_entries u' = ring_entries u ∧
    ring_flight u' = ring_flight u ∧ ring_prepared u' = ring_prepared u ∧
    match r with
    | Some a => a = ring_append u fd
    | None => ring_healthy u → ring_fds u !! fd = None
    end);
}.

(** * Files written in pieces *)

Lemma pwrite_lookup off (d f : bytes) k : pwrite off d f !! k =
  if decide (k < Z.to_nat off)%nat then Some (default NUL (f !! k)) else
  if decide (k < Z.to_nat off + List.length d)%nat then d !! (k - Z.to_nat off)%nat else f !! k.
Proof.
  unfold pwrite. set (n := Z.to_nat off). rewrite app_assoc.
  assert (List.length (take n f ++ replicate (n - List.length f) NUL) = n) as Hl by (rewrite length_app, length_take, length_replicate; lia).
  destruct (decide (k < n)%nat).
  - rewrite lookup_app_l by lia. destruct (decide (k < List.length f)%nat).
    + rewrite lookup_app_l by (rewrite length_take; lia). rewrite lookup_take by done. rewrite decide_True by done.
      destruct (f !! k) eqn:E; [done|]. apply lookup_ge_None in E. lia.
    + rewrite lookup_app_r by (rewrite length_take; lia). rewrite lookup_replicate_2 by (rewrite length_take; lia).
      by rewrite (lookup_ge_None_2 f) by lia.
  - rewrite lookup_app_r by lia. rewrite Hl. destruct (decide (k < n + List.length d)%nat).
    + by rewrite lookup_app_l by lia.
    + rewrite lookup_app_r by lia. rewrite lookup_drop. f_equal. lia.
Qed.

(** Writes to separate ranges commute. *)
Lemma pwrite_comm o1 d1 o2 d2 (f : bytes) : 0 ≤ o1 → 0 ≤ o2 → d1 ≠ [] → d2 ≠ [] → (o1 + zlen d1 ≤ o2 ∨ o2 + zlen d2 ≤ o1) →
  pwrite o1 d1 (pwrite o2 d2 f) = pwrite o2 d2 (pwrite o1 d1 f).
Proof.
  intros H1 H2 Hd1 Hd2 Hsep. apply list_eq. intros k. rewrite !pwrite_lookup. unfold zlen in Hsep.
  assert (0 < List.length d1)%nat by (destruct d1; [done|cbn; lia]). assert (0 < List.length d2)%nat by (destruct d2; [done|cbn; lia]).
  repeat case_decide; try lia; cbn; try done.
  all: destruct (_ !! (k - _)%nat) eqn:E; [done|]; apply lookup_ge_None in E; lia.
Qed.

(** A write that continues another. *)
Lemma pwrite_more off (d1 d2 f : bytes) : 0 ≤ off → pwrite (off + zlen d1) d2 (pwrite off d1 f) = pwrite off (d1 ++ d2) f.
Proof.
  intros Ho. apply list_eq. intros k. rewrite !pwrite_lookup, length_app. unfold zlen.
  repeat case_decide; try lia; cbn; try done.
  - rewrite lookup_app_l by lia. destruct (d1 !! (k - Z.to_nat off)%nat) eqn:E; [done|]. apply lookup_ge_None in E. lia.
  - rewrite lookup_app_r by lia. f_equal. lia.
Qed.

(** Of every block a beginning is stored. *)
Definition part (w : kvs_uring_write_t) (c : Z) (f : bytes) : bytes :=
  if c =? 0 then f else pwrite (uw_offset w) (take (Z.to_nat c) (uw_data w)) f.
Fixpoint parts (ws : list kvs_uring_write_t) (cs : list Z) (f : bytes) : bytes :=
  match ws, cs with
  | w :: ws, c :: cs => parts ws cs (part w c f)
  | _, _ => f
  end.

Lemma part_comm w1 w2 p d c f : separate w1 w2 → 0 ≤ uw_offset w1 → 0 ≤ uw_offset w2 → uw_offset w1 ≤ p → d ≠ [] →
  p + zlen d ≤ uw_offset w1 + zlen (uw_data w1) → 0 ≤ c ≤ zlen (uw_data w2) → pwrite p d (part w2 c f) = part w2 c (pwrite p d f).
Proof.
  intros Hs H1 H2 Hp Hd Hle Hc. unfold part. destruct (Z.eqb_spec c 0); [done|].
  assert (zlen (take (Z.to_nat c) (uw_data w2)) = c) as Hl by (unfold zlen in *; rewrite length_take; lia).
  apply pwrite_comm; try lia; [done| |rewrite Hl; destruct Hs; lia]. intros E. rewrite E in Hl. change (zlen []) with 0 in Hl. lia.
Qed.

Lemma parts_comm ws w1 p d cs f : Forall (separate w1) ws → 0 ≤ uw_offset w1 → Forall (λ w, 0 ≤ uw_offset w) ws → uw_offset w1 ≤ p → d ≠ [] →
  p + zlen d ≤ uw_offset w1 + zlen (uw_data w1) → Forall2 (λ w c, 0 ≤ c ≤ zlen (uw_data w)) ws cs →
  pwrite p d (parts ws cs f) = parts ws cs (pwrite p d f).
Proof.
  intros Hs H1 Ho Hp Hd Hle Hc. revert f. induction Hc as [|w c ws cs Hwc _ IH]; intros f; [done|]. cbn.
  apply Forall_cons in Hs as [Hs1 Hs]. apply Forall_cons in Ho as [Ho1 Ho]. rewrite IH by done. f_equal. by apply part_comm with w1.
Qed.

(** [k] more bytes of a block. *)
Lemma part_more w c k f : 0 ≤ uw_offset w → 0 ≤ c → 0 < k → c + k ≤ zlen (uw_data w) →
  pwrite (uw_offset w + c) (take (Z.to_nat k) (drop (Z.to_nat c) (uw_data w))) (part w c f) = part w (c + k) f.
Proof.
  intros Ho Hc Hk Hle. unfold part. rewrite (proj2 (Z.eqb_neq (c + k) 0)) by lia. destruct (Z.eqb_spec c 0) as [->|].
  - by rewrite !Z.add_0_l, Z.add_0_r, drop_0.
  - assert (zlen (take (Z.to_nat c) (uw_data w)) = c) as Hl by (unfold zlen in *; rewrite length_take; lia).
    rewrite <- Hl at 1. rewrite pwrite_more by done. f_equal. rewrite take_take_drop. f_equal. lia.
Qed.

Lemma parts_more ws cs f j w c k : pairwise ws → Forall (λ w, 0 ≤ uw_offset w) ws → Forall2 (λ w c, 0 ≤ c ≤ zlen (uw_data w)) ws cs →
  ws !! j = Some w → cs !! j = Some c → 0 < k → c + k ≤ zlen (uw_data w) →
  pwrite (uw_offset w + c) (take (Z.to_nat k) (drop (Z.to_nat c) (uw_data w))) (parts ws cs f) = parts ws (<[j := c + k]> cs) f.
Proof.
  intros Hp Ho Hc. revert f j Hp Ho. induction Hc as [|w0 c0 ws cs Hwc Hrest IH]; intros f j Hp Ho Hj Hcj Hk Hle; [done|].
  apply pairwise_cons_iff in Hp as [Hsep Hp]. apply Forall_cons in Ho as [Ho0 Ho]. destruct j as [|j].
  - injection Hj as ->. injection Hcj as ->. cbn [parts]. cbn [insert list_insert]. cbn [parts].
    rewrite (parts_comm ws w); [|done|done|done|lia| | |done].
    + f_equal. apply part_more; lia.
    + intros E. apply (f_equal List.length) in E. rewrite length_take, length_drop in E. cbn in E. unfold zlen in *. lia.
    + unfold zlen in *. rewrite length_take, length_drop. lia.
  - cbn. by apply IH.
Qed.

Lemma parts_none ws f : parts ws (replicate (List.length ws) 0) f = f.
Proof. induction ws as [|w ws IH] in f |- *; [done|]. cbn. apply IH. Qed.

Lemma parts_all ws cs f : Forall2 (λ w c, c = zlen (uw_data w)) ws cs → Forall (λ w, uw_data w ≠ []) ws → parts ws cs f = pwrites ws f.
Proof.
  intros Hc. revert f. induction Hc as [|w c ws cs -> _ IH]; intros f Hne; [done|]. apply Forall_cons in Hne as [Hw Hne].
  cbn. rewrite IH by done. unfold pwrites. cbn. f_equal. unfold part. destruct (Z.eqb_spec (zlen (uw_data w)) 0) as [E%zlen_zero|]; [done|].
  f_equal. unfold zlen. rewrite Nat2Z.id. apply take_ge. lia.
Qed.

(** * Specifications *)

Section specs.
Context `{RingLaws U}.
Notation S' := (kvs_uring_io_t (U := U)).
Implicit Types (u : U) (io : S').

Lemma ring_step_refl u : ring_step u u.
Proof. by split. Qed.
Lemma ring_step_trans u1 u2 u3 : ring_step u1 u2 → ring_step u2 u3 → ring_step u1 u3.
Proof. unfold ring_step. intros [H12 L12] [H23 L23]. split; [auto|lia]. Qed.
Lemma ring_named_refl u : ring_named u u.
Proof. by split_and!. Qed.
Lemma ring_named_trans u1 u2 u3 : ring_named u1 u2 → ring_named u2 u3 → ring_named u1 u3.
Proof. intros (?&?&?) (?&?&?). split_and!; congruence. Qed.
Lemma ring_files_refl u : ring_files u u.
Proof. by split_and!. Qed.
Lemma ring_files_trans u1 u2 u3 : ring_files u1 u2 → ring_files u2 u3 → ring_files u1 u3.
Proof. intros [? ?] [? ?]. split; [by eapply ring_named_trans|congruence]. Qed.

(** A call on the ring of [io]. *)
Lemma step_ring {X Y} (m : M U X) (k : X → M S' Y) io P Q G :
  wp m (io_ring io) P → (∀ x u, P x u → wpx (k x) (UringIo (io_initialized io) u) Q G) → wpx (on_ring m ≫= k) io Q G.
Proof. unfold wp, wpx, on_ring, zoom, mbind, M_bind. intros Hm Hk. destruct (m (io_ring io)); [by apply Hk|done..]. Qed.

Lemma step_get {X Y} (f : S' → X) (k : X → M S' Y) io Q G : wpx (k (f io)) io Q G → wpx (gets f ≫= k) io Q G.
Proof. done. Qed.

(** Nothing but the ring itself changed. *)
Definition serene u u' : Prop := ring_step u u' ∧ ring_files u u' ∧ ring_entries u' = ring_entries u.

Lemma serene_refl u : serene u u.
Proof. split; [apply ring_step_refl|]. split; [apply ring_files_refl|done]. Qed.
Lemma serene_trans u1 u2 u3 : serene u1 u2 → serene u2 u3 → serene u1 u3.
Proof.
  intros (H1a & H1b & H1c) (H2a & H2b & H2c). split; [by eapply ring_step_trans|]. split; [by eapply ring_files_trans|congruence].
Qed.

Lemma interrupted_after u u1 r u' : ring_step u u1 → interrupted u1 r u' → interrupted u r u'.
Proof. intros [_ Hl] Hi E. specialize (Hi E). lia. Qed.
Lemma interrupted_before u r u1 u' : ring_step u1 u' → interrupted u r u1 → interrupted u r u'.
Proof. intros [_ Hl] Hi E. specialize (Hi E). lia. Qed.

Lemma completed_after op u u1 res u' : ring_step u u1 → ring_files u u1 → completed op u1 res u' → completed op u res u'.
Proof.
  intros [Hh _] ((_ & Ef & _) & Ed). destruct op as [[fd data position|fd]|]; cbn; unfold stored; rewrite Ed, ?Ef; [|naive_solver|done].
  intros (k & Hk & Hs & Hr & Hi & Hgood). exists k. split_and!; [done|done|done|done|]. intros Hhu. apply Hgood. auto.
Qed.

Lemma completed_before op u res u1 u' : ring_data u' = ring_data u1 → completed op u res u1 → completed op u res u'.
Proof. intros Ed. destruct op as [[fd data position|fd]|]; cbn; unfold stored; by rewrite Ed. Qed.

(** ** Waiting *)

(** A completion was taken, or waiting failed. *)
Definition received u (r : option (Z * Z)) u' : Prop :=
  ring_step u u' ∧ ring_named u u' ∧ ring_entries u' = ring_entries u ∧ ring_prepared u' = ring_prepared u ∧
  match r with
  | None => ring_data u' = ring_data u ∧ ring_flight u' = ring_flight u ∧ ¬ ring_healthy u
  | Some (index, res) => ∃ s, ring_flight u ≡ₚ s :: ring_flight u' ∧ index = user_data s ∧ interrupted u res u' ∧ completed (sqe_op s) u res u'
  end.

Lemma wait_loop_spec fuel io :
  ring_flight (io_ring io) ≠ [] → (ring_interruptions (io_ring io) ≤ fuel)%nat →
  wpx (wait_loop fuel) io (λ '(r, cqe) io', io_initialized io' = io_initialized io ∧
    received (io_ring io) (if r <? 0 then None else Some (cqe_user_data cqe, cqe_res cqe)) (io_ring io')) (λ _, False).
Proof.
  revert io. induction fuel as [|fuel IH]; intros io Hf Hi; cbn [wait_loop].
  all: eapply step_ring; [by apply wait_law|]; intros [r cqe] u (Hs & Hn & He & Hp & Hr).
  all: destruct (Z.eqb_spec r (- EINTR)) as [->|Hne].
  - destruct Hr as (_ & _ & Hint & _). specialize (Hint eq_refl). lia.
  - apply wpx_ret. split; [done|]. split; [done|]. split; [done|]. split; [done|]. split; [done|]. destruct (r <? 0); [|naive_solver].
    destruct Hr as (Ed & Ef & _ & Hh). split; [done|]. split; [done|]. intros Hu. by apply Hne, Hh.
  - destruct Hr as (Ed & Ef & Hint & _). specialize (Hint eq_refl). eapply wpx_mono; [apply IH; cbn; [congruence|lia]| |done].
    intros [r2 cqe2] io' (Ei & Hs2 & Hn2 & He2 & Hp2 & Hr2). cbn in *. split; [done|]. split; [by eapply ring_step_trans|]. split; [by eapply ring_named_trans|].
    split; [congruence|]. split; [congruence|]. destruct (r2 <? 0).
    + destruct Hr2 as (? & ? & Hh). split; [congruence|]. split; [congruence|]. intros Hu. by apply Hh, Hs.
    + destruct Hr2 as (s & Hfl & Eu & Hi2 & Hc). exists s. rewrite <- Ef. split; [done|]. split; [done|]. split; [by eapply interrupted_after|].
      by eapply completed_after.
  - apply wpx_ret. split; [done|]. split; [done|]. split; [done|]. split; [done|]. split; [done|]. destruct (r <? 0); [|naive_solver].
    destruct Hr as (Ed & Ef & _ & Hh). split; [done|]. split; [done|]. intros Hu. by apply Hne, Hh.
Qed.

Lemma uring_receive_spec io :
  ring_flight (io_ring io) ≠ [] →
  wpx uring_receive_write_result io (λ r io', io_initialized io' = io_initialized io ∧ received (io_ring io) r (io_ring io')) (λ _, False).
Proof.
  intros Hf. unfold uring_receive_write_result. apply step_get. eapply wpx_stepx; [by apply wait_loop_spec|].
  intros [r cqe] io1 (Ei & Hr). destruct (r <? 0); [by apply wpx_ret|].
  destruct Hr as (Hs & Hn & He & Hp & s & Hfl & Eu & Hi & Hc). eapply step_ring; [apply cqe_seen_law|].
  intros _ u (Hs2 & [Hn2 Hd2] & He2 & Hf2 & Hp2). apply wpx_ret. split; [done|]. cbn.
  split; [by eapply ring_step_trans|]. split; [by eapply ring_named_trans|]. split; [congruence|]. split; [congruence|].
  exists s. rewrite Hf2. split; [done|]. split; [done|]. split; [by eapply interrupted_before|]. by eapply completed_before.
Qed.

(** ** Ending a round early *)

Lemma cancel_loop_spec fuel i io :
  (ring_interruptions (io_ring io) ≤ fuel)%nat →
  wpx (cancel_loop fuel i) io (λ r io', io_initialized io' = io_initialized io ∧ serene (io_ring io) (io_ring io') ∧
    ring_flight (io_ring io') = ring_flight (io_ring io) ∧ (ring_healthy (io_ring io) → 0 ≤ r ∨ r = - ENOENT)) (λ _, False).
Proof.
  revert io. induction fuel as [|fuel IH]; intros io Hi; cbn [cancel_loop].
  all: eapply step_ring; [by apply cancel_law|]; intros r u (Hs & Hfiles & He & Hfl & Hp & Hint & Hr).
  all: destruct (Z.eqb_spec r (- EINTR)) as [->|Hne].
  - specialize (Hint eq_refl). lia.
  - apply wpx_ret. split; [done|]. split; [by split_and!|]. split; [done|]. intros Hh. specialize (Hr Hh). tauto.
  - specialize (Hint eq_refl). eapply wpx_mono; [apply IH; cbn; lia| |done]. intros r io' (Ei & Hq & Ef & Hr2). cbn in *. split; [done|].
    split; [eapply serene_trans; [|exact Hq]; by split_and!|]. split; [congruence|]. intros Hh. by apply Hr2, Hs.
  - apply wpx_ret. split; [done|]. split; [by split_and!|]. split; [done|]. intros Hh. specialize (Hr Hh). tauto.
Qed.

Lemma cancel_all_spec count i io :
  wpx (cancel_all count i) io (λ _ io', io_initialized io' = io_initialized io ∧ serene (io_ring io) (io_ring io') ∧
    ring_flight (io_ring io') = ring_flight (io_ring io)) (λ _, ¬ ring_healthy (io_ring io)).
Proof.
  revert i io. induction count as [|count IH]; intros i io; cbn [cancel_all].
  { apply wpx_ret. split; [done|]. split; [apply serene_refl|done]. }
  apply step_get. eapply wpx_stepx; [eapply wpx_mono; [by apply cancel_loop_spec|done|done]|].
  intros r io1 (Ei & Hq & Ef & Hr). destruct ((r <? 0) && negb (r =? - ENOENT)) eqn:Ebad.
  - apply andb_true_iff in Ebad as [Hneg%Z.ltb_lt Hne%negb_true_iff%Z.eqb_neq]. intros Hh. destruct (Hr Hh); [lia|done].
  - eapply wpx_mono; [apply IH| |].
    + intros _ io2 (Ei2 & Hq2 & Ef2). split; [congruence|]. split; [by eapply serene_trans|congruence].
    + intros ? Hh Hu. cbv beta in Hh. apply Hh. destruct Hq as [[Hs _] _]. auto.
Qed.

(** Bytes of the file [i] changed, but not the first [n] for any [n] of [lo]. *)
Definition scribbled (lo : nat → Prop) i (d d' : gmap Z bytes) : Prop :=
  ∃ f f', d !! i = Some f ∧ d' = <[i := f']> d ∧ ∀ n, lo n → (n ≤ List.length f)%nat → take n f' = take n f.

Lemma scribbled_refl lo i d f : d !! i = Some f → scribbled lo i d d.
Proof. intros Hf. exists f, f. split; [done|]. by rewrite insert_id. Qed.

Lemma scribbled_trans lo i d1 d2 d3 : scribbled lo i d1 d2 → scribbled lo i d2 d3 → scribbled lo i d1 d3.
Proof.
  intros (f & f1 & Hf & -> & H12) (f1' & f2 & Hf1 & -> & H23). rewrite lookup_insert_eq in Hf1. injection Hf1 as <-.
  exists f, f2. split; [done|]. split; [by rewrite insert_insert_eq|]. intros n Hn Hle. rewrite H23; [by apply H12|done|].
  specialize (H12 n Hn Hle). apply (f_equal List.length) in H12. rewrite !length_take in H12. lia.
Qed.

Lemma scribbled_file lo i d d' : scribbled lo i d d' → ∃ f', d' !! i = Some f'.
Proof. intros (f & f' & _ & -> & _). exists f'. by rewrite lookup_insert_eq. Qed.

(** A request of a batch whose writes start at [lo] or behind it. *)
Definition request_of (lo : nat → Prop) fd (s : io_uring_sqe) : Prop :=
  match sqe_op s with
  | Some (WriteOp fd' _ position) => fd' = fd ∧ ∀ n, lo n → Z.of_nat n ≤ position
  | _ => True
  end.

Lemma completed_scribbled lo fd i f s u res u' : ring_fds u !! fd = Some i → ring_data u !! i = Some f → request_of lo fd s →
  completed (sqe_op s) u res u' → scribbled lo i (ring_data u) (ring_data u').
Proof.
  intros Hi Hf Hreq Hc. unfold request_of in Hreq. destruct (sqe_op s) as [[fd' data position|fd']|].
  - destruct Hreq as [-> Hlo]. destruct Hc as (k & _ & Hst & _). unfold stored in Hst. rewrite Hi in Hst. cbn in Hst. rewrite Hf in Hst. cbn in Hst.
    rewrite Hst. case_decide; [by eapply scribbled_refl|]. exists f, (pwrite position (take k data) f). split; [done|]. split; [done|].
    intros n Hn Hle. by apply pwrite_take; [apply Hlo|].
  - destruct Hc as [-> _]. by eapply scribbled_refl.
  - cbn in Hc. rewrite Hc. by eapply scribbled_refl.
Qed.

(** The completion of the request keeps [R] of the contents. *)
Definition harmless (fds : gmap Z Z) (R : gmap Z bytes → Prop) (s : io_uring_sqe) : Prop :=
  ∀ u res u', ring_fds u = fds → R (ring_data u) → completed (sqe_op s) u res u' → R (ring_data u').

Lemma request_harmless lo fd i d0 fds s : fds !! fd = Some i → request_of lo fd s → harmless fds (scribbled lo i d0) s.
Proof.
  intros Hi Hs u res u' Ef Hscr Hc. destruct (scribbled_file _ _ _ _ Hscr) as [f Hf]. eapply scribbled_trans; [exact Hscr|].
  eapply completed_scribbled; [by rewrite Ef|exact Hf|exact Hs|exact Hc].
Qed.

Lemma reap_all_spec R count io :
  List.length (ring_flight (io_ring io)) = count → Forall (harmless (ring_fds (io_ring io)) R) (ring_flight (io_ring io)) → R (ring_data (io_ring io)) →
  wpx (reap_all count) io (λ _ io', io_initialized io' = io_initialized io ∧ ring_step (io_ring io) (io_ring io') ∧
    ring_named (io_ring io) (io_ring io') ∧ ring_flight (io_ring io') = [] ∧ R (ring_data (io_ring io')))
    (λ _, ¬ ring_healthy (io_ring io)).
Proof.
  revert io. induction count as [|count IH]; intros io Hc Hreq HR; cbn [reap_all].
  { apply wpx_ret. split; [done|]. split; [apply ring_step_refl|]. split; [apply ring_named_refl|]. by apply nil_length_inv in Hc. }
  eapply wpx_stepx; [eapply wpx_mono; [apply uring_receive_spec|done|done]|].
  { intros E. by rewrite E in Hc. }
  intros [[index res]|] io1 (Ei & Hs & Hn & He & Hp & Hr); [|by destruct Hr as (_ & _ & Hh)].
  destruct Hr as (s & Hfl & _ & _ & Hcomp). pose proof Hfl as Hlen. apply Permutation_length in Hlen. cbn in Hlen.
  rewrite Hfl in Hreq. apply Forall_cons in Hreq as [Hs1 Hreq].
  assert (ring_fds (io_ring io1) = ring_fds (io_ring io)) as Ef by (by destruct Hn as (_ & ? & _)).
  eapply wpx_mono; [apply (IH io1); [lia|by rewrite Ef|exact (Hs1 _ _ _ eq_refl HR Hcomp)]| |].
  - intros _ io2 (Ei2 & Hs2 & Hn2 & Hf2 & HR2). split; [congruence|]. split; [by eapply ring_step_trans|]. split; [by eapply ring_named_trans|].
    by split.
  - intros ? Hh Hu. cbv beta in Hh. by apply Hh, Hs.
Qed.

Lemma close_spec io G : ring_flight (io_ring io) = [] →
  wpx kvs_uring_io_close io (λ _ io', io_initialized io' = false ∧ ring_step (io_ring io) (io_ring io') ∧
    ring_files (io_ring io) (io_ring io') ∧ ring_flight (io_ring io') = []) G.
Proof.
  intros Hf. unfold kvs_uring_io_close. apply step_get. destruct io as [init u]. cbn. destruct init; cbn.
  - eapply step_ring; [by apply queue_exit_law|]. intros _ u1 (Hs & Hfiles & Hf1). by split_and!.
  - split; [done|]. split; [apply ring_step_refl|]. split; [apply ring_files_refl|done].
Qed.

Lemma abort_spec R io pending :
  Z.of_nat (List.length (ring_flight (io_ring io))) = pending → Forall (harmless (ring_fds (io_ring io)) R) (ring_flight (io_ring io)) →
  R (ring_data (io_ring io)) →
  wpx (uring_abort_requests pending) io (λ _ io', io_initialized io' = false ∧ ring_step (io_ring io) (io_ring io') ∧
    ring_named (io_ring io) (io_ring io') ∧ ring_flight (io_ring io') = [] ∧ R (ring_data (io_ring io')))
    (λ _, ¬ ring_healthy (io_ring io)).
Proof.
  intros Hc Hreq HR. unfold uring_abort_requests.
  eapply (wpx_stepx _ _ _ (λ _ io', ring_step (io_ring io) (io_ring io') ∧ ring_named (io_ring io) (io_ring io') ∧
    ring_flight (io_ring io') = [] ∧ R (ring_data (io_ring io')))).
  - destruct (Z.ltb_spec 0 pending).
    + eapply wpx_stepx; [apply cancel_all_spec|]. intros _ io1 (Ei & (Hs & (Hn & Hd) & _) & Ef).
      assert (ring_fds (io_ring io1) = ring_fds (io_ring io)) as Efds by (by destruct Hn as (_ & ? & _)).
      eapply wpx_mono; [apply (reap_all_spec R _ io1)| |].
      * rewrite Ef. lia.
      * by rewrite Ef, Efds.
      * by rewrite Hd.
      * intros _ io2 (_ & Hs2 & Hn2 & Hf2 & HR2). split; [by eapply ring_step_trans|]. split; [by eapply ring_named_trans|done].
      * intros ? Hh Hu. cbv beta in Hh. by apply Hh, Hs.
    + apply wpx_ret. split; [apply ring_step_refl|]. split; [apply ring_named_refl|]. split; [|done].
      apply nil_length_inv. lia.
  - intros _ io1 (Hs & Hn & Hfl & HR1). eapply wpx_mono; [apply (close_spec io1 (λ _, False) Hfl)| |by intros ? []].
    intros _ io2 (Ei2 & Hs2 & [Hn2 Hd2] & Hf2). split; [done|]. split; [by eapply ring_step_trans|]. split; [by eapply ring_named_trans|].
    split; [done|]. by rewrite Hd2.
Qed.

(** ** A round *)

Definition request fd (i : Z) (w : kvs_uring_write_t) (st : uring_write_progress_t) : io_uring_sqe :=
  Sqe (Some (WriteOp fd (take (Z.to_nat (requested_bytes st)) (drop (Z.to_nat (completed_bytes st)) (uw_data w)))
    (uw_offset w + completed_bytes st))) i.

(** The requests of a round, those of the blocks with something requested. *)
Fixpoint requests fd (i : Z) (ws : list kvs_uring_write_t) (ps : list uring_write_progress_t) : list io_uring_sqe :=
  match ws, ps with
  | w :: ws, st :: ps => (if requested_bytes st =? 0 then [] else [request fd i w st]) ++ requests fd (i + 1) ws ps
  | _, _ => []
  end.

Definition progress_ok (w : kvs_uring_write_t) (st : uring_write_progress_t) : Prop :=
  0 ≤ completed_bytes st ≤ zlen (uw_data w) ∧ 0 ≤ requested_bytes st ≤ zlen (uw_data w) - completed_bytes st.

Lemma alter_last {A} (f : A → A) (l : list A) x : alter f (List.length l) (l ++ [x]) = l ++ [f x].
Proof. induction l as [|y l IH]; cbn; [done|]. f_equal. exact IH. Qed.

(** An entry is filled in. *)
Lemma step_entry {Y} op i (k : M S' Y) io Q G (no : M S' Y) :
  zlen (ring_prepared (io_ring io)) < ring_entries (io_ring io) →
  (∀ u, serene (io_ring io) u → ring_flight u = ring_flight (io_ring io) → ring_prepared u = ring_prepared (io_ring io) ++ [Sqe (Some op) i] →
    wpx k (UringIo (io_initialized io) u) Q G) →
  wpx (sqe ← on_ring io_uring_get_sqe; match sqe with
       | None => no
       | Some sqe => on_ring (io_uring_prep sqe op);; on_ring (io_uring_sqe_set_data64 sqe i);; k
       end) io Q G.
Proof.
  intros Hroom Hk. eapply step_ring; [apply get_sqe_law|]. intros [n|] u1 (Hs1 & Hf1 & He1 & Hfl1 & Hr1); [|lia].
  destruct Hr1 as [-> Hp1]. assert (List.length (ring_prepared (io_ring io)) < List.length (ring_prepared u1))%nat as Hlt1 by (rewrite Hp1, length_app; cbn; lia).
  eapply step_ring; [by apply prep_law|]. intros _ u2 (Hs2 & Hf2 & He2 & Hfl2 & Hp2). cbn [io_ring] in *. rewrite Hp1, alter_last in Hp2.
  eapply step_ring; [apply set_data64_law; cbn; rewrite Hp2, length_app; cbn; lia|]. cbn [io_ring].
  intros _ u3 (Hs3 & Hf3 & He3 & Hfl3 & Hp3). cbn [io_ring] in *. rewrite Hp2, alter_last in Hp3.
  apply Hk; [|congruence|exact Hp3]. split; [|split; [|congruence]].
  - eapply ring_step_trans; [exact Hs1|]. by eapply ring_step_trans.
  - eapply ring_files_trans; [exact Hf1|]. by eapply ring_files_trans.
Qed.

(** What is still to be stored. *)
Fixpoint left_over (ws : list kvs_uring_write_t) (ps : list uring_write_progress_t) : nat :=
  match ws, ps with
  | w :: ws, st :: ps => (Z.to_nat (zlen (uw_data w) - completed_bytes st) + left_over ws ps)%nat
  | _, _ => O
  end.

Lemma prepare_spec fd i ws ps io :
  Forall2 (λ w st, 0 ≤ completed_bytes st ≤ zlen (uw_data w)) ws ps →
  zlen (ring_prepared (io_ring io)) + zlen ws ≤ ring_entries (io_ring io) →
  wpx (uring_prepare_writes fd i ws ps) io (λ '(n, ps') io', io_initialized io' = io_initialized io ∧ serene (io_ring io) (io_ring io') ∧
    ring_flight (io_ring io') = ring_flight (io_ring io) ∧
    ring_prepared (io_ring io') = ring_prepared (io_ring io) ++ requests fd i ws ps' ∧ n = zlen (requests fd i ws ps') ∧
    completed_bytes <$> ps' = completed_bytes <$> ps ∧ Forall2 progress_ok ws ps' ∧
    (n = 0 → Forall2 (λ w c, c = zlen (uw_data w)) ws (completed_bytes <$> ps)) ∧ n ≤ Z.of_nat (left_over ws ps)) (λ _, False).
Proof.
  intros Hc. revert i io. induction Hc as [|w st ws ps Hw _ IH]; intros i io Hroom; cbn [uring_prepare_writes].
  { apply wpx_ret. split; [done|]. split; [apply serene_refl|]. cbn. rewrite app_nil_r. by split_and!. }
  rewrite zlen_cons in Hroom. pose proof (zlen_nonneg ws). destruct (Z.eqb_spec (completed_bytes st) (zlen (uw_data w))) as [E|E].
  - eapply wpx_stepx; [apply IH; lia|]. intros [n ps'] io' (Ei & Hq & Hf & Hp & Hn & Hcs & Hok & Hall & Hle). apply wpx_ret. cbn.
    split; [done|]. split; [done|]. split; [done|]. split; [done|]. split; [done|]. rewrite Hcs. split; [done|]. split.
    + constructor; [|done]. split; cbn; lia.
    + split; [|lia]. intros En. constructor; [done|by apply Hall].
  - cbv zeta. set (req := if INT_MAX <? _ then _ else _).
    assert (0 < req ≤ zlen (uw_data w) - completed_bytes st) as Hreq by (unfold req, INT_MAX; destruct (Z.ltb_spec (2 ^ 31 - 1) (zlen (uw_data w) - completed_bytes st)); lia).
    apply step_entry; [lia|]. intros u Hq Hfl Hp. pose proof Hq as (_ & _ & He).
    eapply wpx_stepx; [apply IH; cbn; rewrite Hp, zlen_app, He; change (zlen [_]) with 1; lia|].
    intros [n ps'] io' (Ei & Hq' & Hf' & Hp' & Hn & Hcs & Hok & Hall & Hle). apply wpx_ret. cbn in *. 
    rewrite (proj2 (Z.eqb_neq req 0)) by lia. pose proof (zlen_nonneg (requests fd (i + 1) ws ps')).
    split; [done|]. split; [by eapply serene_trans|]. split; [congruence|]. split; [rewrite Hp', Hp, <- app_assoc; done|].
    split; [rewrite (proj2 (Z.ltb_ge n 0)) by lia; rewrite zlen_app; change (zlen [_]) with 1; lia|]. split; [by rewrite Hcs|].
    split; [constructor; [split; cbn; lia|done]|]. rewrite (proj2 (Z.ltb_ge n 0)) by lia. lia.
Qed.

Lemma submit_loop_spec fuel (Q : list io_uring_sqe) k io : 0 ≤ k ≤ zlen Q →
  ring_prepared (io_ring io) = drop (Z.to_nat k) Q → ring_flight (io_ring io) = take (Z.to_nat k) Q →
  (Z.to_nat (zlen Q - k) + ring_interruptions (io_ring io) ≤ fuel)%nat →
  wpx (submit_loop fuel (zlen Q) k) io (λ '(r, n) io', io_initialized io' = io_initialized io ∧ serene (io_ring io) (io_ring io') ∧ 0 ≤ n ≤ zlen Q ∧
    ring_flight (io_ring io') = take (Z.to_nat n) Q ∧ ring_prepared (io_ring io') = drop (Z.to_nat n) Q ∧
    (r = 0 ∧ n = zlen Q ∨ r = -1 ∧ ¬ ring_healthy (io_ring io))) (λ _, False).
Proof.
  revert k io. induction fuel as [|fuel IH]; intros k io Hk Hp Hf Hfuel; cbn [submit_loop].
  { rewrite (proj2 (Z.ltb_ge k (zlen Q))) by lia. apply wpx_ret. split; [done|]. split; [apply serene_refl|]. split; [done|]. split; [done|]. split; [done|].
    left. split; [done|lia]. }
  destruct (Z.ltb_spec k (zlen Q)).
  2:{ apply wpx_ret. split; [done|]. split; [apply serene_refl|]. split; [done|]. split; [done|]. split; [done|]. left. split; [done|lia]. }
  eapply step_ring; [apply submit_law|]. intros r u (Hs & Hfiles & He & Hint & Hr & Hh).
  assert (serene (io_ring io) u) as Hq by (by split_and!).
  assert (ring_prepared (io_ring io) ≠ []) as Hne by (rewrite Hp; intros E; apply (f_equal List.length) in E; rewrite length_drop in E; cbn in E; unfold zlen in *; lia).
  destruct (Z.eqb_spec r (- EINTR)) as [->|Hnint].
  { cbn in Hr. destruct Hr as [Hfl Hp2]. specialize (Hint eq_refl). eapply wpx_mono; [apply (IH k); cbn; [done|congruence|congruence|lia]| |done].
    intros [r n] io' (Ei & Hq' & Hn & Hfl' & Hp' & Hr). cbn in *. split; [done|]. split; [by eapply serene_trans|]. split; [done|]. split; [done|]. split; [done|].
    destruct Hr as [?|[-> Hno]]; [by left|right]. split; [done|]. intros Hhu. by apply Hno, Hs. }
  assert (0 < r ∨ ¬ ring_healthy (io_ring io)) as Hr2.
  { destruct (Z.lt_ge_cases 0 r); [by left|right]. intros Hhu. destruct (Hh Hhu Hne); [lia|done]. }
  destruct (Z.ltb_spec r 0).
  { rewrite (proj2 (Z.ltb_ge 0 r)) in Hr by lia. destruct Hr as [Hfl Hp2]. apply wpx_ret. split; [done|]. split; [done|]. split; [done|].
    cbn. split; [congruence|]. split; [congruence|]. right. split; [done|]. destruct Hr2; [lia|done]. }
  destruct (Z.eqb_spec r 0) as [->|Hr0].
  { cbn in Hr. destruct Hr as [Hfl Hp2]. apply wpx_ret. split; [done|]. split; [done|]. split; [done|].
    cbn. split; [congruence|]. split; [congruence|]. right. split; [done|]. destruct Hr2; [lia|done]. }
  rewrite (proj2 (Z.ltb_lt 0 r)) in Hr by lia. destruct Hr as (Hle & Hfl & Hp2). rewrite Hp in *.
  assert (zlen (drop (Z.to_nat k) Q) = zlen Q - k) as Hld by (unfold zlen in *; rewrite length_drop; lia). destruct Hs as [Hs1 Hs2].
  eapply wpx_mono; [apply (IH (k + r)); cbn| |done].
  - lia.
  - rewrite Hp2, drop_drop. f_equal. lia.
  - rewrite Hfl, Hf, take_take_drop. f_equal. lia.
  - lia.
  - intros [r2 n] io' (Ei & Hq' & Hn & Hfl' & Hp' & Hr3). cbn in *. split; [done|]. split; [by eapply serene_trans|]. split; [done|]. split; [done|]. split; [done|].
    destruct Hr3 as [?|[-> Hno]]; [by left|right]. split; [done|]. auto.
Qed.

Lemma requests_in fd b ws ps s : s ∈ requests fd b ws ps →
  ∃ j w st, ws !! j = Some w ∧ ps !! j = Some st ∧ requested_bytes st ≠ 0 ∧ s = request fd (b + Z.of_nat j) w st.
Proof.
  revert b ps. induction ws as [|w ws IH]; intros b [|st ps] Hs; cbn in Hs; try by apply elem_of_nil in Hs.
  apply elem_of_app in Hs as [Hs|Hs].
  - destruct (Z.eqb_spec (requested_bytes st) 0); [by apply elem_of_nil in Hs|]. apply list_elem_of_singleton in Hs as ->.
    exists O, w, st. rewrite Z.add_0_r. by split_and!.
  - destruct (IH _ _ Hs) as (j & w' & st' & Hw & Hst & Hne & ->). exists (S j), w', st'. split_and!; [done|done|done|].
    f_equal. lia.
Qed.

Lemma requests_done fd b ws ps j w st st' : ws !! j = Some w → ps !! j = Some st → requested_bytes st ≠ 0 → requested_bytes st' = 0 →
  requests fd b ws ps ≡ₚ request fd (b + Z.of_nat j) w st :: requests fd b ws (<[j := st']> ps).
Proof.
  revert b ps j. induction ws as [|w0 ws IH]; intros b [|st0 ps] j Hw Hst Hne Hz; [done..|]. destruct j as [|j].
  - injection Hw as ->. injection Hst as ->. cbn. rewrite (proj2 (Z.eqb_neq _ 0)), Hz by done. cbn. by rewrite Z.add_0_r.
  - cbn. rewrite (IH (b + 1) ps j) by done. replace (b + 1 + Z.of_nat j) with (b + Z.of_nat (S j)) by lia.
    symmetry. apply Permutation_middle.
Qed.

(** The positions before every block. *)
Definition before (ws : list kvs_uring_write_t) (n : nat) : Prop := Forall (λ w, Z.of_nat n ≤ uw_offset w) ws.

Lemma requests_of fd b ws ps : Forall2 progress_ok ws ps → Forall (request_of (before ws) fd) (requests fd b ws ps).
Proof.
  intros Hok. apply Forall_forall. intros s (j & w & st & Hw & Hst & _ & ->)%requests_in. split; [done|]. intros n Hn.
  unfold before in Hn. rewrite Forall_lookup in Hn. specialize (Hn j w Hw). destruct (Forall2_lookup_lr _ _ _ _ _ _ Hok Hw Hst) as [? _]. lia.
Qed.

Lemma left_over_more ws ps j w st st' : ws !! j = Some w → ps !! j = Some st →
  completed_bytes st ≤ completed_bytes st' ≤ zlen (uw_data w) →
  (left_over ws (<[j := st']> ps) + Z.to_nat (completed_bytes st' - completed_bytes st) = left_over ws ps)%nat.
Proof.
  revert ps j. induction ws as [|w0 ws IH]; intros [|st0 ps] j Hw Hst Hle; [done..|]. destruct j as [|j].
  - injection Hw as ->. injection Hst as ->. cbn. lia.
  - change (<[S j := st']> (st0 :: ps)) with (st0 :: <[j := st']> ps). cbn [left_over]. rewrite <- (IH ps j) by done. lia.
Qed.

(** One completion, by its result. *)
Lemma account_spec ws ps j w st fd i f d0 u res u' (err : bool) :
  batch_ok ws → Forall2 progress_ok ws ps → ws !! j = Some w → ps !! j = Some st → requested_bytes st ≠ 0 →
  ring_fds u !! fd = Some i → scribbled (before ws) i d0 (ring_data u) →
  (err = false → ring_data u = <[i := parts ws (completed_bytes <$> ps) f]> d0) →
  interrupted u res u' → ring_step u u' → completed (sqe_op (request fd (Z.of_nat j) w st)) u res u' →
  let '(ps', err') := account (Z.of_nat j) res ps err in
  ∃ st', ps' = <[j := st']> ps ∧ requested_bytes st' = 0 ∧ completed_bytes st ≤ completed_bytes st' ≤ zlen (uw_data w) ∧
    scribbled (before ws) i d0 (ring_data u') ∧ (err' = true → err = true ∨ ¬ ring_healthy u) ∧
    (err' = false → err = false ∧ ring_data u' = <[i := parts ws (completed_bytes <$> ps') f]> d0 ∧
       (left_over ws ps' + ring_interruptions u' < left_over ws ps + ring_interruptions u)%nat).
Proof.
  intros (_ & Hpair & Hws) Hok Hw Hst Hne Hi Hscr0 Hdata Hint [_ Hstep] Hc. pose proof (Forall2_lookup_lr _ _ _ _ _ _ Hok Hw Hst) as [Hcb Hrb].
  pose proof Hws as Hws'. rewrite Forall_lookup in Hws'. destruct (Hws' j w Hw) as (Hne' & Ho & Hmax).
  set (piece := take (Z.to_nat (requested_bytes st)) (drop (Z.to_nat (completed_bytes st)) (uw_data w))) in *.
  assert (zlen piece = requested_bytes st) as Hpl by (unfold piece, zlen in *; rewrite length_take, length_drop; lia).
  destruct (scribbled_file _ _ _ _ Hscr0) as [g Hg].
  assert (scribbled (before ws) i d0 (ring_data u')) as Hscr.
  { eapply scribbled_trans; [exact Hscr0|]. eapply completed_scribbled; [exact Hi|exact Hg| |exact Hc]. split; [done|].
    intros n Hn. unfold before in Hn. rewrite Forall_lookup in Hn. specialize (Hn j w Hw). lia. }
  unfold account, znth. rewrite (proj2 (Z.ltb_ge (Z.of_nat j) 0)), Nat2Z.id, Hst by lia. rewrite (proj2 (Z.eqb_neq _ 0)) by done.
  cbv zeta. unfold zupd. rewrite Nat2Z.id.
  destruct Hc as (k & Hk & Hstored & Hres & Hzero & Hgood). fold piece in Hk, Hstored, Hgood. unfold stored in Hstored.
  rewrite Hi in Hstored, Hgood. cbn in Hstored, Hgood. rewrite Hg in Hstored, Hgood. cbn in Hstored, Hgood.
  pose proof (left_over_more ws ps j w st (Progress (completed_bytes st) 0) Hw Hst ltac:(cbn; lia)) as Hleft0. cbn in Hleft0.
  destruct (Z.eqb_spec res (- EINTR)) as [->|Hnint].
  { exists (Progress (completed_bytes st) 0). split; [done|]. split; [done|]. cbn. split; [lia|]. split; [done|]. split; [by left|].
    intros ->. split; [done|]. rewrite Hzero in Hstored by done. specialize (Hint eq_refl). split; [|lia].
    rewrite list_fmap_insert. cbn. rewrite list_insert_id by (by rewrite list_lookup_fmap, Hst). by rewrite <- Hdata, Hstored. }
  destruct ((res <=? 0) || (requested_bytes st <? res)) eqn:Ebad.
  { exists (Progress (completed_bytes st) 0). split; [done|]. split; [done|]. cbn. split; [lia|]. split; [done|]. split; [|done]. intros _. right.
    intros Hh. destruct (Hgood Hh) as [Hpos|]; [by eexists| | |done].
    - intros E. rewrite E in Hpl. cbn in Hpl. change (zlen []) with 0 in Hpl. lia.
    - specialize (Hres ltac:(lia)). apply orb_true_iff in Ebad as [?%Z.leb_le|?%Z.ltb_lt]; [lia|]. unfold zlen in Hpl. lia. }
  apply orb_false_iff in Ebad as [Hpos%Z.leb_gt Hle%Z.ltb_ge]. specialize (Hres ltac:(lia)).
  pose proof (left_over_more ws ps j w st (Progress (completed_bytes st + res) 0) Hw Hst ltac:(cbn; lia)) as Hleft. cbn in Hleft.
  exists (Progress (completed_bytes st + res) 0). split; [done|]. split; [done|]. cbn. split; [lia|]. split; [done|]. split; [by left|].
  intros ->. split; [done|]. split; [|lia]. rewrite decide_False in Hstored by lia. specialize (Hdata eq_refl).
  assert (g = parts ws (completed_bytes <$> ps) f) as -> by (rewrite Hdata, lookup_insert_eq in Hg; congruence).
  rewrite Hstored, Hdata, insert_insert_eq. f_equal. unfold piece. rewrite take_take. replace (k `min` Z.to_nat (requested_bytes st))%nat with (Z.to_nat res) by lia.
  rewrite list_fmap_insert. cbn. apply parts_more; [done| | |done|by rewrite list_lookup_fmap, Hst|lia|lia].
  - eapply Forall_impl; [exact Hws|]. cbv beta. tauto.
  - apply Forall2_fmap_r. eapply Forall2_impl; [exact Hok|]. intros w' st' [? _]. done.
Qed.

(** ** The rounds *)

Lemma receive_loop_spec pending ws ps fd i f d0 uz io (err : bool) :
  batch_ok ws → List.length (ring_flight (io_ring io)) = pending → ring_flight (io_ring io) ≡ₚ requests fd 0 ws ps →
  Forall2 progress_ok ws ps → ring_fds (io_ring io) !! fd = Some i → io_initialized io = true →
  (ring_healthy uz → ring_healthy (io_ring io)) → (err = true → ¬ ring_healthy uz) → scribbled (before ws) i d0 (ring_data (io_ring io)) →
  (err = false → ring_data (io_ring io) = <[i := parts ws (completed_bytes <$> ps) f]> d0) →
  wpx (receive_loop pending ps err) io (λ r io', ring_step (io_ring io) (io_ring io') ∧ ring_named (io_ring io) (io_ring io') ∧
    ring_flight (io_ring io') = [] ∧ scribbled (before ws) i d0 (ring_data (io_ring io')) ∧
    match r with
    | None => io_initialized io' = false ∧ ¬ ring_healthy uz
    | Some (ps', err') => io_initialized io' = true ∧ ring_entries (io_ring io') = ring_entries (io_ring io) ∧
        ring_prepared (io_ring io') = ring_prepared (io_ring io) ∧ Forall2 progress_ok ws ps' ∧ (err' = true → ¬ ring_healthy uz) ∧
        (err' = false → err = false ∧ ring_data (io_ring io') = <[i := parts ws (completed_bytes <$> ps') f]> d0 ∧
          (left_over ws ps' + ring_interruptions (io_ring io') + pending ≤ left_over ws ps + ring_interruptions (io_ring io))%nat)
    end) (λ _, ¬ ring_healthy uz).
Proof.
  intros Hb. revert ps err io. induction pending as [|pending IH]; intros ps err io Hlen Hperm Hok Hi Hini Hz Herr Hscr Hdata; cbn [receive_loop].
  { apply wpx_ret. split; [apply ring_step_refl|]. split; [apply ring_named_refl|]. split; [by apply nil_length_inv|]. split; [done|].
    split; [done|]. split; [done|]. split; [done|]. split; [done|]. split; [done|]. intros He. split; [done|]. split; [by apply Hdata|lia]. }
  eapply wpx_stepx; [eapply wpx_mono; [apply uring_receive_spec; intros E; by rewrite E in Hlen|done|done]|].
  intros [[index res]|] io1 (Ei & Hs & Hn & He & Hp & Hr).
  - destruct Hr as (s & Hfl & -> & Hint & Hcomp). pose proof (Permutation_length Hfl) as Hl1. rewrite Hperm in Hfl.
    assert (s ∈ requests fd 0 ws ps) as (j & w & st & Hw & Hst & Hne & ->)%requests_in by (rewrite Hfl; by left).
    cbn [user_data request] in *. rewrite Z.add_0_l in *. 
    pose proof (account_spec ws ps j w st fd i f d0 _ _ _ err Hb Hok Hw Hst Hne Hi Hscr Hdata Hint Hs Hcomp) as Hacc.
    destruct (account (Z.of_nat j) res ps err) as [ps' err'].
    destruct Hacc as (st' & -> & Hreq & Hcb & Hscr' & Hbad & Hgood).
    pose proof (requests_done fd 0 ws ps j w st st' Hw Hst Hne Hreq) as Hdone. rewrite Z.add_0_l in Hdone.
    eapply wpx_mono; [apply (IH (<[j := st']> ps) err' io1)| |done].
    + cbn in Hl1. lia.
    + rewrite Hdone in Hfl. by apply Permutation_cons_inv in Hfl.
    + rewrite <- (list_insert_id ws j w) by done. apply Forall2_insert; [exact Hok|].
      pose proof (Forall2_lookup_lr _ _ _ _ _ _ Hok Hw Hst) as [? _]. split; lia.
    + destruct Hn as (_ & -> & _). done.
    + congruence.
    + intros Hu. by apply Hs, Hz.
    + intros ->. destruct (Hbad eq_refl) as [->|Hno]; [by apply Herr|]. intros Hu. by apply Hno, Hz.
    + done.
    + intros ->. by destruct (Hgood eq_refl) as (_ & ? & _).
    + intros r io2 (Hs2 & Hn2 & Hf2 & Hscr2 & Hr2). split; [by eapply ring_step_trans|]. split; [by eapply ring_named_trans|]. split; [done|]. split; [done|].
      destruct r as [[ps2 err2]|]; [|done]. destruct Hr2 as (? & ? & ? & Hok2 & Hbad2 & Hgood2). split; [done|]. split; [congruence|]. split; [congruence|].
      split; [done|]. split; [done|]. intros He2. destruct (Hgood2 He2) as (-> & Hd2 & Hm2).
      destruct (Hgood eq_refl) as (-> & _ & Hm). split; [done|]. split; [done|lia].
  - destruct Hr as (Ed & Ef & Hno). assert (¬ ring_healthy uz) as Hnz by (intros Hu; by apply Hno, Hz).
    assert (ring_fds (io_ring io1) !! fd = Some i) as Hi1 by (destruct Hn as (_ & -> & _); done).
    eapply wpx_stepx; [eapply wpx_mono; [apply (abort_spec (scribbled (before ws) i d0) io1)|done|]|].
    + rewrite Ef, Hlen. done.
    + rewrite Ef, Hperm. eapply Forall_impl; [by apply (requests_of fd 0 ws ps)|]. intros s. by apply request_harmless.
    + by rewrite Ed.
    + intros ? Hno1. cbv beta in Hno1. done.
    + intros _ io2 (Ei2 & Hs2 & Hn2 & Hf2 & Hscr2). apply wpx_ret. split; [by eapply ring_step_trans|].
      split; [by eapply ring_named_trans|]. split; [done|]. split; [done|done].
Qed.

Lemma left_over_same ws ps ps' : completed_bytes <$> ps' = completed_bytes <$> ps → left_over ws ps' = left_over ws ps.
Proof.
  revert ps ps'. induction ws as [|w ws IH]; intros [|st ps] [|st' ps'] E; try done. cbn in *. injection E as -> E. by rewrite (IH ps ps').
Qed.

(** Nothing is prepared or in flight, and there is room for a batch. *)
Definition idle_ring u : Prop := ring_flight u = [] ∧ ring_prepared u = [] ∧ KVS_URING_QUEUE_DEPTH ≤ ring_entries u.

(** The queue is gone, or ready for the next call. *)
Definition settled io : Prop := if io_initialized io then idle_ring (io_ring io) else ring_flight (io_ring io) = [].

(** What a batch leaves. *)
Definition batch_done ws i f d0 uz io (r : Z) io' : Prop :=
  ring_step (io_ring io) (io_ring io') ∧ ring_named (io_ring io) (io_ring io') ∧ settled io' ∧
  (r = 0 ∧ io_initialized io' = true ∧ ring_data (io_ring io') = <[i := pwrites ws f]> d0 ∨
   r = -1 ∧ ¬ ring_healthy uz ∧ scribbled (before ws) i d0 (ring_data (io_ring io'))).

Lemma write_rounds_spec fuel ws ps fd i f d0 uz io :
  batch_ok ws → ring_fds (io_ring io) !! fd = Some i → io_initialized io = true → idle_ring (io_ring io) →
  (ring_healthy uz → ring_healthy (io_ring io)) → Forall2 (λ w st, 0 ≤ completed_bytes st ≤ zlen (uw_data w)) ws ps →
  scribbled (before ws) i d0 (ring_data (io_ring io)) → ring_data (io_ring io) = <[i := parts ws (completed_bytes <$> ps) f]> d0 →
  (left_over ws ps + ring_interruptions (io_ring io) ≤ fuel)%nat →
  wpx (write_rounds fuel fd ws ps) io (batch_done ws i f d0 uz io) (λ _, ¬ ring_healthy uz).
Proof.
  intros Hb. revert ps io. induction fuel as [|fuel IH]; intros ps io Hi Hini (Hfl & Hpr & He) Hz Hps Hscr Hdata Hfuel; cbn [write_rounds].
  all: eapply wpx_stepx; [eapply wpx_mono; [apply prepare_spec; [exact Hps|rewrite Hpr, zlen_nil; destruct Hb; lia]|done|by intros ? []]|].
  all: intros [n ps1] io1 (Ei & (Hs1 & (Hn1 & Hd1) & He1) & Hf1 & Hp1 & Hn & Hcs & Hok & Hall & Hle); pose proof (zlen_nonneg (requests fd 0 ws ps1)).
  all: rewrite (proj2 (Z.ltb_ge n 0)) by lia.
  all: assert (n = 0 → batch_done ws i f d0 uz io 0 io1) as Hdone by (intros En; split; [done|]; split; [done|]; split;
    [unfold settled; rewrite Ei, Hini; split; [congruence|]; split; [rewrite Hp1, Hpr; apply zlen_zero; cbn; lia|lia]|];
    left; split; [done|]; split; [congruence|]; rewrite Hd1, Hdata; f_equal; apply parts_all;
    [by apply Hall|destruct Hb as (_ & _ & Hws); eapply Forall_impl; [exact Hws|]; cbv beta; tauto]).
  { assert (n = 0) as En by lia. rewrite En. apply wpx_ret. by apply Hdone. }
  destruct (Z.eqb_spec n 0); [apply wpx_ret; by apply Hdone|]. rewrite Hpr in Hp1. cbn [app] in Hp1. set (Q := requests fd 0 ws ps1) in *.
  unfold uring_submit_prepared. eapply wpx_stepx.
  { apply step_get. eapply wpx_mono; [rewrite Hn; apply (submit_loop_spec _ Q 0 io1); [lia|exact Hp1|rewrite Hf1; exact Hfl|lia]|done|by intros ? []]. }
  intros [r cnt] io2 (Ei2 & (Hs2 & (Hn2 & Hd2) & He2) & Hcnt & Hf2 & Hp2 & Hr).
  assert (ring_fds (io_ring io2) !! fd = Some i) as Hi2 by (destruct Hn1 as (_ & E1 & _), Hn2 as (_ & E2 & _); congruence).
  assert (Forall (request_of (before ws) fd) Q) as HQ by (by apply requests_of).
  assert (ring_data (io_ring io2) = ring_data (io_ring io)) as Hd12 by congruence.
  assert (ring_step (io_ring io) (io_ring io2)) as Hs12 by (by eapply ring_step_trans).
  assert (ring_named (io_ring io) (io_ring io2)) as Hn12 by (by eapply ring_named_trans).
  destruct Hr as [[-> Ecnt]|[-> Hno]]; cbn [Z.ltb Z.compare].
  - (* everything was submitted *)
    rewrite Ecnt in Hf2, Hp2. replace (Z.to_nat (zlen Q)) with (List.length Q) in Hf2, Hp2 by (unfold zlen; lia).
    rewrite firstn_all in Hf2. rewrite drop_all in Hp2.
    eapply wpx_stepx.
    { apply (receive_loop_spec _ ws ps1 fd i f d0 uz io2 false Hb); try done.
      - rewrite Hf2, Ecnt. unfold zlen. lia.
      - by rewrite Hf2.
      - congruence.
      - intros Hu. by apply Hs12, Hz.
      - by rewrite Hd12.
      - intros _. by rewrite Hd12, Hcs. }
    intros [[ps3 err]|] io3 (Hs3 & Hn3 & Hf3 & Hscr3 & Hr3).
    + destruct Hr3 as (Ei3 & He3 & Hp3 & Hok3 & Hbad & Hgood).
      assert (idle_ring (io_ring io3)) as Hidle by (split; [done|]; split; [congruence|lia]).
      destruct err.
      * apply wpx_ret. split; [by eapply ring_step_trans|]. split; [by eapply ring_named_trans|]. split; [unfold settled; by rewrite Ei3|].
        right. split; [done|]. split; [by apply Hbad|done].
      * destruct (Hgood eq_refl) as (_ & Hd3 & Hm). rewrite (left_over_same ws ps ps1 Hcs) in Hm. destruct Hs12 as [Hh12 Hi12].
        eapply wpx_mono; [apply (IH ps3 io3); try done| |done].
        -- destruct Hn3 as (_ & E3 & _). congruence.
        -- intros Hu. by apply Hs3, Hh12, Hz.
        -- eapply Forall2_impl; [exact Hok3|]. by intros w st [? _].
        -- lia.
        -- intros r io4 (Hs4 & Hn4 & Hset & Hres). split; [|split; [|done]].
           ++ eapply ring_step_trans; [split; [exact Hh12|exact Hi12]|]. by eapply ring_step_trans.
           ++ eapply ring_named_trans; [exact Hn12|]. by eapply ring_named_trans.
    + destruct Hr3 as [Ei3 Hno]. apply wpx_ret. split; [by eapply ring_step_trans|]. split; [by eapply ring_named_trans|].
      split; [unfold settled; by rewrite Ei3|]. by right.
  - assert (¬ ring_healthy uz) as Hnz by (intros Hu; by apply Hno, Hs1, Hz).
    eapply wpx_stepx; [eapply wpx_mono; [apply (abort_spec (scribbled (before ws) i d0) io2)|done|by intros]|].
    + rewrite Hf2, length_take. unfold zlen in *. lia.
    + rewrite Hf2. apply Forall_take. eapply Forall_impl; [exact HQ|]. intros s. by apply request_harmless.
    + by rewrite Hd12.
    + intros _ io3 (Ei3 & Hs3 & Hn3 & Hf3 & Hscr3). apply wpx_ret. split; [by eapply ring_step_trans|]. split; [by eapply ring_named_trans|].
      split; [unfold settled; by rewrite Ei3|]. by right.
Qed.

(** ** A batch *)

Definition range_ok (w : kvs_uring_write_t) : Prop := 0 ≤ uw_offset w ∧ uw_offset w + zlen (uw_data w) ≤ INT64_MAX.

Lemma overlaps_spec w e : uw_data (e.1) ≠ [] → e.2 = uw_offset (e.1) + zlen (uw_data (e.1)) →
  overlaps w (uw_offset w + zlen (uw_data w)) e = false ↔ separate w (e.1).
Proof.
  intros Hne He. unfold overlaps, separate. rewrite (proj2 (Z.eqb_neq _ 0)) by (intros E%zlen_zero; done). cbn [negb andb].
  rewrite andb_false_iff, !Z.ltb_ge, He. lia.
Qed.

Lemma check_ranges_spec earlier ws :
  Forall (λ e, uw_data (e.1) ≠ [] ∧ e.2 = uw_offset (e.1) + zlen (uw_data (e.1))) earlier → Forall (λ w, uw_data w ≠ []) ws →
  check_ranges earlier ws = true ↔ Forall range_ok ws ∧ Forall (λ w, Forall (λ e, separate w (e.1)) earlier) ws ∧ pairwise ws.
Proof.
  revert earlier. induction ws as [|w ws IH]; intros earlier He Hne; cbn [check_ranges].
  { split; [|done]. intros _. split; [done|]. split; [done|]. intros j k w1 w2 _ Hj. done. }
  apply Forall_cons in Hne as [Hw Hne]. cbv zeta. rewrite !andb_true_iff, IH; [|by apply Forall_app; split; [done|constructor]|done].
  rewrite (proj2 (Z.eqb_neq (zlen (uw_data w)) 0)) by (intros E%zlen_zero; done). cbn [orb].
  rewrite !Forall_cons, pairwise_cons_iff, !Z.leb_le, negb_true_iff.
  assert (existsb (overlaps w (uw_offset w + zlen (uw_data w))) earlier = false ↔ Forall (λ e, separate w (e.1)) earlier) as ->.
  { clear IH. induction He as [|e earlier [He1 He2] He IHe]; cbn; [by split|]. rewrite orb_false_iff, Forall_cons, IHe, overlaps_spec by done. done. }
  unfold range_ok.
  assert (Forall (λ w0, Forall (λ e, separate w0 (e.1)) (earlier ++ [(w, uw_offset w + zlen (uw_data w))])) ws ↔
    Forall (λ w0, Forall (λ e, separate w0 (e.1)) earlier) ws ∧ Forall (separate w) ws) as ->; [|naive_solver].
  rewrite <- Forall_and. apply Forall_iff. intros w0. rewrite Forall_app, Forall_singleton. cbn. split; intros [? ?]; (split; [done|by apply separate_sym]).
Qed.

Lemma check_batch ws : Forall (λ w, uw_data w ≠ []) ws → zlen ws ≤ KVS_URING_QUEUE_DEPTH → check_ranges [] ws = true ↔ batch_ok ws.
Proof.
  intros Hne Hl. rewrite check_ranges_spec by done. unfold batch_ok, range_ok. split.
  - intros (Hr & _ & Hp). split; [done|]. split; [done|]. apply Forall_and. by split.
  - intros (_ & Hp & Hw). apply Forall_and in Hw as [_ Hw]. split; [done|]. split; [by apply Forall_true|done].
Qed.

Lemma left_over_none ws : left_over ws (replicate (List.length ws) (Progress 0 0)) = total_bytes ws.
Proof. induction ws as [|w ws IH]; [done|]. unfold total_bytes in *. cbn. rewrite IH. unfold zlen. lia. Qed.

(** What a call of [kvs_uring_io_write_batch] leaves; [ws] is not empty and neither are its blocks. *)
Definition batch_written ws fd i f io (r : Z) io' : Prop :=
  let u := io_ring io in let u' := io_ring io' in
  ring_step u u' ∧ ring_named u u' ∧ settled io' ∧
  (r = 0 ∧ batch_ok ws ∧ ring_append u fd = false ∧ io_initialized io' = true ∧ ring_data u' = <[i := pwrites ws f]> (ring_data u) ∨
   r = -1 ∧ batch_ok ws ∧ ring_append u fd = false ∧ ¬ ring_healthy u ∧ scribbled (before ws) i (ring_data u) (ring_data u') ∨
   r = -1 ∧ ¬ (batch_ok ws ∧ ring_append u fd = false) ∧ io_initialized io' = true ∧ ring_data u' = ring_data u).

Lemma write_batch_spec fd ws i f io :
  io_initialized io = true → idle_ring (io_ring io) → 0 ≤ fd → ring_fds (io_ring io) !! fd = Some i → ring_data (io_ring io) !! i = Some f →
  ws ≠ [] → Forall (λ w, uw_data w ≠ []) ws →
  wpx (kvs_uring_io_write_batch fd ws) io (batch_written ws fd i f io) (λ _, ¬ ring_healthy (io_ring io)).
Proof.
  intros Hini Hidle Hfd Hi Hf Hne Hd. unfold kvs_uring_io_write_batch. apply step_get. unfold id.
  rewrite Hini, (proj2 (Z.ltb_ge fd 0)) by done. cbn [negb orb].
  destruct (Z.ltb_spec KVS_URING_QUEUE_DEPTH (zlen ws)).
  { apply wpx_ret. split; [apply ring_step_refl|]. split; [apply ring_named_refl|]. split; [unfold settled; by rewrite Hini|].
    right; right. split; [done|]. split; [|done]. intros [[Hl _] _]. lia. }
  destruct (Z.eqb_spec (zlen ws) 0) as [E%zlen_zero|_]; [done|].
  eapply step_ring; [apply getfl_law|]. intros flags u (Hs & [Hn Hdata] & He & Hfl & Hp & Hr). destruct Hidle as (Hfl0 & Hp0 & He0).
  assert (idle_ring u) as Hidle by (split; [congruence|]; split; [congruence|lia]).
  destruct flags as [append|].
  2:{ apply wpx_ret. split; [done|]. split; [done|]. split; [unfold settled; by rewrite Hini|].
      destruct (decide (ring_append (io_ring io) fd = false)) as [Ha|Ha].
      - destruct (check_ranges [] ws) eqn:Ec.
        + apply check_batch in Ec; [|done|done]. right; left. split; [done|]. split; [done|]. split; [done|]. split.
          * intros Hh. specialize (Hr Hh). congruence.
          * cbn [io_ring]. rewrite Hdata. by eapply scribbled_refl.
        + right; right. split; [done|]. split; [|done]. intros [Hb _]. apply check_batch in Hb; [congruence|done|done].
      - right; right. split; [done|]. split; [|done]. tauto. }
  subst append. destruct (ring_append (io_ring io) fd) eqn:Ea.
  { apply wpx_ret. split; [done|]. split; [done|]. split; [unfold settled; by rewrite Hini|]. right; right. rewrite Ea. split; [done|]. split; [|done]. by intros []. }
  destruct (check_ranges [] ws) eqn:Ec; cbn [negb].
  2:{ apply wpx_ret. split; [done|]. split; [done|]. split; [unfold settled; by rewrite Hini|]. right; right. split; [done|]. split; [|done].
      intros [Hb _]. apply check_batch in Hb; [congruence|done|done]. }
  apply check_batch in Ec as Hb; [|done|done]. apply step_get. cbn [io_ring].
  assert (completed_bytes <$> replicate (List.length ws) (Progress 0 0) = replicate (List.length ws) 0) as Ez by apply fmap_replicate.
  eapply wpx_mono.
  - apply (write_rounds_spec _ ws _ fd i f (ring_data (io_ring io)) (io_ring io)); cbn [io_ring io_initialized]; try done.
    + destruct Hn as (_ & -> & _). done.
    + apply Hs.
    + apply Forall2_replicate_r; [done|]. apply Forall_true. intros w. cbn. pose proof (zlen_nonneg (uw_data w)). lia.
    + rewrite Hdata. by eapply scribbled_refl.
    + by rewrite Ez, parts_none, insert_id.
    + by rewrite left_over_none.
  - intros r io' (Hs2 & Hn2 & Hset & Hr2). cbn [io_ring] in *. split; [by eapply ring_step_trans|]. split; [by eapply ring_named_trans|]. split; [done|].
    destruct Hr2 as [(-> & Hi2 & Hd2)|(-> & Hh & Hscr)]; [left|right; left]; by rewrite ?Ea.
  - done.
Qed.

(** ** A synchronisation *)

Lemma submit_one_spec fuel io s :
  ring_flight (io_ring io) = [] → ring_prepared (io_ring io) = [s] → (ring_interruptions (io_ring io) ≤ fuel)%nat →
  wpx (submit_one_loop fuel) io (λ r io', io_initialized io' = io_initialized io ∧ serene (io_ring io) (io_ring io') ∧
    (r = 1 ∧ ring_flight (io_ring io') = [s] ∧ ring_prepared (io_ring io') = [] ∨
     r ≠ 1 ∧ ring_flight (io_ring io') = [] ∧ ¬ ring_healthy (io_ring io))) (λ _, False).
Proof.
  revert io. induction fuel as [|fuel IH]; intros io Hf Hp Hi; cbn [submit_one_loop].
  all: eapply step_ring; [by apply submit_law|]; intros r u (Hs & Hfiles & He & Hint & Hr & Hh); rewrite Hf, Hp in Hr.
  all: assert (serene (io_ring io) u) as Hq by (split; [done|]; by split).
  all: destruct (Z.eqb_spec r (- EINTR)) as [->|Hne].
  - specialize (Hint eq_refl). lia.
  - apply wpx_ret. split; [done|]. split; [done|]. cbn [io_ring]. destruct (Z.ltb_spec 0 r).
    + destruct Hr as (Hle & Hfl & Hpr). change (zlen [s]) with 1 in Hle. replace r with 1 in * by lia. by left.
    + right. split; [lia|]. split; [naive_solver|]. intros Hu. rewrite Hp in Hh. destruct (Hh Hu); [done|lia|done].
  - specialize (Hint eq_refl). change (0 <? - EINTR) with false in Hr. destruct Hr as [Hfl Hpr].
    eapply wpx_mono; [apply IH; cbn [io_ring]; [done|done|lia]| |done]. intros r io' (Ei & Hq2 & Hr2). cbn [io_ring io_initialized] in *. split; [done|].
    split; [by eapply serene_trans|]. destruct Hr2 as [?|(? & ? & Hnh)]; [by left|right]. split; [done|]. split; [done|]. intros Hu. by apply Hnh, Hs.
  - apply wpx_ret. split; [done|]. split; [done|]. cbn [io_ring]. destruct (Z.ltb_spec 0 r).
    + destruct Hr as (Hle & Hfl & Hpr). change (zlen [s]) with 1 in Hle. replace r with 1 in * by lia. by left.
    + right. split; [lia|]. split; [naive_solver|]. intros Hu. rewrite Hp in Hh. destruct (Hh Hu); [done|lia|done].
Qed.

(** What a call of [kvs_uring_io_sync] leaves. *)
Definition synced fd u (r : Z) io' : Prop :=
  ring_step u (io_ring io') ∧ ring_files u (io_ring io') ∧ settled io' ∧ (r = 0 ∧ io_initialized io' = true ∨ r = -1) ∧
  (ring_healthy u → is_Some (ring_fds u !! fd) → r = 0).

Lemma synced_after fd u1 u2 r io' : serene u1 u2 → synced fd u2 r io' → synced fd u1 r io'.
Proof.
  intros ([Hs Hl] & Hf & _) (Hs2 & Hf2 & Hset & Hr & Hgood). split; [by eapply ring_step_trans|]. split; [by eapply ring_files_trans|].
  split; [done|]. split; [done|]. intros Hh. destruct Hf as [(_ & Ef & _) _]. rewrite <- Ef. apply Hgood, Hs, Hh.
Qed.

Lemma synced_bad fd u io' : ring_step u (io_ring io') → ring_files u (io_ring io') → settled io' → ¬ ring_healthy u → synced fd u (-1) io'.
Proof. intros Hs Hf Hset Hh. split; [done|]. split; [done|]. split; [done|]. split; [by right|]. done. Qed.

Lemma fsync_harmless fd fds d x : harmless fds (λ d', d' = d) (Sqe (Some (FsyncOp fd)) x).
Proof. intros u res u' _ Hd [-> _]. done. Qed.

(** The completion of the request; an interrupted one is tried again. *)
Lemma sync_wait fd io (again : M S' Z) :
  io_initialized io = true → ring_flight (io_ring io) = [Sqe (Some (FsyncOp fd)) 0] → ring_prepared (io_ring io) = [] →
  KVS_URING_QUEUE_DEPTH ≤ ring_entries (io_ring io) →
  (∀ io', io_initialized io' = true → idle_ring (io_ring io') → (ring_interruptions (io_ring io') < ring_interruptions (io_ring io))%nat →
    wpx again io' (synced fd (io_ring io')) (λ _, ¬ ring_healthy (io_ring io'))) →
  wpx (k ← interruptions_left;
       '(result, cqe) ← wait_loop k;
       if result <? 0 then uring_abort_requests 1;; mret (-1) else
       on_ring (io_uring_cqe_seen cqe);;
       if cqe_res cqe =? - EINTR then again else mret (if negb (cqe_res cqe =? 0) then -1 else 0)) io
    (synced fd (io_ring io)) (λ _, ¬ ring_healthy (io_ring io)).
Proof.
  intros Hini Hfl Hpr He Hagain. apply step_get.
  eapply wpx_stepx; [eapply wpx_mono; [apply wait_loop_spec; [by rewrite Hfl|done]|done|by intros ? []]|].
  intros [r cqe] io1 (Ei & Hs & Hn & He1 & Hp1 & Hr). destruct (r <? 0).
  - destruct Hr as (Hd & Hf1 & Hh). rewrite Hfl in Hf1. eapply wpx_stepx.
    + eapply wpx_mono; [apply (abort_spec (λ d', d' = ring_data (io_ring io)) io1 1)| |intros ? _; exact Hh].
      * by rewrite Hf1.
      * rewrite Hf1. constructor; [apply fsync_harmless|done].
      * done.
      * intros a io2 Hd2. exact Hd2.
    + intros _ io2 (Ei2 & Hs2 & Hn2 & Hf2 & Hd2). apply wpx_ret. apply synced_bad; [by eapply ring_step_trans| |unfold settled; by rewrite Ei2|done].
      split; [by eapply ring_named_trans|done].
  - destruct Hr as (s & Hperm & _ & Hint & Hc). cbn [fst snd cqe_res] in Hint, Hc. rewrite Hfl in Hperm.
    apply Permutation_singleton_l in Hperm. injection Hperm as Hs0 Hf1. subst s. destruct Hc as [Hd Hgood].
    eapply step_ring; [apply cqe_seen_law|]. intros _ u2 (Hs2 & Hfiles2 & He2 & Hf2 & Hp2).
    assert (ring_step (io_ring io) u2) as Hs02 by (by eapply ring_step_trans).
    assert (ring_files (io_ring io) u2) as Hf02 by (eapply ring_files_trans; [by split|done]).
    assert (idle_ring u2) as Hidle by (split; [congruence|]; split; [congruence|lia]).
    destruct (Z.eqb_spec (cqe_res cqe) (- EINTR)) as [Eint|Hne].
    + specialize (Hint Eint). destruct Hs2 as [Hh2 Hl2]. eapply wpx_mono; [apply Hagain; cbn [io_ring io_initialized]; [congruence|done|lia]| |].
      * intros r2 io3 Hr3. eapply synced_after; [|exact Hr3]. cbn [io_ring]. split; [done|]. split; [done|lia].
      * intros ? Hh Hu. cbv beta in Hh. cbn [io_ring] in Hh. apply Hh, Hs02, Hu.
    + apply wpx_ret. split; [done|]. split; [done|]. split; [unfold settled; cbn; by rewrite Ei, Hini|]. cbn [io_initialized]. split.
      * destruct (cqe_res cqe =? 0); [left; split; [done|congruence]|by right].
      * intros Hh Hopen. destruct (Hgood Hh Hopen) as [->|]; done.
Qed.

Lemma uring_sync_loop_spec fuel fd io :
  io_initialized io = true → idle_ring (io_ring io) → (ring_interruptions (io_ring io) ≤ fuel)%nat →
  wpx (sync_loop fuel fd) io (synced fd (io_ring io)) (λ _, ¬ ring_healthy (io_ring io)).
Proof.
  revert io. induction fuel as [|fuel IH]; intros io Hini (Hfl & Hpr & He) Hfuel; cbn [sync_loop].
  all: apply step_entry; [rewrite Hpr, zlen_nil; unfold KVS_URING_QUEUE_DEPTH in He; lia|].
  all: intros u1 Hq1 Hf1 Hp1; rewrite Hfl in Hf1; rewrite Hpr in Hp1; cbn [app] in Hp1; rewrite Hini; apply step_get; cbn [io_ring].
  all: eapply wpx_stepx; [eapply wpx_mono; [by apply submit_one_spec|done|by intros ? []]|].
  all: intros r io2 (Ei2 & Hq2 & Hr2); cbn [io_ring io_initialized] in *; pose proof (serene_trans _ _ _ Hq1 Hq2) as Hq12.
  all: destruct Hr2 as [(-> & Hf2 & Hp2)|(Hne & Hf2 & Hh2)];
    [change (negb (1 =? 1)) with false; cbv iota|rewrite (proj2 (Z.eqb_neq _ _)) by done; cbn [negb]].
  2, 4: eapply wpx_stepx; [apply close_spec, Hf2|]; intros _ io3 (Ei3 & Hs3 & Hf3 & Hfl3); apply wpx_ret; destruct Hq12 as (Hs12 & Hf12 & _);
    apply synced_bad; [by eapply ring_step_trans|by eapply ring_files_trans|unfold settled; by rewrite Ei3|destruct Hq1 as [[Hh1 _] _]; auto].
  all: destruct Hq12 as ([Hh12 Hl12] & Hf12 & He12); eapply wpx_mono; [apply sync_wait; [done|done|done|lia|]| |].
  all: try (intros ? Hh Hu; cbv beta in Hh; by apply Hh, Hh12).
  all: try (intros r2 io3 Hr3; eapply synced_after; [|exact Hr3]; done).
  - intros io' _ _ Hlt. lia.
  - intros io' Hi' Hid' Hlt. apply IH; [done|done|lia].
Qed.

Lemma sync_spec fd io : io_initialized io = true → idle_ring (io_ring io) →
  wpx (kvs_uring_io_sync fd) io (λ r io', if fd <? 0 then r = -1 ∧ io' = io else synced fd (io_ring io) r io') (λ _, ¬ ring_healthy (io_ring io)).
Proof.
  intros Hini Hidle. unfold kvs_uring_io_sync. apply step_get. unfold id. rewrite Hini. cbn [negb orb].
  destruct (fd <? 0); [by apply wpx_ret|]. apply step_get. by apply uring_sync_loop_spec.
Qed.

(** What a batch leaves, in the words of [OsLaws]. *)
Lemma write_batch_as_law fd ws f i io :
  io_initialized io = true → idle_ring (io_ring io) → 0 ≤ fd → ring_fds (io_ring io) !! fd = Some i → ring_data (io_ring io) !! i = Some f →
  ring_append (io_ring io) fd = false → ws ≠ [] → batch_ok ws →
  wpx (kvs_uring_io_write_batch fd ws) io (λ r io', let u := io_ring io in let u' := io_ring io' in
    (ring_healthy u → ring_healthy u') ∧ ring_names u' = ring_names u ∧ ring_fds u' = ring_fds u ∧ ∃ i f', ring_fds u !! fd = Some i ∧
    ring_data u' = <[i := f']> (ring_data u) ∧
    if r <? 0 then ¬ ring_healthy u ∧
      (∀ n, Forall (λ w, Z.of_nat n ≤ uw_offset w) ws → (n ≤ List.length f)%nat → take n f' = take n f)
    else f' = pwrites ws f) (λ _, ¬ ring_healthy (io_ring io)).
Proof.
  intros Hini Hidle Hfd Hi Hf Ha Hne Hb. eapply wpx_mono; [apply (write_batch_spec fd ws i f io); try done| |done].
  - destruct Hb as (_ & _ & Hw). eapply Forall_impl; [exact Hw|]. intros w (? & _). done.
  - intros r io' ([Hh _] & (Hn & Hfds & _) & _ & Hr). cbv zeta. split; [done|]. split; [done|]. split; [done|]. exists i.
    destruct Hr as [(-> & _ & _ & _ & Hd)|[(-> & _ & _ & Hh2 & g & f' & Hg & Hd & Hk)|(-> & Hno & _)]].
    + exists (pwrites ws f). by split_and!.
    + assert (g = f) as -> by congruence. exists f'. split; [done|]. split; [done|]. split; [done|exact Hk].
    + by destruct Hno.
Qed.

Lemma uring_init_spec io : ring_flight (io_ring io) = [] →
  wpx kvs_uring_io_init io (λ r io', ring_step (io_ring io) (io_ring io') ∧ ring_files (io_ring io) (io_ring io') ∧
    if io_initialized io then r = -1 ∧ io' = io
    else r = 0 ∧ io_initialized io' = true ∧ idle_ring (io_ring io') ∨
         r = -1 ∧ io_initialized io' = false ∧ ring_flight (io_ring io') = [] ∧ ¬ ring_healthy (io_ring io)) (λ _, False).
Proof.
  intros Hfl. unfold kvs_uring_io_init. apply step_get. unfold id. destruct (io_initialized io) eqn:Ei.
  { apply wpx_ret. split; [apply ring_step_refl|]. split; [apply ring_files_refl|]. done. }
  eapply step_ring; [by apply queue_init_law|]. intros r u (Hs & Hf & Hfl2 & Hr & Hh). destruct (Z.ltb_spec r 0).
  - apply wpx_ret. split; [done|]. split; [done|]. right. split; [done|]. split; [done|]. split; [done|]. intros Hu. specialize (Hh Hu). lia.
  - split; [done|]. split; [done|]. left. destruct (Hr ltac:(lia)) as [Hp He]. done.
Qed.
End specs.

(** * A ring in memory

    A write stores at most three bytes, the newest request completes first, one entry is
    submitted at a time, and waiting is interrupted [mr_interruptions] times. *)

Record mem_ring := MemRing { mr_data : gmap Z bytes; mr_fds : gmap Z Z; mr_interruptions : nat; mr_entries : Z;
  mr_prepared : list io_uring_sqe; mr_flight : list io_uring_sqe }.

Definition mr_perform (op : option uring_op) (m : mem_ring) : gmap Z bytes * Z :=
  match op with
  | Some (WriteOp fd data position) =>
      match mr_fds m !! fd ≫= λ i, f ← mr_data m !! i; Some (i, f) with
      | Some (i, f) => (if bool_decide (data = []) then mr_data m else <[i := pwrite position (take 3 data) f]> (mr_data m), Z.of_nat (List.length data `min` 3))
      | None => (mr_data m, -9)
      end
  | Some (FsyncOp fd) => (mr_data m, if mr_fds m !! fd then 0 else -9)
  | None => (mr_data m, 0)
  end.

Definition mr_set_prepared (q : list io_uring_sqe) (m : mem_ring) : mem_ring :=
  MemRing (mr_data m) (mr_fds m) (mr_interruptions m) (mr_entries m) q (mr_flight m).

#[export] Instance mem_ring_ring : Ring mem_ring := {|
  ring_names _ := ∅;
  ring_data := mr_data;
  ring_fds := mr_fds;
  ring_append _ _ := false;
  ring_healthy _ := True;
  ring_interruptions := mr_interruptions;
  ring_entries := mr_entries;
  ring_prepared := mr_prepared;
  ring_flight := mr_flight;
  io_uring_queue_init n m := Ok 0 (MemRing (mr_data m) (mr_fds m) (mr_interruptions m) n [] (mr_flight m));
  io_uring_queue_exit m := Ok tt (MemRing (mr_data m) (mr_fds m) (mr_interruptions m) 0 [] (mr_flight m));
  io_uring_get_sqe m := if mr_entries m <=? zlen (mr_prepared m) then Ok None m
    else Ok (Some (List.length (mr_prepared m))) (mr_set_prepared (mr_prepared m ++ [blank_sqe]) m);
  io_uring_prep k op m := Ok tt (mr_set_prepared (alter (λ e, Sqe (Some op) (user_data e)) k (mr_prepared m)) m);
  io_uring_sqe_set_data64 k x m := Ok tt (mr_set_prepared (alter (λ e, Sqe (sqe_op e) x) k (mr_prepared m)) m);
  io_uring_submit m :=
    match mr_prepared m with
    | [] => Ok 0 m
    | s :: q => Ok 1 (MemRing (mr_data m) (mr_fds m) (mr_interruptions m) (mr_entries m) q (mr_flight m ++ [s]))
    end;
  io_uring_wait_cqe m :=
    match mr_interruptions m, rev (mr_flight m) with
    | S n, _ => Ok (- EINTR, Cqe 0 0) (MemRing (mr_data m) (mr_fds m) n (mr_entries m) (mr_prepared m) (mr_flight m))
    | O, [] => UB
    | O, s :: rest => let '(data, res) := mr_perform (sqe_op s) m in
        Ok (0, Cqe (user_data s) res) (MemRing data (mr_fds m) O (mr_entries m) (mr_prepared m) (rev rest))
    end;
  io_uring_cqe_seen _ m := Ok tt m;
  io_uring_register_sync_cancel _ m := Ok (- ENOENT) m;
  sys_fcntl_getfl _ m := Ok (Some false) m;
|}.

Lemma mr_perform_spec op m m' data res : mr_perform op m = (data, res) → mr_data m' = data → completed op m res m' ∧ res ≠ - EINTR.
Proof.
  unfold mr_perform, EINTR. intros Ep Ed. destruct op as [[fd bytes position|fd]|]; cbn.
  - unfold stored. cbn. destruct (mr_fds m !! fd ≫= λ i, f ← mr_data m !! i; Some (i, f)) as [[i f]|] eqn:E.
    + injection Ep as Ep <-. split; [|lia]. exists (List.length bytes `min` 3)%nat. split; [lia|]. split.
      * rewrite Ed, <- Ep. destruct bytes as [|b bytes]; [done|]. rewrite bool_decide_eq_false_2 by done.
        rewrite decide_False by (cbn; lia). do 2 f_equal. by rewrite <- take_take, (take_ge _ (List.length (b :: bytes))) by (rewrite length_take; lia).
      * split; [lia|]. split; [unfold EINTR; lia|]. intros _ _ Hne. left. destruct bytes; [done|cbn; lia].
    + injection Ep as <- <-. split; [|lia]. exists O. split; [lia|]. split; [done|]. split; [lia|]. split; [done|].
      intros _ [f Hf] _. destruct (mr_fds m !! fd) as [i|]; [|done]. cbn in *. by rewrite Hf in E.
  - injection Ep as <- <-. split; [|by destruct (mr_fds m !! fd)]. split; [done|]. intros _ [i ->]. by left.
  - injection Ep as <- <-. done.
Qed.

#[export] Instance mem_ring_laws : RingLaws mem_ring.
Proof.
  assert (∀ m : mem_ring, ring_step m m) as Hrefl by (by intros).
  assert (∀ m : mem_ring, interrupted m 0 m ∧ interrupted m 1 m ∧ interrupted m (- ENOENT) m) as Hnot by (by intros).
  split.
  - intros n u Hn Hf. unfold wp; cbn. split; [done|]. split; [done|]. split; [done|]. split; [|done]. intros _. done.
  - intros u Hf. done.
  - intros u. unfold wp; cbn. destruct (Z.leb_spec (mr_entries u) (zlen (mr_prepared u))); by split_and!.
  - intros k op u Hk. done.
  - intros k x u Hk. done.
  - intros u. unfold wp; cbn. destruct (mr_prepared u) as [|s q] eqn:E; [rewrite ?E; by split_and!|]. cbn. split; [done|]. split; [done|]. split; [done|].
    split; [done|]. split; [|by left]. split; [rewrite zlen_cons; pose proof (zlen_nonneg q); lia|]. by split.
  - intros u Hf. unfold wp; cbn in *. destruct (mr_interruptions u) as [|n] eqn:Ei.
    2:{ split; [split; [done|cbn; lia]|]. split; [done|]. split; [done|]. split; [done|]. split; [done|]. split; [done|]. split; [|done]. intros _. cbn. lia. }
    destruct (rev (mr_flight u)) as [|s rest] eqn:E; [by apply (f_equal (rev (A:=_))) in E; rewrite rev_involutive in E; apply Hf, E|].
    destruct (mr_perform (sqe_op s) u) as [data res] eqn:Ep. split; [split; [done|cbn; lia]|]. split; [done|]. split; [done|]. split; [done|]. cbn.
    edestruct (mr_perform_spec _ _ (MemRing data (mr_fds u) 0 (mr_entries u) (mr_prepared u) (rev rest)) _ _ Ep eq_refl) as [Hc Hne].
    exists s. split; [|split; [done|]; split; [by intros ?|exact Hc]]. pose proof (rev_involutive (mr_flight u)) as Er. rewrite E in Er. rewrite <- Er. cbn. by rewrite Permutation_app_comm.
  - intros c u. done.
  - intros i u. unfold wp; cbn. split_and!; try done. intros _. right. by left.
  - intros fd u. done.
Qed.

(** Two blocks of more than three bytes. *)
Definition demo_ring : kvs_uring_io_t (U := mem_ring) := UringIo true (MemRing {[7 := lit "abcdefghij"]} {[3 := 7]} 2 8 [] []).
Definition demo_blocks : list kvs_uring_write_t := [UringWrite (lit "ZYXWV") 10; UringWrite (lit "1234") 2].

Lemma demo_blocks_ok : batch_ok demo_blocks.
Proof.
  split; [done|]. split; [|repeat constructor; done]. unfold demo_blocks. rewrite !pairwise_cons_iff. split; [|split; [done|apply pairwise_nil]].
  apply Forall_singleton. right. done.
Qed.

Example demo_ring_run : ∃ io', kvs_uring_io_write_batch 3 demo_blocks demo_ring = Ok 0 io' ∧ mr_data (io_ring io') !! 7 = Some (lit "ab1234ghijZYXWV").
Proof. eexists. split; vm_compute; reflexivity. Qed.

(** * Properties *)

(** C33: a batch of the io_uring writer, submitted in rounds until every byte of every block
    is stored, with partial completions, interruptions and completions in any order,
    leaves the file exactly as if the blocks had been written one after another and
    returns 0; it returns -1 with the file as it was when the batch is refused (too
    many blocks, blocks that overlap or leave the range of file offsets, a descriptor
    opened for appending), and otherwise returns -1, or ends the process, only when the
    ring fails, having touched no byte before the first block.  No request is in
    flight when it returns: the queue is idle or gone. *)
Theorem uring_batch_exact {U} `{RingLaws U} fd ws i f (io : kvs_uring_io_t (U := U)) :
  io_initialized io = true → idle_ring (io_ring io) → 0 ≤ fd → ring_fds (io_ring io) !! fd = Some i → ring_data (io_ring io) !! i = Some f →
  ws ≠ [] → Forall (λ w, uw_data w ≠ []) ws →
  wpx (kvs_uring_io_write_batch fd ws) io (batch_written ws fd i f io) (λ _, ¬ ring_healthy (io_ring io)).
Proof. apply write_batch_spec. Qed.

Lemma uring_batch_exact_witness :
  batch_ok demo_blocks ∧ wpx (kvs_uring_io_write_batch 3 demo_blocks) demo_ring (batch_written demo_blocks 3 7 (lit "abcdefghij") demo_ring) (λ _, ¬ ring_healthy (io_ring demo_ring)).
Proof. split; [apply demo_blocks_ok|]. refine (uring_batch_exact 3 demo_blocks 7 (lit "abcdefghij") demo_ring _ _ _ _ _ _ _);
  [reflexivity|done|lia|reflexivity|reflexivity|done|repeat constructor; done]. Defined.


