(* ===== verification/Rdma.v ===== *)
(** The RDMA transport as the replication code uses it (include/rdma_transport.h).

    The calls of src/network/rdma_transport.c are an interface.  [RdmaLaws] states
    what the header documents of them on three observations: the messages taken from
    completed receives, the messages submitted, and all the messages the peer ever
    sends, of which the received ones are the first.  Any call may fail.  The interface
    includes [malloc] and [free] of the C library, which the replication code uses for
    its scratch block.  [script] is a transport that delivers what it is told to. *)

From Stdlib Require Import ZArith Lia.
From S2P Require Import Prelude.

Inductive kvs_rdma_event_type_t := KVS_RDMA_EVENT_ACCEPTING | KVS_RDMA_EVENT_ESTABLISHED | KVS_RDMA_EVENT_DISCONNECTED.
#[export] Instance kvs_rdma_event_type_eq_dec : EqDecision kvs_rdma_event_type_t.
Proof. solve_decision. Defined.
Record kvs_rdma_event_t := RdmaEvent { event_type : kvs_rdma_event_type_t; event_connection : option addr }.
Definition event_zero : kvs_rdma_event_t := RdmaEvent KVS_RDMA_EVENT_ACCEPTING None.

Inductive kvs_rdma_completion_type_t := KVS_RDMA_COMPLETION_SEND | KVS_RDMA_COMPLETION_RECV.
#[export] Instance kvs_rdma_completion_type_eq_dec : EqDecision kvs_rdma_completion_type_t.
Proof. solve_decision. Defined.
(** A completion and the bytes it points to; there are none for a send. *)
Record kvs_rdma_completion_t := RdmaCompletion { completion_type : kvs_rdma_completion_type_t; completion_data : bytes }.

(** Connections and listeners are addresses; [None] is a null pointer. *)
Class Rdma (T : Type) := {
  rdma_received : T → list bytes;
  rdma_submitted : T → list bytes;
  rdma_stream : T → list bytes;
  kvs_rdma_listener_create : M T (option addr);
  kvs_rdma_listener_start : option addr → bytes → Z → Z → M T Z;
  (** the result and [*listener] *)
  kvs_rdma_listener_close : option addr → M T (Z * option addr);
  (** the result, [*connection] and [*event] *)
  kvs_rdma_listener_poll : option addr → option addr → Z → Z → M T (Z * option addr * kvs_rdma_event_t);
  kvs_rdma_connection_start : option addr → bytes → Z → Z → M T (Z * option addr);
  kvs_rdma_connection_close : option addr → M T (Z * option addr);
  kvs_rdma_connection_disconnect : option addr → M T Z;
  kvs_rdma_connection_poll_event : option addr → Z → Z → M T (Z * kvs_rdma_event_t);
  kvs_rdma_connection_send : option addr → bytes → M T Z;
  kvs_rdma_connection_poll_completion : option addr → M T (Z * kvs_rdma_completion_t);
  kvs_rdma_connection_receive_next : option addr → M T Z;
  libc_malloc : Z → M T (option addr);
  libc_free : addr → M T unit;
}.

Definition traffic_same {T} `{Rdma T} (t t' : T) : Prop :=
  rdma_received t' = rdma_received t ∧ rdma_submitted t' = rdma_submitted t ∧ rdma_stream t' = rdma_stream t.

(** 0 or -1, as most calls return. *)
Definition status (r : Z) : Prop := r = 0 ∨ r = -1.

Class RdmaLaws (T : Type) `{Rdma T} : Prop := {
  listener_create_law t : wp kvs_rdma_listener_create t (λ _ t', traffic_same t t');
  listener_start_law l ip port backlog t : wp (kvs_rdma_listener_start l ip port backlog) t (λ r t', traffic_same t t' ∧ status r);
  listener_close_law l t : wp (kvs_rdma_listener_close l) t (λ '(r, l') t', traffic_same t t' ∧
    (r = 0 ∧ l' = None ∨ r = -1 ∧ l' = l));
  listener_poll_law l c n depth t : wp (kvs_rdma_listener_poll l c n depth) t (λ '(r, _, _) t', traffic_same t t' ∧ (r = 1 ∨ status r));
  connection_start_law c host port ms t : wp (kvs_rdma_connection_start c host port ms) t (λ '(r, c') t', traffic_same t t' ∧
    (r = 0 ∧ c' ≠ None ∨ r = -1));
  connection_close_law c t : wp (kvs_rdma_connection_close c) t (λ '(r, c') t', traffic_same t t' ∧
    (r = 0 ∧ c' = None ∨ r = -1 ∧ c' = c ∧ c ≠ None));
  disconnect_law c t : wp (kvs_rdma_connection_disconnect c) t (λ r t', traffic_same t t' ∧ status r);
  poll_event_law c n depth t : wp (kvs_rdma_connection_poll_event c n depth) t (λ '(r, _) t', traffic_same t t' ∧ (r = 1 ∨ status r));
  send_law c data t : wp (kvs_rdma_connection_send c data) t (λ r t', rdma_received t' = rdma_received t ∧
    rdma_stream t' = rdma_stream t ∧
    (r = 0 ∧ rdma_submitted t' = rdma_submitted t ++ [data] ∨ r = -1 ∧ rdma_submitted t' = rdma_submitted t));
  poll_completion_law c t : wp (kvs_rdma_connection_poll_completion c) t (λ '(r, completion) t',
    rdma_submitted t' = rdma_submitted t ∧ rdma_stream t' = rdma_stream t ∧
    (r = 1 ∧ completion_type completion = KVS_RDMA_COMPLETION_RECV ∧
       rdma_received t' = rdma_received t ++ [completion_data completion] ∧ rdma_received t' `prefix_of` rdma_stream t' ∨
     rdma_received t' = rdma_received t ∧ (r = 1 ∧ completion_type completion = KVS_RDMA_COMPLETION_SEND ∨ status r)));
  receive_next_law c t : wp (kvs_rdma_connection_receive_next c) t (λ r t', traffic_same t t' ∧ status r);
  libc_malloc_law n t : wp (libc_malloc n) t (λ _ t', traffic_same t t');
  libc_free_law p t : wp (libc_free p) t (λ _ t', traffic_same t t');
}.

(** * A transport with a script *)

(** The next results of the polls; [scr_up] says whether the other calls succeed. *)
Record script := Script {
  scr_received : list bytes;
  scr_submitted : list bytes;
  scr_events : list (option kvs_rdma_event_type_t);
  scr_completions : list (option kvs_rdma_completion_t);
  scr_up : bool;
}.

(** The data of the receives to come. *)
Definition script_incoming : list (option kvs_rdma_completion_t) → list bytes := omap (λ c,
  match c with
  | Some (RdmaCompletion KVS_RDMA_COMPLETION_RECV b) => Some b
  | _ => None
  end).

Definition script_call (t : script) : Z := if scr_up t then 0 else -1.
Definition script_event : M script (Z * kvs_rdma_event_t) := λ t,
  match scr_events t with
  | [] => Ok (0, event_zero) t
  | e :: l => Ok (match e with Some e => (1, RdmaEvent e (Some 1)) | None => (-1, event_zero) end)
                 (Script (scr_received t) (scr_submitted t) l (scr_completions t) (scr_up t))
  end.

#[export] Instance script_rdma : Rdma script := {|
  rdma_received := scr_received;
  rdma_submitted := scr_submitted;
  rdma_stream t := scr_received t ++ script_incoming (scr_completions t);
  kvs_rdma_listener_create := λ t, Ok (if scr_up t then Some 2 else None) t;
  kvs_rdma_listener_start l ip port backlog := λ t, Ok (script_call t) t;
  kvs_rdma_listener_close l := λ t, Ok (if scr_up t then (0, None) else (-1, l)) t;
  kvs_rdma_listener_poll l c n depth := '(r, e) ← script_event; mret (r, if r =? 1 then Some 1 else c, e);
  kvs_rdma_connection_start c host port ms := λ t, Ok (if scr_up t then (0, Some 1) else (-1, c)) t;
  kvs_rdma_connection_close c := λ t, Ok (if scr_up t then (0, None) else match c with None => (0, None) | Some _ => (-1, c) end) t;
  kvs_rdma_connection_disconnect c := λ t, Ok (script_call t) t;
  kvs_rdma_connection_poll_event c n depth := script_event;
  kvs_rdma_connection_send c data := λ t,
    if scr_up t then Ok 0 (Script (scr_received t) (scr_submitted t ++ [data]) (scr_events t) (scr_completions t) (scr_up t))
    else Ok (-1) t;
  kvs_rdma_connection_poll_completion c := λ t,
    match scr_completions t with
    | [] => Ok (0, RdmaCompletion KVS_RDMA_COMPLETION_SEND []) t
    | None :: l => Ok (-1, RdmaCompletion KVS_RDMA_COMPLETION_SEND []) (Script (scr_received t) (scr_submitted t) (scr_events t) l (scr_up t))
    | Some e :: l =>
        Ok (1, e) (Script (match completion_type e with
                           | KVS_RDMA_COMPLETION_RECV => scr_received t ++ [completion_data e]
                           | KVS_RDMA_COMPLETION_SEND => scr_received t
                           end) (scr_submitted t) (scr_events t) l (scr_up t))
    end;
  kvs_rdma_connection_receive_next c := λ t, Ok (script_call t) t;
  libc_malloc n := λ t, Ok (if scr_up t then Some 3 else None) t;
  libc_free p := λ t, Ok tt t;
|}.

Lemma script_status t : status (script_call t).
Proof. unfold script_call, status. destruct (scr_up t); auto. Qed.

Lemma script_event_law t : wp script_event t (λ '(r, _) t', traffic_same t t' ∧ (r = 1 ∨ status r)).
Proof. unfold wp, script_event, status. destruct (scr_events t) as [|[e|] l]; (split; [done|auto]). Qed.

#[export] Instance script_rdma_laws : RdmaLaws script.
Proof.
  split; intros.
  - done.
  - split; [done|apply script_status].
  - unfold wp. simpl. destruct (scr_up t); split; auto; done.
  - eapply wp_step; [apply script_event_law|]. intros [r e] t' Hr. by apply wp_ret.
  - unfold wp. simpl. destruct (scr_up t); split; auto; done.
  - unfold wp. simpl. destruct (scr_up t), c; (split; [done|]); auto.
  - split; [done|apply script_status].
  - apply script_event_law.
  - unfold wp. simpl. destruct (scr_up t); split; auto.
  - destruct t as [rec sub ev comp up]. unfold wp, status. cbn. destruct comp as [|[[[] b]|] l]; cbn.
    + split; [done|]. split; [done|]. auto.
    + split; [done|]. split; [done|]. auto.
    + rewrite <- app_assoc. split; [done|]. split; [done|]. left. split; [done|]. split; [done|]. split; [done|].
      exists (script_incoming l). by rewrite <- app_assoc.
    + split; [done|]. split; [done|]. auto.
  - split; [done|apply script_status].
  - done.
  - done.
Qed.
