(* ===== verification/MappedFile.v ===== *)
(** Read-only mappings of whole files, src/persistence/mapped_file.c.

    A mapping is the bytes of the file; an empty file is an object without a
    mapping.  [errno] is kept as far as the callers look at it: whether a failed
    open means that the file does not exist. *)

From Stdlib Require Import ZArith Lia.
From S2P Require Import Prelude Os.

(** [kvs_mapped_file_t] *)
Record kvs_mapped_file_t := MappedFile { mf_data : option bytes; mf_length : Z }.
Definition mapped_file_zero : kvs_mapped_file_t := MappedFile None 0.

(** The bytes a mapping gives access to. *)
Definition mf_bytes (file : kvs_mapped_file_t) : bytes := default [] (mf_data file).

Inductive mapped_result :=
  | MapOk (file : kvs_mapped_file_t)
  | MapNoEntry                        (** -1, [errno == ENOENT] *)
  | MapFailed.                        (** -1, another error *)

Section ops.
Context {D} `{Os D}.

Definition kvs_mapped_file_close (file : kvs_mapped_file_t) : M D (Z * kvs_mapped_file_t) :=
  r ← (if 0 <? mf_length file then sys_munmap (mf_length file) else mret 0);
  if r <? 0 then mret (-1, file) else mret (0, MappedFile None 0).

(** What happens between [open] and [done]: the mapped length and address, or
    [None] when a step failed. *)
Definition map_open_file (fd : Z) : M D (option (Z * option bytes)) :=
  info ← sys_fstat fd;
  match info with
  | None => mret None
  | Some (regular, st_size) =>
      if negb regular || (st_size <? 0) then mret None else
      if SIZE_MAX <? st_size then mret None else
      if 0 <? st_size then
        address ← sys_mmap fd st_size;
        mret (match address with None => None | Some view => Some (st_size, Some view) end)
      else mret (Some (st_size, None))
  end.

Definition kvs_mapped_file_open (path : bytes) (file : kvs_mapped_file_t) : M D mapped_result :=
  if bool_decide (path = []) || bool_decide (mf_data file ≠ None) || negb (mf_length file =? 0)
  then mret MapFailed else
  opened ← sys_open_read path;
  match opened with
  | NoEntry => mret MapNoEntry
  | OpenFailed => mret MapFailed
  | Opened fd =>
      mapped ← map_open_file fd;
      closed ← sys_close fd;
      match mapped with
      | Some (length, address) =>
          if closed <? 0 then
            (if bool_decide (address ≠ None) then sys_munmap length;; mret MapFailed else mret MapFailed)
          else mret (MapOk (MappedFile address length))
      | None => mret MapFailed
      end
  end.
End ops.

Section spec.
Context {D} `{OsLaws D}.
Implicit Types (d : D) (p f : bytes).

(** A mapping that holds exactly [f]. *)
Definition maps_file (file : kvs_mapped_file_t) f : Prop :=
  mf_length file = zlen f ∧ mf_bytes file = f ∧ (mf_data file = None ↔ f = []).

Lemma map_open_file_spec fd d :
  is_Some (os_fds d !! fd) →
  wp (map_open_file fd) d (λ r d', keeps_health d d' ∧ os_same d d' ∧
    match r with
    | Some (length, address) => ∃ f, fd_file d fd = Some f ∧ maps_file (MappedFile address length) f
    | None => ∀ f, fd_file d fd = Some f → zlen f ≤ SIZE_MAX → ¬ healthy d
    end).
Proof.
  intros Hfd. unfold map_open_file.
  eapply wp_step; [by apply fstat_law|]. intros [[[] n]|] d1 (Hk1 & Hs1 & Hr).
  - destruct Hr as (f & Hf & ->). cbn [negb orb]. pose proof (zlen_nonneg f).
    rewrite (proj2 (Z.ltb_ge _ _)) by lia. destruct (Z.ltb_spec SIZE_MAX (zlen f)).
    { apply wp_ret. split_and!; [done..|]. intros f'. rewrite Hf. intros [= <-]. lia. }
    destruct (Z.ltb_spec 0 (zlen f)).
    + eapply wp_step; [eapply mmap_law; [by rewrite (fd_file_same d d1)|done]|].
      intros [view|] d2 (Hk2 & Hs2 & Hv); apply wp_ret.
      * split_and!; [unfold keeps_health in *; auto|by eapply os_same_trans|]. subst view. exists f.
        split; [done|]. split_and!; [done|done|]. split; [done|]. intros ->. rewrite zlen_nil in *. lia.
      * split_and!; [unfold keeps_health in *; auto|by eapply os_same_trans|]. intros f' _ _ Hh. by apply Hv, Hk1.
    + apply wp_ret. split_and!; [done..|]. exists f. assert (f = []) as -> by (apply zlen_zero; lia).
      split_and!; done.
  - cbn [negb orb]. apply wp_ret. split_and!; [done..|]. intros f. by rewrite Hr.
  - apply wp_ret. split_and!; [done..|]. intros f _ _. done.
Qed.

(** Mapping a regular file gives its bytes and leaves the system as it was. *)
Lemma mapped_file_open_spec p d :
  p ≠ [] →
  wp (kvs_mapped_file_open p mapped_file_zero) d (λ r d', keeps_health d d' ∧ os_same d d' ∧
    match r with
    | MapOk file => ∃ f, file_at d p = Some f ∧ maps_file file f
    | MapNoEntry => os_names d !! p = None
    | MapFailed => ∀ f, file_at d p = Some f → zlen f ≤ SIZE_MAX → ¬ healthy d
    end).
Proof.
  intros Hp. unfold kvs_mapped_file_open. rewrite bool_decide_eq_false_2 by done.
  cbn [mapped_file_zero mf_data mf_length negb Z.eqb orb]. rewrite bool_decide_eq_false_2 by naive_solver. cbn [orb].
  eapply wp_step; [apply open_read_law|]. intros [fd| |] d1 (Hk1 & Ho).
  - destruct Ho as (i & (Hpos & Hfree & Hfds) & Hn & Hd & Hi).
    assert (fd_file d1 fd = os_data d !! i) as Hfile.
    { unfold fd_file. rewrite Hfds, lookup_insert_eq, Hd. done. }
    assert (∀ f, fd_file d1 fd = Some f → file_at d p = Some f) as Hat.
    { intros f Hf. rewrite Hfile in Hf. unfold file_at. destruct (os_names d !! p) as [j|]; [by subst j|congruence]. }
    assert (∀ f, file_at d p = Some f → fd_file d1 fd = Some f) as Hat'.
    { intros f Hf. rewrite Hfile. unfold file_at in Hf. destruct (os_names d !! p) as [j|]; [by subst j|done]. }
    eapply wp_step; [apply map_open_file_spec; rewrite Hfds, lookup_insert_eq; by eexists|].
    intros r d2 (Hk2 & (Hn2 & Hd2 & Hf2) & Hr).
    eapply wp_step; [apply close_law|]. intros closed d3 (Hk3 & Hn3 & Hd3 & Hf3 & Hc & Hc').
    assert (os_same d d3) as Hsame.
    { split_and!; [congruence|congruence|]. rewrite Hf3, Hf2, Hfds. by rewrite delete_insert_id. }
    assert (keeps_health d d3) as Hkeep by (unfold keeps_health in *; auto).
    assert (healthy d → closed = 0) as Hclosed.
    { intros Hh. apply Hc; [by apply Hk2, Hk1|]. rewrite Hf2, Hfds, lookup_insert_eq. by eexists. }
    destruct r as [[length address]|].
    + destruct Hr as (f & Hf & Hm). destruct (Z.ltb_spec closed 0).
      * assert (∀ f, file_at d p = Some f → zlen f ≤ SIZE_MAX → ¬ healthy d) as Hno
          by (intros f' _ _ Hh; apply Hclosed in Hh; lia).
        case_bool_decide; [|by apply wp_ret].
        eapply wp_step; [apply munmap_law|]. intros u d4 (Hk4 & Hs4 & _). apply wp_ret.
        split_and!; [unfold keeps_health in *; auto|by eapply os_same_trans|done].
      * apply wp_ret. split_and!; [done..|]. exists f. auto.
    + apply wp_ret. split_and!; [done..|]. intros f Hf Hle Hh.
      by eapply Hr; [apply Hat'| |apply Hk1].
  - destruct Ho as [Hs Hn]. by apply wp_ret.
  - destruct Ho as [Hs Hn]. apply wp_ret. split_and!; [done..|]. intros f Hf _ Hh.
    unfold file_at in Hf. by rewrite Hn in Hf.
Qed.

Lemma mapped_file_close_spec file f d :
  maps_file file f →
  wp (kvs_mapped_file_close file) d (λ '(r, file') d', keeps_health d d' ∧ os_same d d' ∧
    (healthy d → r = 0) ∧ (r = 0 ∧ file' = mapped_file_zero ∨ r = -1 ∧ file' = file)).
Proof.
  intros (Hl & _). unfold kvs_mapped_file_close. eapply (wp_step _ _ _ (λ r d', keeps_health d d' ∧ os_same d d' ∧ (healthy d → 0 ≤ r))).
  - destruct (0 <? mf_length file); [apply munmap_law|]. apply wp_ret. split_and!; [by intros ?|apply os_same_refl|done].
  - intros r d' (Hk & Hs & Hr). destruct (Z.ltb_spec r 0); apply wp_ret; (split_and!; [done|done| |]).
    + intros Hh. apply Hr in Hh. lia.
    + by right.
    + done.
    + by left.
Qed.
End spec.

(** * Properties *)

(** Opening a mapping either gives exactly the bytes of the regular file of
    that name, or reports that no file has the name, or fails; in every case the
    files are untouched and every descriptor it opened is closed again.  It does
    not fail on an existing file when the system calls succeed. *)
Theorem mapped_file_open_exact {D} `{OsLaws D} (p : bytes) (d : D) (Hp : p ≠ []) :
  wp (kvs_mapped_file_open p mapped_file_zero) d (λ r d', os_same d d' ∧
    match r with
    | MapOk file => ∃ f, file_at d p = Some f ∧ maps_file file f
    | MapNoEntry => os_names d !! p = None
    | MapFailed => ∀ f, file_at d p = Some f → zlen f ≤ SIZE_MAX → ¬ healthy d
    end).
Proof.
  eapply wp_mono; [by apply mapped_file_open_spec|]. intros r d' (_ & Hs & Hr). done.
Qed.

(** A system with one file. *)
Definition one_file (p f : bytes) : mem_os := MemOs {[p := 0]} {[0 := f]} ∅ false.

Lemma mapped_file_open_witness :
  lit "a" ≠ [] ∧
  wp (kvs_mapped_file_open (lit "a") mapped_file_zero) (one_file (lit "a") (lit "xyz")) (λ r d',
    os_same (one_file (lit "a") (lit "xyz")) d' ∧
    match r with
    | MapOk file => ∃ f, file_at (one_file (lit "a") (lit "xyz")) (lit "a") = Some f ∧ maps_file file f
    | MapNoEntry => os_names (one_file (lit "a") (lit "xyz")) !! lit "a" = None
    | MapFailed => ∀ f, file_at (one_file (lit "a") (lit "xyz")) (lit "a") = Some f →
        zlen f ≤ SIZE_MAX → ¬ healthy (one_file (lit "a") (lit "xyz"))
    end).
Proof.
  refine ((λ Hp, conj Hp (mapped_file_open_exact _ _ Hp)) _). discriminate.
Defined.

Example mapped_file_open_run :
  (λ o, match o with Ok r _ => Some r | _ => None end)
    (kvs_mapped_file_open (lit "a") mapped_file_zero (one_file (lit "a") (lit "xyz"))) =
  Some (MapOk (MappedFile (Some (lit "xyz")) 3)).
Proof. vm_compute. reflexivity. Qed.
