(* ===== verification/Aof.v ===== *)
(** The append-only file, src/persistence/aof.c: opening, appending a command,
    replaying a log into a handler, cutting the log to an offset, and reading a
    range of it for replication.

    The state is the C heap, the operating system and the global [aof_writer].
    [errno] is only kept where a caller looks at it. *)

From Stdlib Require Import ZArith Lia.
From S2P Require Import Prelude Runtime Os MappedFile Codec.

(** [aof_writer_t]; a closed writer has [fd = -1]. *)
Record aof_writer_t := AofWriter { aw_fd : Z; aw_offset : Z; aw_initialized : bool }.
Definition aof_writer_closed : aof_writer_t := AofWriter (-1) 0 false.

(** [kvs_aof_reader_t] *)
Record kvs_aof_reader_t := AofReader { rd_fd : Z; rd_offset : Z; rd_remaining : Z }.

(** The state of the persistence layer. *)
Record pworld (RT D : Type) := PWorld { p_rt : RT; p_os : D; p_aof : aof_writer_t }.
Arguments PWorld {_ _}.
Arguments p_rt {_ _}.
Arguments p_os {_ _}.
Arguments p_aof {_ _}.

Section ops.
Context `{CRuntime RT} {D} `{!Os D}.
Notation W := (pworld RT D).

Definition put_rt (r : RT) (w : W) : W := PWorld r (p_os w) (p_aof w).
Definition put_os (d : D) (w : W) : W := PWorld (p_rt w) d (p_aof w).
Definition put_aof (a : aof_writer_t) (w : W) : W := PWorld (p_rt w) (p_os w) a.

Definition on_rt {X} (m : M RT X) : M W X := zoom p_rt put_rt m.
Definition on_os {X} (m : M D X) : M W X := zoom p_os put_os m.

Definition kvs_aof_file_close (fd : Z) : M D Z := if fd <? 0 then mret (-1) else sys_close fd.

Definition kvs_aof_open (path : bytes) : M W Z :=
  aof_writer ← gets p_aof;
  if bool_decide (path = []) then mret (-1) else
  if (0 <=? aw_fd aof_writer) || aw_initialized aof_writer then mret (-1) else
  fd ← on_os (sys_open_write path);
  match fd with
  | None => mret (-1)
  | Some fd =>
      file_info ← on_os (sys_fstat fd);
      match file_info with
      | None => on_os (kvs_aof_file_close fd);; mret (-1)
      | Some (regular, st_size) =>
          if negb regular || (st_size <? 0) then on_os (kvs_aof_file_close fd);; mret (-1) else
          r ← on_os kvs_uring_io_init;
          if r <? 0 then on_os (kvs_aof_file_close fd);; mret (-1) else
          modify (put_aof (AofWriter fd st_size true));;
          mret 0
      end
  end.

Definition kvs_aof_close : M W Z :=
  aof_writer ← gets p_aof;
  if aw_fd aof_writer <? 0 then mret (-1) else
  on_os kvs_uring_io_close;;
  close_result ← on_os (kvs_aof_file_close (aw_fd aof_writer));
  modify (put_aof (AofWriter (-1) 0 false));;
  mret close_result.

(** The [do ... while] loop around [ftruncate]. *)
Fixpoint truncate_loop (fuel : nat) (fd target_offset : Z) : M D Z :=
  '(r, eintr) ← sys_ftruncate fd target_offset;
  if (r <? 0) && eintr then
    match fuel with O => undefined | S fuel => truncate_loop fuel fd target_offset end
  else mret r.

(** [off_t] and [long long] are both 64 bits, so the conversion keeps [offset]. *)
Definition kvs_aof_reset_to_offset (offset : Z) : M W Z :=
  aof_writer ← gets p_aof;
  if (aw_fd aof_writer <? 0) || negb (aw_initialized aof_writer) || (offset <? 0) then mret (-1) else
  n ← gets (interruptions ∘ p_os);
  truncate_result ← on_os (truncate_loop n (aw_fd aof_writer) offset);
  if truncate_result <? 0 then mret (-1) else
  modify (put_aof (AofWriter (aw_fd aof_writer) offset (aw_initialized aof_writer)));;
  on_os (kvs_uring_io_sync (aw_fd aof_writer)).

Definition kvs_aof_reader_open (path : bytes) (start_offset end_offset : Z) :
    M D (Z * kvs_aof_reader_t) :=
  let none := AofReader (-1) 0 0 in
  if bool_decide (path = []) || (start_offset <? 0) || (end_offset <? start_offset) then mret (-1, none) else
  opened ← sys_open_read path;
  match opened with
  | Opened fd =>
      file_info ← sys_fstat fd;
      match file_info with
      | Some (true, st_size) =>
          if (st_size <? start_offset) || (st_size <? end_offset)
          then kvs_aof_file_close fd;; mret (-1, none)
          else mret (0, AofReader fd start_offset (end_offset - start_offset))
      | _ => kvs_aof_file_close fd;; mret (-1, none)
      end
  | _ => mret (-1, none)
  end.

Fixpoint pread_loop (fuel : nat) (fd n off : Z) : M D (option bytes) :=
  '(r, eintr) ← sys_pread fd n off;
  match r with
  | None => if (eintr : bool) then match fuel with O => undefined | S fuel => pread_loop fuel fd n off end
            else mret None
  | Some b => mret (Some b)
  end.

(** The bytes written to [output], their number being the result; [None] is -1. *)
Definition kvs_aof_reader_read (reader : kvs_aof_reader_t) (output_capacity : Z) :
    M D (option bytes * kvs_aof_reader_t) :=
  if (rd_fd reader <? 0) || (rd_offset reader <? 0) || (rd_remaining reader <? 0) || (output_capacity <=? 0)
  then mret (None, reader) else
  if rd_remaining reader =? 0 then mret (Some [], reader) else
  let read_size := if rd_remaining reader <? output_capacity then rd_remaining reader else output_capacity in
  n ← gets interruptions;
  result ← pread_loop n (rd_fd reader) read_size (rd_offset reader);
  match result with
  | None | Some [] => mret (None, reader)
  | Some b => mret (Some b, AofReader (rd_fd reader) (rd_offset reader + zlen b) (rd_remaining reader - zlen b))
  end.

Definition kvs_aof_reader_close (reader : kvs_aof_reader_t) : M D kvs_aof_reader_t :=
  (if 0 <=? rd_fd reader then kvs_aof_file_close (rd_fd reader);; mret tt else mret tt);;
  mret (AofReader (-1) 0 0).

(** The loop that describes the tokens by slices: [None] when one is null. *)
Fixpoint token_fields (tokens : list (option bytes)) : option (list kvs_slice_t) :=
  match tokens with
  | [] => Some []
  | None :: _ => None
  | Some t :: tokens => fields ← token_fields tokens; Some (slice_of t :: fields)
  end.

(** [tokens] are the first [count] elements of the array. *)
Definition kvs_aof_append (tokens : list (option bytes)) (count : Z) : M W Z :=
  aof_writer ← gets p_aof;
  if (aw_fd aof_writer <? 0) || negb (aw_initialized aof_writer) || negb ((count =? 2) || (count =? 3))
  then mret (-1) else
  match token_fields tokens with
  | None => mret (-1)
  | Some fields =>
      match kvs_encoded_command_size fields with
      | None => mret (-1)
      | Some required =>
          encoded ← on_rt (kvs_malloc required);
          match encoded with
          | None => mret (-1)
          | Some p =>
              match kvs_encode_command fields required with
              | None => on_rt (kvs_free (Some p));; mret (-1)
              | Some out =>
                  let next_offset := aw_offset aof_writer + zlen out in
                  if INT64_MAX <? next_offset then on_rt (kvs_free (Some p));; mret (-1) else
                  write_result ← on_os (kvs_uring_io_write_batch (aw_fd aof_writer)
                                          [UringWrite out (aw_offset aof_writer)]);
                  on_rt (kvs_free (Some p));;
                  if write_result <? 0 then mret (-1) else
                  sync_result ← on_os (kvs_uring_io_sync (aw_fd aof_writer));
                  if sync_result <? 0 then mret (-1) else
                  modify (put_aof (AofWriter (aw_fd aof_writer) next_offset (aw_initialized aof_writer)));;
                  mret 0
              end
          end
      end
  end.

Definition kvs_aof_get_offset (w : W) : Z :=
  if aw_fd (p_aof w) <? 0 then -1 else aw_offset (p_aof w).
End ops.

(** ** Replay *)

(** The capacity of the response buffer of [kvs_aof_replay]. *)
Definition REPLAY_RESPONSE : Z := 1024.

(** [aof_replay_handler]: the fields and the room for the response. *)
Definition aof_replay_handler (S : Type) : Type := list kvs_slice_t → Z → M S Z.

(** The loop of [kvs_aof_replay] over the mapped bytes from [position]; every
    step consumes at least one byte.  The result is [replay_result]. *)
Fixpoint replay_loop {S} (fuel : nat) (data : bytes) (position : Z) (handler : aof_replay_handler S) :
    M S Z :=
  if position <? zlen data then
    match fuel with
    | O => undefined
    | Datatypes.S fuel =>
        let remaining := zlen data - position in
        match kvs_parse_command (Some (drop (Z.to_nat position) data)) 3 with
        | Complete (fields, parsed_bytes) =>
            if (parsed_bytes =? 0) || (remaining <? parsed_bytes) then mret (-1) else
            response_length ← handler fields REPLAY_RESPONSE;
            if (response_length <=? 0) || (REPLAY_RESPONSE <? response_length) then mret (-1) else
            replay_loop fuel data (position + parsed_bytes) handler
        | _ => mret (-1)
        end
    end
  else mret 0.

(** The handler works on a state [S] that contains the operating system. *)
Definition kvs_aof_replay {S D} `{Os D} (get_os : S → D) (set_os : D → S → S)
    (path : bytes) (offset : Z) (handler : aof_replay_handler S) : M S Z :=
  if offset <? 0 then mret (-1) else
  mapped ← zoom get_os set_os (kvs_mapped_file_open path mapped_file_zero);
  match mapped with
  | MapNoEntry => mret 0
  | MapFailed => mret (-1)
  | MapOk file =>
      let position := if offset <? mf_length file then offset else mf_length file in
      replay_result ← replay_loop (List.length (mf_bytes file)) (mf_bytes file) position handler;
      '(closed, _) ← zoom get_os set_os (kvs_mapped_file_close file);
      mret (if (closed <? 0) && (replay_result =? 0) then -1 else replay_result)
  end.

(** * Lemmas *)

(** [d'] differs from [d] only in the contents of the file open at [fd]. *)
Definition fd_written {D} `{Os D} (d : D) (fd : Z) (f' : bytes) (d' : D) : Prop :=
  os_names d' = os_names d ∧ os_fds d' = os_fds d ∧
  ∃ i, os_fds d !! fd = Some i ∧ os_data d' = <[i := f']> (os_data d).

(** The writer is open on a file that holds [f], and appends after [f]. *)
Definition aof_log {RT D} `{Os D} (w : pworld RT D) (f : bytes) : Prop :=
  0 ≤ aw_fd (p_aof w) ∧ aw_initialized (p_aof w) = true ∧ aw_offset (p_aof w) = zlen f ∧
  fd_file (p_os w) (aw_fd (p_aof w)) = Some f.

(** [f] is the concatenation of the texts of the commands [cmds]. *)
Definition log_of (cmds : list (list bytes)) (f : bytes) : Prop :=
  ∃ ts, Forall2 command_text cmds ts ∧ f = mjoin ts.

(** What one append stores for the command [ts]. *)
Definition aof_record (ts : list bytes) : bytes :=
  [STAR] ++ write_decimal (zlen ts) ++ crlf ++ mjoin (write_field <$> (slice_of <$> ts)).

Lemma fd_written_file {D} `{Os D} (d : D) fd f' d' : fd_written d fd f' d' → fd_file d' fd = Some f'.
Proof. intros (_ & Hf & i & Hi & Hd). unfold fd_file. rewrite Hf, Hi. simpl. by rewrite Hd, lookup_insert_eq. Qed.

Lemma fd_written_same {D} `{Os D} (d : D) fd f' d' d'' : fd_written d fd f' d' → os_same d' d'' → fd_written d fd f' d''.
Proof. intros (En & Ef & i & Hi & Hd) (En' & Ed' & Ef'). split_and!; [congruence|congruence|]. exists i. split; [done|congruence]. Qed.

Lemma log_of_snoc cmds f c t : log_of cmds f → command_text c t → log_of (cmds ++ [c]) (f ++ t).
Proof.
  intros (ts & Hts & ->) Ht. exists (ts ++ [t]). split; [by apply Forall2_app; [|constructor]|].
  rewrite join_app. simpl. by rewrite app_nil_r.
Qed.

Lemma token_fields_some ts : token_fields (Some <$> ts) = Some (slice_of <$> ts).
Proof. induction ts as [|t ts IH]; [done|]. cbn [token_fields fmap list_fmap]. by rewrite IH. Qed.

Lemma wf_slices_of ts : Forall (λ t, zlen t ≤ SIZE_MAX) ts → Forall wf_slice (slice_of <$> ts).
Proof. intros Hts. apply Forall_fmap. eapply Forall_impl; [exact Hts|]. intros t Ht. by exists t. Qed.

Lemma encode_record ts cap out :
  kvs_encode_command (slice_of <$> ts) cap = Some out → out = aof_record ts.
Proof.
  unfold kvs_encode_command, aof_record. destruct (kvs_encoded_command_size _); [|done].
  destruct (cap <? z); [done|]. intros E. apply (inj Some) in E. rewrite <- E. by rewrite zlen_fmap.
Qed.

Lemma record_text ts n : Forall (λ t, zlen t ≤ SIZE_MAX) ts → zlen ts ≤ SIZE_MAX →
  kvs_encoded_command_size (slice_of <$> ts) = Some n →
  kvs_encode_command (slice_of <$> ts) n = Some (aof_record ts) ∧ command_text ts (aof_record ts) ∧ n = zlen (aof_record ts).
Proof.
  intros Hts Hl Hn.
  assert (kvs_encode_command (slice_of <$> ts) n = Some (aof_record ts)) as E.
  { unfold kvs_encode_command, aof_record. rewrite Hn, Z.ltb_irrefl. by rewrite zlen_fmap. }
  split; [done|]. apply encode_command_text in E as (Ht & _ & _ & _ & Hs); [|by apply wf_slices_of|by rewrite zlen_fmap].
  rewrite <- list_fmap_compose in Ht.
  replace ((slice_bytes ∘ slice_of) <$> ts) with ts in Ht.
  - split; [done|congruence].
  - symmetry. rewrite <- (list_fmap_id ts) at 2. apply list_fmap_ext. intros i t _. apply slice_bytes_of.
Qed.

(** ** Appending *)

Section append.
Context `{CRuntimeLaws RT} `{OsLaws D}.
Notation W := (pworld RT D).
Implicit Types (w : W) (f : bytes) (d : D).

Lemma step_rt {X Y} (m : M RT X) (k : X → M W Y) w P (Q : Y → W → Prop) :
  wp m (p_rt w) P → (∀ x r, P x r → wp (k x) (put_rt r w) Q) → wp (on_rt m ≫= k) w Q.
Proof. intros Hm Hk. apply wp_bind, wp_zoom. eauto using wp_mono. Qed.

Lemma step_os {X Y} (m : M D X) (k : X → M W Y) w P (Q : Y → W → Prop) :
  wp m (p_os w) P → (∀ x d, P x d → wp (k x) (put_os d w) Q) → wp (on_os m ≫= k) w Q.
Proof. intros Hm Hk. apply wp_bind, wp_zoom. eauto using wp_mono. Qed.

(** One write at the end of the file. *)
Lemma write_at_end fd f t d :
  fd_file d fd = Some f → t ≠ [] → zlen f + zlen t ≤ INT64_MAX →
  wp (kvs_uring_io_write_batch fd [UringWrite t (zlen f)]) d (λ r d', keeps_health d d' ∧
    (∃ f', fd_written d fd f' d' ∧ take (List.length f) f' = f ∧ (0 ≤ r → f' = f ++ t)) ∧ (healthy d → 0 ≤ r)).
Proof.
  intros Hf Hne Hmax. eapply wp_mono.
  { apply uring_write_law; [exact Hf|done|]. split; [done|]. split; [apply pairwise_cons_iff; split; [done|apply pairwise_nil]|].
    apply Forall_singleton. pose proof (zlen_nonneg f). by split_and!. }
  intros r d' (Hk & Hn & Hfd & i & f' & Hi & Hd & Hr). split; [done|].
  destruct (Z.ltb_spec r 0).
  - destruct Hr as [Hh Hp]. split; [|done]. exists f'. split; [split_and!; eauto|]. split; [|lia].
    rewrite Hp; [by rewrite firstn_all|repeat constructor|lia]. done.
  - split; [|done]. subst f'. simpl in Hd. rewrite pwrite_end in Hd. exists (f ++ t).
    split; [split_and!; eauto|]. split; [|done]. by rewrite take_app_length.
Qed.

(** What [kvs_aof_append] promises for a command of two or three tokens. *)
Definition append_post (w : W) f ts own F (r : Z) (w' : W) : Prop :=
  owns own F (p_rt w') ∧ (roomy (p_rt w) → roomy (p_rt w')) ∧ keeps_health (p_os w) (p_os w') ∧
  (r = 0 ∧ command_text ts (aof_record ts) ∧ aof_log w' (f ++ aof_record ts) ∧
     fd_written (p_os w) (aw_fd (p_aof w)) (f ++ aof_record ts) (p_os w') ∧ zlen (f ++ aof_record ts) ≤ INT64_MAX
   ∨ r = -1 ∧ p_aof w' = p_aof w ∧ os_names (p_os w') = os_names (p_os w) ∧
     os_fds (p_os w') = os_fds (p_os w) ∧
     ∃ f', fd_file (p_os w') (aw_fd (p_aof w)) = Some f' ∧ take (List.length f) f' = f).

Lemma append_unchanged w f ts own F w' :
  aof_log w f → owns own F (p_rt w') → (roomy (p_rt w) → roomy (p_rt w')) → p_os w' = p_os w →
  p_aof w' = p_aof w → append_post w f ts own F (-1) w'.
Proof.
  intros (_ & _ & _ & Hf) Ho Hr E Ea. split_and!; [done|done|by unfold keeps_health; rewrite E|]. right.
  rewrite E, Ea. split_and!; [done..|]. exists f. by rewrite firstn_all.
Qed.

Lemma append_spec w f ts own F :
  aof_log w f → owns own F (p_rt w) → Forall (λ t, zlen t ≤ SIZE_MAX) ts → 2 ≤ zlen ts ≤ 3 →
  wp (kvs_aof_append (Some <$> ts) (zlen ts)) w (λ r w', append_post w f ts own F r w' ∧
    (roomy (p_rt w) → healthy (p_os w) → zlen (aof_record ts) ≤ SIZE_MAX →
     zlen f + zlen (aof_record ts) ≤ INT64_MAX → r = 0)).
Proof.
  intros Hlog Ho Hts Hc. pose proof Hlog as (Hfd & Hin & Hoff & Hf).
  assert (zlen ts ≤ SIZE_MAX) as Hl by (unfold SIZE_MAX; lia).
  unfold kvs_aof_append. eapply wp_eq; [done|].
  rewrite Hin, (proj2 (Z.ltb_ge _ _)) by lia.
  replace ((zlen ts =? 2) || (zlen ts =? 3)) with true
    by (destruct (Z.eqb_spec (zlen ts) 2), (Z.eqb_spec (zlen ts) 3); done || lia).
  cbn [negb orb]. rewrite token_fields_some.
  destruct (kvs_encoded_command_size (slice_of <$> ts)) as [required|] eqn:Es.
  2:{ apply wp_ret. split; [by apply append_unchanged|]. intros _ _ Hle _. exfalso.
      unfold kvs_encoded_command_size in Es.
      destruct (Z.eqb_spec (zlen (slice_of <$> ts)) 0) as [E|_]; [rewrite zlen_fmap in E; lia|].
      rewrite zlen_fmap in Es. pose proof (decimal_digits_spec (zlen ts) ltac:(lia)).
      rewrite encoded_size_loop_spec in Es by (apply wf_slices_of, Hts || (unfold SIZE_MAX; lia)).
      cbv zeta in Es. destruct (write_decimal_text (zlen ts) ltac:(lia)) as [_ Hd].
      unfold aof_record in Hle. autorewrite with zlen in Hle. rewrite Hd in Hle.
      destruct (Z.leb_spec (1 + decimal_digits (zlen ts) + 2 + zlen (mjoin (write_field <$> (slice_of <$> ts)))) SIZE_MAX); [done|lia]. }
  apply record_text in Es as (He & Ht & Hn); [|done|done].
  assert (0 < required) as Hpos.
  { rewrite Hn. unfold aof_record. rewrite zlen_app. pose proof (zlen_nonneg (write_decimal (zlen ts) ++ crlf ++ mjoin (write_field <$> (slice_of <$> ts)))).
    change (zlen [STAR]) with 1. lia. }
  eapply step_rt; [by apply (wp_malloc _ own F)|]. intros [p|] r1 [Ho1 Hr1]; cycle 1.
  { apply wp_ret. split; [by apply append_unchanged; naive_solver|]. intros Hroom. naive_solver. }
  rewrite He, Hoff.
  destruct (Z.ltb_spec INT64_MAX (zlen f + zlen (aof_record ts))).
  { eapply step_rt; [by apply wp_free|]. intros _ r2 [Ho2 Hr2]. apply wp_ret.
    split; [by apply append_unchanged; naive_solver|lia]. }
  eapply step_os; [apply write_at_end; [done|intros E; rewrite Hn, E in Hpos; done|done]|]. intros wr d1 (Hk1 & (f' & Hw1 & Hp & Hf') & Hh1).
  eapply step_rt; [by apply wp_free|]. intros _ r2 [Ho2 Hr2].
  assert (∀ d', os_same d1 d' → keeps_health d1 d' →
    append_post w f ts own F (-1) (PWorld r2 d' (p_aof w))) as Hfail.
  { intros d' Hs Hk. pose proof (fd_written_same _ _ _ _ _ Hw1 Hs) as Hw2.
    split_and!; [done|naive_solver|unfold keeps_health in *; naive_solver|]. right.
    split_and!; [done|done|apply Hw2|apply Hw2|]. exists f'. split; [by eapply fd_written_file|done]. }
  destruct (Z.ltb_spec wr 0).
  { apply wp_ret. split; [by apply Hfail; [apply os_same_refl|intros ?]|]. intros _ Hh. apply Hh1 in Hh. lia. }
  rewrite Hf' in Hw1 by done.
  eapply step_os; [apply uring_sync_law|]. intros sr d2 (Hk2 & Hs2 & Hh2).
  pose proof (fd_written_same _ _ _ _ _ Hw1 Hs2) as Hw2.
  destruct (Z.ltb_spec sr 0).
  { apply wp_ret. split; [by apply Hfail|]. intros _ Hh.
    destruct Hw1 as (_ & Hfds & i & Hi & _). pose proof (Hk1 Hh) as Hh'. apply Hh2 in Hh'; [lia|].
    cbn [p_os put_rt put_os]. rewrite Hfds, Hi. by eexists. }
  eapply wp_eq; [done|]. apply wp_ret. split; [|done].
  split_and!; [done|naive_solver|unfold keeps_health in *; naive_solver|]. left.
  split_and!; [done|done| |done|rewrite zlen_app; lia]. split_and!; [done|done| |by eapply fd_written_file].
  cbn [p_aof put_aof aw_offset]. by rewrite zlen_app.
Qed.
End append.

(** ** Replaying *)

(** The handler on each command in turn, stopping with -1 at the first response
    that is not within the buffer. *)
Fixpoint replay_commands {S} (handler : aof_replay_handler S) (cmds : list (list bytes)) : M S Z :=
  match cmds with
  | [] => mret 0
  | c :: cmds =>
      response_length ← handler (slice_of <$> c) REPLAY_RESPONSE;
      if (response_length <=? 0) || (REPLAY_RESPONSE <? response_length) then mret (-1)
      else replay_commands handler cmds
  end.

Lemma command_text_pos fs t : command_text fs t → 0 < zlen t.
Proof.
  intros (d & ts & _ & _ & ->). rewrite zlen_app. change (zlen [STAR]) with 1.
  pose proof (zlen_nonneg (d ++ crlf ++ mjoin ts)). lia.
Qed.

Lemma command_text_nonempty fs t capacity : command_text fs t → 1 ≤ zlen fs ≤ capacity → fs ≠ [].
Proof. intros _ H ->. rewrite zlen_nil in H. lia. Qed.

Section replay.
Context {S : Type} (handler : aof_replay_handler S).

(** One turn of the loop at a command boundary. *)
Lemma replay_loop_step fuel pre fs t rest s :
  command_text fs t → 1 ≤ zlen fs ≤ 3 → zlen (pre ++ t ++ rest) ≤ SIZE_MAX →
  replay_loop (Datatypes.S fuel) (pre ++ t ++ rest) (zlen pre) handler s =
  (response_length ← handler (slice_of <$> fs) REPLAY_RESPONSE;
   if (response_length <=? 0) || (REPLAY_RESPONSE <? response_length) then mret (-1)
   else replay_loop fuel (pre ++ t ++ rest) (zlen pre + zlen t) handler) s.
Proof.
  intros Ht Hc Hsz. cbn [replay_loop]. pose proof (command_text_pos _ _ Ht). pose proof (zlen_nonneg rest).
  pose proof (zlen_nonneg pre). rewrite !zlen_app in Hsz.
  rewrite (proj2 (Z.ltb_lt (zlen pre) (zlen (pre ++ t ++ rest)))) by (rewrite !zlen_app; lia).
  cbv zeta. rewrite drop_zlen_app. unfold kvs_parse_command.
  rewrite (command_parses _ rest 3 SIZE_MAX fs t); try done; try (rewrite ?zlen_app; unfold SIZE_MAX in *; lia).
  rewrite (proj2 (Z.eqb_neq (zlen t) 0)) by lia.
  rewrite (proj2 (Z.ltb_ge _ _)) by (rewrite !zlen_app; lia). done.
Qed.

(** From a boundary, the commands are handled in order and the loop goes on
    behind them. *)
Lemma replay_loop_commands cmds ts fuel pre rest s :
  Forall2 command_text cmds ts → Forall (λ c, 1 ≤ zlen c ≤ 3) cmds → zlen (pre ++ mjoin ts ++ rest) ≤ SIZE_MAX →
  replay_loop (List.length cmds + fuel) (pre ++ mjoin ts ++ rest) (zlen pre) handler s =
  (r ← replay_commands handler cmds;
   if r <? 0 then mret r
   else replay_loop fuel (pre ++ mjoin ts ++ rest) (zlen pre + zlen (mjoin ts)) handler) s.
Proof.
  intros Hts Hc Hsz. revert pre s Hsz. induction Hts as [|c t cmds ts Ht Hts IH]; intros pre s Hsz.
  { simpl. by rewrite Z.add_0_r. }
  apply Forall_cons in Hc as [Hc Hcs]. cbn [List.length Nat.add mjoin list_join replay_commands].
  rewrite <- (app_assoc t). rewrite (replay_loop_step _ pre c t); [|done|done|].
  2:{ cbn [mjoin list_join] in Hsz. by rewrite <- (app_assoc t) in Hsz. }
  rewrite bind_assoc. apply bind_ext. intros r s1.
  destruct ((r <=? 0) || (REPLAY_RESPONSE <? r)); [done|].
  rewrite (app_assoc pre t), <- !zlen_app, IH; [|done|].
  - apply bind_ext. intros r' s2. by rewrite !zlen_app, Z.add_assoc.
  - cbn [mjoin list_join] in Hsz. by rewrite <- !app_assoc in *.
Qed.

(** A complete command has at least one byte. *)
Lemma parsed_positive data fields k :
  zlen data ≤ SIZE_MAX → kvs_parse_command (Some data) 3 = Complete (fields, k) → 0 < k.
Proof.
  intros Hsz E. apply parse_command_text in E as (fs & t & _ & Ht & (p & r & _ & Hp & ->) & _);
    [|unfold SIZE_MAX in *; lia..].
  apply command_text_pos in Ht. unfold zlen in *. lia.
Qed.

(** More fuel changes nothing once every byte can be consumed. *)
Lemma replay_loop_enough n m data position s :
  0 ≤ position → zlen data ≤ SIZE_MAX → (List.length data - Z.to_nat position ≤ n)%nat → (n ≤ m)%nat →
  replay_loop n data position handler s = replay_loop m data position handler s.
Proof.
  revert m position s. induction n as [|n IH]; intros m position s Hpos Hsz Hn Hm.
  - destruct m; [done|]. cbn [replay_loop]. rewrite (proj2 (Z.ltb_ge position (zlen data))) by (unfold zlen; lia). done.
  - destruct m as [|m]; [lia|]. cbn [replay_loop]. destruct (position <? zlen data); [|done].
    destruct (kvs_parse_command (Some (drop (Z.to_nat position) data)) 3) as [[fields k]| |] eqn:E; [|done|done].
    apply parsed_positive in E; [|unfold zlen in *; rewrite length_drop; lia].
    destruct (_ || _); [done|]. apply bind_ext. intros r s1. destruct (_ || _); [done|]. apply IH; lia.
Qed.

(** From a command boundary on, a log of whole commands followed by [tail]. *)
Lemma replay_loop_log cmds ts fuel pre tail s :
  Forall2 command_text cmds ts → Forall (λ c, 1 ≤ zlen c ≤ 3) cmds →
  zlen (pre ++ mjoin ts ++ tail) ≤ SIZE_MAX → (List.length (pre ++ mjoin ts ++ tail) ≤ fuel)%nat →
  replay_loop fuel (pre ++ mjoin ts ++ tail) (zlen pre) handler s =
  (r ← replay_commands handler cmds;
   if r <? 0 then mret r
   else replay_loop fuel (pre ++ mjoin ts ++ tail) (zlen pre + zlen (mjoin ts)) handler) s.
Proof.
  intros Hts Hc Hsz Hf. pose proof (zlen_nonneg pre). pose proof (zlen_nonneg (mjoin ts)).
  rewrite (replay_loop_enough fuel (List.length cmds + fuel)); [|lia|done|lia|lia].
  by apply replay_loop_commands.
Qed.

(** An incomplete command at the end of the log is refused. *)
Lemma replay_loop_torn fuel pre c t k s :
  command_text c t → 1 ≤ zlen c ≤ 3 → (0 < k < List.length t)%nat → zlen t ≤ SIZE_MAX →
  (List.length (pre ++ take k t) ≤ fuel)%nat →
  replay_loop fuel (pre ++ take k t) (zlen pre) handler s = Ok (-1) s.
Proof.
  intros Ht Hc Hk Hsz Hf. rewrite length_app, length_take in Hf. destruct fuel as [|fuel]; [lia|].
  cbn [replay_loop]. rewrite (proj2 (Z.ltb_lt (zlen pre) _)) by (unfold zlen; rewrite length_app, length_take; lia).
  cbv zeta. rewrite drop_zlen_app. unfold kvs_parse_command.
  by rewrite (command_prefix_waits c t 3 SIZE_MAX k) by (try done; try lia; unfold SIZE_MAX; lia).
Qed.

Lemma replay_loop_end fuel data position s : zlen data ≤ position → replay_loop fuel data position handler s = Ok 0 s.
Proof. intros Hp. destruct fuel; cbn [replay_loop]; by rewrite (proj2 (Z.ltb_ge _ _)) by lia. Qed.

Lemma replay_loop_whole cmds ts fuel pre s :
  Forall2 command_text cmds ts → Forall (λ c, 1 ≤ zlen c ≤ 3) cmds →
  zlen (pre ++ mjoin ts) ≤ SIZE_MAX → (List.length (pre ++ mjoin ts) ≤ fuel)%nat →
  replay_loop fuel (pre ++ mjoin ts) (zlen pre) handler s = replay_commands handler cmds s.
Proof.
  intros Hts Hc Hsz Hf. pose proof (replay_loop_log cmds ts fuel pre [] s Hts Hc) as E.
  rewrite (app_nil_r (mjoin ts)) in E. rewrite E by done.
  assert (∀ r s', replay_commands handler cmds s = Ok r s' → r = 0 ∨ r = -1) as Hr.
  { clear. revert s. induction cmds as [|c cmds IH]; intros s r s'; cbn [replay_commands]; [intros [= <- <-]; by left|].
    unfold mbind, M_bind. destruct (handler (slice_of <$> c) REPLAY_RESPONSE s); [|done|done].
    destruct (_ || _); [intros [= <- <-]; by right|apply IH]. }
  unfold mbind, M_bind. destruct (replay_commands handler cmds s) as [r s'| |] eqn:E2; [|done|done].
  destruct (Hr r s' eq_refl) as [-> | ->]; [|done]. cbn [Z.ltb Z.compare]. 
  rewrite replay_loop_end; [done|]. by rewrite zlen_app.
Qed.
End replay.

Section replay_file.
Context `{OsLaws D} {S : Type} (get_os : S → D) (set_os : D → S → S).
Implicit Types (s : S) (f : bytes).

(** The state in which the handler runs is [s] up to the unobservable state of
    the operating system. *)
Definition os_indistinct s s' : Prop :=
  ∃ d, s' = set_os d s ∧ os_same (get_os s) d ∧ keeps_health (get_os s) d.

(** How the result and the state of [kvs_aof_replay] follow from those of the
    loop over the log. *)
Definition replay_outcome s (P : Z → S → Prop) (r : Z) s' : Prop :=
  (r = -1 ∧ ¬ healthy (get_os s) ∧ os_indistinct s s') ∨
  ∃ r2 s2, P r2 s2 ∧ os_indistinct s2 s' ∧ (r = r2 ∨ r = -1 ∧ ¬ healthy (get_os s2)).

Lemma aof_replay_spec path offset handler s f (P : Z → S → Prop) :
  path ≠ [] → 0 ≤ offset → file_at (get_os s) path = Some f → zlen f ≤ SIZE_MAX →
  (∀ s1, os_indistinct s s1 → wp (replay_loop (List.length f) f (Z.min offset (zlen f)) handler) s1 P) →
  wp (kvs_aof_replay get_os set_os path offset handler) s (replay_outcome s P).
Proof.
  intros Hp Hoff Hf Hsz Hloop. unfold kvs_aof_replay. rewrite (proj2 (Z.ltb_ge offset 0)) by lia.
  apply wp_bind, wp_zoom. eapply wp_mono; [by apply mapped_file_open_spec|].
  intros [file| |] d1 (Hk1 & Hs1 & Hr).
  - destruct Hr as (f' & Hf' & Hm). assert (f' = f) as -> by congruence. destruct Hm as (Hml & Hmb & Hmd).
    cbv zeta. rewrite Hmb, Hml.
    replace (if offset <? zlen f then offset else zlen f) with (Z.min offset (zlen f))
      by (destruct (Z.ltb_spec offset (zlen f)); lia).
    eapply wp_step; [apply Hloop; by exists d1|]. intros r2 s2 HP.
    apply wp_bind, wp_zoom. eapply wp_mono; [by apply (mapped_file_close_spec _ f)|].
    intros [closed file'] d2 (Hk2 & Hs2 & Hh & Hc). apply wp_ret. right. exists r2, s2.
    split; [done|]. split; [by exists d2|]. destruct Hc as [[-> _]|[-> _]]; [by left|]. cbn [Z.ltb Z.compare andb].
    destruct (Z.eqb_spec r2 0); [|by left]. right. split; [done|]. intros Hh'. by apply Hh in Hh'.
  - exfalso. unfold file_at in Hf. by rewrite Hr in Hf.
  - apply wp_ret. left. split; [done|]. split; [by eapply Hr|by exists d1].
Qed.

Lemma aof_replay_missing path offset handler s :
  path ≠ [] → 0 ≤ offset → os_names (get_os s) !! path = None →
  wp (kvs_aof_replay get_os set_os path offset handler) s (λ r s', os_indistinct s s' ∧ (r = 0 ∨ r = -1)).
Proof.
  intros Hp Hoff Hn. unfold kvs_aof_replay. rewrite (proj2 (Z.ltb_ge offset 0)) by lia.
  apply wp_bind, wp_zoom. eapply wp_mono; [by apply mapped_file_open_spec|].
  intros [file| |] d1 (Hk1 & Hs1 & Hr); [|apply wp_ret; split; [by exists d1|by left]|apply wp_ret; split; [by exists d1|by right]].
  destruct Hr as (f & Hf & _). unfold file_at in Hf. by rewrite Hn in Hf.
Qed.
End replay_file.

(** ** Opening, cutting and reading *)

Section files.
Context `{CRuntimeLaws RT} `{OsLaws D}.
Notation W := (pworld RT D).
Implicit Types (w : W) (f : bytes) (d : D).

Lemma interrupted_ftruncate n fd off f d :
  fd_file d fd = Some f → 0 ≤ off → (interruptions d ≤ n)%nat →
  wp (truncate_loop n fd off) d (λ r d', keeps_health d d' ∧
    if r <? 0 then os_same d d' ∧ ¬ healthy d
    else fd_written d fd (take (Z.to_nat off) f ++ replicate (Z.to_nat off - List.length f) NUL) d').
Proof.
  revert d. induction n as [|n IH]; intros d Hf Hoff Hn; cbn [truncate_loop];
    (eapply wp_step; [by apply ftruncate_law|]); intros [r eintr] d1 (Hk & Hr).
  - destruct (r <? 0) eqn:Er; cbn [andb].
    + destruct Hr as (Hs & Hh & Hi). destruct eintr; [specialize (Hi eq_refl); lia|].
      apply wp_ret. by rewrite Er.
    + apply wp_ret. rewrite Er. by split.
  - destruct (r <? 0) eqn:Er; cbn [andb].
    + destruct Hr as (Hs & Hh & Hi). destruct eintr.
      * eapply wp_mono; [apply IH; [by rewrite (fd_file_same d d1)|done|specialize (Hi eq_refl); lia]|].
        intros r2 d2 (Hk2 & Hr2). split; [unfold keeps_health in *; auto|].
        destruct (r2 <? 0); [split; [by eapply os_same_trans; [|apply Hr2]|done]|].
        destruct Hs as (E1 & E2 & E3). destruct Hr2 as (E1' & E3' & i & Hi' & E2').
        split_and!; [congruence|congruence|]. exists i. split; congruence.
      * apply wp_ret. by rewrite Er.
    + apply wp_ret. rewrite Er. by split.
Qed.

Lemma interrupted_pread n fd k off f d :
  fd_file d fd = Some f → 0 < k → 0 ≤ off → (interruptions d ≤ n)%nat →
  wp (pread_loop n fd k off) d (λ r d', keeps_health d d' ∧ os_same d d' ∧
    match r with
    | Some b => b `prefix_of` drop (Z.to_nat off) f ∧ zlen b ≤ k ∧ (b = [] → zlen f ≤ off)
    | None => ¬ healthy d
    end).
Proof.
  revert d. induction n as [|n IH]; intros d Hf Hk Hoff Hn; cbn [pread_loop];
    (eapply wp_step; [by apply pread_law|]); intros [[b|] eintr] d1 (Hk1 & Hs1 & Hr); [by apply wp_ret| |by apply wp_ret|].
  - destruct Hr as [Hh Hi]. destruct eintr; [specialize (Hi eq_refl); lia|]. by apply wp_ret.
  - destruct Hr as [Hh Hi]. destruct eintr; [|by apply wp_ret].
    eapply wp_mono; [apply IH; [by rewrite (fd_file_same d d1)|done|done|specialize (Hi eq_refl); lia]|].
    intros r2 d2 (Hk2 & Hs2 & Hr2). split_and!; [unfold keeps_health in *; auto|by eapply os_same_trans|].
    destruct r2; [done|]. done.
Qed.

(** The state of a reader of the range up to [stop] of a file that holds [f]. *)
Definition reads (reader : kvs_aof_reader_t) d f (stop : Z) : Prop :=
  0 ≤ rd_fd reader ∧ fd_file d (rd_fd reader) = Some f ∧ 0 ≤ rd_offset reader ∧ 0 ≤ rd_remaining reader ∧
  rd_offset reader + rd_remaining reader = stop ∧ stop ≤ zlen f.

Lemma reader_read_spec reader d f stop cap :
  reads reader d f stop → 0 < cap →
  wp (kvs_aof_reader_read reader cap) d (λ '(r, reader') d', keeps_health d d' ∧ os_same d d' ∧
    match r with
    | None => reader' = reader ∧ ¬ healthy d
    | Some b => reads reader' d' f stop ∧ rd_fd reader' = rd_fd reader ∧ zlen b ≤ cap ∧
        rd_offset reader' = rd_offset reader + zlen b ∧
        take (Z.to_nat (zlen b)) (drop (Z.to_nat (rd_offset reader)) f) = b ∧
        (b = [] ↔ rd_offset reader = stop)
    end).
Proof.
  intros (Hfd & Hf & Ho & Hrem & Hstop & Hle) Hcap. unfold kvs_aof_reader_read.
  rewrite !(proj2 (Z.ltb_ge _ 0)), (proj2 (Z.leb_gt cap 0)) by lia. cbn [orb].
  destruct (Z.eqb_spec (rd_remaining reader) 0) as [E|E].
  { apply wp_ret. split; [by intros ?|]. split; [apply os_same_refl|]. split; [done|]. split; [done|]. rewrite zlen_nil.
    split; [lia|]. split; [lia|]. split; [done|]. split; [lia|done]. }
  eapply wp_eq; [done|].
  eapply wp_step; [apply (interrupted_pread _ _ _ _ f); [done|case_goal; lia|lia|done]|].
  intros [b|] d1 (Hk & Hs & Hr); [|apply wp_ret; split_and!; done].
  destruct Hr as ((rest & Hb) & Hlen & Hnil). destruct b as [|c b].
  { apply wp_ret. specialize (Hnil eq_refl). lia. }
  apply wp_ret. set (b' := c :: b) in *.
  assert (0 < zlen b') by (unfold b'; rewrite zlen_cons; pose proof (zlen_nonneg b); lia).
  assert (zlen b' ≤ cap ∧ zlen b' ≤ rd_remaining reader) as [? ?] by (destruct (Z.ltb_spec (rd_remaining reader) cap); lia).
  split_and!; [done|done| |done|done|done| |split; [done|lia]].
  - unfold reads. cbn. rewrite (fd_file_same d d1) by done. split_and!; done || lia.
  - rewrite Hb. unfold zlen. by rewrite Nat2Z.id, take_app_length.
Qed.
End files.

Section lifecycle.
Context `{CRuntimeLaws RT} `{OsLaws D}.
Notation W := (pworld RT D).
Implicit Types (w : W) (f : bytes) (d : D).

Lemma aof_close_file fd d :
  0 ≤ fd → wp (kvs_aof_file_close fd) d (λ r d', keeps_health d d' ∧
    os_names d' = os_names d ∧ os_data d' = os_data d ∧ os_fds d' = delete fd (os_fds d)).
Proof.
  intros Hfd. unfold kvs_aof_file_close. rewrite (proj2 (Z.ltb_ge _ _)) by lia.
  eapply wp_mono; [apply close_law|]. naive_solver.
Qed.

(** Opening a log continues at its end; the file is created when it is absent.
    A failure leaves the writer closed and keeps no descriptor. *)
Definition aof_open_post (path : bytes) w (r : Z) w' : Prop :=
  p_rt w' = p_rt w ∧ keeps_health (p_os w) (p_os w') ∧
  (∀ p f, file_at (p_os w) p = Some f → file_at (p_os w') p = Some f) ∧
  (r = 0 ∧ (∃ f, aof_log w' f ∧ (os_names (p_os w) !! path = None ∧ f = [] ∨ file_at (p_os w) path = Some f)) ∨
   r = -1 ∧ p_aof w' = p_aof w ∧ os_fds (p_os w') = os_fds (p_os w) ∧
     (healthy (p_os w) → file_at (p_os w) path = None)).

Lemma aof_open_spec path w :
  path ≠ [] → p_aof w = aof_writer_closed →
  wp (kvs_aof_open path) w (aof_open_post path w).
Proof.
  intros Hp Hc. destruct w as [rt d0 a]. cbn [p_aof] in Hc. subst a.
  set (w := PWorld rt d0 aof_writer_closed). unfold kvs_aof_open. eapply wp_eq; [done|]. cbn [w p_aof]. cbn [aw_fd aw_initialized aof_writer_closed].
  rewrite bool_decide_eq_false_2 by done. cbn [Z.leb Z.compare orb].
  eapply step_os; [apply open_write_law|]. intros [fd|] d1 (Hk1 & Ho).
  2:{ destruct Ho as [Hs Hh]. apply wp_ret. split_and!; [done|done| |].
      - intros p f Hf. by rewrite (file_at_same (p_os w)).
      - right. split_and!; [done|done|apply Hs|done]. }
  destruct Ho as (i & (Hpos & Hfree & Hfds) & Hi).
  assert (fd_file d1 fd = os_data d1 !! i) as Hfile by (unfold fd_file; by rewrite Hfds, lookup_insert_eq).
  assert (∀ p f, file_at (p_os w) p = Some f → file_at d1 p = Some f) as Hkeep.
  { intros p f Hf. unfold file_at in *. destruct (os_names (p_os w) !! path) as [j|] eqn:Ej.
    - destruct Hi as (-> & -> & ->). done.
    - destruct Hi as [(-> & Hn & ->)|(-> & -> & _)]; [|done].
      destruct (os_names (p_os w) !! p) as [j|] eqn:Ejp; [|done]. simpl in Hf.
      rewrite lookup_insert_ne by (intros <-; congruence). rewrite Ejp. simpl.
      rewrite lookup_insert_ne; [done|]. intros <-. cbn in Hn. congruence. }
  eapply step_os; [apply fstat_law; cbn; rewrite Hfds, lookup_insert_eq; by eexists|].
  intros info d2 (Hk2 & Hs2 & Hr2). cbn [p_os put_os p_rt p_aof] in *.
  assert (∀ d', os_same d1 d' → keeps_health (p_os w) d' →
    (healthy (p_os w) → file_at (p_os w) path = None) →
    wp (on_os (kvs_aof_file_close fd);; mret (-1)) (put_os d' w) (aof_open_post path w)) as Hfail.
  { intros d' Hs Hk Hno. eapply step_os; [by apply aof_close_file|]. intros x d3 (Hk3 & Hn3 & Hd3 & Hf3). apply wp_ret.
    cbn in *. destruct Hs as (En & Ed & Ef). split_and!; [done|unfold keeps_health in *; auto| |right; split_and!; [done|done| |done]].
    - intros p f Hf%Hkeep. unfold file_at in *. cbn. by rewrite Hn3, Hd3, En, Ed.
    - cbn. rewrite Hf3, Ef, Hfds. by rewrite delete_insert_id. }
  assert (keeps_health (p_os w) d2) as Hk by (unfold keeps_health in *; auto).
  destruct info as [[[] st_size]|].
  - destruct Hr2 as (f & Hf & ->). pose proof (zlen_nonneg f). cbn [negb orb].
    rewrite (proj2 (Z.ltb_ge _ _)) by lia.
    eapply step_os; [apply uring_init_law|]. intros r d3 (Hk3 & Hs3 & Hh3).
    destruct (Z.ltb_spec r 0).
    { apply Hfail; [by eapply os_same_trans|unfold keeps_health in *; auto|]. intros Hh. apply Hk, Hh3 in Hh. lia. }
    eapply wp_eq; [done|]. apply wp_ret. cbn. pose proof (os_same_trans _ _ _ Hs2 Hs3) as Hs.
    split_and!; [done|unfold keeps_health in *; auto| |left].
    + intros p f' Hf'. rewrite (file_at_same d1) by done. by apply Hkeep.
    + split; [done|]. exists f. split.
      * split_and!; [done|done|done|]. cbn. by rewrite (fd_file_same d1).
      * rewrite Hfile in Hf. unfold file_at. destruct (os_names (p_os w) !! path) as [j|].
        -- destruct Hi as (-> & _ & <-). by right.
        -- destruct Hi as [(_ & _ & Hd)|(_ & Hd & Hnone)]; [|congruence].
           rewrite Hd, lookup_insert_eq in Hf. left. split; [done|congruence].
  - cbn [negb orb]. apply Hfail; [done|done|]. intros _. rewrite Hfile in Hr2. unfold file_at.
    destruct (os_names (p_os w) !! path) as [j|]; [|done]. destruct Hi as (-> & _ & <-). done.
  - apply Hfail; [done|done|]. intros Hh. by apply Hk1, Hr2 in Hh.
Qed.

(** The contents after a cut or an extension to [off] bytes. *)
Definition cut_to (off : Z) f : bytes :=
  take (Z.to_nat off) f ++ replicate (Z.to_nat off - List.length f) NUL.

Lemma zlen_cut_to off f : 0 ≤ off → zlen (cut_to off f) = off.
Proof. intros Ho. unfold cut_to, zlen. rewrite length_app, length_take, length_replicate. lia. Qed.

(** After a reset the log is cut (or extended) to the offset and appends go on
    there; when the cut itself fails nothing has changed. *)
Lemma aof_reset_spec off w f :
  aof_log w f → 0 ≤ off →
  wp (kvs_aof_reset_to_offset off) w (λ r w', p_rt w' = p_rt w ∧ keeps_health (p_os w) (p_os w') ∧
    (healthy (p_os w) → 0 ≤ r) ∧
    (aof_log w' (cut_to off f) ∧ aw_fd (p_aof w') = aw_fd (p_aof w) ∧
       fd_written (p_os w) (aw_fd (p_aof w)) (cut_to off f) (p_os w') ∨
     r = -1 ∧ p_aof w' = p_aof w ∧ os_same (p_os w) (p_os w'))).
Proof.
  intros (Hfd & Hin & _ & Hf) Hoff. unfold kvs_aof_reset_to_offset. eapply wp_eq; [done|].
  rewrite Hin, !(proj2 (Z.ltb_ge _ 0)) by lia. cbn [orb negb]. eapply wp_eq; [done|].
  eapply step_os; [by apply (interrupted_ftruncate _ _ _ f)|]. intros r d1 (Hk1 & Hr).
  destruct (Z.ltb_spec r 0).
  { apply wp_ret. destruct Hr as [Hs Hh]. split_and!; [done|done|done|by right]. }
  eapply wp_eq; [done|]. apply wp_zoom. eapply wp_mono; [apply uring_sync_law|]. intros sr d2 (Hk2 & Hs2 & Hh2). cbn in *.
  pose proof (fd_written_same _ _ _ _ _ Hr Hs2) as Hw.
  split_and!; [done|unfold keeps_health in *; auto| |left].
  - intros Hh. apply Hh2; [auto|]. destruct Hr as (_ & Hfds & i & Hi & _). rewrite Hfds, Hi. by eexists.
  - split; [|done]. split_and!; [done|done| |by eapply fd_written_file]. cbn. by rewrite zlen_cut_to.
Qed.
End lifecycle.

(** A whole log from a boundary. *)
Lemma aof_replay_commands `{OsLaws D} {T} (get_os : T → D) (set_os : D → T → T)
    (path pre : bytes) cmds ts handler s (P : Z → T → Prop) :
  path ≠ [] → file_at (get_os s) path = Some (pre ++ mjoin ts) → zlen (pre ++ mjoin ts) ≤ SIZE_MAX →
  Forall2 command_text cmds ts → Forall (λ c, 1 ≤ zlen c ≤ 3) cmds →
  (∀ s1, os_indistinct get_os set_os s s1 → wp (replay_commands handler cmds) s1 P) →
  wp (kvs_aof_replay get_os set_os path (zlen pre) handler) s (replay_outcome get_os set_os s P).
Proof.
  intros Hp Hf Hsz Hts Hc Hh. apply (aof_replay_spec _ _ path _ handler s (pre ++ mjoin ts)); try done.
  { apply zlen_nonneg. }
  intros s1 Hs1. rewrite Z.min_l by (rewrite zlen_app; pose proof (zlen_nonneg (mjoin ts)); lia).
  unfold wp. rewrite (replay_loop_whole handler cmds ts) by done. by apply Hh.
Qed.

(** * Properties *)

(** C34: appending to a log either makes the text of the command, and nothing
    else, the end of the file and moves the writer behind it, or fails with -1
    leaving the writer where it was and every byte of the log in place; the
    buffer it allocates is released on every path.  It succeeds when memory and
    the system calls do and the sizes fit. *)
Theorem aof_append_exact `{CRuntimeLaws RT} `{OsLaws D} (w : pworld RT D) (f : bytes) (ts : list bytes)
    (own : list addr) (F : gset addr) :
  aof_log w f → owns own F (p_rt w) → Forall (λ t, zlen t ≤ SIZE_MAX) ts → 2 ≤ zlen ts ≤ 3 →
  wp (kvs_aof_append (Some <$> ts) (zlen ts)) w (λ r w', append_post w f ts own F r w' ∧
    (roomy (p_rt w) → healthy (p_os w) → zlen (aof_record ts) ≤ SIZE_MAX →
     zlen f + zlen (aof_record ts) ≤ INT64_MAX → r = 0)).
Proof. apply append_spec. Qed.

(** A writer at the end of a file that holds [f]. *)
Definition sample_log (f : bytes) : pworld heap_rt mem_os :=
  PWorld empty_heap (MemOs {[lit "kvs.aof" := 0]} {[0 := f]} {[3 := 0]} false) (AofWriter 3 (zlen f) true).
Definition sample_command : list bytes := [lit "HSET"; lit "k"; lit "v1"].

Lemma sample_log_ok f : aof_log (sample_log f) f.
Proof. by split_and!. Qed.

Lemma aof_append_exact_witness :
  aof_log (sample_log (aof_record sample_command)) (aof_record sample_command) ∧
  wp (kvs_aof_append (Some <$> sample_command) (zlen sample_command)) (sample_log (aof_record sample_command))
    (λ r w', append_post (sample_log (aof_record sample_command)) (aof_record sample_command) sample_command [] ∅ r w' ∧
      (roomy empty_heap → healthy (p_os (sample_log (aof_record sample_command))) →
       zlen (aof_record sample_command) ≤ SIZE_MAX →
       zlen (aof_record sample_command) + zlen (aof_record sample_command) ≤ INT64_MAX → r = 0)).
Proof.
  refine ((λ H, conj H (aof_append_exact (sample_log (aof_record sample_command)) _ sample_command [] ∅ H _ _ _)) _).
  - exact empty_heap_owns.
  - repeat (apply Forall_cons; split; [vm_compute; discriminate|]). by apply Forall_nil.
  - split; vm_compute; discriminate.
  - apply sample_log_ok.
Defined.

(** C36: replaying a log from a command boundary hands exactly the commands behind
    the boundary to the handler, in order, and stops with -1 at the first one
    whose response is not within 1024 bytes; otherwise it returns 0.  The mapping
    is released on every path and the files are untouched. *)
Theorem aof_replay_in_order `{OsLaws D} {T} (get_os : T → D) (set_os : D → T → T)
    (path pre : bytes) cmds ts handler s (P : Z → T → Prop) :
  path ≠ [] → file_at (get_os s) path = Some (pre ++ mjoin ts) → zlen (pre ++ mjoin ts) ≤ SIZE_MAX →
  Forall2 command_text cmds ts → Forall (λ c, 1 ≤ zlen c ≤ 3) cmds →
  (∀ s1, os_indistinct get_os set_os s s1 → wp (replay_commands handler cmds) s1 P) →
  wp (kvs_aof_replay get_os set_os path (zlen pre) handler) s (replay_outcome get_os set_os s P).
Proof. apply aof_replay_commands. Qed.

(** A handler that records the commands it is given. *)
Definition recorder : aof_replay_handler (mem_os * list (list kvs_slice_t)) := λ fields _ '(d, l),
  Ok 4 (d, l ++ [fields]).

Lemma aof_replay_in_order_witness :
  let d := p_os (sample_log (aof_record sample_command ++ aof_record [lit "DEL"; lit "x"])) in
  wp (kvs_aof_replay fst (λ d s, (d, s.2)) (lit "kvs.aof") (zlen (aof_record sample_command)) recorder) (d, [])
    (replay_outcome fst (λ d s, (d, s.2)) (d, []) (λ r s, r = 0 ∧ s.2 = [slice_of <$> [lit "DEL"; lit "x"]])).
Proof.
  intros d.
  refine (aof_replay_in_order fst (λ d s, (d, s.2)) (lit "kvs.aof") (aof_record sample_command)
    [[lit "DEL"; lit "x"]] [aof_record [lit "DEL"; lit "x"]] recorder (d, []) _ _ _ _ _ _ _).
  - discriminate.
  - vm_compute. reflexivity.
  - vm_compute. discriminate.
  - constructor; [|constructor].
    refine (proj1 (proj2 (record_text _ (zlen (aof_record [lit "DEL"; lit "x"])) _ _ _))).
    + repeat (apply Forall_cons; split; [vm_compute; discriminate|]). by apply Forall_nil.
    + vm_compute. discriminate.
    + vm_compute. reflexivity.
  - repeat constructor; vm_compute; discriminate.
  - intros s1 (d1 & -> & _). done.
Defined.

(** A log that ends in the middle of a command (the append was cut off by a
    crash) replays the whole commands before the tear and then reports -1: the
    recovery fails instead of dropping or misreading the incomplete command. *)
Theorem aof_replay_torn `{OsLaws D} {T} (get_os : T → D) (set_os : D → T → T)
    (path pre : bytes) cmds ts c t (k : nat) handler s (P : T → Prop) :
  path ≠ [] → file_at (get_os s) path = Some (pre ++ mjoin ts ++ take k t) →
  zlen (pre ++ mjoin ts ++ t) ≤ SIZE_MAX → Forall2 command_text cmds ts → Forall (λ c, 1 ≤ zlen c ≤ 3) cmds →
  command_text c t → 1 ≤ zlen c ≤ 3 → (0 < k < List.length t)%nat →
  (∀ s1, os_indistinct get_os set_os s s1 → wp (replay_commands handler cmds) s1 (λ r s2, r = 0 ∧ P s2)) →
  wp (kvs_aof_replay get_os set_os path (zlen pre) handler) s (λ r s', r = -1 ∧
    replay_outcome get_os set_os s (λ r s2, r = -1 ∧ P s2) r s').
Proof.
  intros Hp Hf Hsz Hts Hcs Ht Hc Hk Hh.
  pose proof (zlen_nonneg (mjoin ts)). pose proof (zlen_nonneg pre).
  assert (zlen (take k t) = Z.of_nat k) as Hkl by (unfold zlen; rewrite length_take; lia).
  assert (zlen (pre ++ mjoin ts ++ take k t) ≤ SIZE_MAX) as Hsz'.
  { rewrite !zlen_app in *. unfold zlen at 3 in Hsz. lia. }
  eapply wp_mono.
  - apply (aof_replay_spec _ _ path (zlen pre) handler s (pre ++ mjoin ts ++ take k t) (λ r s2, r = -1 ∧ P s2) Hp); [done|exact Hf|done|].
    intros s1 Hs1. rewrite Z.min_l by (rewrite !zlen_app; lia).
    unfold wp. rewrite (replay_loop_log handler cmds ts) by done.
    specialize (Hh s1 Hs1). revert Hh. unfold wp at 1. unfold mbind, M_bind.
    destruct (replay_commands handler cmds s1) as [r s2| |]; [|done|done]. intros [-> HP]. cbn [Z.ltb Z.compare].
    rewrite app_assoc, <- zlen_app, (replay_loop_torn handler _ _ c); try done.
    rewrite !zlen_app in Hsz. lia.
  - intros r s' Ho. split; [|done]. destruct Ho as [[-> _]|(r2 & s2 & [-> _] & _ & [-> | [-> _]])]; done.
Qed.

Lemma aof_replay_torn_witness :
  let d := p_os (sample_log (aof_record sample_command ++ take 9 (aof_record [lit "DEL"; lit "x"]))) in
  wp (kvs_aof_replay fst (λ d s, (d, s.2)) (lit "kvs.aof") (zlen ([] : bytes)) recorder) (d, []) (λ r s', r = -1 ∧
    replay_outcome fst (λ d s, (d, s.2)) (d, []) (λ r s, r = -1 ∧ s.2 = [slice_of <$> sample_command]) r s').
Proof.
  intros d.
  refine (aof_replay_torn fst (λ d s, (d, s.2)) (lit "kvs.aof") []
    [sample_command] [aof_record sample_command] [lit "DEL"; lit "x"] (aof_record [lit "DEL"; lit "x"]) 9 recorder
    (d, []) _ _ _ _ _ _ _ _ _ _).
  - discriminate.
  - vm_compute. reflexivity.
  - vm_compute. discriminate.
  - constructor; [|constructor].
    refine (proj1 (proj2 (record_text _ (zlen (aof_record sample_command)) _ _ _))).
    + repeat (apply Forall_cons; split; [vm_compute; discriminate|]). by apply Forall_nil.
    + vm_compute. discriminate.
    + vm_compute. reflexivity.
  - repeat constructor; vm_compute; discriminate.
  - refine (proj1 (proj2 (record_text _ (zlen (aof_record [lit "DEL"; lit "x"])) _ _ _))).
    + repeat (apply Forall_cons; split; [vm_compute; discriminate|]). by apply Forall_nil.
    + vm_compute. discriminate.
    + vm_compute. reflexivity.
  - split; vm_compute; discriminate.
  - vm_compute. lia.
  - intros s1 (d1 & -> & _). done.
Defined.

(** A reader of a range of the log gives the next bytes of the range, at most
    as many as fit, and at least one until the range is exhausted; it never reads
    past the end of the range, and fails only when the system call does. *)
Theorem aof_reader_exact `{OsLaws D} (reader : kvs_aof_reader_t) (d : D) (f : bytes) (stop cap : Z) :
  reads reader d f stop → 0 < cap →
  wp (kvs_aof_reader_read reader cap) d (λ '(r, reader') d', keeps_health d d' ∧ os_same d d' ∧
    match r with
    | None => reader' = reader ∧ ¬ healthy d
    | Some b => reads reader' d' f stop ∧ rd_fd reader' = rd_fd reader ∧ zlen b ≤ cap ∧
        rd_offset reader' = rd_offset reader + zlen b ∧
        take (Z.to_nat (zlen b)) (drop (Z.to_nat (rd_offset reader)) f) = b ∧
        (b = [] ↔ rd_offset reader = stop)
    end).
Proof. apply reader_read_spec. Qed.

Lemma aof_reader_exact_witness :
  let d := p_os (sample_log (lit "abcdefgh")) in
  wp (kvs_aof_reader_read (AofReader 3 2 4) 3) d (λ '(r, reader') d', keeps_health d d' ∧ os_same d d' ∧
    match r with
    | None => reader' = AofReader 3 2 4 ∧ ¬ healthy d
    | Some b => reads reader' d' (lit "abcdefgh") 6 ∧ rd_fd reader' = 3 ∧ zlen b ≤ 3 ∧ rd_offset reader' = 2 + zlen b ∧
        take (Z.to_nat (zlen b)) (drop (Z.to_nat 2) (lit "abcdefgh")) = b ∧ (b = [] ↔ 2 = 6)
    end).
Proof.
  intros d. refine (aof_reader_exact (AofReader 3 2 4) d (lit "abcdefgh") 6 3 _ _); [|lia].
  split_and!; [done|reflexivity|done|done|done|vm_compute; discriminate].
Defined.
