(* ===== verification/SnapshotIo.v ===== *)
(** Snapshot files in pieces, src/persistence/snapshot_io.c: the reader a primary sends
    a snapshot with and the writer a replica receives it with.

    [read] and [write] advance the position of the open file, which only these
    functions use; it is kept beside the descriptor.  Pointers to the two structures
    and to the data are never null in the program. *)

From Stdlib Require Import ZArith Lia.
From S2P Require Import Prelude Runtime Os Aof.

(** [kvs_snapshot_reader_t] and [kvs_snapshot_writer_t] with the position of the file. *)
Record kvs_snapshot_reader_t := SnapshotReader { sr_fd : Z; sr_position : Z; sr_remaining : Z }.
Record kvs_snapshot_writer_t := SnapshotWriter { wf_fd : Z; wf_position : Z; wf_remaining : Z }.
Definition reader_closed : kvs_snapshot_reader_t := SnapshotReader (-1) 0 0.
Definition writer_closed : kvs_snapshot_writer_t := SnapshotWriter (-1) 0 0.

Section ops.
Context `{Os D}.

Definition kvs_snapshot_file_read (fd length position : Z) : M D (option bytes * bool) := sys_pread fd length position.
Definition kvs_snapshot_file_write (fd : Z) (buffer : bytes) (position : Z) : M D (Z * bool) := sys_write fd position buffer.
Definition kvs_snapshot_file_close (fd : Z) : M D Z := sys_close fd.

Definition kvs_snapshot_reader_open (reader : kvs_snapshot_reader_t) (path : bytes) (expected_size : Z) : M D (Z * kvs_snapshot_reader_t) :=
  if bool_decide (path = []) || (expected_size <=? 0) then mret (-1, reader) else
  opened ← sys_open_read path;
  match opened with
  | Opened fd =>
      file_info ← sys_fstat fd;
      match file_info with
      | Some (true, st_size) =>
          if negb (st_size =? expected_size) then kvs_snapshot_file_close fd;; mret (-1, reader_closed)
          else mret (0, SnapshotReader fd 0 expected_size)
      | _ => kvs_snapshot_file_close fd;; mret (-1, reader_closed)
      end
  | _ => mret (-1, reader_closed)
  end.

(** The [do ... while] loop around [read]. *)
Fixpoint read_loop (fuel : nat) (fd n position : Z) : M D (option bytes) :=
  '(r, eintr) ← kvs_snapshot_file_read fd n position;
  match r with
  | None => if (eintr : bool) then match fuel with O => undefined | S fuel => read_loop fuel fd n position end else mret None
  | Some b => mret (Some b)
  end.

(** The bytes read, their number being the result; [None] is -1. *)
Definition kvs_snapshot_reader_read (reader : kvs_snapshot_reader_t) (output_capacity : Z) : M D (option bytes * kvs_snapshot_reader_t) :=
  if (sr_fd reader <? 0) || (sr_remaining reader <? 0) || (output_capacity <=? 0) then mret (None, reader) else
  if sr_remaining reader =? 0 then mret (Some [], reader) else
  let read_size := if sr_remaining reader <? output_capacity then sr_remaining reader else output_capacity in
  n ← gets interruptions;
  result ← read_loop n (sr_fd reader) read_size (sr_position reader);
  match result with
  | None | Some [] => mret (None, reader)
  | Some b => mret (Some b, SnapshotReader (sr_fd reader) (sr_position reader + zlen b) (sr_remaining reader - zlen b))
  end.

Definition kvs_snapshot_reader_close (reader : kvs_snapshot_reader_t) : M D kvs_snapshot_reader_t :=
  (if 0 <=? sr_fd reader then kvs_snapshot_file_close (sr_fd reader);; mret tt else mret tt);;
  mret reader_closed.

Definition kvs_snapshot_writer_open (writer : kvs_snapshot_writer_t) (temp_path : bytes) (expected_size : Z) : M D (Z * kvs_snapshot_writer_t) :=
  if bool_decide (temp_path = []) || (expected_size <=? 0) then mret (-1, writer) else
  fd ← sys_open_truncate temp_path;
  match fd with
  | None => mret (-1, writer_closed)
  | Some fd => mret (0, SnapshotWriter fd 0 expected_size)
  end.

(** The loop of [kvs_snapshot_writer_write]: every turn writes at least one byte or is
    interrupted.  The number of bytes written, and whether all were. *)
Fixpoint write_loop (fuel : nat) (fd position : Z) (data : bytes) (written : Z) : M D (Z * bool) :=
  if zlen data <=? written then mret (written, true) else
  '(result, eintr) ← kvs_snapshot_file_write fd (drop (Z.to_nat written) data) (position + written);
  match fuel with
  | O => undefined
  | S fuel =>
      if 0 <? result then write_loop fuel fd position data (written + result)
      else if (result <? 0) && eintr then write_loop fuel fd position data written
      else mret (written, false)
  end.

Definition kvs_snapshot_writer_write (writer : kvs_snapshot_writer_t) (data : bytes) : M D (Z * kvs_snapshot_writer_t) :=
  let length := zlen data in
  if (wf_fd writer <? 0) || (wf_remaining writer <? 0) || (length <=? 0) then mret (-1, writer) else
  if wf_remaining writer =? 0 then mret (0, writer) else
  let write_size := if wf_remaining writer <? length then wf_remaining writer else length in
  n ← gets interruptions;
  '(written, done) ← write_loop (S (Z.to_nat write_size + n)) (wf_fd writer) (wf_position writer) (take (Z.to_nat write_size) data) 0;
  if (done : bool)
  then mret (written, SnapshotWriter (wf_fd writer) (wf_position writer + written) (wf_remaining writer - written))
  else mret (-1, SnapshotWriter (wf_fd writer) (wf_position writer + written) (wf_remaining writer)).

Definition kvs_snapshot_writer_commit (writer : kvs_snapshot_writer_t) (temp_path final_path : bytes) : M D (Z * kvs_snapshot_writer_t) :=
  if (wf_fd writer <? 0) || negb (wf_remaining writer =? 0) || bool_decide (temp_path = []) || bool_decide (final_path = [])
  then mret (-1, writer) else
  let closed := SnapshotWriter (-1) (wf_position writer) (wf_remaining writer) in
  '(r, _) ← sys_fsync (wf_fd writer);
  if negb (r =? 0) then kvs_snapshot_file_close (wf_fd writer);; mret (-1, closed) else
  r ← kvs_snapshot_file_close (wf_fd writer);
  if negb (r =? 0) then mret (-1, closed) else
  r ← sys_rename temp_path final_path;
  if negb (r =? 0) then mret (-1, closed) else
  mret (0, closed).

Definition kvs_snapshot_writer_abort (writer : kvs_snapshot_writer_t) (temp_path : bytes) : M D kvs_snapshot_writer_t :=
  (if 0 <=? wf_fd writer then kvs_snapshot_file_close (wf_fd writer);; mret tt else mret tt);;
  (if bool_decide (temp_path ≠ []) then sys_unlink temp_path;; mret tt else mret tt);;
  mret writer_closed.
End ops.

(** * Lemmas *)

Section specs.
Context `{OsLaws D}.
Implicit Types (d : D) (f data b path : bytes).

(** A snapshot reader that has given the first [sr_position] bytes of the file. *)
Definition sends_file (reader : kvs_snapshot_reader_t) d f : Prop :=
  0 ≤ sr_fd reader ∧ fd_file d (sr_fd reader) = Some f ∧ 0 ≤ sr_position reader ∧ 0 ≤ sr_remaining reader ∧
  sr_position reader + sr_remaining reader = zlen f.

(** A snapshot writer that has stored [f], the first part of a file of [total] bytes. *)
Definition receives_file (writer : kvs_snapshot_writer_t) d f total : Prop :=
  0 ≤ wf_fd writer ∧ fd_file d (wf_fd writer) = Some f ∧ wf_position writer = zlen f ∧ 0 ≤ wf_remaining writer ∧
  zlen f + wf_remaining writer = total.

Lemma read_loop_pread n fd k off d : read_loop n fd k off d = pread_loop n fd k off d.
Proof.
  revert d. induction n as [|n IH]; intros d; cbn [read_loop pread_loop]; [done|].
  apply bind_ext. intros [[b|] []] d1; [done..|apply IH|done].
Qed.

Lemma snapshot_reader_open_spec reader path size d :
  path ≠ [] → 0 < size →
  wp (kvs_snapshot_reader_open reader path size) d (λ '(r, reader') d', keeps_health d d' ∧
    os_names d' = os_names d ∧ os_data d' = os_data d ∧
    (healthy d → (∃ f, file_at d path = Some f ∧ zlen f = size) → r = 0) ∧
    (r = 0 ∧ (∃ i, os_opened d (sr_fd reader') i d') ∧ sr_position reader' = 0 ∧ sr_remaining reader' = size ∧
       (∃ f, sends_file reader' d' f ∧ (is_Some (os_names d !! path) → file_at d path = Some f)) ∨
     r = -1 ∧ reader' = reader_closed ∧ os_fds d' = os_fds d)).
Proof.
  intros Hp Hs. unfold kvs_snapshot_reader_open. rewrite bool_decide_eq_false_2, (proj2 (Z.leb_gt _ _)) by done.
  cbn [orb]. eapply wp_step; [apply open_read_law|]. intros [fd| |] d1 (Hk1 & Ho).
  2:{ apply wp_ret. destruct Ho as [(En & Ed & Ef) Hno]. split_and!; [done|done|done| |by right].
      intros _ (f & Hf & _). unfold file_at in Hf. by rewrite Hno in Hf. }
  2:{ apply wp_ret. destruct Ho as [(En & Ed & Ef) Hno]. split_and!; [done|done|done| |by right].
      intros Hh (f & Hf & _). unfold file_at in Hf. by rewrite Hno in Hf. }
  destruct Ho as (i & (Hpos & Hfree & Hfds) & En & Ed & Hi).
  assert (fd_file d1 fd = os_data d !! i) as Hfile by (unfold fd_file; by rewrite Hfds, lookup_insert_eq, Ed).
  assert (is_Some (os_names d !! path) → file_at d path = os_data d !! i) as Hat.
  { intros [j Hj]. unfold file_at. rewrite Hj in *. by subst i. }
  eapply wp_step; [apply fstat_law; rewrite Hfds, lookup_insert_eq; by eexists|]. intros info d2 (Hk2 & Hs2 & Hr2).
  assert (keeps_health d d2) as Hk by (unfold keeps_health in *; auto).
  assert ((healthy d → (∃ f, file_at d path = Some f ∧ zlen f = size) → False) →
    wp (kvs_snapshot_file_close fd;; mret (-1, reader_closed)) d2 (λ '(r, reader') d', keeps_health d d' ∧
      os_names d' = os_names d ∧ os_data d' = os_data d ∧
      (healthy d → (∃ f, file_at d path = Some f ∧ zlen f = size) → r = 0) ∧
      (r = 0 ∧ (∃ i, os_opened d (sr_fd reader') i d') ∧ sr_position reader' = 0 ∧ sr_remaining reader' = size ∧
         (∃ f, sends_file reader' d' f ∧ (is_Some (os_names d !! path) → file_at d path = Some f)) ∨
       r = -1 ∧ reader' = reader_closed ∧ os_fds d' = os_fds d))) as Hfail.
  { intros Hno. eapply wp_step; [apply close_law|]. intros x d3 (Hk3 & En3 & Ed3 & Ef3 & _). apply wp_ret.
    destruct Hs2 as (E1 & E2 & E3). split_and!; [unfold keeps_health in *; auto|congruence|congruence| |right].
    - intros Hh Hf. by destruct Hno.
    - split_and!; [done|done|]. rewrite Ef3, E3, Hfds. by rewrite delete_insert_id. }
  destruct info as [[[] n]|].
  - destruct Hr2 as (f & Hf & ->). rewrite Hfile in Hf. destruct (Z.eqb_spec (zlen f) size) as [E|E]; cbn [negb].
    + apply wp_ret. destruct Hs2 as (E1 & E2 & E3). split_and!; [done|congruence|congruence|done|left].
      split_and!; [done| |done|done|].
      * exists i. split_and!; [done|done|]. cbn. congruence.
      * exists f. split; [|intros Hn; by rewrite Hat]. split_and!; cbn; try lia.
        unfold fd_file. by rewrite E3, Hfds, lookup_insert_eq, E2, Ed.
    + apply Hfail. intros _ (f' & Hf' & E'). unfold file_at in Hf'.
      destruct (os_names d !! path) as [j|]; [|done]. simpl in Hf'. subst i. congruence.
  - apply Hfail. intros _ (f' & Hf' & E'). rewrite Hfile in Hr2. unfold file_at in Hf'.
    destruct (os_names d !! path) as [j|]; [|done]. simpl in Hf'. subst i. congruence.
  - apply Hfail. intros Hh _. by apply Hr2, Hk1.
Qed.

(** The next bytes of the file, at most as many as fit and at least one while there are any. *)
Lemma snapshot_reader_read_spec reader d f cap :
  sends_file reader d f → 0 < cap →
  wp (kvs_snapshot_reader_read reader cap) d (λ '(r, reader') d', keeps_health d d' ∧ os_same d d' ∧
    match r with
    | None => reader' = reader ∧ ¬ healthy d
    | Some b => sends_file reader' d' f ∧ sr_fd reader' = sr_fd reader ∧ zlen b ≤ cap ∧
        sr_position reader' = sr_position reader + zlen b ∧
        take (Z.to_nat (sr_position reader')) f = take (Z.to_nat (sr_position reader)) f ++ b ∧
        (b = [] ↔ sr_remaining reader = 0)
    end).
Proof.
  intros (Hfd & Hf & Ho & Hrem & Hstop) Hcap. unfold kvs_snapshot_reader_read.
  rewrite !(proj2 (Z.ltb_ge _ 0)), (proj2 (Z.leb_gt cap 0)) by lia. cbn [orb].
  destruct (Z.eqb_spec (sr_remaining reader) 0) as [E|E].
  { apply wp_ret. split; [by intros ?|]. split; [apply os_same_refl|]. split; [done|]. rewrite zlen_nil, app_nil_r.
    split; [done|]. split; [lia|]. split; [lia|]. split; [done|]. by split. }
  eapply wp_eq; [done|]. cbv beta zeta. eapply wp_step.
  { unfold wp. rewrite read_loop_pread. apply (interrupted_pread _ _ _ _ f); [done|case_goal; lia|lia|done]. }
  intros [b|] d1 (Hk & Hs & Hr); [|apply wp_ret; split_and!; done].
  destruct Hr as ((rest & Hb) & Hlen & Hnil). destruct b as [|c b].
  { apply wp_ret. specialize (Hnil eq_refl). lia. }
  apply wp_ret. set (b' := c :: b) in *.
  assert (0 < zlen b') by (unfold b'; rewrite zlen_cons; pose proof (zlen_nonneg b); lia).
  assert (zlen b' ≤ cap ∧ zlen b' ≤ sr_remaining reader) as [? ?] by (destruct (Z.ltb_spec (sr_remaining reader) cap); lia).
  split_and!; [done|done| |done|done|done| |split; [done|lia]].
  - unfold sends_file. cbn. rewrite (fd_file_same d d1) by done. split_and!; done || lia.
  - cbn. rewrite <- (take_drop (Z.to_nat (sr_position reader)) f) at 1. rewrite Hb, app_assoc, take_app_length'; [done|].
    rewrite length_app, length_take. unfold zlen in *. lia.
Qed.

Lemma snapshot_reader_close_spec reader d :
  wp (kvs_snapshot_reader_close reader) d (λ reader' d', keeps_health d d' ∧ reader' = reader_closed ∧
    os_names d' = os_names d ∧ os_data d' = os_data d ∧
    os_fds d' = if 0 <=? sr_fd reader then delete (sr_fd reader) (os_fds d) else os_fds d).
Proof.
  unfold kvs_snapshot_reader_close. destruct (0 <=? sr_fd reader).
  - apply wp_bind_assoc. eapply wp_step; [apply close_law|]. intros x d1 (Hk & Hn & Hd & Hf & _). eapply wp_eq; [done|]. by apply wp_ret.
  - apply wp_ret. split_and!; try done. by intros ?.
Qed.

(** What opening the temporary file leaves: its new contents are empty. *)
Definition writer_opened d (temp : bytes) total writer d' : Prop :=
  writer = SnapshotWriter (wf_fd writer) 0 total ∧ ∃ i, os_opened d (wf_fd writer) i d' ∧
    os_data d' = <[i := []]> (os_data d) ∧
    match os_names d !! temp with
    | Some j => i = j ∧ os_names d' = os_names d
    | None => os_names d' = <[temp := i]> (os_names d) ∧ os_data d !! i = None
    end.

Lemma snapshot_writer_open_spec writer temp total d :
  temp ≠ [] → 0 < total →
  wp (kvs_snapshot_writer_open writer temp total) d (λ '(r, writer') d', keeps_health d d' ∧
    (r = 0 ∧ writer_opened d temp total writer' d' ∧ receives_file writer' d' [] total ∨
     r = -1 ∧ writer' = writer_closed ∧ os_same d d' ∧ ¬ healthy d)).
Proof.
  intros Hp Ht. unfold kvs_snapshot_writer_open. rewrite bool_decide_eq_false_2, (proj2 (Z.leb_gt _ _)) by done.
  cbn [orb]. eapply wp_step; [apply open_truncate_law|]. intros [fd|] d1 (Hk & Ho); apply wp_ret; (split; [done|]).
  - left. destruct Ho as (i & Hop & Hd & Hn). split; [done|]. split; [split; [done|by exists i]|].
    destruct Hop as (Hpos & _ & Hfds). split_and!; cbn; try (done || lia).
    unfold fd_file. by rewrite Hfds, lookup_insert_eq; cbn; rewrite Hd, lookup_insert_eq.
  - right. by destruct Ho.
Qed.

Lemma fd_written_trans d d1 d2 fd f g : fd_written d fd f d1 → fd_written d1 fd g d2 → fd_written d fd g d2.
Proof.
  intros (En & Ef & i & Hi & Ed) (En' & Ef' & j & Hj & Ed'). split; [congruence|]. split; [congruence|].
  exists i. split; [done|]. rewrite Ed', Ed. assert (j = i) as -> by congruence. by rewrite insert_insert_eq.
Qed.

Lemma fd_written_self d fd f : fd_file d fd = Some f → fd_written d fd f d.
Proof.
  unfold fd_file. intros Hf. split; [done|]. split; [done|]. destruct (os_fds d !! fd) as [i|]; [|done].
  exists i. split; [done|]. by rewrite insert_id.
Qed.

Lemma fd_written_at d d' fd f : fd_written d fd f d' → fd_file d' fd = Some f.
Proof. intros (_ & Ef & i & Hi & Ed). unfold fd_file. rewrite Ef, Hi. cbn. by rewrite Ed, lookup_insert_eq. Qed.

(** The loop stores the rest of the data, or in an unhealthy state a part of it. *)
Lemma write_loop_spec fuel fd f data written d :
  fd_file d fd = Some (f ++ take (Z.to_nat written) data) → 0 ≤ written ≤ zlen data →
  (Z.to_nat (zlen data - written) + interruptions d < fuel)%nat →
  wp (write_loop fuel fd (zlen f) data written) d (λ '(n, done) d', keeps_health d d' ∧ written ≤ n ≤ zlen data ∧
    fd_written d fd (f ++ take (Z.to_nat n) data) d' ∧ (done = true → n = zlen data) ∧ (done = false → ¬ healthy d)).
Proof.
  revert written d. induction fuel as [|fuel IH]; intros written d Hf Hw Hfuel; [lia|]. cbn [write_loop].
  destruct (Z.leb_spec (zlen data) written).
  { apply wp_ret. split; [by intros ?|]. split; [lia|]. split; [by apply fd_written_self|]. split; [intros; lia|done]. }
  set (rest := drop (Z.to_nat written) data).
  assert (zlen rest = zlen data - written) as Hrl by (unfold rest, zlen in *; rewrite length_drop; lia).
  pose proof (zlen_nonneg f).
  assert (zlen (f ++ take (Z.to_nat written) data) = zlen f + written) as Hfl.
  { rewrite zlen_app. unfold zlen in *. rewrite length_take. lia. }
  eapply wp_step; [unfold kvs_snapshot_file_write; apply (write_law _ _ _ (f ++ take (Z.to_nat written) data)); [done| |lia]|].
  { intros E. rewrite E in Hrl. change (zlen []) with 0 in Hrl. lia. }
  intros [result eintr] d1 (Hk & Hr). destruct (Z.ltb_spec result 0) as [Hneg|Hpos].
  - destruct Hr as (Hs & Hh & Hi). rewrite (proj2 (Z.ltb_ge 0 _)) by lia. cbn [andb].
    destruct eintr.
    + eapply wp_mono; [apply IH; [by rewrite (fd_file_same d)|done|specialize (Hi eq_refl); lia]|].
      intros [n done] d2 (Hk2 & Hn & Hw2 & Hd1 & Hd2). split; [unfold keeps_health in *; auto|]. split; [done|].
      split; [|split; [done|intros _; exact Hh]]. destruct Hs as (E1 & E2 & E3). destruct Hw2 as (E1' & E3' & i & Hi' & E2').
      split; [congruence|]. split; [congruence|]. exists i. split; congruence.
    + apply wp_ret. split; [done|]. split; [lia|]. split; [|split; [done|done]].
      apply fd_written_self in Hf. destruct Hs as (E1 & E2 & E3). destruct Hf as (_ & _ & i & Hi' & E). split; [done|]. split; [done|].
      exists i. split; [done|congruence].
  - destruct Hr as (En & Ef & Hint & Hle & Hgood & i & Hi & Ed).
    assert (pwrite (zlen f + written) (take (Z.to_nat result) rest) (f ++ take (Z.to_nat written) data) =
      f ++ take (Z.to_nat (written + result)) data) as Epw.
    { rewrite <- Hfl, pwrite_end, <- app_assoc. f_equal. unfold rest. rewrite take_take_drop. f_equal. lia. }
    rewrite Epw in Ed.
    assert (fd_written d fd (f ++ take (Z.to_nat (written + result)) data) d1) as Hw1.
    { split; [done|]. split; [done|]. by exists i. }
    destruct (Z.ltb_spec 0 result) as [Hlt|Hz].
    + eapply wp_mono; [apply IH; [by eapply fd_written_at|lia|lia]|].
      intros [n done] d2 (Hk2 & Hn & Hw2 & Hd1 & Hd2). split; [unfold keeps_health in *; auto|]. split; [lia|].
      split; [by eapply fd_written_trans|]. split; [done|]. intros Hx Hh. exact (Hd2 Hx (Hk Hh)).
    + cbn [andb]. apply wp_ret. split; [done|]. split; [lia|].
      assert (result = 0) as -> by lia. rewrite Z.add_0_r in Hw1. split; [done|]. split; [done|]. intros _ Hh%Hgood. lia.
Qed.

(** A chunk is stored behind what was received, up to the announced size; a failure
    leaves a part of it there. *)
Lemma snapshot_writer_write_spec writer d f total data :
  receives_file writer d f total → data ≠ [] → zlen data ≤ INT_MAX →
  wp (kvs_snapshot_writer_write writer data) d (λ '(r, writer') d', keeps_health d d' ∧ wf_fd writer' = wf_fd writer ∧
    (r = Z.min (zlen data) (wf_remaining writer) ∧ fd_written d (wf_fd writer) (f ++ take (Z.to_nat r) data) d' ∧
       receives_file writer' d' (f ++ take (Z.to_nat r) data) total ∨
     r = -1 ∧ ¬ healthy d ∧ ∃ n, fd_written d (wf_fd writer) (f ++ take n data) d')).
Proof.
  intros (Hfd & Hf & Hpos & Hrem & Htot) Hne Hmax. unfold kvs_snapshot_writer_write. cbv zeta.
  assert (0 < zlen data) as Hl. { pose proof (zlen_nonneg data). destruct (Z.eq_dec (zlen data) 0) as [E%zlen_zero|]; [done|lia]. }
  rewrite !(proj2 (Z.ltb_ge _ 0)), (proj2 (Z.leb_gt _ 0)) by lia. cbn [orb].
  destruct (Z.eqb_spec (wf_remaining writer) 0) as [E|E].
  { apply wp_ret. split; [by intros ?|]. split; [done|]. left. rewrite E, Z.min_r by lia. split; [done|].
    cbn [Z.to_nat take]. rewrite app_nil_r. split; [by apply fd_written_self|]. done. }
  set (size := if wf_remaining writer <? zlen data then wf_remaining writer else zlen data).
  assert (size = Z.min (zlen data) (wf_remaining writer)) as Hsize.
  { unfold size. destruct (Z.ltb_spec (wf_remaining writer) (zlen data)); lia. }
  assert (zlen (take (Z.to_nat size) data) = size) as Hlen by (unfold zlen in *; rewrite length_take; lia).
  eapply wp_eq; [done|]. cbv beta. rewrite Hpos.
  eapply wp_step; [apply (write_loop_spec _ _ f); [by rewrite app_nil_r|lia|lia]|].
  intros [n done] d1 (Hk & Hn & Hw & Hd1 & Hd2). rewrite Hlen in *. rewrite take_take in Hw.
  replace (Z.to_nat n `min` Z.to_nat size)%nat with (Z.to_nat n) in Hw by lia.
  destruct done; apply wp_ret; (split; [done|]); (split; [done|]).
  - left. rewrite Hd1 in * by done. split; [lia|]. split; [done|]. split_and!; cbn; try lia.
    + by eapply fd_written_at.
    + rewrite zlen_app, Hlen. lia.
    + rewrite zlen_app, Hlen. lia.
  - right. split; [done|]. split; [auto|]. by eexists.
Qed.

(** What a replica that gives up leaves of the temporary file. *)
Lemma snapshot_writer_abort_spec writer temp d :
  temp ≠ [] →
  wp (kvs_snapshot_writer_abort writer temp) d (λ writer' d', keeps_health d d' ∧ writer' = writer_closed ∧
    os_data d' = os_data d ∧
    os_fds d' = (if 0 <=? wf_fd writer then delete (wf_fd writer) (os_fds d) else os_fds d) ∧
    (os_names d' = delete temp (os_names d) ∨ os_names d' = os_names d ∧ ¬ healthy d)).
Proof.
  intros Ht. unfold kvs_snapshot_writer_abort. rewrite bool_decide_eq_true_2 by done.
  eapply (wp_step _ _ _ (λ _ d1, keeps_health d d1 ∧ os_names d1 = os_names d ∧ os_data d1 = os_data d ∧
    os_fds d1 = if 0 <=? wf_fd writer then delete (wf_fd writer) (os_fds d) else os_fds d)).
  { destruct (0 <=? wf_fd writer); [|by apply wp_ret; split_and!; try done; intros ?].
    eapply wp_step; [apply close_law|]. intros x d1 (Hk & Hn & Hd & Hf & _). by apply wp_ret. }
  intros _ d1 (Hk1 & Hn1 & Hd1 & Hf1). apply wp_bind_assoc. eapply wp_step; [apply unlink_law|].
  intros r d2 (Hk2 & Hr). eapply wp_eq; [done|]. apply wp_ret. split; [unfold keeps_health in *; auto|]. split; [done|].
  destruct (r <? 0).
  - destruct Hr as [(E1 & E2 & E3) Hh]. split_and!; [congruence|congruence|]. right. split; [congruence|auto].
  - destruct Hr as (E1 & E2 & E3). split_and!; [congruence|congruence|]. left. congruence.
Qed.

(** The complete file takes the final name in one step, or nothing but the
    descriptor is given up. *)
Lemma snapshot_writer_commit_spec writer temp final i d :
  temp ≠ [] → final ≠ [] → 0 ≤ wf_fd writer → wf_remaining writer = 0 →
  os_fds d !! wf_fd writer = Some i → os_names d !! temp = Some i →
  wp (kvs_snapshot_writer_commit writer temp final) d (λ '(r, writer') d', keeps_health d d' ∧
    writer' = SnapshotWriter (-1) (wf_position writer) 0 ∧ os_data d' = os_data d ∧
    os_fds d' = delete (wf_fd writer) (os_fds d) ∧
    (r = 0 ∧ os_names d' = <[final := i]> (delete temp (os_names d)) ∨
     r = -1 ∧ os_names d' = os_names d ∧ ¬ healthy d)).
Proof.
  intros Ht Hfin Hfd Hrem Hi Hn. unfold kvs_snapshot_writer_commit.
  rewrite (proj2 (Z.ltb_ge _ 0)), Hrem, !bool_decide_eq_false_2 by done. cbn [orb negb Z.eqb]. cbv zeta.
  eapply wp_step; [apply fsync_law|]. intros [r eintr] d1 (Hk1 & (E1 & E2 & E3) & Hrc & Hr1).
  destruct (Z.eqb_spec r 0) as [->|Hne]; cbn [negb].
  2:{ destruct Hrc as [?| ->]; [done|]. destruct Hr1 as [Hh _]; [done|].
      eapply wp_step; [apply close_law|]. intros x d2 (Hk2 & Hn2 & Hd2 & Hf2 & _). apply wp_ret.
      split; [unfold keeps_health in *; auto|]. split; [done|]. split; [congruence|]. split; [congruence|]. right.
      split; [done|]. split; [congruence|done]. }
  eapply wp_step; [apply close_law|]. intros r d2 (Hk2 & Hn2 & Hd2 & Hf2 & Hgood & _).
  destruct (Z.eqb_spec r 0) as [->|Hne]; cbn [negb].
  2:{ apply wp_ret. split; [unfold keeps_health in *; auto|]. split; [done|]. split; [congruence|]. split; [congruence|]. right.
      split; [done|]. split; [congruence|]. intros Hh. apply Hne, Hgood; [auto|]. rewrite E3, Hi. by eexists. }
  eapply wp_step; [apply (rename_law _ _ i); congruence|]. intros r d3 (Hk3 & Hrc3 & Hr3).
  destruct Hrc3 as [-> | ->]; cbn [Z.eqb negb Z.ltb Z.compare] in *; apply wp_ret; (split; [unfold keeps_health in *; auto|]); (split; [done|]).
  - destruct Hr3 as (En & Ed & Ef). split; [congruence|]. split; [congruence|]. left. split; [done|congruence].
  - destruct Hr3 as ((En & Ed & Ef) & Hh). split; [congruence|]. split; [congruence|]. right. split; [done|]. split; [congruence|].
    unfold keeps_health in *. auto.
Qed.
End specs.
