(* ===== verification/SnapshotFormat.v ===== *)
(** The binary snapshot format, src/persistence/snapshot_store.c: the big-endian
    integers, the CRC, the read cursor, and the first pass over a mapped file,
    which validates it without touching the engines.

    [snapshot_text] states the format; [snapshot_validate] is shown to accept
    exactly its sentences.  The checksum covers every byte before it, and any
    change of a single byte is detected. *)

From Stdlib Require Import ZArith Lia.
From S2P Require Import Prelude Codec.

(** * Constants *)

Definition SNAPSHOT_MAGIC : bytes := lit "91KVSNAP".
Definition SNAPSHOT_VERSION_V1 : Z := 1.
Definition SNAPSHOT_VERSION_V2 : Z := 2.
Definition SNAPSHOT_HEADER_V1_SIZE : Z := 20.
Definition SNAPSHOT_HEADER_V2_SIZE : Z := 32.
Definition SNAPSHOT_FLAG_HAS_OFFSET : Z := 1.
Definition SNAPSHOT_RECORD_HEADER_SIZE : Z := 9.
Definition SNAPSHOT_CHECKSUM_SIZE : Z := 4.

(** [kvs_snapshot_checkpoint_t]; [has_offset] is an [int]. *)
Record kvs_snapshot_checkpoint_t := Checkpoint { has_offset : Z; ck_offset : Z }.
Definition checkpoint_zero : kvs_snapshot_checkpoint_t := Checkpoint 0 0.
#[export] Instance checkpoint_eq_dec : EqDecision kvs_snapshot_checkpoint_t.
Proof. solve_decision. Defined.

(** * Integers and CRC *)

Definition encode_u32_be (value : Z) : bytes :=
  [byte_of_Z (Z.shiftr value 24); byte_of_Z (Z.shiftr value 16);
   byte_of_Z (Z.shiftr value 8); byte_of_Z value].

Definition decode_u32_be (input : bytes) : Z :=
  Z.lor (Z.lor (Z.lor (Z.shiftl (uchar (byte_at input 0)) 24)
                      (Z.shiftl (uchar (byte_at input 1)) 16))
               (Z.shiftl (uchar (byte_at input 2)) 8))
        (uchar (byte_at input 3)).

Definition encode_u64_be (value : Z) : bytes :=
  (λ i, byte_of_Z (Z.shiftr value (56 - i * 8))) <$> [0; 1; 2; 3; 4; 5; 6; 7].

Definition decode_u64_be (input : bytes) : Z :=
  foldl (λ value i, Z.lor (Z.shiftl value 8 mod 2 ^ 64) (uchar (byte_at input i))) 0 [0; 1; 2; 3; 4; 5; 6; 7].

(** The body of the loop over the bits. *)
Definition crc_bit (crc : Z) : Z :=
  if Z.land crc 1 =? 0 then Z.shiftr crc 1 else Z.lxor (Z.shiftr crc 1) 3988292384.

(** The body of the loop over the bytes. *)
Definition crc_byte (crc : Z) (c : byte) : Z := Nat.iter 8 crc_bit (Z.lxor crc (uchar c)).

Definition snapshot_crc32_update (crc : Z) (data : bytes) : Z := foldl crc_byte crc data.

(** * Reading *)

(** [snapshot_read_cursor_t]; [cu_data] is [None] for a null pointer. *)
Record snapshot_read_cursor_t := Cursor {
  cu_data : option bytes;
  cu_length : Z;
  cu_offset : Z;
  cu_checkpoint : kvs_snapshot_checkpoint_t;
}.

Definition cursor_at (o : Z) (cursor : snapshot_read_cursor_t) : snapshot_read_cursor_t :=
  Cursor (cu_data cursor) (cu_length cursor) o (cu_checkpoint cursor).

(** The [length] bytes of the view and the advanced cursor; [None] is -1.  The
    view of a null mapping is empty. *)
Definition snapshot_cursor_take (cursor : snapshot_read_cursor_t) (length : Z) :
    option (bytes * snapshot_read_cursor_t) :=
  if cu_length cursor <? cu_offset cursor then None else
  if cu_length cursor - cu_offset cursor <? length then None else
  if (0 <? cu_length cursor) && bool_decide (cu_data cursor = None) then None else
  Some (take (Z.to_nat length) (drop (Z.to_nat (cu_offset cursor)) (default [] (cu_data cursor))),
        cursor_at (cu_offset cursor + length) cursor).

(** [*record_count], [*crc] and the cursor. *)
Definition snapshot_read_header (cursor : snapshot_read_cursor_t) (crc : Z) :
    option (Z * Z * snapshot_read_cursor_t) :=
  '(prefix, cursor) ← snapshot_cursor_take cursor 12;
  if negb (bool_decide (take 8 prefix = SNAPSHOT_MAGIC)) then None else
  let version := decode_u32_be (drop 8 prefix) in
  header_size ←
    (if version =? SNAPSHOT_VERSION_V1 then Some SNAPSHOT_HEADER_V1_SIZE
     else if version =? SNAPSHOT_VERSION_V2 then Some SNAPSHOT_HEADER_V2_SIZE
     else None);
  '(body, cursor) ← snapshot_cursor_take cursor (header_size - 12);
  '(record_count, checkpoint) ←
    (if version =? SNAPSHOT_VERSION_V1 then Some (decode_u64_be body, checkpoint_zero)
     else
       let flags := decode_u32_be body in
       let offset := decode_u64_be (drop 12 body) in
       if negb (Z.land flags (UINT32_MAX - SNAPSHOT_FLAG_HAS_OFFSET) =? 0) || (INT64_MAX <? offset) then None else
       let has := if Z.land flags SNAPSHOT_FLAG_HAS_OFFSET =? 0 then 0 else 1 in
       if (has =? 0) && negb (offset =? 0) then None else
       Some (decode_u64_be (drop 4 body), Checkpoint has offset));
  let crc := snapshot_crc32_update crc prefix in
  let crc := snapshot_crc32_update crc body in
  Some (record_count, crc,
        Cursor (cu_data cursor) (cu_length cursor) (cu_offset cursor) checkpoint).

Definition snapshot_check_field (cursor : snapshot_read_cursor_t) (length crc : Z) :
    option (snapshot_read_cursor_t * Z) :=
  '(field, cursor) ← snapshot_cursor_take cursor length;
  if 0 <? length then
    if bool_decide (NUL ∈ field) then None
    else Some (cursor, snapshot_crc32_update crc field)
  else Some (cursor, crc).

Definition snapshot_check_record (cursor : snapshot_read_cursor_t) (crc : Z) :
    option (snapshot_read_cursor_t * Z) :=
  '(record_header, cursor) ← snapshot_cursor_take cursor SNAPSHOT_RECORD_HEADER_SIZE;
  let engine := uchar (byte_at record_header 0) in
  if (engine <? 1) || (4 <? engine) then None else
  let key_length := decode_u32_be (drop 1 record_header) in
  let value_length := decode_u32_be (drop 5 record_header) in
  let crc := snapshot_crc32_update crc record_header in
  '(cursor, crc) ← snapshot_check_field cursor key_length crc;
  snapshot_check_field cursor value_length crc.

(** The loop over the records. *)
Fixpoint snapshot_check_records (count : nat) (cursor : snapshot_read_cursor_t) (crc : Z) :
    option (snapshot_read_cursor_t * Z) :=
  match count with
  | O => Some (cursor, crc)
  | S count =>
      '(cursor, crc) ← snapshot_check_record cursor crc;
      snapshot_check_records count cursor crc
  end.

(** The cursor is the result because the checkpoint is read from it later. *)
Definition snapshot_validate (cursor : snapshot_read_cursor_t) : option snapshot_read_cursor_t :=
  if cu_length cursor <? SNAPSHOT_HEADER_V1_SIZE + SNAPSHOT_CHECKSUM_SIZE then None else
  '(record_count, crc, cursor) ← snapshot_read_header (cursor_at 0 cursor) UINT32_MAX;
  let remaining := cu_length cursor - cu_offset cursor in
  if remaining <? SNAPSHOT_CHECKSUM_SIZE then None else
  let payload_size := remaining - SNAPSHOT_CHECKSUM_SIZE in
  if payload_size / SNAPSHOT_RECORD_HEADER_SIZE <? record_count then None else
  '(cursor, crc) ← snapshot_check_records (Z.to_nat record_count) cursor crc;
  '(checksum_bytes, cursor) ← snapshot_cursor_take cursor SNAPSHOT_CHECKSUM_SIZE;
  let expected := decode_u32_be checksum_bytes in
  let actual := Z.lxor crc UINT32_MAX in
  if negb (actual =? expected) then None else
  if negb (cu_offset cursor =? cu_length cursor) then None else
  Some cursor.

(** * The format *)

(** A record: the number of its engine, key and value. *)
Definition snapshot_record : Type := Z * (bytes * bytes).

Definition record_bytes (r : snapshot_record) : bytes :=
  [byte_of_Z r.1] ++ encode_u32_be (zlen r.2.1) ++ encode_u32_be (zlen r.2.2) ++ r.2.1 ++ r.2.2.

Definition record_ok (r : snapshot_record) : Prop :=
  1 ≤ r.1 ≤ 4 ∧ nul_free r.2.1 ∧ nul_free r.2.2 ∧ zlen r.2.1 ≤ UINT32_MAX ∧ zlen r.2.2 ≤ UINT32_MAX.

Definition checkpoint_ok (c : kvs_snapshot_checkpoint_t) : Prop :=
  has_offset c = 1 ∧ 0 ≤ ck_offset c ≤ INT64_MAX ∨ has_offset c = 0 ∧ ck_offset c = 0.

(** The header of version 2, which is what is written. *)
Definition header_v2 (c : kvs_snapshot_checkpoint_t) (count : Z) : bytes :=
  SNAPSHOT_MAGIC ++ encode_u32_be SNAPSHOT_VERSION_V2 ++ encode_u32_be (has_offset c) ++
  encode_u64_be count ++ encode_u64_be (ck_offset c).

(** The header of version 1, still accepted: no checkpoint. *)
Definition header_v1 (count : Z) : bytes :=
  SNAPSHOT_MAGIC ++ encode_u32_be SNAPSHOT_VERSION_V1 ++ encode_u64_be count.

Definition header_text (c : kvs_snapshot_checkpoint_t) (count : Z) (h : bytes) : Prop :=
  checkpoint_ok c ∧ (h = header_v2 c count ∨ c = checkpoint_zero ∧ h = header_v1 count).

(** The checksum stored behind [payload]. *)
Definition checksum_of (payload : bytes) : bytes :=
  encode_u32_be (Z.lxor (snapshot_crc32_update UINT32_MAX payload) UINT32_MAX).

Definition snapshot_text (c : kvs_snapshot_checkpoint_t) (rs : list snapshot_record) (d : bytes) : Prop :=
  ∃ h, header_text c (zlen rs) h ∧ Forall record_ok rs ∧
    d = (h ++ mjoin (record_bytes <$> rs)) ++ checksum_of (h ++ mjoin (record_bytes <$> rs)).

(** The CRC of the check string of CRC-32/ISO-HDLC. *)
Example crc_check : Z.lxor (snapshot_crc32_update UINT32_MAX (lit "123456789")) UINT32_MAX = 3421780262.
Proof. vm_compute. reflexivity. Qed.

(** * Lemmas on integers *)

(** Big-endian bytes by recursion on their number, and their value. *)
Fixpoint be_bytes (n : nat) (v : Z) : bytes :=
  match n with O => [] | S n => be_bytes n (v / 256) ++ [byte_of_Z v] end.

Definition be_value (b : bytes) : Z := foldl (λ v c, v * 256 + uchar c) 0 b.

Lemma be_value_snoc b c : be_value (b ++ [c]) = be_value b * 256 + uchar c.
Proof. unfold be_value. by rewrite foldl_app. Qed.

Lemma be_bytes_length n v : List.length (be_bytes n v) = n.
Proof. revert v. induction n as [|n IH]; intros v; [done|]. cbn [be_bytes]. rewrite length_app, IH. simpl. lia. Qed.

Lemma be_value_bytes n v : 0 ≤ v < 256 ^ Z.of_nat n → be_value (be_bytes n v) = v.
Proof.
  revert v. induction n as [|n IH]; intros v Hv; [change (0 ≤ v < 1) in Hv; change (0 = v); lia|].
  cbn [be_bytes]. rewrite be_value_snoc, uchar_byte_of_Z, IH.
  - pose proof (Z.div_mod v 256). lia.
  - rewrite Nat2Z.inj_succ, Z.pow_succ_r in Hv by lia.
    split; [apply Z.div_pos; lia|]. apply Z.div_lt_upper_bound; lia.
Qed.

Lemma be_value_range b : 0 ≤ be_value b < 256 ^ zlen b.
Proof.
  induction b as [|c b IH] using rev_ind; [done|]. rewrite be_value_snoc, zlen_app.
  rewrite Z.pow_add_r by apply zlen_nonneg. change (256 ^ zlen [c]) with 256. pose proof (uchar_range c). lia.
Qed.

Lemma byte_of_Z_add_256 a c : byte_of_Z (a * 256 + uchar c) = c.
Proof.
  apply (inj uchar). rewrite uchar_byte_of_Z, Z.add_comm, Z.mod_add by lia. apply Z.mod_small, uchar_range.
Qed.

Lemma be_bytes_value b : be_bytes (List.length b) (be_value b) = b.
Proof.
  induction b as [|c b IH] using rev_ind; [done|]. rewrite length_app, Nat.add_comm. cbn [List.length Nat.add be_bytes].
  rewrite be_value_snoc, byte_of_Z_add_256. f_equal. rewrite <- IH at 3. f_equal.
  pose proof (uchar_range c). rewrite Z.add_comm, Z.div_add by lia. rewrite Z.div_small by lia. lia.
Qed.

Lemma lor_add a b n : 0 ≤ n → 0 ≤ b < 2 ^ n → Z.lor (Z.shiftl a n) b = a * 2 ^ n + b.
Proof.
  intros Hn Hb. rewrite <- Z.shiftl_mul_pow2 by done. symmetry.
  rewrite <- Z.lxor_lor; [apply Z.add_nocarry_lxor|]; apply Z.bits_inj'; intros i Hi; rewrite Z.land_spec, Z.bits_0;
    (destruct (Z.ltb_spec i n); [rewrite Z.shiftl_spec_low by done; done|]);
    rewrite (Z.testbit_eqb b) by done; rewrite (Z.div_small b); try apply andb_false_r;
    (split; [lia|]); eapply Z.lt_le_trans; try apply Hb; apply Z.pow_le_mono_r; lia.
Qed.

Lemma encode_u32_bytes v : encode_u32_be v = be_bytes 4 v.
Proof.
  unfold encode_u32_be. cbn [be_bytes app]. rewrite !Z.shiftr_div_pow2, !Z.div_div by lia. done.
Qed.

Lemma encode_u64_bytes v : encode_u64_be v = be_bytes 8 v.
Proof.
  unfold encode_u64_be. cbn [be_bytes app fmap list_fmap]. rewrite !Z.shiftr_div_pow2, !Z.div_div by lia.
  repeat f_equal. by rewrite Z.div_1_r.
Qed.

Lemma decode_u32_value b : (4 ≤ List.length b)%nat → decode_u32_be b = be_value (take 4 b).
Proof.
  destruct b as [|a [|b [|c [|d l]]]]; simpl; try lia. intros _.
  unfold decode_u32_be. change (byte_at _ 0) with a. change (byte_at _ 1) with b. change (byte_at _ 2) with c.
  change (byte_at _ 3) with d. unfold be_value. cbn [foldl].
  pose proof (uchar_range a). pose proof (uchar_range b). pose proof (uchar_range c). pose proof (uchar_range d).
  rewrite (lor_add (uchar a)) by (rewrite ?Z.shiftl_mul_pow2 by lia; lia). rewrite (Z.shiftl_mul_pow2 (uchar b)) by lia.
  replace (uchar a * 2 ^ 24 + uchar b * 2 ^ 16) with (Z.shiftl (uchar a * 256 + uchar b) 16) by (rewrite Z.shiftl_mul_pow2; lia).
  rewrite lor_add by (rewrite ?Z.shiftl_mul_pow2 by lia; lia). rewrite (Z.shiftl_mul_pow2 (uchar c)) by lia.
  replace ((uchar a * 256 + uchar b) * 2 ^ 16 + uchar c * 2 ^ 8) with (Z.shiftl ((uchar a * 256 + uchar b) * 256 + uchar c) 8)
    by (rewrite Z.shiftl_mul_pow2; lia).
  rewrite lor_add by lia. change (take 0 l) with ([] : bytes). cbn [foldl]. lia.
Qed.

Lemma be_shift_step v c : 0 ≤ v < 2 ^ 56 → Z.lor (Z.shiftl v 8 mod 2 ^ 64) (uchar c) = v * 256 + uchar c.
Proof.
  intros Hv. pose proof (uchar_range c). rewrite Z.mod_small; [by rewrite lor_add by lia|].
  rewrite Z.shiftl_mul_pow2 by lia. lia.
Qed.

Lemma decode_u64_value b : (8 ≤ List.length b)%nat → decode_u64_be b = be_value (take 8 b).
Proof.
  intros Hb. unfold decode_u64_be.
  assert (∀ n : nat, (n ≤ 8)%nat →
    foldl (λ value i, Z.lor (Z.shiftl value 8 mod 2 ^ 64) (uchar (byte_at b i))) 0 (Z.of_nat <$> seq 0 n) = be_value (take n b)) as Hn.
  { induction n as [|n IH]; intros Hn; [done|]. rewrite seq_S, fmap_app, foldl_app, IH by lia. cbn.
    destruct (lookup_lt_is_Some_2 b n) as [c Hc]; [lia|]. rewrite (take_S_r _ _ _ Hc), be_value_snoc.
    replace (byte_at b (Z.of_nat n)) with c by (unfold byte_at; by rewrite znth_lookup, Hc).
    pose proof (be_value_range (take n b)) as Hr. apply be_shift_step. split; [lia|].
    eapply Z.lt_le_trans; [apply Hr|]. change (2 ^ 56) with (256 ^ 7). apply Z.pow_le_mono_r; [lia|].
    unfold zlen. rewrite length_take. lia. }
  apply (Hn 8%nat). lia.
Qed.

Lemma encode_u32_length v : List.length (encode_u32_be v) = 4%nat.
Proof. done. Qed.
Lemma encode_u64_length v : List.length (encode_u64_be v) = 8%nat.
Proof. done. Qed.

Lemma decode_encode_u32 v rest : 0 ≤ v ≤ UINT32_MAX → decode_u32_be (encode_u32_be v ++ rest) = v.
Proof.
  intros Hv. rewrite decode_u32_value by (rewrite length_app, encode_u32_length; lia).
  rewrite encode_u32_bytes. rewrite take_app_length' by (symmetry; apply be_bytes_length).
  apply be_value_bytes. unfold UINT32_MAX in *. lia.
Qed.

Lemma decode_encode_u64 v rest : 0 ≤ v ≤ UINT64_MAX → decode_u64_be (encode_u64_be v ++ rest) = v.
Proof.
  intros Hv. rewrite decode_u64_value by (rewrite length_app, encode_u64_length; lia).
  rewrite encode_u64_bytes. rewrite take_app_length' by (symmetry; apply be_bytes_length).
  apply be_value_bytes. unfold UINT64_MAX in *. lia.
Qed.

Lemma encode_decode_u32 b rest : List.length b = 4%nat → encode_u32_be (decode_u32_be (b ++ rest)) = b ∧ 0 ≤ decode_u32_be (b ++ rest) ≤ UINT32_MAX.
Proof.
  intros Hb. rewrite decode_u32_value by (rewrite length_app; lia). rewrite take_app_length' by done.
  rewrite encode_u32_bytes, <- Hb, be_bytes_value. split; [done|]. pose proof (be_value_range b) as Hr.
  unfold zlen in Hr. rewrite Hb in Hr. change (256 ^ Z.of_nat 4) with (UINT32_MAX + 1) in Hr. lia.
Qed.

Lemma encode_decode_u64 b rest : List.length b = 8%nat → encode_u64_be (decode_u64_be (b ++ rest)) = b ∧ 0 ≤ decode_u64_be (b ++ rest) ≤ UINT64_MAX.
Proof.
  intros Hb. rewrite decode_u64_value by (rewrite length_app; lia). rewrite take_app_length' by done.
  rewrite encode_u64_bytes, <- Hb, be_bytes_value. split; [done|]. pose proof (be_value_range b) as Hr.
  unfold zlen in Hr. rewrite Hb in Hr. change (256 ^ Z.of_nat 8) with (UINT64_MAX + 1) in Hr. lia.
Qed.

(** * Lemmas on the CRC *)

Definition word32 (c : Z) : Prop := 0 ≤ c < 2 ^ 32.

Lemma crc_update_app c d1 d2 : snapshot_crc32_update c (d1 ++ d2) = snapshot_crc32_update (snapshot_crc32_update c d1) d2.
Proof. apply foldl_app. Qed.

Lemma lxor_word a b : word32 a → word32 b → word32 (Z.lxor a b).
Proof.
  unfold word32. intros Ha Hb. destruct (Z.eq_dec (Z.lxor a b) 0) as [->|Hne]; [lia|].
  assert (0 ≤ Z.lxor a b) by (apply Z.lxor_nonneg; lia). split; [done|].
  apply Z.log2_lt_pow2; [lia|]. eapply Z.le_lt_trans; [apply Z.log2_lxor; lia|].
  assert (∀ x, 0 ≤ x < 2 ^ 32 → Z.log2 x < 32) as Hl.
  { intros x Hx. destruct (Z.eq_dec x 0) as [->|]; [done|]. apply Z.log2_lt_pow2; lia. }
  apply Z.max_lub_lt; auto.
Qed.

Lemma shiftr1_word c : word32 c → 0 ≤ Z.shiftr c 1 < 2 ^ 31.
Proof. unfold word32. intros Hc. rewrite Z.shiftr_div_pow2 by lia. change (2 ^ 1) with 2. split; [apply Z.div_pos|apply Z.div_lt_upper_bound]; lia. Qed.

Lemma crc_bit_word c : word32 c → word32 (crc_bit c).
Proof.
  intros Hc. pose proof (shiftr1_word c Hc). unfold crc_bit. destruct (_ =? 0); [unfold word32; lia|].
  apply lxor_word; unfold word32; lia.
Qed.

(** The inverse of one step. *)
Definition crc_unbit (r : Z) : Z :=
  if Z.testbit r 31 then 2 * Z.lxor r 3988292384 + 1 else 2 * r.

Lemma testbit31_small x : 0 ≤ x < 2 ^ 31 → Z.testbit x 31 = false.
Proof. intros Hx. rewrite Z.testbit_eqb by lia. by rewrite Z.div_small. Qed.

Lemma crc_unbit_bit c : word32 c → crc_unbit (crc_bit c) = c.
Proof.
  intros Hc. pose proof (shiftr1_word c Hc) as Hs. unfold crc_unbit, crc_bit.
  assert (Z.land c 1 = c mod 2) as -> by (apply (Z.land_ones c 1); lia).
  pose proof (Z.div_mod c 2 ltac:(lia)). pose proof (Z.mod_pos_bound c 2 ltac:(lia)).
  assert (Z.shiftr c 1 = c / 2) as E by (by rewrite Z.shiftr_div_pow2).
  destruct (Z.eqb_spec (c mod 2) 0).
  - rewrite testbit31_small by done. lia.
  - rewrite Z.lxor_spec, testbit31_small by done. change (Z.testbit 3988292384 31) with true. cbn [xorb].
    rewrite Z.lxor_assoc, Z.lxor_nilpotent, Z.lxor_0_r. lia.
Qed.

Lemma crc_bit_inj c c' : word32 c → word32 c' → crc_bit c = crc_bit c' → c = c'.
Proof. intros Hc Hc' E. rewrite <- (crc_unbit_bit c), <- (crc_unbit_bit c') by done. by rewrite E. Qed.

Lemma crc_bits_word n c : word32 c → word32 (Nat.iter n crc_bit c).
Proof. intros Hc. induction n; [done|]. by apply crc_bit_word. Qed.

Lemma crc_bits_inj n c c' : word32 c → word32 c' → Nat.iter n crc_bit c = Nat.iter n crc_bit c' → c = c'.
Proof.
  intros Hc Hc'. induction n as [|n IH]; [done|]. intros E. apply IH.
  apply crc_bit_inj; [by apply crc_bits_word|by apply crc_bits_word|done].
Qed.

Lemma uchar_word c : word32 (uchar c).
Proof. unfold word32. pose proof (uchar_range c). lia. Qed.

Lemma crc_byte_word c b : word32 c → word32 (crc_byte c b).
Proof. intros Hc. apply crc_bits_word, lxor_word; [done|apply uchar_word]. Qed.

Lemma lxor_cancel_r a b x : Z.lxor a x = Z.lxor b x → a = b.
Proof.
  intros E. apply (f_equal (λ y, Z.lxor y x)) in E. by rewrite !Z.lxor_assoc, Z.lxor_nilpotent, !Z.lxor_0_r in E.
Qed.

Lemma crc_byte_inj_l c c' b : word32 c → word32 c' → crc_byte c b = crc_byte c' b → c = c'.
Proof.
  intros Hc Hc' E. apply crc_bits_inj in E; [by eapply lxor_cancel_r|apply lxor_word; [done|apply uchar_word]..].
Qed.

Lemma crc_byte_inj_r c b b' : word32 c → crc_byte c b = crc_byte c b' → b = b'.
Proof.
  intros Hc E. apply crc_bits_inj in E; [|apply lxor_word; [done|apply uchar_word]..].
  rewrite (Z.lxor_comm c), (Z.lxor_comm c) in E. apply lxor_cancel_r in E. by apply (inj uchar).
Qed.

Lemma crc_update_cons c b d : snapshot_crc32_update c (b :: d) = snapshot_crc32_update (crc_byte c b) d.
Proof. reflexivity. Qed.

Lemma crc_update_word c d : word32 c → word32 (snapshot_crc32_update c d).
Proof.
  revert c. induction d as [|b d IH]; intros c Hc; [exact Hc|]. rewrite crc_update_cons.
  apply IH. by apply crc_byte_word.
Qed.

Lemma crc_update_inj c c' d : word32 c → word32 c' →
  snapshot_crc32_update c d = snapshot_crc32_update c' d → c = c'.
Proof.
  revert c c'. induction d as [|b d IH]; intros c c' Hc Hc'; [intros E; exact E|]. rewrite !crc_update_cons. intros E.
  apply (crc_byte_inj_l _ _ b); [done|done|]. apply IH; [by apply crc_byte_word|by apply crc_byte_word|exact E].
Qed.

(** Changing one byte changes the CRC. *)
Lemma crc_update_byte c d1 b b' d2 : word32 c →
  snapshot_crc32_update c (d1 ++ b :: d2) = snapshot_crc32_update c (d1 ++ b' :: d2) → b = b'.
Proof.
  intros Hc. rewrite !crc_update_app, !crc_update_cons. intros E.
  pose proof (crc_update_word c d1 Hc) as Hw.
  apply (crc_byte_inj_r (snapshot_crc32_update c d1)); [done|].
  apply (crc_update_inj _ _ d2); [by apply crc_byte_word|by apply crc_byte_word|exact E].
Qed.

Lemma UINT32_word : word32 UINT32_MAX.
Proof. unfold word32, UINT32_MAX. lia. Qed.

#[local] Opaque snapshot_crc32_update.

(** * Lemmas on the cursor *)

(** A cursor at [o] in a mapping of [d]. *)
Definition cur (d : bytes) (o : Z) (ck : kvs_snapshot_checkpoint_t) : snapshot_read_cursor_t :=
  Cursor (Some d) (zlen d) o ck.

Lemma cursor_take_iff d o ck n v c' : 0 ≤ o → 0 ≤ n →
  snapshot_cursor_take (cur d o ck) n = Some (v, c') ↔ seg d o (o + n) v ∧ c' = cur d (o + n) ck.
Proof.
  intros Ho Hn. unfold snapshot_cursor_take. cbn [cur cu_length cu_offset cu_data].
  rewrite bool_decide_eq_false_2 by done. rewrite andb_false_r. cbn [default].
  destruct (Z.ltb_spec (zlen d) o).
  { split; [done|]. intros [Hs%seg_bounds _]. lia. }
  destruct (Z.ltb_spec (zlen d - o) n).
  { split; [done|]. intros [Hs%seg_bounds _]. lia. }
  split.
  - intros [= <- <-]. split; [by apply seg_slice; lia|done].
  - intros [Hs ->]. apply seg_slice_eq in Hs. replace (o + n - o) with n in Hs by lia. by rewrite <- Hs.
Qed.

Lemma seg_len d a b t : seg d a b t → b = a + zlen t.
Proof. by intros (p & r & _ & _ & ->). Qed.

Lemma check_field_iff d o ck n crc c' crc' : 0 ≤ o → 0 ≤ n →
  snapshot_check_field (cur d o ck) n crc = Some (c', crc') ↔
  ∃ v, zlen v = n ∧ nul_free v ∧ seg d o (o + n) v ∧ c' = cur d (o + n) ck ∧ crc' = snapshot_crc32_update crc v.
Proof.
  intros Ho Hn. unfold snapshot_check_field. split.
  - destruct (snapshot_cursor_take (cur d o ck) n) as [[v c1]|] eqn:E; [|done].
    apply cursor_take_iff in E as [Hs ->]; [|done|done]. cbn [mbind option_bind]. pose proof (seg_len _ _ _ _ Hs).
    destruct (Z.ltb_spec 0 n).
    + case_bool_decide; [done|]. intros [= <- <-]. exists v. split_and!; done || lia.
    + intros [= <- <-]. assert (v = []) as -> by (apply zlen_zero; lia). exists []. split_and!; try done; try lia. by apply not_elem_of_nil.
  - intros (v & Hl & Hnul & Hs & -> & ->).
    rewrite (proj2 (cursor_take_iff d o ck n v _ Ho Hn)) by done. cbn [mbind option_bind].
    destruct (Z.ltb_spec 0 n); [by rewrite bool_decide_eq_false_2|].
    assert (v = []) as -> by (apply zlen_zero; lia). done.
Qed.

(** * Lemmas on the records *)

Lemma u32_nonneg v : 0 ≤ decode_u32_be v.
Proof.
  unfold decode_u32_be. rewrite !Z.lor_nonneg, !Z.shiftl_nonneg. split_and!; apply uchar_range.
Qed.

(** A record header is the engine number and the two lengths. *)
Lemma record_header_split (v : bytes) : zlen v = 9 →
  ∃ e (a b : bytes), v = e :: a ++ b ∧ List.length a = 4%nat ∧ List.length b = 4%nat.
Proof.
  intros Hv. destruct v as [|e v]; [done|]. exists e, (take 4 v), (drop 4 v).
  rewrite take_drop, length_take, length_drop. unfold zlen in Hv. simpl in Hv. split_and!; [done|lia|lia].
Qed.

Lemma check_record_iff d o ck crc c' crc' : 0 ≤ o →
  snapshot_check_record (cur d o ck) crc = Some (c', crc') ↔
  ∃ r, record_ok r ∧ seg d o (o + zlen (record_bytes r)) (record_bytes r) ∧
    c' = cur d (o + zlen (record_bytes r)) ck ∧ crc' = snapshot_crc32_update crc (record_bytes r).
Proof.
  intros Ho. unfold snapshot_check_record, SNAPSHOT_RECORD_HEADER_SIZE. split.
  - destruct (snapshot_cursor_take (cur d o ck) 9) as [[v c1]|] eqn:E; [|done]. cbn [mbind option_bind].
    apply cursor_take_iff in E as [Hs ->]; [|lia|lia]. pose proof (seg_len _ _ _ _ Hs) as Hl.
    destruct (record_header_split v) as (e & a & b & -> & Ha & Hb); [lia|].
    change (byte_at (e :: a ++ b) 0) with e. change (drop 1 (e :: a ++ b)) with (a ++ b).
    replace (drop 5 (e :: a ++ b)) with b by (change (b = drop 4 (a ++ b)); by rewrite drop_app_length').
    destruct (Z.ltb_spec (uchar e) 1), (Z.ltb_spec 4 (uchar e)); try done. cbn [orb].
    destruct (snapshot_check_field _ (decode_u32_be (a ++ b)) _) as [[c2 crc2]|] eqn:E2; [|done]. cbn [mbind option_bind].
    apply check_field_iff in E2 as (k & Hkl & Hkn & Hks & -> & ->); [|lia|apply u32_nonneg].
    intros E3. apply check_field_iff in E3 as (x & Hxl & Hxn & Hxs & -> & ->);
      [|pose proof (u32_nonneg (a ++ b)); lia|apply u32_nonneg].
    destruct (encode_decode_u32 a b Ha) as [Hea Hra].
    destruct (encode_decode_u32 b [] Hb) as [Heb Hrb]. rewrite app_nil_r in Heb, Hrb.
    rewrite <- Hkl in *. rewrite <- Hxl in *.
    assert (record_bytes (uchar e, (k, x)) = (e :: a ++ b) ++ k ++ x) as Hrec.
    { unfold record_bytes. cbn [fst snd]. rewrite byte_of_Z_uchar, Hea, Heb. simpl. by rewrite <- !app_assoc. }
    exists (uchar e, (k, x)). rewrite Hrec, !zlen_app. rewrite Hl in Hs.
    split_and!.
    + split_and!; cbn [fst snd]; try done; lia.
    + eapply seg_app; [exact Hs|]. replace (o + (zlen (e :: a ++ b) + (zlen k + zlen x))) with (o + 9 + zlen k + zlen x) by lia.
      eapply seg_app; [|exact Hxs]. replace (o + zlen (e :: a ++ b)) with (o + 9) by lia. exact Hks.
    + f_equal. lia.
    + by rewrite !crc_update_app.
  - intros ([e [k x]] & (He & Hkn & Hxn & Hkl & Hxl) & Hs & -> & ->). unfold record_bytes in *. cbn [fst snd] in *.
    set (h := [byte_of_Z e] ++ encode_u32_be (zlen k) ++ encode_u32_be (zlen x)).
    assert ([byte_of_Z e] ++ encode_u32_be (zlen k) ++ encode_u32_be (zlen x) ++ k ++ x = h ++ k ++ x) as Hh
      by (unfold h; by rewrite <- !app_assoc).
    rewrite Hh in *. assert (zlen h = 9) as Hh9 by done. rewrite !zlen_app, Hh9 in *.
    apply seg_split in Hs as [Hs1 Hs]. apply seg_split in Hs as [Hs2 Hs3]. rewrite Hh9 in *.
    rewrite (proj2 (cursor_take_iff d o ck 9 h _ Ho ltac:(lia)) (conj Hs1 eq_refl)). cbn [mbind option_bind].
    change (byte_at h 0) with (byte_of_Z e). rewrite uchar_byte_of_Z, Z.mod_small by lia.
    rewrite (proj2 (Z.ltb_ge _ _)), (proj2 (Z.ltb_ge 4 _)) by lia. cbn [orb].
    change (drop 1 h) with (encode_u32_be (zlen k) ++ encode_u32_be (zlen x)).
    change (drop 5 h) with (encode_u32_be (zlen x) ++ []).
    rewrite !decode_encode_u32 by (split; [apply zlen_nonneg|done]).
    rewrite (proj2 (check_field_iff d (o + 9) ck (zlen k) _ _ _ ltac:(lia) (zlen_nonneg k)) (ex_intro _ k (conj eq_refl (conj Hkn (conj Hs2 (conj eq_refl eq_refl)))))).
    cbn [mbind option_bind]. pose proof (zlen_nonneg k).
    apply check_field_iff; [lia|apply zlen_nonneg|]. exists x.
    replace (o + (9 + (zlen k + zlen x))) with (o + 9 + zlen k + zlen x) in * by lia.
    split_and!; try done. by rewrite !crc_update_app.
Qed.

Notation records_bytes rs := (mjoin (record_bytes <$> rs)).

Lemma check_records_iff n d o ck crc c' crc' : 0 ≤ o →
  snapshot_check_records n (cur d o ck) crc = Some (c', crc') ↔
  ∃ rs, List.length rs = n ∧ Forall record_ok rs ∧ (rs ≠ [] → seg d o (o + zlen (records_bytes rs)) (records_bytes rs)) ∧
    c' = cur d (o + zlen (records_bytes rs)) ck ∧ crc' = snapshot_crc32_update crc (records_bytes rs).
Proof.
  revert o crc. induction n as [|n IH]; intros o crc Ho; cbn [snapshot_check_records].
  - split.
    + intros [= <- <-]. exists []. cbn. rewrite zlen_nil, Z.add_0_r. split_and!; done.
    + intros (rs & Hn & _ & _ & -> & ->). destruct rs; [|done]. cbn. by rewrite zlen_nil, Z.add_0_r.
  - split.
    + destruct (snapshot_check_record (cur d o ck) crc) as [[c1 crc1]|] eqn:E; [|done]. cbn [mbind option_bind].
      apply check_record_iff in E as (r & Hr & Hs & -> & ->); [|done]. pose proof (zlen_nonneg (record_bytes r)).
      intros (rs & Hn & Hrs & Hss & -> & ->)%IH; [|lia]. exists (r :: rs). cbn [fmap list_fmap mjoin list_join].
      rewrite zlen_app, crc_update_app, Z.add_assoc.
      split_and!; [simpl; congruence|by constructor| |done|done]. intros _.
      eapply seg_app; [exact Hs|]. destruct rs as [|r' rs]; [|by apply Hss].
      cbn. rewrite zlen_nil, Z.add_0_r. destruct Hs as (p & q & -> & <- & _).
      exists (p ++ record_bytes r), q. rewrite <- app_assoc, zlen_app, zlen_nil. split_and!; [done|done|lia].
    + intros (rs & Hn & Hrs & Hss & -> & ->). destruct rs as [|r rs]; [done|].
      apply Forall_cons in Hrs as [Hr Hrs]. specialize (Hss ltac:(done)). cbn [fmap list_fmap mjoin list_join] in *.
      rewrite zlen_app in *. apply seg_split in Hss as [Hs1 Hs2].
      rewrite (proj2 (check_record_iff d o ck crc _ _ Ho) (ex_intro _ r (conj Hr (conj Hs1 (conj eq_refl eq_refl))))).
      cbn [mbind option_bind]. pose proof (zlen_nonneg (record_bytes r)). apply IH; [lia|]. exists rs.
      rewrite crc_update_app, Z.add_assoc in *. split_and!; try done. simpl in Hn. lia.
Qed.

(** * Lemmas on the header *)

Lemma flag_bits flags : 0 ≤ flags ≤ UINT32_MAX →
  Z.land flags (UINT32_MAX - SNAPSHOT_FLAG_HAS_OFFSET) = 0 ↔ flags = 0 ∨ flags = 1.
Proof.
  intros Hf. split; [|by intros [-> | ->]]. intros E. apply (f_equal (λ x, Z.shiftr x 1)) in E.
  rewrite Z.shiftr_land in E. change (Z.shiftr (UINT32_MAX - SNAPSHOT_FLAG_HAS_OFFSET) 1) with (Z.ones 31) in E.
  rewrite Z.land_ones, Z.shiftr_div_pow2 in E by lia. change (2 ^ 1) with 2 in E. change (Z.shiftr 0 1) with 0 in E.
  pose proof (Z.div_mod flags 2 ltac:(lia)). pose proof (Z.mod_pos_bound flags 2 ltac:(lia)).
  unfold UINT32_MAX in Hf. rewrite Z.mod_small in E; [lia|]. split; [lia|]. apply Z.div_lt_upper_bound; lia.
Qed.

Lemma header_length ck n h : header_text ck n h → zlen h = 32 ∨ zlen h = 20.
Proof. intros (_ & [-> | [_ ->]]); [by left|by right]. Qed.

Lemma checkpoint_has ck : checkpoint_ok ck → has_offset ck = 0 ∨ has_offset ck = 1.
Proof. unfold checkpoint_ok. lia. Qed.

Lemma flag_has has : has = 0 ∨ has = 1 → (if Z.land has SNAPSHOT_FLAG_HAS_OFFSET =? 0 then 0 else 1) = has.
Proof. by intros [-> | ->]. Qed.

(** A header of version 2 behind its first twelve bytes. *)
Lemma header_body_split (b : bytes) : zlen b = 20 →
  ∃ x y z : bytes, b = x ++ y ++ z ∧ List.length x = 4%nat ∧ List.length y = 8%nat ∧ List.length z = 8%nat.
Proof.
  intros Hb. exists (take 4 b), (take 8 (drop 4 b)), (drop 8 (drop 4 b)). unfold zlen in Hb.
  rewrite !take_drop, !length_take, !length_drop. split_and!; [done|lia..].
Qed.

Lemma read_header_sound d ck0 crc count crc' c' :
  snapshot_read_header (cur d 0 ck0) crc = Some (count, crc', c') →
  ∃ ck h, 0 ≤ count ≤ UINT64_MAX ∧ header_text ck count h ∧ seg d 0 (zlen h) h ∧
    c' = cur d (zlen h) ck ∧ crc' = snapshot_crc32_update crc h.
Proof.
  unfold snapshot_read_header. destruct (snapshot_cursor_take (cur d 0 ck0) 12) as [[p c1]|] eqn:E1; [|done].
  apply cursor_take_iff in E1 as [Hp ->]; [|lia|lia]. cbn [mbind option_bind].
  pose proof (seg_len _ _ _ _ Hp) as Hpl. case_bool_decide as Hm; [|done]. cbn [negb].
  assert (List.length (drop 8 p) = 4%nat) as Hv by (unfold zlen in Hpl; rewrite length_drop; lia).
  destruct (encode_decode_u32 (drop 8 p) [] Hv) as [Hev _]. rewrite app_nil_r in Hev.
  assert (p = SNAPSHOT_MAGIC ++ drop 8 p) as Hpe by (rewrite <- Hm; by rewrite take_drop).
  set (version := decode_u32_be (drop 8 p)) in *.
  destruct (Z.eqb_spec version SNAPSHOT_VERSION_V1) as [E|E].
  - cbn [mbind option_bind]. destruct (snapshot_cursor_take _ (SNAPSHOT_HEADER_V1_SIZE - 12)) as [[b c2]|] eqn:E2; [|done].
    apply cursor_take_iff in E2 as [Hb ->]; [|lia|unfold SNAPSHOT_HEADER_V1_SIZE; lia]. cbn [mbind option_bind].
    intros [= <- <- <-]. pose proof (seg_len _ _ _ _ Hb) as Hbl. unfold SNAPSHOT_HEADER_V1_SIZE in Hbl.
    assert (List.length b = 8%nat) as Hb8 by (unfold zlen in Hbl; lia).
    destruct (encode_decode_u64 b [] Hb8) as [Heb Hr]. rewrite app_nil_r in Heb, Hr.
    assert (header_v1 (decode_u64_be b) = p ++ b) as Hh.
    { unfold header_v1. rewrite Heb, <- E, Hev, app_assoc. by rewrite <- Hpe. }
    exists checkpoint_zero, (header_v1 (decode_u64_be b)).
    assert (zlen (header_v1 (decode_u64_be b)) = 20) as -> by done.
    rewrite Hh. split_and!; [lia|lia| | |done|by rewrite (crc_update_app crc p)].
    + split; [right; done|right; by rewrite Hh].
    + by eapply seg_app.
  - destruct (Z.eqb_spec version SNAPSHOT_VERSION_V2) as [E'|]; [|done].
    cbn [mbind option_bind]. destruct (snapshot_cursor_take _ (SNAPSHOT_HEADER_V2_SIZE - 12)) as [[b c2]|] eqn:E2; [|done].
    apply cursor_take_iff in E2 as [Hb ->]; [|lia|unfold SNAPSHOT_HEADER_V2_SIZE; lia]. cbn [mbind option_bind].
    pose proof (seg_len _ _ _ _ Hb) as Hbl. unfold SNAPSHOT_HEADER_V2_SIZE in Hbl.
    destruct (header_body_split b) as (x & y & z & -> & Hx & Hy & Hz); [lia|].
    replace (drop 4 (x ++ y ++ z)) with (y ++ z) by (by rewrite drop_app_length').
    replace (drop 12 (x ++ y ++ z)) with z by (rewrite app_assoc, drop_app_length'; [done|rewrite length_app; lia]).
    destruct (encode_decode_u32 x (y ++ z) Hx) as [Hex Hrx]. destruct (encode_decode_u64 y z Hy) as [Hey Hry].
    destruct (encode_decode_u64 z [] Hz) as [Hez Hrz]. rewrite app_nil_r in Hez, Hrz.
    destruct (Z.eqb_spec (Z.land (decode_u32_be (x ++ y ++ z)) (UINT32_MAX - SNAPSHOT_FLAG_HAS_OFFSET)) 0) as [Ef|]; [|done].
    apply flag_bits in Ef; [|done]. rewrite flag_has by done. cbn [negb orb].
    destruct (Z.ltb_spec INT64_MAX (decode_u64_be z)); [done|]. cbn [mbind option_bind].
    set (ck := Checkpoint (decode_u32_be (x ++ y ++ z)) (decode_u64_be z)).
    destruct ((decode_u32_be (x ++ y ++ z) =? 0) && negb (decode_u64_be z =? 0)) eqn:Eck; [done|]. cbn [mbind option_bind].
    intros [= <- <- <-].
    assert (checkpoint_ok ck) as Hck.
    { unfold checkpoint_ok, ck. cbn [has_offset ck_offset].
      destruct (Z.eqb_spec (decode_u32_be (x ++ y ++ z)) 0), (Z.eqb_spec (decode_u64_be z) 0); try done; lia. }
    assert (header_v2 ck (decode_u64_be (y ++ z)) = p ++ x ++ y ++ z) as Hh.
    { unfold header_v2, ck. cbn [has_offset ck_offset]. rewrite Hex, Hey, Hez, <- E', Hev, app_assoc. by rewrite <- Hpe. }
    exists ck, (header_v2 ck (decode_u64_be (y ++ z))).
    assert (zlen (header_v2 ck (decode_u64_be (y ++ z))) = 32) as -> by done.
    rewrite Hh. split_and!; [lia|lia| | |done|by rewrite (crc_update_app crc p)].
    + split; [done|left; by rewrite Hh].
    + by eapply seg_app.
Qed.

Lemma read_header_complete d ck0 crc count ck h :
  0 ≤ count ≤ UINT64_MAX → header_text ck count h → seg d 0 (zlen h) h →
  snapshot_read_header (cur d 0 ck0) crc = Some (count, snapshot_crc32_update crc h, cur d (zlen h) ck).
Proof.
  intros Hc (Hck & Hh) Hs.
  assert (∃ version body, h = (SNAPSHOT_MAGIC ++ encode_u32_be version) ++ body ∧
    (version = 1 ∧ ck = checkpoint_zero ∧ body = encode_u64_be count ∨
     version = 2 ∧ body = encode_u32_be (has_offset ck) ++ encode_u64_be count ++ encode_u64_be (ck_offset ck))) as
    (version & body & -> & Hb).
  { destruct Hh as [-> | [-> ->]]; [exists 2|exists 1]; eexists; (split; [unfold header_v1, header_v2; by rewrite <- app_assoc|]); auto. }
  clear Hh. set (p := SNAPSHOT_MAGIC ++ encode_u32_be version) in *. rewrite zlen_app in *.
  apply seg_split in Hs as [Hs1 Hs2]. change (0 + zlen p) with 12 in *. change (zlen p) with 12 in *.
  unfold snapshot_read_header. rewrite (proj2 (cursor_take_iff d 0 ck0 12 p _ ltac:(lia) ltac:(lia)) (conj Hs1 eq_refl)).
  cbn [mbind option_bind]. change (take 8 p) with SNAPSHOT_MAGIC. rewrite bool_decide_eq_true_2 by done. cbn [negb].
  change (drop 8 p) with (encode_u32_be version ++ []).
  rewrite decode_encode_u32 by (unfold UINT32_MAX; lia).
  destruct Hb as [(-> & -> & ->)|(-> & ->)]; cbn [Z.eqb Pos.eqb SNAPSHOT_VERSION_V1 SNAPSHOT_VERSION_V2 mbind option_bind].
  - change (zlen (encode_u64_be count)) with 8 in *. change (SNAPSHOT_HEADER_V1_SIZE - 12) with 8.
    change (0 + 12) with 12.
    rewrite (proj2 (cursor_take_iff d 12 ck0 8 _ _ ltac:(lia) ltac:(lia)) (conj Hs2 eq_refl)). cbn [mbind option_bind].
    rewrite <- (app_nil_r (encode_u64_be count)) at 1. rewrite decode_encode_u64 by done. by rewrite crc_update_app.
  - set (body := encode_u32_be (has_offset ck) ++ _) in *. change (zlen body) with 20 in *.
    change (SNAPSHOT_HEADER_V2_SIZE - 12) with 20.
    change (0 + 12) with 12.
    rewrite (proj2 (cursor_take_iff d 12 ck0 20 _ _ ltac:(lia) ltac:(lia)) (conj Hs2 eq_refl)). cbn [mbind option_bind].
    change (drop 4 body) with (encode_u64_be count ++ encode_u64_be (ck_offset ck)).
    change (drop 12 body) with (encode_u64_be (ck_offset ck) ++ []).
    pose proof (checkpoint_has ck Hck) as Hhas. pose proof Hck as Hck'. unfold checkpoint_ok, INT64_MAX in Hck'.
    unfold body. rewrite decode_encode_u32 by (unfold UINT32_MAX; lia). rewrite !decode_encode_u64 by (unfold UINT64_MAX in *; lia).
    rewrite (proj2 (flag_bits (has_offset ck) ltac:(unfold UINT32_MAX; lia))) by done. rewrite flag_has by done. cbn [Z.eqb negb orb].
    rewrite (proj2 (Z.ltb_ge _ _)) by (unfold INT64_MAX; lia).
    assert ((has_offset ck =? 0) && negb (ck_offset ck =? 0) = false) as ->.
    { destruct (Z.eqb_spec (has_offset ck) 0), (Z.eqb_spec (ck_offset ck) 0); try reflexivity. lia. }
    cbn [mbind option_bind]. rewrite (crc_update_app crc p). destruct ck. reflexivity.
Qed.

(** * Lemmas on validation *)

Lemma seg_whole d t : seg d 0 (zlen d) t → d = t.
Proof.
  intros (p & r & E & Hp & Hl). assert (p = []) as -> by (by apply zlen_zero). rewrite E, !zlen_app in Hl.
  change (zlen ([] : bytes)) with 0 in Hl. assert (r = []) as -> by (apply zlen_zero; lia).
  simpl in E. by rewrite app_nil_r in E.
Qed.

Lemma seg_self t u v : seg (t ++ u ++ v) (zlen t) (zlen t + zlen u) u.
Proof. by exists t, v. Qed.

Lemma record_bytes_length r : zlen (record_bytes r) = 9 + zlen r.2.1 + zlen r.2.2.
Proof. unfold record_bytes. rewrite !zlen_app. change (zlen [byte_of_Z r.1]) with 1. change (zlen (encode_u32_be _)) with 4. lia. Qed.

Lemma records_bytes_cons r rs : records_bytes (r :: rs) = record_bytes r ++ records_bytes rs.
Proof. reflexivity. Qed.

Lemma records_bytes_length rs : 9 * zlen rs ≤ zlen (records_bytes rs).
Proof.
  induction rs as [|r rs IH]; [done|]. rewrite records_bytes_cons, zlen_app, zlen_cons, record_bytes_length.
  pose proof (zlen_nonneg r.2.1). pose proof (zlen_nonneg r.2.2). lia.
Qed.

Lemma final_crc_range payload : 0 ≤ Z.lxor (snapshot_crc32_update UINT32_MAX payload) UINT32_MAX ≤ UINT32_MAX.
Proof.
  pose proof (lxor_word _ _ (crc_update_word _ payload UINT32_word) UINT32_word) as Hw.
  unfold word32, UINT32_MAX in *. lia.
Qed.

Lemma checksum_of_length payload : zlen (checksum_of payload) = 4.
Proof. done. Qed.

Lemma validate_sound d o ck0 c' : zlen d ≤ SIZE_MAX →
  snapshot_validate (cur d o ck0) = Some c' → ∃ ck rs, snapshot_text ck rs d ∧ c' = cur d (zlen d) ck.
Proof.
  intros Hsz. unfold snapshot_validate. cbn [cur cu_length]. destruct (_ <? _) eqn:Hmin; [done|]. clear Hmin.
  change (cursor_at 0 _) with (cur d 0 ck0).
  destruct (snapshot_read_header (cur d 0 ck0) UINT32_MAX) as [[[count crc] c1]|] eqn:E1; [|done]. cbn [mbind option_bind].
  apply read_header_sound in E1 as (ck & h & Hc & Hh & Hs1 & -> & ->). cbn [cur cu_length cu_offset].
  destruct (Z.ltb_spec (zlen d - zlen h) SNAPSHOT_CHECKSUM_SIZE); [done|].
  destruct (_ / _ <? count) eqn:Hcount; [done|]. clear Hcount.
  change (Cursor (Some d) (zlen d) (zlen h) ck) with (cur d (zlen h) ck). pose proof (zlen_nonneg h).
  destruct (snapshot_check_records (Z.to_nat count) _ _) as [[c2 crc2]|] eqn:E2; [|done]. cbn [mbind option_bind].
  apply check_records_iff in E2 as (rs & Hn & Hrs & Hs2 & -> & ->); [|done].
  pose proof (zlen_nonneg (records_bytes rs)).
  destruct (snapshot_cursor_take _ SNAPSHOT_CHECKSUM_SIZE) as [[cs c3]|] eqn:E3; [|done]. cbn [mbind option_bind].
  apply cursor_take_iff in E3 as [Hs3 ->]; [|lia|unfold SNAPSHOT_CHECKSUM_SIZE; lia].
  pose proof (seg_len _ _ _ _ Hs3) as Hcl. change SNAPSHOT_CHECKSUM_SIZE with 4 in *.
  destruct (Z.eqb_spec (Z.lxor (snapshot_crc32_update (snapshot_crc32_update UINT32_MAX h) (records_bytes rs)) UINT32_MAX)
    (decode_u32_be cs)) as [Ecrc|]; [|done]. cbn [negb].
  cbn [cur cu_length cu_offset]. destruct (Z.eqb_spec (zlen h + zlen (records_bytes rs) + 4) (zlen d)) as [El|]; [|done]. cbn [negb].
  intros [= <-]. exists ck, rs. split; [|by rewrite El]. exists h.
  assert (zlen rs = count) as Hcn by (unfold zlen; lia). rewrite Hcn.
  split; [exact Hh|]. split; [exact Hrs|].
  rewrite <- crc_update_app in Ecrc.
  assert (List.length cs = 4%nat) as Hc4 by (unfold zlen in Hcl; lia).
  destruct (encode_decode_u32 cs [] Hc4) as [Ecs _]. rewrite app_nil_r, <- Ecrc in Ecs.
  fold (checksum_of (h ++ records_bytes rs)) in Ecs.
  apply seg_whole. rewrite <- El. eapply seg_app; [|rewrite Ecs; exact Hs3].
  destruct rs as [|r rs]; [|eapply seg_app; [exact Hs1|by apply Hs2]].
  cbn in *. by rewrite zlen_nil, Z.add_0_r, app_nil_r in *.
Qed.

Lemma validate_complete d o ck0 ck rs : zlen d ≤ SIZE_MAX →
  snapshot_text ck rs d → snapshot_validate (cur d o ck0) = Some (cur d (zlen d) ck).
Proof.
  intros Hsz (h & Hh & Hrs & ->). set (p := h ++ records_bytes rs) in *.
  pose proof (zlen_nonneg h). pose proof (zlen_nonneg (records_bytes rs)). pose proof (zlen_nonneg rs).
  pose proof (records_bytes_length rs) as Hrl. pose proof (header_length _ _ _ Hh) as Hhl.
  assert (zlen (p ++ checksum_of p) = zlen h + zlen (records_bytes rs) + 4) as Hl
    by (unfold p; by rewrite !zlen_app, checksum_of_length).
  assert (p ++ checksum_of p = h ++ records_bytes rs ++ checksum_of p) as Hd by (unfold p; by rewrite <- app_assoc).
  unfold snapshot_validate. cbn [cur cu_length]. change (cursor_at 0 _) with (cur (p ++ checksum_of p) 0 ck0).
  rewrite Hl, (proj2 (Z.ltb_ge _ _)) by (unfold SNAPSHOT_HEADER_V1_SIZE, SNAPSHOT_CHECKSUM_SIZE; lia).
  rewrite (read_header_complete _ _ _ (zlen rs) ck h); [|unfold SIZE_MAX, UINT64_MAX in *; lia|done|].
  2:{ rewrite Hd. exists [], (records_bytes rs ++ checksum_of p). done. }
  cbn [mbind option_bind]. cbn [cur cu_length cu_offset].
  change SNAPSHOT_CHECKSUM_SIZE with 4. change SNAPSHOT_RECORD_HEADER_SIZE with 9.
  rewrite Hl, (proj2 (Z.ltb_ge _ _)) by lia. rewrite (proj2 (Z.ltb_ge _ _)) by (apply Z.div_le_lower_bound; lia).
  replace (Cursor (Some (p ++ checksum_of p)) (zlen h + zlen (records_bytes rs) + 4) (zlen h) ck)
    with (cur (p ++ checksum_of p) (zlen h) ck) by (unfold cur; by rewrite Hl).
  assert (snapshot_check_records (Z.to_nat (zlen rs)) (cur (p ++ checksum_of p) (zlen h) ck) (snapshot_crc32_update UINT32_MAX h) =
    Some (cur (p ++ checksum_of p) (zlen h + zlen (records_bytes rs)) ck,
          snapshot_crc32_update (snapshot_crc32_update UINT32_MAX h) (records_bytes rs))) as ->.
  { apply check_records_iff; [done|]. exists rs. split; [unfold zlen; lia|]. split; [done|]. split; [|done].
    intros _. rewrite Hd. apply seg_self. }
  cbn [mbind option_bind].
  assert (snapshot_cursor_take (cur (p ++ checksum_of p) (zlen h + zlen (records_bytes rs)) ck) 4 =
    Some (checksum_of p, cur (p ++ checksum_of p) (zlen h + zlen (records_bytes rs) + 4) ck)) as ->.
  { apply cursor_take_iff; [lia|lia|]. split; [|reflexivity]. exists p, [].
    rewrite app_nil_r, checksum_of_length. unfold p. by rewrite zlen_app. }
  cbn [mbind option_bind]. rewrite <- crc_update_app. fold p.
  rewrite <- (app_nil_r (checksum_of p)) at 1. unfold checksum_of at 1. rewrite decode_encode_u32 by apply final_crc_range.
  rewrite Z.eqb_refl. cbn [negb cur cu_length cu_offset]. rewrite Hl, Z.eqb_refl. cbn [negb]. unfold cur. by rewrite Hl.
Qed.

Lemma encode_u32_inj a b : 0 ≤ a ≤ UINT32_MAX → 0 ≤ b ≤ UINT32_MAX → encode_u32_be a = encode_u32_be b → a = b.
Proof.
  intros Ha Hb E. rewrite <- (decode_encode_u32 a []), <- (decode_encode_u32 b []) by done. by rewrite E.
Qed.

Lemma app_split_inside (d1 d2 p c : bytes) b :
  d1 ++ b :: d2 = p ++ c → (List.length d1 < List.length p)%nat → ∃ x, p = d1 ++ b :: x ∧ d2 = x ++ c.
Proof.
  intros E Hlt. apply app_eq_inv in E as [(k & -> & Hk)|(k & -> & Hk)]; [rewrite length_app in Hlt; lia|].
  destruct k as [|y k]; [rewrite app_nil_r in Hlt; lia|]. injection Hk as -> ->. by exists k.
Qed.

Lemma checksum_detects d1 b b' d2 p p' :
  d1 ++ b :: d2 = p ++ checksum_of p → d1 ++ b' :: d2 = p' ++ checksum_of p' → b = b'.
Proof.
  intros E E'.
  assert (List.length p = List.length p') as Hlen.
  { apply (f_equal List.length) in E, E'. rewrite !length_app in E, E'. simpl in E, E'. lia. }
  destruct (Nat.lt_ge_cases (List.length d1) (List.length p)) as [Hlt|Hge].
  - destruct (app_split_inside _ _ _ _ _ E Hlt) as (x & Hp & Hd).
    destruct (app_split_inside _ _ _ _ _ E' ltac:(lia)) as (x' & Hp' & Hd').
    rewrite Hd in Hd'. apply app_inj_2 in Hd' as [<- Hcs]; [|by unfold checksum_of; rewrite !encode_u32_length].
    unfold checksum_of in Hcs. apply encode_u32_inj in Hcs; [|apply final_crc_range|apply final_crc_range].
    apply lxor_cancel_r in Hcs. rewrite Hp, Hp' in Hcs.
    exact (crc_update_byte UINT32_MAX d1 b b' x UINT32_word Hcs).
  - assert (p = p') as <-.
    { apply (f_equal (take (List.length p))) in E. apply (f_equal (take (List.length p'))) in E'.
      rewrite take_app_length, take_app_le in E, E' by lia. congruence. }
    rewrite <- E' in E. by apply app_inj_1 in E as [_ [= ->]].
Qed.

(** * Properties *)

(** C8: the first pass accepts a file exactly when it is a snapshot of the format:
    a header of version 1 or 2 with a legal checkpoint, as many records as it
    announces, each with a known engine and two NUL-free fields, the CRC of all
    that, and nothing behind it.  It then reports the checkpoint of the header. *)
Theorem snapshot_validate_exact d o ck0 c' : zlen d ≤ SIZE_MAX →
  snapshot_validate (cur d o ck0) = Some c' ↔ ∃ ck rs, snapshot_text ck rs d ∧ c' = cur d (zlen d) ck.
Proof.
  intros Hsz. split; [by apply validate_sound|]. intros (ck & rs & Ht & ->). by apply (validate_complete d o ck0 ck rs).
Qed.

(** The image of one record with a checkpoint. *)
Definition sample_records : list snapshot_record := [(3, (lit "k", lit "value"))].
Definition sample_payload : bytes := header_v2 (Checkpoint 1 77) 1 ++ records_bytes sample_records.
Definition sample_snapshot : bytes := sample_payload ++ checksum_of sample_payload.

Lemma sample_snapshot_text : snapshot_text (Checkpoint 1 77) sample_records sample_snapshot.
Proof.
  exists (header_v2 (Checkpoint 1 77) 1). split; [split; [|by left]|split; [|reflexivity]].
  - left. cbn. unfold INT64_MAX. lia.
  - constructor; [|constructor]. split_and!; try (vm_compute; discriminate); by apply (bool_decide_unpack _).
Qed.

Lemma snapshot_validate_exact_witness :
  zlen sample_snapshot ≤ SIZE_MAX ∧
  snapshot_validate (cur sample_snapshot 0 checkpoint_zero) = Some (cur sample_snapshot (zlen sample_snapshot) (Checkpoint 1 77)).
Proof.
  refine ((λ H, conj H (proj2 (snapshot_validate_exact _ 0 checkpoint_zero _ H) _)) _).
  - exists (Checkpoint 1 77), sample_records. split; [apply sample_snapshot_text|reflexivity].
  - vm_compute. discriminate.
Defined.

(** Changing any single byte of an accepted file, in the header, a record or
    the checksum itself, makes it rejected. *)
Theorem snapshot_byte_error_detected d1 b b' d2 o o' ck0 ck0' c : zlen (d1 ++ b :: d2) ≤ SIZE_MAX →
  snapshot_validate (cur (d1 ++ b :: d2) o ck0) = Some c → b ≠ b' →
  snapshot_validate (cur (d1 ++ b' :: d2) o' ck0') = None.
Proof.
  intros Hsz Hv Hb. destruct (snapshot_validate (cur (d1 ++ b' :: d2) o' ck0')) as [c'|] eqn:E'; [|done]. exfalso. apply Hb.
  assert (zlen (d1 ++ b' :: d2) ≤ SIZE_MAX) as Hsz' by (rewrite zlen_app, zlen_cons in *; lia).
  apply validate_sound in Hv as (? & ? & (h & _ & _ & E) & _); [|done].
  apply validate_sound in E' as (? & ? & (h' & _ & _ & E') & _); [|done].
  by apply (checksum_detects _ _ _ _ _ _ E E').
Qed.

(** Flipping a byte of the record count in the header of the sample. *)
Lemma snapshot_byte_error_witness :
  take 23 sample_snapshot ++ byte_of_Z 1 :: drop 24 sample_snapshot = sample_snapshot ∧
  snapshot_validate (cur (take 23 sample_snapshot ++ byte_of_Z 2 :: drop 24 sample_snapshot) 0 checkpoint_zero) = None.
Proof.
  split; [vm_compute; reflexivity|].
  refine (snapshot_byte_error_detected (take 23 sample_snapshot) (byte_of_Z 1) (byte_of_Z 2) (drop 24 sample_snapshot)
    0 0 checkpoint_zero checkpoint_zero (cur sample_snapshot (zlen sample_snapshot) (Checkpoint 1 77)) _ _ _).
  - vm_compute. discriminate.
  - vm_compute. reflexivity.
  - vm_compute. discriminate.
Defined.
