(* ===== verification/SnapshotStore.v ===== *)
(** Saving and loading snapshots, src/persistence/snapshot_store.c: the buffered
    writer, the encoding of the four engines, the save that replaces the file in
    one step, and the load that inserts the records of a validated file.

    The state is the one of the persistence layer ([pworld]); the engines are
    passed along.  The valid bytes of the write buffer are kept as a list, the
    bytes behind them are never read.  [errno] is not kept. *)

From Stdlib Require Import ZArith Lia.
From S2P Require Import Prelude Runtime Engine ArrayEngine HashEngine SkipList Kvengine Os MappedFile Codec Aof SnapshotFormat.

Definition SNAPSHOT_WRITE_BLOCK_SIZE : Z := 65536.
Definition SNAPSHOT_WRITE_BLOCK_COUNT : Z := 4.
Definition SNAPSHOT_WRITE_BUFFER_SIZE : Z := SNAPSHOT_WRITE_BLOCK_SIZE * SNAPSHOT_WRITE_BLOCK_COUNT.

(** [snapshot_writer_t]; [sw_bytes] are the first [buffered_bytes] bytes of the
    buffer, [sw_io] is [io.initialized]. *)
Record snapshot_writer_t := SnapWriter {
  sw_fd : Z;
  sw_io : bool;
  sw_buffer : option addr;
  sw_bytes : bytes;
  sw_next : Z;
  sw_checkpoint : kvs_snapshot_checkpoint_t;
}.
Definition snapshot_writer_zero : snapshot_writer_t := SnapWriter 0 false None [] 0 checkpoint_zero.

(** The numbers of the engines in the file. *)
Definition engine_number (i : engine_id) : Z :=
  match i with ARRAY => 1 | RBTREE => 2 | HASH => 3 | SKIPLIST => 4 end.

Section writer.
Context `{CRuntime RT} `{Os D}.
Notation W := (pworld RT D).
Implicit Types writer : snapshot_writer_t.

(** ** The writer *)

Definition snapshot_writer_init writer (fd : Z) : M W (Z * snapshot_writer_t) :=
  if fd <? 0 then mret (-1, writer) else
  if bool_decide (sw_buffer writer ≠ None) || sw_io writer then mret (-1, writer) else
  buffer ← on_rt (kvs_malloc SNAPSHOT_WRITE_BUFFER_SIZE);
  match buffer with
  | None => mret (-1, SnapWriter fd (sw_io writer) None [] 0 (sw_checkpoint writer))
  | Some p =>
      r ← on_os kvs_uring_io_init;
      if r <? 0 then
        on_rt (kvs_free (Some p));;
        mret (-1, SnapWriter fd false None [] 0 (sw_checkpoint writer))
      else mret (0, SnapWriter fd true (Some p) [] 0 (sw_checkpoint writer))
  end.

Definition snapshot_writer_close writer : M W snapshot_writer_t :=
  on_os kvs_uring_io_close;;
  on_rt (kvs_free (sw_buffer writer));;
  mret (SnapWriter (-1) false None [] 0 checkpoint_zero).

(** The requests of one batch, at most [room] of them: [None] when the array of
    requests is too short. *)
Fixpoint flush_requests (room : nat) (pending : bytes) (offset : Z) : option (list kvs_uring_write_t) :=
  match pending with
  | [] => Some []
  | _ =>
      match room with
      | O => None
      | S room =>
          let n := Z.to_nat SNAPSHOT_WRITE_BLOCK_SIZE in
          let block := take n pending in
          rest ← flush_requests room (drop n pending) (offset + zlen block);
          Some (UringWrite block offset :: rest)
      end
  end.

Definition snapshot_writer_flush writer : M W (Z * snapshot_writer_t) :=
  if bool_decide (sw_buffer writer = None) || negb (sw_io writer)
     || (SNAPSHOT_WRITE_BUFFER_SIZE <? zlen (sw_bytes writer)) then mret (-1, writer) else
  if zlen (sw_bytes writer) =? 0 then mret (0, writer) else
  let batch_end := sw_next writer + zlen (sw_bytes writer) in
  if INT64_MAX <? batch_end then mret (-1, writer) else
  requests ← deref (flush_requests (Z.to_nat SNAPSHOT_WRITE_BLOCK_COUNT) (sw_bytes writer) (sw_next writer));
  r ← on_os (kvs_uring_io_write_batch (sw_fd writer) requests);
  if r <? 0 then mret (-1, writer) else
  mret (0, SnapWriter (sw_fd writer) (sw_io writer) (sw_buffer writer) [] batch_end (sw_checkpoint writer)).

(** The loop that copies [data] into the buffer; every turn copies at least one
    byte. *)
Fixpoint append_loop (fuel : nat) writer (data : bytes) : M W (Z * snapshot_writer_t) :=
  match data with
  | [] => mret (0, writer)
  | _ =>
      match fuel with
      | O => undefined
      | S fuel =>
          '(r, writer) ←
            (if zlen (sw_bytes writer) =? SNAPSHOT_WRITE_BUFFER_SIZE
             then snapshot_writer_flush writer else mret (0, writer));
          if r <? 0 then mret (-1, writer) else
          let available_bytes := SNAPSHOT_WRITE_BUFFER_SIZE - zlen (sw_bytes writer) in
          let copy_bytes := Z.to_nat (if available_bytes <? zlen data then available_bytes else zlen data) in
          append_loop fuel
            (SnapWriter (sw_fd writer) (sw_io writer) (sw_buffer writer)
               (sw_bytes writer ++ take copy_bytes data) (sw_next writer) (sw_checkpoint writer))
            (drop copy_bytes data)
      end
  end.

Definition snapshot_writer_append writer (data : bytes) : M W (Z * snapshot_writer_t) :=
  if bool_decide (sw_buffer writer = None) || negb (sw_io writer)
     || (SNAPSHOT_WRITE_BUFFER_SIZE <? zlen (sw_bytes writer)) then mret (-1, writer) else
  append_loop (List.length data) writer data.

(** ** Files *)

Fixpoint sync_loop (fuel : nat) (fd : Z) : M D Z :=
  '(result, eintr) ← sys_fsync fd;
  if (result <? 0) && eintr then
    match fuel with O => undefined | S fuel => sync_loop fuel fd end
  else mret result.

Definition snapshot_sync_fd (fd : Z) : M D Z :=
  n ← gets interruptions;
  sync_loop n fd.

Definition SLASH : byte := byte_of_Z 47.

(** [strrchr(directory, '/')] as an index. *)
Fixpoint last_slash (i : nat) (s : bytes) : option nat :=
  match s with
  | [] => None
  | c :: s =>
      match last_slash (S i) s with
      | Some j => Some j
      | None => if bool_decide (c = SLASH) then Some i else None
      end
  end.

Definition parent_of (path : bytes) : bytes :=
  match last_slash 0 path with
  | None => lit "."
  | Some O => take 1 path
  | Some n => take n path
  end.

(** [None] is -1. *)
Definition snapshot_open_parent_directory (path : bytes) : M W (option Z) :=
  if bool_decide (path = []) then mret None else
  directory ← on_rt (kvs_malloc (zlen path + 1));
  match directory with
  | None => mret None
  | Some p =>
      fd ← on_os (sys_open_directory (parent_of path));
      on_rt (kvs_free (Some p));;
      mret fd
  end.

(** ** Encoding *)

(** [encode_u64_be] of a count, header and CRC. *)
Definition snapshot_write_header writer (record_count crc : Z) : M W (Z * snapshot_writer_t * Z) :=
  let checkpoint := sw_checkpoint writer in
  if (negb (has_offset checkpoint =? 0) && negb (has_offset checkpoint =? 1))
     || (negb (has_offset checkpoint =? 0) && (ck_offset checkpoint <? 0)) then mret (-1, writer, crc) else
  let flags := if has_offset checkpoint =? 0 then 0 else SNAPSHOT_FLAG_HAS_OFFSET in
  let offset := if has_offset checkpoint =? 0 then 0 else ck_offset checkpoint in
  let header := SNAPSHOT_MAGIC ++ encode_u32_be SNAPSHOT_VERSION_V2 ++ encode_u32_be flags ++
                encode_u64_be record_count ++ encode_u64_be offset in
  '(r, writer) ← snapshot_writer_append writer header;
  if r <? 0 then mret (-1, writer, crc) else
  mret (0, writer, snapshot_crc32_update crc header).

Definition snapshot_write_record writer (engine : Z) (key value : bytes) (crc : Z) :
    M W (Z * snapshot_writer_t * Z) :=
  if (engine <? 1) || (4 <? engine) then mret (-1, writer, crc) else
  let key_length := zlen key in
  let value_length := zlen value in
  if (UINT32_MAX <? key_length) || (UINT32_MAX <? value_length) then mret (-1, writer, crc) else
  let header := [byte_of_Z engine] ++ encode_u32_be key_length ++ encode_u32_be value_length in
  '(r, writer) ← snapshot_writer_append writer header;
  if r <? 0 then mret (-1, writer, crc) else
  '(r, writer) ← snapshot_writer_append writer key;
  if r <? 0 then mret (-1, writer, crc) else
  '(r, writer) ← snapshot_writer_append writer value;
  if r <? 0 then mret (-1, writer, crc) else
  let crc := snapshot_crc32_update crc header in
  let crc := snapshot_crc32_update crc key in
  let crc := snapshot_crc32_update crc value in
  mret (0, writer, crc).

(** The visitor; its context is the writer and the CRC. *)
Definition snapshot_write_item (engine : Z) : kvs_visit_handler W (snapshot_writer_t * Z) :=
  λ key value '(writer, crc),
    '(r, writer, crc) ← snapshot_write_record writer engine key value crc;
    mret (r, (writer, crc)).

(** The visitor that counts; its context is the count. *)
Definition snapshot_count_item : kvs_visit_handler W Z :=
  λ key value count, if count =? UINT64_MAX then mret (-1, count) else mret (0, count + 1).
End writer.

Section store.
Context `{CRuntime RT} `{Os D} {Ea Er Eh Es : Type}
  `{!Engine RT Ea} `{!Engine RT Er} `{!Engine RT Eh} `{!Engine RT Es}.
Notation W := (pworld RT D).
Notation engines := (kv_engines Ea Er Eh Es).
Implicit Types (writer : snapshot_writer_t) (es : engines).

(** Visit the engines in their order, stopping at the first failure. *)
Definition snapshot_count_records es : M W (Z * Z) :=
  '(r, count) ← eng_foreach (global_array es) (Some snapshot_count_item) 0;
  if r <? 0 then mret (-1, count) else
  '(r, count) ← eng_foreach (global_rbtree es) (Some snapshot_count_item) count;
  if r <? 0 then mret (-1, count) else
  '(r, count) ← eng_foreach (global_hash es) (Some snapshot_count_item) count;
  if r <? 0 then mret (-1, count) else
  '(r, count) ← eng_foreach (global_skiplist es) (Some snapshot_count_item) count;
  if r <? 0 then mret (-1, count) else
  mret (0, count).

Definition snapshot_write_records es writer (crc : Z) : M W (Z * (snapshot_writer_t * Z)) :=
  let context := (writer, crc) in
  '(r, context) ← eng_foreach (global_array es) (Some (snapshot_write_item (engine_number ARRAY))) context;
  if r <? 0 then mret (-1, context) else
  '(r, context) ← eng_foreach (global_rbtree es) (Some (snapshot_write_item (engine_number RBTREE))) context;
  if r <? 0 then mret (-1, context) else
  '(r, context) ← eng_foreach (global_hash es) (Some (snapshot_write_item (engine_number HASH))) context;
  if r <? 0 then mret (-1, context) else
  '(r, context) ← eng_foreach (global_skiplist es) (Some (snapshot_write_item (engine_number SKIPLIST))) context;
  if r <? 0 then mret (-1, context) else
  mret (0, context).

Definition snapshot_write_contents es writer : M W (Z * snapshot_writer_t) :=
  '(r, record_count) ← snapshot_count_records es;
  if r <? 0 then mret (-1, writer) else
  '(r, writer, crc) ← snapshot_write_header writer record_count UINT32_MAX;
  if r <? 0 then mret (-1, writer) else
  '(r, (writer, crc)) ← snapshot_write_records es writer crc;
  if r <? 0 then mret (-1, writer) else
  let checksum := Z.lxor crc UINT32_MAX in
  '(r, writer) ← snapshot_writer_append writer (encode_u32_be checksum);
  if r <? 0 then mret (-1, writer) else
  snapshot_writer_flush writer.

(** ** Saving *)

(** The steps between the creation of the temporary file and the label [done]:
    [result], the writer, [file_fd], and the name of the temporary file while it
    exists. *)
Definition snapshot_save_steps es writer (template path : bytes) (directory_fd : Z) :
    M W (Z * snapshot_writer_t * Z * option bytes) :=
  file ← on_os (sys_mkstemp template);
  match file with
  | None => mret (-1, writer, -1, None)
  | Some (file_fd, temp_path) =>
      '(r, writer) ← snapshot_writer_init writer file_fd;
      if r <? 0 then mret (-1, writer, file_fd, Some temp_path) else
      '(r, writer) ← snapshot_write_contents es writer;
      if r <? 0 then mret (-1, writer, file_fd, Some temp_path) else
      r ← on_os (kvs_uring_io_sync file_fd);
      if r <? 0 then mret (-1, writer, file_fd, Some temp_path) else
      close_result ← on_os (sys_close file_fd);
      if close_result <? 0 then mret (-1, writer, -1, Some temp_path) else
      r ← on_os (sys_rename temp_path path);
      if r <? 0 then mret (-1, writer, -1, Some temp_path) else
      r ← on_os (snapshot_sync_fd directory_fd);
      if r <? 0 then mret (-1, writer, -1, None) else
      mret (0, writer, -1, None)
  end.

(** The 12 bytes of the suffix, its terminator included. *)
Definition temp_suffix : bytes := lit ".tmp.XXXXXX".

(** [checkpoint] is [None] for a null pointer. *)
Definition kvs_snapshot_store_save_with_checkpoint es (path : bytes)
    (checkpoint : option kvs_snapshot_checkpoint_t) : M W Z :=
  if bool_decide (path = []) then mret (-1) else
  if SIZE_MAX - (zlen temp_suffix + 1) <? zlen path then mret (-1) else
  temp_path ← on_rt (kvs_malloc (zlen path + (zlen temp_suffix + 1)));
  match temp_path with
  | None => mret (-1)
  | Some p =>
      directory ← snapshot_open_parent_directory path;
      match directory with
      | None => on_rt (kvs_free (Some p));; mret (-1)
      | Some directory_fd =>
          let writer := SnapWriter 0 false None [] 0 (default checkpoint_zero checkpoint) in
          '(result, writer, file_fd, temp) ←
            snapshot_save_steps es writer (path ++ temp_suffix) path directory_fd;
          snapshot_writer_close writer;;
          (if 0 <=? file_fd then on_os (sys_close file_fd);; mret tt else mret tt);;
          (match temp with Some q => on_os (sys_unlink q);; mret tt | None => mret tt end);;
          closed ← on_os (sys_close directory_fd);
          on_rt (kvs_free (Some p));;
          mret (if (closed <? 0) && (result =? 0) then -1 else result)
      end
  end.

Definition kvs_snapshot_store_save es (path : bytes) : M W Z :=
  kvs_snapshot_store_save_with_checkpoint es path None.

(** ** Loading *)

(** A buffer as a C string: the bytes before the first NUL. *)
Fixpoint upto_nul (b : bytes) : bytes :=
  match b with
  | [] => []
  | c :: b => if bool_decide (c = NUL) then [] else c :: upto_nul b
  end.

Definition snapshot_read_field (cursor : snapshot_read_cursor_t) (length : Z) :
    M RT (option cstr * snapshot_read_cursor_t) :=
  let capacity := (length + 1) mod 2 ^ 64 in
  if capacity <=? length then mret (None, cursor) else
  match snapshot_cursor_take cursor length with
  | None => mret (None, cursor)
  | Some (field, cursor) =>
      text ← kvs_malloc capacity;
      mret ((λ p, CStr p (upto_nul field)) <$> text, cursor)
  end.

Definition engine_of_number (n : Z) : option engine_id :=
  if n =? 1 then Some ARRAY else if n =? 2 then Some RBTREE else
  if n =? 3 then Some HASH else if n =? 4 then Some SKIPLIST else None.

Definition snapshot_insert_record (engine : Z) (key value : cstr) es : M RT (Z * engines) :=
  match engine_of_number engine with
  | None => mret (-1, es)
  | Some i =>
      old ← eng_get (get_engine i es) (Some (cs_str key));
      if bool_decide (old ≠ None) then mret (1, es) else
      on_engine i es (λ e, eng_set e (Some (cs_str key)) (Some (cs_str value)))
  end.

Definition snapshot_load_record (cursor : snapshot_read_cursor_t) es :
    M RT (Z * snapshot_read_cursor_t * engines) :=
  match snapshot_cursor_take cursor SNAPSHOT_RECORD_HEADER_SIZE with
  | None => mret (-1, cursor, es)
  | Some (record_header, cursor) =>
      let engine := uchar (byte_at record_header 0) in
      if (engine <? 1) || (4 <? engine) then mret (-1, cursor, es) else
      let key_length := decode_u32_be (drop 1 record_header) in
      let value_length := decode_u32_be (drop 5 record_header) in
      '(key, cursor) ← snapshot_read_field cursor key_length;
      match key with
      | None => mret (-1, cursor, es)
      | Some key =>
          '(value, cursor) ← snapshot_read_field cursor value_length;
          match value with
          | None => kvs_free (Some (cs_addr key));; mret (-1, cursor, es)
          | Some value =>
              '(result, es) ← snapshot_insert_record engine key value es;
              kvs_free (Some (cs_addr key));;
              kvs_free (Some (cs_addr value));;
              mret (if 0 <? result then -1 else if result =? 0 then 0 else -1, cursor, es)
          end
      end
  end.

(** The loop over the records. *)
Fixpoint snapshot_load_records (count : nat) (cursor : snapshot_read_cursor_t) es :
    M RT (Z * snapshot_read_cursor_t * engines) :=
  match count with
  | O => mret (0, cursor, es)
  | S count =>
      '(r, cursor, es) ← snapshot_load_record cursor es;
      if r <? 0 then mret (-1, cursor, es) else snapshot_load_records count cursor es
  end.

(** Both passes over the mapped bytes: [result], the cursor and the engines. *)
Definition snapshot_load_steps (cursor : snapshot_read_cursor_t) es :
    M RT (Z * snapshot_read_cursor_t * engines) :=
  match snapshot_validate cursor with
  | None => mret (-1, cursor, es)
  | Some cursor =>
      match snapshot_read_header (cursor_at 0 cursor) UINT32_MAX with
      | None => mret (-1, cursor, es)
      | Some (record_count, _, cursor) => snapshot_load_records (Z.to_nat record_count) cursor es
      end
  end.

(** The result, [*checkpoint] and the engines. *)
Definition kvs_snapshot_store_load_with_checkpoint (path : bytes) (checkpoint : kvs_snapshot_checkpoint_t) es :
    M W (Z * kvs_snapshot_checkpoint_t * engines) :=
  if bool_decide (path = []) then mret (-1, checkpoint, es) else
  mapped ← on_os (kvs_mapped_file_open path mapped_file_zero);
  match mapped with
  | MapNoEntry => mret (1, checkpoint, es)
  | MapFailed => mret (-1, checkpoint, es)
  | MapOk file =>
      '(result, cursor, es) ←
        on_rt (snapshot_load_steps (Cursor (mf_data file) (mf_length file) 0 checkpoint_zero) es);
      '(closed, _) ← on_os (kvs_mapped_file_close file);
      let result := if (closed <? 0) && (result =? 0) then -1 else result in
      mret (result, if result =? 0 then cu_checkpoint cursor else checkpoint, es)
  end.

Definition kvs_snapshot_store_load (path : bytes) es : M W (Z * engines) :=
  '(result, _, es) ← kvs_snapshot_store_load_with_checkpoint path checkpoint_zero es;
  mret (result, es).
End store.

(** * Lemmas on the writer *)

Lemma flush_requests_spec room pending file :
  (List.length pending ≤ room * Z.to_nat SNAPSHOT_WRITE_BLOCK_SIZE)%nat →
  ∃ reqs, flush_requests room pending (zlen file) = Some reqs ∧ pwrites reqs file = file ++ pending ∧
    zlen reqs ≤ Z.of_nat room ∧ pairwise reqs ∧
    Forall (λ q, uw_data q ≠ [] ∧ zlen file ≤ uw_offset q ∧ uw_offset q + zlen (uw_data q) ≤ zlen file + zlen pending) reqs ∧
    (pending ≠ [] → reqs ≠ []).
Proof.
  set (n := Z.to_nat SNAPSHOT_WRITE_BLOCK_SIZE). assert (0 < n)%nat as Hn by (unfold n, SNAPSHOT_WRITE_BLOCK_SIZE; lia).
  revert pending file. induction room as [|room IH]; intros pending file Hl.
  - destruct pending; [|simpl in Hl; lia]. exists []. simpl. rewrite app_nil_r. by split_and!.
  - destruct pending as [|c pending]; [exists []; simpl; rewrite app_nil_r; by split_and!|].
    set (l := c :: pending) in *. cbn [flush_requests]. change (match l with [] => _ | _ :: _ => ?x end) with x. fold n.
    destruct (IH (drop n l) (file ++ take n l)) as (reqs & Hr & Hp & Hc & Hs & Hf & _).
    { rewrite length_drop. lia. }
    assert (zlen (take n l) + zlen (drop n l) = zlen l) as Hlen by (rewrite <- zlen_app, take_drop; done). rewrite zlen_app in Hf.
    rewrite zlen_app in Hr. unfold l at 1. fold l. rewrite Hr. cbn [mbind option_bind].
    eexists. split; [reflexivity|]. split_and!; [| | | |done].
    + unfold pwrites in *. cbn [foldl uw_offset uw_data]. rewrite pwrite_end, Hp. by rewrite <- app_assoc, take_drop.
    + rewrite zlen_cons. lia.
    + apply pairwise_cons_iff. split; [|done]. eapply Forall_impl; [exact Hf|]. intros q (_ & Hq & _). left. cbn. lia.
    + pose proof (zlen_nonneg (take n l)). pose proof (zlen_nonneg (drop n l)). constructor.
      * cbn. split; [|lia]. destruct n; [lia|done].
      * eapply Forall_impl; [exact Hf|]. intros q (? & ? & ?). split; [done|]. lia.
Qed.

Section writer_spec.
Context `{CRuntimeLaws RT} `{OsLaws D}.
Notation W := (pworld RT D).
Implicit Types (wr : snapshot_writer_t) (w : W) (total data : bytes) (own : list addr) (F : gset addr).

(** [d'] has the names and descriptors of [d] and the contents of every file but
    the one open at [fd]. *)
Definition only_fd (d : D) (fd : Z) (d' : D) : Prop :=
  os_names d' = os_names d ∧ os_fds d' = os_fds d ∧
  ∀ j, os_fds d !! fd ≠ Some j → os_data d' !! j = os_data d !! j.

Lemma only_fd_same d fd d' : os_same d d' → only_fd d fd d'.
Proof. intros (E1 & E2 & E3). split_and!; [done|done|]. intros j _. by rewrite E2. Qed.

Lemma only_fd_trans d1 d2 d3 fd : only_fd d1 fd d2 → only_fd d2 fd d3 → only_fd d1 fd d3.
Proof.
  intros (E1 & E2 & E3) (E1' & E2' & E3'). split_and!; [congruence|congruence|].
  intros j Hj. rewrite E3' by congruence. by apply E3.
Qed.

(** What every step that writes to [fd] keeps. *)
Definition steps_keep own F (fd : Z) w w' : Prop :=
  owns own F (p_rt w') ∧ (roomy (p_rt w) → roomy (p_rt w')) ∧ keeps_health (p_os w) (p_os w') ∧
  only_fd (p_os w) fd (p_os w') ∧ p_aof w' = p_aof w.

Lemma steps_keep_refl own F fd w : owns own F (p_rt w) → steps_keep own F fd w w.
Proof. intros Ho. split_and!; [done|done|by intros ?|by apply only_fd_same, os_same_refl|done]. Qed.

Lemma steps_keep_trans own own' F fd w1 w2 w3 :
  steps_keep own F fd w1 w2 → steps_keep own' F fd w2 w3 → steps_keep own' F fd w1 w3.
Proof.
  intros (Ho & Hr & Hk & Hf & Ha) (Ho' & Hr' & Hk' & Hf' & Ha').
  split_and!; [done|auto|unfold keeps_health in *; auto|by eapply only_fd_trans|congruence].
Qed.

(** The bytes accepted so far are the file and what is still in the buffer. *)
Definition writing wr w total : Prop :=
  sw_io wr = true ∧ is_Some (sw_buffer wr) ∧ zlen (sw_bytes wr) ≤ SNAPSHOT_WRITE_BUFFER_SIZE ∧
  ∃ written, fd_file (p_os w) (sw_fd wr) = Some written ∧ sw_next wr = zlen written ∧
    total = written ++ sw_bytes wr.

(** The writer differs at most in its bytes and position. *)
Definition same_writer wr wr' : Prop :=
  sw_fd wr' = sw_fd wr ∧ sw_io wr' = sw_io wr ∧ sw_buffer wr' = sw_buffer wr ∧ sw_checkpoint wr' = sw_checkpoint wr.

(** An operation that accepts [data] after [total]. *)
Definition write_post own F wr w total data (r : Z) wr' w' : Prop :=
  steps_keep own F (sw_fd wr) w w' ∧ same_writer wr wr' ∧
  (r = 0 ∧ writing wr' w' (total ++ data) ∨ r = -1) ∧
  (healthy (p_os w) → zlen (total ++ data) ≤ INT64_MAX → r = 0).

Lemma writer_usable wr w total : writing wr w total →
  bool_decide (sw_buffer wr = None) || negb (sw_io wr) || (SNAPSHOT_WRITE_BUFFER_SIZE <? zlen (sw_bytes wr)) = false.
Proof.
  intros (Hio & [p Hp] & Hl & _). rewrite Hio, Hp, (proj2 (Z.ltb_ge _ _)) by done. by rewrite bool_decide_eq_false_2.
Qed.

Lemma flush_spec wr w total own F :
  writing wr w total → owns own F (p_rt w) →
  wp (snapshot_writer_flush wr) w (λ '(r, wr') w', write_post own F wr w total [] r wr' w' ∧ (r = 0 → sw_bytes wr' = [])).
Proof.
  intros Hw Ho. unfold snapshot_writer_flush. rewrite (writer_usable _ _ _ Hw).
  pose proof Hw as (Hio & Hbuf & Hl & written & Hf & Hn & Ht). pose proof (zlen_nonneg (sw_bytes wr)).
  assert (total ++ [] = total) as Hnil by apply app_nil_r.
  destruct (Z.eqb_spec (zlen (sw_bytes wr)) 0) as [E|E].
  { apply wp_ret. split; [|intros _; by apply zlen_zero]. unfold write_post. rewrite Hnil.
    split_and!; [by apply steps_keep_refl|done|by left|done]. }
  cbv zeta. assert (sw_next wr + zlen (sw_bytes wr) = zlen total) as Hend by (rewrite Ht, zlen_app; lia).
  rewrite Hend. destruct (Z.ltb_spec INT64_MAX (zlen total)).
  { apply wp_ret. split; [|done]. unfold write_post. rewrite Hnil.
    split_and!; [by apply steps_keep_refl|done|by right|lia]. }
  destruct (flush_requests_spec (Z.to_nat SNAPSHOT_WRITE_BLOCK_COUNT) (sw_bytes wr) written) as (reqs & Hr & Hp & Hcount & Hsep & Hoff & Hne).
  { unfold SNAPSHOT_WRITE_BUFFER_SIZE, SNAPSHOT_WRITE_BLOCK_SIZE, SNAPSHOT_WRITE_BLOCK_COUNT, zlen in *. lia. }
  rewrite Hn, Hr. eapply wp_eq; [done|].
  eapply step_os. { apply uring_write_law; [exact Hf| |].
    - apply Hne. intros En. by rewrite En in E.
    - unfold SNAPSHOT_WRITE_BLOCK_COUNT in Hcount. split; [unfold KVS_URING_QUEUE_DEPTH; lia|]. split; [exact Hsep|]. eapply Forall_impl; [exact Hoff|]. intros q (? & ? & ?).
      pose proof (zlen_nonneg written). split; [done|]. lia. }
  intros r d (Hk & Hnames & Hfds & i & f' & Hi & Hd & Hres).
  assert (steps_keep own F (sw_fd wr) w (put_os d w)) as Hkeep.
  { split_and!; [done|done|done| |done]. split_and!; [done|done|]. intros j Hj. cbn. rewrite Hd, lookup_insert_ne by congruence. done. }
  destruct (Z.ltb_spec r 0).
  - apply wp_ret. split; [|lia]. unfold write_post. rewrite Hnil. split_and!; [done|done|by right|]. intros Hh. by apply Hres in Hh.
  - apply wp_ret. split; [|done]. unfold write_post. rewrite Hnil. split_and!; [done|done| |done]. left. split; [done|].
    split_and!; [done|done|done|].
    exists total. cbn. rewrite app_nil_r. split_and!; [|done|done].
    unfold fd_file. rewrite Hfds, Hi. cbn. rewrite Hd, lookup_insert_eq. by rewrite Hres, Hp, Ht.
Qed.

Lemma append_loop_spec fuel wr w total data own F :
  writing wr w total → owns own F (p_rt w) → (List.length data ≤ fuel)%nat →
  wp (append_loop fuel wr data) w (λ '(r, wr') w', write_post own F wr w total data r wr' w').
Proof.
  revert wr w total data. induction fuel as [|fuel IH]; intros wr w total data Hw Ho Hf.
  { destruct data; [|simpl in Hf; lia]. apply wp_ret. unfold write_post. rewrite app_nil_r.
    split_and!; [by apply steps_keep_refl|done|by left|done]. }
  destruct data as [|c data'].
  { apply wp_ret. unfold write_post. rewrite app_nil_r. split_and!; [by apply steps_keep_refl|done|by left|done]. }
  set (data := c :: data') in *. cbn [append_loop]. unfold data at 1. fold data.
  pose proof (zlen_nonneg (sw_bytes wr)).
  eapply (wp_step _ _ _ (λ '(r, wr') w', write_post own F wr w total [] r wr' w' ∧
    (r = 0 → zlen (sw_bytes wr') < SNAPSHOT_WRITE_BUFFER_SIZE))).
  { destruct (Z.eqb_spec (zlen (sw_bytes wr)) SNAPSHOT_WRITE_BUFFER_SIZE).
    - eapply wp_mono; [by apply flush_spec|]. intros [r wr'] w' [Hp Hb]. split; [done|]. intros Hr. by rewrite (Hb Hr).
    - apply wp_ret. unfold write_post. rewrite app_nil_r. split; [split_and!; [by apply steps_keep_refl|done|by left|done]|].
      destruct Hw as (_ & _ & Hl & _). lia. }
  intros [r wr1] w1 ((Hk1 & Hsame1 & Hr1 & Hh1) & Hroom). rewrite app_nil_r in Hr1, Hh1.
  destruct (Z.ltb_spec r 0).
  { apply wp_ret. destruct Hr1 as [[-> _]|Hr1]; [lia|]. split_and!; [done|done|by right|].
    intros Hh Hle. rewrite Hh1 in H4; [lia|done|]. rewrite zlen_app in Hle. pose proof (zlen_nonneg data). lia. }
  destruct Hr1 as [[-> Hw1]|]; [|lia]. specialize (Hroom eq_refl). cbv zeta.
  set (n := Z.to_nat _). assert (0 < n)%nat as Hn.
  { unfold n. destruct (_ <? _); [lia|]. unfold data. rewrite zlen_cons. pose proof (zlen_nonneg data'). lia. }
  assert (zlen (sw_bytes wr1 ++ take n data) ≤ SNAPSHOT_WRITE_BUFFER_SIZE) as Hfit.
  { rewrite zlen_app. unfold zlen at 2. rewrite length_take. pose proof (zlen_nonneg (sw_bytes wr1)).
    unfold n. destruct (Z.ltb_spec (SNAPSHOT_WRITE_BUFFER_SIZE - zlen (sw_bytes wr1)) (zlen data)); unfold zlen in *; lia. }
  set (wr2 := SnapWriter _ _ _ _ _ _).
  assert (writing wr2 w1 (total ++ take n data)) as Hw2.
  { destruct Hw1 as (Hio & Hbuf & _ & written & Hfd & Hnx & Ht). split_and!; [done|done|done|].
    exists written. split_and!; [done|done|]. cbn. by rewrite Ht, app_assoc. }
  eapply wp_mono; [apply (IH wr2 w1 (total ++ take n data) (drop n data)); [done|apply Hk1|]|].
  { rewrite length_drop. lia. }
  intros [r wr'] w' (Hk & Hsame & Hr & Hh).
  rewrite <- app_assoc, take_drop in Hr, Hh. destruct Hsame1 as (E1 & E2 & E3 & E4), Hsame as (E1' & E2' & E3' & E4'). cbn in *.
  split_and!; [|split_and!; congruence|done|].
  - rewrite E1 in Hk. by eapply steps_keep_trans.
  - intros Hhealth Hle. apply Hh; [|done]. by apply Hk1.
Qed.

Lemma writer_append_spec wr w total data own F :
  writing wr w total → owns own F (p_rt w) →
  wp (snapshot_writer_append wr data) w (λ '(r, wr') w', write_post own F wr w total data r wr' w').
Proof.
  intros Hw Ho. unfold snapshot_writer_append. rewrite (writer_usable _ _ _ Hw). by apply append_loop_spec.
Qed.
End writer_spec.

(** * Lemmas on encoding *)

(** The checkpoint as it is stored: the offset only counts with the flag. *)
Definition checkpoint_valid (c : kvs_snapshot_checkpoint_t) : Prop :=
  has_offset c = 0 ∨ has_offset c = 1 ∧ 0 ≤ ck_offset c ≤ INT64_MAX.
Definition stored_checkpoint (c : kvs_snapshot_checkpoint_t) : kvs_snapshot_checkpoint_t :=
  if has_offset c =? 0 then checkpoint_zero else c.

Lemma stored_checkpoint_ok c : checkpoint_valid c → checkpoint_ok (stored_checkpoint c).
Proof.
  unfold checkpoint_valid, checkpoint_ok, stored_checkpoint. intros Hc.
  destruct (Z.eqb_spec (has_offset c) 0); cbn; lia.
Qed.

(** Key and value have lengths that fit the format. *)
Definition fits (e : bytes * bytes) : Prop := zlen e.1 ≤ UINT32_MAX ∧ zlen e.2 ≤ UINT32_MAX.

Definition records_of (i : engine_id) (l : list (bytes * bytes)) : list snapshot_record := (engine_number i,.) <$> l.

Section encode_spec.
Context `{CRuntimeLaws RT} `{OsLaws D}.
Notation W := (pworld RT D).
Implicit Types (wr : snapshot_writer_t) (w : W) (total data : bytes) (own : list addr) (F : gset addr) (crc : Z).

Lemma same_writer_trans wr1 wr2 wr3 : same_writer wr1 wr2 → same_writer wr2 wr3 → same_writer wr1 wr3.
Proof. intros (? & ? & ? & ?) (? & ? & ? & ?). split_and!; congruence. Qed.

(** An operation that accepts [data] after [total] when [P] holds, and extends
    the CRC by it. *)
Definition emit_post own F wr w total data crc (P : Prop) (r : Z) wr' crc' w' : Prop :=
  steps_keep own F (sw_fd wr) w w' ∧ same_writer wr wr' ∧
  (r = 0 ∧ P ∧ writing wr' w' (total ++ data) ∧ crc' = snapshot_crc32_update crc data ∨ r = -1) ∧
  (healthy (p_os w) → P → zlen (total ++ data) ≤ INT64_MAX → r = 0).

Lemma write_post_fail own F wr w total data r wr' w' :
  write_post own F wr w total data r wr' w' → r < 0 → r = -1 ∧ (healthy (p_os w) → INT64_MAX < zlen (total ++ data)).
Proof.
  intros (_ & _ & Hr & Hh) Hneg. split; [destruct Hr as [[-> _]|]; [lia|done]|].
  intros Hhealth. destruct (Z.le_gt_cases (zlen (total ++ data)) INT64_MAX) as [Hle|]; [|done].
  rewrite (Hh Hhealth Hle) in Hneg. lia.
Qed.

(** One append in a sequence: on failure the sequence stops. *)
Lemma append_step {Y} wr w total d1 d2 own F wr0 w0 (k : snapshot_writer_t → M W Y) (fail : snapshot_writer_t → M W Y) Q :
  writing wr w total → owns own F (p_rt w) → steps_keep own F (sw_fd wr0) w0 w → same_writer wr0 wr →
  (∀ wr' w', steps_keep own F (sw_fd wr0) w0 w' → same_writer wr0 wr' →
     (healthy (p_os w0) → INT64_MAX < zlen (total ++ d1 ++ d2)) → wp (fail wr') w' Q) →
  (∀ wr' w', steps_keep own F (sw_fd wr0) w0 w' → same_writer wr0 wr' → writing wr' w' (total ++ d1) →
     wp (k wr') w' Q) →
  wp ('(r, wr') ← snapshot_writer_append wr d1; if r <? 0 then fail wr' else k wr') w Q.
Proof.
  intros Hw Ho Hk0 Hs0 Hfail Hk. eapply wp_step; [by apply (writer_append_spec wr w total d1 own F)|].
  intros [r wr'] w' Hp. pose proof Hp as (Hk1 & Hs1 & Hr & Hh).
  assert (sw_fd wr = sw_fd wr0) as Efd by apply Hs0. rewrite Efd in Hk1.
  pose proof (steps_keep_trans _ _ _ _ _ _ _ Hk0 Hk1) as Hk2. pose proof (same_writer_trans _ _ _ Hs0 Hs1) as Hs2.
  destruct (Z.ltb_spec r 0).
  - apply Hfail; [done|done|]. intros Hhealth. apply write_post_fail in Hp as [_ Hp]; [|done].
    rewrite app_assoc, zlen_app. pose proof (zlen_nonneg d2).
    assert (healthy (p_os w)) as Hhw by (by apply Hk0). specialize (Hp Hhw). lia.
  - destruct Hr as [[-> Hw']|]; [|lia]. by apply Hk.
Qed.

Lemma write_header_spec wr w total count crc own F :
  writing wr w total → owns own F (p_rt w) → checkpoint_valid (sw_checkpoint wr) →
  wp (snapshot_write_header wr count crc) w (λ '(r, wr', crc') w',
    emit_post own F wr w total (header_v2 (stored_checkpoint (sw_checkpoint wr)) count) crc True r wr' crc' w').
Proof.
  intros Hw Ho Hc. unfold snapshot_write_header. cbv zeta.
  assert ((negb (has_offset (sw_checkpoint wr) =? 0) && negb (has_offset (sw_checkpoint wr) =? 1))
     || (negb (has_offset (sw_checkpoint wr) =? 0) && (ck_offset (sw_checkpoint wr) <? 0)) = false) as ->.
  { destruct Hc as [-> |[-> Hc]]; [done|]. cbn. by rewrite (proj2 (Z.ltb_ge _ _)) by lia. }
  assert (SNAPSHOT_MAGIC ++ encode_u32_be SNAPSHOT_VERSION_V2 ++
    encode_u32_be (if has_offset (sw_checkpoint wr) =? 0 then 0 else SNAPSHOT_FLAG_HAS_OFFSET) ++
    encode_u64_be count ++ encode_u64_be (if has_offset (sw_checkpoint wr) =? 0 then 0 else ck_offset (sw_checkpoint wr)) =
    header_v2 (stored_checkpoint (sw_checkpoint wr)) count) as ->.
  { unfold header_v2, stored_checkpoint. destruct Hc as [E|[E _]]; rewrite E; cbn [Z.eqb Pos.eqb]; [done|]. by rewrite E. }
  apply (append_step wr w total _ [] own F wr w); try done.
  - by apply steps_keep_refl.
  - intros wr' w' Hk Hs Hlong. apply wp_ret. rewrite app_nil_r in Hlong. split_and!; [done|done|by right|]. intros Hh%Hlong. lia.
  - intros wr' w' Hk Hs Hw'. apply wp_ret. split_and!; [done|done|by left|done].
Qed.

Lemma write_record_spec wr w total i k v crc own F :
  writing wr w total → owns own F (p_rt w) →
  wp (snapshot_write_record wr (engine_number i) k v crc) w (λ '(r, wr', crc') w',
    emit_post own F wr w total (record_bytes (engine_number i, (k, v))) crc (fits (k, v)) r wr' crc' w').
Proof.
  intros Hw Ho. unfold snapshot_write_record. cbv zeta.
  assert ((engine_number i <? 1) || (4 <? engine_number i) = false) as -> by (by destruct i).
  destruct ((UINT32_MAX <? zlen k) || (UINT32_MAX <? zlen v)) eqn:El.
  { apply wp_ret. split_and!; [by apply steps_keep_refl|done|by right|]. intros _ [Hk Hv]. cbn in *.
    apply orb_true_iff in El as [?%Z.ltb_lt|?%Z.ltb_lt]; lia. }
  apply orb_false_iff in El as [Hk%Z.ltb_ge Hv%Z.ltb_ge].
  set (h := [byte_of_Z (engine_number i)] ++ encode_u32_be (zlen k) ++ encode_u32_be (zlen v)).
  assert (record_bytes (engine_number i, (k, v)) = h ++ k ++ v) as Hrec.
  { unfold record_bytes, h. cbn [fst snd]. by rewrite <- !app_assoc. }
  assert (∀ wr' w' data, steps_keep own F (sw_fd wr) w w' → same_writer wr wr' →
    (healthy (p_os w) → INT64_MAX < zlen (total ++ data)) → data = h ++ k ++ v →
    wp (mret (-1, wr', crc)) w' (λ '(r, wr', crc') w',
      emit_post own F wr w total (record_bytes (engine_number i, (k, v))) crc (fits (k, v)) r wr' crc' w')) as Hfail.
  { intros wr' w' data Hk1 Hs1 Hlong ->. apply wp_ret. rewrite Hrec. split_and!; [done|done|by right|]. intros Hh _. apply Hlong in Hh. lia. }
  eapply (append_step wr w total h (k ++ v) own F wr w); try done; [by apply steps_keep_refl|by eauto|].
  intros wr1 w1 Hk1 Hs1 Hw1.
  eapply (append_step wr1 w1 _ k v own F wr w); [done|apply Hk1|done|done| |].
  { intros wr' w' Hk' Hs' Hlong. eapply Hfail; [done|done| |done]. by rewrite <- !app_assoc in Hlong. }
  intros wr2 w2 Hk2 Hs2 Hw2.
  eapply (append_step wr2 w2 _ v [] own F wr w); [done|apply Hk2|done|done| |].
  { intros wr' w' Hk' Hs' Hlong. eapply Hfail; [done|done| |done]. by rewrite app_nil_r, <- !app_assoc in Hlong. }
  intros wr3 w3 Hk3 Hs3 Hw3. apply wp_ret. rewrite <- !app_assoc in Hw3.
  split_and!; [done|done|left|done]. rewrite Hrec, !crc_update_app. done.
Qed.

(** All pairs of one engine. *)
Lemma write_items_spec i l wr w total crc own F :
  writing wr w total → owns own F (p_rt w) →
  wp (visit_all (snapshot_write_item (engine_number i)) l (wr, crc)) w (λ '(r, (wr', crc')) w',
    emit_post own F wr w total (records_bytes (records_of i l)) crc (Forall fits l) r wr' crc' w').
Proof.
  revert wr w total crc. induction l as [|[k v] l IH]; intros wr w total crc Hw Ho; cbn [visit_all].
  { apply wp_ret. unfold emit_post. cbn. rewrite app_nil_r. split_and!; [by apply steps_keep_refl|done|left|done].
    by split_and!. }
  unfold snapshot_write_item at 1. apply wp_bind_assoc.
  eapply wp_step; [by apply write_record_spec|]. intros [[r wr1] crc1] w1 (Hk1 & Hs1 & Hr & Hh).
  eapply wp_eq; [done|]. cbv beta iota.
  change (records_bytes (records_of i ((k, v) :: l))) with (record_bytes (engine_number i, (k, v)) ++ records_bytes (records_of i l)).
  destruct (Z.ltb_spec r 0).
  { apply wp_ret. split; [done|]. split; [done|]. split; [by right|]. intros Hhealth [Hf _]%Forall_cons Hle.
    exfalso. enough (r = 0) by lia. apply Hh; [done|done|]. rewrite app_assoc, zlen_app in Hle.
    pose proof (zlen_nonneg (records_bytes (records_of i l))). lia. }
  destruct Hr as [(-> & Hf & Hw1 & ->)|]; [|lia].
  eapply wp_mono; [apply IH; [done|apply Hk1]|]. intros [r [wr2 crc2]] w2 (Hk2 & Hs2 & Hr2 & Hh2).
  assert (sw_fd wr1 = sw_fd wr) as Efd by apply Hs1. rewrite Efd in Hk2. rewrite <- app_assoc in *.
  split; [by eapply steps_keep_trans|]. split; [by eapply same_writer_trans|]. split.
  - destruct Hr2 as [(-> & Hfs & Hw2 & ->)|]; [left|by right]. rewrite crc_update_app. split_and!; try done. by constructor.
  - intros Hhealth [_ Hfs]%Forall_cons Hle. apply Hh2; [by apply Hk1|done|done].
Qed.
End encode_spec.

(** ** All engines *)

Section contents_spec.
Context `{CRuntimeLaws RT} `{OsLaws D} {Ea Er Eh Es : Type}
  `{!Engine RT Ea} `{!Engine RT Er} `{!Engine RT Eh} `{!Engine RT Es}
  `{!EngineLaws RT Ea} `{!EngineLaws RT Er} `{!EngineLaws RT Eh} `{!EngineLaws RT Es}.
Notation W := (pworld RT D).
Notation engines := (kv_engines Ea Er Eh Es).
Implicit Types (wr : snapshot_writer_t) (w : W) (total data : bytes) (own : list addr) (F : gset addr) (crc : Z) (es : engines).

Definition entries_of es (i : engine_id) : list (bytes * bytes) := eng_entries (get_engine i es).

(** The records of a data set in the order of the file. *)
Definition engine_records es : list snapshot_record :=
  records_of ARRAY (entries_of es ARRAY) ++ records_of RBTREE (entries_of es RBTREE) ++
  records_of HASH (entries_of es HASH) ++ records_of SKIPLIST (entries_of es SKIPLIST).

Definition all_fit es : Prop := ∀ i, Forall fits (entries_of es i).

Lemma emit_trans own F wr0 w0 total d1 d2 crc0 (P1 P2 : Prop) wr1 crc1 w1 r wr2 crc2 w2 :
  emit_post own F wr0 w0 total d1 crc0 P1 0 wr1 crc1 w1 →
  emit_post own F wr1 w1 (total ++ d1) d2 crc1 P2 r wr2 crc2 w2 →
  emit_post own F wr0 w0 total (d1 ++ d2) crc0 (P1 ∧ P2) r wr2 crc2 w2.
Proof.
  intros (Hk1 & Hs1 & Hr1 & Hh1) (Hk2 & Hs2 & Hr2 & Hh2). rewrite <- app_assoc in *.
  assert (sw_fd wr1 = sw_fd wr0) as Efd by apply Hs1. rewrite Efd in Hk2.
  destruct Hr1 as [(_ & HP1 & Hw1 & ->)|]; [|done].
  split; [by eapply steps_keep_trans|]. split; [by eapply same_writer_trans|]. split.
  - destruct Hr2 as [(-> & HP2 & Hw2 & ->)|]; [left|by right]. by rewrite crc_update_app.
  - intros Hh [_ HP2] Hle. apply Hh2; [by apply Hk1|done|done].
Qed.

Lemma emit_fail own F wr0 w0 total d1 d2 crc0 (P1 P2 : Prop) wr1 crc1 w1 :
  emit_post own F wr0 w0 total d1 crc0 P1 (-1) wr1 crc1 w1 →
  emit_post own F wr0 w0 total (d1 ++ d2) crc0 (P1 ∧ P2) (-1) wr1 crc1 w1.
Proof.
  intros (Hk1 & Hs1 & Hr1 & Hh1). split; [done|]. split; [done|]. split; [by right|].
  intros Hh [HP1 _] Hle. apply Hh1; [done|done|]. rewrite app_assoc, zlen_app in Hle. pose proof (zlen_nonneg d2). lia.
Qed.

Lemma emit_code own F wr0 w0 total d crc0 (P : Prop) r wr1 crc1 w1 :
  emit_post own F wr0 w0 total d crc0 P r wr1 crc1 w1 → r = 0 ∨ r = -1.
Proof. intros (_ & _ & [(-> & _)| ->] & _); auto. Qed.

(** The pairs of one engine after the data [d] already accepted. *)
Lemma foreach_step {E} `{!Engine RT E} `{!EngineLaws RT E} (e : E) i wr w total d d' crc own F wr0 w0 crc0 (P P' : Prop)
    (k : snapshot_writer_t * Z → M W (Z * (snapshot_writer_t * Z))) :
  eng_wf e → emit_post own F wr0 w0 total d crc0 P 0 wr crc w →
  (∀ wr' crc' w',
     emit_post own F wr0 w0 total (d ++ records_bytes (records_of i (eng_entries e))) crc0 (P ∧ Forall fits (eng_entries e)) 0 wr' crc' w' →
     wp (k (wr', crc')) w' (λ '(r, (wr', crc')) w',
       emit_post own F wr0 w0 total ((d ++ records_bytes (records_of i (eng_entries e))) ++ d') crc0
         ((P ∧ Forall fits (eng_entries e)) ∧ P') r wr' crc' w')) →
  wp ('(r, context) ← eng_foreach e (Some (snapshot_write_item (engine_number i))) (wr, crc);
      if r <? 0 then mret (-1, context) else k context) w (λ '(r, (wr', crc')) w',
    emit_post own F wr0 w0 total ((d ++ records_bytes (records_of i (eng_entries e))) ++ d') crc0
      ((P ∧ Forall fits (eng_entries e)) ∧ P') r wr' crc' w').
Proof.
  intros Hwf He Hk. pose proof He as (Hkeep & _ & [(_ & _ & Hw & _)|] & _); [|done].
  eapply (wp_step _ _ _ (λ '(r, (wr', crc')) w', emit_post own F wr w (total ++ d)
    (records_bytes (records_of i (eng_entries e))) crc (Forall fits (eng_entries e)) r wr' crc' w')).
  { unfold wp. rewrite eng_foreach_law by done. apply write_items_spec; [done|apply Hkeep]. }
  intros [r [wr1 crc1]] w1 He1. pose proof (emit_trans _ _ _ _ _ _ _ _ _ _ _ _ _ _ _ _ _ He He1) as He2.
  destruct (emit_code _ _ _ _ _ _ _ _ _ _ _ _ He2) as [-> | ->]; cbn [Z.ltb Z.compare].
  - by apply Hk.
  - apply wp_ret. by apply emit_fail.
Qed.

Lemma emit_refl own F wr w total crc : writing wr w total → owns own F (p_rt w) →
  emit_post own F wr w total [] crc True 0 wr crc w.
Proof.
  intros Hw Ho. split; [by apply steps_keep_refl|]. split; [done|]. rewrite app_nil_r. split; [by left|done].
Qed.

Lemma emit_iff own F wr0 w0 total d d' crc0 (P P' : Prop) r wr1 crc1 w1 :
  d = d' → (P ↔ P') →
  emit_post own F wr0 w0 total d crc0 P r wr1 crc1 w1 → emit_post own F wr0 w0 total d' crc0 P' r wr1 crc1 w1.
Proof. intros <- HP (Hk & Hs & Hr & Hh). split_and!; [done|done|tauto|tauto]. Qed.

Lemma records_bytes_app rs1 rs2 : records_bytes (rs1 ++ rs2) = records_bytes rs1 ++ records_bytes rs2.
Proof. by rewrite fmap_app, join_app. Qed.

Lemma write_records_spec es wr w total crc own F :
  engines_wf es → writing wr w total → owns own F (p_rt w) →
  wp (snapshot_write_records es wr crc) w (λ '(r, (wr', crc')) w',
    emit_post own F wr w total (records_bytes (engine_records es)) crc (all_fit es) r wr' crc' w').
Proof.
  intros Hwf Hw Ho. unfold snapshot_write_records. cbv zeta.
  eapply wp_mono.
  - apply (foreach_step (global_array es) ARRAY wr w total []
      (records_bytes (records_of RBTREE (entries_of es RBTREE)) ++ records_bytes (records_of HASH (entries_of es HASH)) ++
       records_bytes (records_of SKIPLIST (entries_of es SKIPLIST)) ++ [])
      crc own F wr w crc True
      (Forall fits (entries_of es RBTREE) ∧ Forall fits (entries_of es HASH) ∧ Forall fits (entries_of es SKIPLIST) ∧ True));
      [exact (Hwf ARRAY)|by apply emit_refl|].
    intros wr1 crc1 w1 He1. rewrite app_assoc.
    eapply wp_mono; [refine (foreach_step (global_rbtree es) RBTREE wr1 w1 total _
      (records_bytes (records_of HASH (entries_of es HASH)) ++ records_bytes (records_of SKIPLIST (entries_of es SKIPLIST)) ++ [])
      crc1 own F wr w crc _ (Forall fits (entries_of es HASH) ∧ Forall fits (entries_of es SKIPLIST) ∧ True) _ (Hwf RBTREE) He1 _)|].
    2:{ intros [r [wr' crc']] w'. apply emit_iff; [done|unfold entries_of; cbn; tauto]. }
    intros wr2 crc2 w2 He2. rewrite app_assoc.
    eapply wp_mono; [refine (foreach_step (global_hash es) HASH wr2 w2 total _
      (records_bytes (records_of SKIPLIST (entries_of es SKIPLIST)) ++ [])
      crc2 own F wr w crc _ (Forall fits (entries_of es SKIPLIST) ∧ True) _ (Hwf HASH) He2 _)|].
    2:{ intros [r [wr' crc']] w'. apply emit_iff; [done|unfold entries_of; cbn; tauto]. }
    intros wr3 crc3 w3 He3. rewrite app_assoc.
    eapply wp_mono; [refine (foreach_step (global_skiplist es) SKIPLIST wr3 w3 total _ [] crc3 own F wr w crc _ True _ (Hwf SKIPLIST) He3 _)|].
    2:{ intros [r [wr' crc']] w'. apply emit_iff; [done|unfold entries_of; cbn; tauto]. }
    intros wr4 crc4 w4 He4. apply wp_ret. revert He4. apply emit_iff; [by rewrite app_nil_r|tauto].
  - intros [r [wr' crc']] w'. apply emit_iff.
    + unfold engine_records. rewrite !records_bytes_app. by rewrite !app_nil_r.
    + unfold all_fit. split; [intros Hall [| | |]; tauto|]. intros Hall.
      pose proof (Hall ARRAY). pose proof (Hall RBTREE). pose proof (Hall HASH). pose proof (Hall SKIPLIST). tauto.
Qed.

(** Counting ends with an error when there are too many records. *)
Lemma count_items_spec (l : list (bytes * bytes)) c w : 0 ≤ c ≤ UINT64_MAX →
  visit_all (snapshot_count_item (RT := RT) (D := D)) l c w =
    if c + zlen l <=? UINT64_MAX then Ok (0, c + zlen l) w else Ok (-1, UINT64_MAX) w.
Proof.
  revert c. induction l as [|[k v] l IH]; intros c Hc; cbn [visit_all].
  { change (zlen []) with 0. rewrite Z.add_0_r. by rewrite (proj2 (Z.leb_le c UINT64_MAX)) by lia. }
  rewrite zlen_cons. pose proof (zlen_nonneg l). unfold mbind, M_bind, snapshot_count_item at 1. destruct (Z.eqb_spec c UINT64_MAX) as [->|].
  - cbn. by rewrite (proj2 (Z.leb_gt _ _)) by lia.
  - cbn [Z.ltb Z.compare mret M_ret]. rewrite IH, Z.add_assoc by lia. done.
Qed.

Lemma records_of_length i l : zlen (records_of i l) = zlen l.
Proof. apply zlen_fmap. Qed.

Lemma count_foreach {E} `{!Engine RT E} `{!EngineLaws RT E} (e : E) c w :
  eng_wf e → 0 ≤ c ≤ UINT64_MAX →
  eng_foreach e (Some (snapshot_count_item (RT := RT) (D := D))) c w =
    if c + zlen (eng_entries e) <=? UINT64_MAX then Ok (0, c + zlen (eng_entries e)) w else Ok (-1, UINT64_MAX) w.
Proof. intros Hwf Hc. rewrite eng_foreach_law by done. by apply count_items_spec. Qed.

Lemma count_records_spec es w : engines_wf es →
  ∃ n, snapshot_count_records es w = if zlen (engine_records es) <=? UINT64_MAX then Ok (0, zlen (engine_records es)) w else Ok (-1, n) w.
Proof.
  intros Hwf. unfold engine_records. rewrite !zlen_app, !records_of_length.
  change (entries_of es ARRAY) with (eng_entries (global_array es)).
  change (entries_of es RBTREE) with (eng_entries (global_rbtree es)).
  change (entries_of es HASH) with (eng_entries (global_hash es)).
  change (entries_of es SKIPLIST) with (eng_entries (global_skiplist es)).
  pose proof (zlen_nonneg (eng_entries (global_array es))). pose proof (zlen_nonneg (eng_entries (global_rbtree es))).
  pose proof (zlen_nonneg (eng_entries (global_hash es))). pose proof (zlen_nonneg (eng_entries (global_skiplist es))).
  set (total := zlen (eng_entries (global_array es)) + _). exists UINT64_MAX. unfold snapshot_count_records, mbind, M_bind.
  assert (UINT64_MAX < total → (total <=? UINT64_MAX) = false) as Hmany by (intros; by apply Z.leb_gt).
  rewrite count_foreach; [|exact (Hwf ARRAY)|unfold UINT64_MAX; lia].
  destruct (Z.leb_spec (0 + zlen (eng_entries (global_array es))) UINT64_MAX); cbn [Z.ltb Z.compare]; [|by rewrite Hmany by lia].
  rewrite count_foreach; [|exact (Hwf RBTREE)|lia].
  destruct (Z.leb_spec (0 + zlen (eng_entries (global_array es)) + zlen (eng_entries (global_rbtree es))) UINT64_MAX); cbn [Z.ltb Z.compare]; [|by rewrite Hmany by lia].
  rewrite count_foreach; [|exact (Hwf HASH)|lia].
  destruct (Z.leb_spec (0 + zlen (eng_entries (global_array es)) + zlen (eng_entries (global_rbtree es)) + zlen (eng_entries (global_hash es))) UINT64_MAX);
    cbn [Z.ltb Z.compare]; [|by rewrite Hmany by lia].
  rewrite count_foreach; [|exact (Hwf SKIPLIST)|lia].
  replace (0 + zlen (eng_entries (global_array es)) + zlen (eng_entries (global_rbtree es)) + zlen (eng_entries (global_hash es)) + zlen (eng_entries (global_skiplist es)))
    with total by (unfold total; lia).
  by destruct (total <=? UINT64_MAX).
Qed.
End contents_spec.

(** * Saving *)

Section save_spec.
Context `{CRuntimeLaws RT} `{OsLaws D} {Ea Er Eh Es : Type}
  `{!Engine RT Ea} `{!Engine RT Er} `{!Engine RT Eh} `{!Engine RT Es}
  `{!EngineLaws RT Ea} `{!EngineLaws RT Er} `{!EngineLaws RT Eh} `{!EngineLaws RT Es}.
Notation W := (pworld RT D).
Notation engines := (kv_engines Ea Er Eh Es).
Implicit Types (wr : snapshot_writer_t) (w : W) (own : list addr) (F : gset addr) (es : engines) (d : D)
  (c : kvs_snapshot_checkpoint_t).

(** The file a save produces. *)
Definition snapshot_payload c es : bytes :=
  header_v2 (stored_checkpoint c) (zlen (engine_records es)) ++ records_bytes (engine_records es).
Definition snapshot_image c es : bytes := snapshot_payload c es ++ checksum_of (snapshot_payload c es).

(** What the writer needs of the data set to succeed. *)
Definition savable c es : Prop := all_fit es ∧ zlen (snapshot_image c es) ≤ INT64_MAX.

Lemma image_count c es : zlen (snapshot_image c es) ≤ SIZE_MAX → zlen (engine_records es) ≤ UINT64_MAX.
Proof.
  unfold snapshot_image, snapshot_payload. rewrite !zlen_app. intros Hle. pose proof (records_bytes_length (engine_records es)).
  pose proof (zlen_nonneg (header_v2 (stored_checkpoint c) (zlen (engine_records es)))). pose proof (zlen_nonneg (engine_records es)).
  pose proof (zlen_nonneg (checksum_of (header_v2 (stored_checkpoint c) (zlen (engine_records es)) ++ records_bytes (engine_records es)))).
  unfold SIZE_MAX, UINT64_MAX in *. lia.
Qed.

Lemma savable_count c es : savable c es → zlen (engine_records es) ≤ UINT64_MAX.
Proof. intros [_ Hle]. apply (image_count c). unfold INT64_MAX, SIZE_MAX in *. lia. Qed.

Lemma write_contents_spec es wr w own F :
  engines_wf es → checkpoint_valid (sw_checkpoint wr) →
  writing wr w [] → owns own F (p_rt w) →
  wp (snapshot_write_contents es wr) w (λ '(r, wr') w',
    steps_keep own F (sw_fd wr) w w' ∧ same_writer wr wr' ∧
    (r = 0 ∧ all_fit es ∧ fd_file (p_os w') (sw_fd wr) = Some (snapshot_image (sw_checkpoint wr) es) ∨ r = -1) ∧
    (healthy (p_os w) → savable (sw_checkpoint wr) es → r = 0)).
Proof.
  intros Hwf Hck Hw Ho. unfold snapshot_write_contents.
  destruct (count_records_spec es w Hwf) as [c Ecount]. destruct (Z.leb_spec (zlen (engine_records es)) UINT64_MAX) as [Hcount|Hmany].
  2:{ eapply wp_eq; [exact Ecount|]. apply wp_ret. split; [by apply steps_keep_refl|]. split; [done|]. split; [by right|]. intros _ Hs. apply savable_count in Hs. lia. }
  eapply wp_eq; [exact Ecount|]. cbv beta iota. cbn [Z.ltb Z.compare].
  set (ck := sw_checkpoint wr) in *. set (n := zlen (engine_records es)) in *.
  eapply wp_step; [by apply write_header_spec|]. intros [[r wr1] crc1] w1 He1. cbv beta iota.
  assert (∀ data (P : Prop) wr' crc' w' rest, emit_post own F wr w [] data UINT32_MAX P (-1) wr' crc' w' →
    (all_fit es → P) → data ++ rest = snapshot_image ck es →
    wp (mret (-1, wr')) w' (λ '(r, wr') w', steps_keep own F (sw_fd wr) w w' ∧ same_writer wr wr' ∧
      (r = 0 ∧ all_fit es ∧ fd_file (p_os w') (sw_fd wr) = Some (snapshot_image ck es) ∨ r = -1) ∧
      (healthy (p_os w) → savable ck es → r = 0))) as Hfail.
  { intros data P wr' crc' w' rest (Hk & Hs & _ & Hh) HP Heq. apply wp_ret. split_and!; [done|done|by right|].
    intros Hhealth [Hfit Hle]. apply Hh; [done|by apply HP|]. rewrite <- Heq, zlen_app in Hle.
    pose proof (zlen_nonneg rest). cbn. lia. }
  destruct (emit_code _ _ _ _ _ _ _ _ _ _ _ _ He1) as [-> | ->]; cbn [Z.ltb Z.compare].
  2:{ eapply Hfail; [exact He1|done|]. unfold snapshot_image, snapshot_payload. by rewrite <- !app_assoc. }
  pose proof He1 as (Hk1 & Hs1 & [(_ & _ & Hw1 & _)|] & _); [|done].
  eapply wp_step; [apply write_records_spec; [done|exact Hw1|apply Hk1]|]. intros [r [wr2 crc2]] w2 He2. cbv beta iota.
  pose proof (emit_trans _ _ _ _ _ _ _ _ _ _ _ _ _ _ _ _ _ He1 He2) as He3. fold n ck in He3.
  change (header_v2 (stored_checkpoint ck) n ++ records_bytes (engine_records es)) with (snapshot_payload ck es) in He3.
  destruct (emit_code _ _ _ _ _ _ _ _ _ _ _ _ He3) as [-> | ->]; cbn [Z.ltb Z.compare].
  2:{ eapply Hfail; [exact He3|done|reflexivity]. }
  pose proof He3 as (Hk3 & Hs3 & [(_ & [_ Hfit] & Hw3 & ->)|] & _); [|done].
  fold (checksum_of (snapshot_payload ck es)).
  apply (append_step wr2 w2 ([] ++ snapshot_payload ck es) (checksum_of (snapshot_payload ck es)) [] own F wr w); [done|apply Hk3|done|done| |].
  { intros wr' w' Hk Hs Hlong. apply wp_ret. split_and!; [done|done|by right|]. intros Hhealth [_ Hle].
    apply Hlong in Hhealth. rewrite app_nil_r in Hhealth. unfold snapshot_image in Hle. cbn [app] in Hhealth. lia. }
  intros wr3 w3 Hk4 Hs4 Hw4. cbn [app] in Hw4. eapply wp_mono; [exact (flush_spec _ _ _ own F Hw4 (proj1 Hk4))|].
  intros [r wr4] w4 ((Hk5 & Hs5 & Hr & Hh) & Hempty). rewrite app_nil_r in Hr, Hh.
  assert (sw_fd wr3 = sw_fd wr) as Efd by apply Hs4. rewrite Efd in Hk5.
  split_and!; [by eapply steps_keep_trans|by eapply same_writer_trans| |].
  - destruct Hr as [[-> Hw5]|]; [left|by right]. split; [done|]. split; [done|].
    destruct Hw5 as (_ & _ & _ & written & Hf & _ & Ht). rewrite (Hempty eq_refl), app_nil_r in Ht.
    assert (sw_fd wr4 = sw_fd wr) as <- by (transitivity (sw_fd wr3); [apply Hs5|done]). by rewrite Hf, <- Ht.
  - intros Hhealth [_ Hle]. apply Hh; [by apply Hk4|done].
Qed.

Lemma sync_loop_spec n fd d : (interruptions d ≤ n)%nat →
  wp (sync_loop n fd) d (λ r d', keeps_health d d' ∧ os_same d d' ∧ (healthy d → 0 ≤ r)).
Proof.
  revert d. induction n as [|n IH]; intros d Hn; cbn [sync_loop];
    (eapply wp_step; [by apply fsync_law|]); intros [r eintr] d1 (Hk & Hs & _ & Hr);
    destruct (Z.ltb_spec r 0); cbn [andb]; try (apply wp_ret; split_and!; try done; lia).
  - destruct (Hr ltac:(lia)) as [Hh Hi]. destruct eintr; [specialize (Hi eq_refl); lia|]. apply wp_ret. by split_and!.
  - destruct (Hr ltac:(lia)) as [Hh Hi]. destruct eintr; [|apply wp_ret; by split_and!].
    eapply wp_mono; [apply IH; specialize (Hi eq_refl); lia|]. intros r2 d2 (Hk2 & Hs2 & _).
    split_and!; [unfold keeps_health in *; auto|by eapply os_same_trans|done].
Qed.

Lemma writer_init_spec wr w fd own F :
  0 ≤ fd → sw_buffer wr = None → sw_io wr = false → owns own F (p_rt w) → fd_file (p_os w) fd = Some [] →
  wp (snapshot_writer_init wr fd) w (λ '(r, wr') w',
    keeps_health (p_os w) (p_os w') ∧ os_same (p_os w) (p_os w') ∧ p_aof w' = p_aof w ∧
    (roomy (p_rt w) → roomy (p_rt w')) ∧ sw_checkpoint wr' = sw_checkpoint wr ∧ sw_fd wr' = fd ∧
    (r = 0 ∧ (∃ b, sw_buffer wr' = Some b ∧ owns (b :: own) F (p_rt w')) ∧ writing wr' w' [] ∨
     r = -1 ∧ sw_buffer wr' = None ∧ owns own F (p_rt w')) ∧
    (healthy (p_os w) → roomy (p_rt w) → r = 0)).
Proof.
  intros Hfd Hb Hio Ho Hf. unfold snapshot_writer_init. rewrite (proj2 (Z.ltb_ge _ _)) by lia.
  rewrite Hb, Hio, bool_decide_eq_false_2 by naive_solver. cbn [orb].
  eapply step_rt; [by apply (wp_malloc _ own F)|]. intros [b|] r1 [Ho1 Hr1]; cycle 1.
  { apply wp_ret. split_and!; try done; [by intros ?|naive_solver|right; naive_solver|]. intros _ Hr. by destruct (Hr1 Hr). }
  eapply step_os; [apply uring_init_law|]. intros r d1 (Hk & Hs & Hh). destruct (Z.ltb_spec r 0).
  - eapply step_rt; [by apply (wp_free b own F)|]. intros _ r2 [Ho2 Hr2]. apply wp_ret.
    split_and!; try done; [naive_solver|right; naive_solver|]. intros Hhealth. apply Hh in Hhealth. lia.
  - apply wp_ret. split_and!; try done; [naive_solver|]. left. split; [done|]. split; [by exists b|].
    split_and!; [done|by eexists|done|]. exists []. split_and!; [|done|done]. cbn. by rewrite (fd_file_same (p_os w)).
Qed.

(** What the steps up to [done] leave: the blocks held, the descriptors, and
    whether the temporary file exists, has become [path], or was never made. *)
Definition save_mid own F w0 es c path (r : Z) wr' (file_fd : Z) (tmp : option bytes) w' : Prop :=
  owns (match sw_buffer wr' with Some b => b :: own | None => own end) F (p_rt w') ∧
  (roomy (p_rt w0) → roomy (p_rt w')) ∧ keeps_health (p_os w0) (p_os w') ∧ p_aof w' = p_aof w0 ∧
  (if 0 <=? file_fd
   then ∃ i, os_fds (p_os w0) !! file_fd = None ∧ os_fds (p_os w') = <[file_fd := i]> (os_fds (p_os w0))
   else os_fds (p_os w') = os_fds (p_os w0)) ∧
  (r = 0 ∨ r = -1) ∧
  match tmp with
  | Some q => r = -1 ∧ ∃ i, os_names (p_os w0) !! q = None ∧ os_data (p_os w0) !! i = None ∧
      os_names (p_os w') = <[q := i]> (os_names (p_os w0)) ∧
      ∀ j, j ≠ i → os_data (p_os w') !! j = os_data (p_os w0) !! j
  | None => r = -1 ∧ os_same (p_os w0) (p_os w') ∨
      ∃ i, os_data (p_os w0) !! i = None ∧ os_names (p_os w') = <[path := i]> (os_names (p_os w0)) ∧
        os_data (p_os w') !! i = Some (snapshot_image c es) ∧ all_fit es ∧
        ∀ j, j ≠ i → os_data (p_os w') !! j = os_data (p_os w0) !! j
  end ∧
  (healthy (p_os w0) → roomy (p_rt w0) → savable c es → r = 0).

(** Take a [save_mid] apart, and no further. *)
Ltac split_mid := refine (conj _ (conj _ (conj _ (conj _ (conj _ (conj _ (conj _ _))))))).

Lemma save_steps_spec es wr w template path dfd own F :
  engines_wf es → checkpoint_valid (sw_checkpoint wr) →
  sw_buffer wr = None → sw_io wr = false → owns own F (p_rt w) →
  wp (snapshot_save_steps es wr template path dfd) w (λ '(r, wr', file_fd, tmp) w',
    save_mid own F w es (sw_checkpoint wr) path r wr' file_fd tmp w').
Proof.
  intros Hwf Hck Hb Hio Ho. unfold snapshot_save_steps.
  eapply step_os; [apply mkstemp_law|]. intros [[fd q]|] d1 (Hk1 & Hm).
  2:{ destruct Hm as [Hs Hh]. apply wp_ret. unfold save_mid. rewrite Hb.
      split_and!; try done; [apply Hs|by right|by left]. }
  destruct Hm as (i & (Hfd & Hfree & Hfds) & Hq & Hi & Hn & Hd).
  eapply wp_step; [apply (writer_init_spec _ _ _ own F); [done|done|done|exact Ho|]|].
  { cbn. unfold fd_file. rewrite Hfds, lookup_insert_eq. cbn. by rewrite Hd, lookup_insert_eq. }
  intros [r wr1] w1 (Hkh1 & Hs1 & Ha1 & Hr1 & Hc1 & Hf1 & Hres1 & Hgood1). cbn [p_os p_rt p_aof put_os] in *.
  rewrite <- Hc1 in *. clear Hc1. set (c := sw_checkpoint wr1) in *.
  assert (∀ r wr' w', steps_keep (match sw_buffer wr' with Some b => b :: own | None => own end) F fd w1 w' →
    (healthy (p_os w) → roomy (p_rt w) → savable c es → r = -1 → False) → r = -1 →
    save_mid own F w es c path r wr' fd (Some q) w') as Hmid.
  { intros r' wr' w' (Hok & Hrk & Hhk & Hof & Hak) Hgood ->. destruct Hs1 as (En & Ed & Ef), Hof as (En' & Ef' & Ed').
    split_mid; [done|auto|unfold keeps_health in *; auto|congruence| |by right| |].
    - destruct (Z.leb_spec 0 fd); [|lia]. exists i. split; [done|]. congruence.
    - split; [done|]. exists i. split_and!; [done|done|congruence|]. intros j Hj. rewrite Ed'.
      + by rewrite Ed, Hd, lookup_insert_ne.
      + rewrite Ef, Hfds, lookup_insert_eq. congruence.
    - intros Hh Hrm Hsv. exfalso. by apply Hgood. }
  destruct Hres1 as [(-> & (b & Hbuf & Ho1) & Hw1)|(-> & Hbuf & Ho1)]; cbn [Z.ltb Z.compare].
  2:{ apply wp_ret. apply Hmid; [|intros Hh Hrm _ _; specialize (Hgood1 ltac:(auto) Hrm); lia|done].
      rewrite Hbuf. apply steps_keep_refl, Ho1. }
  eapply wp_step; [apply (write_contents_spec es wr1 w1 (b :: own) F); done|].
  intros [r wr2] w2 (Hk2 & Hsw2 & Hres2 & Hgood2). rewrite Hf1 in Hk2, Hres2.
  assert (sw_buffer wr2 = Some b) as Hbuf2 by (transitivity (sw_buffer wr1); [apply Hsw2|done]).
  destruct Hres2 as [(-> & Hfit & Hfile)| ->]; cbn [Z.ltb Z.compare].
  2:{ apply wp_ret. apply Hmid; [by rewrite Hbuf2| |done]. intros Hh Hrm Hsv _. specialize (Hgood2 ltac:(auto) Hsv). lia. }
  eapply step_os; [apply uring_sync_law|]. intros sr d3 (Hk3 & Hs3 & Hh3).
  assert (steps_keep (b :: own) F fd w1 (put_os d3 w2)) as Hk3'.
  { eapply steps_keep_trans; [exact Hk2|]. split_and!; [apply Hk2|done|done|by apply only_fd_same|done]. }
  assert (is_Some (os_fds (p_os w2) !! fd)) as Hopen.
  { destruct Hk2 as (_ & _ & _ & (_ & Ef & _) & _). rewrite Ef. destruct Hs1 as (_ & _ & ->). rewrite Hfds, lookup_insert_eq. by eexists. }
  destruct (Z.ltb_spec sr 0).
  { apply wp_ret. apply Hmid; [by rewrite Hbuf2| |done]. intros Hh Hrm Hsv _.
    assert (healthy (p_os w2)) as Hh2 by (apply Hk2; auto). specialize (Hh3 Hh2 Hopen). lia. }
  eapply step_os; [apply close_law|]. intros cr d4 (Hk4 & Hn4 & Hd4 & Hf4 & Hcr & Hcr'). cbn [p_os put_os p_rt p_aof] in *.
  assert (os_same (p_os w2) d3) as (Hn3 & Hd3 & Hf3) by done.
  destruct Hk2 as (Ho2 & Hrm2 & Hhk2 & (Hn2 & Hf2 & Hd2) & Ha2). destruct Hs1 as (Hn1 & Hd1 & Hfd1).
  assert (os_fds d4 = os_fds (p_os w)) as Hfds4.
  { rewrite Hf4, Hf3, Hf2, Hfd1, Hfds. by rewrite delete_insert_id. }
  assert (os_names d4 = <[q := i]> (os_names (p_os w))) as Hnames4 by congruence.
  assert (keeps_health (p_os w) d4) as Hhk4 by (unfold keeps_health in *; auto 10).
  assert (os_data d4 !! i = Some (snapshot_image c es)) as Hi4.
  { rewrite Hd4, Hd3. unfold fd_file in Hfile. rewrite Hf2, Hfd1, Hfds, lookup_insert_eq in Hfile. exact Hfile. }
  assert (∀ j, j ≠ i → os_data d4 !! j = os_data (p_os w) !! j) as Hother4.
  { intros j Hj. rewrite Hd4, Hd3, Hd2; [by rewrite Hd1, Hd, lookup_insert_ne|]. rewrite Hfd1, Hfds, lookup_insert_eq. congruence. }
  assert (∀ d' r, os_fds d' = os_fds d4 → os_names d' = os_names d4 → os_data d' = os_data d4 → keeps_health d4 d' →
    (healthy (p_os w) → False) → r = -1 → save_mid own F w es c path r wr2 (-1) (Some q) (put_os d' w2)) as Hmid2.
  { intros d' r' Ef En Ed Hh Hgood ->. split_mid; cbn; [by rewrite Hbuf2|auto|unfold keeps_health in *; auto|congruence|congruence|by right| |].
    - split; [done|]. exists i. split_and!; [done|done|congruence|]. intros j Hj. rewrite Ed. by apply Hother4.
    - intros Hhealth _ _. exfalso. by apply Hgood. }
  destruct (Z.ltb_spec cr 0).
  { apply wp_ret. apply Hmid2; [done|done|done|by intros ?| |done]. intros Hh.
    assert (healthy d3) as Hd3h by (unfold keeps_health in *; auto 10). specialize (Hcr Hd3h). rewrite Hf3 in Hcr. specialize (Hcr Hopen). lia. }
  eapply step_os; [apply (rename_law _ _ i); cbn; by rewrite Hnames4, lookup_insert_eq|].
  intros rr d5 (Hk5 & _ & Hr5). cbn [p_os put_os] in *. destruct (Z.ltb_spec rr 0).
  { apply wp_ret. destruct Hr5 as [(En & Ed & Ef) Hh]. apply Hmid2; [done|done|done|done| |done]. intros Hw. by apply Hh, Hhk4. }
  destruct Hr5 as (Hn5 & Hd5 & Hf5).
  eapply step_os. { eapply wp_eq; [done|]. by apply sync_loop_spec. }
  intros sr2 d6 (Hk6 & (Hn6 & Hd6 & Hf6) & Hh6). cbn [p_os put_os] in *.
  assert (∀ r, (r = 0 ∨ r = -1 ∧ (healthy d5 → False)) → save_mid own F w es c path r wr2 (-1) None (put_os d6 w2)) as Hend.
  { intros r' Hr'. split_mid; cbn; [by rewrite Hbuf2|auto|unfold keeps_health in *; auto|congruence|congruence|naive_solver| |].
    - right. exists i. split_and!; [done| | |done|].
      + rewrite Hn6, Hn5, Hnames4. by rewrite delete_insert_id.
      + by rewrite Hd6, Hd5.
      + intros j Hj. rewrite Hd6, Hd5. by apply Hother4.
    - intros Hh _ _. destruct Hr' as [|[_ Hno]]; [done|]. exfalso. by apply Hno, Hk5, Hhk4. }
  destruct (Z.ltb_spec sr2 0); apply wp_ret; apply Hend; [right|by left]. split; [done|]. intros Hh%Hh6. lia.
Qed.

(** [path] holds the image, and every other file is as it was. *)
Definition saved_as es c (path : bytes) d d' : Prop :=
  all_fit es ∧ file_at d' path = Some (snapshot_image c es) ∧
  ∀ p f, p ≠ path → file_at d p = Some f → file_at d' p = Some f.

(** The contents behind every descriptor are as they were. *)
Definition data_kept d d' : Prop := ∀ i f, os_data d !! i = Some f → os_data d' !! i = Some f.

(** Every file there was is as it was. *)
Definition files_intact d d' : Prop := ∀ p f, file_at d p = Some f → file_at d' p = Some f.

Definition save_post own F w es c path (r : Z) w' : Prop :=
  owns own F (p_rt w') ∧ (roomy (p_rt w) → roomy (p_rt w')) ∧ keeps_health (p_os w) (p_os w') ∧
  p_aof w' = p_aof w ∧ os_fds (p_os w') = os_fds (p_os w) ∧ data_kept (p_os w) (p_os w') ∧ (r = 0 ∨ r = -1) ∧
  (saved_as es c path (p_os w) (p_os w') ∨ r = -1 ∧ files_intact (p_os w) (p_os w')) ∧
  (healthy (p_os w) → ∀ p, p ≠ path → os_names (p_os w') !! p = os_names (p_os w) !! p) ∧
  (healthy (p_os w) → roomy (p_rt w) → savable c es → zlen path ≤ INT64_MAX → r = 0).

Lemma new_file_intact d d' q i p f :
  os_names d !! q = None → os_data d !! i = None →
  (os_names d' = <[q := i]> (os_names d) ∨ os_names d' = delete q (<[q := i]> (os_names d))) →
  (∀ j, j ≠ i → os_data d' !! j = os_data d !! j) → file_at d p = Some f → file_at d' p = Some f.
Proof.
  intros Hq Hi Hn Hd Hf. unfold file_at in *. destruct (os_names d !! p) as [j|] eqn:Ep; [|done].
  assert (os_names d' !! p = Some j) as ->.
  { assert (p ≠ q) by congruence. destruct Hn as [-> | ->].
    - by rewrite lookup_insert_ne.
    - by rewrite lookup_delete_ne, lookup_insert_ne. }
  cbn in *. rewrite Hd by congruence. done.
Qed.

Lemma parent_directory_spec path w own F :
  owns own F (p_rt w) → path ≠ [] →
  wp (snapshot_open_parent_directory path) w (λ r w',
    owns own F (p_rt w') ∧ (roomy (p_rt w) → roomy (p_rt w')) ∧ keeps_health (p_os w) (p_os w') ∧ p_aof w' = p_aof w ∧
    match r with
    | Some fd => ∃ i, os_opened (p_os w) fd i (p_os w') ∧ os_names (p_os w') = os_names (p_os w) ∧
        os_data (p_os w') = os_data (p_os w)
    | None => os_same (p_os w) (p_os w') ∧ (healthy (p_os w) → roomy (p_rt w) → False)
    end).
Proof.
  intros Ho Hp. unfold snapshot_open_parent_directory. rewrite bool_decide_eq_false_2 by done.
  eapply step_rt; [apply (wp_malloc _ own F); [pose proof (zlen_nonneg path); lia|done]|]. intros [p|] r1 [Ho1 Hr1]; cycle 1.
  { apply wp_ret. split_and!; try done; [naive_solver|by intros ?|]. intros _ Hr. by destruct (Hr1 Hr). }
  eapply step_os; [apply open_directory_law|]. intros r d1 (Hk & Hd).
  eapply step_rt; [by apply (wp_free p own F)|]. intros _ r2 [Ho2 Hr2]. apply wp_ret.
  split; [done|]. split; [naive_solver|]. split; [done|]. split; [done|].
  destruct r as [fd|]; [destruct Hd as (i & Hop & Hn & Hda & _); by exists i|]. destruct Hd as [Hs Hh]. by split.
Qed.

Lemma wp_writer_close wr w own F :
  owns (match sw_buffer wr with Some b => b :: own | None => own end) F (p_rt w) →
  wp (snapshot_writer_close wr) w (λ _ w', owns own F (p_rt w') ∧ (roomy (p_rt w) → roomy (p_rt w')) ∧
    keeps_health (p_os w) (p_os w') ∧ os_same (p_os w) (p_os w') ∧ p_aof w' = p_aof w).
Proof.
  intros Ho. unfold snapshot_writer_close. eapply step_os; [apply uring_close_law|]. intros _ d1 [Hk Hs].
  eapply (step_rt _ _ _ (λ _ r, owns own F r ∧ (roomy (p_rt w) → roomy r))); [|intros _ r1 [Ho1 Hr1]; by apply wp_ret].
  destruct (sw_buffer wr); [by apply wp_free|by apply wp_free_null].
Qed.

(** Both kinds of cleaning up the temporary file's descriptor and name. *)
Lemma close_if_open_spec fd w fds0 :
  (if 0 <=? fd then ∃ i, fds0 !! fd = None ∧ os_fds (p_os w) = <[fd := i]> fds0 else os_fds (p_os w) = fds0) →
  wp (if 0 <=? fd then on_os (sys_close fd);; mret tt else mret tt) w (λ _ w',
    p_rt w' = p_rt w ∧ p_aof w' = p_aof w ∧ keeps_health (p_os w) (p_os w') ∧ os_names (p_os w') = os_names (p_os w) ∧
    os_data (p_os w') = os_data (p_os w) ∧ os_fds (p_os w') = fds0).
Proof.
  destruct (0 <=? fd); [|intros Hf; apply wp_ret; split_and!; try done; by intros ?].
  intros (i & Hfree & Hf). eapply step_os; [apply close_law|]. intros r d1 (Hk & Hn & Hd & Hfd & _). apply wp_ret.
  split_and!; try done. cbn. rewrite Hfd, Hf. by rewrite delete_insert_id.
Qed.

Lemma unlink_temp_spec (tmp : option bytes) w :
  wp (match tmp with Some q => on_os (sys_unlink q);; mret tt | None => mret tt end) w (λ _ w',
    p_rt w' = p_rt w ∧ p_aof w' = p_aof w ∧ keeps_health (p_os w) (p_os w') ∧ os_fds (p_os w') = os_fds (p_os w) ∧
    os_data (p_os w') = os_data (p_os w) ∧
    (os_names (p_os w') = match tmp with Some q => delete q (os_names (p_os w)) | None => os_names (p_os w) end ∨
     os_names (p_os w') = os_names (p_os w) ∧ ¬ healthy (p_os w))).
Proof.
  destruct tmp as [q|]; [|apply wp_ret; split_and!; try done; [by intros ?|by left]].
  eapply step_os; [apply unlink_law|]. intros r d1 (Hk & Hr). apply wp_ret. destruct (r <? 0).
  - destruct Hr as [(En & Ed & Ef) Hh]. split_and!; try done. by right.
  - destruct Hr as (En & Ed & Ef). split_and!; try done. by left.
Qed.

Lemma save_spec es w path (checkpoint : option kvs_snapshot_checkpoint_t) own F :
  let c := default checkpoint_zero checkpoint in
  engines_wf es → checkpoint_valid c → path ≠ [] → owns own F (p_rt w) →
  wp (kvs_snapshot_store_save_with_checkpoint es path checkpoint) w (λ r w', save_post own F w es c path r w').
Proof.
  intros c Hwf Hck Hp Ho. unfold kvs_snapshot_store_save_with_checkpoint.
  rewrite bool_decide_eq_false_2 by done. fold c. pose proof (zlen_nonneg path). change (zlen temp_suffix + 1) with 12.
  assert (∀ w' : W, owns own F (p_rt w') → (roomy (p_rt w) → roomy (p_rt w')) → keeps_health (p_os w) (p_os w') →
    p_aof w' = p_aof w → os_same (p_os w) (p_os w') → (healthy (p_os w) → roomy (p_rt w) → zlen path ≤ INT64_MAX → False) →
    save_post own F w es c path (-1) w') as Hfail.
  { intros w' Ho' Hr' Hk' Ha' (En & Ed & Ef) Hno. split_and!; [done..| |by right| | |].
    - intros i f. by rewrite Ed.
    - right. split; [done|]. intros p f. unfold file_at. by rewrite En, Ed.
    - intros _ p _. by rewrite En.
    - intros Hh Hr _ Hl. by destruct Hno. }
  destruct (Z.ltb_spec (SIZE_MAX - 12) (zlen path)).
  { apply wp_ret. apply Hfail; [done|done|by intros ?|done|apply os_same_refl|]. unfold SIZE_MAX, INT64_MAX in *. lia. }
  eapply step_rt; [apply (wp_malloc _ own F); [lia|done]|]. intros [p|] r1 [Ho1 Hr1]; cycle 1.
  { apply wp_ret. apply Hfail; [done|naive_solver|by intros ?|done|apply os_same_refl|]. intros _ Hr _. by destruct (Hr1 Hr). }
  eapply wp_step; [by apply (parent_directory_spec _ _ (p :: own) F)|].
  intros [dfd|] w2 (Ho2 & Hr2 & Hk2 & Ha2 & Hd2); cbn [p_rt p_os p_aof put_rt] in *.
  2:{ destruct Hd2 as [Hs2 Hno]. eapply step_rt; [by apply (wp_free p own F)|]. intros _ r3 [Ho3 Hr3]. apply wp_ret.
      apply Hfail; [done|naive_solver|done|done|done|]. intros Hh Hr _. apply Hno; [done|]. by apply Hr1. }
  destruct Hd2 as (di & (Hdfd & Hdfree & Hdfds) & Hn2 & Hda2).
  eapply wp_step; [apply (save_steps_spec es _ w2 _ path dfd (p :: own) F); try done|].
  intros [[[r wr] ffd] tmp] w3 (Ho3 & Hr3 & Hk3 & Ha3 & Hf3 & Hrc & Hst & Hgood). cbn [sw_checkpoint] in *.
  eapply wp_step; [by apply (wp_writer_close _ _ (p :: own) F)|]. intros _ w4 (Ho4 & Hr4 & Hk4 & (Hn4 & Hda4 & Hf4) & Ha4).
  eapply wp_step; [apply (close_if_open_spec ffd w4 (os_fds (p_os w2))); rewrite Hf4; exact Hf3|].
  intros _ w5 (Hrt5 & Ha5 & Hk5 & Hn5 & Hda5 & Hf5).
  eapply wp_step; [apply unlink_temp_spec|]. intros _ w6 (Hrt6 & Ha6 & Hk6 & Hf6 & Hda6 & Hn6).
  eapply step_os; [apply close_law|]. intros closed d7 (Hk7 & Hn7 & Hda7 & Hf7 & Hc7 & Hc7'). cbn [p_os] in *.
  rewrite <- Hrt5, <- Hrt6 in *.
  eapply step_rt; [by apply (wp_free p own F)|]. intros _ r8 [Ho8 Hr8]. apply wp_ret. cbn [p_rt p_os p_aof put_os put_rt] in *.
  assert (keeps_health (p_os w) d7) as Hk by (unfold keeps_health in *; auto 20).
  assert (keeps_health (p_os w) (p_os w6)) as Hk' by (unfold keeps_health in *; auto 20).
  assert (keeps_health (p_os w) (p_os w5)) as Hk'' by (unfold keeps_health in *; auto 20).
  set (r' := if (closed <? 0) && (r =? 0) then -1 else r).
  assert (r' = 0 ∨ r' = -1) as Hr' by (unfold r'; destruct ((closed <? 0) && (r =? 0)); auto).
  assert (healthy (p_os w) → r' = r) as Hsame.
  { intros Hh. unfold r'. assert (closed = 0) as ->; [|done]. apply Hc7; [auto|]. rewrite Hf6, Hf5, Hdfds, lookup_insert_eq. by eexists. }
  assert (r = -1 → r' = -1) as Hneg by (intros ->; unfold r'; by rewrite andb_false_r).
  assert (os_data d7 = os_data (p_os w3)) as Hda by congruence.
  assert (∀ tmp', tmp = tmp' → os_names d7 = match tmp' with Some q => delete q (os_names (p_os w3)) | None => os_names (p_os w3) end ∨
    os_names d7 = os_names (p_os w3) ∧ ¬ healthy (p_os w)) as Hn.
  { intros tmp' <-. rewrite Hn7. destruct Hn6 as [-> |[-> Hh]]; [left|right]; rewrite Hn5, Hn4; [done|].
    split; [done|]. intros Hh'. by apply Hh, Hk''. }
  unfold save_post. cbn [p_rt p_os p_aof put_rt put_os].
  split_and!; [done|naive_solver|done|congruence| | |done| | |].
  - rewrite Hf7, Hf6, Hf5, Hdfds. by rewrite delete_insert_id.
  - intros j f. rewrite Hda, <- Hda2. intros Hj. destruct tmp as [q|].
    + destruct Hst as (_ & i & _ & Hi & _ & Hdd). rewrite Hdd; [done|]. intros ->. by rewrite Hi in Hj.
    + destruct Hst as [[_ (_ & -> & _)]|(i & Hi & _ & _ & _ & Hdd)]; [done|]. rewrite Hdd; [done|]. intros ->. by rewrite Hi in Hj.
  - destruct tmp as [q|].
    + right. destruct Hst as (Hr1' & i & Hq & Hi & Hnm & Hdd). split; [auto|]. rewrite Hn2 in *. rewrite Hda2 in *.
      intros p' f. apply (new_file_intact _ _ q i); try done.
      * destruct (Hn _ eq_refl) as [-> |[-> _]]; rewrite Hnm; [by right|by left].
      * intros j Hj. by rewrite Hda, Hdd.
    + destruct Hst as [[Hr1' (Ens & Eds & Efs)]|(i & Hi & Hnm & Hii & Hfit & Hdd)].
      * right. split; [auto|]. intros p' f. unfold file_at. rewrite Hda, Eds, Hda2.
        destruct (Hn _ eq_refl) as [-> |[-> _]]; by rewrite Ens, Hn2.
      * left. assert (os_names d7 = <[path := i]> (os_names (p_os w))) as Hnn
          by (destruct (Hn _ eq_refl) as [-> |[-> _]]; by rewrite Hnm, Hn2).
        split_and!; [done| |].
        -- unfold file_at. rewrite Hnn, lookup_insert_eq. cbn. by rewrite Hda.
        -- intros p' f Hne. unfold file_at. rewrite Hnn, lookup_insert_ne by done.
           destruct (os_names (p_os w) !! p') as [j|]; [|done]. cbn. intros Hj. rewrite Hda, Hdd, Hda2; [done|].
           intros ->. rewrite Hda2 in Hi. congruence.
  - intros Hh p' Hne. destruct (Hn _ eq_refl) as [-> |[_ []]]; [|done]. destruct tmp as [q|].
    + destruct Hst as (_ & i & Hq & _ & Hnm & _). rewrite Hnm, delete_insert_id, Hn2; [done|done].
    + destruct Hst as [[_ (Ens & _)]|(i & _ & Hnm & _)]; [by rewrite Ens, Hn2|]. by rewrite Hnm, lookup_insert_ne, Hn2.
  - intros Hh Hr Hsv _. rewrite Hsame by done. apply Hgood; [by apply Hk2|naive_solver|done].
Qed.
End save_spec.
