(* ===== verification/SnapshotLoad.v ===== *)
(** Loading a snapshot, the functions of src/persistence/snapshot_store.c defined in
    SnapshotStore: what a load does to the engines for a file of the format and
    for any other file, and the properties of saving and loading. *)

From Stdlib Require Import ZArith Lia.
From S2P Require Import Prelude Runtime RbEngine Engine ArrayEngine HashEngine SkipList Kvengine Os MappedFile Codec Aof SnapshotFormat SnapshotStore.

(** * Loading *)

Lemma upto_nul_id b : nul_free b → upto_nul b = b.
Proof.
  induction b as [|c b IH]; [done|]. intros [Hc Hb]%not_elem_of_cons. cbn [upto_nul].
  rewrite bool_decide_eq_false_2 by congruence. by rewrite IH.
Qed.

Lemma engine_of_engine_number i : engine_of_number (engine_number i) = Some i.
Proof. by destruct i. Qed.

Section load_spec.
Context `{CRuntimeLaws RT} `{OsLaws D} {Ea Er Eh Es : Type}
  `{!Engine RT Ea} `{!Engine RT Er} `{!Engine RT Eh} `{!Engine RT Es}
  `{!EngineLaws RT Ea} `{!EngineLaws RT Er} `{!EngineLaws RT Eh} `{!EngineLaws RT Es}.
Notation W := (pworld RT D).
Notation engines := (kv_engines Ea Er Eh Es).
Notation engine_type := (@engine_type Ea Er Eh Es).
Implicit Types (r : RT) (own : list addr) (F : gset addr) (es : engines) (d : bytes) (ms : kv_maps)
  (ck : kvs_snapshot_checkpoint_t) (rec : snapshot_record).

(** The abstract effect of a record: a new key of its engine, if it fits. *)
Definition insert_one ms rec : option kv_maps :=
  i ← engine_of_number rec.1;
  if bool_decide (ms i !! rec.2.1 = None) && (set_result (E := engine_type i) (ms i) rec.2.1 =? 0)
  then Some (set_map i (<[rec.2.1 := rec.2.2]> (ms i)) ms) else None.

Fixpoint insert_records ms (rs : list snapshot_record) : option kv_maps :=
  match rs with
  | [] => Some ms
  | rec :: rs => ms ← insert_one ms rec; insert_records ms rs
  end.

Definition record_key_ok rec : Prop :=
  ∀ i, engine_of_number rec.1 = Some i → eng_key (E := engine_type i) rec.2.1.

#[export] Instance insert_one_proper : Proper (maps_eq ==> (=) ==> option_Forall2 maps_eq) insert_one.
Proof.
  intros ms ms' Hms rec _ <-. unfold insert_one. destruct (engine_of_number rec.1) as [i|]; [|constructor]. cbn.
  rewrite (Hms i). destruct (_ && _); constructor. by rewrite Hms.
Qed.

#[export] Instance insert_records_proper : Proper (maps_eq ==> (=) ==> option_Forall2 maps_eq) insert_records.
Proof.
  intros ms ms' Hms rs _ <-. revert ms ms' Hms. induction rs as [|rec rs IH]; intros ms ms' Hms; cbn; [by constructor|].
  destruct (insert_one_proper ms ms' Hms rec rec eq_refl); cbn; [by apply IH|constructor].
Qed.

Lemma read_field_spec d o ck v r own F :
  0 ≤ o → seg d o (o + zlen v) v → zlen v ≤ UINT32_MAX → nul_free v → owns own F r →
  wp (snapshot_read_field (cur d o ck) (zlen v)) r (λ '(t, c') r',
    match t with
    | Some s => cs_str s = v ∧ c' = cur d (o + zlen v) ck ∧ owns (cs_addr s :: own) F r'
    | None => owns own F r'
    end ∧ (roomy r → roomy r' ∧ t ≠ None)).
Proof.
  intros Ho Hs Hl Hn Hown. unfold snapshot_read_field. cbv zeta. pose proof (zlen_nonneg v).
  rewrite Z.mod_small by (unfold UINT32_MAX in *; lia). rewrite (proj2 (Z.leb_gt _ _)) by lia.
  rewrite (proj2 (cursor_take_iff d o ck (zlen v) v _ Ho ltac:(lia)) (conj Hs eq_refl)).
  eapply wp_step; [apply (wp_malloc _ own F); [lia|done]|]. intros [p|] r1 [Ho1 Hr1]; apply wp_ret; cbn.
  - split; [|naive_solver]. by rewrite upto_nul_id.
  - split; [done|]. naive_solver.
Qed.

Lemma insert_record_spec rec es (key value : cstr) r own F :
  engines_wf es → owns (own ++ engines_owned es) F r → record_key_ok rec → 1 ≤ rec.1 ≤ 4 →
  cs_str key = rec.2.1 → cs_str value = rec.2.2 →
  wp (snapshot_insert_record rec.1 key value es) r (λ '(x, es') r', engines_keep own F r es' r' ∧
    (x = 0 ∧ (∃ ms', insert_one (engine_maps es) rec = Some ms' ∧ maps_eq (engine_maps es') ms') ∨ x ≠ 0) ∧
    (roomy r → insert_one (engine_maps es) rec ≠ None → x = 0)).
Proof.
  intros Hwf Ho Hkey Hn Ek Ev. unfold snapshot_insert_record, insert_one. rewrite Ek, Ev.
  destruct (engine_of_number rec.1) as [i|] eqn:Ei; cbn [mbind option_bind].
  2:{ apply wp_ret. split; [by split_and!|]. by split; [right|]. }
  specialize (Hkey i Ei). eapply wp_eq; [apply eng_get_law; [exact (Hwf i)|done]|].
  change (eng_map (get_engine i es)) with (engine_maps es i).
  destruct (engine_maps es i !! rec.2.1) as [v|] eqn:Eg.
  { rewrite (bool_decide_eq_true_2 (Some v ≠ None)), (bool_decide_eq_false_2 (Some v = None)) by done. apply wp_ret.
    split; [by split_and!|]. by split; [right|]. }
  rewrite (bool_decide_eq_false_2 (None ≠ None)), (bool_decide_eq_true_2 (None = None)) by naive_solver. cbn [andb].
  eapply wp_mono.
  - apply (wp_on_engine i _ (λ x m, (x = 0 ∧ set_result (E := engine_type i) (engine_maps es i) rec.2.1 = 0 ∧
        m = <[rec.2.1 := rec.2.2]> (engine_maps es i) ∨ x < 0) ∧
      (roomy r → x = set_result (E := engine_type i) (engine_maps es i) rec.2.1)) own es F r Hwf Ho).
    intros F' Hw'. eapply wp_mono; [apply (eng_set_law _ _ _ F'); [exact (Hwf i)|done|done]|].
    intros [x e'] r' (Hk & Hr & Hroom). split; [done|]. split; [|done]. naive_solver.
  - intros [x es'] r' (Hk & m' & (Hr & Hroom) & Hm). split; [done|]. split.
    + destruct Hr as [(-> & Hset & ->)|Hneg]; [left|right; lia]. split; [done|]. rewrite Hset, Z.eqb_refl. eauto.
    + intros Hro Hne. rewrite Hroom by done.
      destruct (Z.eqb_spec (set_result (E := engine_type i) (engine_maps es i) rec.2.1) 0); done.
Qed.

Lemma load_record_spec d o ck rec es r own F :
  0 ≤ o → seg d o (o + zlen (record_bytes rec)) (record_bytes rec) → record_ok rec → record_key_ok rec →
  engines_wf es → owns (own ++ engines_owned es) F r →
  wp (snapshot_load_record (cur d o ck) es) r (λ '(x, c', es') r', engines_keep own F r es' r' ∧
    (x = 0 ∧ c' = cur d (o + zlen (record_bytes rec)) ck ∧
       (∃ ms', insert_one (engine_maps es) rec = Some ms' ∧ maps_eq (engine_maps es') ms') ∨ x = -1) ∧
    (roomy r → insert_one (engine_maps es) rec ≠ None → x = 0)).
Proof.
  intros Ho Hs (He & Hkn & Hvn & Hkl & Hvl) Hkey Hwf Hown. unfold snapshot_load_record.
  destruct rec as [e [k v]]. cbn [fst snd] in *.
  set (h := [byte_of_Z e] ++ encode_u32_be (zlen k) ++ encode_u32_be (zlen v)).
  assert (record_bytes (e, (k, v)) = h ++ k ++ v) as Hrec.
  { unfold record_bytes, h. cbn [fst snd]. by rewrite <- !app_assoc. }
  rewrite Hrec in *. assert (zlen h = 9) as Hh9 by done. rewrite !zlen_app, Hh9 in *.
  apply seg_split in Hs as [Hs1 Hs]. apply seg_split in Hs as [Hs2 Hs3]. rewrite Hh9 in *.
  unfold SNAPSHOT_RECORD_HEADER_SIZE.
  rewrite (proj2 (cursor_take_iff d o ck 9 h _ Ho ltac:(lia)) (conj Hs1 eq_refl)). cbv zeta.
  change (byte_at h 0) with (byte_of_Z e). rewrite uchar_byte_of_Z, Z.mod_small by lia.
  rewrite (proj2 (Z.ltb_ge _ _)), (proj2 (Z.ltb_ge 4 _)) by lia. cbn [orb].
  change (drop 1 h) with (encode_u32_be (zlen k) ++ encode_u32_be (zlen v)).
  change (drop 5 h) with (encode_u32_be (zlen v) ++ []).
  rewrite !decode_encode_u32 by (split; [apply zlen_nonneg|done]). pose proof (zlen_nonneg k).
  eapply wp_step; [apply (read_field_spec d (o + 9) ck k r (own ++ engines_owned es) F); [lia|done|done|done|done]|].
  intros [[key|] c1] r1 [Hk Hr1].
  2:{ apply wp_ret. split; [split_and!; [done|done|naive_solver]|]. split; [by right|]. intros Hro. by destruct (Hr1 Hro). }
  destruct Hk as (Ek & -> & Ho1).
  eapply wp_step; [apply (read_field_spec d (o + 9 + zlen k) ck v r1 (cs_addr key :: own ++ engines_owned es) F); [lia| |done|done|done]|].
  { by replace (o + 9 + zlen k + zlen v) with (o + (9 + (zlen k + zlen v))) by lia. }
  intros [[value|] c2] r2 [Hv Hr2].
  2:{ eapply wp_step; [by apply (wp_free _ (own ++ engines_owned es) F)|]. intros _ r3 [Ho3 Hr3]. apply wp_ret.
      split; [split_and!; [done|done|naive_solver]|]. split; [by right|]. intros Hro. destruct (Hr2 ltac:(naive_solver)). done. }
  destruct Hv as (Ev & -> & Ho2).
  eapply wp_step; [apply (insert_record_spec (e, (k, v)) es key value r2 (cs_addr key :: cs_addr value :: own) F); try done|].
  { revert Ho2. apply owns_perm. cbn. apply perm_swap. }
  intros [x es'] r3 ((Hwf3 & Ho3 & Hr3) & Hx & Hroom).
  eapply wp_step; [by apply (wp_free _ ((cs_addr value :: own) ++ engines_owned es') F)|]. intros _ r4 [Ho4 Hr4].
  eapply wp_step; [by apply (wp_free _ (own ++ engines_owned es') F)|]. intros _ r5 [Ho5 Hr5]. apply wp_ret.
  split; [split_and!; [done|done|naive_solver]|]. split.
  - destruct Hx as [[-> Hins]|Hx]; [left|right].
    + split; [done|]. split; [f_equal; lia|done].
    + destruct (0 <? x); [done|]. by destruct (Z.eqb_spec x 0).
  - intros Hro Hne. rewrite Hroom; [done| |done]. naive_solver.
Qed.

Lemma load_records_spec rs d o ck es r own F :
  0 ≤ o → seg d o (o + zlen (records_bytes rs)) (records_bytes rs) → Forall record_ok rs → Forall record_key_ok rs →
  engines_wf es → owns (own ++ engines_owned es) F r →
  wp (snapshot_load_records (List.length rs) (cur d o ck) es) r (λ '(x, c', es') r', engines_keep own F r es' r' ∧
    (x = 0 ∧ cu_checkpoint c' = ck ∧
       (∃ ms', insert_records (engine_maps es) rs = Some ms' ∧ maps_eq (engine_maps es') ms') ∨ x = -1) ∧
    (roomy r → insert_records (engine_maps es) rs ≠ None → x = 0)).
Proof.
  revert o es r. induction rs as [|rec rs IH]; intros o es r Ho Hs Hok Hkey Hwf Hown; cbn [snapshot_load_records List.length].
  { apply wp_ret. split; [by split_and!|]. split; [left|done]. split; [done|]. split; [done|]. eexists; by split. }
  apply Forall_cons in Hok as [Hok1 Hok]. apply Forall_cons in Hkey as [Hkey1 Hkey].
  rewrite records_bytes_cons, zlen_app in Hs. apply seg_split in Hs as [Hs1 Hs2].
  eapply wp_step; [by apply (load_record_spec d o ck rec es r own F)|].
  intros [[x c1] es1] r1 ((Hwf1 & Ho1 & Hr1) & Hx & Hroom1). cbn [insert_records].
  destruct Hx as [(-> & -> & ms1 & Hins & Hms1)| ->]; cbn [Z.ltb Z.compare].
  2:{ apply wp_ret. split; [by split_and!|]. split; [by right|]. intros Hro Hne. apply Hroom1; [done|]. intros E. by rewrite E in Hne. }
  pose proof (zlen_nonneg (record_bytes rec)). rewrite Hins. cbn [mbind option_bind].
  eapply wp_mono; [apply (IH (o + zlen (record_bytes rec)) es1 r1); [lia| |done|done|done|done]|].
  { by rewrite <- Z.add_assoc. }
  intros [[x c2] es2] r2 ((Hwf2 & Ho2 & Hr2) & Hx & Hroom2).
  pose proof (insert_records_proper _ _ Hms1 rs rs eq_refl) as Hprop.
  split; [split_and!; naive_solver|]. split.
  - destruct Hx as [(-> & Hck & ms2 & Hins2 & Hms2)| ->]; [left|by right]. split; [done|]. split; [done|].
    rewrite Hins2 in Hprop. inversion Hprop as [? ms2' Hms2' E1 E2|]; subst. exists ms2'. split; [done|]. by rewrite Hms2.
  - intros Hro Hne. apply Hroom2; [by apply Hr1|]. intros E. rewrite E in Hprop. inversion Hprop. congruence.
Qed.

(** The cursor over a mapping. *)
Lemma mapped_cursor file d : maps_file file d → d ≠ [] →
  Cursor (mf_data file) (mf_length file) 0 checkpoint_zero = cur d 0 checkpoint_zero.
Proof.
  intros (Hl & Hb & Hn) Hd. unfold cur. rewrite Hl. unfold mf_bytes in Hb.
  destruct (mf_data file) as [x|]; [by rewrite <- Hb|]. by destruct Hd, Hn.
Qed.

Lemma snapshot_text_nonempty ck rs d : snapshot_text ck rs d → d ≠ [].
Proof.
  intros (h & _ & _ & ->) E. apply (f_equal zlen) in E. rewrite zlen_app, checksum_of_length in E.
  change (zlen ([] : bytes)) with 0 in E. pose proof (zlen_nonneg (h ++ records_bytes rs)). lia.
Qed.

Lemma load_steps_accepted d ck rs es r own F :
  zlen d ≤ SIZE_MAX → snapshot_text ck rs d → Forall record_key_ok rs →
  engines_wf es → owns (own ++ engines_owned es) F r →
  wp (snapshot_load_steps (cur d 0 checkpoint_zero) es) r (λ '(x, c', es') r', engines_keep own F r es' r' ∧
    (x = 0 ∧ cu_checkpoint c' = ck ∧
       (∃ ms', insert_records (engine_maps es) rs = Some ms' ∧ maps_eq (engine_maps es') ms') ∨ x = -1) ∧
    (roomy r → insert_records (engine_maps es) rs ≠ None → x = 0)).
Proof.
  intros Hsz Ht Hkey Hwf Ho. unfold snapshot_load_steps. rewrite (validate_complete d 0 checkpoint_zero ck rs) by done.
  pose proof Ht as (h & Hh & Hok & Hd). change (cursor_at 0 (cur d (zlen d) ck)) with (cur d 0 ck).
  pose proof (records_bytes_length rs). pose proof (zlen_nonneg h). pose proof (zlen_nonneg rs).
  assert (zlen rs ≤ UINT64_MAX) as Hrs.
  { rewrite Hd, !zlen_app, checksum_of_length in Hsz. unfold SIZE_MAX, UINT64_MAX in *. lia. }
  rewrite (read_header_complete d ck UINT32_MAX (zlen rs) ck h); [|lia|done|].
  2:{ rewrite Hd, <- app_assoc. by exists [], (records_bytes rs ++ checksum_of (h ++ records_bytes rs)). }
  replace (Z.to_nat (zlen rs)) with (List.length rs) by (unfold zlen; lia).
  apply load_records_spec; try done. rewrite Hd, <- app_assoc. apply seg_self.
Qed.

(** What loading an accepted file promises. *)
Definition load_post own F (w : W) es ck0 ck (rs : list snapshot_record) (x : Z) ck' es' (w' : W) : Prop :=
  engines_keep own F (p_rt w) es' (p_rt w') ∧ os_same (p_os w) (p_os w') ∧ keeps_health (p_os w) (p_os w') ∧
  p_aof w' = p_aof w ∧
  (x = 0 ∧ ck' = ck ∧ (∃ ms', insert_records (engine_maps es) rs = Some ms' ∧ maps_eq (engine_maps es') ms') ∨
   x = -1 ∧ ck' = ck0) ∧
  (roomy (p_rt w) → healthy (p_os w) → insert_records (engine_maps es) rs ≠ None → x = 0).

Lemma load_accepted path ck0 d ck rs es (w : W) own F :
  path ≠ [] → file_at (p_os w) path = Some d → zlen d ≤ SIZE_MAX → snapshot_text ck rs d → Forall record_key_ok rs →
  engines_wf es → owns (own ++ engines_owned es) F (p_rt w) →
  wp (kvs_snapshot_store_load_with_checkpoint path ck0 es) w (λ '(x, ck', es') w',
    load_post own F w es ck0 ck rs x ck' es' w').
Proof.
  intros Hp Hf Hsz Ht Hkey Hwf Ho. unfold kvs_snapshot_store_load_with_checkpoint. rewrite bool_decide_eq_false_2 by done.
  eapply step_os; [by apply mapped_file_open_spec|]. intros [file| |] d1 (Hk1 & Hs1 & Hm).
  - destruct Hm as (f & Hf' & Hmf). assert (f = d) as -> by congruence.
    rewrite (mapped_cursor file d) by (done || by eapply snapshot_text_nonempty).
    eapply step_rt; [by apply (load_steps_accepted d ck rs es _ own F)|]. intros [[x c1] es1] r2 (Hk2 & Hx & Hroom2).
    eapply step_os; [by apply (mapped_file_close_spec file d)|]. intros [closed file'] d3 (Hk3 & Hs3 & Hh3 & Hc3).
    apply wp_ret. cbn [p_rt p_os p_aof put_rt put_os] in *.
    assert (os_same (p_os w) d3) as Hs by (by eapply os_same_trans).
    assert (keeps_health (p_os w) d3) as Hk by (unfold keeps_health in *; auto).
    unfold load_post. cbn [p_rt p_os p_aof put_rt put_os]. cbv zeta.
    split; [done|]. split; [done|]. split; [done|]. split; [done|]. split.
    + destruct Hx as [(-> & <- & Hins)| ->]; [|right; rewrite andb_false_r; done].
      destruct Hc3 as [[-> _]|[-> _]]; [left|by right]. done.
    + intros Hro Hh Hne. assert (closed = 0) as -> by (by apply Hh3, Hk1). cbn. by apply Hroom2.
  - unfold file_at in Hf. by rewrite Hm in Hf.
  - apply wp_ret. unfold load_post. cbn. split; [by split_and!|]. split; [done|]. split; [done|]. split; [done|].
    split; [by right|]. intros _ Hh. exfalso. by eapply Hm.
Qed.

Lemma load_refused path ck0 es (w : W) own F :
  path ≠ [] → engines_wf es → owns (own ++ engines_owned es) F (p_rt w) →
  (∀ d ck rs, file_at (p_os w) path = Some d → zlen d ≤ SIZE_MAX → snapshot_text ck rs d → False) →
  (∀ d, file_at (p_os w) path = Some d → zlen d ≤ SIZE_MAX) →
  wp (kvs_snapshot_store_load_with_checkpoint path ck0 es) w (λ '(x, ck', es') w',
    keeps_health (p_os w) (p_os w') ∧ p_rt w' = p_rt w ∧ os_same (p_os w) (p_os w') ∧ p_aof w' = p_aof w ∧ ck' = ck0 ∧ es' = es ∧
    (x = 1 ∧ os_names (p_os w) !! path = None ∨ x = -1)).
Proof.
  intros Hp Hwf Ho Hno Hsz. unfold kvs_snapshot_store_load_with_checkpoint. rewrite bool_decide_eq_false_2 by done.
  eapply step_os; [by apply mapped_file_open_spec|]. intros [file| |] d1 (Hk1 & Hs1 & Hm).
  - destruct Hm as (d & Hf & Hmf).
    assert (snapshot_load_steps (Cursor (mf_data file) (mf_length file) 0 checkpoint_zero) es =
      mret (-1, Cursor (mf_data file) (mf_length file) 0 checkpoint_zero, es)) as ->.
    { unfold snapshot_load_steps. destruct (decide (d = [])) as [->|Hd].
      - destruct Hmf as (Hl & _). unfold snapshot_validate. cbn [cu_length]. by rewrite Hl.
      - rewrite (mapped_cursor file d) by done.
        destruct (snapshot_validate (cur d 0 checkpoint_zero)) eqn:E; [|done].
        apply validate_sound in E as (ck & rs & Ht & _); [|by apply Hsz]. exfalso. eapply (Hno d ck rs); auto. }
    eapply (step_rt _ _ _ (λ x r, x = (-1, Cursor (mf_data file) (mf_length file) 0 checkpoint_zero, es) ∧ r = p_rt w)); [by apply wp_ret|].
    intros _ _ [-> ->]. cbv beta iota.
    eapply step_os; [by apply (mapped_file_close_spec file d)|]. intros [closed file'] d3 (Hk3 & Hs3 & Hh3 & Hc3).
    apply wp_ret. cbn. rewrite andb_false_r. cbn. cbn in Hs3. split; [unfold keeps_health in *; auto|]. split_and!; try done; [by eapply os_same_trans|by right].
  - apply wp_ret. cbn. split; [done|]. split_and!; try done. by left.
  - apply wp_ret. cbn. split; [done|]. split_and!; try done. by right.
Qed.

(** ** Inserting one's own records *)

Lemma insert_own_suffix i es l1 l2 ms rest :
  eng_wf (get_engine i es) → entries_of es i = l1 ++ l2 → ms i = list_to_map l1 →
  ∃ ms', insert_records ms (records_of i l2 ++ rest) = insert_records ms' rest ∧
    ms' i = eng_map (get_engine i es) ∧ ∀ j, j ≠ i → ms' j = ms j.
Proof.
  intros Hwf. revert l1 ms. induction l2 as [|[k v] l2 IH]; intros l1 ms He Hms.
  { exists ms. split_and!; [done| |done]. rewrite Hms. unfold eng_map. unfold entries_of in He. by rewrite He, app_nil_r. }
  pose proof (eng_nodup _ Hwf) as Hnd. change (eng_entries (get_engine i es)) with (entries_of es i) in Hnd.
  rewrite He in Hnd. apply nodup_middle in Hnd as (Hk1 & _ & _).
  assert (ms i !! k = None) as Hnone by (rewrite Hms; by apply to_map_absent).
  assert (eng_map (get_engine i es) !! k = Some v) as Hsome.
  { unfold eng_map. change (eng_entries (get_engine i es)) with (entries_of es i). rewrite He. by apply to_map_middle. }
  assert (set_result (E := engine_type i) (ms i) k = 0) as Hset.
  { unfold set_result. replace (eng_room (ms i)) with true; [by rewrite orb_true_r|]. symmetry.
    apply (eng_room_sub (get_engine i es) _ k); [done| |done|by rewrite Hsome].
    rewrite Hms. unfold eng_map. change (eng_entries (get_engine i es)) with (entries_of es i).
    rewrite He, list_to_map_app. apply map_union_subseteq_l. }
  change (records_of i ((k, v) :: l2) ++ rest) with ((engine_number i, (k, v)) :: (records_of i l2 ++ rest)).
  cbn [insert_records]. unfold insert_one. cbn [fst snd]. rewrite engine_of_engine_number. cbn [mbind option_bind].
  rewrite Hnone, bool_decide_eq_true_2, Hset by done. cbn [andb Z.eqb mbind option_bind].
  destruct (IH (l1 ++ [(k, v)]) (set_map i (<[k:=v]> (ms i)) ms)) as (ms' & Hins & Hi & Hj).
  - by rewrite <- app_assoc.
  - unfold set_map. rewrite decide_True by done. by rewrite Hms, to_map_snoc.
  - exists ms'. split_and!; [done|done|]. intros j Hne. rewrite Hj by done. unfold set_map. by rewrite decide_False.
Qed.

Lemma insert_own_records es ms : engines_wf es → maps_eq ms empty_maps →
  ∃ ms', insert_records ms (engine_records es) = Some ms' ∧ maps_eq ms' (engine_maps es).
Proof.
  intros Hwf Hms. unfold engine_records.
  destruct (insert_own_suffix ARRAY es [] (entries_of es ARRAY) ms
    (records_of RBTREE (entries_of es RBTREE) ++ records_of HASH (entries_of es HASH) ++ records_of SKIPLIST (entries_of es SKIPLIST)))
    as (m1 & -> & H1a & H1o); [exact (Hwf ARRAY)|done|apply Hms|].
  destruct (insert_own_suffix RBTREE es [] (entries_of es RBTREE) m1
    (records_of HASH (entries_of es HASH) ++ records_of SKIPLIST (entries_of es SKIPLIST)))
    as (m2 & -> & H2a & H2o); [exact (Hwf RBTREE)|done|rewrite H1o by done; apply Hms|].
  destruct (insert_own_suffix HASH es [] (entries_of es HASH) m2 (records_of SKIPLIST (entries_of es SKIPLIST)))
    as (m3 & -> & H3a & H3o); [exact (Hwf HASH)|done|rewrite H2o, H1o by done; apply Hms|].
  destruct (insert_own_suffix SKIPLIST es [] (entries_of es SKIPLIST) m3 [])
    as (m4 & Hins & H4a & H4o); [exact (Hwf SKIPLIST)|done|rewrite H3o, H2o, H1o by done; apply Hms|].
  rewrite app_nil_r in Hins. exists m4. split; [exact Hins|]. intros [| | |]; unfold engine_maps.
  - by rewrite H4o, H3o, H2o.
  - by rewrite H4o, H3o.
  - by rewrite H4o.
  - done.
Qed.

(** The keys and values held are C strings. *)
Definition c_strings es : Prop := ∀ i, Forall (λ e, nul_free e.1 ∧ nul_free e.2) (entries_of es i).

Lemma engine_records_elem es rec : rec ∈ engine_records es → ∃ i, rec.1 = engine_number i ∧ rec.2 ∈ entries_of es i.
Proof.
  unfold engine_records, records_of. rewrite !elem_of_app, !list_elem_of_fmap.
  intros [(e & -> & He)|[(e & -> & He)|[(e & -> & He)|(e & -> & He)]]]; eexists; (split; [reflexivity|exact He]).
Qed.

Lemma engine_records_ok es : all_fit es → c_strings es → Forall record_ok (engine_records es).
Proof.
  intros Hfit Hc. apply Forall_forall. intros rec (i & Hi & He)%engine_records_elem.
  pose proof (proj1 (Forall_forall _ _) (Hfit i) _ He) as [Hk Hv].
  pose proof (proj1 (Forall_forall _ _) (Hc i) _ He) as [Hkn Hvn].
  unfold record_ok. rewrite Hi. split; [destruct i; cbn; lia|]. by split_and!.
Qed.

Lemma engine_records_keys es : engines_wf es → Forall record_key_ok (engine_records es).
Proof.
  intros Hwf. apply Forall_forall. intros rec (i & Hi & He)%engine_records_elem j. rewrite Hi, engine_of_engine_number.
  intros [= <-]. apply (eng_stored_key (get_engine i es)); [exact (Hwf i)|]. apply list_elem_of_fmap. by exists rec.2.
Qed.

Lemma snapshot_image_text c es : checkpoint_valid c → all_fit es → c_strings es →
  snapshot_text (stored_checkpoint c) (engine_records es) (snapshot_image c es).
Proof.
  intros Hc Hfit Hcs. exists (header_v2 (stored_checkpoint c) (zlen (engine_records es))). split_and!.
  - split; [by apply stored_checkpoint_ok|by left].
  - by apply engine_records_ok.
  - reflexivity.
Qed.
End load_spec.

(** * Properties *)

Section properties.
Context `{CRuntimeLaws RT} `{OsLaws D} {Ea Er Eh Es : Type}
  `{!Engine RT Ea} `{!Engine RT Er} `{!Engine RT Eh} `{!Engine RT Es}
  `{!EngineLaws RT Ea} `{!EngineLaws RT Er} `{!EngineLaws RT Eh} `{!EngineLaws RT Es}.
Implicit Types (w : pworld RT D) (es : kv_engines Ea Er Eh Es).


(** Loading a file of the format inserts its records one by one: with 0 the
    data set is exactly the old one extended by all records, none of which was
    present, and the checkpoint is the one of the header; otherwise it is -1 and
    the checkpoint of the caller is untouched.  Nothing leaks, the files are
    untouched, and it succeeds when memory and the system calls do and the
    records can be inserted. *)
Theorem snapshot_load_exact (path : bytes) ck0 (d : bytes) ck rs es w own F :
  path ≠ [] → file_at (p_os w) path = Some d → zlen d ≤ SIZE_MAX → snapshot_text ck rs d →
  Forall (record_key_ok (Ea := Ea) (Er := Er) (Eh := Eh) (Es := Es) (RT := RT)) rs →
  engines_wf es → owns (own ++ engines_owned es) F (p_rt w) →
  wp (kvs_snapshot_store_load_with_checkpoint path ck0 es) w (λ '(x, ck', es') w',
    load_post own F w es ck0 ck rs x ck' es' w').
Proof. apply load_accepted. Qed.

(** A missing file is reported as 1 and a file that is not a snapshot as -1;
    the data set, the memory and the files are then exactly as before. *)
Theorem snapshot_load_refuses (path : bytes) ck0 es w own F :
  path ≠ [] → engines_wf es → owns (own ++ engines_owned es) F (p_rt w) →
  (∀ d ck rs, file_at (p_os w) path = Some d → zlen d ≤ SIZE_MAX → snapshot_text ck rs d → False) →
  (∀ d, file_at (p_os w) path = Some d → zlen d ≤ SIZE_MAX) →
  wp (kvs_snapshot_store_load_with_checkpoint path ck0 es) w (λ '(x, ck', es') w',
    p_rt w' = p_rt w ∧ os_same (p_os w) (p_os w') ∧ p_aof w' = p_aof w ∧ ck' = ck0 ∧ es' = es ∧
    (x = 1 ∧ os_names (p_os w) !! path = None ∨ x = -1)).
Proof.
  intros Hp Hwf Ho Hno Hsz. eapply wp_mono; [by apply (load_refused path ck0 es w own F)|]. intros [[x ck'] es'] w' Hx. apply Hx.
Qed.

(** C9: after a successful save, loading the file into empty engines, in any later
    state in which it is unchanged, gives back the data set and the checkpoint;
    the load can fail only for want of memory or a failed system call. *)
Theorem snapshot_roundtrip es w (path : bytes) (checkpoint : option kvs_snapshot_checkpoint_t) own F :
  let c := default checkpoint_zero checkpoint in
  engines_wf es → c_strings es → zlen (snapshot_image c es) ≤ SIZE_MAX →
  checkpoint_valid c → path ≠ [] → owns own F (p_rt w) →
  wp (kvs_snapshot_store_save_with_checkpoint es path checkpoint) w (λ r w', r = 0 →
    ∀ w2 es0 ck0 own0 F0, file_at (p_os w2) path = file_at (p_os w') path → engines_wf es0 →
    maps_eq (engine_maps es0) empty_maps → owns (own0 ++ engines_owned es0) F0 (p_rt w2) →
    wp (kvs_snapshot_store_load_with_checkpoint path ck0 es0) w2 (λ '(x, ck', es') w3,
      engines_keep own0 F0 (p_rt w2) es' (p_rt w3) ∧
      (x = 0 ∧ ck' = stored_checkpoint c ∧ maps_eq (engine_maps es') (engine_maps es) ∨ x = -1) ∧
      (roomy (p_rt w2) → healthy (p_os w2) → x = 0))).
Proof.
  intros c Hwf Hcs Hsz Hck Hp Ho. pose proof (image_count c es Hsz) as Hcount. eapply wp_mono; [by apply (save_spec es w path checkpoint own F)|].
  intros r w' (_ & _ & _ & _ & _ & _ & _ & [Hsaved|[-> _]] & _) Hr; [|done]. subst r. destruct Hsaved as (Hfit & Hfile & _).
  intros w2 es0 ck0 own0 F0 Hsame Hwf0 Hempty Ho0.
  destruct (insert_own_records es (engine_maps es0) Hwf Hempty) as (ms & Hins & Hms).
  eapply wp_mono.
  - apply (load_accepted path ck0 (snapshot_image c es) (stored_checkpoint c) (engine_records es) es0 w2 own0 F0);
      [done|by rewrite Hsame|done|by apply snapshot_image_text|by apply engine_records_keys|done|done].
  - intros [[x ck'] es'] w3 (Hk & _ & _ & _ & Hx & Hroom). split; [done|]. split.
    + destruct Hx as [(-> & -> & ms' & Hins' & Hms')|[-> _]]; [left|by right]. split; [done|]. split; [done|].
      assert (ms' = ms) as -> by congruence. by rewrite Hms'.
    + intros Hro Hh. apply Hroom; [done|done|]. by rewrite Hins.
Qed.
End properties.

(** ** Examples *)

Abbreviation demo_engines := (kv_engines kvs_array_t RbTree.kvs_rbtree_t kvs_hash_t kvs_skiplist_t).

(** A world whose only file is the sample snapshot. *)
Definition sample_world (r : heap_rt) : pworld heap_rt mem_os :=
  PWorld r (one_file (lit "kvs.snap") sample_snapshot) aof_writer_closed.

(** Fresh engines on the concrete heap. *)
Lemma fresh_engines : ∃ (es : demo_engines) (r : heap_rt),
  engines_wf es ∧ owns ([] ++ engines_owned es) ∅ r ∧ maps_eq (engine_maps es) empty_maps ∧ roomy r.
Proof.
  pose proof (init_spec (Ea := kvs_array_t) (Er := RbTree.kvs_rbtree_t) (Eh := kvs_hash_t) (Es := kvs_skiplist_t) [] ∅ empty_heap empty_heap_owns) as Hi.
  apply wp_Ok in Hi as ([x es] & r & _ & Hr & Hx). destruct (Hr eq_refl) as [Hroom ->].
  destruct Hx as [(_ & Hwf & Ho & Hm)|[]]; [|done]. by exists es, r.
Qed.

Lemma sample_keys : Forall (record_key_ok (RT := heap_rt) (Ea := kvs_array_t) (Er := RbTree.kvs_rbtree_t) (Eh := kvs_hash_t) (Es := kvs_skiplist_t)) sample_records.
Proof. constructor; [|constructor]. intros i. cbn. intros [= <-]. vm_compute. reflexivity. Qed.

Lemma snapshot_load_exact_witness : ∃ (es : demo_engines) (r : heap_rt),
  engines_wf es ∧ owns ([] ++ engines_owned es) ∅ r ∧
  wp (kvs_snapshot_store_load_with_checkpoint (lit "kvs.snap") checkpoint_zero es) (sample_world r)
    (λ '(x, ck', es') w', load_post [] ∅ (sample_world r) es checkpoint_zero (Checkpoint 1 77) sample_records x ck' es' w').
Proof.
  destruct fresh_engines as (es & r & Hwf & Ho & _ & _). exists es, r. split; [exact Hwf|]. split; [exact Ho|].
  refine (snapshot_load_exact (lit "kvs.snap") checkpoint_zero sample_snapshot (Checkpoint 1 77) sample_records es (sample_world r) [] ∅ _ _ _ _ _ Hwf Ho).
  - discriminate.
  - reflexivity.
  - vm_compute. discriminate.
  - exact sample_snapshot_text.
  - exact sample_keys.
Defined.

(** Engines that hold the pair of the sample in the hash engine. *)
Lemma loaded_engines : ∃ (es : demo_engines) (r : heap_rt),
  engines_wf es ∧ owns ([] ++ engines_owned es) ∅ r ∧
  entries_of es HASH = [(lit "k", lit "value")] ∧ (∀ i, i ≠ HASH → entries_of es i = []) ∧ roomy r.
Proof.
  destruct fresh_engines as (es & r & Hwf & Ho & Hm & Hroom).
  pose proof (load_accepted (lit "kvs.snap") checkpoint_zero sample_snapshot (Checkpoint 1 77) sample_records es (sample_world r) [] ∅
    ltac:(discriminate) eq_refl ltac:(vm_compute; discriminate) sample_snapshot_text sample_keys Hwf Ho) as Hl.
  assert (maps_eq (engine_maps es) empty_maps) as Hm' by done.
  pose proof (insert_records_proper (RT := heap_rt) (Ea := kvs_array_t) (Er := RbTree.kvs_rbtree_t) (Eh := kvs_hash_t) (Es := kvs_skiplist_t)
    _ _ Hm' sample_records _ eq_refl) as Hins.
  change (insert_records empty_maps sample_records) with
    (Some (set_map HASH (<[lit "k" := lit "value"]> ∅) empty_maps)) in Hins.
  destruct (insert_records (engine_maps es) sample_records) as [ms|] eqn:E1; [|inversion Hins].
  assert (maps_eq ms (set_map HASH (<[lit "k" := lit "value"]> ∅) empty_maps)) as Hms by (inversion Hins; assumption).
  revert Hl. generalize (kvs_snapshot_store_load_with_checkpoint (lit "kvs.snap") checkpoint_zero es). intros m Hl.
  apply wp_Ok in Hl as ([[x ck'] es'] & w' & _ & (Hwf' & Ho' & Hroom') & _ & _ & _ & Hx & Hgood).
  assert (x = 0) as -> by (apply Hgood; [exact Hroom|reflexivity|congruence]).
  destruct Hx as [(_ & _ & ms2 & E & Hms2)|[]]; [|discriminate]. assert (ms2 = ms) as -> by congruence.
  assert (∀ i l, engine_maps es' i = list_to_map l → NoDup l.*1 → entries_of es' i ≡ₚ l) as Hentries.
  { intros i l He Hnd. apply (list_to_map_inj (M := gmap bytes)); [|done|exact He].
    exact (eng_nodup (get_engine i es') (Hwf' i)). }
  exists es', (p_rt w'). split_and!; [done|done| | |by apply Hroom'].
  - apply Permutation_singleton_r, Hentries; [|apply NoDup_singleton]. by rewrite (Hms2 HASH), (Hms HASH).
  - intros i Hne. apply Permutation_nil_r, Hentries; [|apply NoDup_nil_2]. rewrite (Hms2 i), (Hms i). unfold set_map. by rewrite decide_False.
Qed.

Lemma loaded_records (es : demo_engines) :
  entries_of es HASH = [(lit "k", lit "value")] → (∀ i, i ≠ HASH → entries_of es i = []) →
  engine_records es = sample_records ∧ c_strings es ∧ all_fit es.
Proof.
  intros Hh Ho. split_and!.
  - unfold engine_records. by rewrite Hh, !Ho.
  - intros i. destruct (decide (i = HASH)) as [->|Hne]; [rewrite Hh|rewrite Ho by done; constructor].
    constructor; [|constructor]. split; by apply (bool_decide_unpack _).
  - intros i. destruct (decide (i = HASH)) as [->|Hne]; [rewrite Hh|rewrite Ho by done; constructor].
    constructor; [|constructor]. split; vm_compute; discriminate.
Qed.

Definition demo_world (r : heap_rt) : pworld heap_rt mem_os := PWorld r empty_os aof_writer_closed.


Lemma snapshot_load_refuses_witness : ∃ (es : demo_engines) (r : heap_rt),
  engines_wf es ∧ owns ([] ++ engines_owned es) ∅ r ∧
  wp (kvs_snapshot_store_load_with_checkpoint (lit "kvs.snap") checkpoint_zero es)
     (PWorld r (one_file (lit "kvs.snap") (take 40 sample_snapshot)) aof_writer_closed) (λ '(x, ck', es') w',
    p_rt w' = r ∧ os_same (one_file (lit "kvs.snap") (take 40 sample_snapshot)) (p_os w') ∧ p_aof w' = aof_writer_closed ∧
    ck' = checkpoint_zero ∧ es' = es ∧
    (x = 1 ∧ os_names (one_file (lit "kvs.snap") (take 40 sample_snapshot)) !! lit "kvs.snap" = None ∨ x = -1)).
Proof.
  destruct fresh_engines as (es & r & Hwf & Ho & _ & _). exists es, r. split; [exact Hwf|]. split; [exact Ho|].
  refine (snapshot_load_refuses (lit "kvs.snap") checkpoint_zero es
    (PWorld r (one_file (lit "kvs.snap") (take 40 sample_snapshot)) aof_writer_closed) [] ∅ _ Hwf Ho _ _).
  - discriminate.
  - intros d ck rs Hd Hsz Ht. assert (d = take 40 sample_snapshot) as -> by (injection Hd; intros <-; reflexivity).
    apply (validate_complete _ 0 checkpoint_zero) in Ht; [|exact Hsz]. revert Ht. vm_compute. discriminate.
  - intros d Hd. assert (d = take 40 sample_snapshot) as -> by (injection Hd; intros <-; reflexivity). vm_compute. discriminate.
Defined.

Lemma snapshot_roundtrip_witness : ∃ (es : demo_engines) (r : heap_rt),
  engines_wf es ∧ engine_records es = sample_records ∧ owns ([] ++ engines_owned es) ∅ r ∧
  wp (kvs_snapshot_store_save_with_checkpoint es (lit "data/kvs.snap") (Some (Checkpoint 1 77))) (demo_world r) (λ x w', x = 0 →
    ∀ (w2 : pworld heap_rt mem_os) (es0 : demo_engines) ck0 own0 F0,
    file_at (p_os w2) (lit "data/kvs.snap") = file_at (p_os w') (lit "data/kvs.snap") → engines_wf es0 →
    maps_eq (engine_maps es0) empty_maps → owns (own0 ++ engines_owned es0) F0 (p_rt w2) →
    wp (kvs_snapshot_store_load_with_checkpoint (lit "data/kvs.snap") ck0 es0) w2 (λ '(x, ck', es') w3,
      engines_keep own0 F0 (p_rt w2) es' (p_rt w3) ∧
      (x = 0 ∧ ck' = Checkpoint 1 77 ∧ maps_eq (engine_maps es') (engine_maps es) ∨ x = -1) ∧
      (roomy (p_rt w2) → healthy (p_os w2) → x = 0))).
Proof.
  destruct loaded_engines as (es & r & Hwf & Ho & Hh & He & _). destruct (loaded_records es Hh He) as (Hr & Hc & _).
  exists es, r. split; [exact Hwf|]. split; [exact Hr|]. split; [exact Ho|].
  refine (snapshot_roundtrip es (demo_world r) (lit "data/kvs.snap") (Some (Checkpoint 1 77)) ([] ++ engines_owned es) ∅ Hwf Hc _ _ _ Ho).
  - unfold snapshot_image, snapshot_payload. rewrite Hr. vm_compute. discriminate.
  - right. cbn. unfold INT64_MAX. lia.
  - discriminate.
Defined.
