(* ===== verification/Kvstore.v ===== *)
(** The command executor, src/kvstore.c: the command table, the execution of a
    parsed command with its effect on the engines, on the append-only file and on
    the reply, the handlers that wrap it for clients, recovery and replication, the
    saving and installing of snapshots, and the recovery at start-up.

    The state is the persistence layer ([pworld]), the four engines, and the
    globals [kvs_server_role] and [kvs_persistence_mode].  A reply is written into
    the caller's output buffer; every store is checked against the block. *)

From Stdlib Require Import ZArith Lia.
From S2P Require Import Prelude Runtime Engine Codec ArrayEngine HashEngine SkipList Kvengine Buffer Os MappedFile Aof SnapshotFormat SnapshotStore SnapshotLoad.

(** * Data *)

Inductive kvs_role_t := KVS_ROLE_STANDALONE | KVS_ROLE_PRIMARY | KVS_ROLE_REPLICA.
Inductive kvs_persistence_mode_t :=
  KVS_PERSISTENCE_LEGACY_HYBRID | KVS_PERSISTENCE_SNAPSHOT | KVS_PERSISTENCE_AOF.
Inductive kvs_command_source_t :=
  KVS_COMMAND_SOURCE_CLIENT | KVS_COMMAND_SOURCE_RECOVERY | KVS_COMMAND_SOURCE_REPLICATION.
Inductive kvs_exec_status_t :=
  KVS_EXEC_FAILED | KVS_EXEC_OK | KVS_EXEC_ALREADY_EXISTS | KVS_EXEC_NOT_FOUND | KVS_EXEC_FOUND.
Inductive kvs_replication_state_t :=
  | KVS_REPLICATION_STATE_DISCONNECTED | KVS_REPLICATION_STATE_CONNECTING | KVS_REPLICATION_STATE_HANDSHAKE
  | KVS_REPLICATION_STATE_FULL_SYNC | KVS_REPLICATION_STATE_CATCH_UP | KVS_REPLICATION_STATE_ONLINE.

#[export] Instance kvs_role_eq_dec : EqDecision kvs_role_t.
Proof. solve_decision. Defined.
#[export] Instance kvs_persistence_mode_eq_dec : EqDecision kvs_persistence_mode_t.
Proof. solve_decision. Defined.
#[export] Instance kvs_command_source_eq_dec : EqDecision kvs_command_source_t.
Proof. solve_decision. Defined.
#[export] Instance kvs_exec_status_eq_dec : EqDecision kvs_exec_status_t.
Proof. solve_decision. Defined.
#[export] Instance kvs_replication_state_eq_dec : EqDecision kvs_replication_state_t.
Proof. solve_decision. Defined.

(** The fields of the replication manager that the executor depends on. *)
Record replication_link := ReplicationLink {
  rl_initialized : bool;
  rl_role : kvs_role_t;
  rl_primary_connection_fd : Z;
  rl_state : kvs_replication_state_t;
}.

Definition kvs_replication_is_online (l : replication_link) : bool :=
  rl_initialized l && bool_decide (rl_role l = KVS_ROLE_REPLICA) && (0 <=? rl_primary_connection_fd l) &&
  bool_decide (rl_state l = KVS_REPLICATION_STATE_ONLINE).

Record server (RT D E : Type) := Server {
  sv_io : pworld RT D;
  sv_engines : E;
  kvs_server_role : kvs_role_t;
  kvs_persistence_mode : kvs_persistence_mode_t;
  sv_link : replication_link;
}.
Arguments Server {_ _ _}.
Arguments sv_io {_ _ _}.
Arguments sv_engines {_ _ _}.
Arguments kvs_server_role {_ _ _}.
Arguments kvs_persistence_mode {_ _ _}.
Arguments sv_link {_ _ _}.

Definition KVS_MAX_TOKENS : Z := 128.
Definition KVS_MAX_CLIENT_COMMAND_BYTES : Z := 1024 * 1024.

(** ** The command table *)

Definition command : list bytes := lit <$> [
  "SET"; "GET"; "DEL"; "MOD"; "EXIST";
  "RSET"; "RGET"; "RDEL"; "RMOD"; "REXIST";
  "HSET"; "HGET"; "HDEL"; "HMOD"; "HEXIST";
  "SSET"; "SGET"; "SDEL"; "SMOD"; "SEXIST"]%string.

Definition KVS_CMD_START : Z := 0.
Definition KVS_CMD_COUNT : Z := 20.

(** The search loop: the index of [name], or [KVS_CMD_COUNT]. *)
Fixpoint find_command (name : bytes) (names : list bytes) (cmd : Z) : Z :=
  match names with
  | [] => cmd
  | c :: names => if streq name c then cmd else find_command name names (cmd + 1)
  end.
Definition command_id (name : bytes) : Z := find_command name command KVS_CMD_START.

(** The engine whose group of five commands [cmd] belongs to. *)
Definition cmd_engine (cmd : Z) : engine_id :=
  if cmd <? 5 then ARRAY else if cmd <? 10 then RBTREE else if cmd <? 15 then HASH else SKIPLIST.

(** The five commands of a group. *)
Inductive cmd_kind_t := CMD_SET | CMD_GET | CMD_DEL | CMD_MOD | CMD_EXIST.
#[export] Instance cmd_kind_eq_dec : EqDecision cmd_kind_t.
Proof. solve_decision. Defined.
Definition cmd_kind (cmd : Z) : cmd_kind_t :=
  match cmd mod 5 with 0 => CMD_SET | 1 => CMD_GET | 2 => CMD_DEL | 3 => CMD_MOD | _ => CMD_EXIST end.

Definition kvs_is_write_command (cmd : Z) : bool :=
  if (cmd <? KVS_CMD_START) || (KVS_CMD_COUNT <=? cmd) then false else
  match cmd mod 5 with 0 | 2 | 3 => true | _ => false end.

Definition kvs_is_get_command (name : bytes) : bool :=
  streq name (lit "GET") || streq name (lit "RGET") || streq name (lit "HGET") || streq name (lit "SGET").

(** * Operations *)

Section ops.
Context `{CRuntime RT} `{Os D} {Ea Er Eh Es : Type}
  `{!Engine RT Ea} `{!Engine RT Er} `{!Engine RT Eh} `{!Engine RT Es}.
Notation engines := (kv_engines Ea Er Eh Es).
Notation engine_type := (@engine_type Ea Er Eh Es).
Notation W := (server RT D engines).
Implicit Types (es : engines) (w : W).

Definition put_io (io : pworld RT D) w : W :=
  Server io (sv_engines w) (kvs_server_role w) (kvs_persistence_mode w) (sv_link w).
Definition put_engines es w : W :=
  Server (sv_io w) es (kvs_server_role w) (kvs_persistence_mode w) (sv_link w).

Definition on_io {X} (m : M (pworld RT D) X) : M W X := zoom sv_io put_io m.
Definition on_heap {X} (m : M RT X) : M W X := on_io (on_rt m).

(** An operation on the global engines. *)
Definition on_engines {X} (f : engines → M (pworld RT D) (X * engines)) : M W X :=
  es ← gets sv_engines;
  '(x, es) ← on_io (f es);
  modify (put_engines es);;
  mret x.

(** ** Persistence *)

Definition kvs_close_current_persistence : M W unit :=
  mode ← gets kvs_persistence_mode;
  if bool_decide (mode ≠ KVS_PERSISTENCE_SNAPSHOT) then on_io kvs_aof_close;; mret tt else mret tt.

Definition kvs_save_current_snapshot : M W Z :=
  mode ← gets kvs_persistence_mode;
  es ← gets sv_engines;
  if bool_decide (mode = KVS_PERSISTENCE_SNAPSHOT) then on_io (kvs_snapshot_store_save es (lit "snapshot.bin")) else
  if bool_decide (mode = KVS_PERSISTENCE_LEGACY_HYBRID) then
    offset ← gets (kvs_aof_get_offset ∘ sv_io);
    if offset <? 0 then mret (-1) else
    on_io (kvs_snapshot_store_save_with_checkpoint es (lit "snapshot.db") (Some (Checkpoint 1 offset)))
  else mret (-1).

(** ** Tokens *)

(** The tests [data == NULL || length == SIZE_MAX]. *)
Definition field_bad (f : kvs_slice_t) : bool :=
  bool_decide (Codec.data f = None) || (Codec.length f =? SIZE_MAX).
(** [memchr(data, 0, length) != NULL] *)
Definition field_has_nul (f : kvs_slice_t) : bool := bool_decide (NUL ∈ slice_bytes f).

Fixpoint free_slots (tokens : list (option cstr)) : M RT unit :=
  match tokens with
  | [] => mret tt
  | t :: tokens => kvs_free (cs_addr <$> t);; free_slots tokens
  end.

(** The copying loop, [tokens] being the elements filled so far; at [fail] every
    element of the array up to [field_count] is released. *)
Fixpoint copy_fields (fields : list kvs_slice_t) (tokens : list cstr) : M RT (option (list cstr)) :=
  match fields with
  | [] => mret (Some tokens)
  | f :: fields =>
      let fail := free_slots ((Some <$> tokens) ++ replicate (S (List.length fields)) None);; mret None in
      if field_bad f || field_has_nul f then fail else
      token ← malloc_copy (slice_bytes f);
      match token with
      | None => fail
      | Some token => copy_fields fields (tokens ++ [token])
      end
  end.

(** The tokens, [None] for -1. *)
Definition kvs_fields_to_tokens (fields : list kvs_slice_t) (token_capacity : Z) : M RT (option (list cstr)) :=
  if (zlen fields =? 0) || (token_capacity <? zlen fields) then mret None else copy_fields fields [].

(** [tokens[i]], a null pointer beyond the fields. *)
Definition token (tokens : list cstr) (i : nat) : option bytes := cs_str <$> tokens !! i.

(** ** The executor *)

Definition kvs_get_value (cmd : Z) (key : option bytes) es : M RT (option bytes) :=
  match key with
  | None => mret None
  | Some _ =>
      if (0 <=? cmd) && (cmd <? KVS_CMD_COUNT) && bool_decide (cmd_kind cmd = CMD_GET)
      then eng_get (get_engine (cmd_engine cmd) es) key
      else mret None
  end.

(** What [snprintf(response, capacity, ...)] returns and stores for the text. *)
Definition snprintf (capacity : Z) (text : bytes) : Z * bytes :=
  (if INT_MAX <? zlen text then -1 else zlen text,
   if capacity <=? 0 then [] else take (Z.to_nat (capacity - 1)) text ++ [NUL]).

Definition set_text (ret : Z) : bytes :=
  if ret <? 0 then lit "ERROR" ++ crlf else if ret =? 0 then lit "OK" ++ crlf else lit "EXIST" ++ crlf.
Definition change_text (ret : Z) : bytes :=
  if ret <? 0 then lit "ERROR" ++ crlf else if ret =? 0 then lit "OK" ++ crlf else lit "NO EXIST" ++ crlf.
Definition exist_text (ret : Z) : bytes :=
  if ret =? 0 then lit "EXIST" ++ crlf else lit "NO EXIST" ++ crlf.
Definition get_text (result : option bytes) : bytes :=
  match result with None => lit "NO EXIST" ++ crlf | Some v => v ++ crlf end.

(** The [switch] over the twenty commands: [ret] and the text of the reply. *)
Definition filter_switch (cmd : Z) (key value : option bytes) es : M RT (Z * bytes * engines) :=
  let i := cmd_engine cmd in
  match cmd_kind cmd with
  | CMD_SET => '(ret, es) ← on_engine i es (λ e, eng_set e key value); mret (ret, set_text ret, es)
  | CMD_GET => result ← kvs_get_value cmd key es; mret (0, get_text result, es)
  | CMD_DEL => '(ret, es) ← on_engine i es (λ e, eng_del e key); mret (ret, change_text ret, es)
  | CMD_MOD => '(ret, es) ← on_engine i es (λ e, eng_mod e key value); mret (ret, change_text ret, es)
  | CMD_EXIST => ret ← eng_exist (get_engine i es) key; mret (ret, exist_text ret, es)
  end.

(** The [switch] that sets [*status]; GET leaves it. *)
Definition filter_status (cmd ret : Z) (status : kvs_exec_status_t) : kvs_exec_status_t :=
  if ret <? 0 then KVS_EXEC_FAILED else
  match cmd_kind cmd with
  | CMD_SET => if ret =? 0 then KVS_EXEC_OK else KVS_EXEC_ALREADY_EXISTS
  | CMD_DEL | CMD_MOD => if ret =? 0 then KVS_EXEC_OK else KVS_EXEC_NOT_FOUND
  | CMD_EXIST => if ret =? 0 then KVS_EXEC_FOUND else KVS_EXEC_NOT_FOUND
  | CMD_GET => status
  end.

(** The length returned, the bytes stored from [response] on, and [*status]. *)
Definition kvs_filter_protocol (tokens : list cstr) (response_capacity : Z) (source : kvs_command_source_t)
    (status : kvs_exec_status_t) : M W (Z * bytes * kvs_exec_status_t) :=
  if bool_decide (tokens = []) || (response_capacity <=? 0) then mret (-1, [], KVS_EXEC_FAILED) else
  let cmd := command_id (default [] (token tokens 0)) in
  if cmd =? KVS_CMD_COUNT then
    mret (snprintf response_capacity (lit "ERROR unknown command" ++ crlf), status)
  else
  role ← gets kvs_server_role;
  if bool_decide (role = KVS_ROLE_REPLICA) && bool_decide (source = KVS_COMMAND_SOURCE_CLIENT)
     && kvs_is_write_command cmd then
    mret (snprintf response_capacity (lit "READONLY replica does not accept client writes" ++ crlf), status)
  else
  '(ret, text) ← on_engines (λ es, on_rt (filter_switch cmd (token tokens 1) (token tokens 2) es));
  let status := filter_status cmd ret status in
  mode ← gets kvs_persistence_mode;
  (if (ret =? 0) && kvs_is_write_command cmd && bool_decide (source ≠ KVS_COMMAND_SOURCE_RECOVERY)
      && bool_decide (mode ≠ KVS_PERSISTENCE_SNAPSHOT) then
     aof_ret ← on_io (kvs_aof_append ((Some ∘ cs_str) <$> tokens) (zlen tokens));
     if aof_ret <? 0 then exit_process else mret tt
   else mret tt);;
  mret (snprintf response_capacity text, status).

Definition kvs_execute_tokens (tokens : list cstr) (response_capacity : Z) (source : kvs_command_source_t)
    (status : kvs_exec_status_t) : M W (Z * bytes * kvs_exec_status_t) :=
  if bool_decide (tokens = []) || (response_capacity <=? 0) then mret (-1, [], status) else
  '(response_length, stored, status) ← kvs_filter_protocol tokens response_capacity source status;
  if response_length <? 0 then mret (-1, stored, status) else
  if response_capacity <=? response_length then mret (-1, stored, status) else
  mret (response_length, stored, status).

(** ** Replies *)

(** Stores bytes from [data + length] on; outside the block this is undefined. *)
Definition write_reply {V} (b : kvs_output_buffer_t) (s : bytes) : M V kvs_output_buffer_t :=
  '(p, block) ← deref (o_data b);
  if (o_length b <? 0) || (zlen block <? o_length b + zlen s) then undefined else
  mret (OutputBuffer (Some (p, store (o_length b) (Some <$> s) block)) (o_length b) (o_offset b) (o_capacity b)).

Definition reply_capacity (b : kvs_output_buffer_t) : Z := o_capacity b - o_length b.

(** The idiom that copies a constant reply when it fits. *)
Definition copy_reply {V} (b : kvs_output_buffer_t) (reply : bytes) : M V (Z * kvs_output_buffer_t) :=
  if reply_capacity b <? zlen reply then mret (-1, b) else
  b ← write_reply b reply;
  mret (zlen reply, b).

Definition kvs_encode_value_to_output (output : kvs_output_buffer_t) (value : bytes) :
    M RT (Z * kvs_output_buffer_t) :=
  if (o_length output <? 0) || (o_capacity output <? o_length output) then mret (-1, output) else
  let value_slice := slice_of value in
  match kvs_encoded_value_response_size value_slice with
  | None => mret (-1, output)
  | Some required =>
      if INT_MAX - o_length output <? required then mret (-1, output) else
      '(r, output) ← kvs_output_buffer_ensure_space output required;
      if r <? 0 then mret (-1, output) else
      match kvs_encode_value_response value_slice (o_capacity output - o_length output) with
      | None => mret (-1, output)
      | Some encoded =>
          output ← write_reply output encoded;
          if INT_MAX <? zlen encoded then mret (-1, output) else mret (zlen encoded, output)
      end
  end.

Definition client_reply (cmd : Z) (status : kvs_exec_status_t) : bytes :=
  match cmd_kind cmd with
  | CMD_SET => match status with
         | KVS_EXEC_OK => lit "+OK" ++ crlf
         | KVS_EXEC_ALREADY_EXISTS => lit "-ERR key already exists" ++ crlf
         | _ => lit "-ERR SET failed" ++ crlf
         end
  | CMD_DEL => match status with
         | KVS_EXEC_OK => lit ":1" ++ crlf
         | KVS_EXEC_NOT_FOUND => lit ":0" ++ crlf
         | _ => lit "-ERR DEL failed" ++ crlf
         end
  | CMD_MOD => match status with
         | KVS_EXEC_OK => lit "+OK" ++ crlf
         | KVS_EXEC_NOT_FOUND => lit "-ERR key not found" ++ crlf
         | _ => lit "-ERR MOD failed" ++ crlf
         end
  | _ => match status with
         | KVS_EXEC_FOUND => lit ":1" ++ crlf
         | KVS_EXEC_NOT_FOUND => lit ":0" ++ crlf
         | _ => lit "-ERR EXIST failed" ++ crlf
         end
  end.

(** The commands whose client reply replaces the text of [kvs_filter_protocol]. *)
Definition has_client_reply (cmd : Z) : bool :=
  (0 <=? cmd) && (cmd <? KVS_CMD_COUNT) && negb (bool_decide (cmd_kind cmd = CMD_GET)).

(** The part of [kvs_execute_fields] between the copying of the tokens and their
    release: [result], the output buffer and [*execution_status]. *)
Definition execute_copied (tokens : list cstr) (response : kvs_output_buffer_t) (source : kvs_command_source_t) :
    M W (Z * kvs_output_buffer_t * kvs_exec_status_t) :=
  let field_count := zlen tokens in
  let name := default [] (token tokens 0) in
  let client := bool_decide (source = KVS_COMMAND_SOURCE_CLIENT) in
  let answer reply := '(result, response) ← copy_reply response reply; mret (result, response, KVS_EXEC_FAILED) in
  if client && streq name (lit "PING") then
    answer (if field_count =? 1 then lit "+PONG" ++ crlf
            else lit "-ERR wrong number of arguments for PING" ++ crlf)
  else
  role ← gets kvs_server_role;
  link ← gets sv_link;
  if client && bool_decide (role = KVS_ROLE_REPLICA) && negb (kvs_replication_is_online link) then
    answer (lit "-LOADING replica synchronization in progress" ++ crlf)
  else
  if client && streq name (lit "SAVE") then
    if negb (field_count =? 1) then answer (lit "-ERR wrong number of arguments for SAVE" ++ crlf) else
    saved ← kvs_save_current_snapshot;
    answer (if saved <? 0 then lit "-ERR SAVE failed" ++ crlf else lit "+OK" ++ crlf)
  else
  let cmd := command_id name in
  let expected := if (cmd mod 5 =? 0) || (cmd mod 5 =? 3) then 3 else 2 in
  if (cmd <? KVS_CMD_COUNT) && negb (field_count =? expected) then
    if client then
      let capacity := reply_capacity response in
      let '(written, stored) := snprintf capacity (lit "-ERR wrong number of arguments for " ++ name ++ crlf) in
      response ← write_reply response stored;
      mret (if (written <? 0) || (capacity <=? written) then -1 else written, response, KVS_EXEC_FAILED)
    else mret (-1, response, KVS_EXEC_FAILED)
  else
  if client && (cmd =? KVS_CMD_COUNT) then answer (lit "-ERR unknown command" ++ crlf) else
  if (field_count =? 2) && kvs_is_get_command name && (cmd <? KVS_CMD_COUNT) then
    es ← gets sv_engines;
    value ← on_heap (kvs_get_value cmd (token tokens 1) es);
    match value with
    | None => answer (lit "$-1" ++ crlf)
    | Some value =>
        '(result, response) ← on_heap (kvs_encode_value_to_output response value);
        mret (result, response, KVS_EXEC_FAILED)
    end
  else
  '(result, stored, exec_status) ← kvs_execute_tokens tokens (reply_capacity response) source KVS_EXEC_FAILED;
  response ← write_reply response stored;
  let execution_status := if 0 <=? result then exec_status else KVS_EXEC_FAILED in
  if (0 <=? result) && client && has_client_reply cmd then
    '(result, response) ← copy_reply response (client_reply cmd exec_status);
    mret (result, response, execution_status)
  else mret (result, response, execution_status).

(** The first loop over the fields. *)
Inductive fields_check := FieldsGood | FieldsBad | FieldsNul.
Fixpoint check_fields (fields : list kvs_slice_t) : fields_check :=
  match fields with
  | [] => FieldsGood
  | f :: fields =>
      if field_bad f then FieldsBad else if field_has_nul f then FieldsNul else check_fields fields
  end.

Definition kvs_execute_fields (fields : list kvs_slice_t) (response : kvs_output_buffer_t)
    (source : kvs_command_source_t) : M W (Z * kvs_output_buffer_t * kvs_exec_status_t) :=
  if bool_decide (o_data response = None) || (o_capacity response <=? 0) || (o_length response <? 0)
     || (o_capacity response <? o_length response) || (zlen fields =? 0) || (KVS_MAX_TOKENS <? zlen fields)
     || (INT_MAX <? zlen fields)
  then mret (-1, response, KVS_EXEC_FAILED) else
  match check_fields fields with
  | FieldsBad => mret (-1, response, KVS_EXEC_FAILED)
  | FieldsNul =>
      if bool_decide (source ≠ KVS_COMMAND_SOURCE_CLIENT) then mret (-1, response, KVS_EXEC_FAILED) else
      '(result, response) ← copy_reply response (lit "-ERR NUL bytes are not supported" ++ crlf);
      mret (result, response, KVS_EXEC_FAILED)
  | FieldsGood =>
      tokens ← on_heap (kvs_fields_to_tokens fields KVS_MAX_TOKENS);
      match tokens with
      | None => mret (-1, response, KVS_EXEC_FAILED)
      | Some tokens =>
          '(result, response, status) ← execute_copied tokens response source;
          on_heap (free_slots (Some <$> tokens));;
          mret (result, response, status)
      end
  end.

(** ** Handlers *)

(** [response] is an array of [response_capacity] bytes that is not on the heap;
    [array] is its address. *)
Definition kvs_fields_protocol (source : kvs_command_source_t) (array : addr) (fields : list kvs_slice_t)
    (response_capacity : Z) : M W Z :=
  if response_capacity <=? 0 then mret (-1) else
  let output := OutputBuffer (Some (array, replicate (Z.to_nat response_capacity) None)) 0 0 response_capacity in
  '(response_length, _, execution_status) ← kvs_execute_fields fields output source;
  if (response_length <? 0) || bool_decide (execution_status ≠ KVS_EXEC_OK) then mret (-1) else
  mret response_length.

Definition kvs_recovery_fields_protocol : addr → aof_replay_handler W :=
  kvs_fields_protocol KVS_COMMAND_SOURCE_RECOVERY.
Definition kvs_replication_command_protocol : addr → aof_replay_handler W :=
  kvs_fields_protocol KVS_COMMAND_SOURCE_REPLICATION.

(** [msg] are the [length] bytes received.  The result, the output buffer and
    [*consumed_length]. *)
Definition kvs_network_protocol (msg : bytes) (response : kvs_output_buffer_t) :
    M W (Z * kvs_output_buffer_t * Z) :=
  let length := zlen msg in
  if bool_decide (o_data response = None) || (o_capacity response <=? 0) || (o_length response <? 0)
     || (o_capacity response <? o_length response)
  then mret (-1, response, 0) else
  if length =? 0 then mret (0, response, 0) else
  let parsed := kvs_parse_command_limited (Some msg) KVS_MAX_TOKENS KVS_MAX_CLIENT_COMMAND_BYTES in
  let status := parse_code parsed in
  if (status <? 0) || ((status =? 0) && (KVS_MAX_CLIENT_COMMAND_BYTES <=? length)) then
    '(result, response) ← copy_reply response (lit "-ERR invalid or oversized request" ++ crlf);
    mret (result, response, if result <? 0 then 0 else length)
  else
  match parsed with
  | Complete (fields, parsed_bytes) =>
      '(response_length, response, _) ← kvs_execute_fields fields response KVS_COMMAND_SOURCE_CLIENT;
      if (response_length <? 0) || (reply_capacity response <? response_length) then mret (-1, response, 0) else
      mret (response_length, response, parsed_bytes)
  | _ => mret (0, response, 0)
  end.

(** ** Snapshots from a primary, and start-up *)

(** [dest_kvengine] and [init_kvengine]; without engines the process ends. *)
Definition reset_engines : M W unit :=
  r ← on_engines (λ es,
    on_rt (dest_kvengine es);;
    on_rt (init_kvengine (Ea := Ea) (Er := Er) (Eh := Eh) (Es := Es)));
  if r <? 0 then exit_process else mret tt.

Definition kvs_install_replication_snapshot (snapshot_path : bytes) (aof_offset : Z) : M W Z :=
  if bool_decide (snapshot_path = []) then mret (-1) else
  reset_engines;;
  '(load_result, checkpoint) ← on_engines (λ es,
    '(r, checkpoint, es) ← kvs_snapshot_store_load_with_checkpoint snapshot_path checkpoint_zero es;
    mret ((r, checkpoint), es));
  if negb (load_result =? 0) || (has_offset checkpoint =? 0) || negb (ck_offset checkpoint =? aof_offset) then
    reset_engines;;
    mret (-1)
  else
  r ← on_io (kvs_aof_reset_to_offset aof_offset);
  if r <? 0 then
    reset_engines;;
    mret (-1)
  else mret 0.

(** Release the engines and leave [kvs_server_run] with [code]. *)
Definition give_up_start (code : Z) : M W (option Z) :=
  on_engines (λ es, es ← on_rt (dest_kvengine es); mret (tt, es));;
  mret (Some code).

Definition replay_log (path : bytes) (offset : Z) (array : addr) : M W Z :=
  kvs_aof_replay (p_os ∘ sv_io) (λ d w, put_io (put_os d (sv_io w)) w) path offset
    (kvs_recovery_fields_protocol array).

(** [kvs_server_run] from the creation of the engines to the end of recovery; the
    result is the exit code when the server does not start.  [array] is the
    response array of [kvs_aof_replay]. *)
Definition kvs_server_recover (array : addr) : M W (option Z) :=
  r ← on_engines (λ _, on_rt (init_kvengine (Ea := Ea) (Er := Er) (Eh := Eh) (Es := Es)));
  if r <? 0 then mret (Some 1) else
  role ← gets kvs_server_role;
  mode ← gets kvs_persistence_mode;
  if bool_decide (role = KVS_ROLE_REPLICA) then
    opened ← on_io (kvs_aof_open (lit "appendonly.aof"));
    if opened <? 0 then give_up_start 1 else mret None
  else if bool_decide (mode = KVS_PERSISTENCE_SNAPSHOT) then
    load_result ← on_engines (λ es, kvs_snapshot_store_load (lit "snapshot.bin") es);
    if load_result <? 0 then give_up_start 1 else mret None
  else if bool_decide (mode = KVS_PERSISTENCE_AOF) then
    replayed ← replay_log (lit "commands.aof") 0 array;
    if replayed <? 0 then give_up_start 1 else
    opened ← on_io (kvs_aof_open (lit "commands.aof"));
    if opened <? 0 then give_up_start 1 else mret None
  else
    '(load_result, checkpoint) ← on_engines (λ es,
      '(r, checkpoint, es) ← kvs_snapshot_store_load_with_checkpoint (lit "snapshot.db") checkpoint_zero es;
      mret ((r, checkpoint), es));
    if (load_result <? 0) || (load_result =? 0) && (has_offset checkpoint =? 0) then give_up_start 1 else
    let offset := if load_result =? 1 then 0 else ck_offset checkpoint in
    replayed ← replay_log (lit "appendonly.aof") offset array;
    if replayed <? 0 then give_up_start 1 else
    opened ← on_io (kvs_aof_open (lit "appendonly.aof"));
    if opened <? 0 then give_up_start 1 else mret None.
End ops.

(** * Lemmas on the command table *)

Lemma find_command_spec name names cmd :
  cmd ≤ find_command name names cmd ≤ cmd + zlen names ∧
  (find_command name names cmd < cmd + zlen names → names !! Z.to_nat (find_command name names cmd - cmd) = Some name).
Proof.
  revert cmd. induction names as [|c names IH]; intros cmd; cbn [find_command].
  { change (zlen []) with 0. split; [lia|lia]. }
  rewrite zlen_cons, streq_decide. pose proof (zlen_nonneg names). case_bool_decide as E.
  - split; [lia|]. intros _. replace (Z.to_nat (cmd - cmd)) with O by lia. by subst.
  - destruct (IH (cmd + 1)) as [Hb Hn]. split; [lia|]. intros Hlt.
    replace (Z.to_nat (find_command name names (cmd + 1) - cmd))
      with (S (Z.to_nat (find_command name names (cmd + 1) - (cmd + 1)))) by lia.
    apply Hn. lia.
Qed.

Lemma command_id_range name : 0 ≤ command_id name ≤ KVS_CMD_COUNT.
Proof. destruct (find_command_spec name command 0) as [H _]. exact H. Qed.

Lemma command_known name : command_id name < KVS_CMD_COUNT → name ∈ command.
Proof. intros Hlt. destruct (find_command_spec name command 0) as [_ H]. eapply list_elem_of_lookup_2, H, Hlt. Qed.

(** A decidable fact on every name of the table. *)
Lemma command_forall (P : bytes → bool) : forallb P command = true → ∀ name, command_id name < KVS_CMD_COUNT → P name = true.
Proof. rewrite forallb_forall. intros HP name Hn%command_known. by apply HP, list_elem_of_In. Qed.

Lemma table_not_reserved name : command_id name < KVS_CMD_COUNT →
  streq name (lit "PING") = false ∧ streq name (lit "SAVE") = false.
Proof.
  intros Hn. rewrite <- !negb_true_iff, <- andb_true_iff.
  by apply (command_forall (λ name, negb (streq name (lit "PING")) && negb (streq name (lit "SAVE")))).
Qed.

Lemma get_command_kind name : command_id name < KVS_CMD_COUNT →
  kvs_is_get_command name = bool_decide (cmd_kind (command_id name) = CMD_GET).
Proof.
  intros Hn. apply eqb_prop.
  exact (command_forall (λ name, eqb (kvs_is_get_command name) (bool_decide (cmd_kind (command_id name) = CMD_GET))) eq_refl name Hn).
Qed.

(** The number of fields of a command. *)
Definition arity (k : cmd_kind_t) : Z := match k with CMD_SET | CMD_MOD => 3 | _ => 2 end.

Lemma expected_arity cmd : (if (cmd mod 5 =? 0) || (cmd mod 5 =? 3) then 3 else 2) = arity (cmd_kind cmd).
Proof.
  unfold cmd_kind. pose proof (Z.mod_pos_bound cmd 5 ltac:(lia)) as Hb.
  assert (cmd mod 5 = 0 ∨ cmd mod 5 = 1 ∨ cmd mod 5 = 2 ∨ cmd mod 5 = 3 ∨ cmd mod 5 = 4) as Hc by lia.
  by destruct Hc as [->|[->|[->|[->| ->]]]].
Qed.

(** The commands that change the data set. *)
Definition writes (k : cmd_kind_t) : bool := match k with CMD_SET | CMD_DEL | CMD_MOD => true | _ => false end.

Lemma write_command_kind cmd : 0 ≤ cmd < KVS_CMD_COUNT → kvs_is_write_command cmd = writes (cmd_kind cmd).
Proof.
  intros Hc. unfold kvs_is_write_command, cmd_kind, KVS_CMD_START.
  rewrite (proj2 (Z.ltb_ge _ _)), (proj2 (Z.leb_gt _ _)) by lia. cbn [orb].
  pose proof (Z.mod_pos_bound cmd 5 ltac:(lia)) as Hb.
  assert (cmd mod 5 = 0 ∨ cmd mod 5 = 1 ∨ cmd mod 5 = 2 ∨ cmd mod 5 = 3 ∨ cmd mod 5 = 4) as Hm by lia.
  by destruct Hm as [->|[->|[->|[->| ->]]]].
Qed.

(** A sentence of the command language: a known name with its number of fields. *)
Definition well_formed (ts : list bytes) : Prop :=
  ∃ name args, ts = name :: args ∧ command_id name < KVS_CMD_COUNT ∧ zlen ts = arity (cmd_kind (command_id name)).

Definition cmd_of (ts : list bytes) : Z := command_id (default [] (ts !! O)).
Definition arg (i : nat) (ts : list bytes) : bytes := default [] (ts !! i).

Lemma well_formed_range ts : well_formed ts → 0 ≤ cmd_of ts < KVS_CMD_COUNT.
Proof. intros (name & args & -> & Hn & _). change (cmd_of (name :: args)) with (command_id name). pose proof (command_id_range name). lia. Qed.

Lemma well_formed_args ts : well_formed ts →
  ts !! 1%nat = Some (arg 1 ts) ∧ zlen ts = arity (cmd_kind (cmd_of ts)) ∧
  (arity (cmd_kind (cmd_of ts)) = 3 → ts !! 2%nat = Some (arg 2 ts)).
Proof.
  intros (name & args & -> & _ & Hl). change (cmd_of (name :: args)) with (command_id name). unfold arg. cbn [lookup list_lookup].
  rewrite Hl. rewrite zlen_cons in Hl. split.
  - destruct args as [|a args]; [|done]. change (zlen []) with 0 in Hl. destruct (cmd_kind _); cbn in Hl; lia.
  - split; [done|]. intros H3. destruct args as [|a [|b args]]; [..|done].
    + change (zlen []) with 0 in Hl. lia.
    + rewrite zlen_cons in Hl. change (zlen []) with 0 in Hl. lia.
Qed.

(** * The abstract command language *)

Section semantics.
Context `{CRuntime RT} {Ea Er Eh Es : Type} `{!Engine RT Ea} `{!Engine RT Er} `{!Engine RT Eh} `{!Engine RT Es}.
Notation engine_type := (@engine_type Ea Er Eh Es).

(** A write on the data set: [None] when it does not apply. *)
Definition apply_write (ts : list bytes) (ms : kv_maps) : option kv_maps :=
  let i := cmd_engine (cmd_of ts) in
  let k := arg 1 ts in
  match cmd_kind (cmd_of ts) with
  | CMD_SET => if set_result (E := engine_type i) (ms i) k =? 0
               then Some (set_map i (<[k := arg 2 ts]> (ms i)) ms) else None
  | CMD_DEL => if ms i !! k then Some (set_map i (delete k (ms i)) ms) else None
  | CMD_MOD => if ms i !! k then Some (set_map i (<[k := arg 2 ts]> (ms i)) ms) else None
  | _ => None
  end.

(** The writes of a log one after another. *)
Fixpoint apply_log (cmds : list (list bytes)) (ms : kv_maps) : option kv_maps :=
  match cmds with
  | [] => Some ms
  | ts :: cmds => ms ← apply_write ts ms; apply_log cmds ms
  end.

Lemma apply_log_app l1 l2 ms : apply_log (l1 ++ l2) ms = apply_log l1 ms ≫= apply_log l2.
Proof. revert ms. induction l1 as [|ts l1 IH]; intros ms; [done|]. cbn. destruct (apply_write ts ms); [apply IH|done]. Qed.

#[export] Instance apply_write_proper ts : Proper (maps_eq ==> option_Forall2 maps_eq) (apply_write ts).
Proof.
  intros ms ms' E. unfold apply_write. cbv zeta. rewrite (E (cmd_engine (cmd_of ts))).
  destruct (cmd_kind (cmd_of ts)); try constructor; case_match; constructor; by rewrite E.
Qed.

#[export] Instance apply_log_proper cmds : Proper (maps_eq ==> option_Forall2 maps_eq) (apply_log cmds).
Proof.
  induction cmds as [|ts cmds IH]; intros ms ms' E; [by constructor|]. cbn [apply_log].
  pose proof (apply_write_proper ts ms ms' E) as Hw. destruct Hw as [x y Hxy|]; [by apply IH|constructor].
Qed.

(** What the engine returns for a write, [present] telling whether the key is held
    and [done_] whether the write was applied. *)
Definition write_ret (i : engine_id) (kind : cmd_kind_t) (present applied : bool) (ret : Z) : Prop :=
  (ret = 0 ↔ applied = true) ∧
  match kind with
  | CMD_SET => ret ≤ 0
  | CMD_DEL => applied = present ∧ (present = false → ret = eng_del_missing (E := engine_type i))
  | CMD_MOD => if present then ret = 0 ∨ ret = -2 else ret = 1
  | _ => True
  end.
End semantics.
