(* ===== verification/RepState.v ===== *)
(** The state of the replication manager, src/replication/replication.c, and of a
    server with it.

    [replication_manager] is a global; [link_of] is the part of it that
    [kvs_replication_is_online] reads, of which the executor keeps a copy.  The two
    handlers are the functions given to [kvs_replication_init].  The reply array of a
    command handler is given by its address, as in Kvstore. *)

From Stdlib Require Import ZArith Lia.
From S2P Require Import Prelude Runtime Engine Codec ArrayEngine HashEngine SkipList Kvengine Buffer Os Rdma MappedFile Aof SnapshotIo SnapshotFormat SnapshotStore SnapshotLoad Kvstore.

(** [kvs_replication_rdma_sync_t] *)
Record kvs_replication_rdma_sync_t := RdmaSync {
  rs_connection : option addr;
  rs_established : bool;
  rs_snapshot_bytes : Z;
  rs_acknowledged_bytes : Z;
  rs_send_pending : bool;
  rs_disconnect_pending : bool;
}.
Definition rdma_sync_zero : kvs_replication_rdma_sync_t := RdmaSync None false 0 0 false false.

Definition sync_connection x s := RdmaSync x (rs_established s) (rs_snapshot_bytes s) (rs_acknowledged_bytes s) (rs_send_pending s) (rs_disconnect_pending s).
Definition sync_established x s := RdmaSync (rs_connection s) x (rs_snapshot_bytes s) (rs_acknowledged_bytes s) (rs_send_pending s) (rs_disconnect_pending s).
Definition sync_snapshot_bytes x s := RdmaSync (rs_connection s) (rs_established s) x (rs_acknowledged_bytes s) (rs_send_pending s) (rs_disconnect_pending s).
Definition sync_acknowledged_bytes x s := RdmaSync (rs_connection s) (rs_established s) (rs_snapshot_bytes s) x (rs_send_pending s) (rs_disconnect_pending s).
Definition sync_send_pending x s := RdmaSync (rs_connection s) (rs_established s) (rs_snapshot_bytes s) (rs_acknowledged_bytes s) x (rs_disconnect_pending s).
Definition sync_disconnect_pending x s := RdmaSync (rs_connection s) (rs_established s) (rs_snapshot_bytes s) (rs_acknowledged_bytes s) (rs_send_pending s) x.

Record kvs_replication_manager_t (W : Type) := ReplicationManager {
  rm_role : kvs_role_t;
  rm_rdma_listener : option addr;
  rm_rdma_sync : kvs_replication_rdma_sync_t;
  rm_rdma_cleanup_connection : option addr;
  rm_rdma_port : Z;
  rm_primary_rdma_port : Z;
  rm_replication_offset : Z;
  rm_snapshot_file_size : Z;
  rm_snapshot_reader : kvs_snapshot_reader_t;
  rm_aof_reader : kvs_aof_reader_t;
  rm_snapshot_writer : kvs_snapshot_writer_t;
  rm_snapshot_connection_fd : Z;
  rm_replication_id : bytes;
  rm_full_sync_id : bytes;
  rm_primary_host : bytes;
  rm_primary_port : Z;
  rm_primary_connection_fd : Z;
  rm_snapshot_install_handler : option (bytes → Z → M W Z);
  rm_command_handler : option (addr → aof_replay_handler W);
  rm_state : kvs_replication_state_t;
  rm_initialized : bool;
}.
Arguments ReplicationManager {_}.
Arguments rm_role {_}.
Arguments rm_rdma_listener {_}.
Arguments rm_rdma_sync {_}.
Arguments rm_rdma_cleanup_connection {_}.
Arguments rm_rdma_port {_}.
Arguments rm_primary_rdma_port {_}.
Arguments rm_replication_offset {_}.
Arguments rm_snapshot_file_size {_}.
Arguments rm_snapshot_reader {_}.
Arguments rm_aof_reader {_}.
Arguments rm_snapshot_writer {_}.
Arguments rm_snapshot_connection_fd {_}.
Arguments rm_replication_id {_}.
Arguments rm_full_sync_id {_}.
Arguments rm_primary_host {_}.
Arguments rm_primary_port {_}.
Arguments rm_primary_connection_fd {_}.
Arguments rm_snapshot_install_handler {_}.
Arguments rm_command_handler {_}.
Arguments rm_state {_}.
Arguments rm_initialized {_}.

(** Assignments to the fields. *)
Section setters.
Context {W : Type}.
Implicit Types m : kvs_replication_manager_t W.
Definition set_role (x : kvs_role_t) m : kvs_replication_manager_t W :=
  ReplicationManager x (rm_rdma_listener m) (rm_rdma_sync m) (rm_rdma_cleanup_connection m) (rm_rdma_port m)
    (rm_primary_rdma_port m) (rm_replication_offset m) (rm_snapshot_file_size m) (rm_snapshot_reader m)
    (rm_aof_reader m) (rm_snapshot_writer m) (rm_snapshot_connection_fd m) (rm_replication_id m) (rm_full_sync_id m)
    (rm_primary_host m) (rm_primary_port m) (rm_primary_connection_fd m) (rm_snapshot_install_handler m)
    (rm_command_handler m) (rm_state m) (rm_initialized m).
Definition set_rdma_listener (x : option addr) m : kvs_replication_manager_t W :=
  ReplicationManager (rm_role m) x (rm_rdma_sync m) (rm_rdma_cleanup_connection m) (rm_rdma_port m)
    (rm_primary_rdma_port m) (rm_replication_offset m) (rm_snapshot_file_size m) (rm_snapshot_reader m)
    (rm_aof_reader m) (rm_snapshot_writer m) (rm_snapshot_connection_fd m) (rm_replication_id m) (rm_full_sync_id m)
    (rm_primary_host m) (rm_primary_port m) (rm_primary_connection_fd m) (rm_snapshot_install_handler m)
    (rm_command_handler m) (rm_state m) (rm_initialized m).
Definition set_rdma_sync (x : kvs_replication_rdma_sync_t) m : kvs_replication_manager_t W :=
  ReplicationManager (rm_role m) (rm_rdma_listener m) x (rm_rdma_cleanup_connection m) (rm_rdma_port m)
    (rm_primary_rdma_port m) (rm_replication_offset m) (rm_snapshot_file_size m) (rm_snapshot_reader m)
    (rm_aof_reader m) (rm_snapshot_writer m) (rm_snapshot_connection_fd m) (rm_replication_id m) (rm_full_sync_id m)
    (rm_primary_host m) (rm_primary_port m) (rm_primary_connection_fd m) (rm_snapshot_install_handler m)
    (rm_command_handler m) (rm_state m) (rm_initialized m).
Definition set_rdma_cleanup_connection (x : option addr) m : kvs_replication_manager_t W :=
  ReplicationManager (rm_role m) (rm_rdma_listener m) (rm_rdma_sync m) x (rm_rdma_port m) (rm_primary_rdma_port m)
    (rm_replication_offset m) (rm_snapshot_file_size m) (rm_snapshot_reader m) (rm_aof_reader m) (rm_snapshot_writer
    m) (rm_snapshot_connection_fd m) (rm_replication_id m) (rm_full_sync_id m) (rm_primary_host m) (rm_primary_port
    m) (rm_primary_connection_fd m) (rm_snapshot_install_handler m) (rm_command_handler m) (rm_state m)
    (rm_initialized m).
Definition set_rdma_port (x : Z) m : kvs_replication_manager_t W :=
  ReplicationManager (rm_role m) (rm_rdma_listener m) (rm_rdma_sync m) (rm_rdma_cleanup_connection m) x
    (rm_primary_rdma_port m) (rm_replication_offset m) (rm_snapshot_file_size m) (rm_snapshot_reader m)
    (rm_aof_reader m) (rm_snapshot_writer m) (rm_snapshot_connection_fd m) (rm_replication_id m) (rm_full_sync_id m)
    (rm_primary_host m) (rm_primary_port m) (rm_primary_connection_fd m) (rm_snapshot_install_handler m)
    (rm_command_handler m) (rm_state m) (rm_initialized m).
Definition set_primary_rdma_port (x : Z) m : kvs_replication_manager_t W :=
  ReplicationManager (rm_role m) (rm_rdma_listener m) (rm_rdma_sync m) (rm_rdma_cleanup_connection m) (rm_rdma_port
    m) x (rm_replication_offset m) (rm_snapshot_file_size m) (rm_snapshot_reader m) (rm_aof_reader m)
    (rm_snapshot_writer m) (rm_snapshot_connection_fd m) (rm_replication_id m) (rm_full_sync_id m) (rm_primary_host
    m) (rm_primary_port m) (rm_primary_connection_fd m) (rm_snapshot_install_handler m) (rm_command_handler m)
    (rm_state m) (rm_initialized m).
Definition set_replication_offset (x : Z) m : kvs_replication_manager_t W :=
  ReplicationManager (rm_role m) (rm_rdma_listener m) (rm_rdma_sync m) (rm_rdma_cleanup_connection m) (rm_rdma_port
    m) (rm_primary_rdma_port m) x (rm_snapshot_file_size m) (rm_snapshot_reader m) (rm_aof_reader m)
    (rm_snapshot_writer m) (rm_snapshot_connection_fd m) (rm_replication_id m) (rm_full_sync_id m) (rm_primary_host
    m) (rm_primary_port m) (rm_primary_connection_fd m) (rm_snapshot_install_handler m) (rm_command_handler m)
    (rm_state m) (rm_initialized m).
Definition set_snapshot_file_size (x : Z) m : kvs_replication_manager_t W :=
  ReplicationManager (rm_role m) (rm_rdma_listener m) (rm_rdma_sync m) (rm_rdma_cleanup_connection m) (rm_rdma_port
    m) (rm_primary_rdma_port m) (rm_replication_offset m) x (rm_snapshot_reader m) (rm_aof_reader m)
    (rm_snapshot_writer m) (rm_snapshot_connection_fd m) (rm_replication_id m) (rm_full_sync_id m) (rm_primary_host
    m) (rm_primary_port m) (rm_primary_connection_fd m) (rm_snapshot_install_handler m) (rm_command_handler m)
    (rm_state m) (rm_initialized m).
Definition set_snapshot_reader (x : kvs_snapshot_reader_t) m : kvs_replication_manager_t W :=
  ReplicationManager (rm_role m) (rm_rdma_listener m) (rm_rdma_sync m) (rm_rdma_cleanup_connection m) (rm_rdma_port
    m) (rm_primary_rdma_port m) (rm_replication_offset m) (rm_snapshot_file_size m) x (rm_aof_reader m)
    (rm_snapshot_writer m) (rm_snapshot_connection_fd m) (rm_replication_id m) (rm_full_sync_id m) (rm_primary_host
    m) (rm_primary_port m) (rm_primary_connection_fd m) (rm_snapshot_install_handler m) (rm_command_handler m)
    (rm_state m) (rm_initialized m).
Definition set_aof_reader (x : kvs_aof_reader_t) m : kvs_replication_manager_t W :=
  ReplicationManager (rm_role m) (rm_rdma_listener m) (rm_rdma_sync m) (rm_rdma_cleanup_connection m) (rm_rdma_port
    m) (rm_primary_rdma_port m) (rm_replication_offset m) (rm_snapshot_file_size m) (rm_snapshot_reader m) x
    (rm_snapshot_writer m) (rm_snapshot_connection_fd m) (rm_replication_id m) (rm_full_sync_id m) (rm_primary_host
    m) (rm_primary_port m) (rm_primary_connection_fd m) (rm_snapshot_install_handler m) (rm_command_handler m)
    (rm_state m) (rm_initialized m).
Definition set_snapshot_writer (x : kvs_snapshot_writer_t) m : kvs_replication_manager_t W :=
  ReplicationManager (rm_role m) (rm_rdma_listener m) (rm_rdma_sync m) (rm_rdma_cleanup_connection m) (rm_rdma_port
    m) (rm_primary_rdma_port m) (rm_replication_offset m) (rm_snapshot_file_size m) (rm_snapshot_reader m)
    (rm_aof_reader m) x (rm_snapshot_connection_fd m) (rm_replication_id m) (rm_full_sync_id m) (rm_primary_host m)
    (rm_primary_port m) (rm_primary_connection_fd m) (rm_snapshot_install_handler m) (rm_command_handler m)
    (rm_state m) (rm_initialized m).
Definition set_snapshot_connection_fd (x : Z) m : kvs_replication_manager_t W :=
  ReplicationManager (rm_role m) (rm_rdma_listener m) (rm_rdma_sync m) (rm_rdma_cleanup_connection m) (rm_rdma_port
    m) (rm_primary_rdma_port m) (rm_replication_offset m) (rm_snapshot_file_size m) (rm_snapshot_reader m)
    (rm_aof_reader m) (rm_snapshot_writer m) x (rm_replication_id m) (rm_full_sync_id m) (rm_primary_host m)
    (rm_primary_port m) (rm_primary_connection_fd m) (rm_snapshot_install_handler m) (rm_command_handler m)
    (rm_state m) (rm_initialized m).
Definition set_replication_id (x : bytes) m : kvs_replication_manager_t W :=
  ReplicationManager (rm_role m) (rm_rdma_listener m) (rm_rdma_sync m) (rm_rdma_cleanup_connection m) (rm_rdma_port
    m) (rm_primary_rdma_port m) (rm_replication_offset m) (rm_snapshot_file_size m) (rm_snapshot_reader m)
    (rm_aof_reader m) (rm_snapshot_writer m) (rm_snapshot_connection_fd m) x (rm_full_sync_id m) (rm_primary_host m)
    (rm_primary_port m) (rm_primary_connection_fd m) (rm_snapshot_install_handler m) (rm_command_handler m)
    (rm_state m) (rm_initialized m).
Definition set_full_sync_id (x : bytes) m : kvs_replication_manager_t W :=
  ReplicationManager (rm_role m) (rm_rdma_listener m) (rm_rdma_sync m) (rm_rdma_cleanup_connection m) (rm_rdma_port
    m) (rm_primary_rdma_port m) (rm_replication_offset m) (rm_snapshot_file_size m) (rm_snapshot_reader m)
    (rm_aof_reader m) (rm_snapshot_writer m) (rm_snapshot_connection_fd m) (rm_replication_id m) x (rm_primary_host
    m) (rm_primary_port m) (rm_primary_connection_fd m) (rm_snapshot_install_handler m) (rm_command_handler m)
    (rm_state m) (rm_initialized m).
Definition set_primary_host (x : bytes) m : kvs_replication_manager_t W :=
  ReplicationManager (rm_role m) (rm_rdma_listener m) (rm_rdma_sync m) (rm_rdma_cleanup_connection m) (rm_rdma_port
    m) (rm_primary_rdma_port m) (rm_replication_offset m) (rm_snapshot_file_size m) (rm_snapshot_reader m)
    (rm_aof_reader m) (rm_snapshot_writer m) (rm_snapshot_connection_fd m) (rm_replication_id m) (rm_full_sync_id m)
    x (rm_primary_port m) (rm_primary_connection_fd m) (rm_snapshot_install_handler m) (rm_command_handler m)
    (rm_state m) (rm_initialized m).
Definition set_primary_port (x : Z) m : kvs_replication_manager_t W :=
  ReplicationManager (rm_role m) (rm_rdma_listener m) (rm_rdma_sync m) (rm_rdma_cleanup_connection m) (rm_rdma_port
    m) (rm_primary_rdma_port m) (rm_replication_offset m) (rm_snapshot_file_size m) (rm_snapshot_reader m)
    (rm_aof_reader m) (rm_snapshot_writer m) (rm_snapshot_connection_fd m) (rm_replication_id m) (rm_full_sync_id m)
    (rm_primary_host m) x (rm_primary_connection_fd m) (rm_snapshot_install_handler m) (rm_command_handler m)
    (rm_state m) (rm_initialized m).
Definition set_primary_connection_fd (x : Z) m : kvs_replication_manager_t W :=
  ReplicationManager (rm_role m) (rm_rdma_listener m) (rm_rdma_sync m) (rm_rdma_cleanup_connection m) (rm_rdma_port
    m) (rm_primary_rdma_port m) (rm_replication_offset m) (rm_snapshot_file_size m) (rm_snapshot_reader m)
    (rm_aof_reader m) (rm_snapshot_writer m) (rm_snapshot_connection_fd m) (rm_replication_id m) (rm_full_sync_id m)
    (rm_primary_host m) (rm_primary_port m) x (rm_snapshot_install_handler m) (rm_command_handler m) (rm_state m)
    (rm_initialized m).
Definition set_snapshot_install_handler (x : option (bytes → Z → M W Z)) m : kvs_replication_manager_t W :=
  ReplicationManager (rm_role m) (rm_rdma_listener m) (rm_rdma_sync m) (rm_rdma_cleanup_connection m) (rm_rdma_port
    m) (rm_primary_rdma_port m) (rm_replication_offset m) (rm_snapshot_file_size m) (rm_snapshot_reader m)
    (rm_aof_reader m) (rm_snapshot_writer m) (rm_snapshot_connection_fd m) (rm_replication_id m) (rm_full_sync_id m)
    (rm_primary_host m) (rm_primary_port m) (rm_primary_connection_fd m) x (rm_command_handler m) (rm_state m)
    (rm_initialized m).
Definition set_command_handler (x : option (addr → aof_replay_handler W)) m : kvs_replication_manager_t W :=
  ReplicationManager (rm_role m) (rm_rdma_listener m) (rm_rdma_sync m) (rm_rdma_cleanup_connection m) (rm_rdma_port
    m) (rm_primary_rdma_port m) (rm_replication_offset m) (rm_snapshot_file_size m) (rm_snapshot_reader m)
    (rm_aof_reader m) (rm_snapshot_writer m) (rm_snapshot_connection_fd m) (rm_replication_id m) (rm_full_sync_id m)
    (rm_primary_host m) (rm_primary_port m) (rm_primary_connection_fd m) (rm_snapshot_install_handler m) x (rm_state
    m) (rm_initialized m).
Definition set_state (x : kvs_replication_state_t) m : kvs_replication_manager_t W :=
  ReplicationManager (rm_role m) (rm_rdma_listener m) (rm_rdma_sync m) (rm_rdma_cleanup_connection m) (rm_rdma_port
    m) (rm_primary_rdma_port m) (rm_replication_offset m) (rm_snapshot_file_size m) (rm_snapshot_reader m)
    (rm_aof_reader m) (rm_snapshot_writer m) (rm_snapshot_connection_fd m) (rm_replication_id m) (rm_full_sync_id m)
    (rm_primary_host m) (rm_primary_port m) (rm_primary_connection_fd m) (rm_snapshot_install_handler m)
    (rm_command_handler m) x (rm_initialized m).
Definition set_initialized (x : bool) m : kvs_replication_manager_t W :=
  ReplicationManager (rm_role m) (rm_rdma_listener m) (rm_rdma_sync m) (rm_rdma_cleanup_connection m) (rm_rdma_port
    m) (rm_primary_rdma_port m) (rm_replication_offset m) (rm_snapshot_file_size m) (rm_snapshot_reader m)
    (rm_aof_reader m) (rm_snapshot_writer m) (rm_snapshot_connection_fd m) (rm_replication_id m) (rm_full_sync_id m)
    (rm_primary_host m) (rm_primary_port m) (rm_primary_connection_fd m) (rm_snapshot_install_handler m)
    (rm_command_handler m) (rm_state m) x.
End setters.

(** The static initialiser of [replication_manager]. *)
Definition replication_manager_zero {W} : kvs_replication_manager_t W :=
  ReplicationManager KVS_ROLE_STANDALONE None rdma_sync_zero None 0 0 0 (-1) reader_closed (AofReader (-1) 0 0)
    writer_closed (-1) [] [] [] 0 (-1) None None KVS_REPLICATION_STATE_DISCONNECTED false.

Definition link_of {W} (m : kvs_replication_manager_t W) : replication_link :=
  ReplicationLink (rm_initialized m) (rm_role m) (rm_primary_connection_fd m) (rm_state m).

(** A server, its replication manager and its transport. *)
Record node (RT D E T : Type) := Node {
  nd_server : server RT D E;
  nd_rep : kvs_replication_manager_t (server RT D E);
  nd_rdma : T;
}.
Arguments Node {_ _ _ _}.
Arguments nd_server {_ _ _ _}.
Arguments nd_rep {_ _ _ _}.
Arguments nd_rdma {_ _ _ _}.

Section ops.
Context `{CRuntime RT} `{Os D} `{Rdma T} {E : Type}.
Notation W := (server RT D E).
Notation N := (node RT D E T).
Notation manager_t := (kvs_replication_manager_t W).

Definition with_link (l : replication_link) (w : W) : W :=
  Server (sv_io w) (sv_engines w) (kvs_server_role w) (kvs_persistence_mode w) l.
Definition put_server (w : W) (n : N) : N := Node w (nd_rep n) (nd_rdma n).
Definition put_rdma (t : T) (n : N) : N := Node (nd_server n) (nd_rep n) t.
Definition put_manager (m : manager_t) (n : N) : N := Node (with_link (link_of m) (nd_server n)) m (nd_rdma n).

Definition on_server {X} (m : M W X) : M N X := zoom nd_server put_server m.
Definition on_rdma {X} (m : M T X) : M N X := zoom nd_rdma put_rdma m.
Definition node_put_os (d : D) (n : N) : N :=
  put_server (Server (put_os d (sv_io (nd_server n))) (sv_engines (nd_server n)) (kvs_server_role (nd_server n))
    (kvs_persistence_mode (nd_server n)) (sv_link (nd_server n))) n.
Definition on_files {X} (m : M D X) : M N X := zoom (λ n, p_os (sv_io (nd_server n))) node_put_os m.

(** The global [replication_manager]. *)
Definition manager : M N manager_t := gets nd_rep.
Definition update (f : manager_t → manager_t) : M N unit := modify (λ n, put_manager (f (nd_rep n)) n).
Definition update_sync (f : kvs_replication_rdma_sync_t → kvs_replication_rdma_sync_t) : M N unit :=
  update (λ m, set_rdma_sync (f (rm_rdma_sync m)) m).
Definition aof_offset : M N Z := gets (λ n, kvs_aof_get_offset (sv_io (nd_server n))).
End ops.

(** The copy of the link is up to date. *)
Definition linked {RT D E T} (n : node RT D E T) : Prop := sv_link (nd_server n) = link_of (nd_rep n).

(** * Steps *)

Lemma wpx_zoom {S A X} (get : S → A) put (m : M A X) s (Q : X → S → Prop) (G : S → Prop) :
  wpx m (get s) (λ x a, Q x (put a s)) (λ a, G (put a s)) → wpx (zoom get put m) s Q G.
Proof. unfold wpx, zoom. by destruct (m (get s)). Qed.

Lemma wpx_bind_assoc {V X Y Z'} (m : M V X) (f : X → M V Y) (g : Y → M V Z') v (Q : Z' → V → Prop) (G : V → Prop) :
  wpx ((m ≫= f) ≫= g) v Q G ↔ wpx (m ≫= (λ x, f x ≫= g)) v Q G.
Proof. unfold wpx. by rewrite bind_assoc. Qed.

Section steps.
Context `{CRuntime RT} `{Os D} `{Rdma T} {E : Type}.
Notation W := (server RT D E).
Notation N := (node RT D E T).
Notation manager_t := (kvs_replication_manager_t W).
Implicit Types (n : N) (m : manager_t).

Lemma step_manager {X} (k : manager_t → M N X) n Q G : wpx (k (nd_rep n)) n Q G → wpx (manager ≫= k) n Q G.
Proof. done. Qed.

Lemma step_put {X} f (k : unit → M N X) n Q G : wpx (k tt) (put_manager (f (nd_rep n)) n) Q G → wpx (update f ≫= k) n Q G.
Proof. done. Qed.

Lemma step_update_sync {X} f (k : unit → M N X) n Q G :
  wpx (k tt) (put_manager (set_rdma_sync (f (rm_rdma_sync (nd_rep n))) (nd_rep n)) n) Q G → wpx (update_sync f ≫= k) n Q G.
Proof. done. Qed.

Lemma wpx_update f n (Q : unit → N → Prop) G : Q tt (put_manager (f (nd_rep n)) n) → wpx (update f) n Q G.
Proof. done. Qed.

Lemma step_offset {X} (k : Z → M N X) n Q G :
  wpx (k (kvs_aof_get_offset (sv_io (nd_server n)))) n Q G → wpx (aof_offset ≫= k) n Q G.
Proof. done. Qed.

Lemma step_files {X Y} (m : M D X) (k : X → M N Y) n P Q G :
  wp m (p_os (sv_io (nd_server n))) P → (∀ x d, P x d → wpx (k x) (node_put_os d n) Q G) → wpx (on_files m ≫= k) n Q G.
Proof.
  unfold wp, wpx, on_files, zoom, mbind, M_bind. intros Hm Hk. destruct (m (p_os (sv_io (nd_server n)))); [by apply Hk|done..].
Qed.

Lemma step_rdma {X Y} (m : M T X) (k : X → M N Y) n P Q G :
  wp m (nd_rdma n) P → (∀ x t, P x t → wpx (k x) (put_rdma t n) Q G) → wpx (on_rdma m ≫= k) n Q G.
Proof. unfold wp, wpx, on_rdma, zoom, mbind, M_bind. intros Hm Hk. destruct (m (nd_rdma n)); [by apply Hk|done..]. Qed.

Lemma step_server {X Y} (m : M W X) (k : X → M N Y) n P R Q (G : N → Prop) :
  wpx m (nd_server n) P R → (∀ x w, P x w → wpx (k x) (put_server w n) Q G) → (∀ w, R w → G (put_server w n)) →
  wpx (on_server m ≫= k) n Q G.
Proof. unfold wpx, on_server, zoom, mbind, M_bind. intros Hm Hk HG. destruct (m (nd_server n)); [by apply Hk|by apply HG|done]. Qed.
End steps.

(** * The fields after an assignment *)

Section node_fields.
Context {RT D E T : Type}.
Notation N := (node RT D E T).
Implicit Types (n : N) (d : D).

Lemma put_manager_put m m' n : put_manager m (put_manager m' n) = put_manager m n.
Proof. done. Qed.
Lemma put_manager_os m d n : node_put_os d (put_manager m n) = put_manager m (node_put_os d n).
Proof. done. Qed.
Lemma put_os_os d d' n : node_put_os d (node_put_os d' n) = node_put_os d n.
Proof. done. Qed.
Lemma put_rdma_manager m t n : put_rdma t (put_manager m n) = put_manager m (put_rdma t n).
Proof. done. Qed.
Lemma put_rdma_os t d n : put_rdma t (node_put_os d n) = node_put_os d (put_rdma t n).
Proof. done. Qed.
Lemma put_rdma_rdma t t' n : put_rdma t (put_rdma t' n) = put_rdma t n.
Proof. done. Qed.
Lemma rep_put_manager m n : nd_rep (put_manager m n) = m.
Proof. done. Qed.
Lemma rep_put_os d n : nd_rep (node_put_os d n) = nd_rep n.
Proof. done. Qed.
Lemma rep_put_rdma t n : nd_rep (put_rdma t n) = nd_rep n.
Proof. done. Qed.
Lemma rdma_put_manager m n : nd_rdma (put_manager m n) = nd_rdma n.
Proof. done. Qed.
Lemma rdma_put_os d n : nd_rdma (node_put_os d n) = nd_rdma n.
Proof. done. Qed.
Lemma rdma_put_rdma t n : nd_rdma (put_rdma t n) = t.
Proof. done. Qed.
End node_fields.

(** One manager over one transport over one disk. *)
#[export] Hint Rewrite @put_manager_put @put_manager_os @put_os_os @put_rdma_manager @put_rdma_os @put_rdma_rdma @rep_put_manager
  @rep_put_os @rep_put_rdma @rdma_put_manager @rdma_put_os @rdma_put_rdma : node.
Ltac node_simpl := autorewrite with node.
