(* ===== verification/Execute.v ===== *)
(** The execution of one command, src/kvstore.c: what [kvs_execute_fields] does for
    every kind of command, from the copying of the fields to the reply, and the
    properties of the executor.  The definitions are those of Kvstore. *)

From Stdlib Require Import ZArith Lia.
From S2P Require Import Prelude Runtime RbEngine Engine Codec ArrayEngine HashEngine SkipList Kvengine Buffer Os MappedFile Aof SnapshotFormat SnapshotStore SnapshotLoad Kvstore.

(** * Tokens and replies *)

Section tokens_spec.
Context `{CRuntimeLaws RT}.
Implicit Types (own : list addr) (F : gset addr) (w : RT) (toks : list cstr).

Definition slot_blocks (slots : list (option cstr)) : list addr := omap (fmap cs_addr) slots.

Lemma slot_blocks_tokens toks n : slot_blocks ((Some <$> toks) ++ replicate n None) = cs_addr <$> toks.
Proof.
  unfold slot_blocks. rewrite omap_app.
  assert (omap (fmap cs_addr) (replicate n (@None cstr)) = []) as -> by (by induction n).
  rewrite app_nil_r. induction toks as [|t toks IH]; [done|]. cbn. by f_equal.
Qed.

Lemma free_slots_spec slots own F w :
  owns (slot_blocks slots ++ own) F w →
  wp (free_slots slots) w (λ _ w', owns own F w' ∧ (roomy w → roomy w')).
Proof.
  revert w. induction slots as [|[t|] slots IH]; intros w Hw; cbn [free_slots].
  - by apply wp_ret.
  - eapply wp_step; [by apply (wp_free _ (slot_blocks slots ++ own) F)|]. intros _ w1 [Hw1 Hr1].
    eapply wp_mono; [by apply IH|]. naive_solver.
  - eapply wp_step; [by apply (wp_free_null (slot_blocks slots ++ own) F)|]. intros _ w1 [Hw1 Hr1].
    eapply wp_mono; [by apply IH|]. naive_solver.
Qed.

Lemma free_tokens_spec toks own F w :
  owns ((cs_addr <$> toks) ++ own) F w →
  wp (free_slots (Some <$> toks)) w (λ _ w', owns own F w' ∧ (roomy w → roomy w')).
Proof.
  intros Hw. apply free_slots_spec. pose proof (slot_blocks_tokens toks 0) as E. cbn in E. rewrite app_nil_r in E.
  by rewrite E.
Qed.

Definition field_good (f : kvs_slice_t) : Prop := field_bad f = false ∧ field_has_nul f = false.

Lemma copy_fields_spec fields toks own F w :
  owns ((cs_addr <$> toks) ++ own) F w →
  wp (copy_fields fields toks) w (λ r w', (roomy w → roomy w') ∧
    match r with
    | Some toks' => owns ((cs_addr <$> toks') ++ own) F w' ∧
        cs_str <$> toks' = (cs_str <$> toks) ++ (slice_bytes <$> fields)
    | None => owns own F w' ∧ ¬ (roomy w ∧ Forall field_good fields)
    end).
Proof.
  revert toks w. induction fields as [|f fields IH]; intros toks w Hw; cbn [copy_fields].
  { apply wp_ret. by rewrite app_nil_r. }
  cbv zeta. set (fail := _;; mret None).
  assert (∀ w1, owns ((cs_addr <$> toks) ++ own) F w1 → (roomy w → roomy w1) → ¬ (roomy w ∧ Forall field_good (f :: fields)) →
    wp fail w1 (λ r w', (roomy w → roomy w') ∧ match r with
      | Some toks' => owns ((cs_addr <$> toks') ++ own) F w' ∧ cs_str <$> toks' = (cs_str <$> toks) ++ (slice_bytes <$> f :: fields)
      | None => owns own F w' ∧ ¬ (roomy w ∧ Forall field_good (f :: fields)) end)) as Hfail.
  { intros w1 Hw1 Hr Hbad. unfold fail. eapply wp_step.
    - apply (free_slots_spec _ own F). by rewrite slot_blocks_tokens.
    - intros _ w2 [Hw2 Hr2]. apply wp_ret. naive_solver. }
  destruct (field_bad f || field_has_nul f) eqn:Hb.
  { apply Hfail; [done|done|]. intros [_ [[H1 H2] _]%Forall_cons]. rewrite H1, H2 in Hb. done. }
  apply orb_false_iff in Hb.
  eapply wp_step; [by apply wp_malloc_copy|]. intros [t|] w1 [Hw1 Hr1]; cycle 1.
  { apply Hfail; naive_solver. }
  destruct Hw1 as [Hs Hw1]. eapply wp_mono; [apply IH; revert Hw1; apply owns_perm; rewrite fmap_app; cbn; solve_Permutation|].
  intros [toks'|] w2 [Hr2 Hpost]; (split; [naive_solver|]).
  - rewrite fmap_app, <- app_assoc in Hpost. cbn in Hpost. by rewrite Hs in Hpost.
  - destruct Hpost as [Ho Hno]. split; [done|]. intros [Hroom [_ Hall]%Forall_cons]. apply Hno. split; [by apply Hr1|done].
Qed.

Lemma fields_to_tokens_spec fields own F w :
  1 ≤ zlen fields ≤ KVS_MAX_TOKENS → owns own F w →
  wp (kvs_fields_to_tokens fields KVS_MAX_TOKENS) w (λ r w', (roomy w → roomy w') ∧
    match r with
    | Some toks => owns ((cs_addr <$> toks) ++ own) F w' ∧ cs_str <$> toks = slice_bytes <$> fields
    | None => owns own F w' ∧ ¬ (roomy w ∧ Forall field_good fields)
    end).
Proof.
  intros Hl Hw. unfold kvs_fields_to_tokens.
  rewrite (proj2 (Z.eqb_neq _ 0)), (proj2 (Z.ltb_ge _ _)) by lia. by apply (copy_fields_spec fields [] own F w).
Qed.
End tokens_spec.

Lemma store_take at_ (s block : list (option byte)) :
  0 ≤ at_ → at_ + zlen s ≤ zlen block →
  take (Z.to_nat (at_ + zlen s)) (store at_ s block) = take (Z.to_nat at_) block ++ s.
Proof.
  intros Ha Hs. unfold store. rewrite app_assoc. rewrite take_app_length'; [done|].
  rewrite length_app, length_take. unfold zlen in *. lia.
Qed.

Lemma write_reply_spec {V} b s (v : V) :
  reply_buffer b → zlen s ≤ reply_capacity b →
  wp (write_reply b s) v (λ b' v', v' = v ∧ replied b s b' ∧ o_capacity b' = o_capacity b ∧
    owned (o_data b') = owned (o_data b)).
Proof.
  intros ((Hl & Hc & Hd) & Ho & [[p block] Eb]) Hs. unfold write_reply, reply_capacity in *. rewrite Eb in *.
  destruct Hd as [Hpos Hlen]. eapply wp_eq; [done|]. cbv beta iota.
  rewrite (proj2 (Z.ltb_ge _ 0)), (proj2 (Z.ltb_ge _ _)) by lia. cbn [orb]. apply wp_ret.
  assert (zlen (Some <$> s) = zlen s) as Hz by apply zlen_fmap.
  split; [done|]. split; [|by cbn].
  split; [split; [|split; [done|by eexists]]|].
  - split; [cbn; lia|]. split; [done|]. cbn. rewrite zlen_store; lia.
  - cbn. split_and!; [done|done|lia|]. rewrite Eb, <- Hz. cbn [contents]. apply store_take; lia.
Qed.

Lemma copy_reply_spec {V} b s (v : V) :
  reply_buffer b →
  wp (copy_reply b s) v (λ '(r, b') v', v' = v ∧ owned (o_data b') = owned (o_data b) ∧ reply_buffer b' ∧
    if zlen s <=? reply_capacity b then r = zlen s ∧ replied b s b' else r = -1 ∧ b' = b).
Proof.
  intros Hb. unfold copy_reply. destruct (Z.ltb_spec (reply_capacity b) (zlen s)).
  - rewrite (proj2 (Z.leb_gt _ _)) by lia. by apply wp_ret.
  - rewrite (proj2 (Z.leb_le _ _)) by lia. eapply wp_step; [by apply write_reply_spec|].
    intros b' v' (-> & Hr & _ & Hown). apply wp_ret. split_and!; [done|done|apply Hr|done|done].
Qed.

Lemma replied_content b s b' : reply_buffer b → replied b s b' →
  take (Z.to_nat (o_length b)) (contents (o_data b')) = take (Z.to_nat (o_length b)) (contents (o_data b)).
Proof.
  intros ((Hl & _ & Hd) & _ & [[p block] Eb]) (_ & _ & _ & _ & Ht). pose proof (zlen_nonneg s). rewrite Eb in *.
  apply (f_equal (take (Z.to_nat (o_length b)))) in Ht. rewrite take_take in Ht.
  replace (Z.to_nat (o_length b) `min` Z.to_nat (o_length b + zlen s))%nat with (Z.to_nat (o_length b)) in Ht by lia.
  rewrite Ht. rewrite take_app_length'; [done|]. rewrite length_take. cbn [contents]. unfold zlen in *. lia.
Qed.

Lemma replied_trans b s1 b1 s2 b2 : reply_buffer b → replied b s1 b1 → replied b1 s2 b2 → replied b s2 b2.
Proof.
  intros Hb H1 H2. pose proof (replied_content _ _ _ Hb H1) as E. destruct H1 as (_ & Hl1 & Ho1 & _).
  destruct H2 as (H2 & Hl2 & Ho2 & Hc2 & Ht2). rewrite Hl1 in *.
  split_and!; [done|congruence|congruence|done|]. by rewrite Ht2, E.
Qed.

(** The text of a value reply. *)
Definition value_text (v : bytes) : bytes := write_field (slice_of v).
Definition nil_text : bytes := lit "$-1" ++ crlf.

Section value_spec.
Context `{CRuntimeLaws RT}.
Implicit Types (own : list addr) (F : gset addr) (w : RT) (b : kvs_output_buffer_t).

Lemma output_grow_spec b n own F w :
  reply_buffer b → 0 < n → owns (owned (o_data b) ++ own) F w →
  wp (kvs_output_buffer_ensure_space b n) w (λ '(r, b') w',
    owns (owned (o_data b') ++ own) F w' ∧ (roomy w → roomy w' ∧ (o_length b + n ≤ INT_MAX → r = 0)) ∧
    (r = 0 ∧ reply_buffer b' ∧ n ≤ reply_capacity b' ∧ o_length b' = o_length b ∧ o_offset b' = o_offset b ∧
       take (Z.to_nat (o_length b)) (contents (o_data b')) = take (Z.to_nat (o_length b)) (contents (o_data b)) ∨
     r = -1 ∧ b' = b)).
Proof.
  intros (Hok & Hoff & Hsome) Hn Hw. unfold kvs_output_buffer_ensure_space.
  rewrite !(proj2 (Z.ltb_ge _ _)) by lia. cbn [orb].
  apply owns_app in Hw as (Hw & Hnd & Hf).
  eapply wp_step; [by apply ensure_spec|]. intros [r [d c]] w' (Hw' & Hroom & Hr). apply wp_ret. cbn [o_data].
  split; [by apply owns_app|]. split; [done|].
  destruct Hr as [(-> & Hok' & Hcap & Ht)|(-> & -> & ->)]; [left|right; split; [done|by destruct b]].
  split; [done|]. split; [|done]. split; [done|]. split; [done|]. cbn.
  destruct d as [x|]; [by eexists|]. destruct Hok' as (Hl & _ & ->), Hok as (Hl' & _ & Hd).
  cbn in Ht. destruct Hsome as [[p block] Eb]. rewrite Eb in Hd. lia.
Qed.

Lemma decimal_digits_nonneg x : 0 ≤ decimal_digits x.
Proof.
  unfold decimal_digits. assert (∀ fuel y d, 0 ≤ d → 0 ≤ decimal_digits_loop fuel y d) as Hd; [|by apply Hd].
  induction fuel as [|fuel IH]; intros y d Hd; cbn [decimal_digits_loop]; [done|]. destruct (10 <=? y); [apply IH; lia|done].
Qed.

Lemma value_text_length v : zlen v < zlen (value_text v).
Proof.
  unfold value_text, write_field. rewrite slice_bytes_of. autorewrite with zlen. change (zlen crlf) with 2.
  pose proof (zlen_nonneg (write_decimal (Codec.length (slice_of v)))). lia.
Qed.

Lemma value_size v : kvs_encoded_value_response_size (slice_of v) =
  if zlen (value_text v) <=? SIZE_MAX then Some (zlen (value_text v)) else None.
Proof.
  unfold kvs_encoded_value_response_size. cbn [Codec.data slice_of].
  destruct (Z.le_gt_cases (zlen v) SIZE_MAX) as [Hle|Hgt].
  - apply (encoded_field_size_spec (slice_of v)). by exists v.
  - pose proof (value_text_length v). rewrite (proj2 (Z.leb_gt _ _)) by lia.
    change (Codec.length (slice_of v)) with (zlen v). unfold encoded_field_size. cbv zeta.
    pose proof (decimal_digits_nonneg (zlen v)). by rewrite (proj2 (Z.ltb_lt _ _)) by lia.
Qed.

Lemma value_encoding v cap : zlen (value_text v) ≤ SIZE_MAX → zlen (value_text v) ≤ cap →
  kvs_encode_value_response (slice_of v) cap = Some (value_text v).
Proof.
  intros H1 H2. unfold kvs_encode_value_response. rewrite value_size, (proj2 (Z.leb_le _ _)) by lia.
  by rewrite (proj2 (Z.ltb_ge _ _)) by lia.
Qed.

Lemma kept_refl b : reply_buffer b → kept b b.
Proof. done. Qed.

Lemma replied_kept b b1 s b2 : kept b b1 → replied b1 s b2 → replied b s b2.
Proof.
  intros (H1 & Hl1 & Ho1 & Ht1) (H2 & Hl2 & Ho2 & Hc2 & Ht2). rewrite Hl1 in *.
  split_and!; [done|congruence|congruence|done|]. by rewrite Ht2, Ht1.
Qed.

Lemma replied_is_kept b s b' : reply_buffer b → replied b s b' → kept b b'.
Proof. intros Hb Hr. pose proof (replied_content _ _ _ Hb Hr) as Ht. destruct Hr as (H1 & H2 & H3 & _). done. Qed.

(** A value reply grows the buffer as needed. *)
Lemma encode_value_spec b v own F w :
  reply_buffer b → owns (owned (o_data b) ++ own) F w →
  wp (kvs_encode_value_to_output b v) w (λ '(r, b') w',
    owns (owned (o_data b') ++ own) F w' ∧ (roomy w → roomy w') ∧
    (r = zlen (value_text v) ∧ replied b (value_text v) b' ∨ r = -1 ∧ kept b b') ∧
    (roomy w → o_length b + zlen (value_text v) ≤ INT_MAX → r ≠ -1)).
Proof.
  intros Hb Hw. pose proof Hb as ((Hl & Hc & _) & _ & _). unfold kvs_encode_value_to_output.
  rewrite !(proj2 (Z.ltb_ge _ _)) by lia. cbn [orb]. cbv zeta. rewrite value_size.
  pose proof (value_text_length v). pose proof (zlen_nonneg v).
  destruct (Z.leb_spec (zlen (value_text v)) SIZE_MAX); cycle 1.
  { apply wp_ret. split_and!; [done|done|right; split; [done|by apply kept_refl]|]. unfold SIZE_MAX, INT_MAX in *. lia. }
  destruct (Z.ltb_spec (INT_MAX - o_length b) (zlen (value_text v))).
  { apply wp_ret. split_and!; [done|done|right; split; [done|by apply kept_refl]|]. lia. }
  eapply wp_step; [by apply (output_grow_spec b _ own F); [|lia|]|]. intros [r b1] w1 (Hw1 & Hr1 & Hpost).
  destruct Hpost as [(-> & Hb1 & Hcap & Hl1 & Ho1 & Ht1)|[-> ->]]; cbn [Z.ltb Z.compare]; cycle 1.
  { apply wp_ret. split_and!; [done|naive_solver|right; split; [done|by apply kept_refl]|]. intros Hroom Hle.
    apply Hr1 in Hroom as [_ Hroom]. specialize (Hroom Hle). done. }
  rewrite value_encoding by (done || unfold reply_capacity in Hcap; lia).
  eapply wp_step; [by apply write_reply_spec|]. intros b2 w2 (-> & Hrep & _ & Hown).
  rewrite (proj2 (Z.ltb_ge INT_MAX _)) by lia. apply wp_ret. rewrite Hown.
  split_and!; [done|naive_solver| |lia]. left. split; [done|]. by eapply replied_kept.
Qed.
End value_spec.

(** * Executing a command on the engines *)

Section switch_spec.
Context `{CRuntimeLaws RT} {Ea Er Eh Es : Type}
  `{!Engine RT Ea} `{!Engine RT Er} `{!Engine RT Eh} `{!Engine RT Es}
  `{!EngineLaws RT Ea} `{!EngineLaws RT Er} `{!EngineLaws RT Eh} `{!EngineLaws RT Es}.
Notation engines := (kv_engines Ea Er Eh Es).
Notation engine_type := (@engine_type Ea Er Eh Es).
Notation apply_write := (apply_write (RT := RT) (Ea := Ea) (Er := Er) (Eh := Eh) (Es := Es)).
Notation write_ret := (write_ret (RT := RT) (Ea := Ea) (Er := Er) (Eh := Eh) (Es := Es)).
Implicit Types (es : engines) (own : list addr) (F : gset addr) (w : RT) (ts : list bytes).

(** The key of the command is one its engine accepts. *)
Definition key_ok ts : Prop := eng_key (E := engine_type (cmd_engine (cmd_of ts))) (arg 1 ts).

Definition present ts es : bool :=
  bool_decide (is_Some (engine_maps es (cmd_engine (cmd_of ts)) !! arg 1 ts)).

Definition write_text (kind : cmd_kind_t) (ret : Z) : bytes :=
  match kind with CMD_SET => set_text ret | _ => change_text ret end.

(** The outcome of a write on the engines. *)
Definition written ts es (ret : Z) es' : Prop :=
  ∃ applied, write_ret (cmd_engine (cmd_of ts)) (cmd_kind (cmd_of ts)) (present ts es) applied ret ∧
    if applied : bool then ∃ ms, apply_write ts (engine_maps es) = Some ms ∧ maps_eq (engine_maps es') ms
    else maps_eq (engine_maps es') (engine_maps es).

Lemma switch_set_spec ts es own F w :
  cmd_kind (cmd_of ts) = CMD_SET → key_ok ts → engines_wf es → owns (own ++ engines_owned es) F w →
  wp (filter_switch (cmd_of ts) (Some (arg 1 ts)) (Some (arg 2 ts)) es) w (λ '(ret, text, es') w',
    engines_keep own F w es' w' ∧ text = set_text ret ∧ written ts es ret es' ∧
    (roomy w → is_Some (apply_write ts (engine_maps es)) → ret = 0)).
Proof.
  intros Hk Hkey Hwf Hw. unfold filter_switch, written, write_ret, apply_write. cbv zeta. rewrite Hk.
  set (i := cmd_engine (cmd_of ts)) in *.
  eapply wp_step.
  { apply (wp_on_engine i _ (λ r m', (r = 0 ∧ set_result (E := engine_type i) (engine_maps es i) (arg 1 ts) = 0 ∧
        m' = <[arg 1 ts := arg 2 ts]> (engine_maps es i) ∨ r < 0 ∧ m' = engine_maps es i) ∧
      (roomy w → r = set_result (E := engine_type i) (engine_maps es i) (arg 1 ts))) own es F w Hwf Hw).
    intros F' Hw'. eapply wp_mono; [by apply eng_set_law|]. intros [r e'] w' (H1 & H2 & H3). done. }
  intros [r es'] w' (Hkeep & m' & (Hr & Hroom) & Hm). apply wp_ret. split; [done|]. split; [done|].
  destruct Hr as [(-> & Hset & ->)|[Hr ->]].
  - split; [|done]. exists true. split; [split; [done|lia]|]. eexists. by rewrite Hset.
  - split.
    + exists false. split; [split; [split; [lia|done]|lia]|]. rewrite Hm. by apply set_map_same.
    + intros Hro. rewrite <- Hroom by done. destruct (Z.eqb_spec r 0); [lia|]. intros [? [=]].
Qed.

Lemma lookup_present ts es :
  (if engine_maps es (cmd_engine (cmd_of ts)) !! arg 1 ts then true else false) = present ts es.
Proof. unfold present. case_match; [by rewrite bool_decide_eq_true_2 by eauto|by rewrite bool_decide_eq_false_2 by (intros [? [=]])]. Qed.

Lemma switch_del_spec ts v es own F w :
  cmd_kind (cmd_of ts) = CMD_DEL → key_ok ts → engines_wf es → owns (own ++ engines_owned es) F w →
  wp (filter_switch (cmd_of ts) (Some (arg 1 ts)) v es) w (λ '(ret, text, es') w',
    engines_keep own F w es' w' ∧ text = change_text ret ∧ written ts es ret es' ∧
    (is_Some (apply_write ts (engine_maps es)) → ret = 0)).
Proof.
  intros Hk Hkey Hwf Hw. unfold filter_switch, written, write_ret, apply_write. cbv zeta. rewrite Hk, <- lookup_present.
  set (i := cmd_engine (cmd_of ts)) in *.
  eapply wp_step.
  { apply (wp_on_engine i _ (λ r m', r = (if engine_maps es i !! arg 1 ts then 0 else eng_del_missing (E := engine_type i)) ∧
      m' = delete (arg 1 ts) (engine_maps es i)) own es F w Hwf Hw).
    intros F' Hw'. eapply wp_mono; [by apply eng_del_law|]. intros [r e'] w' (H1 & H2 & H3). done. }
  intros [r es'] w' (Hkeep & m' & (-> & ->) & Hm). apply wp_ret. split; [done|]. split; [done|].
  pose proof (eng_del_missing_nz (E := engine_type i)) as Hnz.
  destruct (engine_maps es i !! arg 1 ts) as [v'|] eqn:El.
  - split; [|done]. exists true. split; [split; [done|by split]|]. by eexists.
  - split; [|by intros [? [=]]]. exists false. split; [split; [split; [by intros ?%Hnz|done]|done]|].
    rewrite Hm. apply set_map_same. by apply delete_id.
Qed.

Lemma switch_mod_spec ts es own F w :
  cmd_kind (cmd_of ts) = CMD_MOD → key_ok ts → engines_wf es → owns (own ++ engines_owned es) F w →
  wp (filter_switch (cmd_of ts) (Some (arg 1 ts)) (Some (arg 2 ts)) es) w (λ '(ret, text, es') w',
    engines_keep own F w es' w' ∧ text = change_text ret ∧ written ts es ret es' ∧
    (roomy w → is_Some (apply_write ts (engine_maps es)) → ret = 0)).
Proof.
  intros Hk Hkey Hwf Hw. unfold filter_switch, written, write_ret, apply_write. cbv zeta. rewrite Hk, <- lookup_present.
  set (i := cmd_engine (cmd_of ts)) in *.
  eapply wp_step.
  { apply (wp_on_engine i _ (λ r m', match engine_maps es i !! arg 1 ts with
        | None => r = 1 ∧ m' = engine_maps es i
        | Some _ => (r = 0 ∧ m' = <[arg 1 ts := arg 2 ts]> (engine_maps es i) ∨ r = -2 ∧ m' = engine_maps es i) ∧ (roomy w → r = 0)
        end) own es F w Hwf Hw).
    intros F' Hw'. eapply wp_mono; [by apply eng_mod_law|]. intros [r e'] w' (H1 & H2). done. }
  intros [r es'] w' (Hkeep & m' & Hr & Hm). apply wp_ret. split; [done|]. split; [done|].
  destruct (engine_maps es i !! arg 1 ts) as [v'|] eqn:El.
  - destruct Hr as [[[-> ->]|[-> ->]] Hroom].
    + split; [|done]. exists true. split; [split; [done|by left]|]. by eexists.
    + split; [|by intros ?%Hroom]. exists false. split; [split; [done|by right]|]. rewrite Hm. by apply set_map_same.
  - destruct Hr as [-> ->]. split; [|by intros _ [? [=]]]. exists false. split; [split; [done|done]|]. rewrite Hm. by apply set_map_same.
Qed.

(** The three writes together. *)
Lemma switch_write_spec ts es own F w :
  well_formed ts → writes (cmd_kind (cmd_of ts)) = true → key_ok ts → engines_wf es → owns (own ++ engines_owned es) F w →
  wp (filter_switch (cmd_of ts) (ts !! 1%nat) (ts !! 2%nat) es) w (λ '(ret, text, es') w',
    engines_keep own F w es' w' ∧ text = write_text (cmd_kind (cmd_of ts)) ret ∧ written ts es ret es' ∧
    (roomy w → is_Some (apply_write ts (engine_maps es)) → ret = 0)).
Proof.
  intros Hts Hk Hkey Hwf Hw. apply well_formed_args in Hts as (-> & _ & Harg2).
  destruct (cmd_kind (cmd_of ts)) eqn:E; try done.
  - rewrite Harg2 by done. by apply switch_set_spec.
  - eapply wp_mono; [by apply switch_del_spec|]. intros [[ret text] es'] w' (H1 & H2 & H3 & H4). split_and!; auto.
  - rewrite Harg2 by done. by apply switch_mod_spec.
Qed.

Lemma switch_exist_spec ts v es w :
  cmd_kind (cmd_of ts) = CMD_EXIST → key_ok ts → engines_wf es →
  filter_switch (cmd_of ts) (Some (arg 1 ts)) v es w =
    Ok (if present ts es then 0 else 1, exist_text (if present ts es then 0 else 1), es) w.
Proof.
  intros Hk Hkey Hwf. unfold filter_switch. cbv zeta. rewrite Hk. unfold mbind, M_bind.
  rewrite eng_exist_law by (done || apply Hwf).
  change (eng_map (get_engine (cmd_engine (cmd_of ts)) es)) with (engine_maps es (cmd_engine (cmd_of ts))).
  rewrite <- lookup_present. by destruct (engine_maps es _ !! _).
Qed.

Lemma get_value_spec ts es w :
  well_formed ts → cmd_kind (cmd_of ts) = CMD_GET → key_ok ts → engines_wf es →
  kvs_get_value (cmd_of ts) (Some (arg 1 ts)) es w = Ok (engine_maps es (cmd_engine (cmd_of ts)) !! arg 1 ts) w.
Proof.
  intros Hr%well_formed_range Hk Hkey Hwf. unfold kvs_get_value.
  rewrite (proj2 (Z.leb_le _ _)), (proj2 (Z.ltb_lt _ _)), bool_decide_eq_true_2 by (done || lia). cbn [andb].
  by rewrite eng_get_law by (done || apply Hwf).
Qed.
End switch_spec.

(** * Executing a command on the server *)

Section execute_spec.
Context `{CRuntimeLaws RT} `{OsLaws D} {Ea Er Eh Es : Type}
  `{!Engine RT Ea} `{!Engine RT Er} `{!Engine RT Eh} `{!Engine RT Es}
  `{!EngineLaws RT Ea} `{!EngineLaws RT Er} `{!EngineLaws RT Eh} `{!EngineLaws RT Es}.
Notation engines := (kv_engines Ea Er Eh Es).
Notation engine_type := (@engine_type Ea Er Eh Es).
Notation W := (server RT D engines).
Notation apply_write := (apply_write (RT := RT) (Ea := Ea) (Er := Er) (Eh := Eh) (Es := Es)).
Notation write_ret := (write_ret (RT := RT) (Ea := Ea) (Er := Er) (Eh := Eh) (Es := Es)).
Notation key_ok := (key_ok (RT := RT) (Ea := Ea) (Er := Er) (Eh := Eh) (Es := Es)).
Implicit Types (es : engines) (w : W) (own : list addr) (F : gset addr) (ts : list bytes) (toks : list cstr) (f : bytes).

Definition heap w : RT := p_rt (sv_io w).
Definition disk w : D := p_os (sv_io w).
Definition maps w : kv_maps := engine_maps (sv_engines w).

(** The engines are well formed, and they and [own] are all that is allocated. *)
Definition data_ok own F w : Prop :=
  engines_wf (sv_engines w) ∧ owns (own ++ engines_owned (sv_engines w)) F (heap w).

(** What no operation changes or breaks. *)
Definition keeps w w' : Prop :=
  kvs_server_role w' = kvs_server_role w ∧ kvs_persistence_mode w' = kvs_persistence_mode w ∧ sv_link w' = sv_link w ∧
  (roomy (heap w) → roomy (heap w')) ∧ keeps_health (disk w) (disk w').

(** [w'] differs from [w] at most in the heap and the engines. *)
Definition same_files w w' : Prop := disk w' = disk w ∧ p_aof (sv_io w') = p_aof (sv_io w).

(** Successful writes of this source go to the log. *)
Definition logged (source : kvs_command_source_t) w : bool :=
  bool_decide (source ≠ KVS_COMMAND_SOURCE_RECOVERY) && bool_decide (kvs_persistence_mode w ≠ KVS_PERSISTENCE_SNAPSHOT).

(** The write commands are refused. *)
Definition read_only (source : kvs_command_source_t) w : bool :=
  bool_decide (kvs_server_role w = KVS_ROLE_REPLICA) && bool_decide (source = KVS_COMMAND_SOURCE_CLIENT).

(** There is room for the record of [ts] behind the log [f]. *)
Definition append_room f ts : Prop :=
  zlen (aof_record ts) ≤ SIZE_MAX ∧ zlen f + zlen (aof_record ts) ≤ INT64_MAX.

(** Outcome of a write: what the engine returned, the new data set and the log. *)
Definition executed own F f ts source w (ret : Z) w' : Prop :=
  keeps w w' ∧ data_ok own F w' ∧ written ts (sv_engines w) ret (sv_engines w') ∧
  (if (ret =? 0) && logged source w
   then aof_log (sv_io w') (f ++ aof_record ts) ∧ command_text ts (aof_record ts) ∧
        fd_written (disk w) (aw_fd (p_aof (sv_io w))) (f ++ aof_record ts) (disk w') ∧ zlen (f ++ aof_record ts) ≤ INT64_MAX
   else same_files w w') ∧
  (roomy (heap w) → is_Some (apply_write ts (maps w)) → ret = 0).

(** The process ends because a write could not be logged; the log holds every
    earlier record. *)
Definition append_failed f ts source w w' : Prop :=
  logged source w = true ∧ ¬ (roomy (heap w) ∧ healthy (disk w) ∧ append_room f ts) ∧
  ∃ f', fd_file (disk w') (aw_fd (p_aof (sv_io w))) = Some f' ∧ take (List.length f) f' = f.

Lemma keeps_refl w : keeps w w.
Proof. unfold keeps, keeps_health. naive_solver. Qed.

Lemma keeps_trans w1 w2 w3 : keeps w1 w2 → keeps w2 w3 → keeps w1 w3.
Proof. intros (?&?&?&?&?) (?&?&?&?&?). unfold keeps, keeps_health in *. split_and!; (congruence || auto). Qed.

(** An operation on the engines alone. *)
Lemma step_engines {X Y} (m : engines → M RT (X * engines)) (k : X → M W Y) w P Q G :
  wp (m (sv_engines w)) (heap w) P →
  (∀ x es r, P (x, es) r →
     wpx (k x) (Server (put_rt r (sv_io w)) es (kvs_server_role w) (kvs_persistence_mode w) (sv_link w)) Q G) →
  wpx (on_engines (λ es, on_rt (m es)) ≫= k) w Q G.
Proof.
  unfold wp, wpx, on_engines, on_io, on_rt, mbind, M_bind, gets, modify, zoom, heap. intros Hm Hk.
  destruct (m (sv_engines w) (p_rt (sv_io w))) as [[x es] r|r|]; [|done..]. by apply Hk.
Qed.

Lemma step_heap {X Y} (m : M RT X) (k : X → M W Y) w P Q G :
  wp m (heap w) P → (∀ x r, P x r → wpx (k x) (put_io (put_rt r (sv_io w)) w) Q G) → wpx (on_heap m ≫= k) w Q G.
Proof.
  unfold wp, wpx, on_heap, on_io, on_rt, mbind, M_bind, zoom, heap. intros Hm Hk.
  destruct (m (p_rt (sv_io w))); [|done..]. by apply Hk.
Qed.

Lemma step_io {X Y} (m : M (pworld RT D) X) (k : X → M W Y) w P Q G :
  wp m (sv_io w) P → (∀ x io, P x io → wpx (k x) (put_io io w) Q G) → wpx (on_io m ≫= k) w Q G.
Proof.
  unfold wp, wpx, on_io, mbind, M_bind, zoom. intros Hm Hk. destruct (m (sv_io w)); [|done..]. by apply Hk.
Qed.

Lemma written_ret ts es ret (es' : engines) : written ts es ret es' →
  (ret = 0 ∧ ∃ ms, apply_write ts (engine_maps es) = Some ms ∧ maps_eq (engine_maps es') ms) ∨
  (ret ≠ 0 ∧ maps_eq (engine_maps es') (engine_maps es)).
Proof. intros ([] & [Hz _] & Hm); [left|right]; naive_solver. Qed.

Lemma token_of toks ts i : cs_str <$> toks = ts → token toks i = ts !! i.
Proof. intros <-. unfold token. by rewrite list_lookup_fmap. Qed.

Lemma filter_write_spec ts toks cap source st own F f w :
  cs_str <$> toks = ts → well_formed ts → writes (cmd_kind (cmd_of ts)) = true → key_ok ts →
  Forall (λ t, zlen t ≤ SIZE_MAX) ts → 0 < cap → read_only source w = false →
  data_ok own F w → (logged source w = true → aof_log (sv_io w) f) →
  wpx (kvs_filter_protocol toks cap source st) w
    (λ '(len, stored, st') w', ∃ ret, executed own F f ts source w ret w' ∧
      (len, stored) = snprintf cap (write_text (cmd_kind (cmd_of ts)) ret) ∧ st' = filter_status (cmd_of ts) ret st)
    (append_failed f ts source w).
Proof.
  intros Htoks Hts Hk Hkey Hsz Hcap Hro [Hwf Hw] Hlog. pose proof (well_formed_range _ Hts) as Hr.
  pose proof (well_formed_args _ Hts) as (_ & Hlen & _).
  unfold kvs_filter_protocol. rewrite !(token_of toks ts) by done. cbv zeta.
  rewrite bool_decide_eq_false_2, (proj2 (Z.leb_gt _ _)) by
    (try lia; intros ->; subst ts; destruct Hts as (? & ? & ? & _); done). cbn [orb].
  change (command_id (default [] (ts !! O))) with (cmd_of ts).
  rewrite (proj2 (Z.eqb_neq _ _)) by lia. eapply wpx_eq; [done|]. cbv beta.
  unfold read_only in Hro. rewrite write_command_kind, Hk by done. rewrite Hro. cbn [andb].
  eapply step_engines.
  { by apply (switch_write_spec ts (sv_engines w) own F). }
  intros [ret text] es' r1 ((Hwf' & Hw' & Hr1) & -> & Hwr & Hroom).
  set (w1 := Server _ es' _ _ _). eapply wpx_eq; [done|]. cbv beta.
  change (kvs_persistence_mode w1) with (kvs_persistence_mode w).
  rewrite andb_true_r, <- andb_assoc. change (_ && _) with (logged source w) at 2.
  assert (keeps w w1) as Hk1 by (unfold keeps, keeps_health; naive_solver).
  destruct ((ret =? 0) && logged source w) eqn:Elog; cycle 1.
  { eapply wpx_eq; [done|]. apply wpx_ret. exists ret. split; [|done]. unfold executed. rewrite Elog.
    split_and!; done. }
  apply andb_true_iff in Elog as [Eret Elog]. specialize (Hlog Elog).
  eapply wpx_stepx.
  - eapply (step_io _ _ _ _ (λ _ w2, executed own F f ts source w ret w2) (append_failed f ts source w)).
    { assert ((Some ∘ cs_str) <$> toks = Some <$> ts) as -> by (rewrite <- Htoks; by rewrite list_fmap_compose).
      assert (zlen toks = zlen ts) as -> by (rewrite <- Htoks; by rewrite zlen_fmap).
      apply (append_spec (sv_io w1) f ts (own ++ engines_owned es') F); [done|done|done|].
      rewrite Hlen. destruct (cmd_kind (cmd_of ts)); cbn; lia. }
    intros r io' ((Ho & Hr2 & Hh2 & Hpost) & Hgood). unfold heap in *.
    destruct Hpost as [(-> & Ht & Hl & Hfd & Hmax)|(-> & Ha & Hn & Hf & f' & Hf' & Hp)].
    + apply wpx_ret. split; [split_and!; auto|]. split; [done|]. split; [done|]. by rewrite Eret, Elog.
    + split; [done|]. split; [|by exists f'].
      intros (Hg1 & Hg2 & Hg3 & Hg4). by specialize (Hgood (Hr1 Hg1) Hg2 Hg3 Hg4).
  - intros ? w2 Hex. apply wpx_ret. by exists ret.
Qed.

Definition with_heap (r : RT) w : W := put_io (put_rt r (sv_io w)) w.

Lemma replied_prefix b s t b' : reply_buffer b → replied b (s ++ t) b' → replied b s b'.
Proof.
  intros Hb Hr. pose proof (replied_content _ _ _ Hb Hr) as Hc. destruct Hr as (H3 & Hl & Ho & Hcap & Ht).
  pose proof (zlen_nonneg t). pose proof (zlen_nonneg s). rewrite zlen_app in *.
  destruct Hb as ((Hlb & _ & Hd) & _ & [[p block] Eb]). split_and!; [done|done|done|lia|].
  apply (f_equal (take (Z.to_nat (o_length b + zlen s)))) in Ht. rewrite take_take in Ht.
  replace (Z.to_nat (o_length b + zlen s) `min` Z.to_nat (o_length b + (zlen s + zlen t)))%nat
    with (Z.to_nat (o_length b + zlen s)) in Ht by lia.
  rewrite Ht, fmap_app, app_assoc. rewrite take_app_length'; [done|].
  rewrite length_app, length_take, length_fmap. rewrite Eb in *. cbn [contents]. unfold zlen in *. lia.
Qed.

(** The replies of the write commands, whose room is bounded. *)
Definition REPLY_ROOM : Z := 32.

Definition write_reply_text (source : kvs_command_source_t) ts (ret : Z) : bytes :=
  if bool_decide (source = KVS_COMMAND_SOURCE_CLIENT)
  then client_reply (cmd_of ts) (filter_status (cmd_of ts) ret KVS_EXEC_FAILED)
  else write_text (cmd_kind (cmd_of ts)) ret.

Lemma write_text_short k ret : 0 < zlen (write_text k ret) < REPLY_ROOM.
Proof. unfold write_text, set_text, change_text. destruct k; repeat case_match; by vm_compute. Qed.

Lemma client_reply_short cmd st : 0 < zlen (client_reply cmd st) < REPLY_ROOM.
Proof. unfold client_reply. repeat case_match; by vm_compute. Qed.

Lemma snprintf_spec cap text n stored : 0 < cap → zlen text ≤ INT_MAX → (n, stored) = snprintf cap text →
  n = zlen text ∧ zlen stored ≤ cap ∧ (zlen text < cap → stored = text ++ [NUL]).
Proof.
  intros Hcap Htext. unfold snprintf. rewrite (proj2 (Z.ltb_ge _ _)), (proj2 (Z.leb_gt _ _)) by lia. intros [= -> ->].
  split; [done|]. split.
  - unfold zlen. rewrite length_app, length_take. cbn. lia.
  - intros Hlt. rewrite take_ge; [done|]. unfold zlen in *. lia.
Qed.

(** The reply of a write and [*execution_status]. *)
Definition answered b source ts (ret r : Z) b' st : Prop :=
  kept b b' ∧ owned (o_data b') = owned (o_data b) ∧
  (r = zlen (write_reply_text source ts ret) ∧ replied b (write_reply_text source ts ret) b' ∧
     st = filter_status (cmd_of ts) ret KVS_EXEC_FAILED ∨ r = -1) ∧
  (REPLY_ROOM ≤ reply_capacity b → r ≠ -1).

(** A write behind the tests of [kvs_execute_fields]. *)
Lemma copied_write_spec ts toks b source own F f w :
  cs_str <$> toks = ts → well_formed ts → writes (cmd_kind (cmd_of ts)) = true → key_ok ts →
  Forall (λ t, zlen t ≤ SIZE_MAX) ts → reply_buffer b → read_only source w = false →
  data_ok own F w → (logged source w = true → aof_log (sv_io w) f) →
  wpx (execute_copied toks b source) w
    (λ '(r, b', st) w',
      (reply_capacity b ≤ 0 ∧ r = -1 ∧ w' = w ∧ kept b b' ∧ owned (o_data b') = owned (o_data b)) ∨
      ∃ ret, executed own F f ts source w ret w' ∧ answered b source ts ret r b' st)
    (append_failed f ts source w).
Proof.
  intros Htoks Hts Hk Hkey Hsz Hb Hro Hd Hlog. pose proof (well_formed_range _ Hts) as Hr.
  pose proof (well_formed_args _ Hts) as (_ & Hlen & _).
  destruct (table_not_reserved (default [] (ts !! O))) as [Hping Hsave]; [apply Hr|].
  unfold execute_copied. rewrite !(token_of toks ts) by done. cbv zeta.
  assert (zlen toks = zlen ts) as -> by (rewrite <- Htoks; by rewrite zlen_fmap).
  change (command_id (default [] (ts !! O))) with (cmd_of ts).
  rewrite Hping, Hsave, !andb_false_r. do 2 (eapply wpx_eq; [done|]; cbv beta).
  unfold read_only in Hro. rewrite (andb_comm (bool_decide (source = _))), Hro. cbn [andb].
  rewrite expected_arity, Hlen, Z.eqb_refl, andb_false_r.
  rewrite (proj2 (Z.eqb_neq _ KVS_CMD_COUNT)), andb_false_r by lia.
  rewrite get_command_kind by apply Hr. change (command_id (default [] (ts !! O))) with (cmd_of ts).
  rewrite (bool_decide_eq_false_2 (cmd_kind (cmd_of ts) = CMD_GET)) by (by intros E; rewrite E in Hk).
  rewrite andb_false_r. cbn [andb].
  assert (toks ≠ []) as Hne by (intros ->; subst ts; destruct Hts as (? & ? & ? & _); done).
  unfold kvs_execute_tokens. rewrite (bool_decide_eq_false_2 (toks = [])) by done. cbn [orb].
  destruct (Z.leb_spec (reply_capacity b) 0) as [Hcap|Hcap].
  { eapply wpx_eq; [done|]. cbv beta iota. eapply wpx_step; [by apply write_reply_spec; [|rewrite zlen_nil; unfold reply_capacity; destruct Hb as ((?&?&_)&_); lia]|].
    intros b1 w1 (-> & Hrep & _ & Hown). apply wpx_ret. left. split_and!; [done|done|done| |done].
    by eapply replied_is_kept. }
  eapply wpx_stepx.
  { eapply wpx_stepx; [by apply (filter_write_spec ts toks _ source _ own F f w)|].
    intros [[len stored] st] w1 (ret & Hex & Hsn & Hst).
    apply snprintf_spec in Hsn as (-> & Hcs & Hstored); [|done|pose proof (write_text_short (cmd_kind (cmd_of ts)) ret); unfold REPLY_ROOM, INT_MAX in *; lia].
    pose proof (write_text_short (cmd_kind (cmd_of ts)) ret). rewrite (proj2 (Z.ltb_ge _ 0)) by lia.
    instantiate (1 := λ '(len, stored, st) w1, ∃ ret, executed own F f ts source w ret w1 ∧
      zlen stored ≤ reply_capacity b ∧ st = filter_status (cmd_of ts) ret KVS_EXEC_FAILED ∧
      let text := write_text (cmd_kind (cmd_of ts)) ret in
      if reply_capacity b <=? zlen text then len = -1 else len = zlen text ∧ stored = text ++ [NUL]).
    destruct (Z.leb_spec (reply_capacity b) (zlen (write_text (cmd_kind (cmd_of ts)) ret))) as [Hle|Hlt];
      apply wpx_ret; exists ret; (split; [done|]; split; [done|]; split; [done|]); cbv zeta.
    - by rewrite (proj2 (Z.leb_le _ _)).
    - rewrite (proj2 (Z.leb_gt _ _)) by done. by split; [|apply Hstored]. }
  intros [[len stored] st] w1 (ret & Hex & Hcs & -> & Hlens). cbv beta iota.
  eapply wpx_step; [by apply write_reply_spec|]. intros b1 w1' (-> & Hrep & Hcap1 & Hown).
  pose proof (replied_is_kept _ _ _ Hb Hrep) as Hkept. cbv zeta in Hlens.
  pose proof (write_text_short (cmd_kind (cmd_of ts)) ret) as Hshort.
  assert (has_client_reply (cmd_of ts) = true) as ->.
  { unfold has_client_reply. rewrite (proj2 (Z.leb_le _ _)), (proj2 (Z.ltb_lt _ _)) by lia.
    by destruct (cmd_kind (cmd_of ts)). }
  destruct (Z.leb_spec (reply_capacity b) (zlen (write_text (cmd_kind (cmd_of ts)) ret))) as [Hle|Hlt].
  { subst len. apply wpx_ret. right. exists ret. split; [done|]. split_and!; [done|done|by right|]. unfold REPLY_ROOM in *. lia. }
  destruct Hlens as [-> ->]. rewrite (proj2 (Z.leb_le 0 _)) by lia. rewrite andb_true_r. cbn [andb].
  apply replied_prefix in Hrep; [|done]. unfold answered, write_reply_text. clear Hro. destruct (bool_decide (source = KVS_COMMAND_SOURCE_CLIENT)); cycle 1.
  { apply wpx_ret. right. exists ret. split; [done|]. split_and!; [done|done|by left|lia]. }
  eapply wpx_step; [apply (copy_reply_spec b1); apply Hkept|]. intros [r b2] w2 (-> & Hown2 & Hb2 & Hr2).
  assert (reply_capacity b1 = reply_capacity b) as Ecap by (unfold reply_capacity; destruct Hkept as (_ & -> & _); lia).
  rewrite Ecap in Hr2. apply wpx_ret. right. exists ret. split; [done|].
  pose proof (client_reply_short (cmd_of ts) (filter_status (cmd_of ts) ret KVS_EXEC_FAILED)).
  destruct (Z.leb_spec (zlen (client_reply (cmd_of ts) (filter_status (cmd_of ts) ret KVS_EXEC_FAILED))) (reply_capacity b)) as [Hfit|Hfit].
  - destruct Hr2 as [-> Hrep2]. pose proof (replied_trans _ _ _ _ _ Hb Hrep Hrep2) as Hrep3.
    split_and!; [by eapply replied_is_kept|congruence|left; split_and!; done|lia].
  - destruct Hr2 as [-> ->]. split_and!; [done|done|by right|]. unfold REPLY_ROOM in *. lia.
Qed.

(** ** Commands that change nothing *)

(** A replica that is not in step answers nothing but PING. *)
Definition loading w : bool :=
  bool_decide (kvs_server_role w = KVS_ROLE_REPLICA) && negb (kvs_replication_is_online (sv_link w)).

(** The reply to a client's command that is answered without touching the data. *)
Definition error_reply w ts : option bytes :=
  let name := default [] (ts !! O) in
  if streq name (lit "PING") then
    Some (if zlen ts =? 1 then lit "+PONG" ++ crlf else lit "-ERR wrong number of arguments for PING" ++ crlf)
  else if loading w then Some (lit "-LOADING replica synchronization in progress" ++ crlf)
  else if streq name (lit "SAVE") then
    if zlen ts =? 1 then None else Some (lit "-ERR wrong number of arguments for SAVE" ++ crlf)
  else if cmd_of ts =? KVS_CMD_COUNT then Some (lit "-ERR unknown command" ++ crlf)
  else if negb (zlen ts =? arity (cmd_kind (cmd_of ts))) then
    Some (lit "-ERR wrong number of arguments for " ++ name ++ crlf)
  else if bool_decide (kvs_server_role w = KVS_ROLE_REPLICA) && writes (cmd_kind (cmd_of ts)) then
    Some (client_reply (cmd_of ts) KVS_EXEC_FAILED)
  else None.

(** The buffer after an attempt to reply, and the result. *)
Definition reply_attempt b (reply : bytes) (r : Z) b' : Prop :=
  owned (o_data b') = owned (o_data b) ∧ kept b b' ∧ (r = zlen reply ∧ replied b reply b' ∨ r = -1) ∧
  (64 + zlen reply ≤ reply_capacity b → r ≠ -1).

Lemma copy_reply_attempt {V} b s (v : V) : reply_buffer b →
  wp (copy_reply b s) v (λ '(r, b') v', v' = v ∧ reply_attempt b s r b').
Proof.
  intros Hb. eapply wp_mono; [by apply copy_reply_spec|]. intros [r b'] v' (-> & Hown & Hb' & Hr).
  split; [done|]. pose proof (zlen_nonneg s). unfold reply_attempt.
  destruct (Z.leb_spec (zlen s) (reply_capacity b)); destruct Hr as [-> Hr].
  - split_and!; [done|by eapply replied_is_kept|by left|lia].
  - subst b'. split_and!; [done|done|by right|lia].
Qed.

Lemma write_reply_attempt {V} b text n stored (v : V) : reply_buffer b →
  snprintf (reply_capacity b) text = (n, stored) →
  let r := if (n <? 0) || (reply_capacity b <=? n) then -1 else n in
  wp (write_reply b stored) v (λ b' v', v' = v ∧ reply_attempt b text r b' ∧ o_capacity b' = o_capacity b ∧
    (zlen text < reply_capacity b → r ≠ -1)).
Proof.
  intros Hb [= Hn Hst] r. unfold r. clear r. pose proof Hb as ((Hl & Hmax & _) & _ & _).
  assert (0 ≤ reply_capacity b ≤ INT_MAX) as Hcap by (unfold reply_capacity; lia).
  pose proof (zlen_nonneg text).
  assert (zlen stored ≤ reply_capacity b) as Hcs.
  { rewrite <- Hst. destruct (Z.leb_spec (reply_capacity b) 0); [change (zlen []) with 0; lia|].
    unfold zlen. rewrite length_app, length_take. cbn. lia. }
  eapply wp_mono; [by apply write_reply_spec|]. intros b' v' (-> & Hrep & Hcap' & Hown). split; [done|].
  pose proof (replied_is_kept _ _ _ Hb Hrep) as Hk. unfold reply_attempt.
  destruct ((n <? 0) || (reply_capacity b <=? n)) eqn:Ebad.
  - assert (reply_capacity b ≤ zlen text).
    { destruct (Z.ltb_spec INT_MAX (zlen text)), (Z.ltb_spec n 0), (Z.leb_spec (reply_capacity b) n); (done || lia). }
    split_and!; [done|done|by right|lia|done|lia].
  - apply orb_false_iff in Ebad as [E1%Z.ltb_ge E2%Z.leb_gt].
    destruct (Z.ltb_spec INT_MAX (zlen text)); [lia|]. subst n.
    rewrite (proj2 (Z.leb_gt _ _)) in Hst by lia. rewrite take_ge in Hst by (unfold zlen in *; lia).
    subst stored. split_and!; [done|done|left; split; [done|by eapply replied_prefix]|lia|done|lia].
Qed.

Definition readonly_text : bytes := lit "READONLY replica does not accept client writes" ++ crlf.

Lemma filter_read_only ts toks cap st w :
  cs_str <$> toks = ts → ts ≠ [] → 0 < cap → 0 ≤ cmd_of ts < KVS_CMD_COUNT →
  kvs_server_role w = KVS_ROLE_REPLICA → writes (cmd_kind (cmd_of ts)) = true →
  kvs_filter_protocol toks cap KVS_COMMAND_SOURCE_CLIENT st w = Ok (snprintf cap readonly_text, st) w.
Proof.
  intros Htoks Hne Hcap Hc Hrole Hw. unfold kvs_filter_protocol. rewrite !(token_of toks ts) by done. cbv zeta.
  change (command_id (default [] (ts !! O))) with (cmd_of ts).
  rewrite (bool_decide_eq_false_2 (toks = [])), (proj2 (Z.leb_gt _ 0)) by (try done; by intros ->; subst ts). cbn [orb].
  rewrite (proj2 (Z.eqb_neq (cmd_of ts) _)) by lia. unfold mbind, M_bind, gets. rewrite Hrole, write_command_kind, Hw by done.
  done.
Qed.

Lemma kept_trans b1 b2 b3 : kept b1 b2 → kept b2 b3 → kept b1 b3.
Proof. intros (_ & Hl & Ho & Ht) (Hb & Hl' & Ho' & Ht'). split; [done|]. rewrite Hl in *. split_and!; congruence. Qed.

Lemma copied_error_spec ts toks b reply w :
  cs_str <$> toks = ts → ts ≠ [] → reply_buffer b → error_reply w ts = Some reply →
  wp (execute_copied toks b KVS_COMMAND_SOURCE_CLIENT) w (λ '(r, b', st) w',
    w' = w ∧ reply_attempt b reply r b' ∧ st = KVS_EXEC_FAILED).
Proof.
  intros Htoks Hne Hb. unfold execute_copied, error_reply. rewrite !(token_of toks ts) by done. cbv zeta.
  assert (zlen toks = zlen ts) as -> by (rewrite <- Htoks; by rewrite zlen_fmap).
  set (name := default [] (ts !! O)). rewrite (bool_decide_eq_true_2 (KVS_COMMAND_SOURCE_CLIENT = _)) by done. cbn [andb].
  assert (∀ reply', Some reply' = Some reply →
    wp ('(result, response) ← copy_reply b reply'; mret (result, response, KVS_EXEC_FAILED)) w (λ '(r, b', st) w',
      w' = w ∧ reply_attempt b reply r b' ∧ st = KVS_EXEC_FAILED)) as Hans.
  { intros ? [= ->]. eapply wp_step; [by apply copy_reply_attempt|]. intros [r b'] w' (-> & Hr). by apply wp_ret. }
  destruct (streq name (lit "PING")); [intros E; by apply Hans|].
  intros Herr. do 2 (eapply wp_eq; [done|]; cbv beta). revert Herr. fold (loading w).
  destruct (loading w); [intros E; by apply Hans|].
  destruct (streq name (lit "SAVE")); [destruct (zlen ts =? 1); [done|intros E; by apply Hans]|].
  change (command_id name) with (cmd_of ts). rewrite expected_arity.
  pose proof (command_id_range name) as Hrange. change (command_id name) with (cmd_of ts) in Hrange.
  destruct (Z.eqb_spec (cmd_of ts) KVS_CMD_COUNT) as [Ec|Ec].
  { rewrite (proj2 (Z.ltb_ge _ _)) by lia. intros E. by apply Hans. }
  rewrite (proj2 (Z.ltb_lt _ _)) by lia. cbn [andb].
  destruct (Z.eqb_spec (zlen ts) (arity (cmd_kind (cmd_of ts)))) as [Ea0|Ea0]; cbn [negb].
  - (* a replica refuses the write *)
    destruct (bool_decide _ && writes _) eqn:Hro; [|done]. intros [= <-]. apply andb_true_iff in Hro as [Hrole%bool_decide_eq_true Hwrites].
    rewrite get_command_kind by (change (command_id name) with (cmd_of ts); lia). change (command_id name) with (cmd_of ts).
    rewrite (bool_decide_eq_false_2 (_ = CMD_GET)) by (intros E; by rewrite E in Hwrites).
    rewrite andb_false_r. cbn [andb].
    assert (toks ≠ []) as Hne' by (by intros ->; subst ts).
    unfold kvs_execute_tokens. rewrite (bool_decide_eq_false_2 (toks = [])) by done. cbn [orb].
    assert (0 ≤ reply_capacity b) as Hcap0 by (unfold reply_capacity; destruct Hb as ((? & _) & _); lia).
    destruct (Z.leb_spec (reply_capacity b) 0) as [Hcap|Hcap].
    { eapply wp_eq; [done|]. cbv beta iota. eapply wp_step; [by apply write_reply_spec|].
      intros b1 w1 (-> & Hrep & _ & Hown). apply wp_ret. split; [done|]. split; [|done].
      pose proof (zlen_nonneg (client_reply (cmd_of ts) KVS_EXEC_FAILED)).
      split_and!; [done|by eapply replied_is_kept|by right|lia]. }
    eapply wp_step.
    { eapply wp_eq; [apply (filter_read_only ts); (done || lia)|]. cbv beta iota.
      instantiate (1 := λ '(len, stored, st) w', w' = w ∧ st = KVS_EXEC_FAILED ∧ zlen stored ≤ reply_capacity b ∧
        (len = -1 ∨ len = zlen readonly_text ∧ stored = readonly_text ++ [NUL]) ∧
        (64 ≤ reply_capacity b → len ≠ -1)).
      destruct (snprintf (reply_capacity b) readonly_text) as [len stored] eqn:Esn. symmetry in Esn.
      apply snprintf_spec in Esn as (-> & Hcs & Hst); [|done|done]. cbv beta iota.
      change (zlen readonly_text <? 0) with false. cbv iota.
      destruct (Z.leb_spec (reply_capacity b) (zlen readonly_text)) as [Hle|Hlt]; apply wp_ret.
      - split_and!; [done|done|done|by left|]. change (zlen readonly_text) with 48 in Hle. lia.
      - split_and!; [done|done|done|right; split; [done|by apply Hst]|done]. }
    intros [[len stored] st] w1 (-> & -> & Hcs & Hlen & Hroom). cbv beta iota.
    eapply wp_step; [by apply write_reply_spec|]. intros b1 w1 (-> & Hrep & Hcap1 & Hown).
    pose proof (replied_is_kept _ _ _ Hb Hrep) as Hkept.
    pose proof (client_reply_short (cmd_of ts) KVS_EXEC_FAILED) as Hshort.
    destruct Hlen as [->|[-> ->]].
    { apply wp_ret. split; [done|]. split; [|done]. split_and!; [done|done|by right|]. unfold REPLY_ROOM in *. lia. }
    change (0 <=? zlen readonly_text) with true.
    assert (has_client_reply (cmd_of ts) = true) as ->.
    { unfold has_client_reply. rewrite (proj2 (Z.leb_le _ _)), (proj2 (Z.ltb_lt _ _)) by lia.
      by destruct (cmd_kind (cmd_of ts)). }
    cbn [andb]. eapply wp_step; [apply (copy_reply_attempt b1); apply Hkept|].
    intros [r b2] w2 (-> & Hown2 & Hk2 & Hr2 & Hroom2). apply wp_ret. split; [done|]. split; [|done].
    assert (reply_capacity b1 = reply_capacity b) as Ecap by (unfold reply_capacity; destruct Hkept as (_ & -> & _); lia).
    split_and!; [congruence|by eapply kept_trans| |by rewrite <- Ecap].
    destruct Hr2 as [[-> Hrep2]|Hr2]; [left|by right]. split; [done|]. by eapply replied_kept.
  - intros E. apply (inj Some) in E. subst reply. cbv iota.
    destruct (snprintf (reply_capacity b) (lit "-ERR wrong number of arguments for " ++ name ++ crlf)) as [n stored] eqn:Esn.
    eapply wp_step; [by apply write_reply_attempt|]. intros b1 w1 (-> & Hatt & _). apply wp_ret. split; [done|]. split; [|done].
    done.
Qed.

(** ** Well-formed commands *)

(** What is left of [execute_copied] when the tests are passed. *)
Lemma copied_well_formed ts toks b source w :
  cs_str <$> toks = ts → well_formed ts → (source = KVS_COMMAND_SOURCE_CLIENT → loading w = false) →
  execute_copied toks b source w =
  (if bool_decide (cmd_kind (cmd_of ts) = CMD_GET) then
     value ← on_heap (kvs_get_value (cmd_of ts) (Some (arg 1 ts)) (sv_engines w));
     match value with
     | None => '(result, response) ← copy_reply b nil_text; mret (result, response, KVS_EXEC_FAILED)
     | Some value =>
         '(result, response) ← on_heap (kvs_encode_value_to_output b value);
         mret (result, response, KVS_EXEC_FAILED)
     end
   else
     '(result, stored, exec_status) ← kvs_execute_tokens toks (reply_capacity b) source KVS_EXEC_FAILED;
     response ← write_reply b stored;
     let execution_status := if 0 <=? result then exec_status else KVS_EXEC_FAILED in
     if (0 <=? result) && bool_decide (source = KVS_COMMAND_SOURCE_CLIENT) then
       '(result, response) ← copy_reply response (client_reply (cmd_of ts) exec_status);
       mret (result, response, execution_status)
     else mret (result, response, execution_status)) w.
Proof.
  intros Htoks Hts Hload. pose proof (well_formed_range _ Hts) as Hr.
  pose proof (well_formed_args _ Hts) as (Harg1 & Hlen & _).
  destruct (table_not_reserved (default [] (ts !! O))) as [Hping Hsave]; [apply Hr|].
  unfold execute_copied. rewrite !(token_of toks ts) by done. cbv zeta.
  assert (zlen toks = zlen ts) as -> by (rewrite <- Htoks; by rewrite zlen_fmap).
  change (command_id (default [] (ts !! O))) with (cmd_of ts).
  rewrite Hping, Hsave, !andb_false_r. unfold mbind at 1 2, M_bind at 1 2, gets at 1 2.
  assert (bool_decide (source = KVS_COMMAND_SOURCE_CLIENT) && bool_decide (kvs_server_role w = KVS_ROLE_REPLICA) &&
    negb (kvs_replication_is_online (sv_link w)) = false) as ->.
  { rewrite <- andb_assoc. case_bool_decide as E; [by apply Hload|done]. }
  rewrite expected_arity, Hlen, Z.eqb_refl, andb_false_r.
  rewrite (proj2 (Z.eqb_neq _ KVS_CMD_COUNT)), (proj2 (Z.ltb_lt _ _)), andb_false_r, andb_true_r by lia.
  rewrite get_command_kind by apply Hr. change (command_id (default [] (ts !! O))) with (cmd_of ts). rewrite Harg1.
  unfold has_client_reply. rewrite (proj2 (Z.leb_le 0 _)), (proj2 (Z.ltb_lt _ KVS_CMD_COUNT)) by lia.
  case_bool_decide as Hget.
  - by rewrite Hget.
  - rewrite andb_false_r. cbn [negb andb]. apply bind_ext. intros [[result stored] st] w1. apply bind_ext. intros b1 w2.
    by rewrite andb_true_r.
Qed.

Lemma filter_exist_spec ts toks cap st w :
  cs_str <$> toks = ts → well_formed ts → cmd_kind (cmd_of ts) = CMD_EXIST → key_ok ts → 0 < cap →
  engines_wf (sv_engines w) →
  kvs_filter_protocol toks cap KVS_COMMAND_SOURCE_CLIENT st w =
    Ok (snprintf cap (exist_text (if present ts (sv_engines w) then 0 else 1)),
        if present ts (sv_engines w) then KVS_EXEC_FOUND else KVS_EXEC_NOT_FOUND) w.
Proof.
  intros Htoks Hts Hk Hkey Hcap Hwf. pose proof (well_formed_range _ Hts) as Hr.
  pose proof (well_formed_args _ Hts) as (Harg1 & _ & _).
  assert (toks ≠ []) as Hne by (intros ->; subst ts; destruct Hts as (? & ? & ? & _); done).
  unfold kvs_filter_protocol. rewrite !(token_of toks ts) by done. cbv zeta.
  change (command_id (default [] (ts !! O))) with (cmd_of ts).
  rewrite (bool_decide_eq_false_2 (toks = [])), (proj2 (Z.leb_gt _ 0)) by done. cbn [orb].
  rewrite (proj2 (Z.eqb_neq (cmd_of ts) _)) by lia. unfold mbind at 1, M_bind at 1, gets at 1.
  rewrite write_command_kind, Hk by done. cbn [writes]. rewrite andb_false_r, Harg1.
  unfold on_engines, on_io, on_rt, mbind, M_bind, gets, modify, zoom.
  rewrite (switch_exist_spec ts (ts !! 2%nat) (sv_engines w)) by done. unfold filter_status. rewrite Hk.
  destruct w as [[rt d a] es role mode link]. cbn [sv_engines].
  destruct (present ts es); cbn -[snprintf exist_text kvs_aof_append]; done.
Qed.

Lemma copied_exist_spec ts toks b w :
  cs_str <$> toks = ts → well_formed ts → cmd_kind (cmd_of ts) = CMD_EXIST → key_ok ts → reply_buffer b →
  loading w = false → engines_wf (sv_engines w) →
  wp (execute_copied toks b KVS_COMMAND_SOURCE_CLIENT) w (λ '(r, b', st) w',
    w' = w ∧ reply_attempt b (if present ts (sv_engines w) then lit ":1" ++ crlf else lit ":0" ++ crlf) r b').
Proof.
  intros Htoks Hts Hk Hkey Hb Hload Hwf.
  assert (toks ≠ []) as Hne by (intros ->; subst ts; destruct Hts as (? & ? & ? & _); done).
  set (reply := if present ts (sv_engines w) then _ else _).
  assert (zlen reply = 4) as Hreply by (unfold reply; by destruct (present ts (sv_engines w))).
  unfold wp. rewrite (copied_well_formed ts) by done. rewrite Hk. cbn [bool_decide decide cmd_kind_eq_dec decide_rel].
  match goal with |- match ?m w with _ => _ end => change (wp m w (λ '(r, b', st) w', w' = w ∧ reply_attempt b reply r b')) end.
  unfold kvs_execute_tokens. rewrite (bool_decide_eq_false_2 (toks = [])) by done. cbn [orb].
  destruct (Z.leb_spec (reply_capacity b) 0) as [Hcap|Hcap].
  { eapply wp_eq; [done|]. cbv beta iota. eapply wp_step; [apply (write_reply_spec b); [done|]|].
    - change (zlen []) with 0. unfold reply_capacity in *. destruct Hb as ((? & _) & _). lia.
    - intros b1 w1 (-> & Hrep & _ & Hown). apply wp_ret. split; [done|].
      split_and!; [done|by eapply replied_is_kept|by right|lia]. }
  set (ret := if present ts (sv_engines w) then 0 else 1).
  set (st0 := if present ts (sv_engines w) then KVS_EXEC_FOUND else KVS_EXEC_NOT_FOUND).
  assert (client_reply (cmd_of ts) st0 = reply) as Hclient.
  { unfold client_reply, reply, st0. rewrite Hk. by destruct (present ts (sv_engines w)). }
  destruct (snprintf (reply_capacity b) (exist_text ret)) as [n stored] eqn:Esn.
  eapply wp_step.
  { eapply wp_eq; [by apply (filter_exist_spec ts)|]. cbv beta iota. fold ret st0. rewrite Esn. cbv beta iota.
    instantiate (1 := λ '(len, stored', st) w', w' = w ∧ stored' = stored ∧ st = st0 ∧
      len = if (n <? 0) || (reply_capacity b <=? n) then -1 else n).
    destruct (n <? 0); [by apply wp_ret|]. cbn [orb]. by destruct (reply_capacity b <=? n); apply wp_ret. }
  intros [[len stored'] st] w1 (-> & -> & -> & ->). cbv beta iota.
  eapply wp_step; [by apply write_reply_attempt|]. cbv zeta. set (len := if _ || _ then -1 else n).
  intros b1 w1 (-> & (Hown & Hkept & Hr & _) & Hcap1 & Hroom).
  assert (zlen (exist_text ret) ≤ 10) as Hshort by (unfold ret; by destruct (present ts (sv_engines w))).
  pose proof (zlen_nonneg (exist_text ret)).
  rewrite (bool_decide_eq_true_2 (KVS_COMMAND_SOURCE_CLIENT = _)), andb_true_r by done.
  destruct (Z.leb_spec 0 len); cycle 1.
  { apply wp_ret. split; [done|]. split_and!; [done|done|by right; destruct Hr as [[-> _]|]; [lia|]|].
    intros Hle. assert (len ≠ -1) by (apply Hroom; lia). destruct Hr as [[-> _]|]; lia. }
  eapply wp_step; [apply (copy_reply_attempt b1); apply Hkept|]. intros [r b2] w2 (-> & Hown2 & Hk2 & Hr2 & Hroom2).
  apply wp_ret. split; [done|]. rewrite Hclient in *.
  assert (reply_capacity b1 = reply_capacity b) as Ecap by (unfold reply_capacity; destruct Hkept as (_ & -> & _); lia).
  split_and!; [congruence|by eapply kept_trans| |by rewrite <- Ecap].
  destruct Hr2 as [[-> Hrep2]|Hr2]; [left|by right]. split; [done|]. by eapply replied_kept.
Qed.

(** A GET answers the value or the nil reply, growing the buffer as needed. *)
Lemma copied_get_spec ts toks b own F w :
  cs_str <$> toks = ts → well_formed ts → cmd_kind (cmd_of ts) = CMD_GET → key_ok ts → reply_buffer b →
  loading w = false → engines_wf (sv_engines w) → owns (owned (o_data b) ++ own) F (heap w) →
  let reply := match maps w (cmd_engine (cmd_of ts)) !! arg 1 ts with Some v => value_text v | None => nil_text end in
  wp (execute_copied toks b KVS_COMMAND_SOURCE_CLIENT) w (λ '(r, b', st) w', ∃ h,
    w' = with_heap h w ∧ owns (owned (o_data b') ++ own) F h ∧ (roomy (heap w) → roomy h) ∧
    kept b b' ∧ (r = zlen reply ∧ replied b reply b' ∨ r = -1) ∧
    (roomy (heap w) → 128 ≤ reply_capacity b → o_length b + zlen reply ≤ INT_MAX → r ≠ -1)).
Proof.
  intros Htoks Hts Hk Hkey Hb Hload Hwf Ho reply.
  unfold wp. rewrite (copied_well_formed ts) by done. rewrite bool_decide_eq_true_2 by done.
  match goal with |- match ?m w with Ok x w' => ?Q | _ => _ end => change (wp m w (λ x w', Q)) end. cbv beta.
  apply wpx_wp. eapply step_heap.
  { unfold wp. rewrite get_value_spec by done. instantiate (1 := λ v r, v = _ ∧ r = heap w). done. }
  intros value h [-> ->]. apply wp_wpx.
  change (engine_maps (sv_engines w) (cmd_engine (cmd_of ts))) with (maps w (cmd_engine (cmd_of ts))) in *.
  destruct (maps w (cmd_engine (cmd_of ts)) !! arg 1 ts) as [v|].
  - apply wpx_wp. eapply step_heap; [by apply (encode_value_spec b v own F)|]. intros [r b'] h (Ho' & Hr' & Hpost & Hgood).
    apply wpx_ret. exists h. split; [done|]. split; [done|]. split; [done|]. split.
    { destruct Hpost as [[_ Hrep]|[_ Hkept]]; [by eapply replied_is_kept|done]. }
    split; [destruct Hpost as [?|[-> _]]; [by left|by right]|]. intros Hroom _ Hle. by apply Hgood.
  - eapply wp_step; [by apply copy_reply_attempt|]. intros [r b'] w' (-> & Hown & Hkept & Hr & Hroom). apply wp_ret.
    exists (heap w). split; [done|]. rewrite Hown. split; [done|]. split; [done|]. split; [done|]. split; [done|].
    intros _ Hcap _. apply Hroom. change (zlen nil_text) with 5. lia.
Qed.

(** ** [kvs_execute_fields] *)

Lemma field_good_of t : zlen t < SIZE_MAX → field_bad (slice_of t) = false ∧ field_has_nul (slice_of t) = negb (bool_decide (nul_free t)).
Proof.
  intros Ht. unfold field_bad, field_has_nul. rewrite slice_bytes_of. cbn [Codec.data slice_of].
  change (Codec.length (slice_of t)) with (zlen t). rewrite (proj2 (Z.eqb_neq _ _)) by lia. split; [done|].
  rewrite <- bool_decide_not. apply bool_decide_ext. unfold nul_free. split; [tauto|apply dec_stable].
Qed.

Lemma check_fields_spec ts : Forall (λ t, zlen t < SIZE_MAX) ts →
  check_fields (slice_of <$> ts) = if bool_decide (Forall nul_free ts) then FieldsGood else FieldsNul.
Proof.
  induction 1 as [|t ts Ht Hts IH]; [done|]. cbn [check_fields fmap list_fmap].
  destruct (field_good_of t Ht) as [-> ->]. destruct (decide (nul_free t)) as [Hn|Hn].
  - rewrite bool_decide_eq_true_2, IH by done. cbn [negb].
    apply (f_equal (λ b : bool, if b then FieldsGood else FieldsNul)), bool_decide_ext. rewrite Forall_cons. tauto.
  - rewrite !bool_decide_eq_false_2; [done|by intros [? _]%Forall_cons|done].
Qed.

(** The fields of a message that the parser accepts. *)
Definition message ts : Prop := 1 ≤ zlen ts ≤ KVS_MAX_TOKENS ∧ Forall (λ t, zlen t < SIZE_MAX) ts.

Lemma message_nonempty ts : message ts → ts ≠ [].
Proof. intros [Hl _] ->. rewrite zlen_nil in Hl. lia. Qed.

Lemma execute_fields_wrap ts b source own F w Q G :
  reply_buffer b → message ts → Forall nul_free ts → owns own F (heap w) →
  (∀ toks h, cs_str <$> toks = ts → owns ((cs_addr <$> toks) ++ own) F h → (roomy (heap w) → roomy h) →
     wpx (execute_copied toks b source) (with_heap h w) (λ x w', ∃ own', owns ((cs_addr <$> toks) ++ own') F (heap w') ∧
       ∀ h', owns own' F h' → (roomy (heap w') → roomy h') → Q x (with_heap h' w')) G) →
  (∀ h, owns own F h → ¬ roomy (heap w) → Q (-1, b, KVS_EXEC_FAILED) (with_heap h w)) →
  wpx (kvs_execute_fields (slice_of <$> ts) b source) w Q G.
Proof.
  intros Hb [Hl Hlen] Hnul Ho Hrun Hoom. unfold kvs_execute_fields.
  pose proof Hb as ((Hbl & _ & Hd) & _ & [[p block] Eb]). rewrite Eb in Hd. destruct Hd as [Hpos _].
  rewrite zlen_fmap. rewrite bool_decide_eq_false_2 by (by rewrite Eb).
  rewrite (proj2 (Z.leb_gt _ 0)), !(proj2 (Z.ltb_ge _ _)), (proj2 (Z.eqb_neq _ 0)) by (unfold KVS_MAX_TOKENS, INT_MAX in *; lia).
  cbn [orb]. rewrite check_fields_spec, bool_decide_eq_true_2 by done.
  eapply step_heap; [apply (fields_to_tokens_spec _ own F); [by rewrite zlen_fmap|done]|].
  assert (Forall field_good (slice_of <$> ts)) as Hgood.
  { apply Forall_fmap, Forall_forall. intros t Ht. rewrite Forall_forall in Hlen, Hnul.
    destruct (field_good_of t (Hlen t Ht)) as [E1 E2]. split; [done|]. cbn. by rewrite E2, bool_decide_eq_true_2 by auto. }
  intros [toks|] h [Hr Hpost]; cycle 1.
  { apply wpx_ret. apply Hoom; [apply Hpost|]. intros Hroom. by apply (proj2 Hpost). }
  destruct Hpost as [Ho1 Hs]. rewrite <- list_fmap_compose in Hs.
  assert (cs_str <$> toks = ts) as Htoks.
  { rewrite Hs. rewrite <- (list_fmap_id ts) at 2. apply list_fmap_ext. intros i t _. apply slice_bytes_of. }
  eapply wpx_stepx; [by apply Hrun|]. intros [[r b'] st] w1 (own' & Ho2 & Hdone).
  eapply step_heap; [by apply (free_tokens_spec toks own' F)|]. intros _ h' [Ho3 Hr3]. apply wpx_ret. by apply Hdone.
Qed.

Lemma with_heap_heap h w : heap (with_heap h w) = h.
Proof. done. Qed.

Lemma keeps_with_heap h w w' : keeps w w' → (roomy (heap w') → roomy h) → keeps w (with_heap h w').
Proof. intros (?&?&?&?&?) Hr. split_and!; try done. auto. Qed.

(** A NUL byte in a client's field. *)
Lemma execute_nul_spec ts b source w :
  reply_buffer b → message ts → ¬ Forall nul_free ts →
  wp (kvs_execute_fields (slice_of <$> ts) b source) w (λ '(r, b', st) w', w' = w ∧ st = KVS_EXEC_FAILED ∧
    if bool_decide (source = KVS_COMMAND_SOURCE_CLIENT)
    then reply_attempt b (lit "-ERR NUL bytes are not supported" ++ crlf) r b'
    else r = -1 ∧ b' = b).
Proof.
  intros Hb [Hl Hlen] Hnul. unfold kvs_execute_fields.
  pose proof Hb as ((Hbl & _ & Hd) & _ & [[p block] Eb]). rewrite Eb in Hd. destruct Hd as [Hpos _].
  rewrite zlen_fmap. rewrite bool_decide_eq_false_2 by (by rewrite Eb).
  rewrite (proj2 (Z.leb_gt _ 0)), !(proj2 (Z.ltb_ge _ _)), (proj2 (Z.eqb_neq _ 0)) by (unfold KVS_MAX_TOKENS, INT_MAX in *; lia).
  cbn [orb]. rewrite check_fields_spec, (bool_decide_eq_false_2 (Forall _ _)) by done.
  rewrite bool_decide_not. destruct (bool_decide (source = KVS_COMMAND_SOURCE_CLIENT)); cbn [negb].
  - eapply wp_step; [by apply copy_reply_attempt|]. intros [r b'] w' (-> & Hr). by apply wp_ret.
  - by apply wp_ret.
Qed.

(** Commands answered without touching the data. *)
Lemma execute_error_spec ts b reply own F w :
  reply_buffer b → message ts → Forall nul_free ts → data_ok own F w → error_reply w ts = Some reply →
  wp (kvs_execute_fields (slice_of <$> ts) b KVS_COMMAND_SOURCE_CLIENT) w (λ '(r, b', st) w', ∃ h,
    w' = with_heap h w ∧ (roomy (heap w) → roomy h) ∧ data_ok own F w' ∧ st = KVS_EXEC_FAILED ∧
    (reply_attempt b reply r b' ∨ r = -1 ∧ b' = b ∧ ¬ roomy (heap w))).
Proof.
  intros Hb Hm Hnul [Hwf Ho] Herr. apply wpx_wp. eapply (execute_fields_wrap ts b _ _ F); [done|done|done|exact Ho| |].
  - intros toks h Htoks Ho1 Hr1. apply wp_wpx. eapply wp_mono.
    + apply (copied_error_spec ts toks b reply); [done|by apply message_nonempty|done|done].
    + intros [[r b'] st] w' (-> & Hatt & ->). eexists. split; [exact Ho1|]. intros h' Ho2 Hr2. exists h'.
      split; [done|]. split; [auto|]. split; [done|]. split; [done|]. by left.
  - intros h Ho1 Hroom. exists h. split; [done|]. split; [done|]. split; [done|]. split; [done|]. by right.
Qed.

(** Writes, from any source that may write. *)
Definition write_outcome own F f ts source b w (r : Z) b' st w' : Prop :=
  (r = -1 ∧ kept b b' ∧ owned (o_data b') = owned (o_data b) ∧ keeps w w' ∧ data_ok own F w' ∧ same_files w w' ∧
     maps_eq (maps w') (maps w) ∧ (roomy (heap w) → reply_capacity b ≤ 0)) ∨
  ∃ ret, executed own F f ts source w ret w' ∧ answered b source ts ret r b' st.

Lemma executed_with_heap own own' F f ts source w h ret w' h' :
  (roomy (heap w) → roomy h) → (roomy (heap w') → roomy h') → owns (own' ++ engines_owned (sv_engines w')) F h' →
  executed own F f ts source (with_heap h w) ret w' → executed own' F f ts source w ret (with_heap h' w').
Proof.
  intros Hr Hr' Ho (Hk & Hd & Hw & Hl & Hg). split_and!.
  - destruct Hk as (?&?&?&Hro&?). split_and!; try done. intros Hroom. by apply Hr', Hro, Hr.
  - by split; [apply Hd|].
  - done.
  - exact Hl.
  - intros Hroom. by apply Hg, Hr.
Qed.

Lemma execute_write_spec ts b source own F f w :
  reply_buffer b → message ts → Forall nul_free ts → well_formed ts → writes (cmd_kind (cmd_of ts)) = true → key_ok ts →
  read_only source w = false → data_ok own F w → (logged source w = true → aof_log (sv_io w) f) →
  wpx (kvs_execute_fields (slice_of <$> ts) b source) w
    (λ '(r, b', st) w', write_outcome own F f ts source b w r b' st w') (append_failed f ts source w).
Proof.
  intros Hb Hm Hnul Hts Hk Hkey Hro [Hwf Ho] Hlog. eapply (execute_fields_wrap ts b _ _ F); [done|done|done|exact Ho| |].
  - intros toks h Htoks Ho1 Hr1. eapply wpx_mono.
    + apply (copied_write_spec ts toks b source ((cs_addr <$> toks) ++ own) F f (with_heap h w)); try done.
      * destruct Hm as [_ Hlen]. eapply Forall_impl; [exact Hlen|]. intros t Ht. cbn in Ht. lia.
      * split; [done|]. by rewrite <- app_assoc.
    + intros [[r b'] st] w' [(Hcap & -> & -> & Hkept & Hown)|(ret & Hex & Hans)].
      * eexists. split; [exact Ho1|]. intros h' Ho2 Hr2. left.
        split; [done|]. split; [done|]. split; [done|].
        split; [apply keeps_with_heap; [apply keeps_with_heap; [apply keeps_refl|done]|done]|]. by split_and!.
      * exists (own ++ engines_owned (sv_engines w')). split; [rewrite app_assoc; apply Hex|].
        intros h' Ho2 Hr2. right. exists ret. split; [by eapply executed_with_heap|done].
    + intros w' (Hl & Hno & Hp). split; [done|]. split; [|done]. intros (Hg1 & Hg2 & Hg3). apply Hno. split_and!; auto.
  - intros h Ho1 Hroom. left. split; [done|]. split; [by apply kept_refl|]. split; [done|].
    split; [by apply keeps_with_heap; [apply keeps_refl|]|]. by split_and!.
Qed.

(** GET and EXIST. *)
Definition read_reply ts w : bytes :=
  match cmd_kind (cmd_of ts) with
  | CMD_GET => match maps w (cmd_engine (cmd_of ts)) !! arg 1 ts with Some v => value_text v | None => nil_text end
  | _ => if present ts (sv_engines w) then lit ":1" ++ crlf else lit ":0" ++ crlf
  end.

Lemma execute_read_spec ts b own F w :
  reply_buffer b → message ts → Forall nul_free ts → well_formed ts → writes (cmd_kind (cmd_of ts)) = false → key_ok ts →
  loading w = false → data_ok (owned (o_data b) ++ own) F w →
  wp (kvs_execute_fields (slice_of <$> ts) b KVS_COMMAND_SOURCE_CLIENT) w (λ '(r, b', st) w', ∃ h,
    w' = with_heap h w ∧ data_ok (owned (o_data b') ++ own) F w' ∧ (roomy (heap w) → roomy h) ∧ kept b b' ∧
    (r = zlen (read_reply ts w) ∧ replied b (read_reply ts w) b' ∨ r = -1) ∧
    (roomy (heap w) → 128 ≤ reply_capacity b → o_length b + zlen (read_reply ts w) ≤ INT_MAX → r ≠ -1)).
Proof.
  intros Hb Hm Hnul Hts Hk Hkey Hload [Hwf Ho]. apply wpx_wp.
  eapply (execute_fields_wrap ts b _ _ F); [done|done|done|exact Ho| |].
  - intros toks h Htoks Ho1 Hr1. apply wp_wpx. unfold read_reply. destruct (cmd_kind (cmd_of ts)) eqn:Ek; try done.
    + eapply wp_mono.
      { apply (copied_get_spec ts toks b ((cs_addr <$> toks) ++ own ++ engines_owned (sv_engines w)) F); try done.
        revert Ho1. apply owns_perm. rewrite <- app_assoc. solve_Permutation. }
      intros [[r b'] st] w' (h1 & -> & Ho2 & Hr2 & Hkept & Hrep & Hgood).
      exists ((owned (o_data b') ++ own) ++ engines_owned (sv_engines w)). split.
      { revert Ho2. apply owns_perm. rewrite <- app_assoc. solve_Permutation. }
      intros h' Ho3 Hr3. exists h'. split; [done|]. split; [done|]. split; [auto|]. split; [done|]. split; [done|]. auto.
    + eapply wp_mono; [by apply (copied_exist_spec ts toks b)|]. intros [[r b'] st] w' (-> & Hown & Hkept & Hrep & Hgood).
      eexists. split; [exact Ho1|]. intros h' Ho3 Hr3. exists h'. rewrite Hown. split; [done|]. split; [done|]. split; [auto|].
      split; [done|]. split; [done|]. intros _ Hcap _. apply Hgood.
      change (sv_engines (with_heap h w)) with (sv_engines w).
      assert (zlen (if present ts (sv_engines w) then lit ":1" ++ crlf else lit ":0" ++ crlf) = 4) as ->
        by (by destruct (present ts (sv_engines w))). lia.
  - intros h Ho1 Hroom. exists h. split; [done|]. split; [done|]. split; [done|]. split; [by apply kept_refl|]. split; [by right|]. done.
Qed.
End execute_spec.

(** * Properties *)

Section properties.
Context `{CRuntimeLaws RT} `{OsLaws D} {Ea Er Eh Es : Type}
  `{!Engine RT Ea} `{!Engine RT Er} `{!Engine RT Eh} `{!Engine RT Es}
  `{!EngineLaws RT Ea} `{!EngineLaws RT Er} `{!EngineLaws RT Eh} `{!EngineLaws RT Es}.
Notation engines := (kv_engines Ea Er Eh Es).
Notation engine_type := (@engine_type Ea Er Eh Es).
Notation W := (server RT D engines).
Notation apply_write := (apply_write (RT := RT) (Ea := Ea) (Er := Er) (Eh := Eh) (Es := Es)).
Notation key_ok := (key_ok (RT := RT) (Ea := Ea) (Er := Er) (Eh := Eh) (Es := Es)).
Implicit Types (es : engines) (w : W) (own : list addr) (F : gset addr) (ts : list bytes) (f : bytes).

(** The documented reply to a write: [held] tells whether the key was present,
    [applied] whether the write took place.  The hash engine reports the deletion
    of an absent key as a failure. *)
Definition write_answer ts (held applied : bool) : bytes :=
  match cmd_kind (cmd_of ts) with
  | CMD_SET => if applied then lit "+OK" ++ crlf else lit "-ERR SET failed" ++ crlf
  | CMD_DEL => if applied then lit ":1" ++ crlf
               else if eng_del_missing (E := engine_type (cmd_engine (cmd_of ts))) <? 0
               then lit "-ERR DEL failed" ++ crlf else lit ":0" ++ crlf
  | CMD_MOD => if applied then lit "+OK" ++ crlf
               else if held then lit "-ERR MOD failed" ++ crlf else lit "-ERR key not found" ++ crlf
  | _ => []
  end.

Lemma written_answer ts es ret (es' : engines) : writes (cmd_kind (cmd_of ts)) = true → written ts es ret es' →
  write_reply_text KVS_COMMAND_SOURCE_CLIENT ts ret = write_answer ts (present ts es) (ret =? 0).
Proof.
  intros Hk (applied & [Hz Hret] & _). unfold write_reply_text, client_reply, filter_status, write_answer.
  rewrite bool_decide_eq_true_2 by done. destruct (Z.eqb_spec ret 0) as [->|Hne].
  - cbn [Z.ltb Z.compare]. by destruct (cmd_kind (cmd_of ts)).
  - destruct applied; [by rewrite (proj2 Hz eq_refl) in Hne|].
    destruct (cmd_kind (cmd_of ts)); try done.
    + rewrite (proj2 (Z.ltb_lt _ _)) by lia. done.
    + destruct Hret as [<- Hret]. rewrite Hret by done. by destruct (_ <? 0).
    + destruct (present ts es); [|by subst ret]. destruct Hret as [->| ->]; done.
Qed.


(** GET and EXIST answer from the data set of the named engine and change
    neither the data nor any file; a value of any length is answered, the reply
    buffer growing as needed. *)
Theorem client_read_exact ts b own F w :
  reply_buffer b → message ts → Forall nul_free ts → well_formed ts → writes (cmd_kind (cmd_of ts)) = false → key_ok ts →
  loading w = false → data_ok (owned (o_data b) ++ own) F w →
  wp (kvs_execute_fields (slice_of <$> ts) b KVS_COMMAND_SOURCE_CLIENT) w (λ '(r, b', st) w', ∃ h,
    w' = with_heap h w ∧ data_ok (owned (o_data b') ++ own) F w' ∧ (roomy (heap w) → roomy h) ∧ kept b b' ∧
    (r = zlen (read_reply ts w) ∧ replied b (read_reply ts w) b' ∨ r = -1) ∧
    (roomy (heap w) → 128 ≤ reply_capacity b → o_length b + zlen (read_reply ts w) ≤ INT_MAX → r ≠ -1)).
Proof. apply execute_read_spec. Qed.

(** C40: PING, unknown commands, commands with the wrong number of fields, any
    command on a replica that is out of step, and writes on any replica are
    answered as [error_reply] says, without touching the data or any file. *)
Theorem client_error_exact ts b reply own F w :
  reply_buffer b → message ts → Forall nul_free ts → data_ok own F w → error_reply w ts = Some reply →
  wp (kvs_execute_fields (slice_of <$> ts) b KVS_COMMAND_SOURCE_CLIENT) w (λ '(r, b', st) w', ∃ h,
    w' = with_heap h w ∧ (roomy (heap w) → roomy h) ∧ data_ok own F w' ∧ st = KVS_EXEC_FAILED ∧
    (reply_attempt b reply r b' ∨ r = -1 ∧ b' = b ∧ ¬ roomy (heap w))).
Proof. apply execute_error_spec. Qed.
End properties.

(** ** Examples *)

Definition offline : replication_link := ReplicationLink false KVS_ROLE_STANDALONE (-1) KVS_REPLICATION_STATE_DISCONNECTED.

(** A server with a log on the sample file, the pair k, value in the hash engine,
    and an output buffer of 256 bytes. *)
Lemma demo_server role mode (f : bytes) : ∃ (w : server heap_rt mem_os demo_engines) (b : kvs_output_buffer_t),
  data_ok (owned (o_data b) ++ []) ∅ w ∧ reply_buffer b ∧ aof_log (sv_io w) f ∧ kvs_server_role w = role ∧
  kvs_persistence_mode w = mode ∧ loading w = bool_decide (role = KVS_ROLE_REPLICA) ∧
  engine_records (sv_engines w) = sample_records ∧ c_strings (sv_engines w).
Proof.
  destruct loaded_engines as (es & r & Hwf & Ho & Hh & Hoth & Hroom). destruct (loaded_records es Hh Hoth) as (Hrec & Hstr & _).
  pose proof (wp_malloc 256 ([] ++ engines_owned es) ∅ r ltac:(lia) Ho) as Hm. revert Hm.
  unfold wp. destruct (kvs_malloc 256 r) as [[p|] r'| |] eqn:Em; [|intros [_ Hr]|done..].
  - intros [Ho' _].
    exists (Server (PWorld r' (p_os (sample_log f)) (p_aof (sample_log f))) es role mode offline),
      (OutputBuffer (Some (p, replicate 256 None)) 0 0 256).
    split; [by split|]. split; [|split; [by apply sample_log_ok|split; [done|split; [done|split; [apply andb_true_r|by split]]]]].
    split; [|split; [done|by eexists]]. split; [done|]. split; [done|]. done.
  - by destruct (Hr Hroom) as [_ []].
Qed.

(** The commands of the examples meet the side conditions. *)
Ltac check_command := split; [split; vm_compute; discriminate|repeat (apply Forall_cons; split; [vm_compute; reflexivity|]); by apply Forall_nil].
Ltac check_nul_free := by apply (bool_decide_unpack _).
Ltac check_well_formed := eexists _, _; split; [reflexivity|split; vm_compute; reflexivity].

Abbreviation demo_key_ok := (key_ok (RT := heap_rt) (Ea := kvs_array_t) (Er := RbTree.kvs_rbtree_t) (Eh := kvs_hash_t) (Es := kvs_skiplist_t)) (only parsing).
Abbreviation demo_apply := (apply_write (RT := heap_rt) (Ea := kvs_array_t) (Er := RbTree.kvs_rbtree_t) (Eh := kvs_hash_t) (Es := kvs_skiplist_t)) (only parsing).
Abbreviation demo_answer := (write_answer (RT := heap_rt) (Ea := kvs_array_t) (Er := RbTree.kvs_rbtree_t) (Eh := kvs_hash_t) (Es := kvs_skiplist_t)) (only parsing).


Definition sample_get : list bytes := [lit "HGET"; lit "k"].

Lemma client_read_exact_witness : ∃ (w : server heap_rt mem_os demo_engines) (b : kvs_output_buffer_t),
  reply_buffer b ∧ data_ok (owned (o_data b) ++ []) ∅ w ∧ loading w = false ∧
  wp (kvs_execute_fields (slice_of <$> sample_get) b KVS_COMMAND_SOURCE_CLIENT) w (λ '(r, b', st) w', ∃ h,
    w' = with_heap h w ∧ data_ok (owned (o_data b') ++ []) ∅ w' ∧ (roomy (heap w) → roomy h) ∧ kept b b' ∧
    (r = zlen (read_reply sample_get w) ∧ replied b (read_reply sample_get w) b' ∨ r = -1) ∧
    (roomy (heap w) → 128 ≤ reply_capacity b → o_length b + zlen (read_reply sample_get w) ≤ INT_MAX → r ≠ -1)).
Proof.
  destruct (demo_server KVS_ROLE_PRIMARY KVS_PERSISTENCE_AOF []) as (w & b & Hd & Hb & _ & _ & _ & Hload & _). exists w, b.
  split; [exact Hb|]. split; [exact Hd|]. split; [exact Hload|].
  refine (client_read_exact sample_get b [] ∅ w Hb _ _ _ _ _ Hload Hd).
  - check_command.
  - check_nul_free.
  - check_well_formed.
  - reflexivity.
  - vm_compute. reflexivity.
Defined.

(** A replica that has not caught up. *)
Lemma client_error_exact_witness : ∃ (w : server heap_rt mem_os demo_engines) (b : kvs_output_buffer_t),
  let reply := lit "-LOADING replica synchronization in progress" ++ crlf in
  reply_buffer b ∧ data_ok (owned (o_data b) ++ []) ∅ w ∧ error_reply w sample_command = Some reply ∧
  wp (kvs_execute_fields (slice_of <$> sample_command) b KVS_COMMAND_SOURCE_CLIENT) w (λ '(r, b', st) w', ∃ h,
    w' = with_heap h w ∧ (roomy (heap w) → roomy h) ∧ data_ok (owned (o_data b) ++ []) ∅ w' ∧ st = KVS_EXEC_FAILED ∧
    (reply_attempt b reply r b' ∨ r = -1 ∧ b' = b ∧ ¬ roomy (heap w))).
Proof.
  destruct (demo_server KVS_ROLE_REPLICA KVS_PERSISTENCE_AOF []) as (w & b & Hd & Hb & _ & _ & _ & Hload & _). exists w, b. intros reply.
  assert (error_reply w sample_command = Some reply) as Herr.
  { unfold error_reply. rewrite Hload. reflexivity. }
  split; [exact Hb|]. split; [exact Hd|]. split; [exact Herr|].
  refine (client_error_exact sample_command b reply (owned (o_data b) ++ []) ∅ w Hb _ _ Hd Herr).
  - check_command.
  - check_nul_free.
Defined.
