(* ===== verification/Server.v ===== *)
(** The server's handlers and its life, src/kvstore.c: the client protocol handler,
    SAVE, the durability of the data set under any sequence of messages, recovery
    at start-up in every persistence mode, and the installation of a primary's
    snapshot.  The definitions are those of Kvstore. *)

From Stdlib Require Import ZArith Lia.
From S2P Require Import Prelude Runtime RbEngine Engine Codec ArrayEngine HashEngine SkipList Kvengine Buffer Os MappedFile Aof SnapshotFormat SnapshotStore SnapshotLoad Kvstore Execute.

(** * Messages *)

Lemma join_length (x : bytes) (l : list bytes) : x ∈ l → zlen x ≤ zlen (mjoin l).
Proof.
  induction l as [|y l IH]; [by intros ?%elem_of_nil|]. change (mjoin (y :: l)) with (y ++ mjoin l). rewrite zlen_app.
  pose proof (zlen_nonneg y). pose proof (zlen_nonneg (mjoin l)).
  intros [->|Hx]%elem_of_cons; [lia|]. specialize (IH Hx). lia.
Qed.

Lemma command_text_fields fs t : command_text fs t → Forall (λ s, zlen s ≤ zlen t) fs.
Proof.
  intros (d & ts & _ & Hts & ->). apply Forall_forall. intros s Hs.
  apply list_elem_of_lookup_1 in Hs as [i Hi]. destruct (Forall2_lookup_l _ _ _ _ _ Hts Hi) as (u & Hu & Hf).
  apply list_elem_of_lookup_2, join_length in Hu. destruct Hf as (d' & _ & ->).
  rewrite !zlen_app in *. pose proof (zlen_nonneg d). pose proof (zlen_nonneg d'). pose proof (zlen_nonneg crlf).
  change (zlen [STAR]) with 1. change (zlen [DOLLAR]) with 1 in *. lia.
Qed.

(** A message of a client starts with a whole command. *)
Definition starts_with ts (t msg : bytes) : Prop :=
  command_text ts t ∧ 1 ≤ zlen ts ≤ KVS_MAX_TOKENS ∧ zlen t ≤ KVS_MAX_CLIENT_COMMAND_BYTES ∧ ∃ rest, msg = t ++ rest.

Lemma starts_with_message ts t msg : starts_with ts t msg → message ts.
Proof.
  intros (Ht & Hl & Hle & _). split; [done|]. eapply Forall_impl; [by apply command_text_fields|].
  intros s Hs. cbn in Hs. unfold KVS_MAX_CLIENT_COMMAND_BYTES, SIZE_MAX in *. lia.
Qed.

Definition parse_message (msg : bytes) : parse_result (list kvs_slice_t * Z) :=
  kvs_parse_command_limited (Some msg) KVS_MAX_TOKENS KVS_MAX_CLIENT_COMMAND_BYTES.

Lemma parse_message_complete msg fields n : zlen msg ≤ SIZE_MAX →
  parse_message msg = Complete (fields, n) ↔ ∃ ts t, starts_with ts t msg ∧ fields = slice_of <$> ts ∧ n = zlen t.
Proof.
  intros Hsz. unfold parse_message. rewrite parse_command_text by (done || unfold KVS_MAX_TOKENS, SIZE_MAX; lia). split.
  - intros (fs & t & -> & Ht & (p & r & -> & Hp & ->) & Hc & Hle).
    assert (p = []) as -> by (apply length_zero_iff_nil; unfold zlen in Hp; lia).
    exists fs, t. split; [|split; [done|lia]]. split; [done|]. split; [done|]. split; [lia|]. by exists r.
  - intros (ts & t & (Ht & Hc & Hle & rest & ->) & -> & ->). exists ts, t.
    split_and!; done || lia || by exists [], rest.
Qed.

(** * The client protocol *)

Section server.
Context `{CRuntimeLaws RT} `{OsLaws D} {Ea Er Eh Es : Type}
  `{!Engine RT Ea} `{!Engine RT Er} `{!Engine RT Eh} `{!Engine RT Es}
  `{!EngineLaws RT Ea} `{!EngineLaws RT Er} `{!EngineLaws RT Eh} `{!EngineLaws RT Es}.
Notation engines := (kv_engines Ea Er Eh Es).
Notation W := (server RT D engines).
Notation apply_write := (apply_write (RT := RT) (Ea := Ea) (Er := Er) (Eh := Eh) (Es := Es)).
Notation apply_log := (apply_log (RT := RT) (Ea := Ea) (Er := Er) (Eh := Eh) (Es := Es)).
Notation key_ok := (key_ok (RT := RT) (Ea := Ea) (Er := Er) (Eh := Eh) (Es := Es)).
Implicit Types (es : engines) (w : W) (own : list addr) (F : gset addr) (ts : list bytes) (cmds : list (list bytes))
  (f t msg : bytes) (b : kvs_output_buffer_t).

Lemma network_head msg b w : reply_buffer b → msg ≠ [] →
  kvs_network_protocol msg b w =
  (let status := parse_code (parse_message msg) in
   if (status <? 0) || ((status =? 0) && (KVS_MAX_CLIENT_COMMAND_BYTES <=? zlen msg)) then
     '(result, response) ← copy_reply b (lit "-ERR invalid or oversized request" ++ crlf);
     mret (result, response, if result <? 0 then 0 else zlen msg)
   else
   match parse_message msg with
   | Complete (fields, parsed_bytes) =>
       '(response_length, response, _) ← kvs_execute_fields fields b KVS_COMMAND_SOURCE_CLIENT;
       if (response_length <? 0) || (reply_capacity response <? response_length) then mret (-1, response, 0) else
       mret (response_length, response, parsed_bytes)
   | _ => mret (0, b, 0)
   end) w.
Proof.
  intros ((Hbl & _ & Hd) & _ & [[p block] Eb]) Hne. rewrite Eb in Hd. destruct Hd as [Hpos _].
  unfold kvs_network_protocol. rewrite bool_decide_eq_false_2 by (by rewrite Eb).
  rewrite (proj2 (Z.leb_gt _ 0)), !(proj2 (Z.ltb_ge _ _)) by lia. cbn [orb].
  rewrite (proj2 (Z.eqb_neq (zlen msg) 0)); [done|]. destruct msg; [done|]. rewrite zlen_cons. pose proof (zlen_nonneg msg). lia.
Qed.

Lemma starts_with_nonempty ts t msg : starts_with ts t msg → msg ≠ [].
Proof. intros (Ht & _ & _ & rest & ->) E. apply app_nil in E as [-> _]. by apply command_text_pos in Ht. Qed.

(** A whole command is executed and exactly its text consumed. *)
Lemma network_command ts t msg b w : zlen msg ≤ SIZE_MAX → reply_buffer b → starts_with ts t msg →
  kvs_network_protocol msg b w =
  ('(response_length, response, _) ← kvs_execute_fields (slice_of <$> ts) b KVS_COMMAND_SOURCE_CLIENT;
   if (response_length <? 0) || (reply_capacity response <? response_length) then mret (-1, response, 0) else
   mret (response_length, response, zlen t)) w.
Proof.
  intros Hsz Hb Hs. rewrite network_head by (done || by eapply starts_with_nonempty).
  assert (parse_message msg = Complete (slice_of <$> ts, zlen t)) as -> by (apply parse_message_complete; eauto). done.
Qed.

(** A request the server gives up on. *)
Definition refused msg : Prop :=
  parse_message msg = Malformed ∨ parse_message msg = Incomplete ∧ KVS_MAX_CLIENT_COMMAND_BYTES ≤ zlen msg.

Lemma network_refused msg b w : reply_buffer b → msg ≠ [] → refused msg →
  wp (kvs_network_protocol msg b) w (λ '(r, b', n) w', w' = w ∧
    reply_attempt b (lit "-ERR invalid or oversized request" ++ crlf) r b' ∧ n = if r <? 0 then 0 else zlen msg).
Proof.
  intros Hb Hne Hr. unfold wp. rewrite network_head by done. cbv zeta.
  assert ((parse_code (parse_message msg) <? 0) ||
    (parse_code (parse_message msg) =? 0) && (KVS_MAX_CLIENT_COMMAND_BYTES <=? zlen msg) = true) as ->.
  { destruct Hr as [->|[-> Hle]]; [done|]. cbn. by rewrite (proj2 (Z.leb_le _ _)). }
  match goal with |- match ?m w with Ok x w' => ?Q | _ => _ end => change (wp m w (λ x w', Q)) end. cbv beta.
  eapply wp_step; [by apply copy_reply_attempt|]. intros [r b'] w' (-> & Hatt). by apply wp_ret.
Qed.

Lemma network_waits msg b w : reply_buffer b → parse_message msg = Incomplete → zlen msg < KVS_MAX_CLIENT_COMMAND_BYTES →
  kvs_network_protocol msg b w = Ok (0, b, 0) w.
Proof.
  intros Hb Hp Hlt. destruct msg as [|c msg].
  - destruct Hb as ((Hbl & _ & Hd) & _ & [[p block] Eb]). rewrite Eb in Hd. destruct Hd as [Hpos _].
    unfold kvs_network_protocol. rewrite bool_decide_eq_false_2 by (by rewrite Eb).
    rewrite (proj2 (Z.leb_gt _ 0)), !(proj2 (Z.ltb_ge _ _)) by lia. done.
  - rewrite network_head, Hp by done. cbv zeta. cbn [parse_code]. rewrite (proj2 (Z.leb_gt _ (zlen _))) by lia. done.
Qed.

(** ** SAVE *)

(** The heap, the disk and the log of a running server: [f] is the log. *)
Definition server_ok own F f w : Prop :=
  data_ok own F w ∧ zlen f ≤ INT64_MAX ∧ (kvs_persistence_mode w ≠ KVS_PERSISTENCE_SNAPSHOT → aof_log (sv_io w) f).

Definition records w : list snapshot_record := engine_records (sv_engines w).

(** Where SAVE puts the image, and the checkpoint in it. *)
Definition snapshot_name (mode : kvs_persistence_mode_t) : bytes :=
  if bool_decide (mode = KVS_PERSISTENCE_SNAPSHOT) then lit "snapshot.bin" else lit "snapshot.db".
Definition snapshot_checkpoint (mode : kvs_persistence_mode_t) f : kvs_snapshot_checkpoint_t :=
  if bool_decide (mode = KVS_PERSISTENCE_SNAPSHOT) then checkpoint_zero else Checkpoint 1 (zlen f).

(** What SAVE leaves: an image of the data set, with the length of the log in
    hybrid mode, or every file as it was; the log goes on. *)
Definition saved own F f w (r : Z) w' : Prop :=
  let mode := kvs_persistence_mode w in
  let c := snapshot_checkpoint mode f in
  keeps w w' ∧ server_ok own F f w' ∧ sv_engines w' = sv_engines w ∧ os_fds (disk w') = os_fds (disk w) ∧
  data_kept (disk w) (disk w') ∧ (r = 0 ∨ r = -1) ∧
  (saved_as (sv_engines w) c (snapshot_name mode) (disk w) (disk w') ∨ r = -1 ∧ files_intact (disk w) (disk w')) ∧
  (mode ≠ KVS_PERSISTENCE_AOF → healthy (disk w) → roomy (heap w) → savable c (sv_engines w) → r = 0).

Lemma log_kept (io io' : pworld RT D) f : aof_log io f → p_aof io' = p_aof io →
  os_fds (p_os io') = os_fds (p_os io) → data_kept (p_os io) (p_os io') → aof_log io' f.
Proof.
  intros (Hfd & Hin & Hoff & Hf) Ha Hfds Hd. unfold aof_log. rewrite Ha. split_and!; [done..|].
  unfold fd_file in *. rewrite Hfds. destruct (os_fds (p_os io) !! aw_fd (p_aof io)) as [i|]; [|done]. by apply Hd.
Qed.

Lemma server_ok_refl own F f w : server_ok own F f w → saved own F f w (-1) w ∨ kvs_persistence_mode w ≠ KVS_PERSISTENCE_AOF.
Proof.
  intros Hok. destruct (decide (kvs_persistence_mode w = KVS_PERSISTENCE_AOF)) as [E|]; [left|by right].
  split; [apply keeps_refl|]. split; [done|]. split; [done|]. split; [done|]. split; [by intros ?|]. split; [by right|].
  split; [right; split; [done|by intros ?]|done].
Qed.

(** One call of the store on behalf of SAVE. *)
Lemma save_call (checkpoint : option kvs_snapshot_checkpoint_t) own F f w :
  let mode := kvs_persistence_mode w in
  server_ok own F f w → default checkpoint_zero checkpoint = snapshot_checkpoint mode f →
  wp (on_io (kvs_snapshot_store_save_with_checkpoint (sv_engines w) (snapshot_name mode) checkpoint)) w (saved own F f w).
Proof.
  intros mode ([Hwf Ho] & Hmax & Hlog) Hc. unfold on_io. apply wp_zoom. eapply wp_mono.
  { apply (save_spec (sv_engines w) (sv_io w) (snapshot_name mode) checkpoint (own ++ engines_owned (sv_engines w)) F); try done.
    - rewrite Hc. unfold snapshot_checkpoint. case_bool_decide; [by left|right]. cbn. pose proof (zlen_nonneg f). lia.
    - unfold snapshot_name. by case_bool_decide. }
  intros r io' (Ho' & Hr' & Hk' & Ha' & Hfds' & Hd' & Hrc & Hst & _ & Hgood). rewrite Hc in *.
  split; [by split_and!|]. split.
  { split; [by split|]. split; [done|]. intros Hm. eapply log_kept; [by apply Hlog|done|done|done]. }
  split; [done|]. split; [done|]. split; [done|]. split; [done|]. split; [done|].
  intros _ Hh Hro Hs. apply Hgood; [done|done|done|]. unfold snapshot_name. by case_bool_decide.
Qed.

Lemma save_current_spec own F f w :
  server_ok own F f w → wp kvs_save_current_snapshot w (saved own F f w).
Proof.
  intros Hok. pose proof Hok as (_ & Hmax & Hlog). unfold kvs_save_current_snapshot.
  do 2 (eapply wp_eq; [done|]; cbv beta). destruct (kvs_persistence_mode w) eqn:Em.
  - rewrite bool_decide_eq_false_2, bool_decide_eq_true_2 by done. eapply wp_eq; [done|]. cbv beta.
    destruct Hlog as (Hfd & _ & Hoff & _); [done|].
    assert ((kvs_aof_get_offset ∘ sv_io) w = zlen f) as ->.
    { unfold compose, kvs_aof_get_offset. by rewrite (proj2 (Z.ltb_ge _ 0)). }
    pose proof (zlen_nonneg f). rewrite (proj2 (Z.ltb_ge _ 0)) by lia.
    pose proof (save_call (Some (Checkpoint 1 (zlen f))) own F f w) as Hs. cbv zeta in Hs. rewrite Em in Hs.
    by apply Hs.
  - rewrite bool_decide_eq_true_2 by done.
    pose proof (save_call None own F f w) as Hs. cbv zeta in Hs. rewrite Em in Hs. by apply Hs.
  - rewrite !bool_decide_eq_false_2 by done. apply wp_ret. by destruct (server_ok_refl own F f w Hok) as [|[]].
Qed.

Lemma server_ok_with_heap own own' F f h w : server_ok own F f w → owns (own' ++ engines_owned (sv_engines w)) F h →
  server_ok own' F f (with_heap h w).
Proof. intros ([Hwf _] & Hmax & Hlog) Ho. by split. Qed.

Lemma saved_with_heap own own' F f w h r w' h' :
  (roomy (heap w) → roomy h) → (roomy (heap w') → roomy h') → owns (own' ++ engines_owned (sv_engines w')) F h' →
  saved own F f (with_heap h w) r w' → saved own' F f w r (with_heap h' w').
Proof.
  intros Hr Hr' Ho (Hk & Hok & He & Hfds & Hd & Hrc & Hst & Hgood). unfold saved.
  split. { destruct Hk as (?&?&?&Hro&?). split_and!; try done. intros Hroom. by apply Hr', Hro, Hr. }
  split; [by eapply server_ok_with_heap|]. split_and!; try done. intros Hm Hh Hro. by apply Hgood; [| |apply Hr].
Qed.

Definition save_command : list bytes := [lit "SAVE"].

Lemma execute_save_spec b own F f w :
  reply_buffer b → server_ok own F f w → loading w = false →
  wp (kvs_execute_fields (slice_of <$> save_command) b KVS_COMMAND_SOURCE_CLIENT) w (λ '(r, b', _) w',
    owned (o_data b') = owned (o_data b) ∧ kept b b' ∧
    ∃ s, saved own F f w s w' ∧
      (reply_attempt b (if s <? 0 then lit "-ERR SAVE failed" ++ crlf else lit "+OK" ++ crlf) r b' ∨
       r = -1 ∧ ¬ roomy (heap w))).
Proof.
  intros Hb Hok Hload. apply wpx_wp.
  assert (message save_command) as Hm by (split; [split; vm_compute; discriminate|by constructor]).
  eapply (execute_fields_wrap save_command b _ (own ++ engines_owned (sv_engines w)) F);
    [done|done|by apply (bool_decide_unpack _)|apply Hok| |].
  - intros toks h Htoks Ho1 Hr1. apply wp_wpx. unfold execute_copied. rewrite !(token_of toks save_command) by done. cbv zeta.
    assert (zlen toks = zlen save_command) as -> by (rewrite <- Htoks; by rewrite zlen_fmap).
    rewrite (bool_decide_eq_true_2 (KVS_COMMAND_SOURCE_CLIENT = _)) by done. cbn [andb].
    change (streq (default [] (save_command !! O)) (lit "PING")) with false. cbv iota.
    do 2 (eapply wp_eq; [done|]; cbv beta). fold (loading (with_heap h w)).
    change (loading (with_heap h w)) with (loading w). rewrite Hload.
    change (streq (default [] (save_command !! O)) (lit "SAVE")) with true.
    change (negb (zlen save_command =? 1)) with false. cbv iota.
    eapply wp_step; [apply (save_current_spec ((cs_addr <$> toks) ++ own) F f)|].
    { eapply server_ok_with_heap; [done|]. by rewrite <- app_assoc. }
    intros s w1 Hsaved. eapply wp_step; [by apply copy_reply_attempt|]. intros [r b'] w2 (-> & Hatt). apply wp_ret.
    exists (own ++ engines_owned (sv_engines w1)). split.
    { rewrite app_assoc. apply Hsaved. }
    intros h' Ho2 Hr2. split; [apply Hatt|]. split; [apply Hatt|]. exists s. split; [by eapply saved_with_heap|by left].
  - intros h Ho1 Hroom. split; [done|]. split; [by apply kept_refl|]. exists (-1). split; [|by right].
    split; [by apply keeps_with_heap; [apply keeps_refl|]|]. split; [by eapply server_ok_with_heap|].
    split; [done|]. split; [done|]. split; [by intros ?|]. split; [by right|]. split; [|done]. right. split; [done|by intros ?].
Qed.

(** ** Every command of a client *)

Lemma client_cases w ts : ts ≠ [] → error_reply w ts = None →
  ts = save_command ∧ loading w = false ∨
  well_formed ts ∧ loading w = false ∧ (writes (cmd_kind (cmd_of ts)) = true → kvs_server_role w ≠ KVS_ROLE_REPLICA).
Proof.
  intros Hne. unfold error_reply. cbv zeta. destruct ts as [|name args]; [done|]. clear Hne.
  change (default [] ((name :: args) !! O)) with name.
  destruct (streq name (lit "PING")); [done|]. destruct (loading w); [done|].
  destruct (streq name (lit "SAVE")) eqn:Hsave.
  - apply streq_true in Hsave as ->. destruct (Z.eqb_spec (zlen (lit "SAVE" :: args)) 1) as [Hl|]; [|done]. intros _. left.
    split; [|done]. rewrite zlen_cons in Hl. destruct args as [|a args]; [done|]. rewrite zlen_cons in Hl.
    pose proof (zlen_nonneg args). lia.
  - change (cmd_of (name :: args)) with (command_id name). pose proof (command_id_range name).
    destruct (Z.eqb_spec (command_id name) KVS_CMD_COUNT); [done|].
    destruct (Z.eqb_spec (zlen (name :: args)) (arity (cmd_kind (command_id name)))) as [Hl|]; [|done]. cbn [negb].
    destruct (bool_decide _ && writes _) eqn:Hro; [done|]. intros _. right. split; [|split; [done|]].
    + exists name, args. split; [done|]. split; [lia|done].
    + intros Hw Hrole. rewrite Hw, bool_decide_eq_true_2 in Hro by done. done.
Qed.

(** * Durability *)

(** A write that may stand in the log. *)
Definition logged_write ts : Prop :=
  well_formed ts ∧ writes (cmd_kind (cmd_of ts)) = true ∧ key_ok ts ∧ Forall nul_free ts ∧ Forall (λ t, zlen t < SIZE_MAX) ts.

(** The data set went from [ms] to [ms'] by the writes that the log gained. *)
Definition advances (ms : kv_maps) f (ms' : kv_maps) f' : Prop :=
  ∃ cmds g, f' = f ++ g ∧ log_of cmds g ∧ Forall logged_write cmds ∧
    ∃ ms1, apply_log cmds ms = Some ms1 ∧ maps_eq ms' ms1.

Lemma apply_log_eq cmds ms ms' r : maps_eq ms ms' → apply_log cmds ms = Some r → ∃ r', apply_log cmds ms' = Some r' ∧ maps_eq r r'.
Proof. intros E Hr. pose proof (apply_log_proper (RT := RT) (Ea := Ea) (Er := Er) (Eh := Eh) (Es := Es) cmds ms ms' E) as Hp. rewrite Hr in Hp. destruct (apply_log cmds ms') as [y|]; [|by inversion Hp]. exists y. split; [done|]. by inversion Hp. Qed.

Lemma advances_refl ms ms' f : maps_eq ms' ms → advances ms f ms' f.
Proof. intros E. exists [], []. rewrite app_nil_r. split; [done|]. split; [by exists []|]. split; [done|]. by exists ms. Qed.

Lemma advances_trans ms1 ms2 ms3 f1 f2 f3 : advances ms1 f1 ms2 f2 → advances ms2 f2 ms3 f3 → advances ms1 f1 ms3 f3.
Proof.
  intros (c1 & g1 & -> & (u1 & Hu1 & ->) & Hc1 & m1 & Ha1 & E1) (c2 & g2 & -> & (u2 & Hu2 & ->) & Hc2 & m2 & Ha2 & E2).
  exists (c1 ++ c2), (mjoin u1 ++ mjoin u2). split; [by rewrite app_assoc|].
  split; [exists (u1 ++ u2); split; [by apply Forall2_app|by rewrite join_app]|]. split; [by apply Forall_app|].
  destruct (apply_log_eq _ _ _ _ E1 Ha2) as (m3 & Ha3 & E3). exists m3.
  split; [by rewrite apply_log_app, Ha1|]. by rewrite E2.
Qed.

Lemma advances_one ts ms f ms' : logged_write ts → command_text ts (aof_record ts) →
  (∃ ms1, apply_write ts ms = Some ms1 ∧ maps_eq ms' ms1) → advances ms f ms' (f ++ aof_record ts).
Proof.
  intros Hts Ht (ms1 & Hms & E). exists [ts], (aof_record ts). split; [done|].
  split; [exists [aof_record ts]; split; [by constructor|by rewrite <- (app_nil_r (aof_record ts)) at 1]|].
  split; [by constructor|]. exists ms1. split; [|done]. cbn [apply_log]. by rewrite Hms.
Qed.

(** The log on disk still starts with [f]. *)
Definition log_safe f w w' : Prop :=
  ∃ f', fd_file (disk w') (aw_fd (p_aof (sv_io w))) = Some f' ∧ take (List.length f) f' = f.

(** What a client's request does to a server that keeps a log. *)
Definition served own F f b w (r : Z) b' w' : Prop :=
  keeps w w' ∧ kept b b' ∧ (r = -1 ∨ ∃ reply, r = zlen reply ∧ replied b reply b') ∧
  ∃ f', server_ok (owned (o_data b') ++ own) F f' w' ∧ advances (maps w) f (maps w') f'.

Lemma replied_nil b : reply_buffer b → replied b [] b.
Proof.
  intros Hb. split; [done|]. split; [done|]. split; [done|]. destruct Hb as ((? & _) & _). rewrite zlen_nil, Z.add_0_r. split; [lia|]. by rewrite app_nil_r.
Qed.

Lemma served_reply own F f b w reply r b' w' :
  reply_buffer b → keeps w w' → server_ok (owned (o_data b) ++ own) F f w' → maps_eq (maps w') (maps w) →
  reply_attempt b reply r b' → served own F f b w r b' w'.
Proof.
  intros Hb Hk Hok Hm (Hown & Hkept & Hr & _). split; [done|]. split; [done|]. split.
  - destruct Hr as [[-> Hr]|Hr]; [right; by exists reply|by left].
  - exists f. rewrite Hown. split; [done|]. by apply advances_refl.
Qed.

Lemma same_files_ok own own' F f w w' : server_ok own F f w → kvs_persistence_mode w' = kvs_persistence_mode w →
  same_files w w' → data_ok own' F w' → server_ok own' F f w'.
Proof.
  intros (_ & Hmax & Hlog) Hm [Hd Ha] Hok. split; [done|]. split; [done|]. rewrite Hm. intros Hne.
  eapply log_kept; [by apply Hlog|done| |]; unfold disk in Hd; rewrite Hd; [done|by intros ?].
Qed.

Lemma client_write_served ts own F f b w :
  reply_buffer b → message ts → Forall nul_free ts → well_formed ts → writes (cmd_kind (cmd_of ts)) = true → key_ok ts →
  kvs_server_role w ≠ KVS_ROLE_REPLICA → kvs_persistence_mode w ≠ KVS_PERSISTENCE_SNAPSHOT →
  server_ok (owned (o_data b) ++ own) F f w →
  wpx (kvs_execute_fields (slice_of <$> ts) b KVS_COMMAND_SOURCE_CLIENT) w
    (λ '(r, b', _) w', served own F f b w r b' w') (log_safe f w).
Proof.
  intros Hb Hm Hnul Hts Hk Hkey Hrole Hmode Hok. pose proof Hok as (Hd & Hmax & Hlog).
  eapply wpx_mono; [apply (execute_write_spec ts b KVS_COMMAND_SOURCE_CLIENT (owned (o_data b) ++ own) F f w); try done| |].
  { unfold read_only. by rewrite bool_decide_eq_false_2. }
  { intros _. by apply Hlog. }
  2:{ intros w' (_ & _ & Hp). exact Hp. }
  assert (logged KVS_COMMAND_SOURCE_CLIENT w = true) as Hl.
  { unfold logged. by rewrite !bool_decide_eq_true_2. }
  intros [[r b'] st] w' [(-> & Hkept & Hown & Hks & Hd' & Hf & Hm' & _)|(ret & Hex & Hkept & Hown & Hr & _)].
  - split; [done|]. split; [done|]. split; [by left|]. exists f. rewrite Hown.
    split; [|by apply advances_refl]. eapply same_files_ok; [done|apply Hks|done|done].
  - destruct Hex as (Hks & Hd' & Hw & Hfl & _). split; [done|]. split; [done|]. split.
    { destruct Hr as [(-> & Hr & _)|Hr]; [right; by eexists|by left]. }
    rewrite Hl, andb_true_r in Hfl. rewrite Hown.
    apply written_ret in Hw as [[-> Hms]|[Hne Hms]].
    + destruct Hfl as (Hl' & Ht & _ & Hmax'). exists (f ++ aof_record ts). split; [by split|].
      apply advances_one; [|done|done]. split_and!; try done. apply Hm.
    + rewrite (proj2 (Z.eqb_neq _ _)) in Hfl by done. exists f.
      split; [|by apply advances_refl]. eapply same_files_ok; [done|apply Hks|done|done].
Qed.

(** Whatever a client sends. *)
Lemma client_served ts own F f b w :
  reply_buffer b → message ts → (well_formed ts → key_ok ts) → kvs_persistence_mode w ≠ KVS_PERSISTENCE_SNAPSHOT →
  server_ok (owned (o_data b) ++ own) F f w →
  wpx (kvs_execute_fields (slice_of <$> ts) b KVS_COMMAND_SOURCE_CLIENT) w
    (λ '(r, b', _) w', served own F f b w r b' w') (log_safe f w).
Proof.
  intros Hb Hm Hkey Hmode Hok. pose proof Hok as (Hd & Hmax & Hlog).
  destruct (decide (Forall nul_free ts)) as [Hnul|Hnul]; cycle 1.
  { apply wp_wpx. eapply wp_mono; [by apply execute_nul_spec|]. intros [[r b'] st] w' (-> & _ & Hatt).
    rewrite bool_decide_eq_true_2 in Hatt by done. eapply served_reply; [done|apply keeps_refl|done|done|exact Hatt]. }
  destruct (error_reply w ts) as [reply|] eqn:Herr.
  { apply wp_wpx. eapply wp_mono; [by apply (execute_error_spec ts b reply (owned (o_data b) ++ own) F)|].
    intros [[r b'] st] w' (h & -> & Hr & Hd' & _ & Hatt).
    assert (keeps w (with_heap h w)) as Hks by (apply keeps_with_heap; [apply keeps_refl|done]).
    assert (server_ok (owned (o_data b) ++ own) F f (with_heap h w)) as Hok' by (by eapply same_files_ok).
    destruct Hatt as [Hatt|(-> & -> & _)]; [by eapply served_reply|].
    split; [done|]. split; [by apply kept_refl|]. split; [by left|]. exists f. split; [done|by apply advances_refl]. }
  apply client_cases in Herr as [[-> Hload]|(Hts & Hload & Hrole)]; [| |by apply message_nonempty].
  { apply wp_wpx. eapply wp_mono; [by apply (execute_save_spec b (owned (o_data b) ++ own) F f)|].
    intros [[r b'] st] w' (Hown & Hkept & s & (Hks & Hok' & He & _) & Hr).
    assert (maps_eq (maps w') (maps w)) as Hms by (unfold maps; by rewrite He).
    destruct Hr as [Hatt|[-> _]]; [by eapply served_reply|]. split; [done|]. split; [done|]. split; [by left|].
    exists f. rewrite Hown. split; [done|]. by apply advances_refl. }
  destruct (writes (cmd_kind (cmd_of ts))) eqn:Hk.
  { apply client_write_served; auto. }
  apply wp_wpx. eapply wp_mono; [by apply (execute_read_spec ts b own F); auto|].
  intros [[r b'] st] w' (h & -> & Hd' & Hr' & Hkept & Hr & _).
  split; [by apply keeps_with_heap; [apply keeps_refl|]|]. split; [done|]. split.
  { destruct Hr as [[-> Hr]|Hr]; [right; by eexists|by left]. }
  exists f. split; [|by apply advances_refl]. by eapply same_files_ok.
Qed.

Lemma network_served msg own F f b w :
  zlen msg ≤ SIZE_MAX → reply_buffer b → (∀ ts t, starts_with ts t msg → well_formed ts → key_ok ts) →
  kvs_persistence_mode w ≠ KVS_PERSISTENCE_SNAPSHOT →
  server_ok (owned (o_data b) ++ own) F f w →
  wpx (kvs_network_protocol msg b) w (λ '(r, b', n) w', served own F f b w r b' w' ∧ 0 ≤ n ≤ zlen msg) (log_safe f w).
Proof.
  intros Hsz Hb Hkey Hmode Hok. pose proof (zlen_nonneg msg).
  destruct (parse_message msg) as [[fields n]| |] eqn:Hp.
  - apply parse_message_complete in Hp as (ts & t & Hs & -> & ->); [|done].
    unfold wpx. rewrite (network_command ts t) by done.
    match goal with |- match ?m w with Ok x w' => ?Q | Halt w' => ?G | _ => _ end =>
      change (wpx m w (λ x w', Q) (λ w', G)) end. cbv beta.
    eapply wpx_stepx.
    { apply (client_served ts own F f b w); try done; [by eapply starts_with_message|by eapply Hkey]. }
    intros [[r b'] st] w' (Hks & Hkept & Hr & Hpost). apply wp_wpx.
    assert (0 ≤ zlen t ≤ zlen msg) as Ht.
    { destruct Hs as (_ & _ & _ & rest & ->). rewrite zlen_app. pose proof (zlen_nonneg t). pose proof (zlen_nonneg rest). lia. }
    destruct ((r <? 0) || (reply_capacity b' <? r)); apply wp_ret; (split; [|lia]); split_and!; try done. by left.
  - destruct (Z.lt_ge_cases (zlen msg) KVS_MAX_CLIENT_COMMAND_BYTES) as [Hlt|Hge].
    + apply wp_wpx. unfold wp. rewrite network_waits by done. split; [|lia]. split; [apply keeps_refl|].
      split; [by apply kept_refl|]. split; [right; exists []; split; [done|by apply replied_nil]|].
      exists f. split; [done|by apply advances_refl].
    + apply wp_wpx. eapply wp_mono; [apply network_refused; [done|by intros ->|by right]|].
      intros [[r b'] n] w' (-> & Hatt & ->). split; [eapply served_reply; [done|apply keeps_refl|done|done|exact Hatt]|].
      destruct (r <? 0); lia.
  - apply wp_wpx. eapply wp_mono; [apply network_refused; [done|by intros ->|by left]|].
    intros [[r b'] n] w' (-> & Hatt & ->). split; [eapply served_reply; [done|apply keeps_refl|done|done|exact Hatt]|].
    destruct (r <? 0); lia.
Qed.

(** * Recovery *)

Definition response_array (array : addr) (cap : Z) : kvs_output_buffer_t :=
  OutputBuffer (Some (array, replicate (Z.to_nat cap) None)) 0 0 cap.

Lemma response_array_ok array cap : 0 < cap ≤ INT_MAX → reply_buffer (response_array array cap).
Proof.
  intros Hc. split; [|split; [cbn; lia|by eexists]]. cbn. split; [lia|]. split; [lia|]. split; [lia|].
  unfold zlen. rewrite length_replicate. lia.
Qed.

(** A logged write handed to the executor by recovery, or by a primary. *)
Definition applied_write ts w (r : Z) w' : Prop :=
  0 < r ≤ REPLY_ROOM ∧ (∃ ms, apply_write ts (maps w) = Some ms ∧ maps_eq (maps w') ms) ∨
  r = -1 ∧ maps_eq (maps w') (maps w).

Lemma status_of_write ts ret : writes (cmd_kind (cmd_of ts)) = true →
  filter_status (cmd_of ts) ret KVS_EXEC_FAILED = KVS_EXEC_OK ↔ ret = 0.
Proof.
  intros Hk. unfold filter_status. destruct (Z.ltb_spec ret 0); [split; [done|lia]|].
  destruct (cmd_kind (cmd_of ts)); try done; destruct (Z.eqb_spec ret 0); done.
Qed.

Lemma recovery_command_spec array ts own F w :
  logged_write ts → data_ok own F w →
  wp (kvs_recovery_fields_protocol array (slice_of <$> ts) REPLAY_RESPONSE) w (λ r w',
    keeps w w' ∧ data_ok own F w' ∧ same_files w w' ∧ applied_write ts w r w' ∧
    (roomy (heap w) → is_Some (apply_write ts (maps w)) → 0 < r)).
Proof.
  intros (Hts & Hk & Hkey & Hnul & Hlen) Hd. unfold kvs_recovery_fields_protocol, kvs_fields_protocol.
  change (REPLAY_RESPONSE <=? 0) with false. cbv iota. fold (response_array array REPLAY_RESPONSE).
  assert (reply_buffer (response_array array REPLAY_RESPONSE)) as Hb by (apply response_array_ok; unfold REPLAY_RESPONSE, INT_MAX; lia).
  assert (message ts) as Hm.
  { split; [|done]. pose proof (well_formed_args _ Hts) as (_ & -> & _). unfold KVS_MAX_TOKENS. destruct (cmd_kind _); cbn; lia. }
  assert (logged KVS_COMMAND_SOURCE_RECOVERY w = false) as Hl by (unfold logged; by rewrite bool_decide_eq_false_2 by tauto).
  apply wpx_wp. eapply wpx_stepx.
  { eapply wpx_mono; [apply (execute_write_spec ts (response_array array REPLAY_RESPONSE) KVS_COMMAND_SOURCE_RECOVERY own F [] w); try done| |].
    - unfold read_only. by rewrite andb_false_r.
    - intros x w' Hx. exact Hx.
    - intros w' (Hlog & _). by rewrite Hl in Hlog. }
  intros [[r b'] st] w' [(-> & _ & _ & Hks & Hd' & Hf & Hm' & Hcap)|(ret & (Hks & Hd' & Hw & Hfl & Hgood) & _ & _ & Hr & Hroom)].
  - apply wpx_ret. split; [done|]. split; [done|]. split; [done|]. split; [by right|]. intros Hro. by specialize (Hcap Hro).
  - rewrite Hl, andb_false_r in Hfl.
    assert (r ≠ -1) as Hne by (apply Hroom; by vm_compute).
    destruct Hr as [(-> & _ & Hst)|]; [|done]. unfold write_reply_text. rewrite (bool_decide_eq_false_2 (_ = _)) by done.
    pose proof (write_text_short (cmd_kind (cmd_of ts)) ret). rewrite (proj2 (Z.ltb_ge _ 0)) by lia. cbn [orb].
    pose proof (status_of_write ts ret Hk) as Hstat. apply written_ret in Hw as [[-> Hms]|[Hne0 Hms]].
    + rewrite bool_decide_eq_false_2; [|intros Hst'; apply Hst'; rewrite Hst; by apply Hstat].
      apply wpx_ret. split; [done|]. split; [done|]. split; [done|]. split; [left; split; [lia|done]|]. lia.
    + rewrite bool_decide_eq_true_2; [|intros Hst'; apply Hne0, Hstat; congruence].
      apply wpx_ret. split; [done|]. split; [done|]. split; [done|]. split; [by right|].
      intros Hro Hs. by specialize (Hgood Hro Hs).
Qed.

Lemma same_files_trans w1 w2 w3 : same_files w1 w2 → same_files w2 w3 → same_files w1 w3.
Proof. intros [? ?] [? ?]. split; congruence. Qed.

(** Replaying the writes of a log. *)
Lemma recovery_commands_spec array cmds own F w :
  Forall logged_write cmds → data_ok own F w →
  wp (replay_commands (kvs_recovery_fields_protocol array) cmds) w (λ r w',
    keeps w w' ∧ data_ok own F w' ∧ same_files w w' ∧
    (r = 0 ∧ (∃ ms, apply_log cmds (maps w) = Some ms ∧ maps_eq (maps w') ms) ∨ r = -1) ∧
    (roomy (heap w) → is_Some (apply_log cmds (maps w)) → r = 0)).
Proof.
  revert w. induction cmds as [|ts cmds IH]; intros w Hc Hd; cbn [replay_commands].
  { apply wp_ret. split; [apply keeps_refl|]. split; [done|]. split; [done|]. split; [left; split; [done|by exists (maps w)]|done]. }
  apply Forall_cons in Hc as [Hts Hc]. eapply wp_step; [by apply (recovery_command_spec array ts own F)|].
  intros r w1 (Hk1 & Hd1 & Hf1 & Hr & Hgood). destruct Hr as [(Hr & ms & Hms & E)|[-> E]]; cycle 1.
  { apply wp_ret. split; [done|]. split; [done|]. split; [done|]. split; [by right|]. intros Hro Hs. exfalso.
    cbn [apply_log] in Hs. destruct (apply_write ts (maps w)) eqn:Ew; [|by destruct Hs].
    by specialize (Hgood Hro ltac:(by eexists)). }
  rewrite (proj2 (Z.leb_gt _ 0)), (proj2 (Z.ltb_ge REPLAY_RESPONSE _)) by (unfold REPLY_ROOM, REPLAY_RESPONSE in *; lia). cbn [orb].
  eapply wp_mono; [by apply IH|]. intros r2 w2 (Hk2 & Hd2 & Hf2 & Hr2 & Hgood2).
  split; [by eapply keeps_trans|]. split; [done|]. split; [by eapply same_files_trans|].
  cbn [apply_log]. rewrite Hms. cbn [mbind option_bind]. split.
  - destruct Hr2 as [(-> & ms2 & Hms2 & E2)|Hr2]; [left; split; [done|]|by right].
    destruct (apply_log_eq _ _ _ _ E Hms2) as (ms3 & Hms3 & E3). exists ms3. split; [done|]. by rewrite E2.
  - intros Hro [ms3 Hms3]. apply Hgood2; [by apply Hk1|]. symmetry in E.
    destruct (apply_log_eq _ _ _ _ E Hms3) as (ms4 & Hms4 & _). by eexists.
Qed.

(** ** Start-up *)

Lemma step_engines_io {X Y} (m : engines → M (pworld RT D) (X * engines)) (k : X → M W Y) w P Q G :
  wp (m (sv_engines w)) (sv_io w) P →
  (∀ x es io, P (x, es) io →
     wpx (k x) (Server io es (kvs_server_role w) (kvs_persistence_mode w) (sv_link w)) Q G) →
  wpx (on_engines m ≫= k) w Q G.
Proof.
  unfold wp, wpx, on_engines, on_io, mbind, M_bind, gets, modify, zoom. intros Hm Hk.
  destruct (m (sv_engines w) (sv_io w)) as [[x es] io|io|]; [|done..]. by apply Hk.
Qed.

(** The log in the file [path]; there may be none yet. *)
Definition log_file w (path f : bytes) : Prop :=
  file_at (disk w) path = Some f ∨ os_names (disk w) !! path = None ∧ f = [].

Lemma logged_write_fields ts : logged_write ts → 1 ≤ zlen ts ≤ 3.
Proof. intros (Hts & _). pose proof (well_formed_args _ Hts) as (_ & -> & _). destruct (cmd_kind _); cbn; lia. Qed.

(** Replaying the commands [cmds] that the log holds behind [pre]. *)
Definition replayed cmds own F w (r : Z) w' : Prop :=
  keeps w w' ∧ data_ok own F w' ∧ os_same (disk w) (disk w') ∧ p_aof (sv_io w') = p_aof (sv_io w) ∧
  (r = 0 ∧ (∃ ms, apply_log cmds (maps w) = Some ms ∧ maps_eq (maps w') ms) ∨ r = -1).

Lemma replay_log_spec path pre g cmds array own F w :
  path ≠ [] → log_file w path (pre ++ g) → zlen (pre ++ g) ≤ SIZE_MAX → log_of cmds g → Forall logged_write cmds → data_ok own F w →
  wp (replay_log path (zlen pre) array) w (λ r w', replayed cmds own F w r w' ∧
    (roomy (heap w) → healthy (disk w) → is_Some (apply_log cmds (maps w)) → is_Some (file_at (disk w) path) → r = 0)).
Proof.
  intros Hp Hfile Hsz (ts & Hts & ->) Hc Hd. unfold replay_log. pose proof (zlen_nonneg pre). destruct Hfile as [Hfile|[Hnone Hnil]].
  - eapply wp_mono.
    { apply (aof_replay_commands _ _ path pre cmds ts (kvs_recovery_fields_protocol array) w
        (λ r w', replayed cmds own F w r w' ∧ (roomy (heap w) → is_Some (apply_log cmds (maps w)) → r = 0))); try done.
      { eapply Forall_impl; [exact Hc|]. intros c Hl. by apply logged_write_fields. }
      intros w1 (d & -> & Hs & Hk). eapply wp_mono; [apply (recovery_commands_spec array cmds own F); [done|exact Hd]|].
      intros r w2 ((?&?&?&?&Hk2) & Hd2 & [Hdisk Haof] & Hr & Hgood). split; [|exact Hgood].
      split; [split_and!; try done; unfold keeps_health in *; naive_solver|]. split; [done|].
      split; [unfold disk in *; rewrite Hdisk; exact Hs|]. by split. }
    intros r w' [(-> & Hh & d & -> & Hs & Hk)|(r2 & w2 & [(Hk2 & Hd2 & Hs2 & Ha2 & Hr2) Hgood] & (d & -> & Hs & Hk) & Hr)].
    + split; [|done]. split; [by split_and!|]. split; [done|]. split; [done|]. split; [done|by right].
    + split.
      * split. { destruct Hk2 as (?&?&?&?&?). split_and!; try done. unfold keeps_health in *. auto. }
        split; [done|]. split; [by eapply os_same_trans|]. split; [done|]. destruct Hr as [->|[-> _]]; [exact Hr2|by right].
      * intros Hro Hh Hs3 _. destruct Hr as [->|[_ []]]; [by apply Hgood|]. by apply Hk2.
  - eapply wp_mono; [by apply aof_replay_missing|]. intros r w' [(d & -> & Hs & Hk) Hr].
    apply app_nil in Hnil as [-> Hjoin]. assert (cmds = []) as ->.
    { destruct cmds as [|c cmds]; [done|]. apply Forall2_cons_inv_l in Hts as (t & ts' & Ht & _ & ->).
      change (mjoin (t :: ts')) with (t ++ mjoin ts') in Hjoin. apply app_nil in Hjoin as [-> _]. by apply command_text_pos in Ht. }
    split; [|intros _ _ _ [f Hf]; unfold file_at in Hf; by rewrite Hnone in Hf].
    split; [by split_and!|]. split; [done|]. split; [done|]. split; [done|]. destruct Hr as [->| ->]; [left|by right].
    split; [done|]. by exists (maps w).
Qed.

Lemma give_up_start_spec code own F w : data_ok own F w →
  wp (give_up_start code) w (λ r w', r = Some code ∧ owns own F (heap w') ∧ same_files w w' ∧
    kvs_server_role w' = kvs_server_role w ∧ kvs_persistence_mode w' = kvs_persistence_mode w).
Proof.
  intros [Hwf Ho]. unfold give_up_start. apply wpx_wp. eapply step_engines_io.
  { eapply step_rt; [by apply (dest_spec _ own F)|]. intros es r [Ho1 Hr1]. apply wp_ret.
    instantiate (1 := λ '(_, es) io, owns own F (p_rt io) ∧ p_os io = disk w ∧ p_aof io = p_aof (sv_io w)). by split_and!. }
  intros _ es io (Ho1 & Hd1 & Ha1). by apply wpx_ret.
Qed.

(** The engines are made. *)
Lemma init_engines_spec own F w :
  owns own F (heap w) →
  wp (on_engines (λ _, on_rt (init_kvengine (Ea := Ea) (Er := Er) (Eh := Eh) (Es := Es)))) w (λ r w',
    keeps w w' ∧ same_files w w' ∧ (roomy (heap w) → r = 0) ∧
    (r = 0 ∧ data_ok own F w' ∧ maps_eq (maps w') empty_maps ∨ r = -1 ∧ owns own F (heap w'))).
Proof.
  intros Ho. pose proof (init_spec (Ea := Ea) (Er := Er) (Eh := Eh) (Es := Es) own F (heap w) Ho) as Hi.
  unfold wp in *. unfold on_engines, on_io, on_rt, mbind, M_bind, gets, modify, zoom. unfold heap in Hi.
  destruct (init_kvengine (p_rt (sv_io w))) as [[r es] h| |]; [|done..]. destruct Hi as [Hr Hi]. cbn.
  split; [split_and!; try done; [naive_solver|by intros ?]|]. split; [done|]. split; [naive_solver|].
  destruct Hi as [(-> & Hwf & Ho' & Hm)|[-> Ho']]; [left|right; by split]. split; [done|]. by split.
Qed.

(** How a start ends: the server runs on the data set [ms] with the log [f], or it
    has given everything back. *)
Definition started own F ms f w (code : option Z) w' : Prop :=
  kvs_server_role w' = kvs_server_role w ∧ kvs_persistence_mode w' = kvs_persistence_mode w ∧
  files_intact (disk w) (disk w') ∧
  (code = None ∧ server_ok own F f w' ∧ maps_eq (maps w') ms ∨ code = Some 1 ∧ owns own F (heap w')).

Lemma files_intact_same (d d' d2 : D) : files_intact d d' → os_same d' d2 → files_intact d d2.
Proof. intros Hi (En & Ed & _) p f Hf%Hi. unfold file_at in *. by rewrite En, Ed. Qed.

Lemma files_intact_trans (d d' d2 : D) : files_intact d d' → files_intact d' d2 → files_intact d d2.
Proof. intros H1' H2' p f Hf. by apply H2', H1'. Qed.

Lemma log_file_same w w' path f : log_file w path f → os_same (disk w) (disk w') → log_file w' path f.
Proof.
  intros Hl (En & Ed & Ef). unfold log_file, file_at in *. by rewrite En, Ed.
Qed.

(** Giving up once the engines exist. *)
Lemma give_up_spec ms f own F w0 w :
  data_ok own F w → kvs_server_role w = kvs_server_role w0 → kvs_persistence_mode w = kvs_persistence_mode w0 →
  files_intact (disk w0) (disk w) → wp (give_up_start 1) w (started own F ms f w0).
Proof.
  intros Hd Hrole Hmode Hint. eapply wp_mono; [by apply (give_up_start_spec 1 own F)|].
  intros code w' (-> & Ho & [Hs _] & Hr & Hm). split; [congruence|]. split; [congruence|]. split; [by rewrite Hs|]. by right.
Qed.

(** The last step of a start: the log is opened at its end. *)
Definition open_step (path : bytes) : M W (option Z) :=
  opened ← on_io (kvs_aof_open path);
  if opened <? 0 then give_up_start 1 else mret None.

Lemma open_step_spec path ms f own F w0 w :
  kvs_server_role w = kvs_server_role w0 → kvs_persistence_mode w = kvs_persistence_mode w0 → files_intact (disk w0) (disk w) →
  path ≠ [] → data_ok own F w → p_aof (sv_io w) = aof_writer_closed → log_file w path f → zlen f ≤ INT64_MAX → maps_eq (maps w) ms →
  wp (open_step path) w (λ code w', started own F ms f w0 code w' ∧
    (healthy (disk w) → is_Some (file_at (disk w) path) → code = None)).
Proof.
  intros Hrole Hmode Hint Hp Hd Ha Hl Hmax Hms. unfold open_step. apply wpx_wp. eapply step_io; [by apply aof_open_spec|].
  intros opened io (Hrt & Hk & Hkeep & Hpost). fold (disk w) in Hkeep.
  assert (files_intact (disk w0) (p_os io)) as Hint' by (by eapply files_intact_trans).
  assert (data_ok own F (put_io io w)) as Hd' by (split; [apply Hd|]; unfold heap; cbn; rewrite Hrt; apply Hd).
  destruct Hpost as [(-> & f' & Hlog & Hf')|(-> & Ha' & Hfds & Hgood)]; cbn [Z.ltb Z.compare].
  - apply wpx_ret. split; [|done]. split_and!; try done. left. split; [done|]. split; [|done]. split; [done|]. split; [done|].
    intros _. assert (f' = f) as ->; [|done]. destruct Hl as [Hl|[Hl ->]]; destruct Hf' as [[Hn ->]|Hf'].
    + unfold file_at, disk in Hl. by rewrite Hn in Hl.
    + unfold disk in Hl. congruence.
    + done.
    + unfold file_at, disk in *. by rewrite Hl in Hf'.
  - apply wp_wpx. eapply wp_mono; [by apply (give_up_spec ms f own F w0)|].
    intros code w' Hst. split; [done|]. intros Hh [d Hf]. unfold disk in *. rewrite Hgood in Hf by done. done.
Qed.

(** Replaying the log of the data set [ms0] and opening it. *)
Lemma replay_open_spec path pre g cmds array ms0 ms own F w0 w :
  kvs_server_role w = kvs_server_role w0 → kvs_persistence_mode w = kvs_persistence_mode w0 → files_intact (disk w0) (disk w) →
  path ≠ [] → data_ok own F w → p_aof (sv_io w) = aof_writer_closed → log_file w path (pre ++ g) → zlen (pre ++ g) ≤ INT64_MAX →
  log_of cmds g → Forall logged_write cmds → maps_eq (maps w) ms0 → apply_log cmds ms0 = Some ms →
  wp (replayed ← replay_log path (zlen pre) array;
      if replayed <? 0 then give_up_start 1 else open_step path) w (λ code w', started own F ms (pre ++ g) w0 code w' ∧
    (roomy (heap w) → healthy (disk w) → is_Some (file_at (disk w) path) → code = None)).
Proof.
  intros Hrole Hmode Hint Hp Hd Ha Hl Hmax Hg Hc Hms0 Happ.
  eapply wp_step; [apply (replay_log_spec path pre g cmds array own F w); try done; unfold SIZE_MAX, INT64_MAX in *; lia|].
  symmetry in Hms0. destruct (apply_log_eq _ _ _ _ Hms0 Happ) as (ms1 & Happ1 & E1).
  intros r w1 [(Hk1 & Hd1 & Hs1 & Ha1 & Hr) Hgood]. pose proof (files_intact_same _ _ _ Hint Hs1) as Hint1.
  destruct Hk1 as (Hrole1 & Hmode1 & _ & Hroom1 & Hh1).
  destruct Hr as [(-> & ms2 & Hms2 & E2)| ->]; cbn [Z.ltb Z.compare].
  - assert (maps_eq (maps w1) ms) as E3 by (rewrite E2, E1; by assert (ms2 = ms1) as -> by congruence).
    assert (log_file w1 path (pre ++ g)) as Hl1 by (by eapply log_file_same).
    eapply wp_mono; [apply (open_step_spec path ms (pre ++ g) own F w0 w1); (done || congruence)|].
    { intros code w' [Hst Hcode]. split; [done|]. intros _ Hh Hf. apply Hcode; [by apply Hh1|].
      destruct Hs1 as (En & Ed & _). unfold file_at in *. by rewrite En, Ed. }
  - eapply wp_mono; [apply (give_up_spec ms (pre ++ g) own F w0); (done || congruence)|].
    intros code w' Hst. split; [done|]. intros Hro Hh Hf. assert (-1 = 0) by (apply Hgood; try done; by eexists). done.
Qed.

(** *** The append-only mode *)

Lemma recover_aof_spec array cmds f ms own F w :
  kvs_server_role w ≠ KVS_ROLE_REPLICA → kvs_persistence_mode w = KVS_PERSISTENCE_AOF →
  p_aof (sv_io w) = aof_writer_closed → owns own F (heap w) → log_file w (lit "commands.aof") f → zlen f ≤ INT64_MAX →
  log_of cmds f → Forall logged_write cmds → apply_log cmds empty_maps = Some ms →
  wp (kvs_server_recover array) w (λ code w', started own F ms f w code w' ∧
    (roomy (heap w) → healthy (disk w) → is_Some (file_at (disk w) (lit "commands.aof")) → code = None)).
Proof.
  intros Hrole Hmode Ha Ho Hl Hmax Hg Hc Happ. unfold kvs_server_recover.
  eapply wp_step; [by apply (init_engines_spec own F)|]. intros r w1 ((Hrole1 & Hmode1 & _ & Hroom1 & Hh1) & [Hd1 Ha1] & Hr1 & Hr).
  destruct Hr as [(-> & Hok & Hms)|[-> Hf]]; cbn [Z.ltb Z.compare]; cycle 1.
  { apply wp_ret. split; [|by intros ?%Hr1]. split; [done|]. split; [done|]. split; [rewrite Hd1; by intros ?|]. by right. }
  do 2 (eapply wp_eq; [done|]; cbv beta). rewrite Hrole1, Hmode1, Hmode, bool_decide_eq_false_2 by done.
  rewrite (bool_decide_eq_false_2 (_ = KVS_PERSISTENCE_SNAPSHOT)), bool_decide_eq_true_2 by done.
  fold (open_step (lit "commands.aof")). eapply wp_mono.
  - assert (log_file w1 (lit "commands.aof") f) as Hl1 by (unfold log_file; by rewrite Hd1).
    assert (files_intact (disk w) (disk w1)) as Hint by (rewrite Hd1; by intros ?).
    apply (replay_open_spec (lit "commands.aof") [] f cmds array empty_maps ms own F w w1); (done || congruence).
  - intros code w' [Hst Hgood]. split; [done|]. intros Hro Hh Hfile. apply Hgood; [by apply Hroom1|by apply Hh1|by rewrite Hd1].
Qed.

(** *** Snapshots *)

Notation insert_records := (insert_records (RT := RT) (Ea := Ea) (Er := Er) (Eh := Eh) (Es := Es)).
Notation record_key_ok := (record_key_ok (RT := RT) (Ea := Ea) (Er := Er) (Eh := Eh) (Es := Es)).

(** The file [path] is a snapshot of the data set [ms] with the checkpoint [ck]. *)
Definition snapshot_file (d : D) (path : bytes) ck (ms : kv_maps) : Prop :=
  ∃ data rs ms', file_at d path = Some data ∧ zlen data ≤ SIZE_MAX ∧ snapshot_text ck rs data ∧ Forall record_key_ok rs ∧
    insert_records empty_maps rs = Some ms' ∧ maps_eq ms' ms.

Lemma wp_engines_io {X} (m : engines → M (pworld RT D) (X * engines)) w (Q : X → W → Prop) :
  wp (m (sv_engines w)) (sv_io w)
    (λ '(x, es) io, Q x (Server io es (kvs_server_role w) (kvs_persistence_mode w) (sv_link w))) →
  wp (on_engines m) w Q.
Proof.
  unfold wp, on_engines, on_io, mbind, M_bind, gets, modify, zoom.
  by destruct (m (sv_engines w) (sv_io w)) as [[x es] io|io|].
Qed.

(** What every load keeps. *)
Definition load_keeps own F w w' : Prop :=
  keeps w w' ∧ data_ok own F w' ∧ os_same (disk w) (disk w') ∧ p_aof (sv_io w') = p_aof (sv_io w).

(** Loading on the global engines, which are empty. *)
Definition load_call (path : bytes) : M W (Z * kvs_snapshot_checkpoint_t) :=
  on_engines (λ es,
    '(r, checkpoint, es) ← kvs_snapshot_store_load_with_checkpoint path checkpoint_zero es;
    mret ((r, checkpoint), es)).

Lemma load_call_spec path data ck rs own F w :
  path ≠ [] → data_ok own F w → maps_eq (maps w) empty_maps →
  file_at (disk w) path = Some data → zlen data ≤ SIZE_MAX → snapshot_text ck rs data → Forall record_key_ok rs →
  wp (load_call path) w (λ '(r, checkpoint) w', load_keeps own F w w' ∧
    (r = 0 ∧ checkpoint = ck ∧ (∃ ms, insert_records empty_maps rs = Some ms ∧ maps_eq (maps w') ms) ∨ r = -1) ∧
    (roomy (heap w) → healthy (disk w) → insert_records empty_maps rs ≠ None → r = 0)).
Proof.
  intros Hp [Hwf Ho] Hempty Hf Hsz Ht Hk. unfold load_call. apply wp_engines_io.
  eapply wp_step; [by apply (load_accepted path checkpoint_zero data ck rs (sv_engines w) (sv_io w) own F)|].
  intros [[r checkpoint] es'] io ((Hwf' & Ho' & Hr') & Hs & Hh & Ha & Hx & Hgood). apply wp_ret.
  pose proof (insert_records_proper (RT := RT) (Ea := Ea) (Er := Er) (Eh := Eh) (Es := Es) _ _ Hempty rs _ eq_refl) as Hins.
  split; [split; [by split_and!|by split_and!]|]. split.
  - destruct Hx as [(-> & -> & ms & Hms & E)|[-> _]]; [left|by right]. split; [done|]. split; [done|].
    unfold maps in Hins. rewrite Hms in Hins. destruct (insert_records empty_maps rs) as [ms2|]; [|by inversion Hins].
    exists ms2. split; [done|]. inversion Hins as [? ? E2|]; subst. unfold maps. cbn. by rewrite E.
  - intros Hro Hhe Hno. apply Hgood; [done|done|]. intros Hnone. apply Hno. unfold maps in Hins. rewrite Hnone in Hins. by inversion Hins.
Qed.

(** A file that is not there, or not a snapshot. *)
Lemma load_call_refused path own F w :
  path ≠ [] → data_ok own F w →
  (∀ d ck rs, file_at (disk w) path = Some d → zlen d ≤ SIZE_MAX → snapshot_text ck rs d → False) →
  (∀ d, file_at (disk w) path = Some d → zlen d ≤ SIZE_MAX) →
  wp (load_call path) w (λ '(r, checkpoint) w', sv_engines w' = sv_engines w ∧ heap w' = heap w ∧
    os_same (disk w) (disk w') ∧ p_aof (sv_io w') = p_aof (sv_io w) ∧ keeps w w' ∧
    (r = 1 ∧ os_names (disk w) !! path = None ∨ r = -1)).
Proof.
  intros Hp [Hwf Ho] Hno Hsz. unfold load_call. apply wp_engines_io.
  eapply wp_step; [by apply (load_refused path checkpoint_zero (sv_engines w) (sv_io w) own F)|].
  intros [[r checkpoint] es'] io (Hk & Hrt & Hs & Ha & _ & -> & Hr). apply wp_ret. split; [done|]. split; [done|]. split; [done|]. split; [done|]. split; [|done].
  split_and!; try done. unfold heap. cbn. by rewrite Hrt.
Qed.

(** The engines hold C strings, so that an image of them reads back. *)
Lemma saved_snapshot_file (d : D) path c es : engines_wf es → c_strings es → checkpoint_valid c → all_fit es →
  file_at d path = Some (snapshot_image c es) → zlen (snapshot_image c es) ≤ SIZE_MAX →
  snapshot_file d path (stored_checkpoint c) (engine_maps es).
Proof.
  intros Hwf Hcs Hck Hfit Hf Hsz. assert (maps_eq empty_maps empty_maps) as He by done.
  destruct (insert_own_records es empty_maps Hwf He) as (ms & Hins & Hms).
  exists (snapshot_image c es), (engine_records es), ms.
  split; [done|]. split; [done|]. split; [by apply snapshot_image_text|]. split; [by apply engine_records_keys|]. by split.
Qed.

Lemma step_load_plain {Y} path (k : Z → M W Y) w Q :
  wp (load_call path) w (λ '(r, _) w', wp (k r) w' Q) →
  wp (on_engines (λ es, kvs_snapshot_store_load path es) ≫= k) w Q.
Proof.
  unfold wp, load_call, kvs_snapshot_store_load, on_engines, on_io, mbind, M_bind, gets, modify, zoom.
  by destruct (kvs_snapshot_store_load_with_checkpoint path checkpoint_zero (sv_engines w) (sv_io w)) as [[[r ck] es] io|io|].
Qed.

Lemma files_intact_refl (d : D) : files_intact d d.
Proof. by intros ?. Qed.

(** The engines made at the start of every recovery. *)
Lemma recover_init (P : option Z → W → Prop) own F w (k : M W (option Z)) ms f :
  owns own F (heap w) →
  (∀ w1, keeps w w1 → same_files w w1 → data_ok own F w1 → maps_eq (maps w1) empty_maps →
     wp k w1 (λ code w', started own F ms f w code w' ∧ (roomy (heap w) → P code w'))) →
  wp (r ← on_engines (λ _, on_rt (init_kvengine (Ea := Ea) (Er := Er) (Eh := Eh) (Es := Es)));
      if r <? 0 then mret (Some 1) else k) w (λ code w', started own F ms f w code w' ∧ (roomy (heap w) → P code w')).
Proof.
  intros Ho Hk. eapply wp_step; [by apply (init_engines_spec own F)|]. intros r w1 (Hks & Hs & Hr1 & Hr).
  destruct Hr as [(-> & Hok & Hempty)|[-> Hfail]]; [by apply Hk|].
  apply wp_ret. split; [|by intros ?%Hr1]. destruct Hks as (?&?&_), Hs as [Hs _]. split; [done|]. split; [done|].
  split; [rewrite Hs; by intros ?|]. by right.
Qed.

Lemma recover_snapshot_spec array ck ms own F w :
  kvs_server_role w ≠ KVS_ROLE_REPLICA → kvs_persistence_mode w = KVS_PERSISTENCE_SNAPSHOT →
  owns own F (heap w) → snapshot_file (disk w) (lit "snapshot.bin") ck ms →
  wp (kvs_server_recover array) w (λ code w', started own F ms [] w code w' ∧
    (roomy (heap w) → healthy (disk w) → code = None)).
Proof.
  intros Hrole Hmode Ho (data & rs & ms' & Hf & Hsz & Ht & Hk & Hins & Hms). unfold kvs_server_recover.
  apply (recover_init (λ code w', healthy (disk w) → code = None)); [done|].
  intros w1 (Hrole1 & Hmode1 & _ & Hroom1 & Hh1) [Hd1 Ha1] Hok Hempty.
  do 2 (eapply wp_eq; [done|]; cbv beta). rewrite Hrole1, Hmode1, Hmode, bool_decide_eq_false_2, bool_decide_eq_true_2 by done.
  apply step_load_plain.
  eapply wp_mono; [apply (load_call_spec (lit "snapshot.bin") data ck rs own F); (done || congruence)|].
  intros [r c] w2 ((Hks2 & Hok2 & Hs2 & Ha2) & Hr & Hgood). cbv beta iota in *.
  assert (files_intact (disk w) (disk w2)) as Hint by (eapply files_intact_same; [apply files_intact_refl|congruence]).
  destruct Hks2 as (Hrole2 & Hmode2 & _).
  destruct Hr as [(-> & _ & ms2 & Hms2 & E)| ->]; cbn [Z.ltb Z.compare].
  - apply wp_ret. split; [|done]. split; [congruence|]. split; [congruence|]. split; [done|]. left. split; [done|]. split.
    + split; [done|]. split; [done|]. intros []. congruence.
    + rewrite E. assert (ms2 = ms') as -> by congruence. done.
  - eapply wp_mono; [apply (give_up_spec ms [] own F w); (done || congruence)|]. intros code w' Hst. split; [done|].
    intros Hro Hh. assert (-1 = 0); [|done]. apply Hgood; [by apply Hroom1|by apply Hh1|congruence].
Qed.

(** *** Hybrid mode *)

(** The snapshot, if there is one, holds [ms0] and points behind [pre] in the log. *)
Definition checkpointed (d : D) (pre : bytes) (ms0 : kv_maps) : Prop :=
  snapshot_file d (lit "snapshot.db") (Checkpoint 1 (zlen pre)) ms0 ∨
  os_names d !! lit "snapshot.db" = None ∧ pre = [] ∧ maps_eq ms0 empty_maps.

Lemma recover_hybrid_spec array pre g cmds ms0 ms own F w :
  kvs_server_role w ≠ KVS_ROLE_REPLICA → kvs_persistence_mode w = KVS_PERSISTENCE_LEGACY_HYBRID →
  p_aof (sv_io w) = aof_writer_closed → owns own F (heap w) → checkpointed (disk w) pre ms0 →
  log_file w (lit "appendonly.aof") (pre ++ g) → zlen (pre ++ g) ≤ INT64_MAX →
  log_of cmds g → Forall logged_write cmds → apply_log cmds ms0 = Some ms →
  wp (kvs_server_recover array) w (λ code w', started own F ms (pre ++ g) w code w' ∧
    (roomy (heap w) → healthy (disk w) → is_Some (file_at (disk w) (lit "snapshot.db")) →
     is_Some (file_at (disk w) (lit "appendonly.aof")) → code = None)).
Proof.
  intros Hrole Hmode Ha Ho Hck Hl Hmax Hg Hc Happ. unfold kvs_server_recover.
  apply (recover_init (λ code w', healthy (disk w) → is_Some (file_at (disk w) (lit "snapshot.db")) →
     is_Some (file_at (disk w) (lit "appendonly.aof")) → code = None)); [done|].
  intros w1 (Hrole1 & Hmode1 & _ & Hroom1 & Hh1) [Hd1 Ha1] Hok Hempty.
  do 2 (eapply wp_eq; [done|]; cbv beta). rewrite Hrole1, Hmode1, Hmode.
  rewrite !bool_decide_eq_false_2 by done. fold (load_call (lit "snapshot.db")). fold (open_step (lit "appendonly.aof")).
  (* what the load leaves *)
  assert (wp (load_call (lit "snapshot.db")) w1 (λ '(r, checkpoint) w2,
    kvs_server_role w2 = kvs_server_role w ∧ kvs_persistence_mode w2 = kvs_persistence_mode w ∧ os_same (disk w) (disk w2) ∧
    p_aof (sv_io w2) = aof_writer_closed ∧ data_ok own F w2 ∧
    ((r = 0 ∧ has_offset checkpoint = 1 ∧ ck_offset checkpoint = zlen pre ∨ r = 1 ∧ pre = []) ∧ maps_eq (maps w2) ms0 ∨ r = -1) ∧
    (roomy (heap w) → healthy (disk w) → is_Some (file_at (disk w) (lit "snapshot.db")) →
       r = 0 ∧ roomy (heap w2) ∧ healthy (disk w2)))) as Hload.
  { destruct Hck as [(data & rs & ms' & Hf & Hsz & Ht & Hk & Hins & Hms)|(Hnone & -> & Hms0)].
    - eapply wp_mono; [apply (load_call_spec (lit "snapshot.db") data (Checkpoint 1 (zlen pre)) rs own F); try done; congruence|].
      intros [r c] w2 ((Hks2 & Hok2 & Hs2 & Ha2) & Hr & Hgood). destruct Hks2 as (Hrole2 & Hmode2 & _ & Hroom2 & Hh2).
      split; [congruence|]. split; [congruence|]. split; [by rewrite <- Hd1|]. split; [congruence|]. split; [done|]. split.
      + destruct Hr as [(-> & -> & ms2 & Hms2 & E)| ->]; [left|by right]. split; [by left|].
        rewrite E. assert (ms2 = ms') as -> by congruence. done.
      + intros Hro Hh _. assert (r = 0); [|by auto]. apply Hgood; [by apply Hroom1|by apply Hh1|congruence].
    - eapply wp_mono; [apply (load_call_refused (lit "snapshot.db") own F); try done|].
      { intros d ck rs Hf. unfold file_at in Hf. rewrite Hd1, Hnone in Hf. done. }
      { intros d Hf. unfold file_at in Hf. rewrite Hd1, Hnone in Hf. done. }
      intros [r c] w2 (He2 & Hheap2 & Hs2 & Ha2 & (Hrole2 & Hmode2 & _) & Hr).
      split; [congruence|]. split; [congruence|]. split; [by rewrite <- Hd1|]. split; [congruence|].
      split; [unfold data_ok; by rewrite He2, Hheap2|]. split.
      + destruct Hr as [[-> _]| ->]; [left|by right]. split; [by right|]. unfold maps. rewrite He2.
        etrans; [exact Hempty|by symmetry].
      + intros _ _ [d Hf]. unfold file_at in Hf. by rewrite Hnone in Hf. }
  eapply wp_step; [exact Hload|]. clear Hload. intros [r c] w2 (Hrole2 & Hmode2 & Hs2 & Ha2 & Hok2 & Hr & Hgood).
  assert (files_intact (disk w) (disk w2)) as Hint by (eapply files_intact_same; [apply files_intact_refl|done]).
  cbv beta iota. destruct Hr as [[Hr Hms]| ->]; cycle 1.
  { cbn [Z.ltb Z.compare orb]. eapply wp_mono; [apply (give_up_spec ms (pre ++ g) own F w); (done || congruence)|].
    intros code w' Hst. split; [done|]. intros Hro Hh Hf _. by destruct (Hgood Hro Hh Hf). }
  assert ((r <? 0) || (r =? 0) && (has_offset c =? 0) = false) as -> by (by destruct Hr as [(-> & -> & _)|[-> _]]).
  assert ((if r =? 1 then 0 else ck_offset c) = zlen pre) as -> by (by destruct Hr as [(-> & _ & ->)|[-> ->]]).
  cbv zeta. eapply wp_mono.
  { apply (replay_open_spec (lit "appendonly.aof") pre g cmds array ms0 ms own F w w2); try done; try congruence.
    by eapply log_file_same. }
  intros code w' [Hst Hcode]. split; [done|]. intros Hro Hh Hf Hlog. destruct (Hgood Hro Hh Hf) as (_ & Hro2 & Hh2).
  apply Hcode; [done|done|]. destruct Hs2 as (En & Ed & _). unfold file_at in *. by rewrite En, Ed.
Qed.

(** * A replica's data *)

(** A write received from the primary is applied and logged like a client's. *)
Lemma replication_command_spec array cap ts own F f w :
  REPLY_ROOM < cap ≤ INT_MAX → logged_write ts → data_ok own F w → (kvs_persistence_mode w ≠ KVS_PERSISTENCE_SNAPSHOT → aof_log (sv_io w) f) →
  wpx (kvs_replication_command_protocol array (slice_of <$> ts) cap) w (λ r w',
    keeps w w' ∧ data_ok own F w' ∧ applied_write ts w r w' ∧
    (if (0 <? r) && bool_decide (kvs_persistence_mode w ≠ KVS_PERSISTENCE_SNAPSHOT)
     then aof_log (sv_io w') (f ++ aof_record ts) ∧ command_text ts (aof_record ts) ∧
          fd_written (disk w) (aw_fd (p_aof (sv_io w))) (f ++ aof_record ts) (disk w') ∧ zlen (f ++ aof_record ts) ≤ INT64_MAX
     else same_files w w') ∧
    (roomy (heap w) → is_Some (apply_write ts (maps w)) → 0 < r))
    (append_failed f ts KVS_COMMAND_SOURCE_REPLICATION w).
Proof.
  intros Hcap (Hts & Hk & Hkey & Hnul & Hlen) Hd Hlog. unfold kvs_replication_command_protocol, kvs_fields_protocol.
  unfold REPLY_ROOM in Hcap. rewrite (proj2 (Z.leb_gt cap 0)) by lia. fold (response_array array cap).
  assert (reply_buffer (response_array array cap)) as Hb by (apply response_array_ok; lia).
  assert (message ts) as Hm.
  { split; [|done]. pose proof (well_formed_args _ Hts) as (_ & -> & _). unfold KVS_MAX_TOKENS. destruct (cmd_kind _); cbn; lia. }
  assert (logged KVS_COMMAND_SOURCE_REPLICATION w = bool_decide (kvs_persistence_mode w ≠ KVS_PERSISTENCE_SNAPSHOT)) as Hl by done.
  eapply wpx_stepx.
  { apply (execute_write_spec ts (response_array array cap) KVS_COMMAND_SOURCE_REPLICATION own F f w); try done.
    - unfold read_only. by rewrite andb_false_r.
    - rewrite Hl, bool_decide_eq_true. done. }
  intros [[r b'] st] w' [(-> & _ & _ & Hks & Hd' & Hf & Hm' & Hfull)|(ret & (Hks & Hd' & Hw & Hfl & Hgood) & _ & _ & Hr & Hroom)].
  - apply wpx_ret. split; [done|]. split; [done|]. split; [by right|]. split; [done|]. intros Hro. specialize (Hfull Hro). unfold reply_capacity in Hfull. cbn in Hfull. lia.
  - rewrite Hl in Hfl. assert (r ≠ -1) as Hne by (apply Hroom; change (32 ≤ cap - 0); lia).
    destruct Hr as [(-> & _ & Hst)|]; [|done]. unfold write_reply_text. rewrite (bool_decide_eq_false_2 (_ = _)) by done.
    pose proof (write_text_short (cmd_kind (cmd_of ts)) ret). rewrite (proj2 (Z.ltb_ge _ 0)) by lia. cbn [orb].
    pose proof (status_of_write ts ret Hk) as Hstat. apply written_ret in Hw as [[-> Hms]|[Hne0 Hms]].
    + rewrite bool_decide_eq_false_2; [|intros Hst'; apply Hst'; rewrite Hst; by apply Hstat].
      apply wpx_ret. rewrite (proj2 (Z.ltb_lt 0 _)) by lia. split; [done|]. split; [done|]. split; [left; split; [lia|done]|]. split; [done|]. lia.
    + rewrite bool_decide_eq_true_2; [|intros Hst'; apply Hne0, Hstat; congruence]. rewrite (proj2 (Z.eqb_neq _ _)) in Hfl by done.
      apply wpx_ret. split; [done|]. split; [done|]. split; [by right|]. split; [done|].
      intros Hro Hs. by specialize (Hgood Hro Hs).
Qed.

Lemma reset_engines_spec own F w : data_ok own F w →
  wpx reset_engines w (λ _ w', keeps w w' ∧ same_files w w' ∧ data_ok own F w' ∧ maps_eq (maps w') empty_maps)
    (λ _, ¬ roomy (heap w)).
Proof.
  intros [Hwf Ho]. unfold reset_engines. eapply step_engines_io.
  { eapply step_rt; [by apply (dest_spec _ own F)|]. intros es1 h1 [Ho1 Hr1]. apply wp_zoom.
    eapply wp_mono; [by apply (init_spec own F)|]. intros [r es] h2 [Hr2 Hpost].
    instantiate (1 := λ '(r, es) io, p_os io = disk w ∧ p_aof io = p_aof (sv_io w) ∧ (roomy (heap w) → roomy (p_rt io) ∧ r = 0) ∧
      (r = 0 ∧ engines_wf es ∧ owns (own ++ engines_owned es) F (p_rt io) ∧ maps_eq (engine_maps es) empty_maps ∨ r = -1)).
    cbn. split; [done|]. split; [done|]. split; [unfold heap; naive_solver|]. destruct Hpost as [?|[-> _]]; [by left|by right]. }
  intros r es io (Hd1 & Ha1 & Hr & Hpost). destruct Hpost as [(-> & Hwf' & Ho' & Hms)| ->]; cbn [Z.ltb Z.compare].
  - apply wpx_ret. split; [split_and!; try done; [by intros [? _]%Hr|unfold disk; cbn; rewrite Hd1; by intros ?]|]. split; [done|]. by split.
  - intros [_ [=]]%Hr.
Qed.

(** At most the log differs. *)
Definition log_only w w' : Prop :=
  aw_fd (p_aof (sv_io w')) = aw_fd (p_aof (sv_io w)) ∧ os_names (disk w') = os_names (disk w) ∧ os_fds (disk w') = os_fds (disk w) ∧
  ∀ i, os_fds (disk w) !! aw_fd (p_aof (sv_io w)) ≠ Some i → os_data (disk w') !! i = os_data (disk w) !! i.

Lemma log_only_same w w' : p_aof (sv_io w') = p_aof (sv_io w) → os_same (disk w) (disk w') → log_only w w'.
Proof. intros Ha (En & Ed & Ef). split_and!; try done; [congruence|]. intros i _. by rewrite Ed. Qed.

Lemma log_only_trans w1 w2 w3 : log_only w1 w2 → log_only w2 w3 → log_only w1 w3.
Proof.
  intros (Eaw & En & Ef & Ed) (Eaw' & En' & Ef' & Ed'). split_and!; try congruence. intros i Hi. rewrite Ed', Ed; [done|done|congruence].
Qed.

(** What an installation leaves: the data of the snapshot with the log cut to
    [offset], or no data; no other file changes. *)
Definition installed own F f offset (loaded : kv_maps → Prop) w (r : Z) w' : Prop :=
  keeps w w' ∧ log_only w w' ∧ data_ok own F w' ∧
  (r = 0 ∧ loaded (maps w') ∧ aof_log (sv_io w') (cut_to offset f) ∨
   r = -1 ∧ maps_eq (maps w') empty_maps ∧ (aof_log (sv_io w') f ∨ aof_log (sv_io w') (cut_to offset f))).

Lemma log_same (io io' : pworld RT D) f : aof_log io f → p_aof io' = p_aof io → os_same (p_os io) (p_os io') → aof_log io' f.
Proof. intros Hl Ha (En & Ed & Ef). eapply log_kept; [done|done|done|]. intros i x. by rewrite Ed. Qed.

(** Emptying the engines after a failure. *)
Lemma install_fail_spec own F f offset loaded w0 w :
  keeps w0 w → log_only w0 w → data_ok own F w → (aof_log (sv_io w) f ∨ aof_log (sv_io w) (cut_to offset f)) →
  wpx (reset_engines;; mret (-1)) w (λ r w', r = -1 ∧ installed own F f offset loaded w0 r w') (λ _, ¬ roomy (heap w0)).
Proof.
  intros Hk Hlo Hok Hlog. eapply wpx_stepx.
  { eapply wpx_mono; [by apply (reset_engines_spec own F)|intros x w' Hx; exact Hx|]. intros w' Hno Hro. by apply Hno, Hk. }
  intros _ w1 (Hk1 & [Hd1 Ha1] & Hok1 & Hms). apply wpx_ret. split; [done|].
  assert (os_same (p_os (sv_io w)) (p_os (sv_io w1))) as Hs by (unfold disk in Hd1; rewrite Hd1; apply os_same_refl).
  split; [by eapply keeps_trans|]. split; [eapply log_only_trans; [done|by apply log_only_same]|].
  split; [done|]. right. split; [done|]. split; [done|].
  destruct Hlog as [Hl|Hl]; [left|right]; by eapply log_same.
Qed.

(** The engines of a replica about to load. *)
Lemma install_reset_spec own F f w : data_ok own F w → aof_log (sv_io w) f →
  wpx reset_engines w (λ _ w1, keeps w w1 ∧ log_only w w1 ∧ os_same (disk w) (disk w1) ∧ data_ok own F w1 ∧
    maps_eq (maps w1) empty_maps ∧ aof_log (sv_io w1) f) (λ _, ¬ roomy (heap w)).
Proof.
  intros Hok Hlog. eapply wpx_mono; [by apply (reset_engines_spec own F)| |done].
  intros _ w1 (Hk1 & [Hd1 Ha1] & Hok1 & Hempty). assert (os_same (disk w) (disk w1)) as Hs by (rewrite Hd1; apply os_same_refl).
  split; [done|]. split; [by apply log_only_same|]. split; [done|]. split; [done|]. split; [done|]. by eapply log_same.
Qed.

Lemma install_refused path offset own F f w :
  path ≠ [] → data_ok own F w → aof_log (sv_io w) f →
  (∀ d ck rs, file_at (disk w) path = Some d → zlen d ≤ SIZE_MAX → snapshot_text ck rs d → False) →
  (∀ d, file_at (disk w) path = Some d → zlen d ≤ SIZE_MAX) →
  wpx (kvs_install_replication_snapshot path offset) w (λ r w', r = -1 ∧ installed own F f offset (λ _, False) w r w')
    (λ _, ¬ roomy (heap w)).
Proof.
  intros Hp Hok Hlog Hno Hsz. unfold kvs_install_replication_snapshot. rewrite bool_decide_eq_false_2 by done.
  fold (load_call path). eapply wpx_stepx; [by apply (install_reset_spec own F f)|].
  intros _ w1 (Hk1 & Hl1 & Hs1 & Hok1 & Hempty & Hlog1).
  pose proof (file_at_same _ _ path Hs1) as Hat.
  eapply wpx_step; [apply (load_call_refused path own F); rewrite ?Hat; done|].
  intros [r c] w2 (He2 & Hheap2 & Hs2 & Ha2 & Hk2 & Hr).
  assert (negb (r =? 0) = true) as -> by (by destruct Hr as [[-> _]| ->]). cbn [orb].
  apply (install_fail_spec own F f offset (λ _, False) w w2).
  - by eapply keeps_trans.
  - eapply log_only_trans; [done|by apply log_only_same].
  - unfold data_ok. by rewrite He2, Hheap2.
  - left. by eapply log_same.
Qed.

Lemma text_checkpoint_ok ck rs data : snapshot_text ck rs data → checkpoint_ok ck.
Proof. intros (h & [Hok _] & _). exact Hok. Qed.

Lemma install_accepted path offset data ck rs own F f w :
  path ≠ [] → data_ok own F w → aof_log (sv_io w) f →
  file_at (disk w) path = Some data → zlen data ≤ SIZE_MAX → snapshot_text ck rs data → Forall record_key_ok rs →
  wpx (kvs_install_replication_snapshot path offset) w (λ r w',
    installed own F f offset (λ ms, ck = Checkpoint 1 offset ∧ ∃ ms', insert_records empty_maps rs = Some ms' ∧ maps_eq ms ms') w r w' ∧
    (roomy (heap w) → healthy (disk w) → ck = Checkpoint 1 offset → insert_records empty_maps rs ≠ None → r = 0))
    (λ _, ¬ roomy (heap w)).
Proof.
  intros Hp Hok Hlog Hf Hsz Ht Hk. unfold kvs_install_replication_snapshot. rewrite bool_decide_eq_false_2 by done.
  fold (load_call path). eapply wpx_stepx; [by apply (install_reset_spec own F f)|].
  intros _ w1 (Hk1 & Hlo1 & Hs1 & Hok1 & Hempty & Hlog1).
  set (loaded := λ ms, ck = Checkpoint 1 offset ∧ ∃ ms', insert_records empty_maps rs = Some ms' ∧ maps_eq ms ms').
  assert (∀ w2 : W, keeps w1 w2 → log_only w1 w2 → data_ok own F w2 → (aof_log (sv_io w2) f ∨ aof_log (sv_io w2) (cut_to offset f)) →
    (roomy (heap w) → healthy (disk w) → ck = Checkpoint 1 offset → insert_records empty_maps rs ≠ None → False) →
    wpx (reset_engines;; mret (-1)) w2 (λ r w', installed own F f offset loaded w r w' ∧
      (roomy (heap w) → healthy (disk w) → ck = Checkpoint 1 offset → insert_records empty_maps rs ≠ None → r = 0))
      (λ _, ¬ roomy (heap w))) as Hfail.
  { intros w2 Hk2 Hlo2 Hok2 Hl2 Hno.
    eapply wpx_mono; [apply (install_fail_spec own F f offset loaded w w2); [by eapply keeps_trans|by eapply log_only_trans|done|done]| |done].
    intros r w' [-> Hi]. split; [done|]. intros Hg1 Hg2 Hg3 Hg4. by destruct Hno. }
  eapply wpx_step; [apply (load_call_spec path data ck rs own F); try done; by rewrite (file_at_same _ _ path Hs1)|].
  intros [r c] w2 ((Hk2 & Hok2 & Hs2 & Ha2) & Hr & Hgood).
  assert (aof_log (sv_io w2) f) as Hlog2 by (by eapply log_same).
  assert (log_only w1 w2) as Hlo2 by (by apply log_only_same).
  assert (roomy (heap w) → roomy (heap w1)) as Hroom1 by apply Hk1. assert (healthy (disk w) → healthy (disk w1)) as Hh1 by apply Hk1.
  assert (healthy (disk w1) → healthy (disk w2)) as Hh2 by apply Hk2.
  destruct Hr as [(-> & -> & ms & Hms & E)| ->]; cycle 1.
  { cbn [Z.eqb negb orb]. apply Hfail; auto. intros Hro Hh _ Hins. cut (-1 = 0); [done|]. apply Hgood; auto. }
  cbn [Z.eqb negb orb]. pose proof (text_checkpoint_ok _ _ _ Ht) as Hckok.
  destruct ((has_offset ck =? 0) || negb (ck_offset ck =? offset)) eqn:Ebad.
  { apply Hfail; auto. intros _ _ -> _. cbn in Ebad. by rewrite Z.eqb_refl in Ebad. }
  apply orb_false_iff in Ebad as [Ehas%Z.eqb_neq Eo%negb_false_iff%Z.eqb_eq].
  assert (ck = Checkpoint 1 offset ∧ 0 ≤ offset) as [Hck Hoff].
  { destruct ck as [h o]. cbn in *. subst o. destruct Hckok as [[Hh Ho]|[Hh _]]; cbn in *; [subst h; split; [done|lia]|done]. }
  eapply step_io; [by apply (aof_reset_spec offset _ f)|]. intros r3 io (Hrt & Hk3 & Hgood3 & Hpost).
  assert (data_ok own F (put_io io w2)) as Hok3 by (split; [apply Hok2|unfold heap; cbn; rewrite Hrt; apply Hok2]).
  assert (keeps w1 (put_io io w2)) as Hkeep3.
  { eapply keeps_trans; [exact Hk2|]. split_and!; try done. unfold heap. cbn. by rewrite Hrt. }
  assert (log_only w1 (put_io io w2)) as Hlo3.
  { eapply log_only_trans; [exact Hlo2|]. destruct Hpost as [(_ & Ha3 & Hw3)|(_ & Ha3 & Hs3)]; [|by apply log_only_same].
    destruct Hw3 as (En & Ef & i & Hi & Ed). split_and!; [done|done|done|]. intros j Hj. unfold disk. cbn. rewrite Ed, lookup_insert_ne; [done|].
    intros <-. by apply Hj. }
  destruct (Z.ltb_spec r3 0) as [Hlt|Hge].
  - apply Hfail; [done|done|done| |].
    + destruct Hpost as [[Hl _]|(_ & Ha3 & Hs3)]; [by right|left; by eapply log_same].
    + intros Hro Hh _ _. assert (healthy (p_os (sv_io w2))) as Hh'%Hgood3 by (by apply Hh2, Hh1). lia.
  - apply wpx_ret. split; [|done]. split; [by eapply keeps_trans|]. split; [by eapply log_only_trans|].
    split; [done|]. left. split; [done|]. split; [split; [done|by exists ms]|].
    destruct Hpost as [[Hl _]|(-> & _)]; [done|lia].
Qed.

(** * Sessions *)

(** What the rest of the program does between two messages: it changes its own
    memory and the state of replication. *)
Definition elsewhere w (h : RT) (link : replication_link) : W :=
  Server (PWorld h (disk w) (p_aof (sv_io w))) (sv_engines w) (kvs_server_role w) (kvs_persistence_mode w) link.

(** A run of the server: the messages of any clients, each with the reply buffer of
    its connection, in any order. *)
Inductive session : W → W → Prop :=
| session_done w : session w w
| session_elsewhere w h link w2 : session (elsewhere w h link) w2 → session w w2
| session_message w msg b own F r b' n w1 w2 :
    zlen msg ≤ SIZE_MAX → reply_buffer b → (∀ ts t, starts_with ts t msg → well_formed ts → key_ok ts) →
    data_ok (owned (o_data b) ++ own) F w →
    kvs_network_protocol msg b w = Ok (r, b', n) w1 → session w1 w2 → session w w2.

(** The log of the server is [f], and the writes in it lead from [ms0] with the log
    [f0] to its data set. *)
Definition logs_since (ms0 : kv_maps) f0 f w : Prop :=
  kvs_persistence_mode w ≠ KVS_PERSISTENCE_SNAPSHOT ∧ zlen f ≤ INT64_MAX ∧ aof_log (sv_io w) f ∧ advances ms0 f0 (maps w) f.

Lemma session_logs ms0 f0 f w w' : session w w' → logs_since ms0 f0 f w → ∃ f', logs_since ms0 f0 f' w'.
Proof.
  intros Hs. revert f. induction Hs as [w|w h link w2 _ IH|w msg b own F r b' n w1 w2 Hsz Hb Hkey Hd Hrun _ IH]; intros f Hf.
  - by exists f.
  - by eapply IH.
  - destruct Hf as (Hmode & Hmax & Hlog & Hadv).
    pose proof (network_served msg own F f b w Hsz Hb Hkey Hmode (conj Hd (conj Hmax (λ _, Hlog)))) as Hw.
    unfold wpx in Hw. rewrite Hrun in Hw. destruct Hw as [((_ & Hmode1 & _) & _ & _ & f' & (_ & Hmax1 & Hlog1) & Hadv1) _].
    apply (IH f'). split; [congruence|]. split; [done|]. split; [apply Hlog1; congruence|]. by eapply advances_trans.
Qed.

Lemma advances_log ms0 f0 ms f : advances ms0 f0 ms f →
  ∃ cmds g ms1, f = f0 ++ g ∧ log_of cmds g ∧ Forall logged_write cmds ∧ apply_log cmds ms0 = Some ms1 ∧ maps_eq ms1 ms.
Proof. intros (cmds & g & -> & Hg & Hc & ms1 & Happ & E). exists cmds, g, ms1. by split_and!. Qed.

(** ** The strings the server holds *)

Definition strings_ok (ms : kv_maps) : Prop := ∀ i, map_Forall (λ k v, nul_free k ∧ nul_free v) (ms i).

Lemma strings_entries es : engines_wf es → strings_ok (engine_maps es) → c_strings es.
Proof.
  intros Hwf Hs i. apply Forall_forall. intros [k v] He. apply (Hs i k v). unfold engine_maps.
  apply elem_of_list_to_map_1; [|done]. exact (eng_nodup (get_engine i es) (Hwf i)).
Qed.

Lemma apply_write_strings ts ms ms' : Forall nul_free ts → well_formed ts → strings_ok ms → apply_write ts ms = Some ms' → strings_ok ms'.
Proof.
  intros Hts Hwf Hms. pose proof (well_formed_args _ Hwf) as (Hk & _ & Hv). unfold Kvstore.apply_write. cbv zeta.
  set (i := cmd_engine (cmd_of ts)). pose proof (Forall_lookup_1 _ _ _ _ Hts Hk) as Hkn.
  assert (∀ v, nul_free v → strings_ok (set_map i (<[arg 1 ts := v]> (ms i)) ms)) as Hset.
  { intros v Hvn j. unfold set_map. destruct (decide (j = i)) as [->|]; [|by apply Hms]. by apply map_Forall_insert_2; [|apply Hms]. }
  destruct (cmd_kind (cmd_of ts)) eqn:Ek; try done; case_match; try done; intros [= <-].
  - apply Hset, (Forall_lookup_1 _ _ _ _ Hts (Hv eq_refl)).
  - intros j. unfold set_map. destruct (decide (j = i)) as [->|]; [|by apply Hms]. by apply map_Forall_delete, Hms.
  - apply Hset, (Forall_lookup_1 _ _ _ _ Hts (Hv eq_refl)).
Qed.

Lemma advances_strings ms0 f0 ms f : advances ms0 f0 ms f → strings_ok ms0 → strings_ok ms.
Proof.
  intros (cmds & g & _ & _ & Hc & ms1 & Happ & E) H0'.
  assert (strings_ok ms1) as Hs1; [|intros i; rewrite (E i); apply Hs1].
  clear E. revert ms0 H0' Happ. induction Hc as [|ts cmds (Hwf & _ & _ & Hnul & _) _ IH]; intros ms0 H0' Happ; cbn [apply_log] in Happ.
  - by injection Happ as <-.
  - destruct (apply_write ts ms0) as [ms2|] eqn:E; [|done]. eapply IH; [|exact Happ]. by eapply apply_write_strings.
Qed.

(** ** Restarts *)

(** A server about to start, as the process finds it. *)
Definition fresh_server own F (mode : kvs_persistence_mode_t) w : Prop :=
  kvs_server_role w ≠ KVS_ROLE_REPLICA ∧ kvs_persistence_mode w = mode ∧ p_aof (sv_io w) = aof_writer_closed ∧
  owns own F (heap w).

(** The start gives back [ms], or gives up; it succeeds when memory and the system
    calls do. *)
Definition restores own F ms f w (code : option Z) w' : Prop :=
  started own F ms f w code w' ∧ (roomy (heap w) → healthy (disk w) → code = None).

Lemma aof_restart_spec f w1 array own F w2 :
  logs_since empty_maps [] f w1 → fresh_server own F KVS_PERSISTENCE_AOF w2 → file_at (disk w2) (lit "commands.aof") = Some f →
  wp (kvs_server_recover array) w2 (restores own F (maps w1) f w2).
Proof.
  intros (_ & Hmax & _ & Hadv) (Hrole & Hmode & Ha & Ho) Hf.
  apply advances_log in Hadv as (cmds & g & ms & -> & Hg & Hc & Happ & E).
  eapply wp_mono; [by apply (recover_aof_spec array cmds g ms own F w2); try left|].
  intros code w' [(Hr & Hm & Hint & Hst) Hgood]. split; [|eauto]. split; [done|]. split; [done|]. split; [done|].
  destruct Hst as [(-> & Hok & Em)|?]; [left|by right]. split; [done|]. split; [done|]. etrans; [exact Em|exact E].
Qed.

Lemma saved_checkpoint own F f w r w' : saved own F f w r w' → r = 0 →
  saved_as (sv_engines w) (snapshot_checkpoint (kvs_persistence_mode w) f) (snapshot_name (kvs_persistence_mode w)) (disk w) (disk w').
Proof. by intros (_ & _ & _ & _ & _ & _ & [?|[-> _]] & _) ?. Qed.

(** What SAVE stored is a snapshot of the data set. *)
Lemma saved_file own F f w w' (d : D) :
  let c := snapshot_checkpoint (kvs_persistence_mode w) f in
  let path := snapshot_name (kvs_persistence_mode w) in
  saved own F f w 0 w' → engines_wf (sv_engines w) → strings_ok (maps w) → zlen f ≤ INT64_MAX →
  zlen (snapshot_image c (sv_engines w)) ≤ SIZE_MAX → file_at d path = file_at (disk w') path →
  snapshot_file d path (stored_checkpoint c) (maps w).
Proof.
  intros c path Hs Hwf Hstr Hmax Hsz Hd. apply saved_checkpoint in Hs as (Hfit & Hf & _); [|done].
  apply saved_snapshot_file; [done|by apply strings_entries| |done|by rewrite Hd|done].
  unfold c, snapshot_checkpoint. case_bool_decide; [by left|right]. cbn. pose proof (zlen_nonneg f). lia.
Qed.

Lemma hybrid_restart_spec ms0 f0 f w own1 F1 w1 w1' f' array own F w2 :
  kvs_persistence_mode w = KVS_PERSISTENCE_LEGACY_HYBRID → logs_since ms0 f0 f w → strings_ok (maps w) →
  engines_wf (sv_engines w) → zlen (snapshot_image (Checkpoint 1 (zlen f)) (sv_engines w)) ≤ SIZE_MAX →
  saved own1 F1 f w 0 w1 → logs_since (maps w) f f' w1' →
  fresh_server own F KVS_PERSISTENCE_LEGACY_HYBRID w2 →
  file_at (disk w2) (lit "snapshot.db") = file_at (disk w1) (lit "snapshot.db") →
  file_at (disk w2) (lit "appendonly.aof") = Some f' →
  wp (kvs_server_recover array) w2 (restores own F (maps w1') f' w2).
Proof.
  intros Hm (_ & Hmax & _) Hstr Hwf Hsz Hs (_ & Hmax' & _ & Hadv) (Hrole & Hmode & Ha & Ho) Hsnap Hf.
  apply advances_log in Hadv as (cmds & g & ms & -> & Hg & Hc & Happ & E).
  pose proof (saved_file own1 F1 f w w1 (disk w2)) as Hfile. cbv zeta in Hfile. rewrite Hm in Hfile.
  change (snapshot_name KVS_PERSISTENCE_LEGACY_HYBRID) with (lit "snapshot.db") in Hfile.
  change (snapshot_checkpoint KVS_PERSISTENCE_LEGACY_HYBRID f) with (Checkpoint 1 (zlen f)) in Hfile.
  specialize (Hfile Hs Hwf Hstr Hmax Hsz Hsnap).
  eapply wp_mono; [apply (recover_hybrid_spec array f g cmds (maps w) ms own F w2); try done; by left|].
  intros code w' [(Hr & Hm' & Hint & Hst) Hgood]. split.
  - split; [done|]. split; [done|]. split; [done|]. destruct Hst as [(-> & Hok & Em)|?]; [left|by right].
    split; [done|]. split; [done|]. etrans; [exact Em|exact E].
  - intros Hro Hh. apply Hgood; [done|done| |by eexists]. destruct Hfile as (data & _ & _ & Hd & _). by eexists.
Qed.

Lemma snapshot_restart_spec f own1 F1 w w1 array own F w2 :
  kvs_persistence_mode w = KVS_PERSISTENCE_SNAPSHOT → strings_ok (maps w) → engines_wf (sv_engines w) → zlen f ≤ INT64_MAX →
  zlen (snapshot_image checkpoint_zero (sv_engines w)) ≤ SIZE_MAX → saved own1 F1 f w 0 w1 →
  fresh_server own F KVS_PERSISTENCE_SNAPSHOT w2 →
  file_at (disk w2) (lit "snapshot.bin") = file_at (disk w1) (lit "snapshot.bin") →
  wp (kvs_server_recover array) w2 (restores own F (maps w) [] w2).
Proof.
  intros Hm Hstr Hwf Hmax Hsz Hs (Hrole & Hmode & _ & Ho) Hsnap.
  pose proof (saved_file own1 F1 f w w1 (disk w2)) as Hfile. cbv zeta in Hfile. rewrite Hm in Hfile.
  change (snapshot_name KVS_PERSISTENCE_SNAPSHOT) with (lit "snapshot.bin") in Hfile.
  change (snapshot_checkpoint KVS_PERSISTENCE_SNAPSHOT f) with checkpoint_zero in Hfile.
  specialize (Hfile Hs Hwf Hstr Hmax Hsz Hsnap).
  by apply (recover_snapshot_spec array (stored_checkpoint checkpoint_zero) (maps w) own F w2).
Qed.
End server.

(** * Properties *)

Section properties.
Context `{CRuntimeLaws RT} `{OsLaws D} {Ea Er Eh Es : Type}
  `{!Engine RT Ea} `{!Engine RT Er} `{!Engine RT Eh} `{!Engine RT Es}
  `{!EngineLaws RT Ea} `{!EngineLaws RT Er} `{!EngineLaws RT Eh} `{!EngineLaws RT Es}.
Notation engines := (kv_engines Ea Er Eh Es).
Notation W := (server RT D engines).
Notation apply_write := (apply_write (RT := RT) (Ea := Ea) (Er := Er) (Eh := Eh) (Es := Es)).
Notation insert_records := (insert_records (RT := RT) (Ea := Ea) (Er := Er) (Eh := Eh) (Es := Es)).
Notation record_key_ok := (record_key_ok (RT := RT) (Ea := Ea) (Er := Er) (Eh := Eh) (Es := Es)).
Notation logged_write := (logged_write (RT := RT) (Ea := Ea) (Er := Er) (Eh := Eh) (Es := Es)).
Notation key_ok := (key_ok (RT := RT) (Ea := Ea) (Er := Er) (Eh := Eh) (Es := Es)).
Implicit Types (es : engines) (w : W) (own : list addr) (F : gset addr) (ts : list bytes)
  (f t msg : bytes) (b : kvs_output_buffer_t).

(** C6: the protocol handler answers a received message in one of exactly three
    ways: a whole command is executed and exactly its text consumed; an unfinished
    command below the size limit is left in place, without any reply; anything
    else is refused and the whole message dropped. *)
Theorem network_protocol_exact msg b w : zlen msg ≤ SIZE_MAX → reply_buffer b →
  (∀ ts t, starts_with ts t msg →
    kvs_network_protocol msg b w =
    ('(response_length, response, _) ← kvs_execute_fields (slice_of <$> ts) b KVS_COMMAND_SOURCE_CLIENT;
     if (response_length <? 0) || (reply_capacity response <? response_length) then mret (-1, response, 0) else
     mret (response_length, response, zlen t)) w) ∧
  (parse_message msg = Incomplete → zlen msg < KVS_MAX_CLIENT_COMMAND_BYTES → kvs_network_protocol msg b w = Ok (0, b, 0) w) ∧
  (msg ≠ [] → refused msg →
    wp (kvs_network_protocol msg b) w (λ '(r, b', n) w', w' = w ∧
      reply_attempt b (lit "-ERR invalid or oversized request" ++ crlf) r b' ∧ n = if r <? 0 then 0 else zlen msg)) ∧
  ((∃ ts t, starts_with ts t msg) ∨ parse_message msg = Incomplete ∧ zlen msg < KVS_MAX_CLIENT_COMMAND_BYTES ∨ refused msg).
Proof.
  intros Hsz Hb. split_and!.
  - intros ts t Hs. by apply network_command.
  - by apply network_waits.
  - by apply network_refused.
  - destruct (parse_message msg) as [[fields n]| |] eqn:Hp.
    + apply parse_message_complete in Hp as (ts & t & Hs & _); [|done]. left. by exists ts, t.
    + right. destruct (Z.lt_ge_cases (zlen msg) KVS_MAX_CLIENT_COMMAND_BYTES); [by left|right; by right].
    + right. right. by left.
Qed.


(** C37: SAVE stores an image of exactly the present data set, in hybrid mode with
    the length of the log, in place of the old one, or leaves every file as it was
    and reports the failure; the data set and the log are untouched. *)
Theorem save_exact b own F f w :
  reply_buffer b → server_ok own F f w → loading w = false →
  wp (kvs_execute_fields (slice_of <$> save_command) b KVS_COMMAND_SOURCE_CLIENT) w (λ '(r, b', _) w',
    owned (o_data b') = owned (o_data b) ∧ kept b b' ∧
    ∃ s, saved own F f w s w' ∧
      (reply_attempt b (if s <? 0 then lit "-ERR SAVE failed" ++ crlf else lit "+OK" ++ crlf) r b' ∨
       r = -1 ∧ ¬ roomy (heap w))).
Proof. apply execute_save_spec. Qed.

(** C2: a server that started empty in append-only mode and served any messages
    can be stopped between two of them and started again: the new process finds
    exactly the data set the old one had.  It starts whenever memory and the
    system calls allow. *)
Theorem aof_restart f0 w0 w1 :
  logs_since empty_maps [] f0 w0 → session w0 w1 → ∃ f, logs_since empty_maps [] f w1 ∧
    ∀ (array : addr) own F (w2 : W), fresh_server own F KVS_PERSISTENCE_AOF w2 →
    file_at (disk w2) (lit "commands.aof") = Some f →
    wp (kvs_server_recover array) w2 (restores own F (maps w1) f w2).
Proof.
  intros Hl Hs. destruct (session_logs _ _ _ _ _ Hs Hl) as (f & Hf). exists f. split; [done|].
  intros array own F w2. by apply aof_restart_spec.
Qed.

(** C1: in hybrid mode a data set is the snapshot of the last successful SAVE and
    the log written behind it: whatever is served after SAVE, a restart from the
    two files finds the data set of the server that was stopped. *)
Theorem hybrid_restart ms0 f0 f w own1 F1 w1 w2 :
  kvs_persistence_mode w = KVS_PERSISTENCE_LEGACY_HYBRID → logs_since ms0 f0 f w → strings_ok ms0 →
  server_ok own1 F1 f w →
  zlen (snapshot_image (Checkpoint 1 (zlen f)) (sv_engines w)) ≤ SIZE_MAX →
  kvs_save_current_snapshot w = Ok 0 w1 → session w1 w2 → ∃ f', logs_since (maps w) f f' w2 ∧
    ∀ (array : addr) own F (w3 : W), fresh_server own F KVS_PERSISTENCE_LEGACY_HYBRID w3 →
    file_at (disk w3) (lit "snapshot.db") = file_at (disk w1) (lit "snapshot.db") →
    file_at (disk w3) (lit "appendonly.aof") = Some f' →
    wp (kvs_server_recover array) w3 (restores own F (maps w2) f' w3).
Proof.
  intros Hm Hl Hstr Hok Hsz Hsave Hs. pose proof Hl as (Hmode & Hmax & Hlog & Hadv).
  pose proof (save_current_spec own1 F1 f w Hok) as Hsv. unfold wp in Hsv. rewrite Hsave in Hsv.
  pose proof Hsv as ((_ & Hm1 & _) & (_ & _ & Hlog1) & He & _).
  assert (logs_since (maps w) f f w1) as Hl1.
  { split; [congruence|]. split; [done|]. split; [apply Hlog1; congruence|]. apply advances_refl. unfold maps. by rewrite He. }
  destruct (session_logs _ _ _ _ _ Hs Hl1) as (f' & Hf'). exists f'. split; [done|].
  intros array own F w3 Hw3 Hsnap Haof. eapply (hybrid_restart_spec ms0 f0 f w own1 F1 w1 w2 f'); try done.
  - exact (advances_strings ms0 f0 (maps w) f Hadv Hstr).
  - apply Hok.
Qed.

(** In snapshot mode a restart after a successful SAVE finds the data set that
    was saved. *)
Theorem snapshot_restart f w own1 F1 w1 :
  kvs_persistence_mode w = KVS_PERSISTENCE_SNAPSHOT → strings_ok (maps w) → server_ok own1 F1 f w →
  zlen (snapshot_image checkpoint_zero (sv_engines w)) ≤ SIZE_MAX →
  kvs_save_current_snapshot w = Ok 0 w1 →
  ∀ (array : addr) own F (w2 : W), fresh_server own F KVS_PERSISTENCE_SNAPSHOT w2 →
  file_at (disk w2) (lit "snapshot.bin") = file_at (disk w1) (lit "snapshot.bin") →
  wp (kvs_server_recover array) w2 (restores own F (maps w) [] w2).
Proof.
  intros Hm Hstr Hok Hsz Hsave array own F w2 Hw2 Hsnap.
  pose proof (save_current_spec own1 F1 f w Hok) as Hsv. unfold wp in Hsv. rewrite Hsave in Hsv.
  eapply (snapshot_restart_spec f own1 F1 w w1); try done; apply Hok.
Qed.

(** C23: a write received from the primary is applied and logged exactly like a
    client's: a positive result means that it took place and is in the log, -1
    that the data set and the files are as they were. *)
Theorem replication_command_exact array cap ts own F f w :
  REPLY_ROOM < cap ≤ INT_MAX → logged_write ts → data_ok own F w → (kvs_persistence_mode w ≠ KVS_PERSISTENCE_SNAPSHOT → aof_log (sv_io w) f) →
  wpx (kvs_replication_command_protocol array (slice_of <$> ts) cap) w (λ r w',
    keeps w w' ∧ data_ok own F w' ∧ applied_write ts w r w' ∧
    (if (0 <? r) && bool_decide (kvs_persistence_mode w ≠ KVS_PERSISTENCE_SNAPSHOT)
     then aof_log (sv_io w') (f ++ aof_record ts) ∧ command_text ts (aof_record ts) ∧
          fd_written (disk w) (aw_fd (p_aof (sv_io w))) (f ++ aof_record ts) (disk w') ∧ zlen (f ++ aof_record ts) ≤ INT64_MAX
     else same_files w w') ∧
    (roomy (heap w) → is_Some (apply_write ts (maps w)) → 0 < r))
    (append_failed f ts KVS_COMMAND_SOURCE_REPLICATION w).
Proof. apply replication_command_spec. Qed.

(** C22: installing a primary's snapshot leaves a replica with exactly the data of a
    snapshot whose checkpoint is the announced offset, and its log cut to that
    offset; any other file, or a failure, leaves it empty and says so.  The process
    ends only when the engines cannot be made for want of memory. *)
Theorem install_exact path offset own F f w :
  path ≠ [] → data_ok own F w → aof_log (sv_io w) f →
  (∀ data ck rs, file_at (disk w) path = Some data → zlen data ≤ SIZE_MAX → snapshot_text ck rs data → Forall record_key_ok rs →
    wpx (kvs_install_replication_snapshot path offset) w (λ r w',
      installed own F f offset (λ ms, ck = Checkpoint 1 offset ∧
        ∃ ms', insert_records empty_maps rs = Some ms' ∧ maps_eq ms ms') w r w' ∧
      (roomy (heap w) → healthy (disk w) → ck = Checkpoint 1 offset → insert_records empty_maps rs ≠ None → r = 0))
      (λ _, ¬ roomy (heap w))) ∧
  ((∀ d, file_at (disk w) path = Some d → zlen d ≤ SIZE_MAX ∧ ∀ ck rs, ¬ snapshot_text ck rs d) →
    wpx (kvs_install_replication_snapshot path offset) w (λ r w', r = -1 ∧ installed own F f offset (λ _, False) w r w')
      (λ _, ¬ roomy (heap w))).
Proof.
  intros Hp Hd Hl. split.
  - intros data ck rs Hf Hsz Ht Hk. by apply (install_accepted path offset data ck rs).
  - intros Hno. apply install_refused; [done|done|done| |].
    + intros d ck rs Hf _ Ht. by apply (proj2 (Hno d Hf) ck rs).
    + intros d Hf. by apply Hno.
Qed.
End properties.

(** ** Examples *)

Definition sample_message : bytes := aof_record sample_command.

Lemma field_text_of s : zlen s ≤ SIZE_MAX → field_text s ([DOLLAR] ++ write_decimal (zlen s) ++ crlf ++ s ++ crlf).
Proof. intros Hs. exists (write_decimal (zlen s)). pose proof (zlen_nonneg s). split; [by apply write_decimal_text|done]. Qed.

Lemma sample_starts : starts_with sample_command sample_message sample_message.
Proof.
  split; [|split; [split; vm_compute; discriminate|split; [vm_compute; discriminate|exists []; by rewrite app_nil_r]]].
  exists (write_decimal (zlen sample_command)), ((λ s, [DOLLAR] ++ write_decimal (zlen s) ++ crlf ++ s ++ crlf) <$> sample_command).
  split; [apply write_decimal_text; split; vm_compute; discriminate|]. split; [|vm_compute; reflexivity].
  repeat (constructor; [apply field_text_of; vm_compute; discriminate|]). constructor.
Qed.

Lemma sample_message_keys ts t : starts_with ts t sample_message → well_formed ts → demo_key_ok ts.
Proof.
  intros Hs _. assert (zlen sample_message ≤ SIZE_MAX) as Hsz by (vm_compute; discriminate).
  assert (parse_message sample_message = Complete (slice_of <$> sample_command, zlen sample_message)) as E1
    by (apply parse_message_complete; [done|]; exists sample_command, sample_message; split; [apply sample_starts|done]).
  assert (parse_message sample_message = Complete (slice_of <$> ts, zlen t)) as E2
    by (apply parse_message_complete; [done|]; by exists ts, t).
  assert (slice_of <$> ts = slice_of <$> sample_command) as E by congruence.
  assert (ts = sample_command) as ->; [|vm_compute; reflexivity].
  assert (Inj eq eq slice_of) as Hinj by (intros x y Hxy; by rewrite <- (slice_bytes_of x), <- (slice_bytes_of y), Hxy).
  by apply (list_fmap_eq_inj slice_of).
Qed.

Lemma network_protocol_exact_witness : ∃ (w : server heap_rt mem_os demo_engines) (b : kvs_output_buffer_t),
  zlen sample_message ≤ SIZE_MAX ∧ reply_buffer b ∧
  kvs_network_protocol sample_message b w =
    ('(response_length, response, _) ← kvs_execute_fields (slice_of <$> sample_command) b KVS_COMMAND_SOURCE_CLIENT;
     if (response_length <? 0) || (reply_capacity response <? response_length) then mret (-1, response, 0) else
     mret (response_length, response, zlen sample_message)) w.
Proof.
  destruct (demo_server KVS_ROLE_PRIMARY KVS_PERSISTENCE_AOF []) as (w & b & _ & Hb & _). exists w, b.
  assert (zlen sample_message ≤ SIZE_MAX) as Hsz by (vm_compute; discriminate). split; [exact Hsz|]. split; [exact Hb|].
  exact (proj1 (network_protocol_exact sample_message b w Hsz Hb) _ _ sample_starts).
Defined.


Lemma save_exact_witness : ∃ (w : server heap_rt mem_os demo_engines) (b : kvs_output_buffer_t),
  reply_buffer b ∧ server_ok (owned (o_data b) ++ []) ∅ [] w ∧ loading w = false ∧
  wp (kvs_execute_fields (slice_of <$> save_command) b KVS_COMMAND_SOURCE_CLIENT) w (λ '(r, b', _) w',
    owned (o_data b') = owned (o_data b) ∧ kept b b' ∧
    ∃ s, saved (owned (o_data b) ++ []) ∅ [] w s w' ∧
      (reply_attempt b (if s <? 0 then lit "-ERR SAVE failed" ++ crlf else lit "+OK" ++ crlf) r b' ∨
       r = -1 ∧ ¬ roomy (heap w))).
Proof.
  destruct (demo_server KVS_ROLE_PRIMARY KVS_PERSISTENCE_LEGACY_HYBRID []) as (w & b & Hd & Hb & Hl & _ & _ & Hload & Hrec & _).
  exists w, b.
  assert (server_ok (owned (o_data b) ++ []) ∅ [] w) as Hok by (split; [exact Hd|split; [vm_compute; discriminate|done]]).
  split; [exact Hb|]. split; [exact Hok|]. split; [exact Hload|].
  exact (save_exact b (owned (o_data b) ++ []) ∅ [] w Hb Hok Hload).
Defined.

(** A server whose process is about to start on the disk [d]. *)
Lemma demo_fresh (mode : kvs_persistence_mode_t) (d : mem_os) : ∃ w : server heap_rt mem_os demo_engines,
  fresh_server [] ∅ mode w ∧ disk w = d ∧ roomy (heap w) ∧ kvs_persistence_mode w = mode.
Proof.
  destruct fresh_engines as (es & _). exists (Server (PWorld empty_heap d aof_writer_closed) es KVS_ROLE_PRIMARY mode offline).
  split; [|done]. split; [done|]. split; [done|]. split; [done|]. exact empty_heap_owns.
Qed.

(** An empty server with an empty log. *)
Lemma demo_empty_server : ∃ w : server heap_rt mem_os demo_engines, logs_since empty_maps [] [] w.
Proof.
  destruct fresh_engines as (es & r & _ & _ & Hm & _).
  exists (Server (PWorld r (p_os (sample_log [])) (p_aof (sample_log []))) es KVS_ROLE_PRIMARY KVS_PERSISTENCE_AOF offline).
  split; [done|]. split; [vm_compute; discriminate|]. split; [apply sample_log_ok|]. by apply advances_refl.
Qed.

Lemma aof_restart_witness : ∃ w0 : server heap_rt mem_os demo_engines, logs_since empty_maps [] [] w0 ∧
  ∀ w1, session w0 w1 → ∃ f, logs_since empty_maps [] f w1 ∧
    ∃ w2 : server heap_rt mem_os demo_engines, fresh_server [] ∅ KVS_PERSISTENCE_AOF w2 ∧
    wp (kvs_server_recover 0) w2 (restores [] ∅ (maps w1) f w2).
Proof.
  destruct demo_empty_server as (w0 & Hl). exists w0. split; [exact Hl|]. intros w1 Hs.
  destruct (aof_restart [] w0 w1 Hl Hs) as (f & Hf & Hr). exists f. split; [exact Hf|].
  destruct (demo_fresh KVS_PERSISTENCE_AOF (one_file (lit "commands.aof") f)) as (w2 & Hw2 & Hd & _). exists w2. split; [exact Hw2|].
  apply (Hr 0 [] ∅ w2 Hw2). rewrite Hd. reflexivity.
Defined.

(** A server whose SAVE succeeds. *)
Lemma demo_saver mode : mode ≠ KVS_PERSISTENCE_AOF → ∃ w w1 : server heap_rt mem_os demo_engines,
  kvs_persistence_mode w = mode ∧ server_ok [] ∅ [] w ∧ engine_records (sv_engines w) = sample_records ∧ strings_ok (maps w) ∧
  aof_log (sv_io w) [] ∧ kvs_save_current_snapshot w = Ok 0 w1.
Proof.
  intros Hmode. destruct loaded_engines as (es & r & Hwf & Ho & Hh & Hoth & Hroom).
  destruct (loaded_records es Hh Hoth) as (Hrec & Hstr & Hfit).
  set (w := Server (PWorld r (p_os (sample_log [])) (p_aof (sample_log []))) es KVS_ROLE_PRIMARY mode offline).
  assert (server_ok [] ∅ [] w) as Hok by (split; [by split|split; [vm_compute; discriminate|intros _; apply sample_log_ok]]).
  pose proof (save_current_spec [] ∅ [] w Hok) as Hs. unfold wp in Hs.
  destruct (kvs_save_current_snapshot w) as [s w1| |] eqn:E; [|done..].
  exists w, w1. split; [done|]. split; [done|]. split; [done|]. split; [|split; [apply sample_log_ok|]].
  - intros i k v Hk. destruct (proj1 (Forall_forall _ _) (Hstr i) (k, v)) as [Hkn Hvn]; [|by split].
    apply elem_of_list_to_map_2. exact Hk.
  - rewrite E. f_equal. apply Hs; [done|reflexivity|exact Hroom|]. split; [exact Hfit|].
    unfold snapshot_image, snapshot_payload. change (sv_engines w) with es. rewrite Hrec.
    change (kvs_persistence_mode w) with mode. destruct mode; [..|done]; vm_compute; discriminate.
Qed.

Lemma hybrid_restart_witness : ∃ w w1 : server heap_rt mem_os demo_engines,
  logs_since (maps w) [] [] w ∧ kvs_save_current_snapshot w = Ok 0 w1 ∧
  ∀ w2, session w1 w2 → ∃ f', logs_since (maps w) [] f' w2 ∧
    ∀ (array : addr) own F (w3 : server heap_rt mem_os demo_engines), fresh_server own F KVS_PERSISTENCE_LEGACY_HYBRID w3 →
    file_at (disk w3) (lit "snapshot.db") = file_at (disk w1) (lit "snapshot.db") →
    file_at (disk w3) (lit "appendonly.aof") = Some f' →
    wp (kvs_server_recover array) w3 (restores own F (maps w2) f' w3).
Proof.
  destruct (demo_saver KVS_PERSISTENCE_LEGACY_HYBRID ltac:(done)) as (w & w1 & Hm & Hok & Hrec & Hstr & Hl & Hs). exists w, w1.
  assert (logs_since (maps w) [] [] w) as Hls.
  { split; [congruence|]. split; [vm_compute; discriminate|]. split; [exact Hl|]. by apply advances_refl. }
  split; [exact Hls|]. split; [exact Hs|]. intros w2 Hw2.
  refine (hybrid_restart (maps w) [] [] w [] ∅ w1 w2 Hm Hls Hstr Hok _ Hs Hw2).
  unfold snapshot_image, snapshot_payload. rewrite Hrec. vm_compute. discriminate.
Defined.

Lemma snapshot_restart_witness : ∃ w w1 : server heap_rt mem_os demo_engines,
  kvs_save_current_snapshot w = Ok 0 w1 ∧
  ∀ (array : addr) own F (w2 : server heap_rt mem_os demo_engines), fresh_server own F KVS_PERSISTENCE_SNAPSHOT w2 →
  file_at (disk w2) (lit "snapshot.bin") = file_at (disk w1) (lit "snapshot.bin") →
  wp (kvs_server_recover array) w2 (restores own F (maps w) [] w2).
Proof.
  destruct (demo_saver KVS_PERSISTENCE_SNAPSHOT ltac:(done)) as (w & w1 & Hm & Hok & Hrec & Hstr & _ & Hs). exists w, w1.
  split; [exact Hs|].
  refine (snapshot_restart [] w [] ∅ w1 Hm Hstr Hok _ Hs).
  unfold snapshot_image, snapshot_payload. rewrite Hrec. vm_compute. discriminate.
Defined.

Lemma replication_command_exact_witness : ∃ w : server heap_rt mem_os demo_engines,
  kvs_server_role w = KVS_ROLE_REPLICA ∧ ∃ own, data_ok own ∅ w ∧ aof_log (sv_io w) [] ∧
  wpx (kvs_replication_command_protocol 0 (slice_of <$> sample_command) REPLAY_RESPONSE) w (λ r w',
    keeps w w' ∧ data_ok own ∅ w' ∧ applied_write sample_command w r w' ∧
    (if (0 <? r) && bool_decide (kvs_persistence_mode w ≠ KVS_PERSISTENCE_SNAPSHOT)
     then aof_log (sv_io w') ([] ++ aof_record sample_command) ∧ command_text sample_command (aof_record sample_command) ∧
          fd_written (disk w) (aw_fd (p_aof (sv_io w))) ([] ++ aof_record sample_command) (disk w') ∧
          zlen ([] ++ aof_record sample_command) ≤ INT64_MAX
     else same_files w w') ∧
    (roomy (heap w) → is_Some (demo_apply sample_command (maps w)) → 0 < r))
    (append_failed [] sample_command KVS_COMMAND_SOURCE_REPLICATION w).
Proof.
  destruct (demo_server KVS_ROLE_REPLICA KVS_PERSISTENCE_AOF []) as (w & b & Hd & Hb & Hl & Hrole & _). exists w.
  split; [exact Hrole|]. exists (owned (o_data b) ++ []). split; [exact Hd|]. split; [exact Hl|].
  refine (replication_command_exact 0 REPLAY_RESPONSE sample_command _ ∅ [] w _ _ Hd (λ _, Hl)); [split; vm_compute; done|].
  split; [check_well_formed|]. split; [reflexivity|]. split; [vm_compute; reflexivity|]. split; [check_nul_free|].
  repeat (apply Forall_cons; split; [vm_compute; reflexivity|]). by apply Forall_nil.
Defined.

(** A replica whose log and the snapshot just received are on the disk. *)
Definition replica_disk : mem_os :=
  MemOs {[lit "appendonly.aof" := 0; lit "received.snap" := 1]} {[0 := []; 1 := sample_snapshot]} {[3 := 0]} false.

Lemma install_exact_witness : ∃ w : server heap_rt mem_os demo_engines,
  data_ok [] ∅ w ∧ aof_log (sv_io w) [] ∧
  wpx (kvs_install_replication_snapshot (lit "received.snap") 77) w (λ r w',
      installed [] ∅ [] 77 (λ ms, Checkpoint 1 77 = Checkpoint 1 77 ∧
        ∃ ms', insert_records (RT := heap_rt) (Ea := kvs_array_t) (Er := RbTree.kvs_rbtree_t) (Eh := kvs_hash_t) (Es := kvs_skiplist_t)
          empty_maps sample_records = Some ms' ∧ maps_eq ms ms') w r w' ∧
      (roomy (heap w) → healthy (disk w) → Checkpoint 1 77 = Checkpoint 1 77 →
       insert_records (RT := heap_rt) (Ea := kvs_array_t) (Er := RbTree.kvs_rbtree_t) (Eh := kvs_hash_t) (Es := kvs_skiplist_t)
         empty_maps sample_records ≠ None → r = 0))
      (λ _, ¬ roomy (heap w)).
Proof.
  destruct loaded_engines as (es & r & Hwf & Ho & _).
  exists (Server (PWorld r replica_disk (AofWriter 3 0 true)) es KVS_ROLE_REPLICA KVS_PERSISTENCE_AOF offline).
  split; [by split|]. split; [by split_and!|].
  refine (proj1 (install_exact (lit "received.snap") 77 [] ∅ [] (Server (PWorld r replica_disk (AofWriter 3 0 true)) es
    KVS_ROLE_REPLICA KVS_PERSISTENCE_AOF offline) _ _ _) sample_snapshot (Checkpoint 1 77) sample_records _ _ sample_snapshot_text sample_keys).
  - discriminate.
  - by split.
  - by split_and!.
  - reflexivity.
  - vm_compute. discriminate.
Defined.
