(* ===== verification/Config.v ===== *)
(** The configuration file, src/config/config.c: lines of [key = value], defaults, and
    the constraints between the fields.

    The file is what the C library delivers of it: its text with the outcomes of
    [fopen], reading and [fclose].  A line is cut at a NUL byte, as the string functions
    see it.  The message buffer is filled as [snprintf] does.  [inet_pton] is the
    interface [Inet]. *)

From Stdlib Require Import ZArith Lia.
From S2P Require Import Prelude Codec Kvstore Allocator.

(** * The library *)

(** [inet_pton(AF_INET, text, ...) == 1]. *)
Class Inet := { inet_pton : bytes → bool }.

Definition DOT : byte := byte_of_Z 46.
(** One to three digits that denote a number up to 255. *)
Definition octet_text (s : bytes) : Prop := (List.length s ≤ 3)%nat ∧ ∃ n, number_text n s ∧ 0 ≤ n ≤ 255.
Definition dotted (a b c d : bytes) : bytes := a ++ [DOT] ++ b ++ [DOT] ++ c ++ [DOT] ++ d.

(** What is accepted is in dotted decimal notation, and every address as it is usually
    written is accepted. *)
Class InetLaws `{Inet} : Prop := {
  inet_pton_law s : inet_pton s = true → ∃ a b c d, s = dotted a b c d ∧ Forall octet_text [a; b; c; d];
  inet_pton_canonical a b c d : Forall (λ n, 0 ≤ n ≤ 255) [a; b; c; d] →
    inet_pton (dotted (write_decimal a) (write_decimal b) (write_decimal c) (write_decimal d)) = true;
}.

(** The file as the program reads it: it cannot be opened, for the reason given by
    [strerror], or it is a stream with a text and possibly an error at its end or when
    it is closed. *)
Inductive config_file :=
  | CannotOpen (reason : bytes)
  | Stream (text : bytes) (read_error close_error : option bytes).

(** The successive results of [getline], up to the first NUL byte of each. *)
Fixpoint file_lines (text line : bytes) : list bytes :=
  match text with
  | [] => match line with [] => [] | _ => [line] end
  | c :: text => if bool_decide (c = LF) then (line ++ [c]) :: file_lines text [] else file_lines text (line ++ [c])
  end.
Fixpoint c_string (s : bytes) : bytes :=
  match s with [] => [] | c :: s => if bool_decide (c = NUL) then [] else c :: c_string s end.

(** [snprintf] into a buffer of [n] bytes leaves this text. *)
Definition printed (n : Z) (text : bytes) : bytes := take (Z.to_nat (n - 1)) text.

(** * Fields *)

Inductive config_field :=
  | FIELD_ROLE | FIELD_BIND_IP | FIELD_SERVICE_PORT | FIELD_RDMA_PORT | FIELD_LOG_LEVEL | FIELD_PERSISTENCE_MODE
  | FIELD_REPLICATION_PORT | FIELD_PRIMARY_HOST | FIELD_PRIMARY_PORT | FIELD_ALLOCATOR.
#[export] Instance config_field_eq_dec : EqDecision config_field.
Proof. solve_decision. Defined.

Definition config_fields : list config_field :=
  [FIELD_ROLE; FIELD_BIND_IP; FIELD_SERVICE_PORT; FIELD_RDMA_PORT; FIELD_LOG_LEVEL; FIELD_PERSISTENCE_MODE;
   FIELD_REPLICATION_PORT; FIELD_PRIMARY_HOST; FIELD_PRIMARY_PORT; FIELD_ALLOCATOR].
Definition field_names (f : config_field) : bytes :=
  match f with
  | FIELD_ROLE => lit "role" | FIELD_BIND_IP => lit "bind_ip" | FIELD_SERVICE_PORT => lit "service_port"
  | FIELD_RDMA_PORT => lit "rdma_port" | FIELD_LOG_LEVEL => lit "log_level" | FIELD_PERSISTENCE_MODE => lit "persistence_mode"
  | FIELD_REPLICATION_PORT => lit "replication_port" | FIELD_PRIMARY_HOST => lit "primary_host"
  | FIELD_PRIMARY_PORT => lit "primary_port" | FIELD_ALLOCATOR => lit "allocator"
  end.

Inductive kvs_log_level_t := KVS_LOG_ERROR | KVS_LOG_INFO | KVS_LOG_DEBUG.

Record kvs_config_t := KvsConfig {
  cfg_role : kvs_role_t;
  bind_ip : bytes;
  service_port : Z;
  rdma_port : Z;
  replication_port : Z;
  primary_host : bytes;
  primary_port : Z;
  log_level : kvs_log_level_t;
  cfg_persistence_mode : kvs_persistence_mode_t;
  cfg_allocator_backend : kvs_allocator_backend_t;
}.

Definition KVS_CONFIG_IPV4_CAPACITY : Z := 16.
Definition KVS_CONFIG_PRIMARY_HOST_CAPACITY : Z := 256.

Definition put_role (x : kvs_role_t) (c : kvs_config_t) : kvs_config_t :=
  KvsConfig x (bind_ip c) (service_port c) (rdma_port c) (replication_port c) (primary_host c) (primary_port c) (log_level c) (cfg_persistence_mode c) (cfg_allocator_backend c).
Definition put_bind_ip (x : bytes) (c : kvs_config_t) : kvs_config_t :=
  KvsConfig (cfg_role c) x (service_port c) (rdma_port c) (replication_port c) (primary_host c) (primary_port c) (log_level c) (cfg_persistence_mode c) (cfg_allocator_backend c).
Definition put_service_port (x : Z) (c : kvs_config_t) : kvs_config_t :=
  KvsConfig (cfg_role c) (bind_ip c) x (rdma_port c) (replication_port c) (primary_host c) (primary_port c) (log_level c) (cfg_persistence_mode c) (cfg_allocator_backend c).
Definition put_rdma_port (x : Z) (c : kvs_config_t) : kvs_config_t :=
  KvsConfig (cfg_role c) (bind_ip c) (service_port c) x (replication_port c) (primary_host c) (primary_port c) (log_level c) (cfg_persistence_mode c) (cfg_allocator_backend c).
Definition put_replication_port (x : Z) (c : kvs_config_t) : kvs_config_t :=
  KvsConfig (cfg_role c) (bind_ip c) (service_port c) (rdma_port c) x (primary_host c) (primary_port c) (log_level c) (cfg_persistence_mode c) (cfg_allocator_backend c).
Definition put_primary_host (x : bytes) (c : kvs_config_t) : kvs_config_t :=
  KvsConfig (cfg_role c) (bind_ip c) (service_port c) (rdma_port c) (replication_port c) x (primary_port c) (log_level c) (cfg_persistence_mode c) (cfg_allocator_backend c).
Definition put_primary_port (x : Z) (c : kvs_config_t) : kvs_config_t :=
  KvsConfig (cfg_role c) (bind_ip c) (service_port c) (rdma_port c) (replication_port c) (primary_host c) x (log_level c) (cfg_persistence_mode c) (cfg_allocator_backend c).
Definition put_log_level (x : kvs_log_level_t) (c : kvs_config_t) : kvs_config_t :=
  KvsConfig (cfg_role c) (bind_ip c) (service_port c) (rdma_port c) (replication_port c) (primary_host c) (primary_port c) x (cfg_persistence_mode c) (cfg_allocator_backend c).
Definition put_persistence_mode (x : kvs_persistence_mode_t) (c : kvs_config_t) : kvs_config_t :=
  KvsConfig (cfg_role c) (bind_ip c) (service_port c) (rdma_port c) (replication_port c) (primary_host c) (primary_port c) (log_level c) x (cfg_allocator_backend c).
Definition put_allocator_backend (x : kvs_allocator_backend_t) (c : kvs_config_t) : kvs_config_t :=
  KvsConfig (cfg_role c) (bind_ip c) (service_port c) (rdma_port c) (replication_port c) (primary_host c) (primary_port c) (log_level c) (cfg_persistence_mode c) x.

(** * Errors *)

(** The text [config_error] puts into the buffer: a detail of at most 255 bytes behind
    the path and, except for line 0, the number of the line. *)
Definition config_error (capacity : Z) (path : bytes) (line_number : Z) (detail : bytes) : bytes :=
  let detail := printed 256 detail in
  printed capacity (if line_number =? 0 then path ++ lit ": " ++ detail
                     else path ++ lit ":" ++ write_decimal line_number ++ lit ": " ++ detail).

(** A step of the parser: the text of the error, or a result. *)
Abbreviation or_error X := (bytes + X)%type.

(** * Words *)

Definition isspace (c : byte) : bool := ((9 <=? uchar c) && (uchar c <=? 13)) || (uchar c =? 32).
Fixpoint skip_space (s : bytes) : bytes := match s with c :: s' => if isspace c then skip_space s' else s | [] => [] end.
Definition trim (s : bytes) : bytes := reverse (skip_space (reverse (skip_space s))).

Fixpoint find_field_loop (name : bytes) (fs : list config_field) : option config_field :=
  match fs with [] => None | f :: fs => if streq name (field_names f) then Some f else find_field_loop name fs end.
Definition find_field (name : bytes) : option config_field := find_field_loop name config_fields.

Fixpoint all_digits (s : bytes) : bool := match s with [] => true | c :: s => if negb (is_digit c) then false else all_digits s end.

(** [strtol] of a string of digits: its value, or [None] for [ERANGE]. *)
Definition LONG_MAX : Z := 2 ^ 63 - 1.
Definition strtol (s : bytes) : option Z := let n := dec_value 0 s in if LONG_MAX <? n then None else Some n.

Definition parse_port (text : bytes) : option Z :=
  match text with
  | [] => None
  | _ =>
      if negb (all_digits text) then None else
      match strtol text with
      | None => None
      | Some number => if (number <? 1) || (65535 <? number) then None else Some number
      end
  end.

Definition valid_ipv4 `{Inet} (text : bytes) : bool := inet_pton text.

(** [strchr(s, '=')]: the parts before and behind the first equals sign. *)
Definition EQUALS : byte := byte_of_Z 61.
Definition HASH : byte := byte_of_Z 35.
Fixpoint split_equal (s : bytes) : option (bytes * bytes) :=
  match s with
  | [] => None
  | c :: s => if bool_decide (c = EQUALS) then Some ([], s) else '(k, v) ← split_equal s; Some (c :: k, v)
  end.

(** * Parsing *)

Section parsing.
Context `{Inet} (error_capacity : Z) (path : bytes).

Definition parse_field (f : config_field) (value : bytes) (parsed : kvs_config_t) (line_number : Z) : or_error kvs_config_t :=
  let error detail := inl (config_error error_capacity path line_number detail) in
  match f with
  | FIELD_ROLE =>
      if streq value (lit "standalone") then inr (put_role KVS_ROLE_STANDALONE parsed)
      else if streq value (lit "primary") then inr (put_role KVS_ROLE_PRIMARY parsed)
      else if streq value (lit "replica") then inr (put_role KVS_ROLE_REPLICA parsed)
      else error (lit "invalid role '" ++ value ++ lit "'; expected standalone, primary or replica")
  | FIELD_BIND_IP =>
      if negb (valid_ipv4 value) then error (lit "invalid bind_ip '" ++ value ++ lit "'; expected an IPv4 address")
      else inr (put_bind_ip (printed KVS_CONFIG_IPV4_CAPACITY value) parsed)
  | FIELD_SERVICE_PORT =>
      match parse_port value with
      | None => error (lit "invalid service_port '" ++ value ++ lit "'; expected 1-65535")
      | Some port => inr (put_service_port port parsed)
      end
  | FIELD_RDMA_PORT =>
      match parse_port value with
      | None => error (lit "invalid rdma_port '" ++ value ++ lit "'; expected 1-65535")
      | Some port => inr (put_rdma_port port parsed)
      end
  | FIELD_LOG_LEVEL =>
      if streq value (lit "error") then inr (put_log_level KVS_LOG_ERROR parsed)
      else if streq value (lit "info") then inr (put_log_level KVS_LOG_INFO parsed)
      else if streq value (lit "debug") then inr (put_log_level KVS_LOG_DEBUG parsed)
      else error (lit "invalid log_level '" ++ value ++ lit "'; expected error, info or debug")
  | FIELD_PERSISTENCE_MODE =>
      if streq value (lit "legacy_hybrid") then inr (put_persistence_mode KVS_PERSISTENCE_LEGACY_HYBRID parsed)
      else if streq value (lit "snapshot") then inr (put_persistence_mode KVS_PERSISTENCE_SNAPSHOT parsed)
      else if streq value (lit "aof") then inr (put_persistence_mode KVS_PERSISTENCE_AOF parsed)
      else error (lit "unsupported persistence_mode '" ++ value ++ lit "'; expected legacy_hybrid, snapshot or aof")
  | FIELD_REPLICATION_PORT =>
      match parse_port value with
      | None => error (lit "invalid replication_port '" ++ value ++ lit "'; expected 1-65535")
      | Some port => inr (put_replication_port port parsed)
      end
  | FIELD_PRIMARY_HOST =>
      if negb (valid_ipv4 value) || streq value (lit "0.0.0.0")
      then error (lit "invalid primary_host '" ++ value ++ lit "'; expected a connectable IPv4 address")
      else inr (put_primary_host (printed KVS_CONFIG_PRIMARY_HOST_CAPACITY value) parsed)
  | FIELD_PRIMARY_PORT =>
      match parse_port value with
      | None => error (lit "invalid primary_port '" ++ value ++ lit "'; expected 1-65535")
      | Some port => inr (put_primary_port port parsed)
      end
  | FIELD_ALLOCATOR =>
      if streq value (lit "system") then inr (put_allocator_backend KVS_ALLOCATOR_SYSTEM parsed)
      else if streq value (lit "pool") then inr (put_allocator_backend KVS_ALLOCATOR_POOL parsed)
      else error (lit "invalid allocator '" ++ value ++ lit "'; expected system or pool")
  end.

(** The text of the error, if there is one. *)
Definition validate_config (parsed : kvs_config_t) (seen : config_field → bool) (field_lines : config_field → Z) : option bytes :=
  let error line detail := Some (config_error error_capacity path line detail) in
  if negb (seen FIELD_ROLE) then error 0 (lit "missing required field 'role'")
  else if negb (seen FIELD_SERVICE_PORT) then error 0 (lit "missing required field 'service_port'")
  else if negb (seen FIELD_PERSISTENCE_MODE) then error 0 (lit "missing required field 'persistence_mode'")
  else if seen FIELD_RDMA_PORT && negb (bool_decide (cfg_role parsed = KVS_ROLE_PRIMARY)) then
    error (field_lines FIELD_RDMA_PORT) (lit "rdma_port is only valid for role=primary")
  else if seen FIELD_RDMA_PORT && (rdma_port parsed =? service_port parsed) then
    error (field_lines FIELD_RDMA_PORT) (lit "rdma_port must differ from service_port")
  else
  let role_error :=
    match cfg_role parsed with
    | KVS_ROLE_STANDALONE =>
        if seen FIELD_REPLICATION_PORT then
          error (field_lines FIELD_REPLICATION_PORT) (lit "replication_port is only valid for role=primary")
        else if seen FIELD_PRIMARY_HOST then
          error (field_lines FIELD_PRIMARY_HOST) (lit "primary_host is only valid for role=replica")
        else if seen FIELD_PRIMARY_PORT then
          error (field_lines FIELD_PRIMARY_PORT) (lit "primary_port is only valid for role=replica")
        else if bool_decide (cfg_persistence_mode parsed ≠ KVS_PERSISTENCE_SNAPSHOT) && bool_decide (cfg_persistence_mode parsed ≠ KVS_PERSISTENCE_AOF) then
          error (field_lines FIELD_PERSISTENCE_MODE) (lit "standalone supports only persistence_mode=snapshot or aof")
        else None
    | KVS_ROLE_PRIMARY =>
        if seen FIELD_REPLICATION_PORT then
          error (field_lines FIELD_REPLICATION_PORT) (lit "replication_port has been removed; use service_port")
        else if seen FIELD_PRIMARY_HOST then
          error (field_lines FIELD_PRIMARY_HOST) (lit "primary_host is only valid for role=replica")
        else if seen FIELD_PRIMARY_PORT then
          error (field_lines FIELD_PRIMARY_PORT) (lit "primary_port is only valid for role=replica")
        else None
    | KVS_ROLE_REPLICA =>
        if negb (seen FIELD_PRIMARY_HOST) then error 0 (lit "role=replica requires primary_host")
        else if negb (seen FIELD_PRIMARY_PORT) then error 0 (lit "role=replica requires primary_port")
        else if seen FIELD_REPLICATION_PORT then
          error (field_lines FIELD_REPLICATION_PORT)
            (lit "replication_port is only valid for role=primary; use primary_port for role=replica")
        else None
    end in
  match role_error with
  | Some e => Some e
  | None =>
      let is_replication_role := bool_decide (cfg_role parsed = KVS_ROLE_PRIMARY) || bool_decide (cfg_role parsed = KVS_ROLE_REPLICA) in
      if is_replication_role && bool_decide (cfg_persistence_mode parsed ≠ KVS_PERSISTENCE_LEGACY_HYBRID) then
        error (field_lines FIELD_PERSISTENCE_MODE) (lit "primary/replica currently support only persistence_mode=legacy_hybrid")
      else if bool_decide (cfg_role parsed = KVS_ROLE_PRIMARY) && negb (seen FIELD_RDMA_PORT) then
        error 0 (lit "role=primary requires rdma_port")
      else None
  end.

(** The local variables of [kvs_config_load]. *)
Record load_state := LoadState {
  ls_parsed : kvs_config_t;
  seen : config_field → bool;
  field_lines : config_field → Z;
  line_number : Z;
}.

Definition upd {A} (f : config_field) (x : A) (g : config_field → A) : config_field → A := λ f', if decide (f' = f) then x else g f'.

(** One turn of the loop. *)
Definition load_line (line : bytes) (s : load_state) : or_error load_state :=
  let n := line_number s + 1 in
  let error detail := inl (config_error error_capacity path n detail) in
  let entry := trim line in
  match entry with
  | [] => inr (LoadState (ls_parsed s) (seen s) (field_lines s) n)
  | c :: _ =>
      if bool_decide (c = HASH) then inr (LoadState (ls_parsed s) (seen s) (field_lines s) n) else
      match split_equal entry with
      | None => error (lit "expected 'key = value'")
      | Some (key, value) =>
          let key := trim key in
          let value := trim value in
          if bool_decide (key = []) || bool_decide (value = []) || bool_decide (EQUALS ∈ value) then
            error (lit "expected one non-empty 'key = value' pair") else
          match find_field key with
          | None => error (lit "unknown field '" ++ key ++ lit "'")
          | Some f =>
              if seen s f then
                error (lit "duplicate field '" ++ key ++ lit "'; first defined on line " ++ write_decimal (field_lines s f)) else
              match parse_field f value (ls_parsed s) n with
              | inl e => inl e
              | inr c => inr (LoadState c (upd f true (seen s)) (upd f n (field_lines s)) n)
              end
          end
      end
  end.

Fixpoint load_lines (lines : list bytes) (s : load_state) : or_error load_state :=
  match lines with
  | [] => inr s
  | line :: lines => match load_line (c_string line) s with inl e => inl e | inr s => load_lines lines s end
  end.
End parsing.

Definition default_config : kvs_config_t :=
  KvsConfig KVS_ROLE_STANDALONE (printed KVS_CONFIG_IPV4_CAPACITY (lit "0.0.0.0")) 0 0 0 [] 0 KVS_LOG_INFO
    KVS_PERSISTENCE_LEGACY_HYBRID KVS_ALLOCATOR_POOL.
Definition load_start : load_state := LoadState default_config (λ _, false) (λ _, 0) 0.

(** [config] is what the caller's pointer leads to and [capacity] the size of the error
    buffer; null pointers are [None].  The result: the code, the caller's configuration and
    the contents of the error buffer. *)
Definition kvs_config_load `{Inet} (path : option bytes) (file : config_file) (config : option kvs_config_t) (capacity : option Z) :
    Z * option kvs_config_t * option bytes :=
  match capacity with
  | None => (-1, config, None)
  | Some capacity =>
      if capacity <=? 0 then (-1, config, None) else
      match path, config with
      | Some ((_ :: _) as path), Some _ =>
          match file with
          | CannotOpen reason => (-1, config, Some (config_error capacity path 0 (lit "cannot open file: " ++ reason)))
          | Stream text read_error close_error =>
              let result :=
                match load_lines capacity path (file_lines text []) load_start with
                | inl e => inl e
                | inr s =>
                    match read_error with
                    | Some reason => inl (config_error capacity path (line_number s) (lit "failed while reading file: " ++ reason))
                    | None =>
                        match validate_config capacity path (ls_parsed s) (seen s) (field_lines s) with
                        | Some e => inl e
                        | None => inr (ls_parsed s)
                        end
                    end
                end in
              match result, close_error with
              | inl e, _ => (-1, config, Some e)
              | inr _, Some reason => (-1, config, Some (config_error capacity path 0 (lit "failed to close file: " ++ reason)))
              | inr c, None => (0, Some c, Some [])
              end
          end
      | _, _ => (-1, config, Some (config_error capacity (lit "config") 0 (lit "path and output config must not be empty")))
      end
  end.

(** * The format of the file *)

Definition spaces (w : bytes) : Prop := Forall (λ c, isspace c = true) w.
(** Neither the first nor the last character is a space. *)
Definition trimmed (s : bytes) : Prop :=
  match s with [] => True | c :: _ => isspace c = false end ∧ match reverse s with [] => True | c :: _ => isspace c = false end.

(** What a line says: nothing, or the value of a field. *)
Inductive line_means : bytes → option (config_field * bytes) → Prop :=
  | line_blank w : spaces w → line_means w None
  | line_comment w rest : spaces w → line_means (w ++ HASH :: rest) None
  | line_entry w1 w2 w3 w4 f v : spaces w1 → spaces w2 → spaces w3 → spaces w4 → v ≠ [] → EQUALS ∉ v → trimmed v →
      line_means (w1 ++ field_names f ++ w2 ++ [EQUALS] ++ w3 ++ v ++ w4) (Some (f, v)).

Definition role_name (r : kvs_role_t) : bytes :=
  match r with KVS_ROLE_STANDALONE => lit "standalone" | KVS_ROLE_PRIMARY => lit "primary" | KVS_ROLE_REPLICA => lit "replica" end.
Definition log_level_name (l : kvs_log_level_t) : bytes :=
  match l with KVS_LOG_ERROR => lit "error" | KVS_LOG_INFO => lit "info" | KVS_LOG_DEBUG => lit "debug" end.
Definition mode_name (m : kvs_persistence_mode_t) : bytes :=
  match m with KVS_PERSISTENCE_LEGACY_HYBRID => lit "legacy_hybrid" | KVS_PERSISTENCE_SNAPSHOT => lit "snapshot" | KVS_PERSISTENCE_AOF => lit "aof" end.
Definition backend_name (b : kvs_allocator_backend_t) : bytes :=
  match b with KVS_ALLOCATOR_SYSTEM => lit "system" | KVS_ALLOCATOR_POOL => lit "pool" end.

Definition port_is (n : Z) (v : bytes) : Prop := number_text n v ∧ 1 ≤ n ≤ 65535.

(** The field [f] of the configuration has the value written [v]. *)
Definition field_is `{Inet} (c : kvs_config_t) (f : config_field) (v : bytes) : Prop :=
  match f with
  | FIELD_ROLE => v = role_name (cfg_role c)
  | FIELD_BIND_IP => inet_pton v = true ∧ bind_ip c = v
  | FIELD_SERVICE_PORT => port_is (service_port c) v
  | FIELD_RDMA_PORT => port_is (rdma_port c) v
  | FIELD_LOG_LEVEL => v = log_level_name (log_level c)
  | FIELD_PERSISTENCE_MODE => v = mode_name (cfg_persistence_mode c)
  | FIELD_REPLICATION_PORT => port_is (replication_port c) v
  | FIELD_PRIMARY_HOST => inet_pton v = true ∧ v ≠ lit "0.0.0.0" ∧ primary_host c = v
  | FIELD_PRIMARY_PORT => port_is (primary_port c) v
  | FIELD_ALLOCATOR => v = backend_name (cfg_allocator_backend c)
  end.

Definition same_field (f : config_field) (c c' : kvs_config_t) : Prop :=
  match f with
  | FIELD_ROLE => cfg_role c = cfg_role c'
  | FIELD_BIND_IP => bind_ip c = bind_ip c'
  | FIELD_SERVICE_PORT => service_port c = service_port c'
  | FIELD_RDMA_PORT => rdma_port c = rdma_port c'
  | FIELD_LOG_LEVEL => log_level c = log_level c'
  | FIELD_PERSISTENCE_MODE => cfg_persistence_mode c = cfg_persistence_mode c'
  | FIELD_REPLICATION_PORT => replication_port c = replication_port c'
  | FIELD_PRIMARY_HOST => primary_host c = primary_host c'
  | FIELD_PRIMARY_PORT => primary_port c = primary_port c'
  | FIELD_ALLOCATOR => cfg_allocator_backend c = cfg_allocator_backend c'
  end.

(** The values [L] of different fields make up the configuration, with the defaults for
    the others, in whatever order they are given. *)
Definition config_means `{Inet} (L : list (config_field * bytes)) (c : kvs_config_t) : Prop :=
  NoDup L.*1 ∧ (∀ f v, (f, v) ∈ L → field_is c f v) ∧ (∀ f, f ∉ L.*1 → same_field f c default_config).

(** The constraints on the fields present and on their values. *)
Definition config_rules (present : config_field → Prop) (c : kvs_config_t) : Prop :=
  present FIELD_ROLE ∧ present FIELD_SERVICE_PORT ∧ present FIELD_PERSISTENCE_MODE ∧ ¬ present FIELD_REPLICATION_PORT ∧
  match cfg_role c with
  | KVS_ROLE_STANDALONE =>
      ¬ present FIELD_RDMA_PORT ∧ ¬ present FIELD_PRIMARY_HOST ∧ ¬ present FIELD_PRIMARY_PORT ∧
      cfg_persistence_mode c ≠ KVS_PERSISTENCE_LEGACY_HYBRID
  | KVS_ROLE_PRIMARY =>
      present FIELD_RDMA_PORT ∧ rdma_port c ≠ service_port c ∧ ¬ present FIELD_PRIMARY_HOST ∧ ¬ present FIELD_PRIMARY_PORT ∧
      cfg_persistence_mode c = KVS_PERSISTENCE_LEGACY_HYBRID
  | KVS_ROLE_REPLICA =>
      ¬ present FIELD_RDMA_PORT ∧ present FIELD_PRIMARY_HOST ∧ present FIELD_PRIMARY_PORT ∧
      cfg_persistence_mode c = KVS_PERSISTENCE_LEGACY_HYBRID
  end.

(** The text is a well-formed file of the configuration [c]. *)
Definition config_text_of `{Inet} (text : bytes) (c : kvs_config_t) : Prop :=
  ∃ ms, Forall2 line_means (c_string <$> file_lines text []) ms ∧
    config_means (omap id ms) c ∧ config_rules (λ f, f ∈ (omap id ms).*1) c.

(** * Words *)

Lemma skip_space_app w t : spaces w → skip_space (w ++ t) = skip_space t.
Proof. induction 1 as [|c w Hc Hw IH]; [done|]. cbn. by rewrite Hc. Qed.

Lemma skip_space_id t : match t with [] => True | c :: _ => isspace c = false end → skip_space t = t.
Proof. destruct t as [|c t]; [done|]. intros Hc. cbn. by rewrite Hc. Qed.

Lemma skip_space_split s : ∃ w, s = w ++ skip_space s ∧ spaces w ∧ match skip_space s with [] => True | c :: _ => isspace c = false end.
Proof.
  induction s as [|c s (w & Es & Hw & Hhd)]; [exists []; split; [done|split; [apply Forall_nil_2|done]]|]. cbn. destruct (isspace c) eqn:Hc.
  - exists (c :: w). split; [by rewrite Es at 1|]. split; [by apply Forall_cons|done].
  - exists []. split; [done|]. split; [apply Forall_nil_2|done].
Qed.

Lemma spaces_reverse w : spaces w → spaces (reverse w).
Proof. intros Hw. unfold spaces. by rewrite reverse_Permutation. Qed.

Lemma trim_app w1 w2 t : spaces w1 → spaces w2 → trimmed t → trim (w1 ++ t ++ w2) = t.
Proof.
  intros H1 H2 [Hhd Hlast]. unfold trim. rewrite skip_space_app by done. destruct t as [|c t].
  - cbn [app]. assert (skip_space w2 = []) as ->; [|done]. rewrite <- (app_nil_r w2), skip_space_app by done. done.
  - rewrite (skip_space_id ((c :: t) ++ w2)) by done. rewrite reverse_app, skip_space_app by (by apply spaces_reverse).
    rewrite skip_space_id by done. by rewrite reverse_involutive.
Qed.

Lemma trim_id t : trimmed t → trim t = t.
Proof. intros Ht. rewrite <- (trim_app [] [] t) at 2 by (done || apply Forall_nil_2). by rewrite app_nil_r. Qed.

Lemma trim_split s : ∃ w1 w2, s = w1 ++ trim s ++ w2 ∧ spaces w1 ∧ spaces w2 ∧ trimmed (trim s).
Proof.
  destruct (skip_space_split s) as (w1 & E1 & Hw1 & Hhd). destruct (skip_space_split (reverse (skip_space s))) as (w2 & E2 & Hw2 & Hlast).
  apply (f_equal reverse) in E2. rewrite reverse_involutive, reverse_app in E2. fold (trim s) in E2. exists w1, (reverse w2).
  rewrite E2 in E1. split; [done|]. split; [done|]. split; [by apply spaces_reverse|]. split; [|unfold trim; by rewrite reverse_involutive].
  rewrite E2 in Hhd. destruct (trim s) as [|c t]; [done|exact Hhd].
Qed.

Lemma trim_nil s : trim s = [] → spaces s.
Proof. destruct (trim_split s) as (w1 & w2 & E & H1 & H2 & _). intros Et. rewrite E, Et. by apply Forall_app. Qed.

Lemma split_equal_app k v : EQUALS ∉ k → split_equal (k ++ EQUALS :: v) = Some (k, v).
Proof.
  induction k as [|c k IH]; cbn; intros Hk; [done|]. rewrite not_elem_of_cons in Hk. destruct Hk as [Hc Hk].
  rewrite bool_decide_eq_false_2 by congruence. by rewrite IH.
Qed.

Lemma split_equal_Some s k v : split_equal s = Some (k, v) → s = k ++ EQUALS :: v ∧ EQUALS ∉ k.
Proof.
  revert k. induction s as [|c s IH]; intros k; cbn; [done|]. case_bool_decide as Hc.
  - intros [= <- <-]. subst c. split; [done|apply not_elem_of_nil].
  - destruct (split_equal s) as [[k' v']|] eqn:E; [|done]. cbn. intros [= <- <-]. destruct (IH _ eq_refl) as [-> Hk]. split; [done|].
    rewrite not_elem_of_cons. split; [congruence|done].
Qed.

(** * Values *)

Lemma all_digits_Forall s : all_digits s = true ↔ Forall (λ c, is_digit c = true) s.
Proof.
  induction s as [|c s IH]; cbn; [split; [intros _; apply Forall_nil_2|done]|]. rewrite Forall_cons. destruct (is_digit c) eqn:E; cbn; [|by split; [|intros []]]. tauto.
Qed.

Lemma parse_port_spec v n : parse_port v = Some n ↔ port_is n v.
Proof.
  unfold parse_port, port_is, number_text. destruct v as [|c v]; [naive_solver|]. destruct (all_digits (c :: v)) eqn:E; cbn [negb].
  - apply all_digits_Forall in E. unfold strtol, LONG_MAX. cbv zeta. set (m := dec_value 0 (c :: v)). clearbody m. destruct (Z.ltb_spec (2 ^ 63 - 1) m).
    + split; [done|]. intros ((_ & _ & <-) & Hr). lia.
    + destruct (_ || _) eqn:Hr.
      * split; [done|]. rewrite orb_true_iff, !Z.ltb_lt in Hr. intros ((_ & _ & <-) & Hr'). lia.
      * rewrite orb_false_iff, !Z.ltb_ge in Hr. split; [intros [= <-]; split; [done|lia]|]. intros ((_ & _ & <-) & _). done.
  - split; [done|]. intros ((_ & Hd & _) & _). apply all_digits_Forall in Hd. congruence.
Qed.

Lemma port_is_inj n n' v : port_is n v → port_is n' v → n = n'.
Proof. intros ((_ & _ & <-) & _) ((_ & _ & <-) & _). done. Qed.

Lemma find_field_spec name f : find_field name = Some f ↔ name = field_names f.
Proof.
  split; [|by intros ->; destruct f].
  unfold find_field, config_fields, find_field_loop. intros E.
  repeat (destruct (streq name _) eqn:Es; [apply streq_true in Es; congruence|clear Es]). done.
Qed.

(** Names are words the splitting leaves intact. *)
Definition name_ok (s : bytes) : bool :=
  match s with [] => false | c :: _ => negb (isspace c) && negb (bool_decide (c = HASH)) end &&
  match reverse s with [] => false | c :: _ => negb (isspace c) end && negb (bool_decide (EQUALS ∈ s)).

Lemma field_name_ok f : field_names f ≠ [] ∧ EQUALS ∉ field_names f ∧ trimmed (field_names f) ∧ hd HASH (field_names f) ≠ HASH.
Proof.
  assert (name_ok (field_names f) = true) as Hn by (destruct f; reflexivity). unfold name_ok in Hn. rewrite !andb_true_iff, negb_true_iff, bool_decide_eq_false in Hn.
  destruct Hn as [[H1 H2] H3]. destruct (field_names f) as [|c s]; [done|]. rewrite andb_true_iff, !negb_true_iff, bool_decide_eq_false in H1. destruct H1 as [H1 H1'].
  split; [done|]. split; [done|]. split; [|done]. split; [done|]. destruct (reverse (c :: s)); [done|]. by apply negb_true_iff in H2.
Qed.

(** * Lines *)

Section loading.
Context `{InetLaws} (cap : Z) (path : bytes).
Implicit Types (f : config_field) (s : load_state) (c : kvs_config_t) (L : list (config_field * bytes)).

Lemma octet_length (t : bytes) : octet_text t → (List.length t ≤ 3)%nat.
Proof using. by intros [? _]. Qed.

Lemma inet_length (t : bytes) : inet_pton t = true → (List.length t ≤ 15)%nat.
Proof using H0.
  intros (a & b & c & d & -> & Hall)%inet_pton_law. unfold dotted. rewrite !Forall_cons in Hall. destruct Hall as (Ha & Hb & Hc & Hd & _).
  apply octet_length in Ha, Hb, Hc, Hd. rewrite !length_app. cbn. lia.
Qed.

Lemma snprintf_fits n v : Z.of_nat (List.length v) < n → printed n v = v.
Proof using. intros Hn. unfold printed. apply take_ge. lia. Qed.

(** A value that a field accepts. *)
Definition value_ok f (v : bytes) : Prop := ∃ c, field_is c f v.

Ltac is_name := repeat match goal with H : streq _ _ = true |- _ => apply streq_true in H | H : streq _ _ = false |- _ => rewrite streq_decide in H; apply bool_decide_eq_false_1 in H end.

Lemma parse_field_Some f v c n c' : parse_field cap path f v c n = inr c' →
  field_is c' f v ∧ ∀ f', f' ≠ f → same_field f' c' c.
Proof using H0.
  destruct f; cbn [parse_field]; cbv zeta.
  all: repeat match goal with |- context [if streq ?a ?b then _ else _] => destruct (streq a b) eqn:? end; is_name.
  all: try (destruct (parse_port v) as [port|] eqn:Hp; [|done]; apply parse_port_spec in Hp).
  all: try done.
  all: try (intros [= <-]; split; [done|intros []; done]).
  - destruct (valid_ipv4 v) eqn:Hv; cbn; [|done]. intros [= <-]. unfold valid_ipv4 in Hv. rewrite snprintf_fits by (apply inet_length in Hv; unfold KVS_CONFIG_IPV4_CAPACITY; lia).
    split; [done|intros []; done].
  - destruct (valid_ipv4 v) eqn:Hv; cbn [negb orb]; [|done]. destruct (streq v (lit "0.0.0.0")) eqn:Hz; [done|]. is_name. intros [= <-]. unfold valid_ipv4 in Hv.
    rewrite snprintf_fits by (apply inet_length in Hv; unfold KVS_CONFIG_PRIMARY_HOST_CAPACITY; lia). split; [done|intros []; done].
Qed.

Lemma parse_field_ok f v c n : value_ok f v → ∃ c', parse_field cap path f v c n = inr c'.
Proof using.
  intros [c0 Hv]. destruct f; cbn [parse_field field_is] in *; cbv zeta.
  all: try (apply parse_port_spec in Hv; rewrite Hv; by eexists).
  - subst v. destruct (cfg_role c0); vm_compute; by eexists.
  - destruct Hv as [Hv _]. unfold valid_ipv4. rewrite Hv. by eexists.
  - subst v. destruct (log_level c0); vm_compute; by eexists.
  - subst v. destruct (cfg_persistence_mode c0); vm_compute; by eexists.
  - destruct Hv as (Hv & Hne & _). unfold valid_ipv4. rewrite Hv, streq_decide, bool_decide_eq_false_2 by done. by eexists.
  - subst v. destruct (cfg_allocator_backend c0); vm_compute; by eexists.
Qed.

(** The state after a line. *)
Definition next_line s : load_state := LoadState (ls_parsed s) (seen s) (field_lines s) (line_number s + 1).
Definition next_field f c s : load_state := LoadState c (upd f true (seen s)) (upd f (line_number s + 1) (field_lines s)) (line_number s + 1).

Lemma load_line_none line s : line_means line None → load_line cap path line s = inr (next_line s).
Proof using.
  intros Hm. inversion Hm as [w Hw E|w rest Hw E|]; subst; unfold load_line; cbv zeta.
  - assert (trim line = []) as ->; [|done]. rewrite <- (trim_app line [] []) by (done || apply Forall_nil_2). by rewrite !app_nil_r.
  - destruct (trim_split (w ++ HASH :: rest)) as (w1 & w2 & E & Hw1 & Hw2 & Ht). destruct (trim (w ++ HASH :: rest)) as [|c t]; [done|].
    assert (c = HASH) as ->; [|by rewrite bool_decide_eq_true_2].
    assert (skip_space (w ++ HASH :: rest) = HASH :: rest) as E1 by (by rewrite skip_space_app by done).
    rewrite E, skip_space_app in E1 by done. cbn in E1. destruct Ht as [Hc _]. rewrite Hc in E1. by injection E1.
Qed.

Lemma load_line_entry line s f v : line_means line (Some (f, v)) → seen s f = false → value_ok f v →
  ∃ c, load_line cap path line s = inr (next_field f c s) ∧ parse_field cap path f v (ls_parsed s) (line_number s + 1) = inr c.
Proof using.
  intros Hm. inversion Hm as [| |w1 w2 w3 w4 f' v' H1 H2 H3 H4 Hne Heq Ht E]; subst. intros Hseen Hv. destruct (parse_field_ok f v (ls_parsed s) (line_number s + 1) Hv) as [c Hc]. exists c. split; [|done].
  destruct (field_name_ok f) as (Hfne & Hfeq & Hft & Hfh). unfold load_line. cbv zeta.
  assert (∃ t, trimmed (field_names f ++ t) ∧ trim (w1 ++ field_names f ++ w2 ++ [EQUALS] ++ w3 ++ v ++ w4) = field_names f ++ t ∧ t = w2 ++ [EQUALS] ++ w3 ++ v) as (t & Htt & -> & ->).
  { exists (w2 ++ [EQUALS] ++ w3 ++ v). assert (trimmed (field_names f ++ w2 ++ [EQUALS] ++ w3 ++ v)) as Htr.
    - split; [destruct (field_names f); [done|apply Hft]|]. rewrite !reverse_app, <- !app_assoc. destruct Ht as [_ Hlast]. destruct (reverse v) eqn:Er; [|done].
      apply (f_equal reverse) in Er. rewrite reverse_involutive in Er. done.
    - split; [done|]. split; [|done]. rewrite <- (trim_app w1 w4 (field_names f ++ w2 ++ [EQUALS] ++ w3 ++ v)) by done. by rewrite <- !app_assoc. }
  destruct (field_names f ++ w2 ++ [EQUALS] ++ w3 ++ v) as [|c0 t0] eqn:Ef; [by destruct (field_names f)|].
  rewrite bool_decide_eq_false_2 by (intros ->; apply Hfh; destruct (field_names f); [done|by injection Ef]). rewrite <- Ef. clear c0 t0 Ef Htt.
  rewrite app_assoc. cbn [app]. rewrite split_equal_app.
  2:{ rewrite not_elem_of_app. split; [done|]. intros Hin. unfold spaces in H2. rewrite Forall_forall in H2. specialize (H2 _ Hin). done. }
  assert (trim (field_names f ++ w2) = field_names f) as -> by (apply (trim_app [] w2); done || apply Forall_nil_2).
  assert (trim (w3 ++ v) = v) as -> by (pose proof (trim_app w3 [] v H3 (Forall_nil_2 _) Ht) as E; by rewrite app_nil_r in E).
  rewrite !bool_decide_eq_false_2 by done. cbn [orb]. cbn [app]. rewrite (proj2 (find_field_spec _ f) eq_refl).
  by rewrite Hseen, Hc.
Qed.

Lemma load_line_inv line s s' : load_line cap path line s = inr s' →
  (line_means line None ∧ s' = next_line s) ∨
  ∃ f v c, line_means line (Some (f, v)) ∧ seen s f = false ∧ s' = next_field f c s ∧ parse_field cap path f v (ls_parsed s) (line_number s + 1) = inr c.
Proof using.
  unfold load_line. cbv zeta. destruct (trim_split line) as (w1 & w4 & E & H1 & H4 & Ht). destruct (trim line) as [|c0 t0] eqn:Et.
  { intros [= <-]. left. split; [|done]. apply line_blank. by apply trim_nil. }
  case_bool_decide as Hc0.
  { intros [= <-]. left. split; [|done]. subst c0. rewrite E. by apply line_comment. }
  destruct (split_equal (c0 :: t0)) as [[k v]|] eqn:Es; [|done]. apply split_equal_Some in Es as [Es Hk].
  destruct (trim_split k) as (k1 & k2 & Ek & Hk1 & Hk2 & Hkt). destruct (trim_split v) as (v1 & v2 & Ev & Hv1 & Hv2 & Hvt).
  destruct (_ || _) eqn:Hg; [done|]. rewrite !orb_false_iff, !bool_decide_eq_false in Hg. destruct Hg as [[Hkne Hvne] Hveq].
  destruct (find_field (trim k)) as [f|] eqn:Hf; [|done]. apply find_field_spec in Hf. destruct (seen s f) eqn:Hseen; [done|].
  destruct (parse_field _ _ _ _ _ _) as [e|c] eqn:Hp; [done|]. intros [= <-]. right. exists f, (trim v), c. split; [|done].
  set (v' := trim v) in *. clearbody v'. rewrite E, Es, Ek, Ev, Hf.
  replace (w1 ++ ((k1 ++ field_names f ++ k2) ++ EQUALS :: v1 ++ v' ++ v2) ++ w4)
    with ((w1 ++ k1) ++ field_names f ++ k2 ++ [EQUALS] ++ v1 ++ v' ++ (v2 ++ w4)) by (rewrite <- !app_assoc; cbn [app]; by rewrite <- !app_assoc).
  apply line_entry; try done; by apply Forall_app.
Qed.

(** What the state knows after the assignments [L]. *)
Definition state_means s L : Prop :=
  config_means L (ls_parsed s) ∧ ∀ f, seen s f = bool_decide (f ∈ L.*1).

Lemma state_field s L f v c n : state_means s L → seen s f = false → parse_field cap path f v (ls_parsed s) n = inr c →
  state_means (next_field f c s) (L ++ [(f, v)]).
Proof using H0.
  intros ((Hnd & Hval & Hdef) & Hs) Hseen (Hf & Hother)%parse_field_Some. rewrite Hs in Hseen. apply bool_decide_eq_false_1 in Hseen.
  assert (∀ f c c' v, same_field f c c' → field_is c' f v → field_is c f v) as Hsame by (by intros [] ? ? ? E; cbn in *; rewrite E).
  split; [split; [|split]|].
  - rewrite fmap_app. apply NoDup_app. split; [done|]. split; [|apply NoDup_singleton]. intros f' Hf' ->%list_elem_of_singleton. done.
  - intros f' v' [Hin|[= -> ->]%list_elem_of_singleton]%elem_of_app; [|done]. assert (f' ≠ f) by (intros ->; apply Hseen, list_elem_of_fmap; by exists (f, v')).
    eapply Hsame; [by apply Hother|by apply Hval].
  - intros f'. rewrite fmap_app, not_elem_of_app. cbn. rewrite list_elem_of_singleton. intros [Hnin Hne]. specialize (Hother f' Hne). specialize (Hdef f' Hnin).
    destruct f'; cbn in *; congruence.
  - intros f'. cbn. unfold upd. rewrite fmap_app. destruct (decide (f' = f)) as [->|Hne].
    + symmetry. apply bool_decide_eq_true_2, elem_of_app. right. by left.
    + rewrite Hs. apply bool_decide_ext. rewrite elem_of_app. cbn. rewrite list_elem_of_singleton. tauto.
Qed.

Lemma load_lines_sound lines s L s' : state_means s L → load_lines cap path lines s = inr s' →
  ∃ ms, Forall2 line_means (c_string <$> lines) ms ∧ state_means s' (L ++ omap id ms).
Proof using H0.
  revert s L. induction lines as [|line lines IH]; intros s L Hs; cbn [load_lines].
  - intros [= <-]. exists []. split; [apply Forall2_nil_2|]. by rewrite app_nil_r.
  - destruct (load_line _ _ _ _) as [e|s1] eqn:E; [done|]. intros Hl. apply load_line_inv in E as [[Hm ->]|(f & v & c & Hm & Hseen & -> & Hp)].
    + destruct (IH (next_line s) L) as (ms & Hms & Hs'); [by destruct s|done|]. exists (None :: ms). split; [by apply Forall2_cons|done].
    + destruct (IH (next_field f c s) (L ++ [(f, v)])) as (ms & Hms & Hs'); [by eapply state_field|done|]. exists (Some (f, v) :: ms). split; [by apply Forall2_cons|].
      by rewrite <- app_assoc in Hs'.
Qed.

Lemma load_lines_complete lines s L ms : state_means s L → Forall2 line_means (c_string <$> lines) ms → NoDup (L ++ omap id ms).*1 →
  (∀ f v, (f, v) ∈ omap id ms → value_ok f v) → ∃ s', load_lines cap path lines s = inr s' ∧ state_means s' (L ++ omap id ms).
Proof using H0.
  revert s L ms. induction lines as [|line lines IH]; intros s L ms Hs Hms Hnd Hok; cbn [load_lines fmap list_fmap] in *.
  - apply Forall2_nil_inv_l in Hms as ->. exists s. split; [done|]. by rewrite app_nil_r.
  - apply Forall2_cons_inv_l in Hms as (m & ms' & Hm & Hms & ->). destruct m as [[f v]|].
    + cbn [omap list_omap id] in *. assert (f ∉ L.*1) as Hf.
      { rewrite fmap_app in Hnd. apply NoDup_app in Hnd as (_ & Hd & _). intros Hin. apply (Hd f Hin). by left. }
      destruct (load_line_entry (c_string line) s f v Hm) as (c & Hl & Hp); [destruct Hs as [_ ->]; by apply bool_decide_eq_false_2|apply Hok; by left|].
      rewrite Hl. replace (L ++ (f, v) :: omap id ms') with ((L ++ [(f, v)]) ++ omap id ms') in * by (by rewrite <- app_assoc).
      apply IH; [|done|done|intros f' v' Hin; apply Hok; by right]. eapply state_field; [done| |done]. destruct Hs as [_ ->]. by apply bool_decide_eq_false_2.
    + change (omap id (None :: ms')) with (omap id ms') in *. rewrite (load_line_none _ _ Hm). apply IH; [by destruct s|done|done|done].
Qed.
End loading.

(** * The whole file *)

Lemma validate_spec cap path c sn fl : (validate_config cap path c sn fl = None ↔ config_rules (λ f, sn f = true) c).
Proof.
  unfold validate_config, config_rules. cbv zeta.
  destruct (sn FIELD_ROLE), (sn FIELD_SERVICE_PORT), (sn FIELD_PERSISTENCE_MODE); cbn [negb]; try naive_solver.
  destruct (cfg_role c), (sn FIELD_REPLICATION_PORT), (sn FIELD_RDMA_PORT), (sn FIELD_PRIMARY_HOST), (sn FIELD_PRIMARY_PORT), (cfg_persistence_mode c);
    cbn [negb andb orb]; repeat case_bool_decide; cbn [negb andb orb]; try naive_solver;
    (destruct (Z.eqb_spec (rdma_port c) (service_port c)); naive_solver).
Qed.

Lemma config_rules_ext P Q c : (∀ f, P f ↔ Q f) → config_rules P c → config_rules Q c.
Proof. intros E. unfold config_rules. destruct (cfg_role c); by rewrite !E. Qed.

Section meaning.
Context `{InetLaws}.

Lemma same_field_eq c c' : (∀ f, same_field f c c') → c = c'.
Proof using.
  intros Hs. destruct c, c'. pose proof (Hs FIELD_ROLE). pose proof (Hs FIELD_BIND_IP). pose proof (Hs FIELD_SERVICE_PORT). pose proof (Hs FIELD_RDMA_PORT).
  pose proof (Hs FIELD_LOG_LEVEL). pose proof (Hs FIELD_PERSISTENCE_MODE). pose proof (Hs FIELD_REPLICATION_PORT). pose proof (Hs FIELD_PRIMARY_HOST).
  pose proof (Hs FIELD_PRIMARY_PORT). pose proof (Hs FIELD_ALLOCATOR). cbn in *. congruence.
Qed.

Lemma field_is_inj f v c c' : field_is c f v → field_is c' f v → same_field f c c'.
Proof using.
  destruct f; cbn; try (apply port_is_inj); try naive_solver.
  - intros ->. destruct (cfg_role c), (cfg_role c'); done.
  - intros ->. destruct (log_level c), (log_level c'); done.
  - intros ->. destruct (cfg_persistence_mode c), (cfg_persistence_mode c'); done.
  - intros ->. destruct (cfg_allocator_backend c), (cfg_allocator_backend c'); done.
Qed.

Lemma config_means_inj L c c' : config_means L c → config_means L c' → c = c'.
Proof using.
  intros (_ & Hv & Hd) (_ & Hv' & Hd'). apply same_field_eq. intros f. destruct (decide (f ∈ L.*1)) as [Hin|Hin].
  - apply list_elem_of_fmap in Hin as ([f' v] & -> & Hin). by eapply field_is_inj; [apply Hv|apply Hv'].
  - specialize (Hd f Hin). specialize (Hd' f Hin). destruct f; cbn in *; congruence.
Qed.

Lemma load_start_means : state_means load_start [].
Proof using. split; [split; [apply NoDup_nil_2|split; [by intros ? ? ?%elem_of_nil|by intros []]]|done]. Qed.

Lemma config_load_spec p path text c0 cap c : 0 < cap →
  kvs_config_load (Some (p :: path)) (Stream text None None) (Some c0) (Some cap) = (0, Some c, Some []) ↔ config_text_of text c.
Proof using H0.
  intros Hcap. unfold kvs_config_load. rewrite (proj2 (Z.leb_gt _ _)) by done. cbv zeta. split.
  - destruct (load_lines _ _ _ _) as [e|s] eqn:E; [done|]. destruct (validate_config _ _ _ _ _) eqn:Ev; [done|]. intros [= <-].
    destruct (load_lines_sound _ _ _ _ [] _ load_start_means E) as (ms & Hms & Hm & Hs). exists ms. split; [done|]. split; [done|].
    apply validate_spec in Ev. eapply config_rules_ext; [|exact Ev]. intros f. cbn. rewrite Hs. apply bool_decide_eq_true.
  - intros (ms & Hms & Hm & Hr). pose proof Hm as (Hnd & Hv & _).
    destruct (load_lines_complete cap (p :: path) (file_lines text []) load_start [] ms load_start_means Hms Hnd) as (s & -> & Hms' & Hs).
    { intros f v Hin. exists c. by apply Hv. }
    assert (ls_parsed s = c) as -> by (by eapply config_means_inj). rewrite (proj2 (validate_spec _ _ _ _ _)); [done|].
    eapply config_rules_ext; [|exact Hr]. intros f. cbn. rewrite Hs. symmetry. apply bool_decide_eq_true.
Qed.
End meaning.

(** * Writing a configuration *)

Definition config_assignments (c : kvs_config_t) : list (config_field * bytes) :=
  [(FIELD_ROLE, role_name (cfg_role c)); (FIELD_BIND_IP, bind_ip c); (FIELD_SERVICE_PORT, write_decimal (service_port c));
   (FIELD_LOG_LEVEL, log_level_name (log_level c)); (FIELD_PERSISTENCE_MODE, mode_name (cfg_persistence_mode c));
   (FIELD_ALLOCATOR, backend_name (cfg_allocator_backend c))] ++
  match cfg_role c with
  | KVS_ROLE_STANDALONE => []
  | KVS_ROLE_PRIMARY => [(FIELD_RDMA_PORT, write_decimal (rdma_port c))]
  | KVS_ROLE_REPLICA => [(FIELD_PRIMARY_HOST, primary_host c); (FIELD_PRIMARY_PORT, write_decimal (primary_port c))]
  end.
Definition print_line (a : config_field * bytes) : bytes := field_names a.1 ++ lit " = " ++ a.2.
Definition print_config (c : kvs_config_t) : bytes := mjoin ((λ l, l ++ [LF]) <$> (print_line <$> config_assignments c)).

(** The configurations the program can be started with. *)
Definition config_valid `{Inet} (c : kvs_config_t) : Prop :=
  inet_pton (bind_ip c) = true ∧ 1 ≤ service_port c ≤ 65535 ∧ replication_port c = 0 ∧
  match cfg_role c with
  | KVS_ROLE_STANDALONE =>
      rdma_port c = 0 ∧ primary_host c = [] ∧ primary_port c = 0 ∧ cfg_persistence_mode c ≠ KVS_PERSISTENCE_LEGACY_HYBRID
  | KVS_ROLE_PRIMARY =>
      1 ≤ rdma_port c ≤ 65535 ∧ rdma_port c ≠ service_port c ∧ primary_host c = [] ∧ primary_port c = 0 ∧
      cfg_persistence_mode c = KVS_PERSISTENCE_LEGACY_HYBRID
  | KVS_ROLE_REPLICA =>
      rdma_port c = 0 ∧ inet_pton (primary_host c) = true ∧ primary_host c ≠ lit "0.0.0.0" ∧ 1 ≤ primary_port c ≤ 65535 ∧
      cfg_persistence_mode c = KVS_PERSISTENCE_LEGACY_HYBRID
  end.

(** Characters that end neither a word nor a line. *)
Definition plain (c : byte) : bool := negb (isspace c) && negb (bool_decide (c = NUL)) && negb (bool_decide (c = EQUALS)).

Lemma plain_facts c : plain c = true → isspace c = false ∧ c ≠ NUL ∧ c ≠ EQUALS ∧ c ≠ LF.
Proof.
  unfold plain. rewrite !andb_true_iff, !negb_true_iff, !bool_decide_eq_false. intros [[H1 H2] H3]. split; [done|]. split; [done|]. split; [done|].
  intros ->. done.
Qed.

Lemma digit_plain c : is_digit c = true → plain c = true.
Proof.
  unfold is_digit, plain, isspace. rewrite andb_true_iff, !Z.leb_le. unfold schar. intros Hd. pose proof (uchar_range c). assert (48 ≤ uchar c ≤ 57) as Hu by (revert Hd; case_match; lia).
  rewrite !andb_true_iff, !negb_true_iff, !bool_decide_eq_false, orb_false_iff, andb_false_iff, !Z.leb_gt, Z.eqb_neq.
  split; [split; [lia|]|]; intros ->; vm_compute in Hu; by destruct Hu.
Qed.

Lemma plain_word v : v ≠ [] → Forall (λ c, plain c = true) v → EQUALS ∉ v ∧ LF ∉ v ∧ NUL ∉ v ∧ trimmed v.
Proof.
  intros Hne Hv. assert (∀ c, c ∈ v → isspace c = false ∧ c ≠ NUL ∧ c ≠ EQUALS ∧ c ≠ LF) as Hall.
  { intros c Hc. rewrite Forall_forall in Hv. by apply plain_facts, Hv. }
  split; [intros Hc; by destruct (Hall _ Hc) as (_ & _ & ? & _)|]. split; [intros Hc; by destruct (Hall _ Hc) as (_ & _ & _ & ?)|].
  split; [intros Hc; by destruct (Hall _ Hc) as (_ & ? & _)|]. split.
  - destruct v as [|c v]; [done|]. apply Hall. by left.
  - destruct (reverse v) as [|c t] eqn:E; [done|]. apply Hall. rewrite <- elem_of_reverse, E. by left.
Qed.

Lemma number_plain n v : number_text n v → v ≠ [] ∧ Forall (λ c, plain c = true) v.
Proof. intros (Hne & Hd & _). split; [done|]. eapply Forall_impl; [exact Hd|]. apply digit_plain. Qed.

Lemma inet_plain `{InetLaws} v : inet_pton v = true → v ≠ [] ∧ Forall (λ c, plain c = true) v.
Proof.
  intros (a & b & c & d & -> & Hall)%inet_pton_law. rewrite !Forall_cons in Hall. destruct Hall as ((_ & na & Ha & _) & (_ & nb & Hb & _) & (_ & nc & Hc & _) & (_ & nd & Hd & _) & _).
  apply number_plain in Ha as [Hne Ha], Hb as [_ Hb], Hc as [_ Hc], Hd as [_ Hd]. unfold dotted. split; [by destruct a|].
  rewrite !Forall_app. repeat (split; [done|]; split; [by apply Forall_singleton|]). done.
Qed.

Lemma port_text n : 1 ≤ n ≤ 65535 → port_is n (write_decimal n).
Proof. intros Hn. split; [|done]. apply write_decimal_text. unfold SIZE_MAX. lia. Qed.

(** ** Lines of a printed text *)

Lemma split_lines_line l rest acc : LF ∉ l → file_lines (l ++ LF :: rest) acc = (acc ++ l ++ [LF]) :: file_lines rest [].
Proof.
  revert acc. induction l as [|c l IH]; intros acc Hl; cbn [app file_lines].
  - by rewrite bool_decide_eq_true_2.
  - rewrite not_elem_of_cons in Hl. destruct Hl as [Hc Hl]. rewrite bool_decide_eq_false_2 by congruence. rewrite IH by done. by rewrite <- !app_assoc.
Qed.

Lemma split_lines_print ls : Forall (λ l, LF ∉ l) ls → file_lines (mjoin ((λ l, l ++ [LF]) <$> ls)) [] = (λ l, l ++ [LF]) <$> ls.
Proof.
  induction 1 as [|l ls Hl Hls IH]; [done|]. rewrite fmap_cons. cbn [mjoin list_join]. rewrite <- app_assoc. cbn [app]. rewrite split_lines_line by done. cbn [app]. f_equal. exact IH.
Qed.

Lemma c_string_id s : NUL ∉ s → c_string s = s.
Proof.
  induction s as [|c s IH]; cbn; [done|]. rewrite not_elem_of_cons. intros [Hc Hs]. rewrite bool_decide_eq_false_2 by congruence. by rewrite IH.
Qed.

Lemma field_name_plain f : Forall (λ c, plain c = true) (field_names f).
Proof. destruct f; apply (bool_decide_unpack _); vm_compute; exact I. Qed.

Lemma print_line_means f v : v ≠ [] → Forall (λ c, plain c = true) v →
  LF ∉ print_line (f, v) ∧ line_means (c_string (print_line (f, v) ++ [LF])) (Some (f, v)).
Proof.
  intros Hne Hv. destruct (plain_word v Hne Hv) as (Heq & Hlf & Hnul & Ht). destruct (plain_word _ (proj1 (field_name_ok f)) (field_name_plain f)) as (_ & Hlf' & Hnul' & _).
  unfold print_line. cbn [fst snd].
  assert (LF ∉ lit " = " ∧ NUL ∉ lit " = ") as [Hl1 Hl2] by (split; apply (bool_decide_unpack _); vm_compute; exact I).
  split; [rewrite !not_elem_of_app; tauto|]. rewrite c_string_id.
  - assert (∀ b, b ∈ [byte_of_Z 32; LF] → spaces [b]) as Hsp by (intros b Hb; rewrite !elem_of_cons in Hb; apply Forall_singleton; destruct Hb as [->|[->|Hb]]; [done|done|by apply not_elem_of_nil in Hb]).
    pose proof (line_entry [] [byte_of_Z 32] [byte_of_Z 32] [LF] f v) as Hline. cbn [app] in Hline.
    change (lit " = ") with [byte_of_Z 32; EQUALS; byte_of_Z 32]. rewrite <- !app_assoc. cbn [app]. apply Hline; try done; try (apply Forall_nil_2); apply Hsp; set_solver.
  - rewrite !not_elem_of_app. split; [split; [done|split; done]|]. by apply (bool_decide_unpack _); vm_compute.
Qed.

Section printing.
Context `{InetLaws}.

Lemma load_result_valid text c : config_text_of text c → config_valid c.
Proof using H0.
  intros (ms & _ & (Hnd & Hval & Hdef) & Hr). set (L := omap id ms) in *.
  assert (∀ f, f ∈ L.*1 → ∃ v, field_is c f v) as Hin by (intros f ([f' v] & -> & Hf)%list_elem_of_fmap; exists v; by apply Hval).
  destruct Hr as (_ & Hsp & _ & Hrp & Hrole). unfold config_valid.
  split. { destruct (decide (FIELD_BIND_IP ∈ L.*1)) as [Hb|Hb]; [destruct (Hin _ Hb) as (v & Hv & <-); done|]. specialize (Hdef _ Hb). cbn in Hdef. rewrite Hdef.
    apply (inet_pton_canonical 0 0 0 0). repeat constructor; lia. }
  split; [destruct (Hin _ Hsp) as (v & _ & ?); done|]. split; [apply (Hdef _ Hrp)|].
  destruct (cfg_role c).
  - destruct Hrole as (H1 & H2 & H3 & Hm). split; [apply (Hdef _ H1)|]. split; [apply (Hdef _ H2)|]. split; [apply (Hdef _ H3)|done].
  - destruct Hrole as (H1 & H2 & H3 & H4 & Hm). destruct (Hin _ H1) as (v & _ & ?). split; [done|]. split; [done|]. split; [apply (Hdef _ H3)|]. split; [apply (Hdef _ H4)|done].
  - destruct Hrole as (H1 & H2 & H3 & Hm). split; [apply (Hdef _ H1)|]. destruct (Hin _ H2) as (v & Hv & Hne & <-). destruct (Hin _ H3) as (v' & _ & ?). done.
Qed.

Lemma assignments_plain c : config_valid c → Forall (λ a, a.2 ≠ [] ∧ Forall (λ b, plain b = true) a.2) (config_assignments c).
Proof using H0.
  intros (Hip & Hsp & _ & Hrole). assert (∀ n, 1 ≤ n ≤ 65535 → write_decimal n ≠ [] ∧ Forall (λ b, plain b = true) (write_decimal n)) as Hport.
  { intros n [Hn _]%port_text. by eapply number_plain. }
  unfold config_assignments. rewrite Forall_app. split.
  - rewrite !Forall_cons. split; [destruct (cfg_role c); split; try done; apply (bool_decide_unpack _); vm_compute; exact I|]. split; [by apply inet_plain|].
    split; [by apply Hport|]. split; [destruct (log_level c); split; try done; apply (bool_decide_unpack _); vm_compute; exact I|].
    split; [destruct (cfg_persistence_mode c); split; try done; apply (bool_decide_unpack _); vm_compute; exact I|].
    split; [destruct (cfg_allocator_backend c); split; try done; apply (bool_decide_unpack _); vm_compute; exact I|apply Forall_nil_2].
  - destruct (cfg_role c).
    + apply Forall_nil_2.
    + apply Forall_singleton, Hport. tauto.
    + destruct Hrole as (_ & Hh & _ & Hp & _). rewrite !Forall_cons. split; [by apply inet_plain|]. split; [by apply Hport|apply Forall_nil_2].
Qed.

Lemma assignments_mean c : config_valid c → config_means (config_assignments c) c ∧ config_rules (λ f, f ∈ (config_assignments c).*1) c.
Proof using H0.
  intros (Hip & Hsp & Hrp & Hrole). unfold config_means, config_rules, config_assignments.
  destruct (cfg_role c) eqn:Er; cbn [app fmap list_fmap fst].
  all: split; [split; [apply (bool_decide_unpack _); vm_compute; exact I|split]|].
  all: try (intros f v Hin; repeat (apply elem_of_cons in Hin as [[= -> ->]|Hin]; [cbn; rewrite ?Er; first [done|by apply port_text|apply port_text; tauto|tauto]|]); by apply not_elem_of_nil in Hin).
  all: try (intros f Hnin; destruct f; try (destruct Hnin; apply (bool_decide_unpack _); vm_compute; exact I); cbn; tauto).
  all: repeat match goal with
    | |- (_ ∈ _) ∧ _ => split; [apply (bool_decide_unpack _); vm_compute; exact I|]
    | |- (_ ∉ _) ∧ _ => split; [apply (bool_decide_unpack _); vm_compute; exact I|]
    | |- _ ∧ _ => split; [tauto|]
    end; tauto.
Qed.

Lemma print_config_text c : config_valid c → config_text_of (print_config c) c.
Proof using H0.
  intros Hc. exists (Some <$> config_assignments c). pose proof (assignments_plain c Hc) as Hp.
  assert (omap id (Some <$> config_assignments c) = config_assignments c) as E by (induction (config_assignments c) as [|a l IH]; [done|cbn in *; rewrite IH; [done|by apply Forall_cons in Hp as [_ ?]]]).
  rewrite E. split; [|by apply assignments_mean]. unfold print_config. rewrite split_lines_print.
  - clear E. induction Hp as [|[f v] l [Hne Hv] Hl IH]; [constructor|]. constructor; [by apply print_line_means|done].
  - apply Forall_fmap. eapply Forall_impl; [exact Hp|]. intros [f v] [Hne Hv]. by apply print_line_means.
Qed.
End printing.

(** * A concrete [inet_pton] *)

(** The parts of a string between dots. *)
Fixpoint split_dots (s part : bytes) : list bytes :=
  match s with [] => [part] | c :: s => if bool_decide (c = DOT) then part :: split_dots s [] else split_dots s (part ++ [c]) end.
Definition octet_ok (s : bytes) : bool :=
  negb (bool_decide (s = [])) && (Nat.leb (List.length s) 3) && all_digits s && (dec_value 0 s <=? 255).
Definition dotted_decimal (s : bytes) : bool :=
  match split_dots s [] with [a; b; c; d] => octet_ok a && octet_ok b && octet_ok c && octet_ok d | _ => false end.
#[export] Instance dotted_inet : Inet := {| inet_pton := dotted_decimal |}.

Lemma split_dots_join s part l : split_dots s part = l → ∃ p ps, l = p :: ps ∧ part ++ s = p ++ mjoin ((λ q, DOT :: q) <$> ps).
Proof.
  revert part l. induction s as [|c s IH]; intros part l; cbn [split_dots].
  - intros <-. exists part, []. done.
  - case_bool_decide as Hc.
    + intros <-. destruct (IH [] _ eq_refl) as (p & ps & E & Es). exists part, (split_dots s []). split; [done|]. rewrite E. subst c. cbn. f_equal. f_equal. exact Es.
    + intros <-. destruct (IH (part ++ [c]) _ eq_refl) as (p & ps & E & Es). exists p, ps. split; [done|]. by rewrite <- Es, <- app_assoc.
Qed.

Lemma split_dots_part a s part : DOT ∉ a → split_dots (a ++ DOT :: s) part = (part ++ a) :: split_dots s [].
Proof.
  revert part. induction a as [|c a IH]; intros part Ha; cbn [app split_dots]; [by rewrite bool_decide_eq_true_2, app_nil_r|].
  rewrite not_elem_of_cons in Ha. destruct Ha as [Hc Ha]. rewrite bool_decide_eq_false_2 by congruence. rewrite IH by done. by rewrite <- app_assoc.
Qed.

Lemma split_dots_last a part : DOT ∉ a → split_dots a part = [part ++ a].
Proof.
  revert part. induction a as [|c a IH]; intros part Ha; cbn [split_dots]; [by rewrite app_nil_r|].
  rewrite not_elem_of_cons in Ha. destruct Ha as [Hc Ha]. rewrite bool_decide_eq_false_2 by congruence. rewrite IH by done. by rewrite <- app_assoc.
Qed.

Lemma octet_ok_text s : octet_ok s = true → octet_text s.
Proof.
  unfold octet_ok. rewrite !andb_true_iff, negb_true_iff, bool_decide_eq_false, Nat.leb_le, all_digits_Forall, Z.leb_le. intros (((Hne & Hl) & Hd) & Hn). split; [done|].
  exists (dec_value 0 s). split; [done|]. split; [|done]. by apply dec_value_mono.
Qed.

Lemma octet_canonical n : 0 ≤ n ≤ 255 → octet_ok (write_decimal n) = true ∧ DOT ∉ write_decimal n.
Proof.
  intros Hn. assert (Forall (λ n, octet_ok (write_decimal n) && bool_decide (DOT ∉ write_decimal n) = true) (seqZ 0 256)) as Hall by (apply (bool_decide_unpack _); vm_compute; exact I).
  rewrite Forall_forall in Hall. specialize (Hall n ltac:(apply elem_of_seqZ; lia)). rewrite andb_true_iff, bool_decide_eq_true in Hall. done.
Qed.

#[export] Instance dotted_inet_laws : InetLaws.
Proof.
  split.
  - intros s. cbn. unfold dotted_decimal. destruct (split_dots s []) as [|a [|b [|c [|d [|]]]]] eqn:E; try done. rewrite !andb_true_iff. intros (((Ha & Hb) & Hc) & Hd).
    apply split_dots_join in E as (p & ps & [= -> <-] & Es). cbn in Es. exists p, b, c, d. split; [|repeat (apply Forall_cons; split; [by apply octet_ok_text|]); apply Forall_nil_2].
    rewrite Es. unfold dotted. cbn [app]. by rewrite app_nil_r.
  - intros a b c d Hall. rewrite !Forall_cons in Hall. destruct Hall as (Ha & Hb & Hc & Hd & _). apply octet_canonical in Ha as [Ha Ha'], Hb as [Hb Hb'], Hc as [Hc Hc'], Hd as [Hd Hd'].
    cbn. unfold dotted_decimal, dotted. cbn [app]. rewrite !split_dots_part, split_dots_last by done. cbn [app]. by rewrite Ha, Hb, Hc, Hd.
Qed.

(** * Errors of lines *)

Section errors.
Context `{InetLaws} (cap : Z) (path : bytes).

(** After the assignments [L] the line says nothing or gives a new field a good value. *)
Definition line_fits (L : list (config_field * bytes)) (line : bytes) : Prop :=
  ∃ m, line_means line m ∧ match m with None => True | Some (f, v) => f ∉ L.*1 ∧ value_ok f v end.

Lemma config_error_length where_ n reason : 0 < cap → zlen (config_error cap where_ n reason) < cap.
Proof using. intros Hc. unfold config_error, printed, zlen. rewrite length_take. lia. Qed.

Lemma parse_field_error f v c n e : parse_field cap path f v c n = inl e → ∃ reason, e = config_error cap path n reason.
Proof using.
  destruct f; cbn [parse_field]; cbv zeta.
  all: repeat match goal with |- context [if ?b then _ else _] => destruct b | |- context [match parse_port ?v with _ => _ end] => destruct (parse_port v) end.
  all: try done.
  all: intros [= <-]; by eexists.
Qed.

Lemma load_line_error line s e : load_line cap path line s = inl e → ∃ reason, e = config_error cap path (line_number s + 1) reason.
Proof using.
  unfold load_line. cbv zeta. destruct (trim line) as [|c t]; [done|]. case_bool_decide; [done|]. destruct (split_equal _) as [[k v]|]; [|intros [= <-]; by eexists].
  destruct (_ || _); [intros [= <-]; by eexists|]. destruct (find_field _) as [f|]; [|intros [= <-]; by eexists]. destruct (seen s f); [intros [= <-]; by eexists|].
  destruct (parse_field _ _ _ _ _ _) eqn:E; [|done]. intros [= <-]. by eapply parse_field_error.
Qed.

Lemma load_lines_app l1 l2 s : load_lines cap path (l1 ++ l2) s = match load_lines cap path l1 s with inl e => inl e | inr s => load_lines cap path l2 s end.
Proof using. revert s. induction l1 as [|l l1 IH]; intros s; cbn; [done|]. by destruct (load_line _ _ _ _). Qed.

Lemma load_lines_count lines s s' : load_lines cap path lines s = inr s' → line_number s' = line_number s + zlen lines.
Proof using.
  revert s. induction lines as [|l lines IH]; intros s; cbn [load_lines]; [intros [= <-]; rewrite zlen_nil; lia|].
  destruct (load_line _ _ _ _) as [e|s1] eqn:E; [done|]. intros Hs. rewrite (IH _ Hs), zlen_cons.
  apply load_line_inv in E as [[_ ->]|(f & v & c & _ & _ & -> & _)]; cbn; lia.
Qed.

Lemma load_lines_number lines s : load_lines cap path lines load_start = inr s → line_number s = zlen lines.
Proof using. intros Hs. rewrite (load_lines_count _ _ _ Hs). cbn. lia. Qed.

Lemma line_fits_load L line : line_fits L line → ∃ s, load_line cap path line load_start = inr s.
Proof using H0.
  intros ([[f v]|] & Hm & Hfit); [|exists (next_line load_start); by apply load_line_none].
  destruct (load_line_entry cap path line load_start f v Hm eq_refl) as (c & Hl & _); [apply Hfit|]. by exists (next_field f c load_start).
Qed.
End errors.

(** * Properties *)

(** C25: A file loads, and into which configuration, exactly as the format says: every
    line is blank, a comment or gives a known field one well-formed value, no field
    is given twice, the fields left out have their defaults, and the constraints
    between role, ports, addresses and persistence mode hold; the order of the lines
    does not matter. *)
Theorem config_load_exact `{InetLaws} (path text : bytes) (config c : kvs_config_t) (capacity : Z) (Hpath : path ≠ []) (Hcap : 0 < capacity) :
  kvs_config_load (Some path) (Stream text None None) (Some config) (Some capacity) = (0, Some c, Some []) ↔ config_text_of text c.
Proof. destruct path as [|p path]; [done|]. by apply config_load_spec. Qed.

Definition line (s : string) : bytes := lit s ++ [LF].
Definition primary_conf : bytes :=
  line "# primary" ++ line "role = primary" ++ line "" ++ line "bind_ip= 10.0.0.1 " ++ line "  service_port=29000" ++ line "rdma_port = 29747" ++
  line "log_level = debug" ++ lit "persistence_mode =legacy_hybrid".
Definition primary_config : kvs_config_t :=
  KvsConfig KVS_ROLE_PRIMARY (lit "10.0.0.1") 29000 29747 0 [] 0 KVS_LOG_DEBUG KVS_PERSISTENCE_LEGACY_HYBRID KVS_ALLOCATOR_POOL.

Lemma config_load_witness :
  (lit "primary.conf" ≠ [] ∧ 0 < 256) ∧
  kvs_config_load (Some (lit "primary.conf")) (Stream primary_conf None None) (Some default_config) (Some 256) = (0, Some primary_config, Some []) ∧
  config_text_of primary_conf primary_config.
Proof.
  assert (lit "primary.conf" ≠ []) as Hp by done. assert (0 < 256) as Hc by lia.
  assert (kvs_config_load (Some (lit "primary.conf")) (Stream primary_conf None None) (Some default_config) (Some 256) = (0, Some primary_config, Some [])) as E by (vm_compute; reflexivity).
  split; [done|]. split; [exact E|]. exact (proj1 (config_load_exact _ _ _ _ _ Hp Hc) E).
Defined.

(** C39: Whatever text is loaded, the configuration is one the server can be started
    with; and every such configuration can be written as a file that loads as that
    configuration. *)
Theorem config_roundtrip `{InetLaws} (path : bytes) (config c : kvs_config_t) (capacity : Z) (Hpath : path ≠ []) (Hcap : 0 < capacity) :
  (∀ text, kvs_config_load (Some path) (Stream text None None) (Some config) (Some capacity) = (0, Some c, Some []) → config_valid c) ∧
  (config_valid c → kvs_config_load (Some path) (Stream (print_config c) None None) (Some config) (Some capacity) = (0, Some c, Some [])).
Proof.
  destruct path as [|p path]; [done|]. split.
  - intros text. rewrite config_load_spec by done. apply load_result_valid.
  - intros Hc. rewrite config_load_spec by done. by apply print_config_text.
Qed.

Lemma config_roundtrip_witness :
  (lit "primary.conf" ≠ [] ∧ 0 < 256) ∧ config_valid primary_config ∧
  kvs_config_load (Some (lit "primary.conf")) (Stream (print_config primary_config) None None) (Some default_config) (Some 256) = (0, Some primary_config, Some []).
Proof.
  assert (lit "primary.conf" ≠ []) as Hp by done. assert (0 < 256) as Hc by lia.
  assert (config_valid primary_config) as Hv by (split; [reflexivity|]; cbn; lia || (split_and!; done)).
  split; [done|]. split; [exact Hv|]. exact (proj2 (config_roundtrip _ default_config _ _ Hp Hc) Hv).
Defined.

(** When the lines before it are fine and a line is not - it is no entry, names no
    field, repeats one, or its value is refused - the loader stops there: it returns
    -1, leaves the caller's configuration as it was, and the message, which fits the
    buffer with its terminating NUL, names the file and that line, whatever follows
    and however the file is closed. *)
Theorem config_error_line `{InetLaws} (path text : bytes) (read_error close_error : option bytes) (config : kvs_config_t) (capacity : Z)
    (good rest : list bytes) (bad : bytes) (ms : list (option (config_field * bytes)))
    (Hpath : path ≠ []) (Hcap : 0 < capacity) (Hlines : file_lines text [] = good ++ bad :: rest)
    (Hgood : Forall2 line_means (c_string <$> good) ms) (Hnd : NoDup (omap id ms).*1) (Hvalues : ∀ f v, (f, v) ∈ omap id ms → value_ok f v)
    (Hbad : ¬ line_fits (omap id ms) (c_string bad)) :
  ∃ reason, let message := config_error capacity path (zlen good + 1) reason in
    kvs_config_load (Some path) (Stream text read_error close_error) (Some config) (Some capacity) = (-1, Some config, Some message) ∧
    zlen message < capacity.
Proof.
  destruct (load_lines_complete capacity path good load_start [] ms load_start_means Hgood Hnd Hvalues) as (s & Hs & Hm).
  destruct (load_line capacity path (c_string bad) s) as [e|s'] eqn:E.
  - destruct (load_line_error _ _ _ _ _ E) as [reason ->]. exists reason. rewrite (load_lines_number _ _ _ _ Hs) in *. cbv zeta. split; [|by apply config_error_length].
    unfold kvs_config_load. destruct path as [|p path]; [done|]. rewrite (proj2 (Z.leb_gt _ _)) by done. rewrite Hlines, load_lines_app, Hs. cbn [load_lines]. by rewrite E.
  - exfalso. apply Hbad. apply load_line_inv in E as [[Hl _]|(f & v & c & Hl & Hseen & _ & Hp)]; [by exists None|]. exists (Some (f, v)). split; [done|]. split.
    + destruct Hm as [_ Hsn]. rewrite Hsn in Hseen. by apply bool_decide_eq_false_1 in Hseen.
    + exists c. by apply parse_field_Some in Hp as [? _].
Qed.

Definition bad_conf : bytes := line "role = primary" ++ line "# ports" ++ line "service_port = 0" ++ line "rdma_port = 1".

Lemma config_error_line_witness :
  (lit "x.conf" ≠ [] ∧ 0 < 256 ∧ ¬ line_fits [(FIELD_ROLE, lit "primary")] (line "service_port = 0")) ∧
  ∃ reason, let message := config_error 256 (lit "x.conf") 3 reason in
    kvs_config_load (Some (lit "x.conf")) (Stream bad_conf None None) (Some default_config) (Some 256) = (-1, Some default_config, Some message) ∧
    zlen message < 256.
Proof.
  assert (lit "x.conf" ≠ []) as Hp by done. assert (0 < 256) as Hc by lia.
  assert (¬ line_fits [(FIELD_ROLE, lit "primary")] (line "service_port = 0")) as Hbad.
  { intros [s Hs]%(line_fits_load 256 (lit "x.conf")). revert Hs. vm_compute. discriminate. }
  split; [done|].
  refine (config_error_line (lit "x.conf") bad_conf None None default_config 256 [line "role = primary"; line "# ports"] [line "rdma_port = 1"]
    (line "service_port = 0") [Some (FIELD_ROLE, lit "primary"); None] Hp Hc _ _ _ _ Hbad).
  - vm_compute. reflexivity.
  - apply Forall2_cons_2; [|apply Forall2_cons_2; [|apply Forall2_nil_2]].
    + refine (line_entry [] [byte_of_Z 32] [byte_of_Z 32] [LF] FIELD_ROLE (lit "primary") _ _ _ _ _ _ _); try (apply (bool_decide_unpack _); vm_compute; exact I); done.
    + exact (line_comment [] (lit " ports" ++ [LF]) (Forall_nil_2 _)).
  - apply (bool_decide_unpack _). vm_compute. exact I.
  - intros f v [[= -> ->]|Hn]%elem_of_cons; [by exists primary_config|by apply not_elem_of_nil in Hn].
Defined.
