(* ===== verification/Network.v ===== *)
(** The connections of the network layer, src/network/ntyco.c: receiving with a deadline
    until the kind of a connection is known, the read coroutine of a connection, and
    sending.

    NtyCo, the sockets and the clock are an interface [Net].  A call that may put the
    coroutine to sleep runs the other coroutines meanwhile, which may change the state of
    the program; [NetLaws] has the relation between the states before and after as a
    parameter.  [server_reader] does not end while the peer keeps the connection open, so
    it is modelled by its turns: one turn of its loops around [nty_recv], around the
    handler and around the stream handler each. *)

From Stdlib Require Import ZArith Lia.
From S2P Require Import Prelude Runtime Codec Buffer.

Definition NTYCO_STREAM_RETRY_INTERVAL_MS : Z := 50.
Definition NTYCO_REPLY_BATCH_THRESHOLD : Z := 64 * 1024.
Definition NTYCO_IDENTIFICATION_TIMEOUT_MS : Z := 5000.
Definition NTYCO_IDENTIFICATION_RETRY_MS : Z := 10.

(** The result of a receiving call: bytes, 0, or -1 with [errno] being [EINTR], [EAGAIN]
    or [EWOULDBLOCK], or another error. *)
Inductive recv_result := Received (b : bytes) | PeerClosed | RecvInterrupted | WouldBlock | RecvFailed.

(** A network [N] and the state [V] of the program. *)
Class Net (N V : Type) := {
  (** what was received from and sent to a connection so far *)
  net_in : N → Z → bytes;
  net_out : N → Z → bytes;
  net_clock : N → Z;
  net_interruptions : N → nat;
  nty_recv : Z → Z → M (N * V) recv_result;
  (** [MSG_DONTWAIT], and [MSG_PEEK | MSG_DONTWAIT] for one byte *)
  sys_recv_nowait : Z → Z → M (N * V) recv_result;
  sys_peek : Z → M (N * V) recv_result;
  (** the bytes sent, and whether [errno == EINTR] *)
  nty_send : Z → bytes → M (N * V) (Z * bool);
  nty_close : Z → M (N * V) unit;
  clock_monotonic_ms : M (N * V) (option Z);
  (** [nty_schedule_sched_sleepdown] and [nty_coroutine_yield] *)
  nty_sleep : Z → M (N * V) unit;
}.

(** The part of the program's state that is the allocator. *)
Class HasHeap (V RT : Type) := { heap_of : V → RT; set_heap : RT → V → V }.

(** * Definitions *)

(** The bytes of initialised cells. *)
Definition cell_bytes (s : cells) : option bytes := mapM id s.

Section ops.
Context {N V RT : Type} `{!Net N V} `{!CRuntime RT} `{!HasHeap V RT}.
Notation W := (N * V)%type.

Definition on_state {X} (m : M V X) : M W X := zoom snd (λ v w, (w.1, v)) m.
Definition on_net_heap {X} (m : M RT X) : M W X := on_state (zoom heap_of set_heap m).
Definition net_interruptions_left : M W nat := gets (λ w, net_interruptions w.1).

(** The connection, the bytes received and the output buffer; the result, the buffer
    and [*consumed_length]. *)
Definition msg_handler : Type := Z → bytes → kvs_output_buffer_t → M V (Z * kvs_output_buffer_t * Z).
(** The connection and the room; the result and the bytes written. *)
Definition kvs_connection_stream_handler : Type := Z → Z → M V (Z * bytes).
Definition kvs_connection_close_handler : Type := Z → M V unit.

(** [cx_heap_owned]: the block of the context when the reader has to release it. *)
Record ntyco_connection_context_t := ConnectionContext {
  cx_fd : Z;
  cx_handler : msg_handler;
  cx_stream_handler : option kvs_connection_stream_handler;
  cx_close_handler : option kvs_connection_close_handler;
  cx_heap_owned : option addr;
  cx_replication_handler : option msg_handler;
  cx_replication_stream_handler : option kvs_connection_stream_handler;
  cx_identification_deadline_ms : Z;
  cx_replication_close_handler : option kvs_connection_close_handler;
}.

(** The loop of [ntyco_recv_before_deadline]: a turn is interrupted or sleeps for at least
    a millisecond.  [None] is a result of -1. *)
Fixpoint recv_before_deadline_loop (fuel : nat) (fd capacity deadline_ms : Z) : M W recv_result :=
  now ← clock_monotonic_ms;
  match now with
  | None => mret RecvFailed
  | Some now =>
      let remaining := deadline_ms - now in
      if remaining <=? 0 then mret RecvFailed else
      received ← sys_recv_nowait fd capacity;
      match received with
      | Received _ | PeerClosed => mret received
      | RecvInterrupted => match fuel with O => undefined | S fuel => recv_before_deadline_loop fuel fd capacity deadline_ms end
      | RecvFailed => mret RecvFailed
      | WouldBlock =>
          let delay := if remaining <? NTYCO_IDENTIFICATION_RETRY_MS then remaining else NTYCO_IDENTIFICATION_RETRY_MS in
          nty_sleep delay;;
          match fuel with O => undefined | S fuel => recv_before_deadline_loop fuel fd capacity deadline_ms end
      end
  end.

Definition ntyco_recv_before_deadline (fd capacity deadline_ms : Z) : M W recv_result :=
  k ← net_interruptions_left;
  clock ← gets (λ w, net_clock w.1);
  recv_before_deadline_loop (k + Z.to_nat (deadline_ms - clock)) fd capacity deadline_ms.

(** The loop of [ntyco_send_all] with the data from [offset] on: a turn sends a byte or
    is interrupted. *)
Fixpoint send_loop (fuel : nat) (fd : Z) (data : bytes) : M W Z :=
  match data with
  | [] => mret 0
  | _ =>
      '(ret, eintr) ← nty_send fd data;
      if 0 <? ret then match fuel with O => undefined | S fuel => send_loop fuel fd (drop (Z.to_nat ret) data) end else
      if (ret <? 0) && (eintr : bool) then match fuel with O => undefined | S fuel => send_loop fuel fd data end else
      mret (-1)
  end.
Definition ntyco_send_all (fd : Z) (data : bytes) : M W Z :=
  if fd <? 0 then mret (-1) else
  k ← net_interruptions_left;
  send_loop (List.length data + k) fd data.

Definition ntyco_flush_output (fd : Z) (output : kvs_output_buffer_t) : M W (Z * kvs_output_buffer_t) :=
  if o_length output =? 0 then mret (0, output) else
  '(_, block) ← deref (o_data output);
  data ← deref (cell_bytes (take (Z.to_nat (o_length output)) block));
  r ← ntyco_send_all fd data;
  if r <? 0 then mret (-1, output) else
  mret (0, OutputBuffer (o_data output) 0 0 (o_capacity output)).

(** ** The read coroutine *)

(** Where the reader is: before [nty_recv], at the start of the body of the loop over the
    commands received, in the loop over the stream, or behind [connection_closed]. *)
Inductive reader_phase := Receiving | Serving | Streaming | Closed.

(** The local variables of [server_reader]. *)
Record reader := Reader {
  rd_handler : msg_handler;
  rd_stream : option kvs_connection_stream_handler;
  rd_close : option kvs_connection_close_handler;
  rd_replication : option msg_handler;
  rd_replication_stream : option kvs_connection_stream_handler;
  rd_replication_close : option kvs_connection_close_handler;
  rd_selected : bool;
  rd_deadline : Z;
  rd_input : kvs_input_buffer_t;
  rd_output : kvs_output_buffer_t;
  rd_consumed : Z;
  rd_phase : reader_phase;
}.

Definition set_buffers (input : kvs_input_buffer_t) (output : kvs_output_buffer_t) (consumed : Z) (r : reader) : reader :=
  Reader (rd_handler r) (rd_stream r) (rd_close r) (rd_replication r) (rd_replication_stream r) (rd_replication_close r)
    (rd_selected r) (rd_deadline r) input output consumed (rd_phase r).
Definition set_output (output : kvs_output_buffer_t) (r : reader) : reader := set_buffers (rd_input r) output (rd_consumed r) r.
Definition set_phase (phase : reader_phase) (r : reader) : reader :=
  Reader (rd_handler r) (rd_stream r) (rd_close r) (rd_replication r) (rd_replication_stream r) (rd_replication_close r)
    (rd_selected r) (rd_deadline r) (rd_input r) (rd_output r) (rd_consumed r) phase.
(** The connection is a client, or a replica. *)
Definition set_selected (r : reader) : reader :=
  Reader (rd_handler r) (rd_stream r) (rd_close r) (rd_replication r) (rd_replication_stream r) (rd_replication_close r)
    true (rd_deadline r) (rd_input r) (rd_output r) (rd_consumed r) (rd_phase r).
Definition set_replica (handler : msg_handler) (r : reader) : reader :=
  Reader handler (rd_replication_stream r) (rd_replication_close r) (rd_replication r) (rd_replication_stream r) (rd_replication_close r)
    true (rd_deadline r) (rd_input r) (rd_output r) (rd_consumed r) (rd_phase r).

(** The head of [server_reader]. *)
Definition reader_start (context : ntyco_connection_context_t) : M W reader :=
  (if cx_heap_owned context then on_net_heap (kvs_free (cx_heap_owned context)) else mret tt);;
  mret (Reader (cx_handler context) (cx_stream_handler context) (cx_close_handler context) (cx_replication_handler context)
    (cx_replication_stream_handler context) (cx_replication_close_handler context)
    (if cx_replication_handler context then false else true) (cx_identification_deadline_ms context)
    (InputBuffer None 0 0) (OutputBuffer None 0 0 0) 0 Receiving).

(** From [connection_closed] on. *)
Definition connection_closed (fd : Z) (r : reader) : M W reader :=
  nty_close fd;;
  input ← on_net_heap (kvs_input_buffer_free (rd_input r));
  output ← on_net_heap (kvs_output_buffer_free (rd_output r));
  (match rd_close r with Some close_handler => on_state (close_handler fd) | None => mret tt end);;
  mret (set_phase Closed (set_buffers input output (rd_consumed r) r)).

(** Behind the loop over the commands. *)
Definition reader_flush (fd : Z) (r : reader) : M W reader :=
  '(ret, output) ← ntyco_flush_output fd (rd_output r);
  if ret <? 0 then connection_closed fd r else mret (set_phase Receiving (set_output output r)).

(** [while (input.length > 0 && consumed_length > 0)] *)
Definition serve_again (fd : Z) (r : reader) : M W reader :=
  if (0 <? i_length (rd_input r)) && (0 <? rd_consumed r) then mret (set_phase Serving r) else reader_flush fd r.

(** One turn of the outer loop, up to the loop over the commands. *)
Definition receive_turn (fd : Z) (r : reader) : M W reader :=
  '(ret, input) ← on_net_heap (kvs_input_buffer_ensure_space (rd_input r) 1);
  let r := set_buffers input (rd_output r) 0 r in
  if ret <? 0 then connection_closed fd r else
  let available := i_capacity input - i_length input in
  received ← (if negb (rd_selected r) then ntyco_recv_before_deadline fd available (rd_deadline r) else nty_recv fd available);
  match received with
  | Received b =>
      '(p, block) ← deref (i_data input);
      mret (set_phase Serving (set_buffers (InputBuffer (Some (p, store (i_length input) (Some <$> b) block)) (i_length input + zlen b) (i_capacity input))
        (rd_output r) 0 r))
  | RecvInterrupted => mret r
  | _ => connection_closed fd r
  end.

(** The start of the body of the loop over the commands: the kind of the connection.
    [None] leaves the loop, and [Some None] the function. *)
Definition select_protocol (r : reader) (input : bytes) : option (option reader) :=
  if rd_selected r then Some (Some r) else
  match kvs_identify_connection (Some input) (zlen input) with
  | KVS_CONNECTION_NEED_MORE => None
  | KVS_CONNECTION_INVALID => Some None
  | KVS_CONNECTION_REPLICA => match rd_replication r with Some handler => Some (Some (set_replica handler r)) | None => Some (Some (set_selected r)) end
  | KVS_CONNECTION_CLIENT => Some (Some (set_selected r))
  end.

(** One turn of the loop over the commands, up to the loop over the stream. *)
Definition serve_turn (fd : Z) (r : reader) : M W reader :=
  let output := rd_output r in
  let r := set_buffers (rd_input r) (OutputBuffer (o_data output) (o_length output) 0 (o_capacity output)) 0 r in
  '(_, block) ← deref (i_data (rd_input r));
  input ← deref (cell_bytes (take (Z.to_nat (i_length (rd_input r))) block));
  match select_protocol r input with
  | None => reader_flush fd r
  | Some None => connection_closed fd r
  | Some (Some r) =>
      '(ret, output) ← on_net_heap (kvs_output_buffer_ensure_space (rd_output r) BUFFER_LENGTH);
      let r := set_output output r in
      if ret <? 0 then connection_closed fd r else
      '(response_length, output, consumed_length) ← on_state (rd_handler r fd input output);
      let r := set_buffers (rd_input r) output consumed_length r in
      if (response_length <? 0) || (o_capacity output - o_length output <? response_length) then connection_closed fd r else
      let output := OutputBuffer (o_data output) (o_length output + response_length) (o_offset output) (o_capacity output) in
      let '(ret, input) := kvs_input_buffer_consume (rd_input r) consumed_length in
      let r := set_buffers input output consumed_length r in
      if ret <? 0 then connection_closed fd r else
      match rd_stream r, rd_close r with
      | None, None =>
          if (o_length output =? 0) || (o_length output <? NTYCO_REPLY_BATCH_THRESHOLD) then serve_again fd r else
          '(ret, output) ← ntyco_flush_output fd output;
          if ret <? 0 then connection_closed fd r else serve_again fd (set_output output r)
      | None, Some _ =>
          if o_length output =? 0 then serve_again fd r else
          '(ret, output) ← ntyco_flush_output fd output;
          if ret <? 0 then connection_closed fd r else serve_again fd (set_output output r)
      | Some _, _ =>
          '(ret, output) ← ntyco_flush_output fd output;
          if ret <? 0 then connection_closed fd r else mret (set_phase Streaming (set_output output r))
      end
  end.

(** One turn of the loop over the stream; the bytes are written to the output buffer. *)
Definition stream_turn (fd : Z) (r : reader) : M W reader :=
  match rd_stream r with
  | None => serve_again fd r
  | Some stream_handler =>
      '(stream_length, written) ← on_state (stream_handler fd BUFFER_LENGTH);
      '(p, block) ← deref (o_data (rd_output r));
      let output := OutputBuffer (Some (p, store 0 (Some <$> written) block)) (o_length (rd_output r)) (o_offset (rd_output r)) (o_capacity (rd_output r)) in
      let r := set_output output r in
      if stream_length =? KVS_STREAM_WAIT then
        pending ← sys_peek fd;
        match pending with
        | PeerClosed | RecvFailed => connection_closed fd r
        | _ => nty_sleep NTYCO_STREAM_RETRY_INTERVAL_MS;; mret r
        end
      else
      if stream_length <? 0 then connection_closed fd r else
      if stream_length =? 0 then serve_again fd r else
      data ← deref (cell_bytes (take (Z.to_nat stream_length) (store 0 (Some <$> written) block)));
      ret ← ntyco_send_all fd data;
      if ret <? 0 then connection_closed fd r else mret r
  end.

Definition reader_turn (fd : Z) (r : reader) : M W reader :=
  match rd_phase r with
  | Receiving => receive_turn fd r
  | Serving => serve_turn fd r
  | Streaming => stream_turn fd r
  | Closed => mret r
  end.

(** [turns] turns of [server_reader]. *)
Fixpoint reader_turns (turns : nat) (fd : Z) (r : reader) : M W reader :=
  match turns with
  | O => mret r
  | S turns => r ← reader_turn fd r; reader_turns turns fd r
  end.
Definition server_reader (turns : nat) (context : ntyco_connection_context_t) : M W reader :=
  r ← reader_start context;
  reader_turns turns (cx_fd context) r.
End ops.

(** * The laws of the interface *)

Section laws_of.
Context {N V : Type} `{!Net N V}.
Implicit Types n : N.

(** Time passes, and interruptions come to an end. *)
Definition net_later n n' : Prop := net_clock n ≤ net_clock n' ∧ (net_interruptions n' ≤ net_interruptions n)%nat.

(** What a call has received. *)
Definition net_received (sends : Z → bytes → Prop) fd capacity n (r : recv_result) n' : Prop :=
  net_later n n' ∧ net_out n' fd = net_out n fd ∧
  match r with
  | Received b => b ≠ [] ∧ zlen b ≤ capacity ∧ net_in n' fd = net_in n fd ++ b ∧ sends fd (net_in n' fd)
  | RecvInterrupted => net_in n' fd = net_in n fd ∧ (net_interruptions n' < net_interruptions n)%nat
  | _ => net_in n' fd = net_in n fd
  end.
Definition net_idle fd n n' : Prop := net_later n n' ∧ net_out n' fd = net_out n fd ∧ net_in n' fd = net_in n fd.
End laws_of.

(** [others]: what other coroutines do to the state of the program while one sleeps;
    [sends]: what the peer of a connection may have sent. *)
Class NetLaws (N V : Type) `{Net N V} (others : V → V → Prop) (sends : Z → bytes → Prop) : Prop := {
  recv_law fd capacity n v : 0 < capacity → wpx (nty_recv fd capacity) (n, v) (λ r '(n', v'), others v v' ∧ net_received sends fd capacity n r n') (λ _, True);
  recv_nowait_law fd capacity n v : 0 < capacity → wp (sys_recv_nowait fd capacity) (n, v) (λ r '(n', v'), v' = v ∧ net_received sends fd capacity n r n');
  peek_law fd n v : wp (sys_peek fd) (n, v) (λ _ '(n', v'), v' = v ∧ net_idle fd n n');
  send_law fd data n v : data ≠ [] → wpx (nty_send fd data) (n, v) (λ '(r, eintr) '(n', v'), others v v' ∧ net_later n n' ∧ net_in n' fd = net_in n fd ∧
    if 0 <? r then r ≤ zlen data ∧ net_out n' fd = net_out n fd ++ take (Z.to_nat r) data
    else net_out n' fd = net_out n fd ∧ (eintr = true → (net_interruptions n' < net_interruptions n)%nat)) (λ _, True);
  net_close_law fd n v : wp (nty_close fd) (n, v) (λ _ '(n', v'), v' = v ∧ net_idle fd n n');
  clock_law fd n v : wp clock_monotonic_ms (n, v) (λ t '(n', v'), v' = v ∧ net_idle fd n n' ∧ match t with Some t => net_clock n' = t | None => True end);
  sleep_law fd ms n v : wpx (nty_sleep ms) (n, v) (λ _ '(n', v'), others v v' ∧ net_idle fd n n' ∧ net_clock n + ms ≤ net_clock n') (λ _, True);
}.

(** * A server of messages *)

(** What a connection relies on.  [held own v]: the state [v] is good, and the blocks [own]
    belong to the connection.  [answered v t reply v']: the message [t] was handled in the
    state [v] with [reply].  [waiting msg]: no handler can do anything with [msg] yet. *)
Class MessageServer (V RT : Type) `{!CRuntime RT} `{!HasHeap V RT} (others : V → V → Prop) (sends : Z → bytes → Prop)
    (handler : Z → bytes → kvs_output_buffer_t → M V (Z * kvs_output_buffer_t * Z))
    (held : list addr → V → Prop) (answered : V → bytes → bytes → V → Prop) (waiting : bytes → Prop) : Prop := {
  heap_same v : set_heap (heap_of v) v = v;
  held_heap own v : held own v → ∃ F, owns own F (heap_of v) ∧ ∀ own' h, owns own' F h → held own' (set_heap h v);
  held_others own v v' : held own v → others v v' → held own v';
  waiting_nil : waiting [];
  handle_message fd s msg b own v : sends fd s → msg `suffix_of` s → msg ≠ [] → zlen msg ≤ INT_MAX → reply_buffer b → held (owned (o_data b) ++ own) v →
    wpx (handler fd msg b) v (λ '(r, b', n) v', 0 ≤ n ≤ zlen msg ∧ held (owned (o_data b') ++ own) v' ∧
      (r < 0 ∨ ∃ reply, r = zlen reply ∧ replied b reply b' ∧
         (n = 0 ∧ reply = [] ∧ v' = v ∧ waiting msg ∨ 0 < n ∧ answered v (take (Z.to_nat n) msg) reply v'))) (λ _, True);
}.

(** * The buffers of a connection *)

(** The bytes of an input or output buffer. *)
Definition input_holds (b : kvs_input_buffer_t) (msg : bytes) : Prop :=
  buffer_ok (i_data b) (i_length b) (i_capacity b) ∧ zlen msg = i_length b ∧ take (Z.to_nat (i_length b)) (contents (i_data b)) = Some <$> msg.
Definition output_holds (b : kvs_output_buffer_t) (s : bytes) : Prop :=
  buffer_ok (o_data b) (o_length b) (o_capacity b) ∧ o_offset b = 0 ∧ zlen s = o_length b ∧ take (Z.to_nat (o_length b)) (contents (o_data b)) = Some <$> s.

Lemma cell_bytes_some s : cell_bytes (Some <$> s) = Some s.
Proof. unfold cell_bytes. induction s as [|c s IH]; [done|]. cbn. by rewrite IH. Qed.

Lemma input_empty : input_holds (InputBuffer None 0 0) [].
Proof. split; [|done]. unfold buffer_ok, INT_MAX. cbn. lia. Qed.
Lemma output_empty : output_holds (OutputBuffer None 0 0 0) [].
Proof. split; [|done]. unfold buffer_ok, INT_MAX. cbn. lia. Qed.

(** Received bytes behind the content. *)
Lemma input_receives b msg d : input_holds b msg → 0 < i_capacity b → zlen d ≤ i_capacity b - i_length b →
  ∃ p block, i_data b = Some (p, block) ∧
    input_holds (InputBuffer (Some (p, store (i_length b) (Some <$> d) block)) (i_length b + zlen d) (i_capacity b)) (msg ++ d).
Proof.
  intros ((Hl & Hc & Hd) & Hlen & Ht) Hcap Hfit. destruct (i_data b) as [[p block]|]; [|lia]. destruct Hd as [_ Hblock]. exists p, block.
  split; [done|]. pose proof (zlen_nonneg d). cbn in Ht. split_and!; cbn [i_data i_length i_capacity].
  - split; [lia|]. split; [done|]. split; [lia|]. rewrite zlen_store; [done|lia|rewrite zlen_fmap; lia].
  - rewrite zlen_app. lia.
  - cbn [contents]. unfold store. rewrite app_assoc, take_app_length'; [by rewrite Ht, fmap_app|].
    rewrite length_app, length_fmap, length_take. unfold zlen in *. lia.
Qed.

Lemma input_consumes b msg n : input_holds b msg → 0 ≤ n ≤ zlen msg →
  ∃ b', kvs_input_buffer_consume b n = (0, b') ∧ input_holds b' (drop (Z.to_nat n) msg) ∧ owned (i_data b') = owned (i_data b).
Proof.
  intros (Hok & Hlen & Ht) Hn. pose proof (input_consume_spec b n Hok) as Hspec.
  rewrite (proj2 (Z.ltb_ge n 0)), (proj2 (Z.ltb_ge (i_length b) n)) in Hspec by lia. destruct Hspec as (b' & E & El & _ & Eo & Hok' & Ht').
  exists b'. split; [done|]. split; [|done]. split; [done|]. split; [unfold zlen in *; rewrite length_drop; lia|]. rewrite Ht', Ht, fmap_drop. done.
Qed.

(** A reply behind the content. *)
Lemma output_replies b s reply b' : output_holds b s → replied b reply b' →
  output_holds (OutputBuffer (o_data b') (o_length b' + zlen reply) (o_offset b') (o_capacity b')) (s ++ reply).
Proof.
  intros (Hok & Ho & Hlen & Ht) (((Hl & Hc & Hd) & _ & _) & El & Eo & Hfit & Ht'). pose proof (zlen_nonneg reply). pose proof (zlen_nonneg s).
  split_and!; cbn [o_data o_length o_offset o_capacity].
  - split; [lia|]. done.
  - lia.
  - rewrite zlen_app. lia.
  - rewrite El, Ht', Ht, fmap_app. done.
Qed.

Lemma output_reply_buffer b s : output_holds b s → 0 < o_capacity b → reply_buffer b.
Proof.
  intros ((Hl & Hc & Hd) & Ho & _) Hcap. split; [done|]. split; [lia|]. destruct (o_data b); [done|lia].
Qed.

(** * What a call leaves *)

Section specs.
Context {N V RT : Type} `{!Net N V} `{!CRuntime RT} `{!CRuntimeLaws RT} `{!HasHeap V RT} (others : V → V → Prop) (sends : Z → bytes → Prop)
  `{!NetLaws N V others sends}
  (handler : Z → bytes → kvs_output_buffer_t → M V (Z * kvs_output_buffer_t * Z))
  (held : list addr → V → Prop) (answered : V → bytes → bytes → V → Prop) (waiting : bytes → Prop)
  `{!MessageServer V RT others sends handler held answered waiting}.
Notation W := (N * V)%type.
Notation reader := (reader (V := V)).
Implicit Types (n : N) (v : V) (w : W) (own : list addr) (fd : Z) (r : reader).

(** What happens to the program between two messages of a connection: the others run, or
    the buffers of the connection are allocated and released. *)
Definition between v v' : Prop := others v v' ∨ ∃ h, v' = set_heap h v.

(** The messages a connection had answered, with their replies. *)
Inductive served_run : V → list (bytes * bytes) → V → Prop :=
| served_none v : served_run v [] v
| served_between v es v1 v2 : served_run v es v1 → between v1 v2 → served_run v es v2
| served_message v es v1 t reply v2 : served_run v es v1 → answered v1 t reply v2 → served_run v (es ++ [(t, reply)]) v2.

Lemma net_later_refl n : net_later n n.
Proof. split; lia. Qed.
Lemma net_later_trans n1 n2 n3 : net_later n1 n2 → net_later n2 n3 → net_later n1 n3.
Proof. unfold net_later. lia. Qed.

Lemma step_state {X Y} (m : M V X) (k : X → M W Y) w (P : X → V → Prop) (Q : Y → W → Prop) :
  wpx m w.2 P (λ _, True) → (∀ x v, P x v → wpx (k x) (w.1, v) Q (λ _, True)) → wpx (on_state m ≫= k) w Q (λ _, True).
Proof. destruct w as [n v]. unfold wpx, on_state, zoom, mbind, M_bind. cbn. intros Hm Hk. destruct (m v); [by apply Hk|done..]. Qed.

Lemma step_net_heap {X Y} (m : M RT X) (k : X → M W Y) w (P : X → RT → Prop) (Q : Y → W → Prop) :
  wp m (heap_of w.2) P → (∀ x h, P x h → wpx (k x) (w.1, set_heap h w.2) Q (λ _, True)) → wpx (on_net_heap m ≫= k) w Q (λ _, True).
Proof.
  destruct w as [n v]. unfold wp, wpx, on_net_heap, on_state, zoom, mbind, M_bind. cbn. intros Hm Hk. destruct (m (heap_of v)); [by apply Hk|done..].
Qed.

Lemma rtc_held own v v' : held own v → rtc others v v' → held own v'.
Proof. intros Hh Hs. induction Hs as [v|v v1 v2 H1 _ IH]; [done|]. apply IH. by eapply held_others. Qed.

Lemma rtc_served v0 es v v' : served_run v0 es v → rtc others v v' → served_run v0 es v'.
Proof. intros Hr Hs. induction Hs as [v|v v1 v2 H1 _ IH]; [done|]. apply IH. eapply served_between; [done|by left]. Qed.

(** ** Receiving *)

Lemma received_later fd capacity n n1 x n' : net_idle fd n n1 → net_received sends fd capacity n1 x n' → net_received sends fd capacity n x n'.
Proof.
  intros (Hl & Eo & Ei) (Hl' & Eo' & Hx). split; [by eapply net_later_trans|]. split; [congruence|]. rewrite Ei in Hx. destruct x; try done.
  destruct Hx as [? ?]. split; [done|]. destruct Hl. lia.
Qed.

Lemma recv_loop_spec fuel fd capacity deadline n v : 0 < capacity →
  (net_interruptions n + Z.to_nat (deadline - net_clock n) ≤ fuel)%nat →
  wpx (recv_before_deadline_loop fuel fd capacity deadline) (n, v) (λ x '(n', v'), rtc others v v' ∧ net_received sends fd capacity n x n') (λ _, True).
Proof.
  intros Hcap. revert n v. induction fuel as [|fuel IH]; intros n v Hfuel; cbn [recv_before_deadline_loop].
  all: eapply wpx_step; [apply (clock_law fd)|]; intros [t|] [n1 v1] (-> & Hidle1 & Ht).
  2, 4: apply wpx_ret; split; [done|]; destruct Hidle1 as (? & ? & ?); by split_and!.
  all: cbv zeta; destruct (Z.leb_spec (deadline - t) 0).
  1, 3: apply wpx_ret; split; [done|]; destruct Hidle1 as (? & ? & ?); by split_and!.
  all: pose proof Hidle1 as ([Hc1 Hi1] & _ & _).
  all: eapply wpx_step; [apply (recv_nowait_law fd capacity n1 v Hcap)|]; intros x [n2 v2] (-> & Hx); pose proof (received_later _ _ _ _ _ _ Hidle1 Hx) as Hx'.
  all: destruct x as [b| | | |]; try (apply wpx_ret; split; [done|exact Hx']).
  - destruct Hx as ([Hc2 _] & _ & _ & Hlt). lia.
  - destruct Hx as ([Hc2 Hi2] & _ & _). lia.
  - destruct Hx as ([Hc2 Hi2] & Eo & Ei & Hlt). eapply wpx_mono; [apply (IH n2 v); lia| |done]. intros x [n3 v3] (Hs & Hx3). split; [done|].
    eapply received_later; [|exact Hx3]. destruct Hx' as (Hl & Eo' & Ei' & _). by split_and!.
  - destruct Hx' as (Hl & Eo & Ei). destruct Hx as ([Hc2 Hi2] & _ & _).
    eapply wpx_stepx; [apply (sleep_law fd)|]. intros _ [n3 v3] (Hs & (Hl3 & Eo3 & Ei3) & Hc3). pose proof Hl3 as [_ Hi3].
    assert (1 ≤ (if deadline - t <? NTYCO_IDENTIFICATION_RETRY_MS then deadline - t else NTYCO_IDENTIFICATION_RETRY_MS)) as Hd.
    { destruct (deadline - t <? NTYCO_IDENTIFICATION_RETRY_MS); [lia|done]. }
    eapply wpx_mono; [apply (IH n3 v3)| |done].
    + destruct (Z.ltb_spec (deadline - t) NTYCO_IDENTIFICATION_RETRY_MS); lia.
    + intros x [n4 v4] (Hs4 & Hx4). split; [by eapply rtc_l|]. eapply received_later; [|exact Hx4].
      split; [by eapply net_later_trans|]. split; congruence.
Qed.

Lemma recv_before_deadline_spec fd capacity deadline n v : 0 < capacity →
  wpx (ntyco_recv_before_deadline fd capacity deadline) (n, v) (λ x '(n', v'), rtc others v v' ∧ net_received sends fd capacity n x n') (λ _, True).
Proof. intros Hcap. unfold ntyco_recv_before_deadline. by apply recv_loop_spec. Qed.

(** ** Sending *)

(** [sent] went out. *)
Definition net_sent fd w (sent : bytes) w' : Prop :=
  rtc others w.2 w'.2 ∧ net_in w'.1 fd = net_in w.1 fd ∧ net_out w'.1 fd = net_out w.1 fd ++ sent.

Lemma send_loop_spec fuel fd data w : (List.length data + net_interruptions w.1 ≤ fuel)%nat →
  wpx (send_loop fuel fd data) w (λ x w', ∃ sent, net_sent fd w sent w' ∧ (x = 0 ∧ sent = data ∨ x = -1 ∧ sent `prefix_of` data)) (λ _, True).
Proof.
  assert (∀ w, net_sent fd w [] w) as Hno by (intros w0; split; [done|]; split; [done|by rewrite app_nil_r]).
  revert data w. induction fuel as [|fuel IH]; intros data [n v] Hfuel; cbn [fst] in Hfuel.
  { destruct data; [|cbn in Hfuel; lia]. apply wpx_ret. exists []. split; [done|by left]. }
  destruct data as [|c data']; [apply wpx_ret; exists []; split; [done|by left]|]. cbn [send_loop]. set (data := c :: data') in *.
  eapply wpx_stepx; [by apply (send_law fd)|]. intros [x eintr] [n1 v1] (Hs & [_ Hi1] & Ei & Hx).
  destruct (Z.ltb_spec 0 x).
  - destruct Hx as [Hle Eo]. eapply wpx_mono; [apply (IH _ (n1, v1)); cbn [fst]; rewrite length_drop; unfold zlen in Hle; lia| |done].
    intros y w' (sent & (Hs2 & Ei2 & Eo2) & Hy). cbn [fst snd] in *. exists (take (Z.to_nat x) data ++ sent). split.
    + split; [by eapply rtc_l|]. split; [cbn; congruence|]. cbn. by rewrite Eo2, Eo, app_assoc.
    + destruct Hy as [(-> & ->)|(-> & rest & Hrest)]; [left|right].
      * split; [done|]. by rewrite take_drop.
      * split; [done|]. exists rest. by rewrite <- app_assoc, <- Hrest, take_drop.
  - destruct Hx as [Eo Hint]. destruct ((x <? 0) && eintr) eqn:E.
    + apply andb_true_iff in E as [_ ->]. specialize (Hint eq_refl). eapply wpx_mono; [apply (IH _ (n1, v1)); cbn [fst]; lia| |done].
      intros y w' (sent & (Hs2 & Ei2 & Eo2) & Hy). cbn [fst snd] in *. exists sent. split; [|done]. split; [by eapply rtc_l|]. cbn. split; congruence.
    + apply wpx_ret. exists []. split; [|right; split; [done|apply prefix_nil]]. cbn. split; [by apply rtc_once|]. cbn. split; [done|by rewrite app_nil_r].
Qed.

Lemma send_all_spec fd data w :
  wpx (ntyco_send_all fd data) w (λ x w', ∃ sent, net_sent fd w sent w' ∧ (x = 0 ∧ sent = data ∨ x = -1 ∧ sent `prefix_of` data)) (λ _, True).
Proof.
  unfold ntyco_send_all. destruct (fd <? 0).
  { apply wpx_ret. exists []. split; [|right; split; [done|apply prefix_nil]]. split; [done|]. split; [done|by rewrite app_nil_r]. }
  by apply send_loop_spec.
Qed.

Lemma flush_output_spec fd b s w : output_holds b s →
  wpx (ntyco_flush_output fd b) w (λ '(x, b') w', ∃ sent, net_sent fd w sent w' ∧ owned (o_data b') = owned (o_data b) ∧
    (x = 0 ∧ sent = s ∧ output_holds b' [] ∨ x = -1 ∧ sent `prefix_of` s ∧ b' = b)) (λ _, True).
Proof.
  intros (Hok & Ho & Hlen & Ht). unfold ntyco_flush_output. destruct (Z.eqb_spec (o_length b) 0) as [E|E].
  { apply wpx_ret. exists []. split; [split; [done|]; split; [done|by rewrite app_nil_r]|]. split; [done|]. left. split; [done|].
    rewrite E in Hlen. apply zlen_zero in Hlen as ->. split; [done|]. by split_and!. }
  destruct (o_data b) as [[p block]|] eqn:Eb; [|destruct Hok as (? & _ & Hd); lia]. cbn [deref]. cbn [contents] in Ht.
  eapply wpx_eq; [done|]. cbv beta iota. rewrite Ht, cell_bytes_some. eapply wpx_eq; [done|].
  eapply wpx_stepx; [apply send_all_spec|]. intros x w' (sent & Hs & Hx). destruct (Z.ltb_spec x 0); apply wpx_ret; exists sent.
  - split; [done|]. split; [by rewrite Eb|]. destruct Hx as [(-> & _)|(-> & Hp)]; [lia|]. by right.
  - split; [done|]. split; [done|]. destruct Hx as [(-> & ->)|(-> & _)]; [|lia]. left. split; [done|]. split; [done|]. destruct Hok as (? & ? & ?).
    split_and!; [|done|done|done]. cbn. split; [lia|]. by split.
Qed.

Lemma held_perm own own' v : own ≡ₚ own' → held own v → held own' v.
Proof.
  intros Hp Hh. apply held_heap in Hh as (F & Ho & Hset). rewrite <- (heap_same v). apply Hset. by eapply owns_perm.
Qed.

(** ** The buffers on the heap *)

Lemma step_input_space {Y} b msg own w (kont : Z * kvs_input_buffer_t → M W Y) (Q : Y → W → Prop) :
  input_holds b msg → held (owned (i_data b) ++ own) w.2 →
  (∀ x b' h, held (owned (i_data b') ++ own) (set_heap h w.2) → input_holds b' msg → x = 0 ∧ i_length b' < i_capacity b' ∨ x = -1 →
    wpx (kont (x, b')) (w.1, set_heap h w.2) Q (λ _, True)) →
  wpx (on_net_heap (kvs_input_buffer_ensure_space b 1) ≫= kont) w Q (λ _, True).
Proof.
  intros (Hok & Hlen & Ht) Hh Hk. apply held_heap in Hh as (F & Ho & Hset). pose proof (proj1 (owns_app _ _ _ _) Ho) as (Ho1 & _).
  eapply (step_net_heap _ _ _ (λ '(x, b') h, owns (owned (i_data b') ++ own) F h ∧ input_holds b' msg ∧ (x = 0 ∧ i_length b' < i_capacity b' ∨ x = -1))).
  - unfold kvs_input_buffer_ensure_space. eapply wp_step; [apply ensure_spec; [exact Hok|lia|exact Ho1]|].
    intros [x [data cap]] h (Ho' & _ & Hx). apply wp_ret. cbn [i_data i_length i_capacity]. split; [by eapply owns_frame|].
    destruct Hx as [(-> & Hok' & Hfit & Ht')|(-> & -> & ->)].
    + split; [|left; split; [done|lia]]. split; [done|]. split; [done|]. cbn [i_data i_length]. by rewrite Ht', Ht.
    + split; [|by right]. by destruct b.
  - intros [x b'] h (Ho' & Hb & Hx). apply Hk; [by apply Hset|done|done].
Qed.

Lemma step_output_space {Y} b s own w (kont : Z * kvs_output_buffer_t → M W Y) (Q : Y → W → Prop) :
  output_holds b s → held (owned (o_data b) ++ own) w.2 →
  (∀ x b' h, held (owned (o_data b') ++ own) (set_heap h w.2) → output_holds b' s → x = 0 ∧ 0 < o_capacity b' ∨ x = -1 →
    wpx (kont (x, b')) (w.1, set_heap h w.2) Q (λ _, True)) →
  wpx (on_net_heap (kvs_output_buffer_ensure_space b BUFFER_LENGTH) ≫= kont) w Q (λ _, True).
Proof.
  intros (Hok & Hoff & Hlen & Ht) Hh Hk. apply held_heap in Hh as (F & Ho & Hset). pose proof (proj1 (owns_app _ _ _ _) Ho) as (Ho1 & _).
  assert (0 ≤ o_length b) as Hl by apply Hok.
  eapply (step_net_heap _ _ _ (λ '(x, b') h, owns (owned (o_data b') ++ own) F h ∧ output_holds b' s ∧ (x = 0 ∧ 0 < o_capacity b' ∨ x = -1))).
  - unfold kvs_output_buffer_ensure_space. rewrite Hoff, !(proj2 (Z.ltb_ge _ _)) by lia. cbn [orb].
    eapply wp_step; [apply ensure_spec; [exact Hok|done|exact Ho1]|].
    intros [x [data cap]] h (Ho' & _ & Hx). apply wp_ret. cbn [o_data o_length o_capacity]. split; [by eapply owns_frame|].
    destruct Hx as [(-> & Hok' & Hfit & Ht')|(-> & -> & ->)].
    + split; [|left; split; [done|unfold BUFFER_LENGTH in Hfit; lia]]. split; [done|]. split; [done|]. split; [done|]. cbn [o_data o_length]. by rewrite Ht', Ht.
    + split; [|by right]. rewrite <- Hoff. by destruct b.
  - intros [x b'] h (Ho' & Hb & Hx). apply Hk; [by apply Hset|done|done].
Qed.

Lemma step_free {Y} data own w (m : M RT Y) (kont : Y → M W reader) (Q : reader → W → Prop) (y : Y) :
  held (owned data ++ own) w.2 → m = (kvs_free (fst <$> data);; mret y) →
  (∀ h, held own (set_heap h w.2) → wpx (kont y) (w.1, set_heap h w.2) Q (λ _, True)) →
  wpx (on_net_heap m ≫= kont) w Q (λ _, True).
Proof.
  intros Hh -> Hk. apply held_heap in Hh as (F & Ho & Hset).
  eapply (step_net_heap _ _ _ (λ x h, x = y ∧ owns own F h)).
  - eapply wp_step; [by apply free_block|]. intros _ h [Ho' _]. by apply wp_ret.
  - intros x h [-> Ho']. by apply Hk, Hset.
Qed.

(** ** A connection *)

(** The messages [es] were answered with their replies; [msg] is not handled and [unsent]
    not sent yet. *)
Definition conversing fd v0 own es msg unsent r w : Prop :=
  rd_handler r = handler ∧ rd_stream r = None ∧ rd_close r = None ∧ (rd_selected r = false → es = []) ∧
  input_holds (rd_input r) msg ∧ output_holds (rd_output r) unsent ∧ served_run v0 es w.2 ∧
  net_in w.1 fd = mjoin es.*1 ++ msg ∧ net_out w.1 fd ++ unsent = mjoin es.*2 ∧
  held (owned (i_data (rd_input r)) ++ owned (o_data (rd_output r)) ++ own) w.2.

(** The connection is gone: its memory was released, and what was sent are replies. *)
Definition ended fd v0 own w : Prop :=
  ∃ es v1 rest, served_run v0 es v1 ∧ net_in w.1 fd = mjoin es.*1 ++ rest ∧ net_out w.1 fd `prefix_of` mjoin es.*2 ∧ held own w.2.

Definition undecided (msg : bytes) : Prop := kvs_identify_connection (Some msg) (zlen msg) = KVS_CONNECTION_NEED_MORE.

Definition reader_ok fd v0 own r w : Prop :=
  match rd_phase r with
  | Receiving => ∃ es msg, conversing fd v0 own es msg [] r w ∧ if rd_selected r then waiting msg else undecided msg
  | Serving => ∃ es msg unsent, conversing fd v0 own es msg unsent r w ∧ msg ≠ [] ∧ sends fd (net_in w.1 fd) ∧
      zlen unsent < NTYCO_REPLY_BATCH_THRESHOLD
  | Streaming => False
  | Closed => ended fd v0 own w
  end.

Lemma closed_spec fd v0 own es v1 rest r w :
  rd_close r = None → held (owned (i_data (rd_input r)) ++ owned (o_data (rd_output r)) ++ own) w.2 → served_run v0 es v1 →
  net_in w.1 fd = mjoin es.*1 ++ rest → net_out w.1 fd `prefix_of` mjoin es.*2 →
  wpx (connection_closed fd r) w (reader_ok fd v0 own) (λ _, True).
Proof.
  intros Hc Hh Hrun Hin Hout. unfold connection_closed. destruct w as [n v]. eapply wpx_step; [apply (net_close_law fd)|].
  intros _ [n1 v'] (-> & _ & Eo & Ei). cbn [fst snd] in *. eapply step_free; [exact Hh|done|]. intros h1 Hh1. eapply step_free; [exact Hh1|done|].
  intros h2 Hh2. rewrite Hc. eapply wpx_eq; [done|]. apply wpx_ret. exists es, v1, rest. cbn [fst snd] in *. split; [done|]. split; [congruence|].
  split; [by rewrite Eo|done].
Qed.

Lemma conversing_closed fd v0 own es msg unsent r w :
  conversing fd v0 own es msg unsent r w → wpx (connection_closed fd r) w (reader_ok fd v0 own) (λ _, True).
Proof.
  intros (_ & _ & Hc & _ & _ & _ & Hrun & Hin & Hout & Hh). eapply closed_spec; [done|exact Hh|exact Hrun|exact Hin|].
  exists unsent. done.
Qed.

(** Sending what is left; the end of the loop over the messages. *)
Lemma output_flush_spec fd v0 own es msg unsent r w (kont : reader → M W reader) :
  conversing fd v0 own es msg unsent r w →
  (∀ output w', conversing fd v0 own es msg [] (set_output output r) w' → wpx (kont (set_output output r)) w' (reader_ok fd v0 own) (λ _, True)) →
  wpx ('(ret, output) ← ntyco_flush_output fd (rd_output r);
       if ret <? 0 then connection_closed fd r else kont (set_output output r)) w (reader_ok fd v0 own) (λ _, True).
Proof.
  intros Hconv Hk. pose proof Hconv as (Eh & Es & Ec & Hsel & Hi & Ho & Hrun & Hin & Hout & Hh).
  eapply wpx_stepx; [by apply flush_output_spec|]. intros [x output] w' (sent & (Hs & Ei & Eo) & Eown & Hx).
  assert (held (owned (i_data (rd_input r)) ++ owned (o_data (rd_output r)) ++ own) w'.2) as Hh' by (by eapply rtc_held).
  pose proof (rtc_served _ _ _ _ Hrun Hs) as Hrun'.
  destruct Hx as [(-> & -> & Ho')|(-> & [rest Hrest] & ->)].
  - change (0 <? 0) with false. cbv iota. apply Hk. split_and!; cbn; try done; try lia; rewrite ?Eown; try done.
    + congruence.
    + by rewrite Eo, app_nil_r.
  - change (-1 <? 0) with true. cbv iota. eapply closed_spec; [done|exact Hh'|exact Hrun'|by rewrite Ei|].
    exists rest. rewrite Eo, <- app_assoc, <- Hrest. done.
Qed.

Lemma reader_flush_spec fd v0 own es msg unsent r w :
  conversing fd v0 own es msg unsent r w → (if rd_selected r then waiting msg else undecided msg) →
  wpx (reader_flush fd r) w (reader_ok fd v0 own) (λ _, True).
Proof.
  intros Hconv Hw. unfold reader_flush. eapply (output_flush_spec fd v0 own es msg unsent r w (λ r, mret (set_phase Receiving r))); [done|].
  intros output w' Hconv'. apply wpx_ret. exists es, msg. done.
Qed.

Lemma serve_again_spec fd v0 own es msg unsent r w :
  conversing fd v0 own es msg unsent r w → rd_selected r = true → sends fd (net_in w.1 fd) → 0 ≤ rd_consumed r →
  (rd_consumed r = 0 → waiting msg) → (0 < rd_consumed r → zlen unsent < NTYCO_REPLY_BATCH_THRESHOLD) →
  wpx (serve_again fd r) w (reader_ok fd v0 own) (λ _, True).
Proof.
  intros Hconv Hsel Hsends Hc0 Hwait Hbatch. unfold serve_again. pose proof Hconv as (_ & _ & _ & _ & (_ & Hlen & _) & _).
  destruct (Z.ltb_spec 0 (i_length (rd_input r))); cbn [andb].
  - destruct (Z.ltb_spec 0 (rd_consumed r)).
    + apply wpx_ret. exists es, msg, unsent. split; [done|]. split; [intros ->; rewrite zlen_nil in Hlen; lia|]. split; [done|auto].
    + eapply reader_flush_spec; [done|]. rewrite Hsel. apply Hwait. lia.
  - eapply reader_flush_spec; [done|]. rewrite Hsel. assert (msg = []) as -> by (apply zlen_zero; pose proof (zlen_nonneg msg); lia). apply waiting_nil.
Qed.

(** ** The turns *)

Lemma receive_turn_spec fd v0 own r w : rd_phase r = Receiving →
  reader_ok fd v0 own r w → wpx (receive_turn fd r) w (reader_ok fd v0 own) (λ _, True).
Proof.
  intros Hp Hok. unfold reader_ok in Hok. rewrite Hp in Hok.
  destruct Hok as (es & msg & (Eh & Es & Ec & Hsel & Hi & Ho & Hrun & Hin & Hout & Hh) & Hw). unfold receive_turn.
  eapply step_input_space; [exact Hi|exact Hh|]. intros x input h Hh1 Hi1 Hx. cbv zeta.
  set (r1 := set_buffers input (rd_output r) 0 r).
  assert (served_run v0 es (set_heap h w.2)) as Hrun1 by (eapply served_between; [done|right; by exists h]).
  assert (conversing fd v0 own es msg [] r1 (w.1, set_heap h w.2)) as Hconv1 by (by split_and!).
  destruct Hx as [[-> Hroom]| ->]; [change (0 <? 0) with false|change (-1 <? 0) with true]; cbv iota; [|by eapply conversing_closed].
  set (avail := i_capacity input - i_length input) in *. assert (0 < avail) as Hav by lia.
  eapply (wpx_stepx _ _ _ (λ x w', rtc others (set_heap h w.2) w'.2 ∧ held (owned (i_data input) ++ owned (o_data (rd_output r)) ++ own) w'.2 ∧
    net_received sends fd avail w.1 x w'.1)).
  { change (rd_selected r1) with (rd_selected r). change (rd_deadline r1) with (rd_deadline r). destruct (rd_selected r); cbn [negb].
    - eapply wpx_mono; [by apply recv_law| |done]. intros x [n' v'] [Hs Hx]. split; [by apply rtc_once|]. split; [|done]. by eapply held_others.
    - eapply wpx_mono; [by apply recv_before_deadline_spec| |done]. intros x [n' v'] [Hs Hx]. split; [done|]. split; [|done].
      by eapply rtc_held. }
  intros x w' (Hs & Hh' & (_ & Eo & Hx)). pose proof (rtc_served _ _ _ _ Hrun1 Hs) as Hrun'.
  assert (∀ r', rd_handler r' = handler → rd_stream r' = None → rd_close r' = None → rd_input r' = input → rd_output r' = rd_output r →
    net_in w'.1 fd = net_in w.1 fd → rd_selected r' = rd_selected r → conversing fd v0 own es msg [] r' w') as Hsame.
  { intros r' E1 E2 E3 E4 E5 E6 E7. split_and!; try done; rewrite ?E4, ?E5; try done.
    - rewrite E7. exact Hsel.
    - congruence.
    - congruence. }
  destruct x as [b| | | |]; try (eapply conversing_closed; apply Hsame; done).
  2:{ apply wpx_ret. destruct Hx as [Ei _]. unfold reader_ok. change (rd_phase r1) with (rd_phase r). rewrite Hp. exists es, msg. split; [|done].
      by apply Hsame. }
  destruct Hx as (Hne & Hle & Ei & Hsends).
  destruct (input_receives input msg b) as (p & block & Eb & Hi'); [done|destruct Hi1 as ((? & ? & _) & _); lia|done|].
  rewrite Eb. eapply wpx_eq; [done|]. cbv beta iota. apply wpx_ret. rewrite Eb in Hh'.
  exists es, (msg ++ b), []. split.
  - split_and!; cbn; try done.
    + by rewrite Ei, Hin, <- app_assoc.
    + congruence.
  - split; [intros E; apply app_nil in E as [_ ->]; done|]. by split_and!.
Qed.

Lemma select_protocol_spec r msg :
  (rd_selected r = false → kvs_identify_connection (Some msg) (zlen msg) ≠ KVS_CONNECTION_REPLICA) →
  match select_protocol r msg with
  | None => rd_selected r = false ∧ undecided msg
  | Some None => True
  | Some (Some r') => rd_selected r' = true ∧ rd_handler r' = rd_handler r ∧ rd_stream r' = rd_stream r ∧ rd_close r' = rd_close r ∧
      rd_input r' = rd_input r ∧ rd_output r' = rd_output r
  end.
Proof.
  intros Hno. unfold select_protocol, undecided. destruct (rd_selected r) eqn:Es; [by split_and!|].
  specialize (Hno eq_refl). destruct (kvs_identify_connection (Some msg) (zlen msg)); [by split|by split_and!|done|done].
Qed.

Lemma select_protocol_input r msg r' : select_protocol r msg = Some (Some r') → rd_input r' = rd_input r.
Proof.
  unfold select_protocol. destruct (rd_selected r); [by intros [= <-]|]. destruct (kvs_identify_connection _ _); try done; [by intros [= <-]|].
  destruct (rd_replication r); by intros [= <-].
Qed.

(** A message was given to the handler. *)
Lemma handled_spec fd v0 own es msg unsent r w reply c (v' : V) :
  rd_selected r = true → rd_handler r = handler → rd_stream r = None → rd_close r = None → served_run v0 es w.2 →
  input_holds (rd_input r) msg → output_holds (rd_output r) (unsent ++ reply) → 0 ≤ c ≤ zlen msg →
  net_in w.1 fd = mjoin es.*1 ++ msg → net_out w.1 fd ++ unsent = mjoin es.*2 → sends fd (net_in w.1 fd) →
  held (owned (i_data (rd_input r)) ++ owned (o_data (rd_output r)) ++ own) v' →
  (c = 0 ∧ reply = [] ∧ v' = w.2 ∧ waiting msg ∧ zlen unsent < NTYCO_REPLY_BATCH_THRESHOLD ∨ 0 < c ∧ answered w.2 (take (Z.to_nat c) msg) reply v') →
  wpx (let '(ret, input) := kvs_input_buffer_consume (rd_input r) c in
      let r := set_buffers input (rd_output r) c r in
      if ret <? 0 then connection_closed fd r else
      if (o_length (rd_output r) =? 0) || (o_length (rd_output r) <? NTYCO_REPLY_BATCH_THRESHOLD) then serve_again fd r else
      '(ret, output) ← ntyco_flush_output fd (rd_output r);
      if ret <? 0 then connection_closed fd r else serve_again fd (set_output output r)) (w.1, v') (reader_ok fd v0 own) (λ _, True).
Proof.
  intros Hsel Eh Es Ec Hrun Hi Ho Hn Hin Hout Hsends Hh Hcase. destruct (input_consumes _ _ _ Hi Hn) as (input & -> & Hi' & Eown).
  cbv zeta. change (0 <? 0) with false. cbv iota. set (r1 := set_buffers input (rd_output r) c r).
  assert (∃ es', conversing fd v0 own es' (drop (Z.to_nat c) msg) (unsent ++ reply) r1 (w.1, v')) as [es' Hconv].
  { assert (owned (i_data input) ++ owned (o_data (rd_output r)) ++ own = owned (i_data (rd_input r)) ++ owned (o_data (rd_output r)) ++ own) as Eo by (by rewrite Eown).
    destruct Hcase as [(-> & -> & -> & _ & _)|(Hpos & Hans)].
    - exists es. rewrite app_nil_r in *. cbn [Z.to_nat drop]. split_and!; cbn; try done; try lia; try (by rewrite Hsel). by rewrite Eo.
    - exists (es ++ [(take (Z.to_nat c) msg, reply)]). split_and!; cbn; try done; try lia; try (by rewrite Hsel).
      + by eapply served_message.
      + rewrite fmap_app, join_app. cbn. by rewrite app_nil_r, <- app_assoc, take_drop.
      + rewrite fmap_app, join_app. cbn. rewrite app_nil_r, app_assoc. by f_equal.
      + by rewrite Eo. }
  assert (c = 0 → waiting (drop (Z.to_nat c) msg)) as Hwait.
  { intros ->. destruct Hcase as [(_ & _ & _ & Hw & _)|[? _]]; [done|lia]. }
  pose proof Ho as (_ & _ & Hlen & _).
  destruct ((o_length (rd_output r1) =? 0) || (o_length (rd_output r1) <? NTYCO_REPLY_BATCH_THRESHOLD)) eqn:Eb.
  - eapply serve_again_spec; [exact Hconv|exact Hsel|done|cbn; lia|exact Hwait|]. intros _. cbn in Eb.
    apply orb_true_iff in Eb as [E%Z.eqb_eq|E%Z.ltb_lt]; [|lia]. rewrite Hlen, E. done.
  - eapply (output_flush_spec fd v0 own es' _ _ r1 _ (serve_again fd)); [exact Hconv|]. intros output w' Hconv'. pose proof Hconv' as (_ & _ & _ & _ & _ & _ & _ & Hin' & _).
    assert (net_in w'.1 fd = net_in w.1 fd) as Ein.
    { destruct Hconv as (_ & _ & _ & _ & _ & _ & _ & Hin1 & _). cbn in Hin1. congruence. }
    eapply serve_again_spec; [exact Hconv'|exact Hsel|by rewrite Ein|cbn; lia|exact Hwait|done].
Qed.

Lemma serve_turn_spec fd v0 own r w : rd_phase r = Serving →
  (∀ s, sends fd s → kvs_identify_connection (Some s) (zlen s) ≠ KVS_CONNECTION_REPLICA) →
  reader_ok fd v0 own r w → wpx (serve_turn fd r) w (reader_ok fd v0 own) (λ _, True).
Proof.
  intros Hp Hclient Hok. unfold reader_ok in Hok. rewrite Hp in Hok.
  destruct Hok as (es & msg & unsent & Hconv & Hne & Hsends & Hbatch). unfold serve_turn. cbv zeta.
  set (r0 := set_buffers _ _ 0 r).
  assert (conversing fd v0 own es msg unsent r0 w) as Hconv0.
  { destruct Hconv as (?&?&?&?&?&Ho&?&?&?&?). split; [done|]. split; [done|]. split; [done|]. split; [done|]. split; [done|]. split; [|done].
    destruct Ho as (? & E & ? & ?). by split. }
  clearbody r0. clear Hconv Hp r. rename r0 into r. pose proof Hconv0 as (Eh & Es & Ec & Hsel & Hi & Ho & Hrun & Hin & Hout & Hh).
  pose proof Hi as ((Hil & _ & Hid) & Hlen & Ht). destruct (i_data (rd_input r)) as [[p block]|] eqn:Ei.
  2:{ exfalso. apply Hne, zlen_zero. lia. }
  cbn [deref contents] in *. eapply wpx_eq; [done|]. cbv beta iota. rewrite Ht, cell_bytes_some. eapply wpx_eq; [done|].
  pose proof (select_protocol_spec r msg) as Hselect. destruct (select_protocol r msg) as [[r1|]|].
  2:{ eapply conversing_closed, Hconv0. }
  2:{ destruct Hselect as [E Hu].
      - intros E. rewrite (Hsel E) in Hin. cbn in Hin. rewrite <- Hin. by apply Hclient.
      - eapply reader_flush_spec; [exact Hconv0|]. by rewrite E. }
  destruct Hselect as (E1 & E2 & E3 & E4 & E5 & E6).
  { intros E. rewrite (Hsel E) in Hin. cbn in Hin. rewrite <- Hin. by apply Hclient. }
  rewrite <- Ei in Hh. rewrite <- E5, <- E6 in Hh. rewrite <- E6 in Ho. rewrite <- E5 in Hi. rewrite Eh in E2. rewrite Es in E3. rewrite Ec in E4.
  eapply (step_output_space _ _ (owned (i_data (rd_input r1)) ++ own)); [exact Ho|eapply held_perm; [|exact Hh]; solve_Permutation|].
  intros x output h Hh1 Ho1 Hx. set (r2 := set_output output r1).
  assert (served_run v0 es (set_heap h w.2)) as Hrun1 by (eapply served_between; [done|right; by exists h]).
  assert (held (owned (i_data (rd_input r1)) ++ owned (o_data output) ++ own) (set_heap h w.2)) as Hh2 by (eapply held_perm; [|exact Hh1]; solve_Permutation).
  destruct Hx as [[-> Hcap]| ->]; [change (0 <? 0) with false|change (-1 <? 0) with true]; cbv iota.
  2:{ eapply (closed_spec fd v0 own es _ msg r2); [exact E4|exact Hh2|exact Hrun1|exact Hin|by exists unsent]. }
  change (rd_handler r2) with (rd_handler r1). rewrite E2.
  eapply step_state; [eapply (handle_message (handler := handler) fd (net_in w.1 fd) msg output (owned (i_data (rd_input r1)) ++ own));
    [done|rewrite Hin; by exists (mjoin es.*1)|done|destruct Hi as ((? & ? & _) & -> & _); lia|by eapply output_reply_buffer|exact Hh1]|].
  intros [[len b'] c] v' (Hc & Hh3 & Hcase). cbn [fst snd] in *. cbv beta iota zeta.
  assert (held (owned (i_data (rd_input r1)) ++ owned (o_data b') ++ own) v') as Hh4 by (eapply held_perm; [|exact Hh3]; solve_Permutation).
  destruct Hcase as [Hneg|(reply & -> & Hrep & Hcase)].
  { rewrite (proj2 (Z.ltb_lt len 0)) by done. cbn [orb].
    eapply (closed_spec fd v0 own es _ msg (set_buffers (rd_input r2) b' c r2)); [exact E4|exact Hh4|exact Hrun1|exact Hin|by exists unsent]. }
  pose proof (zlen_nonneg reply). assert (zlen reply ≤ o_capacity b' - o_length b') as Hfit by (destruct Hrep as (_ & -> & _ & ? & _); lia).
  rewrite (proj2 (Z.ltb_ge (zlen reply) 0)), (proj2 (Z.ltb_ge _ (zlen reply))) by lia. cbn [orb].
  pose proof (output_replies _ _ _ _ Ho1 Hrep) as Ho2. set (output' := OutputBuffer _ _ _ _) in *.
  change (rd_input (set_buffers (rd_input r2) b' c r2)) with (rd_input r1).
  pose proof (handled_spec fd v0 own es msg unsent (set_buffers (rd_input r1) output' c r1) (w.1, set_heap h w.2) reply c v') as Hfin.
  cbn [fst snd] in Hfin. specialize (Hfin E1 E2 E3 E4 Hrun1 Hi Ho2). specialize (Hfin Hc Hin Hout Hsends Hh4).
  assert (wpx (let '(ret, input) := kvs_input_buffer_consume (rd_input r1) c in
      let r := set_buffers input output' c r1 in
      if ret <? 0 then connection_closed fd r else
      if (o_length output' =? 0) || (o_length output' <? NTYCO_REPLY_BATCH_THRESHOLD) then serve_again fd r else
      '(ret, output) ← ntyco_flush_output fd output';
      if ret <? 0 then connection_closed fd r else serve_again fd (set_output output r)) (w.1, v') (reader_ok fd v0 own) (λ _, True)) as Hfin'.
  { apply Hfin. destruct Hcase as [(? & ? & ? & ?)|?]; [left; by split_and!|by right]. }
  destruct (kvs_input_buffer_consume (rd_input r1) c) as [ret input]. cbv zeta in Hfin'.
  change (rd_stream (set_buffers input output' c (set_buffers (rd_input r2) b' c r2))) with (rd_stream r1).
  change (rd_close (set_buffers input output' c (set_buffers (rd_input r2) b' c r2))) with (rd_close r1). rewrite E3, E4. exact Hfin'.
Qed.

Lemma reader_turns_spec turns fd v0 own r w :
  (∀ s, sends fd s → kvs_identify_connection (Some s) (zlen s) ≠ KVS_CONNECTION_REPLICA) →
  reader_ok fd v0 own r w → wpx (reader_turns turns fd r) w (reader_ok fd v0 own) (λ _, True).
Proof.
  intros Hclient. revert r w. induction turns as [|turns IH]; intros r w Hok; cbn [reader_turns]; [by apply wpx_ret|].
  eapply wpx_stepx; [|intros r' w' Hok'; by apply IH]. unfold reader_turn. destruct (rd_phase r) eqn:Hp.
  - by apply receive_turn_spec.
  - by apply serve_turn_spec.
  - unfold reader_ok in Hok. by rewrite Hp in Hok.
  - by apply wpx_ret.
Qed.

(** The connection of a client from its acceptance on. *)
Lemma server_reader_spec turns context own w :
  cx_handler context = handler → cx_stream_handler context = None → cx_close_handler context = None →
  (∀ s, sends (cx_fd context) s → kvs_identify_connection (Some s) (zlen s) ≠ KVS_CONNECTION_REPLICA) →
  net_in w.1 (cx_fd context) = [] → net_out w.1 (cx_fd context) = [] →
  held (option_list (cx_heap_owned context) ++ own) w.2 →
  wpx (server_reader turns context) w (reader_ok (cx_fd context) w.2 own) (λ _, True).
Proof.
  intros Eh Es Ec Hclient Hin Hout Hh. unfold server_reader.
  eapply (wpx_stepx _ _ _ (reader_ok (cx_fd context) w.2 own)); [|intros r w' Hok; by apply reader_turns_spec].
  assert (∀ w', w'.1 = w.1 → served_run w.2 [] w'.2 → held own w'.2 →
    reader_ok (cx_fd context) w.2 own (Reader (cx_handler context) (cx_stream_handler context) (cx_close_handler context) (cx_replication_handler context)
    (cx_replication_stream_handler context) (cx_replication_close_handler context)
    (if cx_replication_handler context then false else true) (cx_identification_deadline_ms context)
    (InputBuffer None 0 0) (OutputBuffer None 0 0 0) 0 Receiving) w') as Hstart.
  { intros w' E Hrun Hh'. exists [], []. split.
    - split; [done|]. split; [done|]. split; [done|]. split; [by intros _|]. split; [apply input_empty|]. split; [apply output_empty|]. split; [done|].
      rewrite E, Hin, Hout. by split.
    - cbn. destruct (cx_replication_handler context); [done|apply waiting_nil]. }
  unfold reader_start. destruct (cx_heap_owned context) as [p|].
  - pose proof (held_heap _ _ Hh) as (F & Ho & Hset). cbn [option_list app] in Ho.
    eapply (step_net_heap _ _ _ (λ _ h, owns own F h)).
    + eapply wp_mono; [apply (wp_free p own F); exact Ho|]. by intros _ h [? _].
    + intros _ h Ho'. apply wpx_ret. apply Hstart; [done| |by apply Hset]. eapply served_between; [apply served_none|right; by exists h].
  - eapply wpx_eq; [done|]. apply wpx_ret. apply Hstart; [done|apply served_none|done].
Qed.

(** ** The end of the loop over the messages *)

(** The messages received are fewer after every turn. *)
Definition shorter (m : Z) (r' : reader) (w' : W) : Prop := rd_phase r' = Serving → 0 ≤ i_length (rd_input r') < m.

(** What holds of the result if there is one. *)
Definition if_ok {X} (m : M W X) w (Q : X → W → Prop) : Prop := match m w with Ok x w' => Q x w' | _ => True end.

Lemma if_ok_bind {X Y} (m : M W X) (k : X → M W Y) w Q : (∀ x w', if_ok (k x) w' Q) → if_ok (m ≫= k) w Q.
Proof. intros Hk. unfold if_ok, mbind, M_bind in *. destruct (m w); [apply Hk|done|done]. Qed.

Lemma closed_shorter fd m r w : if_ok (connection_closed fd r) w (shorter m).
Proof. unfold connection_closed. do 4 (apply if_ok_bind; intros ? ?). done. Qed.

Lemma flush_shorter fd m r w : if_ok (reader_flush fd r) w (shorter m).
Proof. unfold reader_flush. apply if_ok_bind. intros [ret output] w'. destruct (ret <? 0); [apply closed_shorter|done]. Qed.

Lemma again_shorter fd m r w : (0 < rd_consumed r → i_length (rd_input r) < m) → if_ok (serve_again fd r) w (shorter m).
Proof.
  intros Hm. unfold serve_again. destruct ((0 <? i_length (rd_input r)) && (0 <? rd_consumed r)) eqn:E; [|apply flush_shorter].
  apply andb_true_iff in E as [Hl%Z.ltb_lt Hc%Z.ltb_lt]. intros _. cbn. specialize (Hm Hc). lia.
Qed.

Lemma serve_turn_shorter fd r w : if_ok (serve_turn fd r) w (shorter (i_length (rd_input r))).
Proof.
  unfold serve_turn. cbv zeta. set (m := i_length (rd_input r)). apply if_ok_bind. intros [p block] w1. apply if_ok_bind. intros input w2.
  pose proof (select_protocol_input (set_buffers (rd_input r) (OutputBuffer (o_data (rd_output r)) (o_length (rd_output r)) 0 (o_capacity (rd_output r))) 0 r) input) as Hin.
  destruct (select_protocol _ input) as [[r1|]|]; [|apply closed_shorter|apply flush_shorter]. specialize (Hin _ eq_refl).
  apply if_ok_bind. intros [ret output] w3. destruct (ret <? 0); [apply closed_shorter|]. apply if_ok_bind. intros [[len b'] c] w4.
  destruct (_ || _); [apply closed_shorter|]. change (rd_input (set_buffers (rd_input (set_output output r1)) b' c (set_output output r1))) with (rd_input r1).
  rewrite Hin. cbn [set_buffers rd_input]. destruct (kvs_input_buffer_consume (rd_input r) c) as [ret2 input2] eqn:Ec.
  destruct (ret2 <? 0) eqn:E2; [apply closed_shorter|].
  assert (0 < c → i_length input2 < m) as Hm.
  { unfold kvs_input_buffer_consume in Ec. intros Hc. destruct (_ || _); [by injection Ec as <- <-|]. injection Ec as _ <-. cbn. unfold m. lia. }
  assert (∀ output w, if_ok (serve_again fd (set_buffers input2 output c (set_buffers (rd_input r) b' c (set_output output r1)))) w (shorter m)) as Hagain
    by (intros o w'; by apply again_shorter).
  match goal with |- context [match rd_stream ?x with _ => _ end] => destruct (rd_stream x), (rd_close x) end.
  1, 2: apply if_ok_bind; intros [ret3 output3] w5; destruct (ret3 <? 0); [apply closed_shorter|done].
  - destruct (_ =? 0); [by apply again_shorter|]. apply if_ok_bind; intros [ret3 output3] w5; destruct (ret3 <? 0); [apply closed_shorter|by apply again_shorter].
  - destruct (_ || _); [by apply again_shorter|]. apply if_ok_bind; intros [ret3 output3] w5; destruct (ret3 <? 0); [apply closed_shorter|by apply again_shorter].
Qed.

(** The loop over the messages ends after at most as many turns as there are bytes. *)
Lemma serving_ends fd v0 own r w :
  (∀ s, sends fd s → kvs_identify_connection (Some s) (zlen s) ≠ KVS_CONNECTION_REPLICA) →
  reader_ok fd v0 own r w → rd_phase r = Serving →
  ∃ turns, (turns ≤ Z.to_nat (i_length (rd_input r)))%nat ∧
    wpx (reader_turns turns fd r) w (λ r' w', reader_ok fd v0 own r' w' ∧ (rd_phase r' = Receiving ∨ rd_phase r' = Closed)) (λ _, True).
Proof.
  intros Hclient. remember (Z.to_nat (i_length (rd_input r))) as m eqn:Em. revert r w Em. induction (lt_wf m) as [m _ IH]. intros r w -> Hok Hp.
  assert (0 < i_length (rd_input r)) as Hpos.
  { unfold reader_ok in Hok. rewrite Hp in Hok. destruct Hok as (es & msg & unsent & (_ & _ & _ & _ & (_ & Hl & _) & _) & Hne & _).
    destruct msg as [|x msg]; [done|]. rewrite <- Hl, zlen_cons. pose proof (zlen_nonneg msg). lia. }
  pose proof (serve_turn_spec fd v0 own r w Hp Hclient Hok) as Hturn. pose proof (serve_turn_shorter fd r w) as Hshort. unfold wpx, if_ok in Hturn, Hshort.
  assert (∀ t r' w', serve_turn fd r w = Ok r' w' → wpx (reader_turns t fd r') w' (λ r' w', reader_ok fd v0 own r' w' ∧ (rd_phase r' = Receiving ∨ rd_phase r' = Closed)) (λ _, True) →
    wpx (reader_turns (S t) fd r) w (λ r' w', reader_ok fd v0 own r' w' ∧ (rd_phase r' = Receiving ∨ rd_phase r' = Closed)) (λ _, True)) as Hstep.
  { intros t r' w' E Ht. cbn [reader_turns]. unfold reader_turn. rewrite Hp. by eapply wpx_eq. }
  destruct (serve_turn fd r w) as [r' w'|w'|] eqn:E; [|exists 1%nat; split; [lia|]; cbn [reader_turns]; unfold reader_turn; rewrite Hp; unfold wpx, mbind, M_bind; by rewrite E|done].
  destruct (rd_phase r') eqn:Hp'.
  - exists 1%nat. split; [lia|]. eapply Hstep; [done|]. apply wpx_ret. split; [done|by left].
  - specialize (Hshort Hp'). destruct (IH (Z.to_nat (i_length (rd_input r'))) ltac:(lia) r' w' eq_refl Hturn Hp') as (t & Ht & Hrun).
    exists (S t). split; [lia|]. by eapply Hstep.
  - unfold reader_ok in Hturn. by rewrite Hp' in Hturn.
  - exists 1%nat. split; [lia|]. eapply Hstep; [done|]. apply wpx_ret. split; [done|by right].
Qed.
End specs.

(** * A network in memory

    One connection, whose peer sends [peer]: a list of what the receiving calls find, of
    which bytes are delivered as long as they continue [peer].  Seven bytes are sent at a
    time. *)

Record mem_net := MemNet { mn_script : list recv_result; mn_in : bytes; mn_out : bytes; mn_clock : Z }.

Section mem_net.
Context (peer : bytes) (V : Type).

Definition mn_recv (capacity : Z) : M (mem_net * V) recv_result := λ w,
  match mn_script w.1 with
  | [] => Ok PeerClosed w
  | Received b :: script =>
      let d := take (Z.to_nat capacity) b in
      if bool_decide (d ≠ []) && bool_decide (mn_in w.1 ++ d `prefix_of` peer) then
        Ok (Received d) (MemNet (if bool_decide (drop (Z.to_nat capacity) b = []) then script else Received (drop (Z.to_nat capacity) b) :: script)
          (mn_in w.1 ++ d) (mn_out w.1) (mn_clock w.1), w.2)
      else Ok PeerClosed w
  | r :: script => Ok r (MemNet script (mn_in w.1) (mn_out w.1) (mn_clock w.1), w.2)
  end.

Definition mn_interruptions (n : mem_net) : nat :=
  sum_list_with (λ r, match r with RecvInterrupted => 1%nat | _ => O end) (mn_script n).

#[local] Instance mem_net_net : Net mem_net V := {|
  net_in n _ := mn_in n;
  net_out n _ := mn_out n;
  net_clock := mn_clock;
  net_interruptions := mn_interruptions;
  nty_recv _ := mn_recv;
  sys_recv_nowait _ := mn_recv;
  sys_peek _ w := Ok WouldBlock w;
  nty_send _ data w := Ok (Z.min 7 (zlen data), false) (MemNet (mn_script w.1) (mn_in w.1) (mn_out w.1 ++ take 7 data) (mn_clock w.1), w.2);
  nty_close _ w := Ok tt w;
  clock_monotonic_ms w := Ok (Some (mn_clock w.1)) w;
  nty_sleep ms w := Ok tt (MemNet (mn_script w.1) (mn_in w.1) (mn_out w.1) (mn_clock w.1 + Z.max 0 ms), w.2);
|}.

Definition peer_sends (fd : Z) (s : bytes) : Prop := s `prefix_of` peer.

Lemma mn_recv_spec fd capacity n v : 0 < capacity → wp (mn_recv capacity) (n, v) (λ r '(n', v'), v' = v ∧ net_received peer_sends fd capacity n r n').
Proof.
  intros Hcap. unfold wp, mn_recv. cbn [fst snd]. destruct n as [script sofar out clock]. cbn [mn_script mn_in mn_out mn_clock].
  destruct script as [|r script]; [split; [done|]; split; [split; cbn; lia|done]|]. destruct r as [b| | | |].
  2-5: split; [done|]; split; [split; cbn; unfold mn_interruptions; cbn; lia|]; split; [done|].
  2, 4, 5: done.
  2: (split; [done|cbn; unfold mn_interruptions; cbn; lia]).
  set (d := take (Z.to_nat capacity) b). destruct (bool_decide_reflect (d ≠ [])) as [Hd|Hd]; cbn [andb].
  2:{ split; [done|]. split; [split; cbn; lia|done]. }
  destruct (bool_decide_reflect (sofar ++ d `prefix_of` peer)) as [Hp|Hp].
  2:{ split; [done|]. split; [split; cbn; lia|done]. }
  split; [done|]. split; [split; [cbn; lia|]|split; [done|]].
  - cbn. unfold mn_interruptions. cbn [mn_script]. case_bool_decide; cbn; lia.
  - split; [done|]. split; [unfold d, zlen; rewrite length_take; lia|]. by split.
Qed.

#[local] Instance mem_net_laws : NetLaws mem_net V eq peer_sends.
Proof.
  split.
  - intros fd capacity n v Hcap. apply wp_wpx. eapply wp_mono; [by apply (mn_recv_spec fd)|]. intros r [n' v'] [-> Hr]. done.
  - intros fd capacity n v Hcap. by apply (mn_recv_spec fd).
  - intros fd n v. split; [done|]. by split_and!.
  - intros fd data n v Hne. unfold wpx. cbn. split; [done|]. split; [by split|]. split; [done|].
    pose proof (zlen_nonneg data). assert (0 < zlen data) by (destruct data; [done|rewrite zlen_cons; pose proof (zlen_nonneg data); lia]).
    rewrite (proj2 (Z.ltb_lt 0 _)) by lia. split; [lia|]. f_equal. destruct (Z.leb_spec 7 (zlen data)).
    + by rewrite Z.min_l by lia.
    + rewrite Z.min_r by lia. unfold zlen. rewrite Nat2Z.id. rewrite !take_ge; [done|lia|unfold zlen in *; lia].
  - intros fd n v. split; [done|]. by split_and!.
  - intros fd n v. split; [done|]. by split_and!.
  - intros fd ms n v. unfold wpx. cbn. split; [done|]. split; [split; [split; cbn; [lia|done]|done]|lia].
Qed.
End mem_net.
