(* ===== verification/Listen.v ===== *)
(** The network service, src/network/ntyco.c: opening the listeners, accepting
    connections, connecting to a primary, and the start of the coroutines.

    Sockets, the scheduler of NtyCo and the coroutines created so far are an interface
    [Service] over the one of Network.  A coroutine is created with a [task], its function
    and argument.  The contexts of listeners and connectors are on the stack of
    [ntyco_start_runtime], which does not return while the scheduler runs; no coroutine
    changes what another reads of them, so a task carries its value.  [server] never
    ends, so it is modelled by its turns, one for each call of [nty_accept].  Messages on
    standard error and to the log are left out. *)

From Stdlib Require Import ZArith Lia.
From S2P Require Import Prelude Runtime Codec Buffer Config Network.

Definition NTYCO_MAX_LISTENER_COUNT : Z := 2.
Definition NTYCO_MAX_CONNECTOR_COUNT : Z := 1.
Definition LISTEN_BACKLOG : Z := 20.
Definition ANY_ADDRESS : bytes := lit "0.0.0.0".

(** [sizeof(ntyco_connection_context_t)] *)
Definition CONTEXT_SIZE : Z := 72.

Section data.
Context {V : Type}.
Notation stream_handler := (kvs_connection_stream_handler (V := V)).
Notation close_handler := (kvs_connection_close_handler (V := V)).

(** The connection and the room; the result and the bytes written. *)
Definition kvs_connection_open_handler : Type := Z → Z → M V (Z * bytes).

(** The configuration of a listener; pointers may be null. *)
Record kvs_listener_config_t := ListenerConfig {
  li_port : Z;
  li_handler : option (msg_handler (V := V));
  li_stream_handler : option stream_handler;
  li_bind_ip : option bytes;
  li_replication_handler : option (msg_handler (V := V));
  li_replication_stream_handler : option stream_handler;
  li_replication_close_handler : option close_handler;
}.

Record kvs_connector_config_t := ConnectorConfig {
  cn_host : option bytes;
  cn_port : Z;
  cn_open_handler : option kvs_connection_open_handler;
  cn_message_handler : option (msg_handler (V := V));
  cn_stream_handler : option stream_handler;
  cn_close_handler : option close_handler;
}.

Record ntyco_listener_context_t := ListenerContext {
  lc_port : Z;
  lc_bind_ip : option bytes;
  lc_listen_fd : Z;
  lc_handler : msg_handler (V := V);
  lc_stream_handler : option stream_handler;
  lc_replication_handler : option (msg_handler (V := V));
  lc_replication_stream_handler : option stream_handler;
  lc_replication_close_handler : option close_handler;
}.

Record ntyco_connector_context_t := ConnectorContext {
  nc_host : bytes;
  nc_port : Z;
  nc_fd : Z;
  nc_open_handler : kvs_connection_open_handler;
  nc_message_handler : msg_handler (V := V);
  nc_stream_handler : option stream_handler;
  nc_close_handler : close_handler;
}.

(** A coroutine: [server], [ntyco_connector] or [server_reader] with its argument. *)
Inductive task :=
  | Server_task (context : ntyco_listener_context_t)
  | Connector_task (context : ntyco_connector_context_t)
  | Reader_task (context : ntyco_connection_context_t (V := V)).
End data.
Arguments kvs_listener_config_t : clear implicits.
Arguments kvs_connector_config_t : clear implicits.
Arguments ntyco_listener_context_t : clear implicits.
Arguments ntyco_connector_context_t : clear implicits.
Arguments task : clear implicits.

(** The sockets and the scheduler. *)
Class Service (N V : Type) := {
  (** the open sockets, the address a socket is bound to, and whether it listens *)
  sockets : N → gset Z;
  bound : N → Z → option (bytes * Z);
  listening : N → Z → bool;
  (** the coroutines created, in their order *)
  tasks : N → list (task V);
  (** in a state in which they are available, the calls on sockets and the creation
      of coroutines succeed *)
  available : N → Prop;
  nty_socket : M (N * V) Z;
  sys_bind : Z → bytes → Z → M (N * V) Z;
  sys_listen : Z → Z → M (N * V) Z;
  sys_close : Z → M (N * V) unit;
  nty_connect : Z → bytes → Z → M (N * V) Z;
  nty_accept : Z → M (N * V) Z;
  nty_coroutine_create : task V → M (N * V) Z;
  nty_schedule_run : M (N * V) unit;
}.

(** * Definitions *)

Section ops.
Context {N V RT : Type} `{!Net N V} `{!Service N V} `{!CRuntime RT} `{!HasHeap V RT} `{!Inet}.
Notation W := (N * V)%type.
Notation listener_context := (ntyco_listener_context_t V).
Notation connector_context := (ntyco_connector_context_t V).

(** ** Contexts *)

Definition ntyco_listener_context_init (config : kvs_listener_config_t V) : option listener_context :=
  if li_port config =? 0 then None else
  handler ← li_handler config;
  Some (ListenerContext (li_port config) (li_bind_ip config) (-1) handler (li_stream_handler config)
    (li_replication_handler config) (li_replication_stream_handler config) (li_replication_close_handler config)).

Definition ntyco_connector_context_init (config : kvs_connector_config_t V) : option connector_context :=
  host ← cn_host config;
  if bool_decide (host = []) || (cn_port config =? 0) then None else
  open_handler ← cn_open_handler config;
  message_handler ← cn_message_handler config;
  close_handler ← cn_close_handler config;
  Some (ConnectorContext host (cn_port config) (-1) open_handler message_handler (cn_stream_handler config) close_handler).

Definition set_listen_fd (fd : Z) (c : listener_context) : listener_context :=
  ListenerContext (lc_port c) (lc_bind_ip c) fd (lc_handler c) (lc_stream_handler c)
    (lc_replication_handler c) (lc_replication_stream_handler c) (lc_replication_close_handler c).

Definition ntyco_listener_context_destroy (c : listener_context) : M W listener_context :=
  if 0 <=? lc_listen_fd c then
    sys_close (lc_listen_fd c);;
    mret (set_listen_fd (-1) c)
  else mret c.

(** The loops that destroy the contexts initialised. *)
Fixpoint destroy_contexts (contexts : list listener_context) : M W unit :=
  match contexts with
  | [] => mret tt
  | c :: contexts => ntyco_listener_context_destroy c;; destroy_contexts contexts
  end.

Definition ntyco_listener_open (c : listener_context) : M W (Z * listener_context) :=
  let ip := default ANY_ADDRESS (lc_bind_ip c) in
  if negb (inet_pton ip) then mret (-1, c) else
  fd ← nty_socket;
  if fd <? 0 then mret (-1, c) else
  r ← sys_bind fd ip (lc_port c);
  if r <? 0 then sys_close fd;; mret (-1, c) else
  r ← sys_listen fd LISTEN_BACKLOG;
  if r <? 0 then sys_close fd;; mret (-1, c) else
  mret (0, set_listen_fd fd c).

(** ** The coroutine of a connector *)

(** [None] when it has ended before the reader. *)
Definition ntyco_connector (turns : nat) (c : connector_context) : M W (option reader) :=
  if negb (inet_pton (nc_host c)) then mret None else
  fd ← nty_socket;
  if fd <? 0 then mret None else
  r ← nty_connect fd (nc_host c) (nc_port c);
  if negb (r =? 0) then nty_close fd;; mret None else
  '(ret, output) ← on_net_heap (kvs_output_buffer_ensure_space (OutputBuffer None 0 0 0) BUFFER_LENGTH);
  if ret <? 0 then
    nty_close fd;;
    on_state (nc_close_handler c fd);;
    on_net_heap (kvs_output_buffer_free output);;
    mret None
  else
  '(length, written) ← on_state (nc_open_handler c fd BUFFER_LENGTH);
  '(p, block) ← deref (o_data output);
  let block := store 0 (Some <$> written) block in
  let output := OutputBuffer (Some (p, block)) length (o_offset output) (o_capacity output) in
  if (length <? 0) || (BUFFER_LENGTH <? length) then
    nty_close fd;;
    on_state (nc_close_handler c fd);;
    on_net_heap (kvs_output_buffer_free output);;
    mret None
  else
  data ← deref (cell_bytes (take (Z.to_nat length) block));
  k ← net_interruptions_left;
  r ← send_loop (List.length data + k) fd data;
  if r <? 0 then
    nty_close fd;;
    on_state (nc_close_handler c fd);;
    on_net_heap (kvs_output_buffer_free output);;
    mret None
  else
  on_net_heap (kvs_output_buffer_free output);;
  r ← server_reader turns (ConnectionContext fd (nc_message_handler c) (nc_stream_handler c) (Some (nc_close_handler c)) None None None 0 None);
  mret (Some r).

(** ** The coroutine of a listener *)

(** The deadline of an accepted connection; [None] when the clock fails. *)
Definition identification_deadline (c : listener_context) : M W (option Z) :=
  match lc_replication_handler c with
  | None => mret (Some 0)
  | Some _ =>
      now ← clock_monotonic_ms;
      mret ((λ t, t + NTYCO_IDENTIFICATION_TIMEOUT_MS) <$> now)
  end.

(** The body of the loop of [server] behind [nty_accept]. *)
Definition accept_connection (c : listener_context) (cli_fd : Z) : M W unit :=
  if cli_fd <? 0 then mret tt else
  deadline ← identification_deadline c;
  match deadline with
  | None => nty_close cli_fd
  | Some deadline =>
      p ← on_net_heap (kvs_malloc CONTEXT_SIZE);
      match p with
      | None => nty_close cli_fd
      | Some p =>
          r ← nty_coroutine_create (Reader_task (ConnectionContext cli_fd (lc_handler c) (lc_stream_handler c) None (Some p)
            (lc_replication_handler c) (lc_replication_stream_handler c) deadline (lc_replication_close_handler c)));
          if r =? 0 then mret tt else
          nty_close cli_fd;;
          on_net_heap (kvs_free (Some p))
      end
  end.
Definition accept_turn (c : listener_context) : M W unit :=
  cli_fd ← nty_accept (lc_listen_fd c);
  accept_connection c cli_fd.
Fixpoint accept_turns (turns : nat) (c : listener_context) : M W unit :=
  match turns with
  | O => mret tt
  | S turns => accept_turn c;; accept_turns turns c
  end.
Definition ntyco_server (turns : nat) (c : listener_context) : M W unit :=
  if lc_listen_fd c <? 0 then mret tt else accept_turns turns c.

(** ** The start *)

(** The first [n] elements of the array at a pointer. *)
Definition array_prefix {X} (p : option (list X)) (n : Z) : option (list X) :=
  l ← (if n =? 0 then Some (default [] p) else p);
  if n <=? zlen l then Some (take (Z.to_nat n) l) else None.

(** The loops that open the listeners and create the coroutines. *)
Fixpoint open_listeners (opened rest : list listener_context) : M W (Z * list listener_context) :=
  match rest with
  | [] => mret (0, opened)
  | c :: rest =>
      '(r, c) ← ntyco_listener_open c;
      if r <? 0 then mret (-1, opened ++ c :: rest) else open_listeners (opened ++ [c]) rest
  end.
Fixpoint create_coroutines (l : list (task V)) : M W Z :=
  match l with
  | [] => mret 0
  | t :: l =>
      r ← nty_coroutine_create t;
      if negb (r =? 0) then mret (-1) else create_coroutines l
  end.

Definition ntyco_start_runtime (listeners : option (list (kvs_listener_config_t V))) (listener_count : Z)
    (connectors : option (list (kvs_connector_config_t V))) (connector_count : Z) : M W Z :=
  if bool_decide (is_Some listeners) && negb ((listener_count =? 0) || (NTYCO_MAX_LISTENER_COUNT <? listener_count)) then
    if (NTYCO_MAX_CONNECTOR_COUNT <? connector_count) || (0 <? connector_count) && negb (bool_decide (is_Some connectors)) then mret (-1) else
    listener_configs ← deref (array_prefix listeners listener_count);
    connector_configs ← deref (array_prefix connectors connector_count);
    (* the contexts initialised before a failure have no socket yet, so that destroying them does nothing *)
    match mapM ntyco_listener_context_init listener_configs, mapM ntyco_connector_context_init connector_configs with
    | Some contexts, Some connector_contexts =>
        '(r, contexts) ← open_listeners [] contexts;
        if r <? 0 then destroy_contexts contexts;; mret (-1) else
        r ← create_coroutines (Server_task <$> contexts);
        if r <? 0 then destroy_contexts contexts;; mret (-1) else
        r ← create_coroutines (Connector_task <$> connector_contexts);
        if r <? 0 then destroy_contexts contexts;; mret (-1) else
        nty_schedule_run;;
        destroy_contexts contexts;;
        mret 0
    | _, _ => mret (-1)
    end
  else mret (-1).

Definition ntyco_start_listeners (listeners : option (list (kvs_listener_config_t V))) (listener_count : Z) : M W Z :=
  ntyco_start_runtime listeners listener_count None 0.

Definition ntyco_start (port : Z) (handler : option (msg_handler (V := V))) : M W Z :=
  ntyco_start_listeners (Some [ListenerConfig port handler None None None None None]) 1.
End ops.

(** * The laws of the interface *)

Section laws_of.
Context {N V : Type} `{!Service N V}.
Implicit Types n : N.

(** Nothing changes but the socket [fd]. *)
Definition others_bound fd n n' : Prop := ∀ x, x ≠ fd → bound n' x = bound n x ∧ listening n' x = listening n x.
Definition service_same n n' : Prop :=
  sockets n' = sockets n ∧ tasks n' = tasks n ∧ ∀ x, bound n' x = bound n x ∧ listening n' x = listening n x.
Definition socket_closed fd n n' : Prop := sockets n' = sockets n ∖ {[fd]} ∧ tasks n' = tasks n ∧ others_bound fd n n'.
Definition traffic_kept `{!Net N V} n n' : Prop := ∀ x, net_in n' x = net_in n x ∧ net_out n' x = net_out n x.
End laws_of.

(** A socket is new when it is made; calls on it leave the other sockets alone; a
    coroutine created is behind the others; the sockets that listen when the scheduler
    starts are open when it ends.  [others] is what coroutines do to the program. *)
Class ServiceLaws (N V : Type) `{Net N V} `{Service N V} (others : V → V → Prop) : Prop := {
  socket_law n v : wp nty_socket (n, v) (λ fd '(n', v'), v' = v ∧ (available n → available n' ∧ 0 ≤ fd) ∧
    (fd < 0 ∧ service_same n n' ∨
     0 ≤ fd ∧ fd ∉ sockets n ∧ sockets n' = {[fd]} ∪ sockets n ∧ tasks n' = tasks n ∧ others_bound fd n n' ∧ net_in n' fd = [] ∧ net_out n' fd = []));
  bind_law fd ip port n v : wp (sys_bind fd ip port) (n, v) (λ r '(n', v'), v' = v ∧ sockets n' = sockets n ∧ tasks n' = tasks n ∧
    others_bound fd n n' ∧ (available n → available n' ∧ 0 ≤ r) ∧ (0 ≤ r → bound n' fd = Some (ip, port)));
  listen_law fd backlog n v : wp (sys_listen fd backlog) (n, v) (λ r '(n', v'), v' = v ∧ sockets n' = sockets n ∧ tasks n' = tasks n ∧
    others_bound fd n n' ∧ (available n → available n' ∧ 0 ≤ r) ∧ bound n' fd = bound n fd ∧ (0 ≤ r → listening n' fd = true));
  sys_close_law fd n v : wp (sys_close fd) (n, v) (λ _ '(n', v'), v' = v ∧ socket_closed fd n n');
  nty_close_law fd n v : wp (nty_close fd) (n, v) (λ _ '(n', v'), v' = v ∧ socket_closed fd n n');
  clock_service_law n v : wp clock_monotonic_ms (n, v) (λ t '(n', v'), v' = v ∧ service_same n n' ∧ traffic_kept n n' ∧
    match t with Some t => net_clock n ≤ t | None => True end);
  connect_law fd ip port n v : wpx (nty_connect fd ip port) (n, v) (λ _ '(n', v'), others v v' ∧
    net_in n' fd = net_in n fd ∧ net_out n' fd = net_out n fd) (λ _, True);
  accept_law fd n v : wpx (nty_accept fd) (n, v) (λ r '(n', v'), others v v' ∧
    (0 ≤ r → r ∈ sockets n' ∧ net_in n' r = [] ∧ net_out n' r = [])) (λ _, True);
  create_law t n v : wp (nty_coroutine_create t) (n, v) (λ r '(n', v'), v' = v ∧ sockets n' = sockets n ∧ (available n → available n' ∧ r = 0) ∧
    (∀ x, bound n' x = bound n x ∧ listening n' x = listening n x) ∧ traffic_kept n n' ∧
    (r = 0 ∧ tasks n' = tasks n ++ [t] ∨ r ≠ 0 ∧ tasks n' = tasks n));
  schedule_law n v : wpx nty_schedule_run (n, v) (λ _ '(n', v'), rtc others v v') (λ _, True);
}.

(** * The start of the listeners *)

Section start.
Context {N V RT : Type} `{!Net N V} `{!Service N V} `{!CRuntime RT} `{!CRuntimeLaws RT} `{!HasHeap V RT} `{!Inet}
  (others : V → V → Prop) `{!ServiceLaws N V others}.
Notation W := (N * V)%type.
Notation listener_context := (ntyco_listener_context_t V).
Notation connector_context := (ntyco_connector_context_t V).
Implicit Types (n : N) (v : V) (w : W) (c : listener_context) (own : list addr).

Definition listener_ip c : bytes := default ANY_ADDRESS (lc_bind_ip c).
Definition fds_of (contexts : list listener_context) : list Z := lc_listen_fd <$> contexts.

(** The listener's socket listens at the configured address. *)
Definition listens n c : Prop :=
  0 ≤ lc_listen_fd c ∧ lc_listen_fd c ∈ sockets n ∧ bound n (lc_listen_fd c) = Some (listener_ip c, lc_port c) ∧ listening n (lc_listen_fd c) = true.

(** The contexts made of [configs], with a socket each. *)
Definition listener_of (config : kvs_listener_config_t V) c : Prop :=
  inet_pton (listener_ip c) = true ∧ set_listen_fd (lc_listen_fd c) <$> ntyco_listener_context_init config = Some c.

(** What opening the listener [c] leaves. *)
Definition listener_opened n v c (r : Z) c' n' v' : Prop :=
  v' = v ∧ tasks n' = tasks n ∧ (available n → inet_pton (listener_ip c) = true → available n' ∧ r = 0) ∧
  (r = -1 ∧ c' = c ∧ sockets n' = sockets n ∧ (∀ x, x ∈ sockets n → bound n' x = bound n x ∧ listening n' x = listening n x) ∨
   r = 0 ∧ inet_pton (listener_ip c) = true ∧ ∃ fd, c' = set_listen_fd fd c ∧ fd ∉ sockets n ∧ sockets n' = {[fd]} ∪ sockets n ∧
     others_bound fd n n' ∧ listens n' c').

Lemma listener_open_spec c n v : wp (ntyco_listener_open c) (n, v) (λ '(r, c') '(n', v'), listener_opened n v c r c' n' v').
Proof.
  unfold ntyco_listener_open. fold (listener_ip c). destruct (inet_pton (listener_ip c)) eqn:Hip; cbn [negb]; cycle 1.
  { apply wp_ret. split; [done|]. split; [done|]. split; [congruence|]. left. by split_and!. }
  eapply wp_step; [apply socket_law|]. intros fd [n1 v1] (-> & Ha1 & [(Hfd & Hs1 & Ht1 & Hb1)|(Hfd & Hnew & Hs1 & Ht1 & Hb1 & _)]).
  { rewrite (proj2 (Z.ltb_lt fd 0)) by done. apply wp_ret. split; [done|]. split; [done|]. split; [intros [_ ?]%Ha1; lia|].
    left. split; [done|]. split; [done|]. split; [done|]. intros x _. apply Hb1. }
  rewrite (proj2 (Z.ltb_ge fd 0)) by done.
  assert (∀ n2 : N, sockets n2 = sockets n1 → tasks n2 = tasks n1 → others_bound fd n1 n2 → (available n → False) →
    wp (sys_close fd;; mret (-1, c)) (n2, v) (λ '(r, c') '(n', v'), listener_opened n v c r c' n' v')) as Hclose.
  { intros n2 Hs2 Ht2 Hb2 Ha. eapply wp_step; [apply sys_close_law|]. intros _ [n3 v3] (-> & Hs3 & Ht3 & Hb3). apply wp_ret.
    split; [done|]. split; [congruence|]. split; [by intros ?%Ha|]. left. split; [done|]. split; [done|]. split; [rewrite Hs3, Hs2, Hs1; set_solver|].
    intros x Hx. assert (x ≠ fd) as Hne by set_solver. destruct (Hb1 x Hne), (Hb2 x Hne), (Hb3 x Hne). split; congruence. }
  eapply wp_step; [apply bind_law|]. intros r [n2 v2] (-> & Hs2 & Ht2 & Hb2 & Ha2 & Hbound). destruct (Z.ltb_spec r 0).
  { apply Hclose; [done..|]. intros [? _]%Ha1. destruct Ha2 as [_ ?]; [done|lia]. }
  eapply wp_step; [apply listen_law|]. intros r2 [n3 v3] (-> & Hs3 & Ht3 & Hb3 & Ha3 & Hbound3 & Hlist). destruct (Z.ltb_spec r2 0).
  { apply Hclose; [congruence|congruence| |].
    - intros x Hx. destruct (Hb2 x Hx), (Hb3 x Hx). split; congruence.
    - intros [? _]%Ha1. destruct Ha2 as [? _]; [done|]. destruct Ha3 as [_ ?]; [done|lia]. }
  apply wp_ret. split; [done|]. split; [congruence|]. split; [intros [? _]%Ha1 _; split; [by apply Ha3, Ha2|done]|].
  right. split; [done|]. split; [done|]. exists fd. split; [done|]. split; [done|].
  split; [congruence|]. split; [intros x Hx; destruct (Hb1 x Hx), (Hb2 x Hx), (Hb3 x Hx); split; congruence|].
  split; [done|]. split; [cbn; rewrite Hs3, Hs2, Hs1; set_solver|]. split; [cbn; rewrite Hbound3; by apply Hbound|cbn; by apply Hlist].
Qed.

(** The open sockets are those of before, [S0], and the ones of [contexts]. *)
Definition sockets_with n (S0 : gset Z) (contexts : list listener_context) : Prop :=
  (∀ x, x ∈ sockets n ↔ x ∈ S0 ∨ 0 ≤ x ∧ x ∈ fds_of contexts) ∧ (∀ x, 0 ≤ x → x ∈ fds_of contexts → x ∉ S0).

Lemma listens_kept fd n n' c : others_bound fd n n' → sockets n ⊆ sockets n' → fd ∉ sockets n → listens n c → listens n' c.
Proof.
  intros Hb Hs Hnew (Hfd & Hin & Hbd & Hl). assert (lc_listen_fd c ≠ fd) as Hne by congruence. destruct (Hb _ Hne) as [E1 E2].
  split; [done|]. split; [set_solver|]. split; congruence.
Qed.

(** The loop over the listeners: [opened] have their sockets, the others none yet. *)
Lemma open_listeners_spec opened rest n v (S0 : gset Z) :
  Forall (listens n) opened → NoDup (fds_of opened) → sockets_with n S0 opened → Forall (λ c, lc_listen_fd c = -1) rest →
  wp (open_listeners opened rest) (n, v) (λ '(r, l) '(n', v'), v' = v ∧ tasks n' = tasks n ∧ sockets_with n' S0 l ∧
    (available n → Forall (λ c, inet_pton (listener_ip c) = true) rest → available n' ∧ r = 0) ∧
    (r = -1 ∨ r = 0 ∧ Forall (listens n') l ∧ NoDup (fds_of l) ∧
       ∃ made, l = opened ++ made ∧ Forall2 (λ c c', inet_pton (listener_ip c) = true ∧ c' = set_listen_fd (lc_listen_fd c') c) rest made)).
Proof.
  revert opened n. induction rest as [|c rest IH]; intros opened n Hl Hnd [Hs Hdis] Hrest; cbn [open_listeners].
  { apply wp_ret. do 3 (split; [done|]). split; [done|]. right. do 3 (split; [done|]). exists []. by rewrite app_nil_r. }
  apply Forall_cons in Hrest as [Hc Hrest]. eapply wp_step; [apply listener_open_spec|].
  intros [r c'] [n1 v1] (-> & Ht1 & Ha1 & [(-> & -> & Hs1 & _)|(-> & Hip & fd & -> & Hnew & Hs1 & Hb1 & Hl1)]); cbn [Z.ltb Z.compare].
  { apply wp_ret. split; [done|]. split; [done|]. split; [|split; [|by left]].
    2:{ intros Ha [Hip _]%Forall_cons. by destruct (Ha1 Ha Hip). }
    assert (Forall (λ fd, fd = -1) (fds_of (c :: rest))) as Hneg by (apply Forall_fmap, Forall_cons; by split).
    rewrite Forall_forall in Hneg. assert (∀ x, 0 ≤ x → x ∈ fds_of (opened ++ c :: rest) ↔ x ∈ fds_of opened) as Hin.
    { intros x Hx. unfold fds_of in *. rewrite fmap_app, elem_of_app. split; [|by left]. intros [?|Hin%Hneg]; [done|lia]. }
    split; [intros x; rewrite Hs1, Hs|intros x Hx; rewrite Hin by done; by apply Hdis].
    split; (intros [?|[Hx ?]]; [by left|right; split; [done|by apply Hin]]). }
  assert (sockets n ⊆ sockets n1) as Hsub by set_solver.
  assert (0 ≤ fd) as Hfd by apply Hl1.
  assert (fd ∉ fds_of opened) as Hfresh by (intros Hin; apply Hnew, Hs; by right).
  assert (fds_of (opened ++ [set_listen_fd fd c]) = fds_of opened ++ [fd]) as Efds by (unfold fds_of; by rewrite fmap_app).
  eapply wp_mono.
  - apply (IH (opened ++ [set_listen_fd fd c]) n1); [| | |done].
    + apply Forall_app. split; [|by apply Forall_singleton]. eapply Forall_impl; [exact Hl|]. intros x. by apply (listens_kept fd n).
    + rewrite Efds. apply NoDup_app. split; [done|]. split; [|apply NoDup_singleton]. intros x Hx ->%list_elem_of_singleton. done.
    + split; intros x; rewrite Efds, elem_of_app, list_elem_of_singleton; [rewrite Hs1, elem_of_union, elem_of_singleton, Hs; naive_solver|].
      intros Hx [?| ->]; [by apply Hdis|]. intros ?. apply Hnew, Hs. by left.
  - intros [r l] [n2 v2] (-> & Ht2 & Hs2 & Ha2 & Hr). split; [done|]. split; [congruence|]. split; [done|].
    split; [intros Ha [_ Hips]%Forall_cons; by apply Ha2; [apply Ha1|]|].
    destruct Hr as [?|(-> & Hl2 & Hnd2 & made & -> & Hm)]; [by left|right]. do 3 (split; [done|]).
    exists (set_listen_fd fd c :: made). rewrite <- app_assoc. split; [done|]. constructor; [by split|done].
Qed.

Lemma context_destroy_spec c n v :
  wp (ntyco_listener_context_destroy c) (n, v) (λ _ '(n', v'), v' = v ∧ tasks n' = tasks n ∧
    ∀ x, x ∈ sockets n' ↔ x ∈ sockets n ∧ ¬ (0 ≤ x ∧ x = lc_listen_fd c)).
Proof.
  unfold ntyco_listener_context_destroy. destruct (Z.leb_spec 0 (lc_listen_fd c)).
  - eapply wp_step; [apply sys_close_law|]. intros _ [n1 v1] (-> & Hs & Ht & _). apply wp_ret. split; [done|]. split; [done|].
    intros x. rewrite Hs, elem_of_difference, elem_of_singleton. naive_solver.
  - apply wp_ret. split; [done|]. split; [done|]. intros x. split; [|by intros [? _]]. intros Hx. split; [done|]. intros [? ->]. lia.
Qed.

Lemma destroy_contexts_spec contexts n v :
  wp (destroy_contexts contexts) (n, v) (λ _ '(n', v'), v' = v ∧ tasks n' = tasks n ∧
    ∀ x, x ∈ sockets n' ↔ x ∈ sockets n ∧ ¬ (0 ≤ x ∧ x ∈ fds_of contexts)).
Proof.
  revert n. induction contexts as [|c contexts IH]; intros n; cbn [destroy_contexts].
  { apply wp_ret. split; [done|]. split; [done|]. intros x. cbn. set_solver. }
  eapply wp_step; [apply context_destroy_spec|]. intros _ [n1 v1] (-> & Ht1 & Hs1).
  eapply wp_mono; [apply IH|]. intros _ [n2 v2] (-> & Ht2 & Hs2). split; [done|]. split; [congruence|].
  intros x. rewrite Hs2, Hs1. unfold fds_of. rewrite fmap_cons, elem_of_cons. naive_solver.
Qed.

(** Releasing all of them gives the sockets of before. *)
Lemma destroy_all_spec contexts n v S0 : sockets_with n S0 contexts →
  wp (destroy_contexts contexts;; mret (-1)) (n, v) (λ r '(n', v'), r = -1 ∧ v' = v ∧ sockets n' = S0).
Proof.
  intros [Hs Hdis]. eapply wp_step; [apply destroy_contexts_spec|]. intros _ [n1 v1] (-> & _ & Hs1). apply wp_ret.
  split; [done|]. split; [done|]. apply set_eq. intros x. rewrite Hs1, Hs. naive_solver.
Qed.

Lemma create_coroutines_spec l n v :
  wp (create_coroutines l) (n, v) (λ r '(n', v'), v' = v ∧ sockets n' = sockets n ∧ (available n → available n' ∧ r = 0) ∧
    (∀ x, bound n' x = bound n x ∧ listening n' x = listening n x) ∧ (r = 0 ∧ tasks n' = tasks n ++ l ∨ r = -1)).
Proof.
  revert n. induction l as [|t l IH]; intros n; cbn [create_coroutines].
  { apply wp_ret. do 4 (split; [done|]). left. by rewrite app_nil_r. }
  eapply wp_step; [apply create_law|]. intros r [n1 v1] (-> & Hs1 & Ha1 & Hb1 & _ & [(-> & Ht1)|(Hr & Ht1)]).
  - cbn [Z.eqb negb]. eapply wp_mono; [apply IH|]. intros r [n2 v2] (-> & Hs2 & Ha2 & Hb2 & Hr). split; [done|]. split; [congruence|].
    split; [intros [? _]%Ha1; by apply Ha2|].
    split; [intros x; destruct (Hb1 x), (Hb2 x); split; congruence|]. destruct Hr as [[-> Ht2]|?]; [left|by right].
    split; [done|]. by rewrite Ht2, Ht1, <- app_assoc.
  - rewrite (proj2 (Z.eqb_neq r 0)) by done. apply wp_ret. do 2 (split; [done|]). split; [intros [_ ?]%Ha1; done|]. split; [done|by right].
Qed.

Lemma listens_same n n' c : sockets n' = sockets n → (∀ x, bound n' x = bound n x ∧ listening n' x = listening n x) → listens n c → listens n' c.
Proof. intros Hs Hb (Hfd & Hin & Hbd & Hl). destruct (Hb (lc_listen_fd c)) as [E1 E2]. split; [done|]. split; [by rewrite Hs|]. split; congruence. Qed.

Lemma sockets_with_same n n' S0 l : sockets n' = sockets n → sockets_with n S0 l → sockets_with n' S0 l.
Proof. intros Hs [H1 H2]. split; [by rewrite Hs|done]. Qed.

(** What the scheduler starts with: a listener for every configuration, each listening
    at its address, and a coroutine for each listener and each connector. *)
Definition launched (listeners : list (kvs_listener_config_t V)) (connectors : list (kvs_connector_config_t V)) n (contexts : list listener_context) n' : Prop :=
  Forall2 listener_of listeners contexts ∧ Forall (listens n') contexts ∧ NoDup (fds_of contexts) ∧ sockets_with n' (sockets n) contexts ∧
  ∃ connector_contexts, mapM ntyco_connector_context_init connectors = Some connector_contexts ∧
    tasks n' = tasks n ++ (Server_task <$> contexts) ++ (Connector_task <$> connector_contexts).

Lemma init_listeners_fd listeners contexts : mapM ntyco_listener_context_init listeners = Some contexts → Forall (λ c, lc_listen_fd c = -1) contexts.
Proof.
  intros Hm%mapM_Some. induction Hm as [|cfg c listeners contexts Hc _ IH]; constructor; [|done].
  unfold ntyco_listener_context_init in Hc. destruct (li_port cfg =? 0); [done|]. cbn in Hc. destruct (li_handler cfg); [|done]. by injection Hc as <-.
Qed.

Lemma array_prefix_all {X} (l : list X) : array_prefix (Some l) (zlen l) = Some l.
Proof.
  unfold array_prefix. assert ((if zlen l =? 0 then Some (default [] (Some l)) else Some l) = Some l) as -> by (by destruct (zlen l =? 0)).
  cbn. rewrite (proj2 (Z.leb_le _ _)) by done. f_equal. apply take_ge. unfold zlen. lia.
Qed.

(** The counts and the configurations are right. *)
Definition configured (listeners : list (kvs_listener_config_t V)) (connectors : list (kvs_connector_config_t V)) : Prop :=
  0 < zlen listeners ≤ NTYCO_MAX_LISTENER_COUNT ∧ zlen connectors ≤ NTYCO_MAX_CONNECTOR_COUNT ∧
  Forall (λ config, ∃ c, ntyco_listener_context_init config = Some c ∧ inet_pton (listener_ip c) = true) listeners ∧
  Forall (λ config, is_Some (ntyco_connector_context_init config)) connectors.

(** What a start does: nothing, or everything. *)
Definition served_or_not listeners connectors n v (r : Z) n' v' : Prop :=
  (r = -1 ∧ v' = v ∧ sockets n' = sockets n ∧ (available n → configured listeners connectors → False)) ∨
  r = 0 ∧ rtc others v v' ∧ ∃ contexts n1, launched listeners connectors n contexts n1 ∧ Forall (λ c, lc_listen_fd c ∉ sockets n') contexts.

Lemma start_runtime_spec listeners connectors n v :
  wpx (ntyco_start_runtime (Some listeners) (zlen listeners) (Some connectors) (zlen connectors)) (n, v)
    (λ r '(n', v'), served_or_not listeners connectors n v r n' v') (λ _, True).
Proof.
  unfold ntyco_start_runtime. rewrite bool_decide_eq_true_2 by done.
  destruct (negb _) eqn:Hcount; cbn [andb].
  2:{ apply wpx_ret. left. do 3 (split; [done|]). intros _ ([Hpos Hmax] & _). apply negb_false_iff, orb_true_iff in Hcount as [?%Z.eqb_eq|?%Z.ltb_lt]; lia. }
  destruct ((NTYCO_MAX_CONNECTOR_COUNT <? zlen connectors) || _) eqn:Hcn.
  { apply wpx_ret. left. do 3 (split; [done|]). intros _ (_ & Hmax & _). rewrite bool_decide_eq_true_2, andb_false_r, orb_false_r in Hcn by done. apply Z.ltb_lt in Hcn. lia. }
  rewrite !array_prefix_all. do 2 (eapply wpx_eq; [done|]; cbv beta).
  destruct (mapM ntyco_listener_context_init listeners) as [contexts0|] eqn:Hi.
  2:{ apply wpx_ret. left. do 3 (split; [done|]). intros _ (_ & _ & Hls & _). apply mapM_None, Exists_exists in Hi as (cfg & Hin & Hnone).
      rewrite Forall_forall in Hls. destruct (Hls cfg Hin) as (c & E & _). congruence. }
  destruct (mapM ntyco_connector_context_init connectors) as [connector_contexts|] eqn:Hci.
  2:{ apply wpx_ret. left. do 3 (split; [done|]). intros _ (_ & _ & _ & Hcs). apply mapM_None, Exists_exists in Hci as (cfg & Hin & Hnone).
      rewrite Forall_forall in Hcs. destruct (Hcs cfg Hin) as (c & E). congruence. }
  assert (sockets_with n (sockets n) []) as Hs0 by (split; intros x; cbn; set_solver).
  assert (configured listeners connectors → Forall (λ c, inet_pton (listener_ip c) = true) contexts0) as Hips.
  { intros (_ & _ & Hls & _). apply mapM_Some in Hi. clear -Hi Hls. induction Hi as [|cfg c l k Hc _ IH]; [done|]. apply Forall_cons in Hls as [(c' & E & Hip) Hls].
    constructor; [congruence|by apply IH]. }
  eapply wpx_step; [apply (open_listeners_spec [] contexts0 n v (sockets n)); [done|apply NoDup_nil_2|done|by eapply init_listeners_fd]|].
  intros [r contexts] [n1 v1] (-> & Ht1 & Hs1 & Ha1 & Hr).
  assert (∀ n2 : N, sockets n2 = sockets n1 → (available n → configured listeners connectors → False) →
    wpx (destroy_contexts contexts;; mret (-1)) (n2, v) (λ r '(n', v'), served_or_not listeners connectors n v r n' v') (λ _, True)) as Hfail.
  { intros n2 Hs2 Ha. apply wp_wpx. eapply wp_mono; [apply (destroy_all_spec contexts n2 v (sockets n)); by eapply sockets_with_same|].
    intros r0 [n3 v3] (-> & -> & Hs3). by left. }
  destruct Hr as [->|(-> & Hl1 & Hnd & made & -> & Hmade)]; cbn [Z.ltb Z.compare].
  { apply Hfail; [done|]. intros Ha Hc. by destruct (Ha1 Ha (Hips Hc)). }
  rewrite app_nil_l in *.
  eapply wpx_step; [apply create_coroutines_spec|]. intros r [n2 v2] (-> & Hs2 & Ha2 & Hb2 & Hr). destruct (Z.ltb_spec r 0).
  { apply Hfail; [done|]. intros Ha Hc. destruct (Ha1 Ha (Hips Hc)) as [Ha' _]. destruct (Ha2 Ha'). lia. }
  destruct Hr as [[-> Ht2]| ->]; [|lia].
  eapply wpx_step; [apply create_coroutines_spec|]. intros r [n3 v3] (-> & Hs3 & Ha3 & Hb3 & Hr). destruct (Z.ltb_spec r 0).
  { apply Hfail; [congruence|]. intros Ha Hc. destruct (Ha1 Ha (Hips Hc)) as [Ha' _]. destruct (Ha2 Ha') as [Ha'' _]. destruct (Ha3 Ha''). lia. }
  destruct Hr as [[-> Ht3]| ->]; [|lia].
  eapply wpx_stepx; [apply schedule_law|]. intros _ [n4 v4] Ho.
  eapply wpx_step; [apply destroy_contexts_spec|]. intros _ [n5 v5] (-> & _ & Hs5). apply wpx_ret. right. split; [done|]. split; [done|].
  exists made, n3.
  assert (Forall (listens n3) made) as Hl3.
  { eapply Forall_impl; [exact Hl1|]. intros c Hc. by eapply listens_same, listens_same. }
  split.
  - split; [|split; [done|split; [done|split]]].
    + apply mapM_Some in Hi. clear -Hi Hmade. revert made Hmade. induction Hi as [|cfg c l k Hc _ IH]; intros made Hmade; inversion Hmade as [|? c' ? ? [Hip E] Hm]; subst; constructor; [|by apply IH].
      rewrite E. split; [done|]. cbn. by rewrite Hc.
    + eapply sockets_with_same, sockets_with_same; done.
    + exists connector_contexts. split; [done|]. by rewrite Ht3, Ht2, Ht1, <- app_assoc.
  - rewrite Forall_forall in Hl3 |- *. intros c Hc Hin. apply Hs5 in Hin as [_ Hin]. apply Hin. split; [by apply Hl3|]. by apply list_elem_of_fmap_2.
Qed.
End start.

(** * Accepting and connecting *)

Section connections.
Context {N V RT : Type} `{!Net N V} `{!Service N V} `{!CRuntime RT} `{!CRuntimeLaws RT} `{!HasHeap V RT} `{!Inet}
  (others : V → V → Prop) (sends : Z → bytes → Prop) `{!NetLaws N V others sends} `{!ServiceLaws N V others}
  (held : list addr → V → Prop)
  (held_heap : ∀ own v, held own v → ∃ F, owns own F (heap_of v) ∧ ∀ own' h, owns own' F h → held own' (set_heap h v))
  (held_others : ∀ own v v', held own v → others v v' → held own v').
Notation W := (N * V)%type.
Implicit Types (n : N) (v : V) (w : W) (c : ntyco_listener_context_t V) (own : list addr).

(** A call on the heap. *)
Lemma net_heap_spec {X} (m : M RT X) own (after : X → list addr) w (P : X → Prop) : held own w.2 →
  (∀ F, owns own F (heap_of w.2) → wp m (heap_of w.2) (λ x h, owns (after x) F h ∧ P x)) →
  wp (on_net_heap m) w (λ x w', w'.1 = w.1 ∧ held (after x) w'.2 ∧ P x ∧ ∃ h, w'.2 = set_heap h w.2).
Proof.
  destruct w as [n v]. intros Hh Hm. apply held_heap in Hh as (F & Ho & Hset). specialize (Hm F Ho). revert Hm.
  unfold wp, on_net_heap, on_state, zoom. cbn. destruct (m (heap_of v)); [|done..]. intros [Hx Hp]. split; [done|]. split; [by apply Hset|]. split; [done|by eexists].
Qed.

(** ** A connection is accepted *)

(** The reader gets the connection and the block of its context, with the handlers of
    the listener; otherwise the connection is closed and the block released. *)
Definition accepted c fd own n v n' v' : Prop :=
  if fd <? 0 then n' = n ∧ v' = v else
  (∃ p deadline, sockets n' = sockets n ∧ traffic_kept n n' ∧
     tasks n' = tasks n ++ [Reader_task (ConnectionContext fd (lc_handler c) (lc_stream_handler c) None (Some p)
       (lc_replication_handler c) (lc_replication_stream_handler c) deadline (lc_replication_close_handler c))] ∧
     held (p :: own) v' ∧
     match lc_replication_handler c with Some _ => net_clock n + NTYCO_IDENTIFICATION_TIMEOUT_MS ≤ deadline | None => deadline = 0 end) ∨
  sockets n' = sockets n ∖ {[fd]} ∧ tasks n' = tasks n ∧ held own v'.

Lemma accept_connection_spec c fd own n v : held own v →
  wp (accept_connection c fd) (n, v) (λ _ '(n', v'), accepted c fd own n v n' v').
Proof.
  intros Hh. unfold accept_connection, accepted. destruct (fd <? 0); [by apply wp_ret|].
  eapply (wp_step _ _ _ (λ d '(n', v'), v' = v ∧ sockets n' = sockets n ∧ tasks n' = tasks n ∧ traffic_kept n n' ∧
    match d with Some d => match lc_replication_handler c with Some _ => net_clock n + NTYCO_IDENTIFICATION_TIMEOUT_MS ≤ d | None => d = 0 end | None => True end)).
  { unfold identification_deadline. destruct (lc_replication_handler c); [|apply wp_ret; by split_and!].
    eapply wp_step; [apply clock_service_law|]. intros t [n1 v1] (-> & (Hs & Ht & _) & Htr & Hc). apply wp_ret. do 4 (split; [done|]).
    destruct t; cbn; [lia|done]. }
  intros [deadline|] [n1 v1] (-> & Hs1 & Ht1 & Htr1 & Hd).
  2:{ eapply wp_mono; [apply nty_close_law|]. intros _ [n2 v2] (-> & Hs2 & Ht2 & _). right. split; [congruence|]. split; [congruence|done]. }
  eapply wp_step.
  { apply (net_heap_spec (kvs_malloc CONTEXT_SIZE) own (λ p, option_list p ++ own) (n1, v) (λ _, True)); [done|].
    intros F Ho. eapply wp_mono; [by apply (wp_malloc CONTEXT_SIZE own F)|]. intros [p|] h [Hp _]; by split. }
  intros [p|] [n2 v2] (E & Hh2 & _ & _); cbn [fst snd option_list app] in *; subst n2.
  2:{ eapply wp_mono; [apply nty_close_law|]. intros _ [n2 v3] (-> & Hs2 & Ht2 & _). right. split; [congruence|]. split; [congruence|done]. }
  eapply wp_step; [apply create_law|]. intros r [n2 v3] (-> & Hs2 & _ & _ & Htr2 & [[-> Ht2]|[Hr Ht2]]).
  - apply wp_ret. left. exists p, deadline. split; [congruence|]. split; [|split; [congruence|by split]].
    intros x. destruct (Htr1 x), (Htr2 x). split; congruence.
  - rewrite (proj2 (Z.eqb_neq r 0)) by done. eapply wp_step; [apply nty_close_law|]. intros _ [n3 v3] (-> & Hs3 & Ht3 & _).
    eapply wp_mono.
    { apply (net_heap_spec (kvs_free (Some p)) (p :: own) (λ _, own) (n3, v2) (λ _, True)); [done|].
      intros F Ho. eapply wp_mono; [by apply wp_free|]. intros _ h [Hp _]. by split. }
    intros _ [n4 v4] (E & Hh4 & _ & _). cbn [fst snd] in *. subst n4. right. split; [congruence|]. split; [congruence|done].
Qed.

Lemma accept_turn_spec c own n v : held own v →
  wpx (accept_turn c) (n, v) (λ _ '(n', v'), ∃ fd n1 v1, others v v1 ∧ held own v1 ∧
    (0 ≤ fd → fd ∈ sockets n1 ∧ net_in n1 fd = [] ∧ net_out n1 fd = []) ∧ accepted c fd own n1 v1 n' v') (λ _, True).
Proof.
  intros Hh. unfold accept_turn. eapply wpx_stepx; [apply accept_law|]. intros fd [n1 v1] [Ho Hfd]. assert (held own v1) as Hh1 by (by eapply held_others).
  apply wp_wpx. eapply wp_mono; [by apply (accept_connection_spec c fd own)|]. intros _ [n2 v2] Ha. by exists fd, n1, v1.
Qed.

(** ** A connection is opened *)

Lemma rtc_keeps own v v' : held own v → rtc others v v' → held own v'.
Proof. intros Hh Hs. induction Hs as [v|v v1 v2 H1 _ IH]; [done|]. apply IH. by eapply held_others. Qed.

Lemma step_on_state {X Y} (m : M V X) (k : X → M W Y) n v (P : X → V → Prop) (Q : Y → W → Prop) :
  wpx m v P (λ _, True) → (∀ x v, P x v → wpx (k x) (n, v) Q (λ _, True)) → wpx (on_state m ≫= k) (n, v) Q (λ _, True).
Proof. unfold wpx, on_state, zoom, mbind, M_bind. cbn. intros Hm Hk. destruct (m v); [by apply Hk|done..]. Qed.

(** What the handlers of a connector do to the program; [greeted fd greeting v]: the
    connection was announced to it, with [greeting] as the first bytes to send. *)
Context (c : ntyco_connector_context_t V) (greeted : Z → bytes → V → Prop)
  (greet : ∀ fd own v, 0 ≤ fd → held own v → wpx (nc_open_handler c fd BUFFER_LENGTH) v (λ '(r, written) v', held own v' ∧
    (r < 0 ∨ r = zlen written ∧ r ≤ BUFFER_LENGTH ∧ greeted fd written v')) (λ _, True))
  (drop_it : ∀ fd own v, held own v → wpx (nc_close_handler c fd) v (λ _ v', held own v') (λ _, True)).
Notation reader_context fd := (ConnectionContext fd (nc_message_handler c) (nc_stream_handler c) (Some (nc_close_handler c)) None None None 0 None).

Lemma held_permuted own own' v : own ≡ₚ own' → held own v → ∃ F, owns own' F (heap_of v).
Proof. intros Hp Hh. apply held_heap in Hh as (F & Ho & _). exists F. by eapply owns_perm. Qed.

(** The greeting buffer is released. *)
Lemma step_free_output {Y} data capacity own n v (k : kvs_output_buffer_t → M W Y) (Q : Y → W → Prop) length offset :
  held (owned data ++ own) v → (∀ b h, held own (set_heap h v) → wpx (k b) (n, set_heap h v) Q (λ _, True)) →
  wpx (on_net_heap (kvs_output_buffer_free (OutputBuffer data length offset capacity)) ≫= k) (n, v) Q (λ _, True).
Proof.
  intros Hh Hk. eapply wpx_step.
  { apply (net_heap_spec _ (owned data ++ own) (λ _, own) (n, v) (λ _, True)); [done|].
    intros F Ho. unfold kvs_output_buffer_free. cbn [o_data]. eapply wp_step; [by apply free_block|]. intros _ h [Ho' _]. by apply wp_ret. }
  intros b [n1 v1] (E & Hh1 & _ & h & Eh). cbn [fst snd] in *. subst. by apply Hk.
Qed.

(** A connection that failed is closed, announced as such, and leaves no memory. *)
Lemma connector_drop fd data capacity own n v (Q : option (reader (V := V)) → W → Prop) length offset :
  held (owned data ++ own) v → (∀ n v, held own v → Q None (n, v)) →
  wpx (nty_close fd;; on_state (nc_close_handler c fd);; on_net_heap (kvs_output_buffer_free (OutputBuffer data length offset capacity));; mret None) (n, v) Q (λ _, True).
Proof.
  intros Hh HQ. eapply wpx_step; [apply nty_close_law|]. intros _ [n1 v1] (-> & _).
  eapply step_on_state; [by apply (drop_it fd)|]. intros ? v2 Hh2. cbv beta in Hh2. apply step_free_output with (own := own); [done|].
  intros b h Hh3. apply wpx_ret. by apply HQ.
Qed.

(** The reader is started once the greeting was sent. *)
Lemma connector_spec turns own n v (Q : option (reader (V := V)) → W → Prop) :
  held own v → (∀ n v, held own v → Q None (n, v)) →
  (∀ fd n1 v0 v0' h greeting, 0 ≤ fd → greeted fd greeting v0 → rtc others v0 v0' → held own (set_heap h v0') →
    net_in n1 fd = [] → net_out n1 fd = greeting →
    wpx (server_reader turns (reader_context fd)) (n1, set_heap h v0') (λ r, Q (Some r)) (λ _, True)) →
  wpx (ntyco_connector turns c) (n, v) Q (λ _, True).
Proof.
  intros Hh Hno Hyes. unfold ntyco_connector. destruct (inet_pton (nc_host c)); cbn [negb]; [|by apply wpx_ret, Hno].
  eapply wpx_step; [apply socket_law|]. intros fd [n1 v1] (-> & _ & [(Hfd & _)|(Hfd & _ & _ & _ & _ & Hin & Hout)]).
  { rewrite (proj2 (Z.ltb_lt fd 0)) by done. by apply wpx_ret, Hno. }
  rewrite (proj2 (Z.ltb_ge fd 0)) by done. eapply wpx_stepx; [apply connect_law|]. intros r [n2 v2] (Ho2 & Hin2 & Hout2).
  assert (held own v2) as Hh2 by (by eapply held_others). destruct (negb (r =? 0)).
  { eapply wpx_step; [apply nty_close_law|]. intros _ [n3 v3] (-> & _). by apply wpx_ret, Hno. }
  eapply wpx_step.
  { apply (net_heap_spec (kvs_output_buffer_ensure_space (OutputBuffer None 0 0 0) BUFFER_LENGTH) own (λ '(x, b), owned (o_data b) ++ own) (n2, v2)
      (λ '(x, b), x = 0 ∧ output_holds b [] ∧ BUFFER_LENGTH ≤ o_capacity b ∨ x = -1)); [done|].
    intros F Ho. unfold kvs_output_buffer_ensure_space. cbn [o_length o_offset o_data o_capacity]. cbn [Z.ltb Z.compare orb].
    assert (buffer_ok None 0 0) as Hok by (unfold buffer_ok, INT_MAX; cbn; lia).
    eapply wp_step; [apply (ensure_spec None 0 0 BUFFER_LENGTH (list_to_set own ∪ F)); [done|done|by apply (owns_app [] own)]|].
    intros [x [data cap]] h (Ho' & _ & Hx). apply wp_ret. cbn [o_data o_capacity]. split; [apply owns_app; split; [done|]; by apply (owns_app [] own) in Ho as (_ & ? & ?)|].
    destruct Hx as [(-> & Hok' & Hfit & _)|(-> & _)]; [left|by right]. split; [done|]. split; [|lia]. by split_and!. }
  intros [x b] [n3 v3] (E & Hh3 & Hx & _). cbn [fst snd] in *. subst n3. destruct b as [data blen boff bcap]. cbn [o_data o_capacity o_offset] in *.
  destruct Hx as [(-> & ((Hb1 & Hb2 & Hb3) & Hoff & _) & Hcap)| ->]; cbn [Z.ltb Z.compare]; [|by apply connector_drop with (own := own)].
  cbn [o_length o_offset o_capacity o_data] in *. subst boff.
  eapply step_on_state; [by apply (greet fd (owned data ++ own))|]. intros [r4 written] v4 [Hh4 Hr4].
  destruct data as [[p block]|]; [|unfold BUFFER_LENGTH in Hcap; lia]. cbn [deref]. eapply wpx_eq; [done|]. cbv beta iota.
  destruct Hr4 as [Hneg|(-> & Hle & Hgreet)].
  { rewrite (proj2 (Z.ltb_lt r4 0)) by done. cbn [orb]. by apply connector_drop with (own := own). }
  pose proof (zlen_nonneg written). rewrite (proj2 (Z.ltb_ge (zlen written) 0)), (proj2 (Z.ltb_ge BUFFER_LENGTH (zlen written))) by lia. cbn [orb].
  assert (take (Z.to_nat (zlen written)) (store 0 (Some <$> written) block) = Some <$> written) as Htake.
  { unfold store. cbn [Z.to_nat]. rewrite take_0, app_nil_l, take_app_length'; [done|rewrite length_fmap; unfold zlen; lia]. }
  rewrite Htake, cell_bytes_some. eapply wpx_eq; [done|]. eapply wpx_eq; [done|]. cbv beta.
  eapply wpx_stepx; [apply (send_loop_spec others sends); done|]. intros r5 [n5 v5] (sent & (Ho5 & Hin5 & Hout5) & Hr5). cbn [fst snd] in *.
  assert (held (owned (Some (p, block)) ++ own) v5) as Hh5 by (by eapply rtc_keeps).
  destruct Hr5 as [(-> & ->)|(-> & _)]; cbn [Z.ltb Z.compare]; [|by apply connector_drop with (own := own)].
  apply step_free_output with (own := own); [done|]. intros b h Hh6.
  eapply wpx_stepx; [eapply (Hyes fd n5 v4 v5 h written); try done|].
  - rewrite Hin5, Hin2. done.
  - rewrite Hout5, Hout2, Hout. done.
  - intros rd w Hq. by apply wpx_ret.
Qed.
End connections.

(** * Sockets in memory

    A connection is accepted when there is a number for its socket. *)

Record mem_service (V : Type) := MemService {
  ms_net : mem_net;
  ms_sockets : gset Z;
  ms_bound : Z → option (bytes * Z);
  ms_listening : Z → bool;
  ms_tasks : list (task V);
}.
Arguments MemService {V}.
Arguments ms_net {V}.
Arguments ms_sockets {V}.
Arguments ms_bound {V}.
Arguments ms_listening {V}.
Arguments ms_tasks {V}.

Section mem_service.
Context (peer : bytes) (V : Type).
Notation S := (mem_service V).

Definition ms_with_net (w : mem_net * V) (s : S * V) : S * V :=
  (MemService w.1 (ms_sockets s.1) (ms_bound s.1) (ms_listening s.1) (ms_tasks s.1), w.2).
Definition on_mem_net {X} (m : M (mem_net * V) X) : M (S * V) X := zoom (λ s, (ms_net s.1, s.2)) ms_with_net m.

(** A number that is not used. *)
Definition new_socket (used : gset Z) : Z := set_fold Z.max 2 used + 1.

Lemma new_socket_fresh used : 0 ≤ new_socket used ∧ new_socket used ∉ used.
Proof.
  assert (2 ≤ set_fold Z.max 2 used ∧ ∀ x, x ∈ used → x ≤ set_fold Z.max 2 used) as [Hmin Hmax].
  { apply (set_fold_ind_L (λ m s, 2 ≤ m ∧ ∀ x, x ∈ s → x ≤ m)); [split; [done|set_solver]|].
    intros x s m Hx [Hm Hs]. split; [lia|]. intros y [->%elem_of_singleton|Hy%Hs]%elem_of_union; lia. }
  unfold new_socket. split; [lia|]. intros Hin%Hmax. lia.
Qed.

Definition ms_close (fd : Z) : M (S * V) unit := λ s,
  Ok tt (MemService (ms_net s.1) (ms_sockets s.1 ∖ {[fd]}) (ms_bound s.1) (ms_listening s.1) (ms_tasks s.1), s.2).
Definition ms_socket : M (S * V) Z := λ s,
  let fd := new_socket (ms_sockets s.1) in
  let net := ms_net s.1 in
  Ok fd (MemService (MemNet (mn_script net) [] [] (mn_clock net)) ({[fd]} ∪ ms_sockets s.1) (ms_bound s.1) (ms_listening s.1) (ms_tasks s.1), s.2).

#[local] Instance mem_service_net : Net S V :=
  let base := mem_net_net peer V in {|
  net_in n := net_in (ms_net n);
  net_out n := net_out (ms_net n);
  net_clock n := mn_clock (ms_net n);
  net_interruptions n := mn_interruptions (ms_net n);
  nty_recv fd capacity := on_mem_net (nty_recv fd capacity);
  sys_recv_nowait fd capacity := on_mem_net (sys_recv_nowait fd capacity);
  sys_peek fd := on_mem_net (sys_peek fd);
  nty_send fd data := on_mem_net (nty_send fd data);
  nty_close := ms_close;
  clock_monotonic_ms := on_mem_net clock_monotonic_ms;
  nty_sleep ms := on_mem_net (nty_sleep ms);
|}.

#[local] Instance mem_service_service : Service S V := {|
  sockets := ms_sockets;
  bound := ms_bound;
  listening := ms_listening;
  tasks := ms_tasks;
  available _ := True;
  nty_socket := ms_socket;
  sys_bind fd ip port s := Ok 0 (MemService (ms_net s.1) (ms_sockets s.1)
    (λ x, if decide (x = fd) then Some (ip, port) else ms_bound s.1 x) (ms_listening s.1) (ms_tasks s.1), s.2);
  sys_listen fd _ s := Ok 0 (MemService (ms_net s.1) (ms_sockets s.1) (ms_bound s.1)
    (λ x, if decide (x = fd) then true else ms_listening s.1 x) (ms_tasks s.1), s.2);
  sys_close := ms_close;
  nty_connect _ _ _ s := Ok 0 s;
  nty_accept _ := ms_socket;
  nty_coroutine_create t s := Ok 0 (MemService (ms_net s.1) (ms_sockets s.1) (ms_bound s.1) (ms_listening s.1) (ms_tasks s.1 ++ [t]), s.2);
  nty_schedule_run s := Ok tt s;
|}.

Lemma ms_close_spec fd n v : wp (ms_close fd) (n, v) (λ _ '(n', v'), v' = v ∧ socket_closed fd n n').
Proof. split; [done|]. split; [done|]. split; [done|]. by intros x _. Qed.

#[local] Instance mem_service_laws : ServiceLaws S V eq.
Proof.
  split.
  - intros n v. cbn [nty_socket mem_service_service]. unfold ms_socket, wp. cbn [fst]. destruct (new_socket_fresh (ms_sockets n)) as [Hpos Hnew].
    split; [done|]. split; [done|]. right. do 4 (split; [done|]). split; [by intros x _|done].
  - intros fd ip port n v. split; [done|]. do 2 (split; [done|]). split; [|split; [done|intros _; cbn; by rewrite decide_True by done]].
    intros x Hx. cbn. by rewrite decide_False by done.
  - intros fd backlog n v. split; [done|]. do 2 (split; [done|]). split; [|split; [done|split; [done|intros _; cbn; by rewrite decide_True by done]]].
    intros x Hx. cbn. by rewrite decide_False by done.
  - apply ms_close_spec.
  - apply ms_close_spec.
  - intros n v. split; [done|]. split; [by split_and!|]. by split.
  - intros fd ip port n v. by split_and!.
  - intros fd n v. cbn [nty_accept mem_service_service]. unfold wpx, ms_socket. split; [done|]. intros _. cbn. split; [set_solver|done].
  - intros t n v. split; [done|]. do 4 (split; [done|]). by left.
  - intros n v. unfold wpx. cbn. done.
Qed.
End mem_service.

(** * Properties *)

(** C1: the network service starts completely or not at all.  When a configuration is
    wrong, a socket cannot be made, bound or set to listen, or a coroutine not created, the
    scheduler does not run and no socket is left; otherwise it runs with a socket listening
    at every address configured, a coroutine for each listener with the configured handlers,
    and one for each connector, and these sockets are closed at the end.  With correct
    configurations and when the system calls succeed it starts. *)
Theorem start_exact {N V : Type} `{!Net N V} `{!Service N V} `{!Inet} (others : V → V → Prop) `{!ServiceLaws N V others} listeners connectors (n : N) (v : V) :
  wpx (ntyco_start_runtime (Some listeners) (zlen listeners) (Some connectors) (zlen connectors)) (n, v)
    (λ r '(n', v'), served_or_not others listeners connectors n v r n' v') (λ _, True).
Proof. apply start_runtime_spec. exact _. Qed.

(** C1: a connection that arrives is handed to exactly one reader, with the handlers of
    its listener, no notification of its end, a deadline of at least five seconds if it
    may be a replica's, and the block of its context, before a byte was received or sent;
    or it is closed and leaves no memory. *)
Theorem accept_exact {N V RT : Type} `{!Net N V} `{!Service N V} `{!CRuntime RT} `{!CRuntimeLaws RT} `{!HasHeap V RT} (others : V → V → Prop) `{!ServiceLaws N V others}
    (held : list addr → V → Prop) (c : ntyco_listener_context_t V) own (n : N) (v : V) :
  (∀ own v, held own v → ∃ F, owns own F (heap_of v) ∧ ∀ own' h, owns own' F h → held own' (set_heap h v)) →
  (∀ own v v', held own v → others v v' → held own v') → held own v →
  wpx (accept_turn c) (n, v) (λ _ '(n', v'), ∃ fd n1 v1, others v v1 ∧ held own v1 ∧
    (0 ≤ fd → fd ∈ sockets n1 ∧ net_in n1 fd = [] ∧ net_out n1 fd = []) ∧ accepted held c fd own n1 v1 n' v') (λ _, True).
Proof. intros Hheap Hothers Hh. by apply accept_turn_spec. Qed.

(** A listener and a connector. *)
Definition echo : msg_handler (V := heap_rt) := λ _ msg response, mret (0, response, zlen msg).
Definition demo_listener : kvs_listener_config_t heap_rt := ListenerConfig 9000 (Some echo) None (Some (lit "127.0.0.1")) None None None.
Definition demo_connector : kvs_connector_config_t heap_rt :=
  ConnectorConfig (Some (lit "127.0.0.1")) 9000 (Some (λ _ _, mret (4, lit "PING"))) (Some echo) None (Some (λ _, mret tt)).
Definition demo_service : mem_service heap_rt := MemService (MemNet [] [] [] 0) ∅ (λ _, None) (λ _, false) [].

#[local] Instance demo_net : Net (mem_service heap_rt) heap_rt := mem_service_net [] heap_rt.
#[local] Instance demo_sockets : Service (mem_service heap_rt) heap_rt := mem_service_service heap_rt.
#[local] Instance demo_laws : ServiceLaws (mem_service heap_rt) heap_rt eq := mem_service_laws [] heap_rt.
#[local] Instance whole_heap : HasHeap heap_rt heap_rt := {| heap_of h := h; set_heap h _ := h |}.

Lemma start_exact_witness : configured [demo_listener] [demo_connector] ∧
  wpx (ntyco_start_runtime (Some [demo_listener]) 1 (Some [demo_connector]) 1) (demo_service, empty_heap)
    (λ r '(n', v'), served_or_not eq [demo_listener] [demo_connector] demo_service empty_heap r n' v') (λ _, True).
Proof.
  split.
  - split; [vm_compute; split; congruence|]. split; [vm_compute; congruence|]. split.
    + apply Forall_singleton. eexists. by split.
    + apply Forall_singleton. by eexists.
  - exact (start_exact eq [demo_listener] [demo_connector] demo_service empty_heap).
Defined.

Definition demo_listener_context : ntyco_listener_context_t heap_rt :=
  ListenerContext 9000 (Some (lit "127.0.0.1")) 3 echo None None None None.
Definition demo_held (own : list addr) (h : heap_rt) : Prop := ∃ F, owns own F h.

Lemma accept_exact_witness : demo_held [] empty_heap ∧
  wpx (accept_turn demo_listener_context) (demo_service, empty_heap) (λ _ '(n', v'), ∃ fd n1 v1, empty_heap = v1 ∧ demo_held [] v1 ∧
    (0 ≤ fd → fd ∈ sockets n1 ∧ net_in n1 fd = [] ∧ net_out n1 fd = []) ∧ accepted demo_held demo_listener_context fd [] n1 v1 n' v') (λ _, True).
Proof.
  assert (demo_held [] empty_heap) as Hh by (exists ∅; apply empty_heap_owns). split; [exact Hh|].
  apply (accept_exact eq demo_held demo_listener_context [] demo_service empty_heap); [|by intros own v v' H ->|exact Hh].
  intros own v [F Ho]. exists F. split; [exact Ho|]. intros own' h Ho'. by exists F.
Defined.
