(* ===== verification/Clients.v ===== *)
(** The connections of clients: the reader of Network with the message handler
    [kvs_network_protocol] of Kvstore.

    A connection is served exactly when what was sent back are the replies to the
    messages received, in their order, each handled once in the state the server had
    then; however the bytes were divided by the network. *)

From Stdlib Require Import ZArith Lia.
From S2P Require Import Prelude Runtime RbEngine Engine Codec ArrayEngine HashEngine SkipList Kvengine Buffer Os MappedFile Aof SnapshotFormat SnapshotStore SnapshotLoad Kvstore Execute Server Network.

(** * Definitions *)

Section clients.
Context `{CRuntimeLaws RT} `{OsLaws D} {Ea Er Eh Es : Type}
  `{!Engine RT Ea} `{!Engine RT Er} `{!Engine RT Eh} `{!Engine RT Es}
  `{!EngineLaws RT Ea} `{!EngineLaws RT Er} `{!EngineLaws RT Eh} `{!EngineLaws RT Es}.
Notation engines := (kv_engines Ea Er Eh Es).
Notation W := (server RT D engines).
Notation key_ok := (key_ok (RT := RT) (Ea := Ea) (Er := Er) (Eh := Eh) (Es := Es)).
Implicit Types (v : W) (own : list addr) (b : kvs_output_buffer_t) (msg t reply : bytes).

#[export] Instance server_heap : HasHeap W RT := {| heap_of := heap; set_heap := with_heap |}.

(** The [msg_handler] of the listener. *)
Definition client_handler : Z → bytes → kvs_output_buffer_t → M W (Z * kvs_output_buffer_t * Z) :=
  λ _ msg response, kvs_network_protocol msg response.

(** A server that keeps a log, with the blocks of one connection. *)
Definition held own v : Prop := ∃ F f, server_ok own F f v ∧ kvs_persistence_mode v ≠ KVS_PERSISTENCE_SNAPSHOT.

(** A message was handled: a command was executed, or what cannot be one was refused. *)
Definition answered v t reply v' : Prop :=
  (∃ ts b b' st, starts_with ts t t ∧
     kvs_execute_fields (slice_of <$> ts) b KVS_COMMAND_SOURCE_CLIENT v = Ok (zlen reply, b', st) v' ∧ replied b reply b') ∨
  refused t ∧ v' = v ∧ reply = lit "-ERR invalid or oversized request" ++ crlf.

(** The beginning of a command. *)
Definition waiting msg : Prop := parse_message msg = Incomplete ∧ zlen msg < KVS_MAX_CLIENT_COMMAND_BYTES.

Lemma starts_with_self ts t msg : starts_with ts t msg → starts_with ts t t.
Proof. intros (Ht & Hl & Hle & _). split; [done|]. split; [done|]. split; [done|]. exists []. by rewrite app_nil_r. Qed.

Lemma starts_with_take ts t msg : starts_with ts t msg → take (Z.to_nat (zlen t)) msg = t ∧ 0 < zlen t ≤ zlen msg.
Proof.
  intros (Ht & _ & _ & rest & ->). split.
  - unfold zlen. by rewrite Nat2Z.id, take_app_length.
  - rewrite zlen_app. pose proof (zlen_nonneg rest). apply command_text_pos in Ht. unfold zlen in *. lia.
Qed.

Lemma handle_command ts t msg b own v : zlen msg ≤ SIZE_MAX → reply_buffer b → starts_with ts t msg → (well_formed ts → key_ok ts) →
  held (owned (o_data b) ++ own) v →
  wpx (client_handler 0 msg b) v (λ '(r, b', n) v', 0 ≤ n ≤ zlen msg ∧ held (owned (o_data b') ++ own) v' ∧
    (r < 0 ∨ ∃ reply, r = zlen reply ∧ replied b reply b' ∧ 0 < n ∧ answered v (take (Z.to_nat n) msg) reply v')) (λ _, True).
Proof.
  intros Hsz Hb Hs Hkey (F & f & Hok & Hmode). unfold wpx, client_handler. rewrite (network_command ts t) by done.
  match goal with |- match ?m v with Ok x w' => ?Q | Halt w' => ?G | _ => _ end => change (wpx m v (λ x w', Q) (λ w', G)) end. cbv beta.
  pose proof (client_served ts own F f b v Hb ltac:(by eapply starts_with_message) Hkey Hmode Hok) as Hserved.
  destruct (starts_with_take _ _ _ Hs) as [Htake Ht].
  eapply (wpx_stepx _ _ _ (λ x v', kvs_execute_fields (slice_of <$> ts) b KVS_COMMAND_SOURCE_CLIENT v = Ok x v' ∧
    let '(r, b', _) := x in served own F f b v r b' v')).
  { unfold wpx in *. destruct (kvs_execute_fields _ _ _ v) as [[[r b'] st] v'|v'|] eqn:E; [|done..]. split; [reflexivity|exact Hserved]. }
  intros [[r b'] st] v' (Hrun & (_ & Hm & _) & Hkept & Hr & f' & Hok' & _).
  assert (held (owned (o_data b') ++ own) v') as Hheld by (exists F, f'; split; [done|congruence]).
  pose proof (zlen_nonneg msg). destruct ((r <? 0) || (reply_capacity b' <? r)) eqn:Ebad; apply wpx_ret.
  - split; [lia|]. split; [done|]. left. lia.
  - split; [lia|]. split; [done|]. apply orb_false_iff in Ebad as [Hpos%Z.ltb_ge _]. destruct Hr as [->|(reply & -> & Hrep)]; [lia|].
    right. exists reply. split; [done|]. split; [done|]. split; [lia|]. rewrite Htake. left. exists ts, b, b', st. split; [by eapply starts_with_self|done].
Qed.

Lemma handle_refused msg b own v : msg ≠ [] → refused msg → reply_buffer b → held (owned (o_data b) ++ own) v →
  wpx (client_handler 0 msg b) v (λ '(r, b', n) v', 0 ≤ n ≤ zlen msg ∧ held (owned (o_data b') ++ own) v' ∧
    (r < 0 ∨ ∃ reply, r = zlen reply ∧ replied b reply b' ∧
       (n = 0 ∧ reply = [] ∧ v' = v ∧ waiting msg ∨ 0 < n ∧ answered v (take (Z.to_nat n) msg) reply v'))) (λ _, True).
Proof.
  intros Hne Href Hb Hh. unfold client_handler. apply wp_wpx. eapply wp_mono; [exact (network_refused msg b v Hb Hne Href)|]. intros [[r b'] n] v' (-> & (Hown & _ & Hr & _) & ->).
  rewrite Hown. pose proof (zlen_nonneg msg). destruct Hr as [[-> Hrep]| ->]; [|split; [cbn; lia|]; split; [done|left; lia]].
  rewrite (proj2 (Z.ltb_ge _ 0)) by apply zlen_nonneg. split; [lia|]. split; [done|]. right. eexists. split; [done|]. split; [done|]. right. split.
  - destruct msg as [|x msg]; [done|]. rewrite zlen_cons. pose proof (zlen_nonneg msg). lia.
  - right. split; [|done]. unfold zlen. by rewrite Nat2Z.id, firstn_all.
Qed.

(** The handler is a message server, whatever other coroutines do to a server in a good
    state, as long as the keys clients send fit the engines. *)
Lemma client_message_server (others : W → W → Prop) (sends : Z → bytes → Prop) :
  (∀ own v v', held own v → others v v' → held own v') →
  (∀ fd s msg ts t, sends fd s → msg `suffix_of` s → starts_with ts t msg → well_formed ts → key_ok ts) →
  MessageServer W RT others sends client_handler held answered waiting.
Proof.
  intros Hothers Hkeys. split.
  - intros v. destruct v as [[? ? ?] ? ? ? ?]. done.
  - intros own v (F & f & Hok & Hmode). destruct Hok as ([Hwf Ho] & Hmax & Hlog). apply owns_app in Ho as (Ho1 & Hnd & Hdis).
    eexists. split; [exact Ho1|]. intros own' h Ho'. exists F, f. split; [|done]. split; [|done]. split; [done|]. apply owns_app. by split.
  - done.
  - split; [vm_compute; reflexivity|vm_compute; reflexivity].
  - intros fd s msg b own v Hs Hsuf Hne Hmax Hb Hh. pose proof (zlen_nonneg msg). assert (zlen msg ≤ SIZE_MAX) as Hsz by (unfold INT_MAX, SIZE_MAX in *; lia).
    destruct (parse_message msg) as [[fields n]| |] eqn:Hp.
    + apply parse_message_complete in Hp as (ts & t & Hst & _); [|done].
      eapply wpx_mono; [apply (handle_command ts t msg b own v); [done|done|done|by eapply Hkeys|done]| |done].
      intros [[r b'] c] v' (Hc & Hh' & [Hr|(reply & -> & Hrep & Hpos & Hans)]); (split; [done|]; split; [done|]); [by left|right].
      exists reply. split; [done|]. split; [done|]. right. by split.
    + destruct (Z.lt_ge_cases (zlen msg) KVS_MAX_CLIENT_COMMAND_BYTES) as [Hlt|Hge].
      * unfold wpx, client_handler. rewrite network_waits by done. split; [lia|]. split; [done|]. right. exists []. split; [done|].
        split; [by apply replied_nil|]. left. by split_and!.
      * by apply handle_refused; [|right| |].
    + by apply handle_refused; [|left| |].
Qed.

(** * Properties *)

(** C5: however the network divides what a client sends, the read coroutine hands the
    server the messages in it one after another, each exactly once, and sends exactly
    their replies back in that order.  After any number of turns in which the connection
    is open, the bytes received are the messages handled and a rest, and the bytes sent,
    with less than 64 KiB not sent yet, are the replies; within as many turns as bytes are
    left it waits for more, with every reply sent and no complete message in the rest, or
    is closed.  When it is closed what was sent are the first bytes of the replies, and
    its memory was released.  No byte is read or written outside the buffers. *)
Theorem client_connection_exact {N : Type} `{!Net N W} (others : W → W → Prop) (sends : Z → bytes → Prop) `{!NetLaws N W others sends}
    turns context own (n : N) v :
  (∀ own v v', held own v → others v v' → held own v') →
  (∀ fd s msg ts t, sends fd s → msg `suffix_of` s → starts_with ts t msg → well_formed ts → key_ok ts) →
  (∀ s, sends (cx_fd context) s → kvs_identify_connection (Some s) (zlen s) ≠ KVS_CONNECTION_REPLICA) →
  cx_handler context = client_handler → cx_stream_handler context = None → cx_close_handler context = None →
  net_in n (cx_fd context) = [] → net_out n (cx_fd context) = [] → held (option_list (cx_heap_owned context) ++ own) v →
  let ok := reader_ok others sends client_handler held answered waiting (cx_fd context) v own in
  wpx (server_reader turns context) (n, v) (λ r w, ok r w ∧
    ∃ more, (more ≤ Z.to_nat (i_length (rd_input r)))%nat ∧
      wpx (reader_turns more (cx_fd context) r) w (λ r' w', ok r' w' ∧ (rd_phase r' = Receiving ∨ rd_phase r' = Closed)) (λ _, True)) (λ _, True).
Proof.
  intros Hothers Hkeys Hrep Hhandler Hstream Hclose Hin Hout Hh ok. pose proof (client_message_server others sends Hothers Hkeys) as Hserver.
  eapply wpx_mono; [by eapply (server_reader_spec others sends client_handler held answered waiting turns context own (n, v))| |done].
  intros r w Hok. split; [exact Hok|]. destruct (rd_phase r) eqn:Hp.
  - exists O. split; [lia|]. split; [exact Hok|by left].
  - by eapply (serving_ends others sends client_handler held answered waiting).
  - unfold reader_ok in Hok. by rewrite Hp in Hok.
  - exists O. split; [lia|]. split; [exact Hok|by right].
Qed.
End clients.

(** A client that sends one command, in pieces. *)
Definition demo_context : ntyco_connection_context_t (V := server heap_rt mem_os demo_engines) :=
  ConnectionContext 5 client_handler None None None (Some client_handler) None 5000 None.
Definition demo_net : mem_net :=
  MemNet [WouldBlock; Received (take 3 sample_message); RecvInterrupted; Received (drop 3 sample_message); PeerClosed] [] [] 0.

Lemma sample_stars k : (drop k sample_message !! O) = Some STAR → k = O.
Proof.
  rewrite lookup_drop, Nat.add_0_r. intros Hk. destruct (decide (k < List.length sample_message)%nat) as [Hlt|]; [|rewrite lookup_ge_None_2 in Hk by lia; done].
  assert (Forall (λ i, sample_message !! i = Some STAR → i = O) (seq 0 (List.length sample_message))) as Hall by (apply (bool_decide_unpack _); vm_compute; exact I).
  rewrite Forall_forall in Hall. apply Hall; [apply elem_of_seq; lia|done].
Qed.

Lemma sample_sends_keys (fd : Z) s msg ts t : peer_sends sample_message fd s → msg `suffix_of` s → starts_with ts t msg → well_formed ts → demo_key_ok ts.
Proof.
  intros [rest Hrest] [pre ->] Hs. assert (List.length pre = O) as Hpre.
  { apply sample_stars. rewrite Hrest, <- app_assoc, drop_app_length. destruct Hs as ((d & ls & _ & _ & ->) & _ & _ & more & ->). done. }
  apply length_zero_iff_nil in Hpre as ->. apply (sample_message_keys ts t). destruct Hs as (Ht & Hl & Hle & more & ->).
  split; [done|]. split; [done|]. split; [done|]. exists (more ++ rest). rewrite Hrest. by rewrite app_nil_l, app_assoc.
Qed.

Lemma sample_sends_client (fd : Z) s : peer_sends sample_message fd s → kvs_identify_connection (Some s) (zlen s) ≠ KVS_CONNECTION_REPLICA.
Proof.
  intros [rest Hrest]. unfold kvs_identify_connection. destruct (Z.eqb_spec (zlen s) 0) as [|Hne]; [done|].
  destruct s as [|c s]; [done|]. assert (c = STAR) as -> by (apply (f_equal (lookup O)) in Hrest; cbn in Hrest; congruence). done.
Qed.

#[local] Instance demo_net_net : Net mem_net (server heap_rt mem_os demo_engines) := mem_net_net sample_message (server heap_rt mem_os demo_engines).
#[local] Instance demo_net_laws : NetLaws mem_net (server heap_rt mem_os demo_engines) eq (peer_sends sample_message) :=
  mem_net_laws sample_message (server heap_rt mem_os demo_engines).

Lemma client_connection_exact_witness : ∃ v : server heap_rt mem_os demo_engines, held [] v ∧
  wpx (server_reader 40 demo_context) (demo_net, v) (λ r w, reader_ok eq (peer_sends sample_message) client_handler held answered waiting 5 v [] r w ∧
    ∃ more, (more ≤ Z.to_nat (i_length (rd_input r)))%nat ∧
      wpx (reader_turns more 5 r) w (λ r' w', reader_ok eq (peer_sends sample_message) client_handler held answered waiting 5 v [] r' w' ∧
        (rd_phase r' = Receiving ∨ rd_phase r' = Closed)) (λ _, True)) (λ _, True).
Proof.
  destruct loaded_engines as (es & r & Hwf & Ho & _).
  set (v := Server (PWorld r (p_os (sample_log [])) (p_aof (sample_log []))) es KVS_ROLE_PRIMARY KVS_PERSISTENCE_AOF offline).
  assert (held [] v) as Hh.
  { exists ∅, []. split; [|discriminate]. split; [split; [exact Hwf|exact Ho]|]. split; [vm_compute; discriminate|]. intros _. apply sample_log_ok. }
  exists v. split; [exact Hh|].
  refine (client_connection_exact eq (peer_sends sample_message) 40 demo_context [] demo_net v _ _ _ _ _ _ _ _ _).
  - by intros own v1 v2 H1 ->.
  - apply sample_sends_keys.
  - apply sample_sends_client.
  - reflexivity.
  - reflexivity.
  - reflexivity.
  - reflexivity.
  - reflexivity.
  - exact Hh.
Defined.
