(* ===== verification/Replication.v ===== *)
(** Replication, src/replication/replication.c: the handlers of a replica, those of a
    primary, and the life of the manager.

    A handler gets the descriptor of its connection; what it stores in the output
    array is the second part of its result.  Pointers to arrays and strings are never
    null in the program.  Log messages are left out.  The texts of [snprintf] and the
    scans of [sscanf] are those of the C library. *)

From Stdlib Require Import ZArith Lia.
From S2P Require Import Prelude Runtime Engine Codec ArrayEngine HashEngine SkipList Kvengine Buffer Os Rdma MappedFile Aof SnapshotIo SnapshotFormat SnapshotStore SnapshotLoad Kvstore RepState.

(** * Texts *)

Definition KVS_REPLICATION_HOST_MAX_LENGTH : Z := 256.
Definition KVS_REPLICATION_ID_HEX_LENGTH : Z := 40.
Definition KVS_REPLICATION_PRIMARY_SNAPSHOT_PATH : bytes := lit "replication.snapshot".
Definition KVS_REPLICATION_PRIMARY_AOF_PATH : bytes := lit "appendonly.aof".
Definition KVS_REPLICATION_REPLICA_SNAPSHOT_TEMP_PATH : bytes := lit "snapshot.db.replication.tmp".
Definition KVS_REPLICATION_REPLICA_SNAPSHOT_PATH : bytes := lit "snapshot.db".
Definition KVS_REPLICATION_RDMA_RESOLVE_TIMEOUT_MS : Z := 3000.
Definition KVS_REPLICATION_RDMA_BUFFER_CAPACITY : Z := 1024 * 1024.

(** [%lld] and [%u] in a format of [printf]. *)
Definition print_lld (n : Z) : bytes := if n <? 0 then lit "-" ++ write_decimal (- n) else write_decimal n.

(** The directives of a format of [sscanf] that the code uses: white space, ordinary
    characters, [%40[0-9a-f]], and integers with a largest width.  A conversion gives
    its value and the rest of the input. *)
Definition is_white (c : byte) : bool := ((9 <=? uchar c) && (uchar c <=? 13)) || (uchar c =? 32).
Fixpoint scan_white (s : bytes) : bytes :=
  match s with c :: s' => if is_white c then scan_white s' else s | [] => [] end.
Fixpoint scan_text (t s : bytes) : option bytes :=
  match t, s with
  | [], _ => Some s
  | a :: t, b :: s => if bool_decide (a = b) then scan_text t s else None
  | _, [] => None
  end.
(** The longest prefix of at most [width] bytes of a set. *)
Fixpoint span (P : byte → bool) (width : nat) (s : bytes) : bytes * bytes :=
  match width, s with
  | S width, c :: s' => if P c then let '(a, b) := span P width s' in (c :: a, b) else ([], s)
  | _, _ => ([], s)
  end.
Definition is_hex (c : byte) : bool := is_digit c || ((97 <=? uchar c) && (uchar c <=? 102)).
Definition scan_hex (width : nat) (s : bytes) : option (bytes * bytes) :=
  match span is_hex width s with ([], _) => None | (a, b) => Some (a, b) end.
(** An optional sign and at least one digit. *)
Definition scan_integer (width : nat) (s : bytes) : option (Z * bytes) :=
  let digits (negative : bool) width s :=
    match span is_digit width s with
    | ([], _) => None
    | (a, b) => Some (if negative then - dec_value 0 a else dec_value 0 a, b)
    end in
  match width, s with
  | S n, c :: s' =>
      if bool_decide ([c] = lit "-") then digits true n s'
      else if bool_decide ([c] = lit "+") then digits false n s' else digits false width s
  | _, _ => None
  end.
(** [%lld] and [%5u]; a number outside of the type is clamped, or reduced. *)
Definition scan_lld (s : bytes) : option (Z * bytes) :=
  '(n, s) ← scan_integer (List.length s) (scan_white s);
  Some (Z.max (- 2 ^ 63) (Z.min n INT64_MAX), s).
Definition scan_5u (s : bytes) : option (Z * bytes) :=
  '(n, s) ← scan_integer 5 (scan_white s); Some (n mod 2 ^ 32, s).

(** A frame is followed by a NUL byte. *)
Record fullresync := FullResync { fr_id : bytes; fr_offset : Z; fr_size : Z; fr_port : Z; fr_sync_id : bytes; fr_parsed : Z }.
Definition scan_fullresync (frame : bytes) : option fullresync :=
  let text := upto_nul frame in
  s ← scan_text (lit "FULLRESYNC_RDMA") text;
  '(id, s) ← scan_hex 40 (scan_white s);
  '(offset, s) ← scan_lld (scan_white s);
  '(size, s) ← scan_lld (scan_white s);
  '(port, s) ← scan_5u (scan_white s);
  '(sync_id, s) ← scan_hex 40 (scan_white s);
  Some (FullResync id offset size port sync_id (zlen text - zlen s)).
Definition scan_online (frame : bytes) : option (Z * Z) :=
  let text := upto_nul frame in
  s ← scan_text (lit "ONLINE") text;
  '(offset, s) ← scan_lld (scan_white s);
  Some (offset, zlen text - zlen s).

(** The lines the two sides send. *)
Definition ping_line : bytes := lit "PING" ++ crlf.
Definition pong_line : bytes := lit "PONG" ++ crlf.
Definition psync_line : bytes := lit "PSYNC ? -1" ++ crlf.
Definition unknown_line : bytes := lit "ERROR unknown replication command" ++ crlf.
Definition online_line (offset : Z) : bytes := lit "ONLINE " ++ print_lld offset ++ crlf.
Definition fullresync_line (id : bytes) (offset size port : Z) (sync_id : bytes) : bytes :=
  lit "FULLRESYNC_RDMA " ++ id ++ lit " " ++ print_lld offset ++ lit " " ++ print_lld size ++ lit " " ++
  print_lld port ++ lit " " ++ sync_id ++ crlf.
Definition ready_message (sync_id : bytes) : bytes := lit "READY " ++ sync_id ++ crlf.
Definition ack_message (n : Z) : bytes := lit "SNAPSHOT_ACK " ++ print_lld n ++ crlf.

(** [snprintf] into an array, with the check for room that follows it everywhere. *)
Definition print_line {V} (capacity : Z) (text : bytes) : M V (option bytes) :=
  let '(length, stored) := snprintf capacity text in
  if (length <? 0) || (capacity <=? length) then mret None else mret (Some (take (Z.to_nat length) stored)).

(** The room of the arrays [ready_message], [ack], [expected_ack] and [expected]. *)
Definition MESSAGE_ROOM : Z := 64.

(** * Operations *)

Section ops.
Context `{CRuntime RT} `{Os D} `{Rdma T} {Ea Er Eh Es : Type}
  `{!Engine RT Ea} `{!Engine RT Er} `{!Engine RT Eh} `{!Engine RT Es}.
Notation engines := (kv_engines Ea Er Eh Es).
Notation W := (server RT D engines).
Notation N := (node RT D engines T).
Notation manager_t := (kvs_replication_manager_t W).

(** ** Shared *)

Definition kvs_replication_rdma_sync_close : M N Z :=
  m ← manager;
  '(r, connection) ← on_rdma (kvs_rdma_connection_close (rs_connection (rm_rdma_sync m)));
  update_sync (sync_connection connection);;
  if r <? 0 then mret (-1) else
  update_sync (λ s, RdmaSync (rs_connection s) false 0 0 false false);;
  mret 0.

Definition close_snapshot_reader : M N unit :=
  m ← manager;
  reader ← on_files (kvs_snapshot_reader_close (rm_snapshot_reader m));
  update (set_snapshot_reader reader).
Definition close_aof_reader : M N unit :=
  m ← manager;
  reader ← on_files (kvs_aof_reader_close (rm_aof_reader m));
  update (set_aof_reader reader).
Definition open_aof_reader (start_offset end_offset : Z) : M N Z :=
  '(r, reader) ← on_files (kvs_aof_reader_open KVS_REPLICATION_PRIMARY_AOF_PATH start_offset end_offset);
  update (set_aof_reader reader);;
  mret r.
Definition read_aof (output_capacity : Z) : M N (option bytes) :=
  m ← manager;
  '(result, reader) ← on_files (kvs_aof_reader_read (rm_aof_reader m) output_capacity);
  update (set_aof_reader reader);;
  mret result.
Definition abort_snapshot : M N unit :=
  m ← manager;
  writer ← on_files (kvs_snapshot_writer_abort (rm_snapshot_writer m) KVS_REPLICATION_REPLICA_SNAPSHOT_TEMP_PATH);
  update (set_snapshot_writer writer).

(** ** The replica *)

Definition kvs_replication_on_primary_connected (connection_fd output_capacity : Z) : M N (Z * bytes) :=
  m ← manager;
  if negb (rm_initialized m) || bool_decide (rm_role m ≠ KVS_ROLE_REPLICA) || (connection_fd <? 0) || (output_capacity <=? 0)
  then mret (-1, []) else
  line ← print_line output_capacity ping_line;
  match line with
  | None => mret (-1, [])
  | Some text =>
      update (set_primary_connection_fd connection_fd);;
      update (set_state KVS_REPLICATION_STATE_HANDSHAKE);;
      mret (zlen text, text)
  end.

Definition kvs_replication_on_primary_disconnected (connection_fd : Z) : M N unit :=
  m ← manager;
  if negb (rm_initialized m) || bool_decide (rm_role m ≠ KVS_ROLE_REPLICA) then mret tt else
  if negb (rm_primary_connection_fd m =? connection_fd) then mret tt else
  kvs_replication_rdma_sync_close;;
  update (set_primary_rdma_port 0);;
  update (set_full_sync_id []);;
  abort_snapshot;;
  update (set_primary_connection_fd (-1));;
  update (set_state KVS_REPLICATION_STATE_DISCONNECTED).

Definition bad_fullresync (r : fullresync) (frame : bytes) : bool :=
  negb (fr_parsed r =? zlen frame) || negb (zlen (fr_id r) =? KVS_REPLICATION_ID_HEX_LENGTH)
  || negb (zlen (fr_sync_id r) =? KVS_REPLICATION_ID_HEX_LENGTH) || (fr_offset r <? 0) || (fr_size r <=? 0)
  || (fr_port r =? 0) || (65535 <? fr_port r).

(** The branch for [FULLRESYNC_RDMA]. *)
Definition start_full_sync (frame : bytes) : M N (Z * bytes) :=
  match scan_fullresync frame with
  | None => mret (-1, [])
  | Some r =>
      if bad_fullresync r frame then mret (-1, []) else
      abort_snapshot;;
      m ← manager;
      '(opened, writer) ← on_files (kvs_snapshot_writer_open (rm_snapshot_writer m)
        KVS_REPLICATION_REPLICA_SNAPSHOT_TEMP_PATH (fr_size r));
      update (set_snapshot_writer writer);;
      if opened <? 0 then mret (-1, []) else
      update (set_replication_id (fr_id r));;
      update (set_primary_rdma_port (fr_port r));;
      update (set_full_sync_id (fr_sync_id r));;
      update (set_replication_offset (fr_offset r));;
      update (set_snapshot_file_size (fr_size r));;
      m ← manager;
      '(started, connection) ← on_rdma (kvs_rdma_connection_start (rs_connection (rm_rdma_sync m)) (rm_primary_host m)
        (rm_primary_rdma_port m) KVS_REPLICATION_RDMA_RESOLVE_TIMEOUT_MS);
      update_sync (sync_connection connection);;
      if started <? 0 then mret (-1, []) else
      update (set_state KVS_REPLICATION_STATE_FULL_SYNC);;
      mret (0, [])
  end.

Definition kvs_replication_upstream_frame_protocol (connection_fd : Z) : kvs_frame_handler N := λ frame response_capacity,
  m ← manager;
  if negb (rm_initialized m) || bool_decide (rm_role m ≠ KVS_ROLE_REPLICA) || (connection_fd <? 0)
     || negb (connection_fd =? rm_primary_connection_fd m) || (zlen frame <=? 0) || (response_capacity <=? 0)
  then mret (-1, []) else
  if bool_decide (rm_state m ≠ KVS_REPLICATION_STATE_HANDSHAKE) then mret (-1, []) else
  if bool_decide (frame = lit "PONG") then
    line ← print_line response_capacity psync_line;
    match line with
    | None => mret (-1, [])
    | Some text => mret (zlen text, text)
    end
  else if bool_decide (take 16 frame = lit "FULLRESYNC_RDMA ") then start_full_sync frame
  else mret (-1, []).

Definition following_state (s : kvs_replication_state_t) : bool :=
  bool_decide (s = KVS_REPLICATION_STATE_CATCH_UP) || bool_decide (s = KVS_REPLICATION_STATE_ONLINE).

Definition kvs_replication_online_control_frame_protocol (connection_fd : Z) : kvs_frame_handler N := λ frame response_capacity,
  m ← manager;
  if negb (rm_initialized m) || bool_decide (rm_role m ≠ KVS_ROLE_REPLICA) || negb (following_state (rm_state m))
     || (connection_fd <? 0) || negb (connection_fd =? rm_primary_connection_fd m) || (zlen frame <=? 0) || (response_capacity <? 5)
  then mret (-1, []) else
  if bool_decide (take 7 frame = lit "ONLINE ") then
    match scan_online frame with
    | None => mret (-1, [])
    | Some (primary_online_offset, parsed_length) =>
        if negb (parsed_length =? zlen frame) || (primary_online_offset <? 0) then mret (-1, []) else
        local_offset ← aof_offset;
        if (local_offset <? 0) || negb (local_offset =? primary_online_offset) then mret (-1, []) else
        update (set_replication_offset local_offset);;
        update (set_state KVS_REPLICATION_STATE_ONLINE);;
        mret (0, [])
    end
  else mret (-1, []).

(** [array] is the address of the response array. *)
Definition kvs_replication_catch_up_command_protocol (connection_fd : Z) (fields : list kvs_slice_t) (array : addr)
    (response_capacity : Z) : M N Z :=
  m ← manager;
  match rm_command_handler m with
  | None => mret (-1)
  | Some command_handler =>
      if negb (rm_initialized m) || bool_decide (rm_role m ≠ KVS_ROLE_REPLICA) || negb (following_state (rm_state m))
         || (connection_fd <? 0) || negb (connection_fd =? rm_primary_connection_fd m) || (zlen fields =? 0)
         || (response_capacity <=? 0)
      then mret (-1) else
      response_length ← on_server (command_handler array fields response_capacity);
      if (response_length <=? 0) || (response_capacity <=? response_length) then mret (-1) else
      current_offset ← aof_offset;
      if current_offset <? 0 then mret (-1) else
      update (set_replication_offset current_offset);;
      mret 0
  end.

(** The position behind the first line feed. *)
Fixpoint find_line_feed (i : Z) (msg : bytes) : option Z :=
  match msg with
  | [] => None
  | c :: msg => if bool_decide (c = LF) then Some (i + 1) else find_line_feed (i + 1) msg
  end.

(** The result, the reply and [*consumed_length]. *)
Definition kvs_replication_control_line_protocol (msg : bytes) (response_capacity : Z) (frame_handler : kvs_frame_handler N) :
    M N (Z * bytes * Z) :=
  match find_line_feed 0 msg with
  | None => mret (0, [], 0)
  | Some n =>
      r ← kvs_line_batch_protocol msg n response_capacity frame_handler;
      match r with
      | None => mret (-1, [], 0)
      | Some (consumed, reply) => mret (zlen reply, reply, consumed)
      end
  end.

Definition kvs_replication_finish_full_sync : M N Z :=
  m ← manager;
  if bool_decide (rm_state m ≠ KVS_REPLICATION_STATE_FULL_SYNC) || negb (wf_remaining (rm_snapshot_writer m) =? 0)
  then mret (-1) else
  '(committed, writer) ← on_files (kvs_snapshot_writer_commit (rm_snapshot_writer m)
    KVS_REPLICATION_REPLICA_SNAPSHOT_TEMP_PATH KVS_REPLICATION_REPLICA_SNAPSHOT_PATH);
  update (set_snapshot_writer writer);;
  if committed <? 0 then abort_snapshot;; mret (-1) else
  match rm_snapshot_install_handler m with
  | None => mret (-1)
  | Some snapshot_install_handler =>
      installed ← on_server (snapshot_install_handler KVS_REPLICATION_REPLICA_SNAPSHOT_PATH (rm_replication_offset m));
      if installed <? 0 then mret (-1) else
      update (set_state KVS_REPLICATION_STATE_CATCH_UP);;
      mret 0
  end.

Definition kvs_replication_receive_snapshot_data (connection_fd : Z) (data : bytes) : M N Z :=
  m ← manager;
  if negb (rm_initialized m) || bool_decide (rm_role m ≠ KVS_ROLE_REPLICA) || (connection_fd <? 0)
     || negb (connection_fd =? rm_primary_connection_fd m) || bool_decide (rm_state m ≠ KVS_REPLICATION_STATE_FULL_SYNC)
     || (zlen data <=? 0)
  then mret (-1) else
  '(written, writer) ← on_files (kvs_snapshot_writer_write (rm_snapshot_writer m) data);
  update (set_snapshot_writer writer);;
  if written <? 0 then mret (-1) else
  if wf_remaining writer =? 0 then
    finished ← kvs_replication_finish_full_sync;
    if finished <? 0 then mret (-1) else mret written
  else mret written.

(** [response] is the output buffer; its array is at least as large as it says.  The
    result, the reply and [*consumed_length]. *)
Definition kvs_replication_upstream_network_protocol (connection_fd : Z) (msg : bytes) (response : kvs_output_buffer_t) :
    M N (Z * bytes * Z) :=
  m ← manager;
  match o_data response with
  | None => mret (-1, [], 0)
  | Some (array, _) =>
      if negb (rm_initialized m) || bool_decide (rm_role m ≠ KVS_ROLE_REPLICA) || (connection_fd <? 0)
         || negb (connection_fd =? rm_primary_connection_fd m) || (zlen msg <=? 0) || (o_capacity response <=? 0)
      then mret (-1, [], 0) else
      if bool_decide (rm_state m = KVS_REPLICATION_STATE_HANDSHAKE) then
        kvs_replication_control_line_protocol msg (o_capacity response) (kvs_replication_upstream_frame_protocol connection_fd)
      else if bool_decide (rm_state m = KVS_REPLICATION_STATE_FULL_SYNC) then mret (-1, [], 0)
      else if following_state (rm_state m) then
        if bool_decide (head msg = Some STAR) then
          match kvs_parse_command (Some msg) 3 with
          | Incomplete => mret (0, [], 0)
          | Malformed => mret (-1, [], 0)
          | Complete (fields, parsed_bytes) =>
              r ← kvs_replication_catch_up_command_protocol connection_fd fields array (o_capacity response);
              if r <? 0 then mret (-1, [], 0) else mret (0, [], parsed_bytes)
          end
        else kvs_replication_control_line_protocol msg (o_capacity response) (kvs_replication_online_control_frame_protocol connection_fd)
      else mret (-1, [], 0)
  end.

(** An [snprintf] into an array of 64 bytes and the sending of what it printed. *)
Definition send_message (text : bytes) : M N Z :=
  line ← print_line MESSAGE_ROOM text;
  match line with
  | None => mret (-1)
  | Some text =>
      m ← manager;
      r ← on_rdma (kvs_rdma_connection_send (rs_connection (rm_rdma_sync m)) text);
      if r <? 0 then mret (-1) else mret 0
  end.

(** The branch for a disconnection: the end of a complete full synchronisation. *)
Definition upstream_disconnected : M N Z :=
  m ← manager;
  let finished := rm_rdma_sync m in
  if bool_decide (rm_state m ≠ KVS_REPLICATION_STATE_CATCH_UP) || negb (rs_snapshot_bytes finished =? rm_snapshot_file_size m)
     || negb (rs_acknowledged_bytes finished =? rs_snapshot_bytes finished)
  then mret (-1) else
  r ← on_rdma (kvs_rdma_connection_disconnect (rs_connection finished));
  if r <? 0 then mret (-1) else
  r ← kvs_replication_rdma_sync_close;
  if r <? 0 then mret (-1) else mret 0.

(** The connection is there: the primary is told which synchronisation this is. *)
Definition upstream_established : M N Z :=
  update_sync (sync_established true);;
  m ← manager;
  r ← send_message (ready_message (rm_full_sync_id m));
  if r <? 0 then mret (-1) else
  update_sync (sync_send_pending true);;
  mret 0.

(** The cumulative acknowledgement. *)
Definition upstream_acknowledge : M N Z :=
  m ← manager;
  let sync := rm_rdma_sync m in
  if negb (rs_send_pending sync) && (rs_acknowledged_bytes sync <? rs_snapshot_bytes sync) then
    r ← send_message (ack_message (rs_snapshot_bytes sync));
    if r <? 0 then mret (-1) else
    update_sync (sync_send_pending true);;
    update_sync (λ s, sync_acknowledged_bytes (rs_snapshot_bytes s) s);;
    mret 0
  else mret 0.

(** One completion. *)
Definition upstream_completion (connection_fd : Z) : M N Z :=
  m ← manager;
  '(completed, completion) ← on_rdma (kvs_rdma_connection_poll_completion (rs_connection (rm_rdma_sync m)));
  if completed <? 0 then mret (-1) else
  if completed =? 0 then mret KVS_STREAM_WAIT else
  if bool_decide (completion_type completion = KVS_RDMA_COMPLETION_SEND) then
    update_sync (sync_send_pending false);;
    mret KVS_STREAM_WAIT
  else
  let length := zlen (completion_data completion) in
  if bool_decide (completion_type completion ≠ KVS_RDMA_COMPLETION_RECV)
     || bool_decide (rm_state m ≠ KVS_REPLICATION_STATE_FULL_SYNC) || (length =? 0)
     || (KVS_REPLICATION_RDMA_BUFFER_CAPACITY <? length) || (wf_remaining (rm_snapshot_writer m) mod 2 ^ 64 <? length)
  then mret (-1) else
  written ← kvs_replication_receive_snapshot_data connection_fd (completion_data completion);
  if negb (written =? length) then mret (-1) else
  update_sync (λ s, sync_snapshot_bytes (rs_snapshot_bytes s + written) s);;
  m ← manager;
  r ← on_rdma (kvs_rdma_connection_receive_next (rs_connection (rm_rdma_sync m)));
  if r <? 0 then mret (-1) else mret KVS_STREAM_WAIT.

(** The array is not written. *)
Definition kvs_replication_upstream_stream (connection_fd output_capacity : Z) : M N (Z * bytes) :=
  m ← manager;
  if negb (rm_initialized m) || bool_decide (rm_role m ≠ KVS_ROLE_REPLICA) || (connection_fd <? 0)
     || negb (connection_fd =? rm_primary_connection_fd m) || (output_capacity <=? 0)
  then mret (-1, []) else
  if bool_decide (rs_connection (rm_rdma_sync m) = None) then mret (0, []) else
  '(result, event) ← on_rdma (kvs_rdma_connection_poll_event (rs_connection (rm_rdma_sync m))
    KVS_REPLICATION_RDMA_BUFFER_CAPACITY 1);
  if result <? 0 then mret (-1, []) else
  if (0 <? result) && bool_decide (event_type event = KVS_RDMA_EVENT_DISCONNECTED) then
    r ← upstream_disconnected;
    mret (r, [])
  else
  r ← (if (0 <? result) && bool_decide (event_type event = KVS_RDMA_EVENT_ESTABLISHED) then upstream_established else mret 0);
  if r <? 0 then mret (-1, []) else
  m ← manager;
  if negb (rs_established (rm_rdma_sync m)) then mret (KVS_STREAM_WAIT, []) else
  r ← upstream_acknowledge;
  if r <? 0 then mret (-1, []) else
  m ← manager;
  let sync := rm_rdma_sync m in
  if bool_decide (rm_state m = KVS_REPLICATION_STATE_CATCH_UP) && (rs_snapshot_bytes sync =? rm_snapshot_file_size m)
     && (rs_acknowledged_bytes sync =? rs_snapshot_bytes sync)
  then mret (KVS_STREAM_WAIT, []) else
  r ← upstream_completion connection_fd;
  mret (r, []).

(** The address, the port and the four handlers of the connection to the primary. *)
Record kvs_connector_config_t := ConnectorConfig {
  cc_host : bytes;
  cc_port : Z;
  cc_open_handler : Z → Z → M N (Z * bytes);
  cc_message_handler : Z → bytes → kvs_output_buffer_t → M N (Z * bytes * Z);
  cc_stream_handler : Z → Z → M N (Z * bytes);
  cc_close_handler : Z → M N unit;
}.
Definition kvs_replication_build_connector_config : M N (option kvs_connector_config_t) :=
  m ← manager;
  if negb (rm_initialized m) || bool_decide (rm_role m ≠ KVS_ROLE_REPLICA) || bool_decide (rm_primary_host m = [])
     || (rm_primary_port m =? 0)
  then mret None else
  mret (Some (ConnectorConfig (rm_primary_host m) (rm_primary_port m) kvs_replication_on_primary_connected
    kvs_replication_upstream_network_protocol kvs_replication_upstream_stream kvs_replication_on_primary_disconnected)).

(** ** The primary *)

Definition kvs_replication_primary_start_catch_up : M N Z :=
  close_snapshot_reader;;
  catch_up_end ← aof_offset;
  m ← manager;
  if catch_up_end <? rm_replication_offset m then mret (-1) else
  close_aof_reader;;
  r ← open_aof_reader (rm_replication_offset m) catch_up_end;
  if r <? 0 then mret (-1) else
  update (set_state KVS_REPLICATION_STATE_CATCH_UP);;
  mret 0.

Definition kvs_replication_rdma_send_snapshot_chunk : M N Z :=
  m ← manager;
  if rs_send_pending (rm_rdma_sync m) then mret KVS_STREAM_WAIT else
  chunk ← on_rdma (libc_malloc KVS_REPLICATION_RDMA_BUFFER_CAPACITY);
  match chunk with
  | None => mret (-1)
  | Some chunk =>
      '(data, reader) ← on_files (kvs_snapshot_reader_read (rm_snapshot_reader m) KVS_REPLICATION_RDMA_BUFFER_CAPACITY);
      update (set_snapshot_reader reader);;
      sent ← match data with
             | None | Some [] => mret (-1)
             | Some data => on_rdma (kvs_rdma_connection_send (rs_connection (rm_rdma_sync m)) data)
             end;
      on_rdma (libc_free chunk);;
      if sent <? 0 then mret (-1) else
      update_sync (sync_send_pending true);;
      update_sync (λ s, sync_snapshot_bytes (rs_snapshot_bytes s + zlen (default [] data)) s);;
      mret KVS_STREAM_WAIT
  end.

(** A disconnection: the catch-up starts when everything was acknowledged. *)
Definition primary_disconnected : M N Z :=
  m ← manager;
  let finished := rm_rdma_sync m in
  if negb (rs_disconnect_pending finished) || rs_send_pending finished
     || negb (rs_snapshot_bytes finished =? rm_snapshot_file_size m)
     || negb (rs_acknowledged_bytes finished =? rs_snapshot_bytes finished)
  then mret (-1) else
  r ← kvs_replication_rdma_sync_close;
  if r <? 0 then mret (-1) else
  r ← kvs_replication_primary_start_catch_up;
  if r <? 0 then mret (-1) else mret 0.

(** A message of the replica: an acknowledgement, or READY before the first chunk. *)
Definition primary_message (data : bytes) : M N Z :=
  m ← manager;
  let sync := rm_rdma_sync m in
  if 0 <? rs_snapshot_bytes sync then
    expected_ack ← print_line MESSAGE_ROOM (ack_message (rs_snapshot_bytes sync));
    match expected_ack with
    | None => mret (-1)
    | Some expected_ack =>
        if (rs_snapshot_bytes sync <=? rs_acknowledged_bytes sync) || bool_decide (data ≠ expected_ack) then mret (-1) else
        r ← on_rdma (kvs_rdma_connection_receive_next (rs_connection sync));
        if r <? 0 then mret (-1) else
        update_sync (λ s, sync_acknowledged_bytes (rs_snapshot_bytes s) s);;
        mret KVS_STREAM_WAIT
    end
  else
    expected ← print_line MESSAGE_ROOM (ready_message (rm_full_sync_id m));
    match expected with
    | None => mret (-1)
    | Some expected =>
        if negb (rs_snapshot_bytes sync =? 0) || bool_decide (data ≠ expected) then mret (-1) else
        r ← on_rdma (kvs_rdma_connection_receive_next (rs_connection sync));
        if r <? 0 then mret (-1) else
        kvs_replication_rdma_send_snapshot_chunk
    end.

(** The data part of a full synchronisation. *)
Definition primary_full_sync : M N Z :=
  m ← manager;
  let sync := rm_rdma_sync m in
  if rs_disconnect_pending sync then mret KVS_STREAM_WAIT else
  if negb (rs_established sync) then mret KVS_STREAM_WAIT else
  if negb (rs_send_pending sync) && (0 <? rs_snapshot_bytes sync)
     && (rs_acknowledged_bytes sync =? rs_snapshot_bytes sync) && (0 <=? sr_fd (rm_snapshot_reader m))
  then
    if 0 <? sr_remaining (rm_snapshot_reader m) then kvs_replication_rdma_send_snapshot_chunk else
    r ← on_rdma (kvs_rdma_connection_disconnect (rs_connection sync));
    if r <? 0 then mret (-1) else
    update_sync (sync_disconnect_pending true);;
    close_snapshot_reader;;
    mret KVS_STREAM_WAIT
  else
  '(completed, completion) ← on_rdma (kvs_rdma_connection_poll_completion (rs_connection sync));
  if completed <? 0 then mret (-1) else
  if completed =? 0 then mret KVS_STREAM_WAIT else
  if bool_decide (completion_type completion = KVS_RDMA_COMPLETION_SEND) then
    update_sync (sync_send_pending false);;
    mret KVS_STREAM_WAIT
  else if bool_decide (completion_type completion ≠ KVS_RDMA_COMPLETION_RECV) then mret (-1)
  else primary_message (completion_data completion).

(** The part of [kvs_replication_stream] for a full synchronisation; [None] when it goes
    on with the log. *)
Definition primary_rdma_stream : M N (option Z) :=
  m ← manager;
  if bool_decide (rm_rdma_cleanup_connection m ≠ None) then mret (Some (-1)) else
  '(result, connection, event) ← on_rdma (kvs_rdma_listener_poll (rm_rdma_listener m) (rs_connection (rm_rdma_sync m))
    KVS_REPLICATION_RDMA_BUFFER_CAPACITY 1);
  update_sync (sync_connection connection);;
  if result <? 0 then
    (if bool_decide (event_connection event ≠ None) && bool_decide (event_connection event ≠ connection)
     then update (set_rdma_cleanup_connection (event_connection event)) else mret tt);;
    mret (Some (-1))
  else
  r ← (if (0 <? result) && bool_decide (event_type event = KVS_RDMA_EVENT_DISCONNECTED) then primary_disconnected else mret 0);
  if r <? 0 then mret (Some (-1)) else
  (if (0 <? result) && bool_decide (event_type event = KVS_RDMA_EVENT_ESTABLISHED)
   then update_sync (sync_established true) else mret tt);;
  m ← manager;
  if bool_decide (rm_state m = KVS_REPLICATION_STATE_FULL_SYNC) then
    r ← primary_full_sync;
    mret (Some r)
  else mret None.

(** The end of a range of the log: [None] when another range was opened. *)
Definition primary_range_done (output_capacity : Z) : M N (option (Z * bytes)) :=
  m ← manager;
  let sent_offset := rd_offset (rm_aof_reader m) in
  close_aof_reader;;
  latest_offset ← aof_offset;
  if latest_offset <? sent_offset then mret (Some (-1, [])) else
  if sent_offset <? latest_offset then
    r ← open_aof_reader sent_offset latest_offset;
    if r <? 0 then mret (Some (-1, [])) else mret None
  else
  update (set_replication_offset sent_offset);;
  m ← manager;
  if bool_decide (rm_state m = KVS_REPLICATION_STATE_ONLINE) then mret (Some (KVS_STREAM_WAIT, [])) else
  line ← print_line output_capacity (online_line sent_offset);
  match line with
  | None => mret (Some (-1, []))
  | Some text =>
      update (set_replication_offset sent_offset);;
      update (set_state KVS_REPLICATION_STATE_ONLINE);;
      mret (Some (zlen text, text))
  end.

(** After the loop: an online replica is sent what the log has gained. *)
Definition primary_online_stream (result output_capacity : Z) : M N (Z * bytes) :=
  m ← manager;
  if bool_decide (rm_state m = KVS_REPLICATION_STATE_ONLINE) then
    latest_offset ← aof_offset;
    if latest_offset <? rm_replication_offset m then mret (-1, []) else
    if latest_offset =? rm_replication_offset m then mret (KVS_STREAM_WAIT, []) else
    r ← open_aof_reader (rm_replication_offset m) latest_offset;
    if r <? 0 then mret (-1, []) else
    data ← read_aof output_capacity;
    match data with
    | None | Some [] => close_aof_reader;; mret (-1, [])
    | Some data => mret (zlen data, data)
    end
  else mret (result, []).

(** The [while] loop over the ranges of the log. *)
Fixpoint primary_log_loop (fuel : nat) (result output_capacity : Z) : M N (Z * bytes) :=
  m ← manager;
  if rd_fd (rm_aof_reader m) <? 0 then primary_online_stream result output_capacity else
  match fuel with
  | O => undefined
  | S fuel =>
      data ← read_aof output_capacity;
      match data with
      | None => close_aof_reader;; mret (-1, [])
      | Some [] =>
          r ← primary_range_done output_capacity;
          match r with
          | Some r => mret r
          | None => primary_log_loop fuel 0 output_capacity
          end
      | Some data => mret (zlen data, data)
      end
  end.

Definition kvs_replication_stream (connection_fd output_capacity : Z) : M N (Z * bytes) :=
  m ← manager;
  if negb (rm_initialized m) || bool_decide (rm_role m ≠ KVS_ROLE_PRIMARY) || (connection_fd <? 0) || (output_capacity <=? 0)
  then mret (-1, []) else
  if rm_snapshot_connection_fd m <? 0 then mret (0, []) else
  if negb (connection_fd =? rm_snapshot_connection_fd m) then mret (0, []) else
  r ← (if bool_decide (rm_state m = KVS_REPLICATION_STATE_FULL_SYNC) then primary_rdma_stream else mret None);
  match r with
  | Some r => mret (r, [])
  | None => primary_log_loop 2 0 output_capacity
  end.

(** *** Identifiers *)

Definition hex : bytes := lit "0123456789abcdef".
Definition hex_text (random_bytes : bytes) : M N bytes :=
  deref (mjoin <$> mapM (λ c, a ← znth hex (uchar c / 16); b ← znth hex (uchar c mod 16); Some [a; b]) random_bytes).

(** The loop around [getrandom]. *)
Fixpoint random_loop (fuel : nat) (received : bytes) : M D (option bytes) :=
  let size := KVS_REPLICATION_ID_HEX_LENGTH / 2 in
  if zlen received <? size then
    '(result, eintr) ← sys_getrandom (size - zlen received);
    match fuel with
    | O => undefined
    | S fuel =>
        match result with
        | Some [] => mret None
        | Some b => random_loop fuel (received ++ b)
        | None => if (eintr : bool) then random_loop fuel received else mret None
        end
    end
  else mret (Some received).

(** [output] has room for an identifier; [None] is -1. *)
Definition kvs_replication_generate_id : M N (option bytes) :=
  n ← on_files (gets interruptions);
  r ← on_files (random_loop (S (Z.to_nat (KVS_REPLICATION_ID_HEX_LENGTH / 2) + n)) []);
  match r with
  | None => mret None
  | Some random_bytes => text ← hex_text random_bytes; mret (Some text)
  end.

(** *** The control connection *)

Definition answer_psync (connection_fd response_capacity : Z) : M N (option bytes) :=
  m ← manager;
  if negb (rm_initialized m) || bool_decide (rm_role m ≠ KVS_ROLE_PRIMARY) || bool_decide (rm_replication_id m = []) then mret None else
  if (0 <=? rm_snapshot_connection_fd m) || bool_decide (rs_connection (rm_rdma_sync m) ≠ None)
     || bool_decide (rm_rdma_cleanup_connection m ≠ None)
  then mret None else
  offset ← aof_offset;
  if offset <? 0 then mret None else
  es ← gets (λ n, sv_engines (nd_server n));
  saved ← on_server (on_io (kvs_snapshot_store_save_with_checkpoint es KVS_REPLICATION_PRIMARY_SNAPSHOT_PATH
    (Some (Checkpoint 1 offset))));
  if saved <? 0 then mret None else
  snapshot_stat ← on_files (sys_stat KVS_REPLICATION_PRIMARY_SNAPSHOT_PATH);
  match snapshot_stat with
  | Some (true, st_size) =>
      if st_size <=? 0 then mret None else
      close_snapshot_reader;;
      close_aof_reader;;
      m ← manager;
      '(r, reader) ← on_files (kvs_snapshot_reader_open (rm_snapshot_reader m) KVS_REPLICATION_PRIMARY_SNAPSHOT_PATH st_size);
      update (set_snapshot_reader reader);;
      if r <? 0 then mret None else
      id ← kvs_replication_generate_id;
      match id with
      | None => mret None
      | Some id =>
          update (set_full_sync_id id);;
          update (set_replication_offset offset);;
          update (set_snapshot_file_size st_size);;
          update (set_snapshot_connection_fd connection_fd);;
          update (set_state KVS_REPLICATION_STATE_FULL_SYNC);;
          m ← manager;
          print_line response_capacity (fullresync_line (rm_replication_id m) (rm_replication_offset m)
            (rm_snapshot_file_size m) (rm_rdma_port m) (rm_full_sync_id m))
      end
  | _ => mret None
  end.

Definition kvs_replication_frame_protocol (connection_fd : Z) : kvs_frame_handler N := λ frame response_capacity,
  if (connection_fd <? 0) || (zlen frame <=? 0) || (response_capacity <=? 0) then mret (-1, []) else
  line ← (if bool_decide (frame = lit "PING") then print_line response_capacity pong_line
          else if bool_decide (frame = lit "PSYNC ? -1") then answer_psync connection_fd response_capacity
          else print_line response_capacity unknown_line);
  match line with
  | None => mret (-1, [])
  | Some text => mret (zlen text, text)
  end.

Definition kvs_replication_network_protocol (connection_fd : Z) (msg : bytes) (response : kvs_output_buffer_t) :
    M N (Z * bytes * Z) :=
  if bool_decide (o_data response = None) || (o_capacity response <=? 0) then mret (-1, [], 0) else
  r ← kvs_line_batch_protocol msg (zlen msg) (o_capacity response) (kvs_replication_frame_protocol connection_fd);
  match r with
  | None => mret (-1, [], 0)
  | Some (consumed, reply) => mret (zlen reply, reply, consumed)
  end.

Definition kvs_replication_on_replica_disconnected (connection_fd : Z) : M N unit :=
  m ← manager;
  if negb (rm_initialized m) || bool_decide (rm_role m ≠ KVS_ROLE_PRIMARY) || (connection_fd <? 0)
     || negb (rm_snapshot_connection_fd m =? connection_fd)
  then mret tt else
  kvs_replication_rdma_sync_close;;
  update (set_full_sync_id []);;
  close_snapshot_reader;;
  close_aof_reader;;
  update (set_snapshot_connection_fd (-1));;
  update (set_snapshot_file_size (-1));;
  update (set_state KVS_REPLICATION_STATE_DISCONNECTED).

(** ** The life of the manager *)

Definition kvs_replication_init (role : kvs_role_t) (primary_host : option bytes) (primary_port : Z)
    (snapshot_install_handler : option (bytes → Z → M W Z)) (command_handler : option (addr → aof_replay_handler W)) : M N Z :=
  m ← manager;
  match command_handler with
  | None => mret (-1)
  | Some _ =>
      if rm_initialized m then mret (-1) else
      let host := default [] primary_host in
      if bool_decide (role = KVS_ROLE_REPLICA) && (bool_decide (host = []) || (primary_port =? 0) || (KVS_REPLICATION_HOST_MAX_LENGTH <=? zlen host))
      then mret (-1) else
      offset ← aof_offset;
      if offset <? 0 then mret (-1) else
      generated_replication_id ← (if bool_decide (role = KVS_ROLE_PRIMARY) then kvs_replication_generate_id else mret (Some []));
      match generated_replication_id with
      | None => mret (-1)
      | Some id =>
          update (set_role role);;
          update (set_replication_offset offset);;
          update (set_snapshot_install_handler snapshot_install_handler);;
          update (set_command_handler command_handler);;
          update (set_snapshot_file_size (-1));;
          update (set_snapshot_connection_fd (-1));;
          update (set_snapshot_reader reader_closed);;
          update (set_aof_reader (AofReader (-1) 0 0));;
          update (set_replication_id id);;
          update (set_primary_connection_fd (-1));;
          update (set_state KVS_REPLICATION_STATE_DISCONNECTED);;
          (if bool_decide (role = KVS_ROLE_REPLICA)
           then update (set_primary_host host);; update (set_primary_port primary_port)
           else update (set_primary_host []);; update (set_primary_port 0));;
          update (set_initialized true);;
          mret 0
      end
  end.

Definition kvs_replication_destroy : M N unit :=
  m ← manager;
  if negb (rm_initialized m) then mret tt else
  '(r, connection) ← on_rdma (kvs_rdma_connection_close (rm_rdma_cleanup_connection m));
  update (set_rdma_cleanup_connection connection);;
  if r <? 0 then mret tt else
  r ← kvs_replication_rdma_sync_close;
  if r <? 0 then mret tt else
  '(r, listener) ← on_rdma (kvs_rdma_listener_close (rm_rdma_listener m));
  update (set_rdma_listener listener);;
  if r <? 0 then mret tt else
  update (set_rdma_port 0);;
  update (set_role KVS_ROLE_STANDALONE);;
  update (set_replication_offset 0);;
  close_snapshot_reader;;
  close_aof_reader;;
  abort_snapshot;;
  update (set_snapshot_connection_fd (-1));;
  update (set_snapshot_file_size (-1));;
  update (set_replication_id []);;
  update (set_primary_host []);;
  update (set_primary_port 0);;
  update (set_primary_connection_fd (-1));;
  update (set_state KVS_REPLICATION_STATE_DISCONNECTED);;
  update (set_initialized false).

Definition kvs_replication_start_rdma_listener (bind_ip : bytes) (port : Z) : M N Z :=
  m ← manager;
  if negb (rm_initialized m) || bool_decide (rm_role m ≠ KVS_ROLE_PRIMARY) || (port =? 0) then mret (-1) else
  if bool_decide (rm_rdma_listener m ≠ None) then mret (-1) else
  listener ← on_rdma kvs_rdma_listener_create;
  update (set_rdma_listener listener);;
  if bool_decide (listener = None) then mret (-1) else
  r ← on_rdma (kvs_rdma_listener_start listener bind_ip port 1);
  if r <? 0 then mret (-1) else
  update (set_rdma_port port);;
  mret 0.
End ops.

(** * Steps *)

(** [snprintf] of a line that fits. *)
Lemma print_line_fits {V} (cap : Z) (text : bytes) : zlen text < cap ≤ INT_MAX →
  print_line cap text = (mret (Some text) : M V _).
Proof.
  intros Hc. pose proof (zlen_nonneg text). unfold print_line, snprintf. rewrite (proj2 (Z.ltb_ge INT_MAX _)) by lia.
  rewrite (proj2 (Z.ltb_ge _ 0)), (proj2 (Z.leb_gt cap _)), (proj2 (Z.leb_gt cap 0)) by lia. cbn [orb].
  rewrite take_app_le, take_take, take_ge; [done|unfold zlen in *; lia|].
  rewrite length_take. unfold zlen in *. lia.
Qed.

(** It stores the line, or there is no room. *)
Lemma print_line_cases {V} (cap : Z) (text : bytes) : 
  print_line cap text = (mret (if (zlen text <? cap) && (zlen text <=? INT_MAX) then Some text else None) : M V _).
Proof.
  pose proof (zlen_nonneg text). unfold print_line, snprintf.
  destruct (Z.ltb_spec INT_MAX (zlen text)); [rewrite (proj2 (Z.leb_gt _ INT_MAX)), andb_false_r by done; done|].
  rewrite (proj2 (Z.leb_le _ INT_MAX)), andb_true_r, (proj2 (Z.ltb_ge _ 0)) by lia. cbn [orb].
  destruct (Z.leb_spec cap (zlen text)); [by rewrite (proj2 (Z.ltb_ge _ cap)) by lia|].
  rewrite (proj2 (Z.ltb_lt _ cap)), (proj2 (Z.leb_gt cap 0)) by lia. do 2 f_equal.
  rewrite take_app_le, take_take, take_ge; [done|unfold zlen in *; lia|].
  rewrite length_take. unfold zlen in *. lia.
Qed.

Section op_steps.
Context `{CRuntimeLaws RT} `{OsLaws D} `{RdmaLaws T} {Ea Er Eh Es : Type}
  `{!Engine RT Ea} `{!Engine RT Er} `{!Engine RT Eh} `{!Engine RT Es}.
Notation engines := (kv_engines Ea Er Eh Es).
Notation W := (server RT D engines).
Notation N := (node RT D engines T).
Implicit Types n : N.

(** The disk of a node. *)
Definition node_disk n : D := p_os (sv_io (nd_server n)).

Definition closed_fd (fd : Z) (d d' : D) : Prop :=
  keeps_health d d' ∧ os_names d' = os_names d ∧ os_data d' = os_data d ∧
  os_fds d' = if 0 <=? fd then delete fd (os_fds d) else os_fds d.

Lemma step_abort {X} (k : unit → M N X) n Q G :
  (∀ d, keeps_health (node_disk n) d → os_data d = os_data (node_disk n) →
     os_fds d = (if 0 <=? wf_fd (rm_snapshot_writer (nd_rep n)) then delete (wf_fd (rm_snapshot_writer (nd_rep n))) (os_fds (node_disk n))
                 else os_fds (node_disk n)) →
     (os_names d = delete KVS_REPLICATION_REPLICA_SNAPSHOT_TEMP_PATH (os_names (node_disk n)) ∨
      os_names d = os_names (node_disk n) ∧ ¬ healthy (node_disk n)) →
     wpx (k tt) (put_manager (set_snapshot_writer writer_closed (nd_rep n)) (node_put_os d n)) Q G) →
  wpx (abort_snapshot ≫= k) n Q G.
Proof.
  intros Hk. unfold abort_snapshot. rewrite !wpx_bind_assoc. apply step_manager. rewrite !wpx_bind_assoc.
  eapply step_files; [by apply snapshot_writer_abort_spec|]. intros writer d (Hh & -> & Hd & Hf & Hn). apply step_put. by apply Hk.
Qed.

Lemma step_close_snapshot_reader {X} (k : unit → M N X) n Q G :
  (∀ d, closed_fd (sr_fd (rm_snapshot_reader (nd_rep n))) (node_disk n) d →
     wpx (k tt) (put_manager (set_snapshot_reader reader_closed (nd_rep n)) (node_put_os d n)) Q G) →
  wpx (close_snapshot_reader ≫= k) n Q G.
Proof.
  intros Hk. unfold close_snapshot_reader. rewrite !wpx_bind_assoc. apply step_manager. rewrite !wpx_bind_assoc.
  eapply step_files; [apply snapshot_reader_close_spec|]. intros reader d (Hh & -> & Hn & Hd & Hf). apply step_put. by apply Hk.
Qed.

Lemma aof_reader_close_spec reader (d : D) :
  wp (kvs_aof_reader_close reader) d (λ reader' d', reader' = AofReader (-1) 0 0 ∧ closed_fd (rd_fd reader) d d').
Proof.
  unfold kvs_aof_reader_close, closed_fd. destruct (Z.leb_spec 0 (rd_fd reader)).
  - apply wp_bind_assoc. unfold kvs_aof_file_close. rewrite (proj2 (Z.ltb_ge _ 0)) by lia.
    eapply wp_step; [apply close_law|]. intros x d1 (Hk & Hn & Hd & Hf & _). eapply wp_eq; [done|]. by apply wp_ret.
  - apply wp_ret. split_and!; try done. by intros ?.
Qed.

Lemma step_close_aof_reader {X} (k : unit → M N X) n Q G :
  (∀ d, closed_fd (rd_fd (rm_aof_reader (nd_rep n))) (node_disk n) d →
     wpx (k tt) (put_manager (set_aof_reader (AofReader (-1) 0 0) (nd_rep n)) (node_put_os d n)) Q G) →
  wpx (close_aof_reader ≫= k) n Q G.
Proof.
  intros Hk. unfold close_aof_reader. rewrite !wpx_bind_assoc. apply step_manager. rewrite !wpx_bind_assoc.
  eapply step_files; [apply aof_reader_close_spec|]. intros reader d (-> & Hc). apply step_put. by apply Hk.
Qed.

(** The connection is given up, or it stays and so does the progress. *)
Lemma step_sync_close {X} (k : Z → M N X) n Q G :
  (∀ t, traffic_same (nd_rdma n) t → wpx (k 0) (put_manager (set_rdma_sync rdma_sync_zero (nd_rep n)) (put_rdma t n)) Q G) →
  (∀ t, traffic_same (nd_rdma n) t → rs_connection (rm_rdma_sync (nd_rep n)) ≠ None →
     wpx (k (-1)) (put_manager (nd_rep n) (put_rdma t n)) Q G) →
  wpx (kvs_replication_rdma_sync_close ≫= k) n Q G.
Proof.
  intros Hk Hf. unfold kvs_replication_rdma_sync_close. rewrite !wpx_bind_assoc. apply step_manager. rewrite !wpx_bind_assoc.
  eapply step_rdma; [apply connection_close_law|]. intros [r c] t (Ht & Hr). rewrite !wpx_bind_assoc. apply step_update_sync.
  destruct Hr as [[-> ->]|(-> & -> & Hne)]; cbn [Z.ltb Z.compare].
  - rewrite !wpx_bind_assoc. apply step_update_sync. by apply Hk.
  - specialize (Hf t Ht Hne). destruct n as [w m t0]. destruct m as [? ? s]. by destruct s.
Qed.
End op_steps.
