(* ===== verification/ReplicationLines.v ===== *)
(** The lines of the control connection, src/replication/replication.c: what a side
    prints, the other side reads back.  The definitions are those of Replication. *)

From Stdlib Require Import ZArith Lia.
From S2P Require Import Prelude Runtime Engine Codec Buffer SnapshotFormat SnapshotStore SnapshotLoad RepState Replication.

(** ** The lines *)

Lemma scan_lld_bounds s n s' : scan_lld s = Some (n, s') → n ≤ INT64_MAX.
Proof. unfold scan_lld. intros ([k x] & _ & E)%bind_Some. injection E as <- _. unfold INT64_MAX. lia. Qed.

Lemma scan_fullresync_bounds frame r : scan_fullresync frame = Some r → fr_offset r ≤ INT64_MAX ∧ fr_size r ≤ INT64_MAX.
Proof.
  unfold scan_fullresync. cbv zeta.
  intros (s1 & _ & ([id s2] & _ & ([offset s3] & Eo%scan_lld_bounds & ([size s4] & Esz%scan_lld_bounds & ([port s5] & _ & ([sync s6] & _ & E)%bind_Some)%bind_Some)%bind_Some)%bind_Some)%bind_Some)%bind_Some.
  by injection E as <-.
Qed.

(** An identifier. *)
Definition id_ok (id : bytes) : Prop := zlen id = KVS_REPLICATION_ID_HEX_LENGTH ∧ Forall (λ c, is_hex c = true) id.

Lemma span_app P width a c s : Forall (λ c, P c = true) a → (List.length a ≤ width)%nat → (width = List.length a ∨ P c = false) →
  span P width (a ++ c :: s) = (a, c :: s).
Proof.
  revert width. induction a as [|x a IH]; intros width Ha Hw Hc; cbn in *.
  - destruct width; [done|]. destruct Hc as [|Hc]; [done|]. cbn. by rewrite Hc.
  - destruct width as [|width]; [lia|]. apply Forall_cons in Ha as [Hx Ha]. cbn. rewrite Hx, IH; [done|done|lia|].
    destruct Hc; [left; lia|by right].
Qed.

Lemma span_all P width a : Forall (λ c, P c = true) a → (List.length a ≤ width)%nat → span P width a = (a, []).
Proof.
  revert width. induction a as [|x a IH]; intros width Ha Hw; cbn in *; [by destruct width|].
  destruct width as [|width]; [lia|]. apply Forall_cons in Ha as [Hx Ha]. cbn. rewrite Hx, IH; [done|done|lia].
Qed.

Lemma scan_integer_text width v t c s : number_text v t → (List.length t ≤ width)%nat → is_digit c = false →
  scan_integer width (t ++ c :: s) = Some (v, c :: s).
Proof.
  intros (Hne & Hd & <-) Hw Hc. unfold scan_integer. destruct width as [|width]; [destruct t; cbn in *; [done|lia]|].
  destruct t as [|x ts]; [done|]. cbn [app]. pose proof Hd as [Hx _]%Forall_cons.
  assert ([x] ≠ lit "-" ∧ [x] ≠ lit "+") as [Hm Hp] by (split; intros E; injection E as ->; done).
  rewrite !bool_decide_eq_false_2 by done. change (x :: ts ++ c :: s) with ((x :: ts) ++ c :: s).
  rewrite span_app; [done|done|done|by right].
Qed.

Lemma scan_white_digit t s v : number_text v t → scan_white (t ++ s) = t ++ s.
Proof.
  intros (Hne & Hd & _). destruct t as [|x t]; [done|]. apply Forall_cons in Hd as [Hx _]. cbn.
  apply is_digit_range in Hx. unfold is_white, schar in *. pose proof (uchar_range x).
  destruct (Z.ltb_spec (uchar x) 128); destruct (Z.leb_spec 9 (uchar x)), (Z.leb_spec (uchar x) 13), (Z.eqb_spec (uchar x) 32); cbn; done || lia.
Qed.

Lemma scan_white_hex a s : Forall (λ c, is_hex c = true) a → a ≠ [] → scan_white (a ++ s) = a ++ s.
Proof.
  intros Ha Hne. destruct a as [|x a]; [done|]. apply Forall_cons in Ha as [Hx _]. cbn.
  unfold is_hex, is_white in *. apply orb_true_iff in Hx. pose proof (uchar_range x).
  assert (32 < uchar x) as Hgt.
  { destruct Hx as [Hx|Hx]; [apply is_digit_range in Hx; unfold schar in Hx; destruct (Z.ltb_spec (uchar x) 128); lia|].
    apply andb_true_iff in Hx as [Hx _]. apply Z.leb_le in Hx. lia. }
  rewrite (proj2 (Z.leb_gt (uchar x) 13)), (proj2 (Z.eqb_neq _ 32)), andb_false_r by lia. done.
Qed.

Lemma number_length v : 0 ≤ v ≤ 65535 → (List.length (write_decimal v) ≤ 5)%nat.
Proof.
  intros Hv. assert (v ≤ SIZE_MAX) by (unfold SIZE_MAX; lia). destruct (write_decimal_text v) as [_ Hl]; [lia|]. unfold zlen in Hl.
  assert (decimal_digits v ≤ 5); [|lia]. unfold decimal_digits.
  destruct (decimal_digits_loop_spec 20 v 1) as (j & -> & Hj & _ & Hge); [cbn; lia|].
  destruct Hge as [->|Hge]; [lia|]. destruct (Z.le_gt_cases j 4); [lia|]. pose proof (Z.pow_le_mono_r 10 5 j ltac:(lia) ltac:(lia)). lia.
Qed.

Lemma scan_lld_print v c s : 0 ≤ v ≤ INT64_MAX → is_digit c = false →
  scan_lld (print_lld v ++ c :: s) = Some (v, c :: s).
Proof.
  intros Hv Hc. unfold scan_lld, print_lld. rewrite (proj2 (Z.ltb_ge v 0)) by lia.
  destruct (write_decimal_text v) as [Ht _]; [unfold SIZE_MAX, INT64_MAX in *; lia|].
  rewrite (scan_white_digit _ _ v Ht), (scan_integer_text _ v); [|done|rewrite length_app; lia|done].
  cbn. do 2 f_equal. unfold INT64_MAX in *; lia.
Qed.

Lemma set_nul_free P a : P NUL = false → Forall (λ c, P c = true) a → nul_free a.
Proof. intros Hn Ha Hin. rewrite Forall_forall in Ha. specialize (Ha _ Hin). congruence. Qed.

Lemma print_nul_free v : 0 ≤ v ≤ INT64_MAX → nul_free (print_lld v).
Proof.
  intros Hv. unfold print_lld. rewrite (proj2 (Z.ltb_ge v 0)) by lia.
  destruct (write_decimal_text v) as [(_ & Hd & _) _]; [unfold SIZE_MAX, INT64_MAX in *; lia|]. by eapply (set_nul_free is_digit).
Qed.

Lemma nul_free_app a b : nul_free a → nul_free b → nul_free (a ++ b).
Proof. unfold nul_free. rewrite elem_of_app. tauto. Qed.

Lemma scan_text_app t s : scan_text t (t ++ s) = Some s.
Proof. induction t as [|x t IH]; [by destruct s|]. cbn. by rewrite bool_decide_eq_true_2. Qed.

Lemma scan_hex_id id c s : id_ok id → scan_hex 40 (id ++ c :: s) = Some (id, c :: s).
Proof.
  intros [Hl Hh]. unfold scan_hex. unfold zlen, KVS_REPLICATION_ID_HEX_LENGTH in Hl. rewrite span_app; [|done|lia|left; lia].
  by destruct id.
Qed.

Lemma scan_hex_last id : id_ok id → scan_hex 40 id = Some (id, []).
Proof.
  intros [Hl Hh]. unfold scan_hex. unfold zlen, KVS_REPLICATION_ID_HEX_LENGTH in Hl. rewrite span_all; [|done|lia]. by destruct id.
Qed.

(** A line without its end. *)
Definition fullresync_frame (id : bytes) (offset size port : Z) (sync_id : bytes) : bytes :=
  lit "FULLRESYNC_RDMA " ++ id ++ lit " " ++ print_lld offset ++ lit " " ++ print_lld size ++ lit " " ++ print_lld port ++ lit " " ++ sync_id.

Notation SPACE := (byte_of_Z 32).

Lemma scan_white_space s : scan_white (lit " " ++ s) = scan_white s.
Proof. done. Qed.

Lemma scan_white_cons s : scan_white (SPACE :: s) = scan_white s.
Proof. done. Qed.

Lemma id_ne id : id_ok id → id ≠ [].
Proof. by intros [Hl _] ->. Qed.

Lemma scan_white_id id s : id_ok id → scan_white (id ++ s) = id ++ s.
Proof. intros Hid. apply scan_white_hex; [by destruct Hid|by apply id_ne]. Qed.

Lemma print_text v : 0 ≤ v ≤ INT64_MAX → number_text v (print_lld v).
Proof.
  intros Hv. unfold print_lld. rewrite (proj2 (Z.ltb_ge v 0)) by lia. apply write_decimal_text. unfold SIZE_MAX, INT64_MAX in *; lia.
Qed.

Lemma fullresync_scanned id offset size port sync_id : id_ok id → id_ok sync_id → 0 ≤ offset ≤ INT64_MAX → 0 < size ≤ INT64_MAX → 0 < port ≤ 65535 →
  let frame := fullresync_frame id offset size port sync_id in
  scan_fullresync frame = Some (FullResync id offset size port sync_id (zlen frame)) ∧
  bad_fullresync (FullResync id offset size port sync_id (zlen frame)) frame = false.
Proof.
  intros Hid Hsid Ho Hs Hp frame. assert (0 ≤ size ≤ INT64_MAX) as Hs' by lia. assert (0 ≤ port ≤ INT64_MAX) as Hp' by (unfold INT64_MAX; lia). split.
  - assert (nul_free frame) as Hnul.
    { destruct Hid as [_ Hh], Hsid as [_ Hh']. unfold frame, fullresync_frame. repeat apply nul_free_app;
        try (apply print_nul_free; unfold INT64_MAX in *; lia); try by eapply (set_nul_free is_hex).
      all: apply (bool_decide_unpack _); vm_compute; exact I. }
    unfold scan_fullresync. rewrite upto_nul_id by done. cbv zeta.
    assert (scan_text (lit "FULLRESYNC_RDMA") frame = Some (lit " " ++ id ++ lit " " ++ print_lld offset ++ lit " " ++ print_lld size ++
      lit " " ++ print_lld port ++ lit " " ++ sync_id)) as -> by done.
    cbn [mbind option_bind]. rewrite scan_white_space, scan_white_id by done.
    change (lit " ") with [SPACE]. cbn [app]. rewrite scan_hex_id by done. cbn [mbind option_bind].
    rewrite scan_white_cons, (scan_white_digit _ _ _ (print_text offset Ho)), (scan_lld_print offset) by done. cbn [mbind option_bind].
    rewrite scan_white_cons, (scan_white_digit _ _ _ (print_text size Hs')), (scan_lld_print size) by done. cbn [mbind option_bind].
    unfold scan_5u. rewrite scan_white_cons, !(scan_white_digit _ _ _ (print_text port Hp')).
    rewrite (scan_integer_text _ port); [|by apply print_text|unfold print_lld; rewrite (proj2 (Z.ltb_ge port 0)) by lia; apply number_length; lia|done].
    cbn [mbind option_bind]. rewrite scan_white_cons. rewrite <- (app_nil_r sync_id) at 1. rewrite scan_white_id by done.
    rewrite app_nil_r, scan_hex_last by done. cbn [mbind option_bind]. rewrite Z.mod_small by lia. by rewrite Z.sub_0_r.
  - destruct Hid as [Hl _], Hsid as [Hl' _]. unfold bad_fullresync. cbn.
    rewrite Z.eqb_refl, Hl, Hl', !Z.eqb_refl, !(proj2 (Z.ltb_ge _ _)), (proj2 (Z.leb_gt _ _)), (proj2 (Z.eqb_neq _ _)) by lia. done.
Qed.

(** *** ONLINE *)

Definition online_frame (offset : Z) : bytes := lit "ONLINE " ++ print_lld offset.

Lemma scan_integer_last width v t : number_text v t → (List.length t ≤ width)%nat → scan_integer width t = Some (v, []).
Proof.
  intros (Hne & Hd & <-) Hw. unfold scan_integer. destruct width as [|width]; [destruct t; cbn in *; [done|lia]|].
  destruct t as [|x ts]; [done|]. pose proof Hd as [Hx _]%Forall_cons.
  assert ([x] ≠ lit "-" ∧ [x] ≠ lit "+") as [Hm Hp] by (split; intros E; injection E as ->; done).
  rewrite !bool_decide_eq_false_2 by done. by rewrite span_all.
Qed.

Lemma online_scanned offset : 0 ≤ offset ≤ INT64_MAX → scan_online (online_frame offset) = Some (offset, zlen (online_frame offset)).
Proof.
  intros Ho. set (frame := online_frame offset). pose proof (print_text offset Ho) as Ht.
  assert (nul_free frame) as Hnul.
  { unfold frame, online_frame. apply nul_free_app; [|by apply print_nul_free]. apply (bool_decide_unpack _); vm_compute; exact I. }
  unfold scan_online. rewrite upto_nul_id by done. cbv zeta.
  assert (scan_text (lit "ONLINE") frame = Some (lit " " ++ print_lld offset)) as -> by done.
  cbn [mbind option_bind]. pose proof (scan_white_digit _ [] _ Ht) as Hw. rewrite app_nil_r in Hw.
  rewrite scan_white_space, Hw. unfold scan_lld. rewrite Hw, (scan_integer_last _ offset) by done. cbn [mbind option_bind].
  rewrite Z.min_l, Z.max_r by (unfold INT64_MAX in *; lia). by rewrite Z.sub_0_r.
Qed.
