(* ===== verification/ReplicaSync.v ===== *)
(** The replica's side of a full synchronisation, src/replication/replication.c: what a
    replica makes of the messages that arrive over RDMA, from the announcement of a
    snapshot to its installation.  The definitions are those of Replication. *)

From Stdlib Require Import ZArith Lia.
From S2P Require Import Prelude Runtime RbEngine Engine Codec ArrayEngine HashEngine SkipList Kvengine Buffer Os Rdma MappedFile Aof SnapshotIo SnapshotFormat SnapshotStore SnapshotLoad Kvstore RepState Execute Server Replication ReplicationLines.

(** ** A snapshot has one reading *)

Lemma record_bytes_inj r r' (x y : bytes) : record_ok r → record_ok r' → record_bytes r ++ x = record_bytes r' ++ y → r = r' ∧ x = y.
Proof.
  destruct r as [e [k v]], r' as [e' [k' v']]. intros (He & _ & _ & Hk & Hv) (He' & _ & _ & Hk' & Hv'). unfold record_bytes. cbn [fst snd] in *.
  rewrite <- !app_assoc. intros E. apply app_inj_1 in E as [Hb E]; [|done]. injection Hb as Hb. apply byte_of_Z_inj in Hb; [|lia..].
  apply app_inj_1 in E as [Ek E]; [|done]. apply app_inj_1 in E as [Ev E]; [|done].
  assert (zlen k = zlen k') as Hlk.
  { rewrite <- (decode_encode_u32 (zlen k) []), Ek by (split; [apply zlen_nonneg|done]). apply decode_encode_u32. split; [apply zlen_nonneg|done]. }
  assert (zlen v = zlen v') as Hlv.
  { rewrite <- (decode_encode_u32 (zlen v) []), Ev by (split; [apply zlen_nonneg|done]). apply decode_encode_u32. split; [apply zlen_nonneg|done]. }
  unfold zlen in *. apply app_inj_1 in E as [-> E]; [|lia]. apply app_inj_1 in E as [-> ->]; [|lia]. by subst.
Qed.

Lemma records_bytes_inj rs rs' : List.length rs = List.length rs' → Forall record_ok rs → Forall record_ok rs' →
  mjoin (record_bytes <$> rs) = mjoin (record_bytes <$> rs') → rs = rs'.
Proof.
  revert rs'. induction rs as [|r rs IH]; intros [|r' rs'] Hl Hr Hr' E; try done.
  apply Forall_cons in Hr as [Hr Hrs]. apply Forall_cons in Hr' as [Hr' Hrs'].
  rewrite !fmap_cons in E. change (record_bytes r ++ mjoin (record_bytes <$> rs) = record_bytes r' ++ mjoin (record_bytes <$> rs')) in E.
  apply record_bytes_inj in E as [-> E]; [|done..]. f_equal. apply IH; [by injection Hl|done..].
Qed.

Lemma snapshot_text_inj ck ck' rs rs' d : zlen d ≤ SIZE_MAX → snapshot_text ck rs d → snapshot_text ck' rs' d → ck = ck' ∧ rs = rs'.
Proof.
  intros Hsz Ht Ht'. pose proof (validate_complete d 0 checkpoint_zero _ _ Hsz Ht) as E.
  pose proof (validate_complete d 0 checkpoint_zero _ _ Hsz Ht') as E'. rewrite E in E'. injection E' as <-. clear E. split; [done|].
  destruct Ht as (h & Hh & Hrs & Ed), Ht' as (h' & Hh' & Hrs' & Ed').
  pose proof (records_bytes_length rs). pose proof (records_bytes_length rs'). pose proof (zlen_nonneg rs). pose proof (zlen_nonneg rs'). pose proof (zlen_nonneg h). pose proof (zlen_nonneg h').
  assert (zlen d = zlen h + zlen (mjoin (record_bytes <$> rs)) + 4) as Hl by (rewrite Ed, !zlen_app, checksum_of_length; lia).
  assert (zlen d = zlen h' + zlen (mjoin (record_bytes <$> rs')) + 4) as Hl' by (rewrite Ed', !zlen_app, checksum_of_length; lia).
  assert (∀ (rs : list snapshot_record) (h : bytes), header_text ck (zlen rs) h → (∃ rest, d = h ++ rest) → zlen rs ≤ UINT64_MAX → ∃ crc, snapshot_read_header (cur d 0 checkpoint_zero) UINT32_MAX = Some (zlen rs, crc, cur d (zlen h) ck)) as Hread.
  { intros rs0 h0 Hh0 [rest Hs] Hle. eexists. apply (read_header_complete _ _ _ (zlen rs0) ck h0); [split; [apply zlen_nonneg|done]|done|]. by exists [], rest. }
  destruct (Hread rs h) as [c1 E1]; [done| |unfold SIZE_MAX, UINT64_MAX in *; lia|].
  { rewrite Ed, <- app_assoc. by eexists. }
  destruct (Hread rs' h') as [c2 E2]; [done| |unfold SIZE_MAX, UINT64_MAX in *; lia|].
  { rewrite Ed', <- app_assoc. by eexists. }
  rewrite E1 in E2. injection E2 as En _ Ehl.
  rewrite Ed in Ed'. rewrite <- !app_assoc in Ed'. unfold zlen in *. apply app_inj_1 in Ed' as [-> Ed']; [|lia].
  apply app_inj_1 in Ed' as [Er _]; [|lia]. apply records_bytes_inj; [lia|done..].
Qed.

Section sync.
Context `{CRuntimeLaws RT} `{OsLaws D} `{RdmaLaws T} {Ea Er Eh Es : Type}
  `{!Engine RT Ea} `{!Engine RT Er} `{!Engine RT Eh} `{!Engine RT Es}
  `{!EngineLaws RT Ea} `{!EngineLaws RT Er} `{!EngineLaws RT Eh} `{!EngineLaws RT Es}.
Notation engines := (kv_engines Ea Er Eh Es).
Notation W := (server RT D engines).
Notation N := (node RT D engines T).
Notation insert_records := (insert_records (RT := RT) (Ea := Ea) (Er := Er) (Eh := Eh) (Es := Es)).
Notation record_key_ok := (record_key_ok (RT := RT) (Ea := Ea) (Er := Er) (Eh := Eh) (Es := Es)).
Notation TEMP := KVS_REPLICATION_REPLICA_SNAPSHOT_TEMP_PATH.
Notation FINAL := KVS_REPLICATION_REPLICA_SNAPSHOT_PATH.
Implicit Types (n : N) (w : W) (own : list addr) (F : gset addr) (f data b : bytes).

(** ** What a file loads to *)

(** The file is a snapshot at the log offset [offset], of the data set [ms]. *)
Definition loads offset data (ms : kv_maps) : Prop :=
  ∃ rs ms', snapshot_text (Checkpoint 1 offset) rs data ∧ insert_records empty_maps rs = Some ms' ∧ maps_eq ms ms'.

(** The keys of its records are ones the engines can hold. *)
Definition keys_ok data : Prop := ∀ ck rs, snapshot_text ck rs data → Forall record_key_ok rs.

Lemma install_spec path offset data own F f w :
  path ≠ [] → data_ok own F w → aof_log (sv_io w) f → file_at (disk w) path = Some data → zlen data ≤ SIZE_MAX → keys_ok data →
  wpx (kvs_install_replication_snapshot path offset) w (λ r w', installed own F f offset (loads offset data) w r w' ∧
    (roomy (heap w) → healthy (disk w) → (∃ ms, loads offset data ms) → r = 0)) (λ _, ¬ roomy (heap w)).
Proof.
  intros Hp Hok Hlog Hf Hsz Hk. destruct (snapshot_validate (cur data 0 checkpoint_zero)) as [c'|] eqn:E.
  - apply validate_sound in E as (ck & rs & Ht & _); [|done].
    eapply wpx_mono; [apply (install_accepted path offset data ck rs own F f w); try done; by eapply Hk| |done].
    intros r w' [(Hks & Hlo & Hok' & Hr) Hgood]. split.
    + split; [done|]. split; [done|]. split; [done|]. destruct Hr as [(-> & (-> & ms' & Hins & Hms) & Hl)|Hr]; [left|by right].
      split; [done|]. split; [by exists rs, ms'|done].
    + intros Hro Hh (ms & rs2 & ms2 & Ht2 & Hins2 & _).
      destruct (snapshot_text_inj ck _ rs rs2 data Hsz Ht Ht2) as [-> <-]. apply Hgood; [done|done|done|congruence].
  - eapply wpx_mono; [apply (install_refused path offset own F f w); try done| |done].
    + intros d ck rs Hd _ Ht. assert (d = data) as -> by congruence. by rewrite (validate_complete data 0 checkpoint_zero ck rs) in E.
    + intros d Hd. by assert (d = data) as -> by congruence.
    + intros r w' (-> & Hks & Hlo & Hok' & Hr). split.
      * split; [done|]. split; [done|]. split; [done|]. right. destruct Hr as [(_ & [] & _)|Hr]. done.
      * intros _ _ (ms & rs & ms' & Ht & _). by rewrite (validate_complete data 0 checkpoint_zero (Checkpoint 1 offset) rs) in E.
Qed.

(** ** A replica in synchronisation *)

(** The manager of a replica with its connection [fd] to the primary. *)
Definition replica fd n : Prop :=
  let m := nd_rep n in
  rm_initialized m = true ∧ rm_role m = KVS_ROLE_REPLICA ∧ 0 ≤ fd ∧ rm_primary_connection_fd m = fd ∧
  rm_snapshot_install_handler m = Some kvs_install_replication_snapshot ∧
  rm_command_handler m = Some kvs_replication_command_protocol.

(** Its data set, and its log [f]. *)
Definition replica_data own F f n : Prop :=
  server_ok own F f (nd_server n) ∧ kvs_persistence_mode (nd_server n) ≠ KVS_PERSISTENCE_SNAPSHOT.

(** The temporary file is open; it has no other name and is not the log. *)
Definition temp_file (writer : kvs_snapshot_writer_t) w : Prop :=
  ∃ i, os_fds (disk w) !! wf_fd writer = Some i ∧ os_names (disk w) !! TEMP = Some i ∧
    (∀ p : bytes, os_names (disk w) !! p = Some i → p = TEMP) ∧ os_fds (disk w) !! aw_fd (p_aof (sv_io w)) ≠ Some i.

(** The files under other names are as they were. *)
Definition others_kept (d d' : D) : Prop := ∀ p f, p ≠ TEMP → file_at d p = Some f → file_at d' p = Some f.

Lemma others_kept_refl (d : D) : others_kept d d.
Proof. by intros ?. Qed.

Lemma others_kept_trans (d1 d2 d3 : D) : others_kept d1 d2 → others_kept d2 d3 → others_kept d1 d3.
Proof. intros H12 H23 p f Hp Hf. apply H23, H12; done. Qed.

(** The first [data] bytes of the announced snapshot are in the temporary file. *)
Definition storing fd own F g data n : Prop :=
  let m := nd_rep n in let w := nd_server n in
  replica fd n ∧ rm_state m = KVS_REPLICATION_STATE_FULL_SYNC ∧ replica_data own F g n ∧
  0 ≤ rm_replication_offset m ≤ INT64_MAX ∧ 0 < rm_snapshot_file_size m ≤ INT64_MAX ∧
  receives_file (rm_snapshot_writer m) (disk w) data (rm_snapshot_file_size m) ∧ temp_file (rm_snapshot_writer m) w.

(** The messages received are the first the peer sends. *)
Definition in_order (t : T) : Prop := rdma_received t `prefix_of` rdma_stream t.

(** [data] is what the messages since [base] hold. *)
Definition messages (base : list bytes) data n : Prop :=
  in_order (nd_rdma n) ∧ ∃ chunks, rdma_received (nd_rdma n) = base ++ chunks ∧ mjoin chunks = data.

Definition receiving fd own F g base data n : Prop :=
  let s := rm_rdma_sync (nd_rep n) in
  storing fd own F g data n ∧ messages base data n ∧ zlen data < rm_snapshot_file_size (nd_rep n) ∧
  rs_snapshot_bytes s = zlen data ∧ 0 ≤ rs_acknowledged_bytes s ≤ zlen data.

(** All of it was received and installed. *)
Definition complete fd own F g base data n : Prop :=
  let m := nd_rep n in let s := rm_rdma_sync m in
  replica fd n ∧ rm_state m = KVS_REPLICATION_STATE_CATCH_UP ∧
  replica_data own F (cut_to (rm_replication_offset m) g) n ∧ 0 ≤ rm_replication_offset m ∧ messages base data n ∧
  zlen data = rm_snapshot_file_size m ∧ loads (rm_replication_offset m) data (maps (nd_server n)) ∧
  file_at (disk (nd_server n)) FINAL = Some data ∧
  rs_snapshot_bytes s = zlen data ∧ 0 ≤ rs_acknowledged_bytes s ≤ zlen data.

Lemma written_others (d d' : D) fd i f : os_fds d !! fd = Some i → (∀ p : bytes, os_names d !! p = Some i → p = TEMP) →
  fd_written d fd f d' → others_kept d d'.
Proof.
  intros Hi Hn (En & _ & j & Hj & Ed) p g Hp Hg. assert (j = i) as -> by congruence. unfold file_at in *. rewrite En, Ed.
  destruct (os_names d !! p) as [k|] eqn:Ek; [|done]. cbn in *. rewrite lookup_insert_ne; [done|]. intros <-. by apply Hp, Hn.
Qed.

Lemma written_log (io io' : pworld RT D) fd i f g : os_fds (p_os io) !! fd = Some i → os_fds (p_os io) !! aw_fd (p_aof io) ≠ Some i →
  fd_written (p_os io) fd f (p_os io') → p_aof io' = p_aof io → aof_log io g → aof_log io' g.
Proof.
  intros Hi Hl (En & Ef & j & Hj & Ed) Ha (Hfd & Hin & Hoff & Hf). unfold aof_log. rewrite Ha. split_and!; [done..|].
  unfold fd_file in *. rewrite Ef, Ed. destruct (os_fds (p_os io) !! aw_fd (p_aof io)) as [k|]; [|done]. cbn in *.
  rewrite lookup_insert_ne; [done|]. congruence.
Qed.

(** Only files and the manager changed, and the log is [f']. *)
Lemma server_ok_files own F f f' w w' : server_ok own F f w → sv_engines w' = sv_engines w → heap w' = heap w →
  aof_log (sv_io w') f' → zlen f' ≤ INT64_MAX → server_ok own F f' w'.
Proof. intros ([Hwf Ho] & _) Ee Eh' Hl Hmax. split; [|by split]. unfold data_ok. by rewrite Ee, Eh'. Qed.

Lemma cut_to_max offset g : 0 ≤ offset ≤ INT64_MAX → zlen (cut_to offset g) ≤ INT64_MAX.
Proof. intros Ho. rewrite zlen_cut_to; lia. Qed.

(** ** The end of a synchronisation *)

Definition finished fd own F g data n (r : Z) n' : Prop :=
  nd_rdma n' = nd_rdma n ∧ rm_rdma_sync (nd_rep n') = rm_rdma_sync (nd_rep n) ∧
  rm_snapshot_file_size (nd_rep n') = rm_snapshot_file_size (nd_rep n) ∧
  (r = 0 ∧ replica fd n' ∧ rm_state (nd_rep n') = KVS_REPLICATION_STATE_CATCH_UP ∧
     rm_replication_offset (nd_rep n') = rm_replication_offset (nd_rep n) ∧
     replica_data own F (cut_to (rm_replication_offset (nd_rep n)) g) n' ∧
     loads (rm_replication_offset (nd_rep n)) data (maps (nd_server n')) ∧ file_at (disk (nd_server n')) FINAL = Some data ∨
   r = -1 ∧ (∃ g', replica_data own F g' n') ∧
     (others_kept (disk (nd_server n)) (disk (nd_server n')) ∨ file_at (disk (nd_server n')) FINAL = Some data)).

(** Another descriptor was closed. *)
Lemma closed_log (io : pworld RT D) d fd i g : os_fds (p_os io) !! fd = Some i → os_fds (p_os io) !! aw_fd (p_aof io) ≠ Some i →
  os_data d = os_data (p_os io) → os_fds d = delete fd (os_fds (p_os io)) → aof_log io g → aof_log (put_os d io) g.
Proof.
  intros Hi Hne Ed Ef (Hfd & Hin & Hoff & Hf). split_and!; [done..|]. unfold fd_file in *. cbn. rewrite Ef, Ed.
  rewrite lookup_delete_ne; [done|]. intros ->. done.
Qed.

Lemma finish_spec fd own F g data n :
  storing fd own F g data n → wf_remaining (rm_snapshot_writer (nd_rep n)) = 0 → zlen data ≤ SIZE_MAX → keys_ok data →
  wpx kvs_replication_finish_full_sync n (λ r n', finished fd own F g data n r n' ∧
      (roomy (heap (nd_server n)) → healthy (node_disk n) → (∃ ms, loads (rm_replication_offset (nd_rep n)) data ms) → r = 0))
    (λ _, ¬ roomy (heap (nd_server n))).
Proof.
  intros (Hrep & Hst & [Hok Hmode] & Hoff & Hsize & Hrec & (i & Hi & Hn & Hsole & Hlogfd)) Hrem Hsz Hkeys.
  pose proof Hrep as (Hini & Hrole & Hfd & Hpfd & Hinst & Hcmd). pose proof Hrec as (Hwfd & Hfile & _).
  pose proof Hok as (Hdata & Hmax & Hlog). specialize (Hlog Hmode).
  unfold kvs_replication_finish_full_sync. apply step_manager. rewrite Hst, bool_decide_eq_false_2, Hrem by tauto. cbn [orb negb Z.eqb].
  eapply step_files; [by apply (snapshot_writer_commit_spec _ _ _ i)|]. intros [committed writer] d (Hk & -> & Hd & Hf & Hr).
  apply step_put. assert (aof_log (put_os d (sv_io (nd_server n))) g) as Hlog1 by (by eapply closed_log).
  destruct Hr as [[-> En]|(-> & En & Hnh)]; cbn [Z.ltb Z.compare]; cycle 1.
  { apply step_abort. intros d2 Hk2 Hd2 Hf2 Hn2. cbn in Hd2, Hf2, Hn2. apply wpx_ret. split; [|intros _ Hh; by destruct Hnh].
    split; [done|]. split; [done|]. split; [done|]. right. split; [done|]. split.
    - exists g. split; [|done]. eapply server_ok_files; [exact Hok|done|done| |done].
      destruct Hlog1 as (? & ? & ? & Hf1). split_and!; [done..|]. unfold fd_file in *. cbn in *. by rewrite Hf2, Hd2.
    - left. intros p f Hp Hpf. unfold file_at in *. cbn. rewrite Hd2, Hd. destruct Hn2 as [-> | [-> _]].
      + rewrite lookup_delete_ne by done. by rewrite En.
      + by rewrite En. }
  rewrite Hinst.
  assert (file_at d FINAL = Some data) as Hfinal.
  { unfold file_at. rewrite En, lookup_insert_eq. cbn. rewrite Hd. unfold fd_file in Hfile. by rewrite Hi in Hfile. }
  eapply step_server.
  { apply (install_spec FINAL (rm_replication_offset (nd_rep n)) data own F g); [done|exact Hdata|exact Hlog1|exact Hfinal|done|done]. }
  2:{ intros w Hno. exact Hno. }
  intros r w' [((_ & Hmode' & _) & (_ & En' & _ & Ed') & Hok' & Hr) Hgood]. cbn in Hmode', En', Ed'.
  assert (file_at (disk w') FINAL = Some data) as Hfinal'.
  { unfold file_at. rewrite En'. unfold file_at in Hfinal. rewrite En, lookup_insert_eq in *. cbn in *. rewrite Ed'; [done|].
    intros Hx. rewrite Hf in Hx. apply lookup_delete_Some in Hx as [_ Hx]. done. }
  assert (∀ f, aof_log (sv_io w') f → zlen f ≤ INT64_MAX → server_ok own F f w') as Hok2 by (intros f Hl Hm; by split).
  assert (r ≠ 0 → roomy (heap (nd_server n)) → healthy (node_disk n) →
    (∃ ms, loads (rm_replication_offset (nd_rep n)) data ms) → False) as Hbad.
  { intros Hne Hro Hh Hms. apply Hne, Hgood; [done| |done]. by apply Hk. }
  destruct Hr as [(-> & Hl & Hlog2)|(-> & _ & Hlog2)]; cbn [Z.ltb Z.compare].
  - apply step_put. apply wpx_ret. split; [|done]. split; [done|]. split; [done|]. split; [done|]. left. split; [done|].
    split; [by split_and!|]. split; [done|]. split; [done|]. split; [|done]. split; [|cbn; congruence].
    apply Hok2; [done|by apply cut_to_max].
  - apply wpx_ret. split; [|intros Hro Hh Hms; by destruct Hbad]. split; [done|]. split; [done|]. split; [done|]. right. split; [done|].
    split; [|right; exact Hfinal']. destruct Hlog2 as [Hl|Hl].
    + exists g. split; [by apply Hok2|]. cbn. congruence.
    + exists (cut_to (rm_replication_offset (nd_rep n)) g). split; [apply Hok2; [done|by apply cut_to_max]|]. cbn. congruence.
Qed.

(** ** A chunk *)

(** What a chunk [b] leaves when [data] was there before. *)
Definition received_chunk fd own F g data b n (r : Z) n' : Prop :=
  nd_rdma n' = nd_rdma n ∧ rm_rdma_sync (nd_rep n') = rm_rdma_sync (nd_rep n) ∧
  rm_snapshot_file_size (nd_rep n') = rm_snapshot_file_size (nd_rep n) ∧
  (r = zlen b ∧ rm_replication_offset (nd_rep n') = rm_replication_offset (nd_rep n) ∧
     (zlen (data ++ b) < rm_snapshot_file_size (nd_rep n) ∧ storing fd own F g (data ++ b) n' ∧ others_kept (node_disk n) (node_disk n') ∨
      zlen (data ++ b) = rm_snapshot_file_size (nd_rep n) ∧ replica fd n' ∧ rm_state (nd_rep n') = KVS_REPLICATION_STATE_CATCH_UP ∧
        replica_data own F (cut_to (rm_replication_offset (nd_rep n)) g) n' ∧
        loads (rm_replication_offset (nd_rep n)) (data ++ b) (maps (nd_server n')) ∧ file_at (node_disk n') FINAL = Some (data ++ b)) ∨
   r = -1 ∧ (∃ g', replica_data own F g' n') ∧
     (others_kept (node_disk n) (node_disk n') ∨
      zlen (data ++ b) = rm_snapshot_file_size (nd_rep n) ∧ file_at (node_disk n') FINAL = Some (data ++ b))).

(** When a failure is out of the question. *)
Definition can_install data n : Prop :=
  zlen data = rm_snapshot_file_size (nd_rep n) → ∃ ms, loads (rm_replication_offset (nd_rep n)) data ms.

Lemma receive_spec fd own F g data b n :
  storing fd own F g data n → b ≠ [] → zlen b ≤ INT_MAX → zlen (data ++ b) ≤ rm_snapshot_file_size (nd_rep n) →
  (zlen (data ++ b) = rm_snapshot_file_size (nd_rep n) → keys_ok (data ++ b)) →
  wpx (kvs_replication_receive_snapshot_data fd b) n (λ r n', received_chunk fd own F g data b n r n' ∧
      (roomy (heap (nd_server n)) → healthy (node_disk n) → can_install (data ++ b) n → r ≠ -1))
    (λ _, ¬ roomy (heap (nd_server n))).
Proof.
  intros Hst Hb Hbmax Hle Hkeys. pose proof Hst as (Hrep & Hstate & [Hok Hmode] & Hoff & Hsize & Hrec & Htemp).
  pose proof Hrep as (Hini & Hrole & Hfd & Hpfd & Hinst & Hcmd). pose proof Hrec as (Hwfd & Hfile & Hpos & Hrem & Htot).
  pose proof Htemp as (i & Hi & Hn & Hsole & Hlogfd). pose proof Hok as (Hdata & Hmax & Hlog). specialize (Hlog Hmode).
  rewrite zlen_app in Hle.
  assert (0 < zlen b) as Hbl. { destruct b; [done|]. rewrite zlen_cons. pose proof (zlen_nonneg b). lia. }
  unfold kvs_replication_receive_snapshot_data. apply step_manager.
  rewrite Hini, Hpfd, Z.eqb_refl, Hstate, !bool_decide_eq_false_2, (proj2 (Z.ltb_ge _ 0)), (proj2 (Z.leb_gt _ 0)) by (tauto || lia). cbn [orb negb].
  eapply step_files; [by eapply snapshot_writer_write_spec|]. intros [r writer] d (Hk & Hwf & Hr). apply step_put.
  assert (∀ f', fd_written (p_os (sv_io (nd_server n))) (wf_fd (rm_snapshot_writer (nd_rep n))) f' d →
    others_kept (p_os (sv_io (nd_server n))) d ∧ aof_log (put_os d (sv_io (nd_server n))) g) as Hothers.
  { intros f' Hw. split; [by eapply written_others|]. eapply written_log; [exact Hi|done|exact Hw|done|done]. }
  destruct Hr as [(-> & Hw & Hrec')|(-> & Hnh & k & Hw)]; cycle 1.
  { cbn [Z.ltb Z.compare]. apply wpx_ret. destruct (Hothers _ Hw) as [Ho Hl]. split; [|intros _ Hh; by destruct Hnh].
    split; [done|]. split; [done|]. split; [done|]. right. split; [done|]. split; [|by left].
    exists g. split; [|done]. by eapply server_ok_files. }
  rewrite Z.min_l in * by lia. rewrite (proj2 (Z.ltb_ge _ 0)) by lia.
  assert (take (Z.to_nat (zlen b)) b = b) as Htake by (apply take_ge; unfold zlen; lia). rewrite Htake in *.
  destruct (Hothers _ Hw) as [Ho Hl].
  set (n1 := put_manager _ _).
  assert (storing fd own F g (data ++ b) n1) as Hst1.
  { split; [by split_and!|]. split; [done|]. split; [split; [by eapply server_ok_files|done]|]. split; [done|]. split; [done|].
    split; [exact Hrec'|]. destruct Hw as (En & Ef & _). exists i. cbn. rewrite Hwf, En, Ef. by split_and!. }
  pose proof Hrec' as (_ & _ & _ & _ & Htot'). rewrite zlen_app in Htot'.
  destruct (Z.eqb_spec (wf_remaining writer) 0) as [E|E].
  - assert (zlen (data ++ b) = rm_snapshot_file_size (nd_rep n)) as Hfull by (rewrite zlen_app; lia).
    eapply wpx_stepx; [eapply wpx_mono; [apply (finish_spec fd own F g (data ++ b) n1); [done|done|unfold SIZE_MAX, INT64_MAX in *; lia|by apply Hkeys]|intros r n' Hx; exact Hx|intros n' Hx; exact Hx]|].
    intros r n' [(Ht & Esy & Esize & Hr) Hgood].
    destruct Hr as [(-> & Hrep' & Hst' & Eoff & Hd' & Hms & Hf)|(-> & Hd' & Hf)]; cbn [Z.ltb Z.compare]; apply wpx_ret.
    + split; [|intros _ _ _; lia]. split; [done|]. split; [done|]. split; [done|]. left. split; [done|]. split; [done|]. right. by split_and!.
    + split.
      * split; [done|]. split; [done|]. split; [done|]. right. split; [done|]. split; [done|].
        destruct Hf as [Hf|Hf]; [left; by eapply others_kept_trans|by right].
      * intros Hro Hh Hms. cut (-1 = 0); [done|]. apply Hgood; [done|by apply Hk|by apply Hms].
  - apply wpx_ret. split; [|intros _ _ _; lia]. split; [done|]. split; [done|]. split; [done|]. left. split; [done|]. split; [done|].
    left. split; [rewrite zlen_app; pose proof Hrec' as (_ & _ & _ & ? & _); lia|]. by split.
Qed.
(** ** Steps that leave the data alone *)

(** Only the RDMA part of the manager and the transport changed, and nothing was received. *)
Definition sync_step n n' : Prop :=
  (∃ l, nd_server n' = with_link l (nd_server n)) ∧
  (∃ s, nd_rep n' = set_rdma_sync s (nd_rep n) ∧ rs_snapshot_bytes s = rs_snapshot_bytes (rm_rdma_sync (nd_rep n)) ∧
     (rs_acknowledged_bytes s = rs_acknowledged_bytes (rm_rdma_sync (nd_rep n)) ∨
      rs_acknowledged_bytes s = rs_snapshot_bytes (rm_rdma_sync (nd_rep n)))) ∧
  rdma_received (nd_rdma n') = rdma_received (nd_rdma n) ∧ rdma_stream (nd_rdma n') = rdma_stream (nd_rdma n).

Lemma sync_step_refl n : sync_step n n.
Proof.
  split_and!; [|exists (rm_rdma_sync (nd_rep n)); split_and!; auto|done..].
  - exists (sv_link (nd_server n)). by destruct n as [[]].
  - by destruct n as [? [] ?].
Qed.

Lemma sync_step_trans n1 n2 n3 : sync_step n1 n2 → sync_step n2 n3 → sync_step n1 n3.
Proof.
  intros ((l & E) & (s & Esy & Hb & Ha) & Hr & Ht) ((l' & E') & (s' & Esy' & Hb' & Ha') & Hr' & Ht').
  rewrite Esy in *. cbn in Hb', Ha'. split_and!; [|exists s'; split_and!; [|congruence|]|congruence..].
  - exists l'. by rewrite E', E.
  - by rewrite Esy'.
  - destruct Ha' as [->| ->]; [done|]. right. congruence.
Qed.

Lemma receiving_step fd own F g base data n n' : sync_step n n' → receiving fd own F g base data n → receiving fd own F g base data n'.
Proof.
  intros ((l & E) & (s & Esy & Hb & Ha) & Hr & Ht) (Hst & Hm & Hlt & Hs & Hack).
  destruct n' as [w' m' t']. cbn in E, Esy, Hr, Ht. subst w' m'. split; [exact Hst|]. split.
  - destruct Hm as (Hi & chunks & Hc & Hj). unfold messages, in_order in *. cbn in *. rewrite Hr, Ht. split; [done|by exists chunks].
  - cbn. split; [done|]. split; [congruence|]. destruct Ha as [->| ->]; lia.
Qed.

Lemma complete_step fd own F g base data n n' : sync_step n n' → complete fd own F g base data n → complete fd own F g base data n'.
Proof.
  intros ((l & E) & (s & Esy & Hb & Ha) & Hr & Ht) (Hrep & Hst & Hd & Hoff & Hm & Hsz & Hl & Hf & Hs & Hack).
  destruct n' as [w' m' t']. cbn in E, Esy, Hr, Ht. subst w' m'. split; [exact Hrep|]. split; [exact Hst|]. split; [exact Hd|]. split; [exact Hoff|].
  split. { destruct Hm as (Hi & chunks & Hc & Hj). unfold messages, in_order in *. cbn in *. rewrite Hr, Ht. split; [done|by exists chunks]. }
  split; [exact Hsz|]. split; [exact Hl|]. split; [exact Hf|]. cbn. split; [congruence|]. destruct Ha as [->| ->]; lia.
Qed.

Lemma sync_step_rdma n t : traffic_same (nd_rdma n) t → sync_step n (put_rdma t n).
Proof. intros (Hr & _ & Hs). eapply sync_step_trans; [apply sync_step_refl|]. destruct (sync_step_refl n) as (? & ? & _). by split_and!. Qed.

Lemma sync_step_sync n t s : rdma_received t = rdma_received (nd_rdma n) → rdma_stream t = rdma_stream (nd_rdma n) →
  rs_snapshot_bytes s = rs_snapshot_bytes (rm_rdma_sync (nd_rep n)) →
  (rs_acknowledged_bytes s = rs_acknowledged_bytes (rm_rdma_sync (nd_rep n)) ∨
   rs_acknowledged_bytes s = rs_snapshot_bytes (rm_rdma_sync (nd_rep n))) →
  sync_step n (put_manager (set_rdma_sync s (nd_rep n)) (put_rdma t n)).
Proof. intros Hr Ht Hb Ha. split_and!; [by eexists|by exists s|done..]. Qed.

(** Sending a message. *)
Lemma send_message_spec text n : wpx (send_message text) n (λ r n', status r ∧ sync_step n n' ∧ nd_rep n' = nd_rep n) (λ _, False).
Proof.
  unfold send_message. rewrite print_line_cases. destruct (_ && _); (eapply wpx_eq; [done|]); cbv beta iota; [|apply wpx_ret; split_and!; [by right|apply sync_step_refl|done]].
  apply step_manager. eapply step_rdma; [apply send_law|]. intros r t (Hr & Hs & Hx).
  assert (sync_step n (put_rdma t n)) as Hstep.
  { destruct (sync_step_refl n) as (? & ? & _). by split_and!. }
  destruct Hx as [[-> _]|[-> _]]; cbn [Z.ltb Z.compare]; apply wpx_ret; unfold status; auto.
Qed.
(** ** The connection is established; the acknowledgement *)

(** What such a step leaves: the data is as it was, and so are the addresses. *)
Definition harmless n (r : Z) n' : Prop :=
  status r ∧ sync_step n n' ∧ rs_connection (rm_rdma_sync (nd_rep n')) = rs_connection (rm_rdma_sync (nd_rep n)).

Lemma harmless_refl n r : status r → harmless n r n.
Proof. intros Hr. split_and!; [done|apply sync_step_refl|done]. Qed.

(** The rest of a step after such a call, when [s] keeps the counters. *)
Lemma sync_step_after n n1 s : sync_step n n1 → nd_rep n1 = nd_rep n → rs_snapshot_bytes s = rs_snapshot_bytes (rm_rdma_sync (nd_rep n)) →
  (rs_acknowledged_bytes s = rs_acknowledged_bytes (rm_rdma_sync (nd_rep n)) ∨
   rs_acknowledged_bytes s = rs_snapshot_bytes (rm_rdma_sync (nd_rep n))) →
  sync_step n (put_manager (set_rdma_sync s (nd_rep n1)) n1).
Proof.
  intros ((l & E) & _ & Hr & Ht) Em Hb Ha. split_and!; [|exists s; split_and!; [cbn; by rewrite Em|done|done]|done|done].
  eexists. cbn. by rewrite E.
Qed.

Lemma upstream_established_spec n :
  wpx upstream_established n (λ r n', harmless n r n' ∧ rs_established (rm_rdma_sync (nd_rep n')) = true) (λ _, False).
Proof.
  unfold upstream_established. apply step_update_sync. set (n1 := put_manager _ n).
  assert (sync_step n n1) as H1n by (apply (sync_step_sync n (nd_rdma n)); auto).
  apply step_manager. eapply wpx_stepx; [apply send_message_spec|]. intros r n2 (Hr & Hn2 & Em).
  destruct Hr as [->| ->]; cbn [Z.ltb Z.compare].
  - apply step_update_sync, wpx_ret. split; [|cbn; by rewrite Em]. split; [by left|]. split; [|cbn; by rewrite Em].
    eapply sync_step_trans; [exact H1n|]. apply sync_step_after; [done|done|cbn; by rewrite Em|left; cbn; by rewrite Em].
  - apply wpx_ret. split; [|by rewrite Em]. split; [by right|]. split; [exact (sync_step_trans _ _ _ H1n Hn2)|by rewrite Em].
Qed.

Lemma upstream_acknowledge_spec n :
  wpx upstream_acknowledge n (λ r n', harmless n r n' ∧ rs_established (rm_rdma_sync (nd_rep n')) = rs_established (rm_rdma_sync (nd_rep n)))
    (λ _, False).
Proof.
  unfold upstream_acknowledge. apply step_manager. destruct (_ && _); [|apply wpx_ret; split; [by apply harmless_refl; left|done]].
  eapply wpx_stepx; [apply send_message_spec|]. intros r n2 (Hr & Hn2 & Em). destruct Hr as [->| ->]; cbn [Z.ltb Z.compare].
  - apply step_update_sync, step_update_sync, wpx_ret. split; [|cbn; by rewrite Em]. split; [by left|]. split; [|cbn; by rewrite Em].
    destruct Hn2 as ((l & E) & _ & Hx & Ht).
    split_and!; [eexists; cbn; by rewrite E|eexists; split_and!; [cbn; by rewrite Em|cbn; by rewrite ?Em|right; cbn; by rewrite ?Em]|done|done].
  - apply wpx_ret. split; [|by rewrite Em]. split; [by right|]. split; [done|by rewrite Em].
Qed.

(** ** A completion *)

Notation size n := (rm_snapshot_file_size (nd_rep n)).

(** What one step of the stream leaves when [data] was there before. *)
Definition streamed fd own F g base data n (r : Z) n' : Prop :=
  rdma_stream (nd_rdma n') = rdma_stream (nd_rdma n) ∧
  (r = KVS_STREAM_WAIT ∧ (∃ b, receiving fd own F g base (data ++ b) n') ∧ others_kept (node_disk n) (node_disk n') ∧
     size n' = size n ∧ rm_replication_offset (nd_rep n') = rm_replication_offset (nd_rep n) ∨
   r = KVS_STREAM_WAIT ∧ (∃ b, complete fd own F g base (data ++ b) n') ∧
     size n' = size n ∧ rm_replication_offset (nd_rep n') = rm_replication_offset (nd_rep n) ∨
   r = -1 ∧ (∃ g', replica_data own F g' n') ∧
     (others_kept (node_disk n) (node_disk n') ∨
      ∃ b, zlen (data ++ b) = size n ∧ messages base (data ++ b) n' ∧ file_at (node_disk n') FINAL = Some (data ++ b))).

(** What the peer sends is no snapshot with keys the engines cannot hold. *)
Definition stream_keys_ok base n : Prop :=
  ∀ chunks, (base ++ chunks) `prefix_of` rdma_stream (nd_rdma n) → zlen (mjoin chunks) = size n → keys_ok (mjoin chunks).

Lemma messages_snoc base data b n n' : messages base data n → rdma_received (nd_rdma n') = rdma_received (nd_rdma n) ++ [b] →
  in_order (nd_rdma n') → messages base (data ++ b) n'.
Proof.
  intros (_ & chunks & E & Hj) Et Hi. split; [done|]. exists (chunks ++ [b]). rewrite Et, E, <- app_assoc. split; [done|].
  rewrite <- Hj. rewrite join_app. cbn. by rewrite app_nil_r.
Qed.

Lemma messages_same base data n n' : rdma_received (nd_rdma n') = rdma_received (nd_rdma n) → rdma_stream (nd_rdma n') = rdma_stream (nd_rdma n) →
  messages base data n → messages base data n'.
Proof. unfold messages, in_order. by intros -> ->. Qed.

(** A step that received nothing. *)
Lemma streamed_step fd own F g base data n n' r : sync_step n n' → receiving fd own F g base data n →
  r = KVS_STREAM_WAIT ∨ r = -1 → streamed fd own F g base data n r n'.
Proof.
  intros Hs Hrec Hr. pose proof (receiving_step _ _ _ _ _ _ _ _ Hs Hrec) as Hrec'.
  destruct Hs as ((l & E) & (s & Esy & _) & _ & Ht). split; [done|].
  assert (others_kept (node_disk n) (node_disk n')) as Ho by (unfold node_disk; rewrite E; apply others_kept_refl).
  destruct Hr as [->| ->]; [left|right; right].
  - split; [done|]. split; [exists []; by rewrite app_nil_r|]. split; [done|]. by rewrite Esy.
  - split; [done|]. split; [|by left]. exists g. by destruct Hrec' as ((_ & _ & ? & _) & _).
Qed.
(** The counter of the received bytes follows, and the next receive is posted. *)
Definition counted b n t : N :=
  put_rdma t (put_manager (set_rdma_sync (sync_snapshot_bytes (rs_snapshot_bytes (rm_rdma_sync (nd_rep n)) + zlen b) (rm_rdma_sync (nd_rep n)))
    (nd_rep n)) n).

Lemma chunk_counted fd own F g base data b n n1 n2 t r :
  receiving fd own F g base data n → nd_server n1 = nd_server n → nd_rep n1 = nd_rep n →
  rdma_received (nd_rdma n1) = rdma_received (nd_rdma n) ++ [b] → rdma_stream (nd_rdma n1) = rdma_stream (nd_rdma n) →
  in_order (nd_rdma n1) → received_chunk fd own F g data b n1 (zlen b) n2 → 0 ≤ zlen b → traffic_same (nd_rdma n2) t → r = KVS_STREAM_WAIT ∨ r = -1 →
  streamed fd own F g base data n r (counted b n2 t).
Proof.
  intros ((_ & _ & _ & [Hoff _] & _) & Hm & _ & Hs & Hack) Ew Em Er' Et Hin (Et2 & Es2 & Esz2 & Hr) Hb (Ht & _ & Ht') Hres. rewrite Em in *.
  split; [cbn; congruence|]. destruct Hr as [(_ & Eoff & Hr)|(Hr & _)]; [|lia].
  assert (messages base (data ++ b) (counted b n2 t)) as Hm'.
  { eapply messages_same; [| |by eapply (messages_snoc _ _ b n n1)]; cbn; congruence. }
  assert (zlen (data ++ b) = zlen data + zlen b) as Hl by apply zlen_app.
  assert (rs_snapshot_bytes (rm_rdma_sync (nd_rep n2)) + zlen b = zlen (data ++ b)) as Hcount by (rewrite Es2, Hs; lia).
  assert (0 ≤ rs_acknowledged_bytes (rm_rdma_sync (nd_rep n2)) ≤ zlen (data ++ b)) as Hack' by (rewrite Es2; lia).
  assert (node_disk n1 = node_disk n) as Ed by (unfold node_disk; by rewrite Ew).
  destruct Hr as [(Hlt & Hst & Ho)|(Hfull & Hrep & Hstate & Hd & Hl' & Hf)].
  - assert (receiving fd own F g base (data ++ b) (counted b n2 t)) as Hrec.
    { split; [exact Hst|]. split; [exact Hm'|]. split; [cbn; congruence|]. split; [exact Hcount|exact Hack']. }
    rewrite Ed in Ho. destruct Hres as [->| ->]; [left; split_and!; [done|by exists b|exact Ho|exact Esz2|exact Eoff]|].
    right; right. split; [done|]. split; [|by left]. exists g. by destruct Hst as (_ & _ & ? & _).
  - destruct Hres as [->| ->]; [right; left|right; right].
    + split; [done|]. split; [|split; [exact Esz2|exact Eoff]]. exists b. split; [exact Hrep|]. split; [exact Hstate|].
      cbn [nd_rep nd_server counted put_rdma put_manager]. change (rm_replication_offset _) with (rm_replication_offset (nd_rep n2)).
      rewrite Eoff. split; [exact Hd|]. split; [|split; [exact Hm'|split; [cbn; congruence|]]].
      { exact Hoff. }
      split; [exact Hl'|]. split; [exact Hf|]. split; [exact Hcount|exact Hack'].
    + split; [done|]. split; [by eexists|]. right. exists b. split; [done|]. split; [exact Hm'|exact Hf].
Qed.

Lemma upstream_completion_spec fd own F g base data n :
  receiving fd own F g base data n → stream_keys_ok base n →
  wpx (upstream_completion fd) n (streamed fd own F g base data n) (λ _, ¬ roomy (heap (nd_server n))).
Proof.
  intros Hrec Hkeys. unfold upstream_completion. apply step_manager.
  eapply step_rdma; [apply poll_completion_law|]. intros [completed completion] t (_ & Et & Hr).
  destruct Hr as [(-> & Etype & Er' & Hpre)|(Er' & Hr)].
  2:{ assert (sync_step n (put_rdma t n)) as Hstep by (destruct (sync_step_refl n) as (? & ? & _); by split_and!).
      destruct Hr as [[-> Etype]|[->| ->]]; cbn [Z.ltb Z.eqb Z.compare].
      - rewrite bool_decide_eq_true_2 by done. apply step_update_sync, wpx_ret. eapply streamed_step; [|done|by left].
        apply (sync_step_sync n t); auto.
      - apply wpx_ret. eapply streamed_step; [done|done|by left].
      - apply wpx_ret. eapply streamed_step; [done|done|by right]. }
  cbn [Z.ltb Z.eqb Z.compare]. rewrite Etype, bool_decide_eq_false_2 by done. cbv beta zeta.
  set (b := completion_data completion) in *. set (n1 := put_rdma t n).
  pose proof Hrec as (Hst & Hm & Hlt & Hs & Hack). pose proof Hst as (_ & Hstate & Hd & _ & Hsize & Hfile & _).
  pose proof Hfile as (_ & _ & _ & Hrem & Htot).
  destruct (_ || _) eqn:Hbad.
  { apply wpx_ret. split; [done|]. right; right. split; [done|]. split; [by exists g|]. left. by intros ?. }
  rewrite !orb_false_iff in Hbad. destruct Hbad as [[[[_ _] Hne] Hcap] Hroom].
  apply Z.eqb_neq in Hne. apply Z.ltb_ge in Hcap, Hroom. cbn in Hroom. pose proof (zlen_nonneg data).
  rewrite Z.mod_small in Hroom by (unfold INT64_MAX in *; lia). pose proof (zlen_nonneg b).
  eapply wpx_stepx.
  { eapply wpx_mono; [apply (receive_spec fd own F g data b n1); [exact Hst| | | |]|intros r n' Hx; exact Hx|intros n' Hx; exact Hx].
    - intros ->. done.
    - unfold KVS_REPLICATION_RDMA_BUFFER_CAPACITY, INT_MAX in *; lia.
    - rewrite zlen_app. cbn. lia.
    - intros Hfull. destruct (messages_snoc _ _ b _ n1 Hm Er' Hpre) as (_ & chunks & Ec & Hj). rewrite <- Hj. apply Hkeys; [|by rewrite Hj].
      rewrite <- Ec, <- Et. done. }
  intros r n2 [Hchunk _]. destruct (decide (r = zlen b)) as [->|Hr].
  - rewrite Z.eqb_refl. cbn [negb]. apply step_update_sync, step_manager.
    eapply step_rdma; [apply receive_next_law|]. intros r t2 (Ht2 & Hr). 
    assert (∀ r, r = KVS_STREAM_WAIT ∨ r = -1 → streamed fd own F g base data n r (counted b n2 t2)) as Hall.
    { intros r0 Hr0. by apply (chunk_counted _ _ _ _ _ _ _ n n1 n2). }
    destruct Hr as [->| ->]; cbn [Z.ltb Z.compare]; apply wpx_ret; apply Hall; auto.
  - rewrite (proj2 (Z.eqb_neq _ _)) by done. cbn [negb]. apply wpx_ret.
    destruct Hchunk as (Et2 & _ & _ & [(? & _)|(-> & Hd' & Hf)]); [done|]. split; [by rewrite Et2|]. right; right. split; [done|]. split; [done|].
    destruct Hf as [Hf|[Hfull Hf]]; [by left|right]. exists b. split; [done|]. split; [|done].
    eapply messages_same; [| |by eapply (messages_snoc _ _ b n n1)]; by rewrite Et2.
Qed.
(** ** The stream *)

Lemma step_stream fd cap n (Q : Z * bytes → N → Prop) G :
  replica fd n → 0 < cap →
  (rs_connection (rm_rdma_sync (nd_rep n)) = None → Q (0, []) n) →
  (∀ r n', r = KVS_STREAM_WAIT ∨ r = -1 → sync_step n n' → Q (r, []) n') →
  (∀ t, traffic_same (nd_rdma n) t → wpx upstream_disconnected (put_rdma t n) (λ r, Q (r, [])) G) →
  (∀ n', sync_step n n' → wpx (upstream_completion fd) n' (λ r, Q (r, [])) G) →
  wpx (kvs_replication_upstream_stream fd cap) n Q G.
Proof.
  intros (Hini & Hrole & Hfd & Hpfd & _) Hcap H1n H2n Hdis Hcomp. unfold kvs_replication_upstream_stream. apply step_manager.
  rewrite Hini, Hpfd, Z.eqb_refl, bool_decide_eq_false_2, (proj2 (Z.ltb_ge _ 0)), (proj2 (Z.leb_gt _ 0)) by (tauto || lia). cbn [orb negb].
  case_bool_decide; [apply wpx_ret; by apply H1n|].
  eapply step_rdma; [apply poll_event_law|]. intros [result event] t (Ht & Hr). pose proof (sync_step_rdma n t Ht) as Hstep.
  destruct (Z.ltb_spec result 0); [by apply wpx_ret, H2n; [right|]|].
  destruct (_ && _).
  { eapply wpx_stepx; [by apply Hdis|]. intros r n' Hq. by apply wpx_ret. }
  assert (∀ n', sync_step n n' → wpx (m ← manager; if negb (rs_established (rm_rdma_sync m)) then mret (KVS_STREAM_WAIT, []) else
    r ← upstream_acknowledge; if r <? 0 then mret (-1, []) else m ← manager; let sync := rm_rdma_sync m in
    if bool_decide (rm_state m = KVS_REPLICATION_STATE_CATCH_UP) && (rs_snapshot_bytes sync =? rm_snapshot_file_size m)
       && (rs_acknowledged_bytes sync =? rs_snapshot_bytes sync) then mret (KVS_STREAM_WAIT, []) else
    r ← upstream_completion fd; mret (r, [])) n' Q G) as Hrest.
  { intros n1 Hn1. apply step_manager. destruct (negb _); [by apply wpx_ret, H2n; [left|]|].
    eapply wpx_step; [apply wpx_wp, upstream_acknowledge_spec|]. intros r n2 [(Hr2 & Hn2 & _) _].
    pose proof (sync_step_trans _ _ _ Hn1 Hn2) as Hn. destruct Hr2 as [->| ->]; cbn [Z.ltb Z.compare]; [|by apply wpx_ret, H2n; [right|]].
    apply step_manager. cbv zeta. destruct (_ && _); [by apply wpx_ret, H2n; [left|]|].
    eapply wpx_stepx; [by apply Hcomp|]. intros r n' Hq. by apply wpx_ret. }
  destruct (_ && _).
  - eapply wpx_step; [apply wpx_wp, upstream_established_spec|]. intros r n2 [(Hr2 & Hn2 & _) _].
    pose proof (sync_step_trans _ _ _ Hstep Hn2) as Hn. destruct Hr2 as [->| ->]; cbn [Z.ltb Z.compare]; [by apply Hrest|by apply wpx_ret, H2n; [right|]].
  - eapply wpx_eq; [done|]. cbn [Z.ltb Z.compare]. by apply Hrest.
Qed.

Lemma streamed_after fd own F g base data n n1 r n' : sync_step n n1 → streamed fd own F g base data n1 r n' → streamed fd own F g base data n r n'.
Proof.
  intros ((l & E) & (s & Em & _) & _ & Ht) (Ht' & Hr). split; [congruence|].
  assert (node_disk n1 = node_disk n) as <- by (unfold node_disk; by rewrite E).
  assert (size n1 = size n) as <- by (by rewrite Em).
  assert (rm_replication_offset (nd_rep n1) = rm_replication_offset (nd_rep n)) as <- by (by rewrite Em). exact Hr.
Qed.

Lemma upstream_stream_receiving fd own F g base data cap n :
  receiving fd own F g base data n → stream_keys_ok base n → 0 < cap →
  wpx (kvs_replication_upstream_stream fd cap) n (λ '(r, out) n', out = [] ∧
      (r = 0 ∧ n' = n ∧ rs_connection (rm_rdma_sync (nd_rep n)) = None ∨ streamed fd own F g base data n r n'))
    (λ _, ¬ roomy (heap (nd_server n))).
Proof.
  intros Hrec Hkeys Hcap. pose proof Hrec as ((Hrep & Hstate & _) & _). apply step_stream; [done|done| | | |].
  - intros Hc. split; [done|by left].
  - intros r n' Hr Hn. split; [done|right]. by apply streamed_step.
  - intros t Ht. unfold upstream_disconnected. apply step_manager. cbv zeta. cbn [nd_rep put_rdma]. rewrite Hstate, bool_decide_eq_true_2 by done. cbn [orb].
    apply wpx_ret. split; [done|right]. apply streamed_step; [by apply sync_step_rdma|done|by right].
  - intros n1 Hn1. pose proof Hn1 as ((l & E) & (s & Em & _) & _ & Et).
    eapply wpx_mono; [apply (upstream_completion_spec fd own F g base data n1)| |].
    + by eapply receiving_step.
    + intros chunks. rewrite Et, Em. apply Hkeys.
    + intros r n' Hx. split; [done|right]. by eapply streamed_after.
    + intros n'. rewrite E. exact id.
Qed.

(** The announcement and the peer are the same. *)
Definition same_sync n n' : Prop :=
  rdma_stream (nd_rdma n') = rdma_stream (nd_rdma n) ∧ size n' = size n ∧ rm_replication_offset (nd_rep n') = rm_replication_offset (nd_rep n).

Lemma sync_step_same n n' : sync_step n n' → same_sync n n'.
Proof. intros (_ & (s & Em & _) & _ & Ht). split; [done|]. by rewrite Em. Qed.

Lemma same_sync_trans n1 n2 n3 : same_sync n1 n2 → same_sync n2 n3 → same_sync n1 n3.
Proof. intros (? & ? & ?) (? & ? & ?). split_and!; congruence. Qed.

(** The snapshot is installed. *)
Definition caught_up fd own F g data n : Prop :=
  replica fd n ∧ rm_state (nd_rep n) = KVS_REPLICATION_STATE_CATCH_UP ∧
  replica_data own F (cut_to (rm_replication_offset (nd_rep n)) g) n ∧
  loads (rm_replication_offset (nd_rep n)) data (maps (nd_server n)) ∧ file_at (disk (nd_server n)) FINAL = Some data.

Lemma complete_caught_up fd own F g base data n : complete fd own F g base data n → caught_up fd own F g data n.
Proof. intros (? & ? & ? & _ & _ & _ & ? & ? & _). by split_and!. Qed.

(** The end: when the primary disconnects after the last acknowledgement. *)
Lemma upstream_disconnected_spec fd own F g base data n :
  complete fd own F g base data n →
  wpx upstream_disconnected n (λ r n', status r ∧ caught_up fd own F g data n' ∧ same_sync n n' ∧
    (r = 0 → rs_connection (rm_rdma_sync (nd_rep n')) = None ∧ rs_acknowledged_bytes (rm_rdma_sync (nd_rep n)) = zlen data))
  (λ _, False).
Proof.
  intros Hc. pose proof Hc as (_ & Hstate & _ & _ & _ & Hsz & _ & _ & Hs & _).
  unfold upstream_disconnected. apply step_manager. cbv zeta.
  destruct (_ || _) eqn:Hbad.
  { apply wpx_ret. split; [by right|]. split; [by eapply complete_caught_up|]. by split. }
  rewrite !orb_false_iff in Hbad. destruct Hbad as [_ Hack]. apply negb_false_iff, Z.eqb_eq in Hack.
  eapply step_rdma; [apply disconnect_law|]. intros r t (Ht & Hr).
  assert (caught_up fd own F g data (put_rdma t n)) as Hc1 by (eapply (complete_caught_up _ _ _ _ base), complete_step; [by apply sync_step_rdma|done]).
  apply sync_step_rdma, sync_step_same in Ht. destruct Hr as [->| ->]; cbn [Z.ltb Z.compare].
  2:{ apply wpx_ret. split; [by right|]. by split. }
  apply step_sync_close.
  - intros t2 (_ & _ & Ht2). cbn in Ht2. cbn [Z.ltb Z.compare]. apply wpx_ret. split; [by left|]. split; [exact Hc1|].
    split; [destruct Ht as (? & ? & ?); split_and!; [cbn in *; congruence|done|done]|]. intros _. split; [done|congruence].
  - intros t2 (_ & _ & Ht2) _. cbn in Ht2. cbn [Z.ltb Z.compare]. apply wpx_ret. split; [by right|]. split; [exact Hc1|].
    split; [destruct Ht as (? & ? & ?); split_and!; [cbn in *; congruence|done|done]|done].
Qed.

(** Nothing more is received once the snapshot is complete. *)
Lemma upstream_completion_complete fd own F g base data n :
  complete fd own F g base data n →
  wpx (upstream_completion fd) n (λ r n', caught_up fd own F g data n' ∧ same_sync n n' ∧
    (r = KVS_STREAM_WAIT ∧ complete fd own F g base data n' ∨ r = -1)) (λ _, False).
Proof.
  intros Hc. pose proof Hc as (_ & Hstate & _). unfold upstream_completion. apply step_manager.
  eapply step_rdma; [apply poll_completion_law|]. intros [completed completion] t (_ & Et & Hr).
  assert (same_sync n (put_rdma t n)) as Hsame by (by split).
  assert (caught_up fd own F g data (put_rdma t n)) as Hcu by exact (complete_caught_up _ _ _ _ _ _ _ Hc).
  destruct Hr as [(-> & Etype & _)|(Er' & Hr)].
  { cbn [Z.ltb Z.eqb Z.compare]. rewrite Etype, bool_decide_eq_false_2 by done. cbv zeta. cbn [nd_rep put_rdma] in *.
    rewrite Hstate, (bool_decide_eq_true_2 (KVS_REPLICATION_STATE_CATCH_UP ≠ _)), orb_true_r by done. cbn [orb].
    apply wpx_ret. split; [done|]. split; [done|]. by right. }
  assert (sync_step n (put_rdma t n)) as Hstep by (destruct (sync_step_refl n) as (? & ? & _); by split_and!).
  pose proof (complete_step _ _ _ _ _ _ _ _ Hstep Hc) as Hc2. destruct Hr as [[-> Etype]|[->| ->]]; cbn [Z.ltb Z.eqb Z.compare].
  - rewrite bool_decide_eq_true_2 by done. apply step_update_sync, wpx_ret. node_simpl.
    assert (sync_step n (put_manager (set_rdma_sync (sync_send_pending false (rm_rdma_sync (nd_rep n))) (nd_rep n)) (put_rdma t n))) as Hstep2.
    { apply (sync_step_sync n t); auto. }
    pose proof (complete_step _ _ _ _ _ _ _ _ Hstep2 Hc) as Hc3. split; [by eapply complete_caught_up|]. split; [by apply sync_step_same|auto].
  - apply wpx_ret. split; [done|]. split; [done|]. by left.
  - apply wpx_ret. split; [done|]. split; [done|]. by right.
Qed.

Lemma upstream_stream_complete fd own F g base data cap n :
  complete fd own F g base data n → 0 < cap →
  wpx (kvs_replication_upstream_stream fd cap) n (λ '(r, out) n', out = [] ∧ caught_up fd own F g data n' ∧ same_sync n n' ∧
      (r = KVS_STREAM_WAIT ∧ complete fd own F g base data n' ∨ r = -1 ∨
       r = 0 ∧ rs_connection (rm_rdma_sync (nd_rep n')) = None ∧
         (rs_connection (rm_rdma_sync (nd_rep n)) ≠ None → rs_acknowledged_bytes (rm_rdma_sync (nd_rep n)) = zlen data)))
    (λ _, False).
Proof.
  intros Hc Hcap. pose proof Hc as (Hrep & Hstate & _). apply step_stream; [done|done| | | |].
  - intros Hn. split; [done|]. split; [by eapply complete_caught_up|]. split; [by split|]. right; right. by split_and!.
  - intros r n' Hr Hn. pose proof (complete_step _ _ _ _ _ _ _ _ Hn Hc) as Hc'. apply sync_step_same in Hn.
    split; [done|]. split; [by eapply complete_caught_up|]. split; [done|]. destruct Hr; auto.
  - intros t Ht. eapply wpx_mono; [apply (upstream_disconnected_spec fd own F g base data)| |done].
    { eapply complete_step; [by apply sync_step_rdma|done]. }
    intros r n' (Hr & Hc' & Hs & Hx). apply sync_step_rdma, sync_step_same in Ht. split; [done|]. split; [done|]. split; [by eapply same_sync_trans|].
    destruct Hr as [->| ->]; [right; right|auto]. destruct Hx as [Hx1 Hx2]; [done|]. split; [done|]. split; [done|]. by intros _.
  - intros n1 Hn1. pose proof (complete_step _ _ _ _ _ _ _ _ Hn1 Hc) as Hc1. apply sync_step_same in Hn1.
    eapply wpx_mono; [by apply (upstream_completion_complete fd own F g base data n1)| |done].
    intros r n' (Hcu & Hsame & Hr). split; [done|]. split; [done|]. split; [by eapply same_sync_trans|]. destruct Hr as [Hr|Hr]; auto.
Qed.
(** ** The announcement *)

(** Every name has a file; the temporary file has no other name and is not the log. *)
Definition files_ok (logfd : Z) (d : D) : Prop :=
  (∀ (p : bytes) i, os_names d !! p = Some i → is_Some (os_data d !! i)) ∧
  (∀ i, os_names d !! TEMP = Some i → (∀ p : bytes, os_names d !! p = Some i → p = TEMP) ∧ os_fds d !! logfd ≠ Some i).

(** The manager of a replica that is connected and has not been told to synchronise. *)
Definition handshaking fd own F f n : Prop :=
  let m := nd_rep n in
  replica fd n ∧ rm_state m = KVS_REPLICATION_STATE_HANDSHAKE ∧ replica_data own F f n ∧
  rm_snapshot_writer m = writer_closed ∧ rs_snapshot_bytes (rm_rdma_sync m) = 0 ∧ rs_acknowledged_bytes (rm_rdma_sync m) = 0 ∧
  files_ok (aw_fd (p_aof (sv_io (nd_server n)))) (node_disk n) ∧ in_order (nd_rdma n).

(** A full synchronisation has begun as announced. *)
Definition announced fd own F f (r : fullresync) n n' : Prop :=
  receiving fd own F f (rdma_received (nd_rdma n)) [] n' ∧
  rm_replication_id (nd_rep n') = fr_id r ∧ rm_full_sync_id (nd_rep n') = fr_sync_id r ∧
  rm_primary_rdma_port (nd_rep n') = fr_port r ∧ rm_replication_offset (nd_rep n') = fr_offset r ∧ size n' = fr_size r ∧
  rs_connection (rm_rdma_sync (nd_rep n')) ≠ None.

(** What the announcement leaves alone, whether or not it is accepted. *)
Definition undisturbed own F f n n' : Prop :=
  replica_data own F f n' ∧ maps (nd_server n') = maps (nd_server n) ∧ rdma_stream (nd_rdma n') = rdma_stream (nd_rdma n) ∧
  others_kept (node_disk n) (node_disk n').

Lemma temp_opened logfd k (d d0 d1 : D) writer total :
  files_ok logfd d → os_fds d !! logfd = Some k → is_Some (os_data d !! k) →
  os_data d0 = os_data d → os_fds d0 = os_fds d → os_names d0 = delete TEMP (os_names d) ∨ os_names d0 = os_names d →
  writer_opened d0 TEMP total writer d1 →
  ∃ i, os_fds d1 !! wf_fd writer = Some i ∧ os_names d1 !! TEMP = Some i ∧ (∀ p : bytes, os_names d1 !! p = Some i → p = TEMP) ∧
    os_fds d1 !! logfd = Some k ∧ k ≠ i ∧ os_data d1 !! k = os_data d !! k ∧ others_kept d d1.
Proof.
  intros (Hdata & Htemp) Hk [x Hx] Ed Ef En (_ & i & (_ & Hnew & Ef1) & Ed1 & Hn). exists i.
  rewrite Ef in *. rewrite Ed in *.
  assert (os_names d0 !! TEMP = Some i ∧ os_names d1 = os_names d0 ∨ os_names d1 = <[TEMP := i]> (os_names d0) ∧ os_data d !! i = None) as Hcase.
  { destruct (os_names d0 !! TEMP); destruct Hn as [? ?]; [left|right]; split; congruence. }
  assert (∀ p : bytes, p ≠ TEMP → os_names d0 !! p = os_names d !! p) as H0n.
  { intros p Hp. destruct En as [->| ->]; [by rewrite lookup_delete_ne|done]. }
  assert (os_names d0 !! TEMP = Some i → os_names d !! TEMP = Some i) as Hold.
  { destruct En as [->| ->]; [by rewrite lookup_delete_eq|done]. }
  assert (os_names d1 !! TEMP = Some i ∧ (∀ p : bytes, p ≠ TEMP → os_names d1 !! p = os_names d !! p)) as [Ht Hp].
  { destruct Hcase as [[Ht ->]|[-> _]]; [by split|]. split; [apply lookup_insert_eq|]. intros p Hp. rewrite lookup_insert_ne; auto. }
  assert (∀ p : bytes, p ≠ TEMP → os_names d !! p ≠ Some i) as Hsole.
  { intros p Hne Hi. destruct Hcase as [[Ht' _]|[_ Hf]]; [|destruct (Hdata p i Hi); congruence].
    apply Hne. by eapply Htemp; [apply Hold|]. }
  assert (k ≠ i) as Hki.
  { intros ->. destruct Hcase as [[Ht' _]|[_ Hf]]; [|congruence]. by destruct (Htemp i (Hold Ht')). }
  split_and!.
  - rewrite Ef1. apply lookup_insert_eq.
  - done.
  - intros p Hi. destruct (decide (p = TEMP)) as [|Hne]; [done|]. rewrite Hp in Hi by done. by destruct (Hsole p Hne).
  - rewrite Ef1, lookup_insert_ne; [done|]. intros E. rewrite E in Hnew. congruence.
  - done.
  - rewrite Ed1. by rewrite lookup_insert_ne.
  - intros p f Hne Hf. unfold file_at in *. rewrite Hp, Ed1 by done. destruct (os_names d !! p) as [j|] eqn:Ej; [|done]. cbn in *.
    rewrite lookup_insert_ne; [done|]. intros <-. by destruct (Hsole p Hne).
Qed.

Lemma start_full_sync_spec fd own F f frame n :
  handshaking fd own F f n →
  wpx (start_full_sync frame) n (λ '(r, out) n', out = [] ∧ undisturbed own F f n n' ∧
    match scan_fullresync frame with
    | Some a => if bad_fullresync a frame then r = -1 ∧ n' = n
                else r = 0 ∧ announced fd own F f a n n' ∨ r = -1 ∧ rm_state (nd_rep n') = KVS_REPLICATION_STATE_HANDSHAKE
    | None => r = -1 ∧ n' = n
    end) (λ _, False).
Proof.
  intros (Hrep & Hstate & [Hok Hmode] & Hw & Hs & Ha & Hfiles & Hin). pose proof Hok as (Hdata & Hmax & Hlog). specialize (Hlog Hmode).
  assert (undisturbed own F f n n) as Hn by (split; [by split|]; split; [done|]; split; [done|apply others_kept_refl]).
  unfold start_full_sync. destruct (scan_fullresync frame) as [a|] eqn:Ea'; [|by apply wpx_ret].
  destruct (bad_fullresync a frame) eqn:Ebad; [by apply wpx_ret|].
  unfold bad_fullresync in Ebad. rewrite !orb_false_iff in Ebad.
  destruct Ebad as ((((((_ & _) & _) & Hoff) & Hsize) & _) & _). apply Z.ltb_ge in Hoff. apply Z.leb_gt in Hsize.
  assert (fr_offset a ≤ INT64_MAX ∧ fr_size a ≤ INT64_MAX) as [Hoffmax Hsizemax] by (by eapply scan_fullresync_bounds).
  apply step_abort. intros d0 _ Ed Ef En. rewrite Hw in Ef. cbn in Ef. apply step_manager.
  eapply step_files; [by apply snapshot_writer_open_spec|]. intros [opened writer] d1 (_ & Hr). apply step_put. node_simpl.
  pose proof Hlog as (Hlfd & _ & _ & Hlf). unfold fd_file in Hlf.
  destruct (os_fds (p_os (sv_io (nd_server n))) !! aw_fd (p_aof (sv_io (nd_server n)))) as [k|] eqn:Ek; [|done]. cbn in Hlf.
  destruct Hr as [(-> & Hop & Hrec)|(-> & -> & (En1 & Ed1 & Ef1) & _)]; cbn [Z.ltb Z.compare]; cycle 1.
  { apply wpx_ret. cbn in En1, Ed1, Ef1. split; [done|]. split; [|by right]. split_and!; try done.
    - split; [|done]. eapply server_ok_files; [exact Hok|done|done| |done]. destruct Hlog as (? & ? & ? & ?). split_and!; [done..|].
      unfold fd_file in *. cbn. by rewrite Ef1, Ed1, Ef, Ed.
    - intros p x Hp Hx. unfold node_disk, file_at in *. cbn. rewrite Ed1, Ed, En1. destruct En as [->|[-> _]]; [by rewrite lookup_delete_ne|done]. }
  pose proof (temp_opened _ k _ _ _ _ _ Hfiles Ek ltac:(by eexists) Ed Ef ltac:(tauto) Hop) as (i & Hi & Ht & Hsole & Hk & Hki & Edk & Ho).
  do 5 (apply step_put; node_simpl). apply step_manager. node_simpl.
  eapply step_rdma; [apply connection_start_law|]. intros [started connection] t (Htr & Hc). node_simpl. apply step_update_sync. node_simpl.
  set (n1 := put_manager _ _).
  assert (replica_data own F f n1) as Hd1.
  { split; [|done]. eapply server_ok_files; [exact Hok|done|done| |done]. destruct Hlog as (? & ? & ? & ?). split_and!; [done..|].
    change (fd_file d1 (aw_fd (p_aof (sv_io (nd_server n)))) = Some f). unfold fd_file. rewrite Hk. cbn. by rewrite Edk. }
  destruct (Z.ltb_spec started 0) as [Hneg|Hpos].
  { apply wpx_ret. split; [done|]. split; [|by right]. split; [done|]. split; [done|]. split; [by destruct Htr as (_ & _ & ?)|done]. }
  destruct Hc as [[-> Hc]|Hc]; [|lia].
  apply step_put, wpx_ret. unfold n1. node_simpl. split; [done|]. split; [split; [done|split; [done|split; [by destruct Htr as (_ & _ & ?)|done]]]|]. left. split; [done|].
  split; [|do 5 (split; [done|]); exact Hc]. split; [|split; [|split; [exact Hsize|split; [exact Hs|change (0 ≤ rs_acknowledged_bytes (rm_rdma_sync (nd_rep n)) ≤ 0); lia]]]].
  - split; [done|]. split; [done|]. split; [done|]. split; [done|]. split; [done|]. split; [done|]. exists i. split_and!; [done..|]. cbn. congruence.
  - destruct Htr as (Htr & _ & Hts). split; [unfold in_order in *; cbn; by rewrite Htr, Hts|]. exists []. split; [|done]. by rewrite app_nil_r.
Qed.
(** *** The control connection *)

(** What a frame of the control connection leaves when [reply] is the answer. *)
Definition answered_frame (reply : option bytes) n (r : Z) (out : bytes) n' : Prop :=
  n' = n ∧ match reply with Some text => r = zlen text ∧ out = text | None => r = -1 ∧ out = [] end.

Definition is_fullresync (frame : bytes) : bool := bool_decide (take 16 frame = lit "FULLRESYNC_RDMA ").

Lemma upstream_frame_spec fd own F f frame cap n :
  handshaking fd own F f n → frame ≠ [] → 0 < cap →
  wpx (kvs_replication_upstream_frame_protocol fd frame cap) n (λ '(r, out) n',
    if is_fullresync frame then out = [] ∧ undisturbed own F f n n' ∧
      match scan_fullresync frame with
      | Some a => if bad_fullresync a frame then r = -1 ∧ n' = n
                  else r = 0 ∧ announced fd own F f a n n' ∨ r = -1 ∧ rm_state (nd_rep n') = KVS_REPLICATION_STATE_HANDSHAKE
      | None => r = -1 ∧ n' = n
      end
    else answered_frame (if bool_decide (frame = lit "PONG") && (zlen psync_line <? cap) then Some psync_line else None) n r out n')
    (λ _, False).
Proof.
  intros Hh Hne Hcap. pose proof Hh as ((Hini & Hrole & Hfd & Hpfd & _) & Hstate & _).
  assert (0 < zlen frame) as Hl. { destruct frame as [|c frame]; [done|]. rewrite zlen_cons. pose proof (zlen_nonneg frame). lia. }
  unfold kvs_replication_upstream_frame_protocol. apply step_manager.
  rewrite Hini, Hpfd, Z.eqb_refl, Hstate, !bool_decide_eq_false_2, (proj2 (Z.ltb_ge _ 0)), !(proj2 (Z.leb_gt _ 0)) by (tauto || lia). cbn [orb negb].
  unfold is_fullresync. destruct (bool_decide_reflect (frame = lit "PONG")) as [->|Hping].
  - cbn [andb]. rewrite bool_decide_eq_false_2 by done. rewrite print_line_cases. eapply wpx_eq; [done|]. cbv beta.
    change (zlen psync_line <=? INT_MAX) with true. rewrite andb_true_r. by destruct (zlen psync_line <? cap); apply wpx_ret.
  - cbn [andb]. case_bool_decide; [|by apply wpx_ret]. by apply start_full_sync_spec.
Qed.

(** ** A whole synchronisation *)

(** What other connections may do between two calls: the files, the log, the manager and
    the data set stay. *)
Definition elsewhere n n' : Prop :=
  nd_rep n' = nd_rep n ∧ nd_rdma n' = nd_rdma n ∧ os_same (node_disk n) (node_disk n') ∧
  p_aof (sv_io (nd_server n')) = p_aof (sv_io (nd_server n)) ∧
  kvs_persistence_mode (nd_server n') = kvs_persistence_mode (nd_server n) ∧
  maps (nd_server n') = maps (nd_server n) ∧ ∃ own F, data_ok own F (nd_server n').

(** Calls of the stream that ask to be called again, among the work of others. *)
Inductive stream_run (fd cap : Z) (n : N) : N → Prop :=
  | run_start : stream_run fd cap n n
  | run_call n1 n2 : stream_run fd cap n n1 → kvs_replication_upstream_stream fd cap n1 = Ok (KVS_STREAM_WAIT, []) n2 → stream_run fd cap n n2
  | run_other n1 n2 : stream_run fd cap n n1 → elsewhere n1 n2 → stream_run fd cap n n2.

(** What the peer sends from now on is the file [snap], or its beginning. *)
Definition feeds (snap : bytes) base n : Prop :=
  ∃ rest, rdma_stream (nd_rdma n) = base ++ rest ∧ mjoin rest `prefix_of` snap.

Lemma prefix_full (a b : bytes) : a `prefix_of` b → zlen a = zlen b → a = b.
Proof. intros [c ->] E. rewrite zlen_app in E. assert (c = []) as -> by (apply zlen_zero; lia). by rewrite app_nil_r. Qed.

Lemma feeds_prefix snap base n chunks : feeds snap base n → (base ++ chunks) `prefix_of` rdma_stream (nd_rdma n) → mjoin chunks `prefix_of` snap.
Proof.
  intros (rest & E & Hp) Hc. rewrite E in Hc. apply prefix_app_inv in Hc as [more ->]. rewrite join_app in Hp. by eapply prefix_app_l.
Qed.

Lemma feeds_keys snap base n : feeds snap base n → size n = zlen snap → keys_ok snap → stream_keys_ok base n.
Proof.
  intros Hf Hs Hk chunks Hc Hl. rewrite (prefix_full (mjoin chunks) snap); [done|by eapply feeds_prefix|congruence].
Qed.

Lemma messages_prefix snap base data n : feeds snap base n → messages base data n → data `prefix_of` snap.
Proof. intros Hf (Hi & chunks & Ec & <-). eapply feeds_prefix; [done|]. by rewrite <- Ec. Qed.
(** Where a run can be. *)
Definition run_state fd snap g base n n' : Prop :=
  same_sync n n' ∧
  ((∃ own F data, receiving fd own F g base data n') ∧ others_kept (node_disk n) (node_disk n') ∨
   ∃ own F, complete fd own F g base snap n').

Lemma complete_snap fd own F g snap base data n : feeds snap base n → size n = zlen snap → complete fd own F g base data n → data = snap.
Proof. intros Hf Hs (_ & _ & _ & _ & Hm & Hsz & _). eapply prefix_full; [by eapply messages_prefix|congruence]. Qed.

Lemma elsewhere_data own F own' F' g n n' : elsewhere n n' → data_ok own' F' (nd_server n') → replica_data own F g n → replica_data own' F' g n'.
Proof.
  intros (_ & _ & (En & Ed & Ef) & Eaof & Em & _) Hd ((_ & Hmax & Hl) & Hmode). split; [|congruence]. split; [done|]. split; [done|].
  intros Hm. rewrite Em in Hm. destruct (Hl Hm) as (H1n & H2n & H3n & Hf). unfold aof_log. rewrite Eaof. split_and!; [done..|].
  unfold fd_file, node_disk in *. by rewrite Ef, Ed.
Qed.

Lemma elsewhere_state fd snap g base n n1 n2 : elsewhere n1 n2 → run_state fd snap g base n n1 → run_state fd snap g base n n2.
Proof.
  intros He (Hss & Hr). pose proof He as (Em & Er' & Hsame & Eaof & _ & Emap & own' & F' & Hd). pose proof Hsame as (En & Ed & Ef).
  split; [eapply same_sync_trans; [done|]; unfold same_sync; by rewrite Em, Er'|].
  assert (∀ p : bytes, file_at (node_disk n2) p = file_at (node_disk n1) p) as Hfiles by (intros p; unfold file_at; by rewrite En, Ed).
  destruct Hr as [[(own & F & data & Hst & Hm & Hrest) Hk]|(own & F & Hrep & Hst & Hdata & Hoff & Hm & Hrest)].
  - left. split; [|intros p x Hp Hx; rewrite Hfiles; by apply Hk].
    exists own', F', data. split; [|split; [by eapply messages_same; [rewrite Er'|rewrite Er'|]|by rewrite Em]].
    destruct Hst as (Hrep & Hstate & Hdata & Hoff & Hsize & Hfile & Htemp). unfold storing, replica. rewrite Em.
    split; [done|]. split; [done|]. split; [by eapply elsewhere_data|]. split; [done|]. split; [done|]. split.
    + destruct Hfile as (? & Hf & ? & ? & ?). split_and!; try done. unfold fd_file, node_disk, disk in *. by rewrite Ef, Ed.
    + unfold temp_file, node_disk, disk in *. by rewrite Eaof, En, Ef.
  - right. exists own', F'. unfold complete, replica. rewrite Em, Emap. split; [done|]. split; [done|]. split; [by eapply elsewhere_data|].
    split; [done|]. split; [by eapply messages_same; [rewrite Er'|rewrite Er'|]|].
    destruct Hrest as (? & ? & Hf & ?). split; [done|]. split; [done|]. split; [by rewrite <- Hf; apply Hfiles|done].
Qed.

Lemma wpx_ok {V X} (m : M V X) v (Q : X → V → Prop) G x v' : wpx m v Q G → m v = Ok x v' → Q x v'.
Proof. unfold wpx. intros Hm E. by rewrite E in Hm. Qed.

Lemma run_invariant fd own F cap snap g base n n' :
  receiving fd own F g base [] n → feeds snap base n → size n = zlen snap → keys_ok snap → 0 < cap →
  stream_run fd cap n n' → run_state fd snap g base n n'.
Proof.
  intros Hstart Hfeeds Hsize Hkeys Hcap. induction 1 as [|n1 n2 _ IH Hcall|n1 n2 _ IH He].
  - split; [by split|]. left. split; [by eexists _, _, _|apply others_kept_refl].
  - destruct IH as (Hss & Hr). pose proof Hss as (Ht & Hs & _).
    assert (feeds snap base n1) as Hf1 by (destruct Hfeeds as (rest & E & ?); exists rest; by rewrite Ht).
    destruct Hr as [[(own1 & F1 & data & Hrec) Hk]|(own1 & F1 & Hc)].
    + pose proof (wpx_ok _ _ _ _ _ _ (upstream_stream_receiving fd own1 F1 g base data cap n1 Hrec (feeds_keys snap base n1 Hf1 ltac:(congruence) Hkeys) Hcap) Hcall) as Hx.
      cbv beta iota in Hx. destruct Hx as (_ & [(? & _)|(Ht2 & Hx)]); [done|]. 
      destruct Hx as [(_ & (b & Hb) & Hk2 & Hs2 & Ho2)|[(_ & (b & Hb) & Hs2 & Ho2)|(? & _)]]; [| |done].
      * split; [by eapply same_sync_trans|]. left. split; [by eexists _, _, _|by eapply others_kept_trans].
      * split; [by eapply same_sync_trans|]. right. exists own1, F1.
        by rewrite (complete_snap fd own1 F1 g snap base (data ++ b) n2) in Hb;
          [|destruct Hf1 as (rest & E & ?); exists rest; by rewrite Ht2|congruence|].
    + pose proof (wpx_ok _ _ _ _ _ _ (upstream_stream_complete fd own1 F1 g base snap cap n1 Hc Hcap) Hcall) as Hx.
      cbv beta iota in Hx. destruct Hx as (_ & _ & Ht2 & [(_ & Hc2)|[?|(? & _)]]); [|done|done].
      split; [by eapply same_sync_trans|]. right. by exists own1, F1.
  - by eapply elsewhere_state.
Qed.

(** The end of a run: the call that does not ask for another. *)
Definition run_end fd snap g n (r : Z) n' : Prop :=
  r = 0 ∧ same_sync n n' ∧ (∃ own F, caught_up fd own F g snap n') ∧ rs_connection (rm_rdma_sync (nd_rep n')) = None ∨
  r = -1 ∧ (others_kept (node_disk n) (node_disk n') ∨ file_at (node_disk n') FINAL = Some snap).

Lemma run_ends fd own F cap snap g base n n1 r out n2 :
  receiving fd own F g base [] n → feeds snap base n → size n = zlen snap → keys_ok snap → 0 < cap →
  stream_run fd cap n n1 → rs_connection (rm_rdma_sync (nd_rep n1)) ≠ None →
  kvs_replication_upstream_stream fd cap n1 = Ok (r, out) n2 → r ≠ KVS_STREAM_WAIT → out = [] ∧ run_end fd snap g n r n2.
Proof.
  intros Hrec Hfeeds Hsize Hkeys Hcap Hrun Hconn Hcall Hr.
  destruct (run_invariant _ _ _ _ _ _ _ _ _ Hrec Hfeeds Hsize Hkeys Hcap Hrun) as (Hss & Hstate). pose proof Hss as (Ht & Hs & _).
  assert (feeds snap base n1) as Hf1 by (destruct Hfeeds as (rest & E & ?); exists rest; by rewrite Ht).
  destruct Hstate as [[(own1 & F1 & data & Hrec1) Hk]|(own1 & F1 & Hc)].
  - pose proof (wpx_ok _ _ _ _ _ _ (upstream_stream_receiving fd own1 F1 g base data cap n1 Hrec1 (feeds_keys snap base n1 Hf1 ltac:(congruence) Hkeys) Hcap) Hcall) as Hx.
    cbv beta iota in Hx. destruct Hx as (-> & [(_ & _ & ?)|(Ht2 & Hx)]); [done|]. split; [done|].
    destruct Hx as [(? & _)|[(? & _)|(-> & _ & Hf)]]; [done..|]. right. split; [done|].
    destruct Hf as [Hf|(b & Hl & Hm & Hf)]; [left; by eapply others_kept_trans|right].
    rewrite Hf. f_equal. apply prefix_full; [|congruence].
    eapply messages_prefix; [|exact Hm]. destruct Hf1 as (rest & E & ?); exists rest; by rewrite Ht2.
  - pose proof (wpx_ok _ _ _ _ _ _ (upstream_stream_complete fd own1 F1 g base snap cap n1 Hc Hcap) Hcall) as Hx.
    cbv beta iota in Hx. destruct Hx as (-> & Hcu & Hss2 & Hx). split; [done|].
    destruct Hx as [(? & _)|[->|(-> & Hn & _)]]; [done|right|left].
    + split; [done|]. right. by destruct Hcu as (_ & _ & _ & _ & ?).
    + split; [done|]. split; [by eapply same_sync_trans|]. split; [by eexists _, _|done].
Qed.
End sync.

(** * Theorems *)

Section theorems.
Context `{CRuntimeLaws RT} `{OsLaws D} `{RdmaLaws T} {Ea Er Eh Es : Type}
  `{!Engine RT Ea} `{!Engine RT Er} `{!Engine RT Eh} `{!Engine RT Es}
  `{!EngineLaws RT Ea} `{!EngineLaws RT Er} `{!EngineLaws RT Eh} `{!EngineLaws RT Es}.
Notation engines := (kv_engines Ea Er Eh Es).
Notation N := (node RT D engines T).
Notation FINAL := KVS_REPLICATION_REPLICA_SNAPSHOT_PATH.
Implicit Types (n : N) (own : list addr) (F : gset addr) (f data b : bytes).



End theorems.

(** * A replica that receives a snapshot *)

Definition demo_node : Type := node heap_rt mem_os demo_engines script.

(** Its log is open at 3 and its temporary file at 5. *)
Definition sync_disk (stored : bytes) : mem_os :=
  MemOs {[lit "appendonly.aof" := 0; KVS_REPLICATION_REPLICA_SNAPSHOT_TEMP_PATH := 1]} {[0 := []; 1 := stored]} {[3 := 0; 5 := 1]} false.

Definition demo_manager (state : kvs_replication_state_t) (writer : kvs_snapshot_writer_t) (connection : option addr) :
    kvs_replication_manager_t (server heap_rt mem_os demo_engines) :=
  ReplicationManager KVS_ROLE_REPLICA None (RdmaSync connection true 0 0 false false) None 0 4000 77 (zlen sample_snapshot) reader_closed
    (AofReader (-1) 0 0) writer (-1) [] [] (lit "10.0.0.1") 4001 9 (Some kvs_install_replication_snapshot)
    (Some kvs_replication_command_protocol) state true.

Definition demo_replica (d : mem_os) (es : demo_engines) (r : heap_rt) (state : kvs_replication_state_t) (writer : kvs_snapshot_writer_t)
    (connection : option addr) (t : script) : demo_node :=
  Node (Server (PWorld r d (AofWriter 3 0 true)) es KVS_ROLE_REPLICA KVS_PERSISTENCE_AOF offline) (demo_manager state writer connection) t.

(** It has received nothing yet. *)
Definition receiving_node (es : demo_engines) (r : heap_rt) (t : script) : demo_node :=
  demo_replica (sync_disk []) es r KVS_REPLICATION_STATE_FULL_SYNC (SnapshotWriter 5 0 (zlen sample_snapshot)) (Some 1) t.

Lemma demo_replica_data own F d es r state writer connection t :
  engines_wf es → owns (own ++ engines_owned es) F r → fd_file d 3 = Some [] →
  replica 9 (demo_replica d es r state writer connection t) ∧ replica_data own F [] (demo_replica d es r state writer connection t).
Proof.
  intros Hwf Ho Hf. split; [by split_and!|]. split; [|done]. split; [by split|]. split; [vm_compute; discriminate|]. intros _. by split_and!.
Qed.

Lemma receiving_node_ok own F es r t : engines_wf es → owns (own ++ engines_owned es) F r → scr_received t = [] →
  receiving 9 own F [] [] [] (receiving_node es r t).
Proof.
  intros Hwf Ho Ht. destruct (demo_replica_data own F (sync_disk []) es r KVS_REPLICATION_STATE_FULL_SYNC
    (SnapshotWriter 5 0 (zlen sample_snapshot)) (Some 1) t Hwf Ho ltac:(reflexivity)) as [Hrep Hd].
  split; [|split].
  - split; [exact Hrep|]. split; [done|]. split; [exact Hd|]. split; [vm_compute; by split|]. split; [vm_compute; by split|].
    split; [split_and!; vm_compute; done|]. exists 1. split; [done|]. split; [vm_compute; reflexivity|]. split; [|vm_compute; discriminate].
    intros p Hp. cbn in Hp. apply lookup_insert_Some in Hp as [[_ Hp]|[_ Hp]]; [done|]. by apply lookup_singleton_Some in Hp as [<- _].
  - split; [|exists []; by split]. change (scr_received t `prefix_of` scr_received t ++ script_incoming (scr_completions t)). by eexists.
  - split; [vm_compute; reflexivity|]. split; [done|]. done.
Qed.

Lemma demo_roomy : ∃ (es : demo_engines) r own F, engines_wf es ∧ owns (own ++ engines_owned es) F r.
Proof. destruct loaded_engines as (es & r & Hwf & Ho & _). by exists es, r, [], ∅. Qed.

(** The keys of the sample snapshot are short. *)
Lemma sample_keys_ok : keys_ok (RT := heap_rt) (Ea := kvs_array_t) (Er := RbTree.kvs_rbtree_t) (Eh := kvs_hash_t) (Es := kvs_skiplist_t) sample_snapshot.
Proof.
  intros ck rs Ht. destruct (snapshot_text_inj ck (Checkpoint 1 77) rs sample_records sample_snapshot) as [_ ->];
    [vm_compute; discriminate|done|exact sample_snapshot_text|exact sample_keys].
Qed.

(** A log and nothing else. *)
Definition log_disk : mem_os := MemOs {[lit "appendonly.aof" := 0]} {[0 := []]} {[3 := 0]} false.




(** A first chunk arrives, then the connection fails. *)
Definition broken_script : script :=
  Script [] [] [Some KVS_RDMA_EVENT_ACCEPTING; None] [Some (RdmaCompletion KVS_RDMA_COMPLETION_RECV (take 10 sample_snapshot))] true.

(** The node after the first chunk. *)
Definition stored_node (es : demo_engines) (r : heap_rt) : demo_node :=
  let w := SnapshotWriter 5 10 (zlen sample_snapshot - 10) in
  let m := set_rdma_sync (RdmaSync (Some 1) true 10 0 false false) (demo_manager KVS_REPLICATION_STATE_FULL_SYNC w (Some 1)) in
  Node (Server (PWorld r (sync_disk (take 10 sample_snapshot)) (AofWriter 3 0 true)) es KVS_ROLE_REPLICA KVS_PERSISTENCE_AOF (link_of m)) m
    (Script [take 10 sample_snapshot] [] [None] [] true).

Lemma stored_call es r : kvs_replication_upstream_stream 9 64 (receiving_node es r broken_script) = Ok (KVS_STREAM_WAIT, []) (stored_node es r).
Proof. reflexivity. Qed.

Definition broken_node (es : demo_engines) (r : heap_rt) : demo_node :=
  put_rdma (Script [take 10 sample_snapshot] [] [] [] true) (stored_node es r).

Lemma broken_call es r : kvs_replication_upstream_stream 9 64 (stored_node es r) = Ok (-1, []) (broken_node es r).
Proof. reflexivity. Qed.

