(* ===== verification/ReplicaFollow.v ===== *)
(** A replica that follows the log of its primary, src/replication/replication.c: the
    commands of the catch-up, the line ONLINE, and what a stream of both leaves,
    however it is divided.  The definitions are those of Replication. *)

From Stdlib Require Import ZArith Lia.
From S2P Require Import Prelude Runtime RbEngine Engine Codec ArrayEngine HashEngine SkipList Kvengine Buffer Os Rdma MappedFile Aof SnapshotIo SnapshotFormat SnapshotStore SnapshotLoad Kvstore RepState Execute Server Replication ReplicationLines ReplicaSync.

(** * Texts *)

(** What a log gains for a command is a text of it. *)
Lemma aof_record_text ts : Forall (λ t, zlen t ≤ SIZE_MAX) ts → zlen ts ≤ SIZE_MAX → command_text ts (aof_record ts).
Proof.
  intros Hts Hl. exists (write_decimal (zlen ts)), (write_field <$> (slice_of <$> ts)).
  split; [apply write_decimal_text; split; [apply zlen_nonneg|done]|]. split; [|done].
  clear Hl. induction Hts as [|t ts Ht Hts IH]; [constructor|]. cbn [fmap list_fmap]. constructor; [|exact IH].
  rewrite <- (slice_bytes_of t) at 1. apply write_field_text. by exists t.
Qed.

Lemma aof_record_head ts : head (aof_record ts) = Some STAR.
Proof. done. Qed.

Lemma aof_record_pos ts : (0 < List.length (aof_record ts))%nat.
Proof. unfold aof_record. rewrite length_app. cbn. lia. Qed.

(** The first line feed of [l ++ LF :: rest] when [l] has none. *)
Lemma find_line_feed_at i (l rest : bytes) : LF ∉ l → find_line_feed i (l ++ LF :: rest) = Some (i + zlen l + 1).
Proof.
  revert i. induction l as [|c l IH]; intros i Hn; cbn [app find_line_feed].
  - rewrite bool_decide_eq_true_2 by done. change (zlen []) with 0. f_equal. lia.
  - apply not_elem_of_cons in Hn as [Hc Hn]. rewrite bool_decide_eq_false_2 by done. rewrite IH by done. rewrite zlen_cons. f_equal. lia.
Qed.

Lemma find_line_feed_none i (l : bytes) : LF ∉ l → find_line_feed i l = None.
Proof.
  revert i. induction l as [|c l IH]; intros i Hn; cbn; [done|]. apply not_elem_of_cons in Hn as [Hc Hn].
  rewrite bool_decide_eq_false_2 by done. by apply IH.
Qed.

Lemma find_line_end_at i prev (l rest : bytes) : LF ∉ l → 0 ≤ i →
  find_line_end_loop i prev (l ++ CR :: LF :: rest) = Some (i + zlen l, 2).
Proof.
  revert i prev. induction l as [|c l IH]; intros i prev Hn Hi; cbn [app find_line_end_loop].
  - rewrite !bool_decide_eq_true_2 by done. rewrite (proj2 (Z.ltb_lt 0 _)) by lia. cbn [negb andb]. f_equal. f_equal. change (zlen []) with 0. lia.
  - apply not_elem_of_cons in Hn as [Hc Hn]. rewrite bool_decide_eq_true_2 by done. rewrite IH by (done || lia). rewrite zlen_cons. do 2 f_equal. lia.
Qed.

(** A first line is one frame for the handler. *)
Lemma line_batch_one {V} (line rest : bytes) (cap : Z) (h : kvs_frame_handler V) (v : V) : LF ∉ line → line ≠ [] → 0 < cap →
  kvs_line_batch_protocol (line ++ CR :: LF :: rest) (zlen line + 2) cap h v =
  ('(response_length, reply) ← h line cap;
   if (response_length <? 0) || (cap <? response_length) then mret None
   else mret (Some (zlen line + 2, take (Z.to_nat response_length) reply))) v.
Proof.
  intros Hn Hne Hcap. pose proof (zlen_nonneg line).
  assert (0 < zlen line) as Hl. { destruct line; [done|]. rewrite zlen_cons. pose proof (zlen_nonneg line). lia. }
  unfold kvs_line_batch_protocol. rewrite !(proj2 (Z.leb_gt _ 0)) by lia. cbn [orb].
  replace (Z.to_nat (zlen line + 2)) with (S (S (List.length line))) by (unfold zlen; lia).
  cbn [line_batch_loop]. rewrite (proj2 (Z.ltb_lt 0 _)) by lia. rewrite drop_0, Z.sub_0_r.
  unfold kvs_find_line_end. rewrite (proj2 (Z.leb_gt _ 0)) by lia.
  replace (Z.to_nat (zlen line + 2)) with (List.length (line ++ [CR; LF])) by (rewrite length_app; unfold zlen; cbn; lia).
  change (line ++ CR :: LF :: rest) with (line ++ [CR; LF] ++ rest). rewrite (app_assoc line), take_app_length.
  change (line ++ [CR; LF]) with (line ++ CR :: LF :: []) at 1. rewrite find_line_end_at by done.
  rewrite (proj2 (Z.eqb_neq _ 0)), (proj2 (Z.leb_gt cap 0)) by lia. rewrite Z.add_0_l, Z.sub_0_r.
  rewrite <- app_assoc, take_app_length' by (unfold zlen; lia).
  apply bind_ext. intros [r reply] v1. destruct (_ || _); [done|].
  destruct line as [|c line']; [done|]. cbn [List.length line_batch_loop]. by rewrite Z.ltb_irrefl.
Qed.

(** * Following *)

Section follow.
Context `{CRuntimeLaws RT} `{OsLaws D} `{RdmaLaws T} {Ea Er Eh Es : Type}
  `{!Engine RT Ea} `{!Engine RT Er} `{!Engine RT Eh} `{!Engine RT Es}
  `{!EngineLaws RT Ea} `{!EngineLaws RT Er} `{!EngineLaws RT Eh} `{!EngineLaws RT Es}.
Notation engines := (kv_engines Ea Er Eh Es).
Notation W := (server RT D engines).
Notation N := (node RT D engines T).
Notation apply_write := (apply_write (RT := RT) (Ea := Ea) (Er := Er) (Eh := Eh) (Es := Es)).
Notation apply_log := (apply_log (RT := RT) (Ea := Ea) (Er := Er) (Eh := Eh) (Es := Es)).
Notation logged_write := (logged_write (RT := RT) (Ea := Ea) (Er := Er) (Eh := Eh) (Es := Es)).
Implicit Types (n : N) (w : W) (own : list addr) (F : gset addr) (g msg : bytes) (ts : list bytes) (cmds : list (list bytes)) (b : kvs_output_buffer_t).

(** A replica behind its snapshot, or online, with the log [g]. *)
Definition following fd own F g n : Prop :=
  replica fd n ∧ following_state (rm_state (nd_rep n)) = true ∧ replica_data own F g n.

Lemma following_offset fd own F g n : following fd own F g n → kvs_aof_get_offset (sv_io (nd_server n)) = zlen g.
Proof.
  intros (_ & _ & (_ & _ & Hl) & Hm). destruct (Hl Hm) as (Hfd & _ & Ho & _). unfold kvs_aof_get_offset.
  by rewrite (proj2 (Z.ltb_ge _ 0)).
Qed.

(** ** ONLINE *)

(** The line says that the log of the primary ends at [offset]. *)
Definition says_online offset (frame : bytes) : Prop :=
  take 7 frame = lit "ONLINE " ∧ scan_online frame = Some (offset, zlen frame).

#[local] Instance says_online_dec offset frame : Decision (says_online offset frame).
Proof. unfold says_online. solve_decision. Defined.

Definition online offset n : N := put_manager (set_state KVS_REPLICATION_STATE_ONLINE (set_replication_offset offset (nd_rep n))) n.

Lemma online_frame_spec fd own F g frame cap n :
  following fd own F g n → frame ≠ [] → 5 ≤ cap →
  kvs_replication_online_control_frame_protocol fd frame cap n =
    if decide (says_online (zlen g) frame) then Ok (0, []) (online (zlen g) n) else Ok (-1, []) n.
Proof.
  intros Hf Hne Hcap. pose proof (following_offset _ _ _ _ _ Hf) as Hoff. destruct Hf as ((Hini & Hrole & Hfd & Hpfd & _) & Hst & _).
  assert (0 < zlen frame) as Hl. { destruct frame as [|c frame]; [done|]. rewrite zlen_cons. pose proof (zlen_nonneg frame). lia. }
  unfold kvs_replication_online_control_frame_protocol, manager, aof_offset, gets, mbind, M_bind. cbv beta iota.
  rewrite Hini, Hpfd, Z.eqb_refl, Hst, bool_decide_eq_false_2, !(proj2 (Z.ltb_ge _ _)), (proj2 (Z.leb_gt _ 0)) by (tauto || lia). cbn [orb negb].
  pose proof (zlen_nonneg g). destruct (decide (says_online (zlen g) frame)) as [[Ht Eo]|Hno].
  - rewrite bool_decide_eq_true_2, Eo, Z.eqb_refl, (proj2 (Z.ltb_ge _ 0)) by (done || lia). cbn [negb orb]. cbv beta.
    by rewrite Hoff, (proj2 (Z.ltb_ge _ 0)), Z.eqb_refl by lia.
  - case_bool_decide as Ht; [|done]. destruct (scan_online frame) as [[o parsed]|] eqn:Eo; [|done].
    destruct (Z.eqb_spec parsed (zlen frame)) as [->|Hp]; cbn [negb orb]; [|done]. destruct (Z.ltb_spec o 0); [done|]. cbv beta.
    rewrite Hoff, (proj2 (Z.ltb_ge _ 0)) by lia. cbn [orb].
    destruct (Z.eqb_spec (zlen g) o) as [<-|Ho]; cbn [negb]; [|done]. by destruct Hno.
Qed.

(** ** A command *)

Lemma catch_up_spec fd array cap ts own F g n :
  following fd own F g n → logged_write ts → REPLY_ROOM < cap ≤ INT_MAX →
  wpx (kvs_replication_catch_up_command_protocol fd (slice_of <$> ts) array cap) n (λ r n',
    nd_rdma n' = nd_rdma n ∧ rm_state (nd_rep n') = rm_state (nd_rep n) ∧
    (roomy (heap (nd_server n)) → roomy (heap (nd_server n'))) ∧ keeps_health (node_disk n) (node_disk n') ∧
    (r = 0 ∧ following fd own F (g ++ aof_record ts) n' ∧ zlen (g ++ aof_record ts) ≤ INT64_MAX ∧
       rm_replication_offset (nd_rep n') = zlen (g ++ aof_record ts) ∧
       (∃ ms, apply_write ts (maps (nd_server n)) = Some ms ∧ maps_eq (maps (nd_server n')) ms) ∨
     r = -1 ∧ following fd own F g n' ∧ maps_eq (maps (nd_server n')) (maps (nd_server n)) ∧ nd_rep n' = nd_rep n) ∧
    (roomy (heap (nd_server n)) → is_Some (apply_write ts (maps (nd_server n))) → r = 0))
  (λ n', append_failed g ts KVS_COMMAND_SOURCE_REPLICATION (nd_server n) (nd_server n')).
Proof.
  intros (Hrep & Hst & [Hok Hmode]) Hw Hcap. pose proof Hrep as (Hini & Hrole & Hfd & Hpfd & Hins & Hcmd).
  pose proof Hok as (Hdata & Hmax & Hlog). pose proof (logged_write_fields ts Hw) as Hlen.
  unfold kvs_replication_catch_up_command_protocol. apply step_manager. rewrite Hcmd.
  rewrite Hini, Hpfd, Z.eqb_refl, Hst, bool_decide_eq_false_2, zlen_fmap, (proj2 (Z.ltb_ge _ 0)), (proj2 (Z.leb_gt _ 0)), (proj2 (Z.eqb_neq _ 0))
    by (tauto || unfold REPLY_ROOM in *; lia). cbn [orb negb].
  eapply step_server; [by apply (replication_command_spec array cap ts own F g (nd_server n))| |done].
  intros r w' (Hk & Hd' & Happ & Hl & Hgood). pose proof Hk as (_ & Hmode' & _ & Hroom & Hheal).
  rewrite (bool_decide_eq_true_2 (kvs_persistence_mode _ ≠ _)), andb_true_r in Hl by done.
  destruct Happ as [(Hr & Hms)|(-> & Hms)].
  - rewrite (proj2 (Z.ltb_lt 0 r)) in Hl by lia. destruct Hl as (Hl & _ & _ & Hmax').
    rewrite (proj2 (Z.leb_gt r 0)), (proj2 (Z.leb_gt cap r)) by lia. cbn [orb].
    assert (following fd own F (g ++ aof_record ts) (put_server w' n)) as Hf.
    { split; [exact Hrep|]. split; [exact Hst|]. split; [by split|]. cbn. congruence. }
    apply step_offset. rewrite (following_offset _ _ _ _ _ Hf). pose proof (zlen_nonneg (g ++ aof_record ts)).
    rewrite (proj2 (Z.ltb_ge _ 0)) by lia. apply step_put, wpx_ret. split; [done|]. split; [done|]. split; [exact Hroom|]. split; [exact Hheal|].
    split; [|done]. left. split; [done|]. split; [exact Hf|]. split; [done|]. split; [done|exact Hms].
  - cbn in Hl. cbn [Z.leb Z.compare orb]. apply wpx_ret. split; [done|]. split; [done|]. split; [exact Hroom|]. split; [exact Hheal|].
    split; [|intros Hro Hap; by specialize (Hgood Hro Hap)]. right. split; [done|]. split; [|done].
    split; [exact Hrep|]. split; [exact Hst|]. split; [|cbn; congruence]. eapply same_files_ok; [exact Hok|done|exact Hl|exact Hd'].
Qed.

(** ** The network handler *)

(** The output buffer: the reply of a command fits. *)
Definition follow_buffer b : Prop := is_Some (o_data b) ∧ REPLY_ROOM < o_capacity b ≤ INT_MAX.

Lemma step_network fd own F g msg b n (Q : Z * bytes * Z → N → Prop) G :
  following fd own F g n → follow_buffer b → msg ≠ [] →
  (head msg = Some STAR →
    match kvs_parse_command (Some msg) 3 with
    | Incomplete => Q (0, [], 0) n
    | Malformed => Q (-1, [], 0) n
    | Complete (fields, parsed) => ∀ array,
        wpx (kvs_replication_catch_up_command_protocol fd fields array (o_capacity b)) n
          (λ r, Q (if r <? 0 then (-1, [], 0) else (0, [], parsed))) G
    end) →
  (head msg ≠ Some STAR →
    wpx (kvs_replication_control_line_protocol msg (o_capacity b) (kvs_replication_online_control_frame_protocol fd)) n Q G) →
  wpx (kvs_replication_upstream_network_protocol fd msg b) n Q G.
Proof.
  intros ((Hini & Hrole & Hfd & Hpfd & _) & Hst & _) ([[array block] Eb] & Hcap) Hne Hs Hl.
  assert (0 < zlen msg) as Hlen. { destruct msg as [|c msg]; [done|]. rewrite zlen_cons. pose proof (zlen_nonneg msg). lia. }
  unfold REPLY_ROOM in *. unfold kvs_replication_upstream_network_protocol. apply step_manager. rewrite Eb.
  rewrite Hini, Hpfd, Z.eqb_refl, bool_decide_eq_false_2, (proj2 (Z.ltb_ge _ 0)), !(proj2 (Z.leb_gt _ 0)) by (tauto || lia). cbn [orb negb].
  assert (rm_state (nd_rep n) ≠ KVS_REPLICATION_STATE_HANDSHAKE ∧ rm_state (nd_rep n) ≠ KVS_REPLICATION_STATE_FULL_SYNC) as [H1s H2s].
  { unfold following_state in Hst. apply orb_true_iff in Hst. rewrite !bool_decide_eq_true in Hst. destruct Hst as [->| ->]; done. }
  rewrite !bool_decide_eq_false_2, Hst by done. case_bool_decide as Hh; [|by apply Hl]. specialize (Hs Hh).
  destruct (kvs_parse_command (Some msg) 3) as [[fields parsed]| |]; [|by apply wpx_ret..].
  eapply wpx_stepx; [apply Hs|]. intros r n' Hq. cbv beta in Hq. destruct (r <? 0); by apply wpx_ret.
Qed.

Lemma wpx_is {V X} (m : M V X) v x v' : wpx m v (λ y v1, y = x ∧ v1 = v') (λ _, False) → m v = Ok x v'.
Proof. unfold wpx. destruct (m v); [by intros [-> ->]|done|done]. Qed.

(** A whole command. *)
Lemma network_follows_command fd own F g ts rest b n :
  following fd own F g n → follow_buffer b → logged_write ts → zlen (aof_record ts ++ rest) ≤ SIZE_MAX →
  roomy (heap (nd_server n)) → healthy (node_disk n) → zlen (g ++ aof_record ts) ≤ INT64_MAX → is_Some (apply_write ts (maps (nd_server n))) →
  wp (kvs_replication_upstream_network_protocol fd (aof_record ts ++ rest) b) n (λ x n', x = (0, [], zlen (aof_record ts)) ∧
    following fd own F (g ++ aof_record ts) n' ∧ rm_state (nd_rep n') = rm_state (nd_rep n) ∧
    roomy (heap (nd_server n')) ∧ healthy (node_disk n') ∧ rm_replication_offset (nd_rep n') = zlen (g ++ aof_record ts) ∧
    ∃ ms, apply_write ts (maps (nd_server n)) = Some ms ∧ maps_eq (maps (nd_server n')) ms).
Proof.
  intros Hf Hb Hw Hsz Hro Hh Hmax Hap. pose proof Hb as [_ Hcap]. pose proof (logged_write_fields ts Hw) as Hlen.
  assert (command_text ts (aof_record ts)) as Ht.
  { apply aof_record_text; [|unfold SIZE_MAX; lia]. destruct Hw as (_ & _ & _ & _ & Hl). eapply Forall_impl; [exact Hl|]. cbn. lia. }
  apply wpx_wp. eapply step_network; [exact Hf|exact Hb|by intros [? _]%app_nil| |].
  - intros _. rewrite zlen_app in Hsz. pose proof (zlen_nonneg rest). unfold kvs_parse_command.
    rewrite (command_parses _ rest _ _ ts (aof_record ts)); [|unfold SIZE_MAX; lia..|by rewrite zlen_app|done|done|lia|lia].
    intros array. eapply wpx_mono; [by apply (catch_up_spec fd array _ ts own F g)| |].
    + intros r n' (_ & Hst' & Hro' & Hh' & Hcase & Hgood). assert (r = 0) as -> by auto.
      destruct Hcase as [(_ & Hf' & _ & Ho & Hms)|(? & _)]; [|done]. cbn [Z.ltb Z.compare]. split_and!; auto.
    + intros n' (_ & Hno & _). apply Hno. split; [done|]. split; [done|]. rewrite zlen_app in Hmax. unfold append_room.
      pose proof (zlen_nonneg g). split; lia.
  - intros Hx. by destruct Hx.
Qed.

(** The beginning of one. *)
Lemma network_waits_command fd own F g ts k b n :
  following fd own F g n → follow_buffer b → logged_write ts → zlen (aof_record ts) ≤ SIZE_MAX → (0 < k < List.length (aof_record ts))%nat →
  kvs_replication_upstream_network_protocol fd (take k (aof_record ts)) b n = Ok (0, [], 0) n.
Proof.
  intros Hf Hb Hw Hsz Hk. pose proof (logged_write_fields ts Hw) as Hlen.
  assert (command_text ts (aof_record ts)) as Ht.
  { apply aof_record_text; [|unfold SIZE_MAX; lia]. destruct Hw as (_ & _ & _ & _ & Hl). eapply Forall_impl; [exact Hl|]. cbn. lia. }
  apply wpx_is. destruct k as [|k]; [lia|]. eapply step_network; [exact Hf|exact Hb|done| |].
  - intros _. unfold kvs_parse_command.
    rewrite (command_prefix_waits ts); [|unfold SIZE_MAX; lia..|done|done|lia|lia|lia]. done.
  - intros Hx. by destruct Hx.
Qed.

(** The line ONLINE. *)
Lemma online_frame_ok offset : 0 ≤ offset ≤ INT64_MAX → says_online offset (online_frame offset) ∧ LF ∉ online_frame offset ++ [CR].
Proof.
  intros Ho. split; [split; [done|by apply online_scanned]|]. unfold online_frame. rewrite !not_elem_of_app. split_and!.
  - apply (bool_decide_unpack _). vm_compute. exact I.
  - destruct (print_text offset Ho) as (_ & Hd & _). intros Hin. rewrite Forall_forall in Hd. specialize (Hd _ Hin). by vm_compute in Hd.
  - apply (bool_decide_unpack _). vm_compute. exact I.
Qed.

Lemma network_online fd own F g b n :
  following fd own F g n → follow_buffer b →
  kvs_replication_upstream_network_protocol fd (online_line (zlen g)) b n = Ok (0, [], zlen (online_line (zlen g))) (online (zlen g) n).
Proof.
  intros Hf Hb. pose proof Hb as [_ Hcap]. pose proof (zlen_nonneg g). unfold REPLY_ROOM in Hcap.
  assert (zlen g ≤ INT64_MAX) as Hmax by (by destruct Hf as (_ & _ & (_ & Hm & _) & _)).
  destruct (online_frame_ok (zlen g)) as [Hsays Hlf]; [lia|].
  assert (online_line (zlen g) = online_frame (zlen g) ++ CR :: LF :: []) as El by (unfold online_line, online_frame; by rewrite <- app_assoc).
  apply wpx_is. eapply step_network; [exact Hf|exact Hb|done|done|]. intros _.
  unfold kvs_replication_control_line_protocol. rewrite El.
  change (online_frame (zlen g) ++ [CR; LF]) with (online_frame (zlen g) ++ [CR] ++ [LF]). rewrite app_assoc, find_line_feed_at by done.
  rewrite <- app_assoc. change ([CR] ++ [LF]) with [CR; LF]. rewrite zlen_app. change (zlen [CR]) with 1.
  replace (0 + (zlen (online_frame (zlen g)) + 1) + 1) with (zlen (online_frame (zlen g)) + 2) by lia.
  unfold wpx, mbind, M_bind. rewrite not_elem_of_app in Hlf. destruct Hlf as [Hlf _]. rewrite line_batch_one by (done || lia).
  unfold mbind, M_bind. rewrite (online_frame_spec fd own F g) by (done || lia). rewrite decide_True by done. cbn [Z.ltb Z.compare orb].
  rewrite (proj2 (Z.ltb_ge (o_capacity b) 0)) by lia. cbn. split; [|done]. rewrite zlen_app. done.
Qed.

Lemma network_waits_online fd own F g offset k b n :
  following fd own F g n → follow_buffer b → 0 ≤ offset ≤ INT64_MAX → (0 < k < List.length (online_line offset))%nat →
  kvs_replication_upstream_network_protocol fd (take k (online_line offset)) b n = Ok (0, [], 0) n.
Proof.
  intros Hf Hb Ho Hk. destruct (online_frame_ok offset Ho) as [_ Hlf].
  assert (online_line offset = (online_frame offset ++ [CR]) ++ [LF]) as El by (unfold online_line, online_frame; by rewrite <- !app_assoc).
  assert (LF ∉ take k (online_line offset)) as Hno.
  { rewrite El in *. rewrite length_app in Hk. cbn in Hk. rewrite take_app_le by lia. intros Hin%elem_of_take. destruct Hin as (i & Hi & _).
    apply list_elem_of_lookup_2 in Hi. by apply Hlf. }
  apply wpx_is. eapply step_network; [exact Hf|exact Hb| | |].
  - intros E. apply (f_equal List.length) in E. rewrite length_take in E. cbn in E. lia.
  - intros Hx. destruct k as [|k]; [lia|]. done.
  - intros _. unfold kvs_replication_control_line_protocol. by rewrite find_line_feed_none.
Qed.

(** ** A stream, in any division *)

(** What [server_reader] does with the input of such a connection, which is never
    answered: the rest of the input, or [None] when the connection is closed. *)
Fixpoint follow (fuel : nat) fd b msg : M N (option bytes) :=
  if bool_decide (msg = []) then mret (Some []) else
  match fuel with
  | O => undefined
  | S fuel =>
      '(r, reply, consumed) ← kvs_replication_upstream_network_protocol fd msg b;
      if r <? 0 then mret None else if consumed <=? 0 then mret (Some msg) else follow fuel fd b (drop (Z.to_nat consumed) msg)
  end.

Fixpoint feed fd b (chunks : list bytes) (buffered : bytes) : M N (option bytes) :=
  match chunks with
  | [] => mret (Some buffered)
  | chunk :: chunks =>
      rest ← follow (S (List.length (buffered ++ chunk))) fd b (buffered ++ chunk);
      match rest with
      | None => mret None
      | Some rest => feed fd b chunks rest
      end
  end.

(** The rest of what the primary sends: the records of [cmds] and the line that says
    that its log ends at [offset]; nothing when that was received. *)
Definition to_come (offset : Z) (todo : option (list (list bytes))) : bytes :=
  match todo with
  | Some cmds => mjoin (aof_record <$> cmds) ++ online_line offset
  | None => []
  end.

(** The replica has applied everything but [cmds]; [ms] is the data set behind it all. *)
Definition behind fd own F (log : bytes) (ms : kv_maps) (todo : option (list (list bytes))) n : Prop :=
  roomy (heap (nd_server n)) ∧ healthy (node_disk n) ∧
  match todo with
  | Some cmds => Forall logged_write cmds ∧ ∃ g ms', log = g ++ mjoin (aof_record <$> cmds) ∧ following fd own F g n ∧
      apply_log cmds (maps (nd_server n)) = Some ms' ∧ maps_eq ms' ms
  | None => following fd own F log n ∧ maps_eq (maps (nd_server n)) ms ∧
      rm_state (nd_rep n) = KVS_REPLICATION_STATE_ONLINE ∧ rm_replication_offset (nd_rep n) = zlen log
  end.

(** Not a whole item of what is to come. *)
Definition unfinished (log : bytes) (todo : option (list (list bytes))) msg : Prop := msg = [] ∨
  match todo with
  | Some (ts :: _) => (List.length msg < List.length (aof_record ts))%nat
  | Some [] => (List.length msg < List.length (online_line (zlen log)))%nat
  | None => False
  end.

Lemma follow_spec fuel fd own F b log ms (todo : option (list (list bytes))) msg more n :
  behind fd own F log ms todo n → follow_buffer b → zlen log ≤ INT64_MAX → zlen (to_come (zlen log) todo) ≤ SIZE_MAX →
  msg ++ more = to_come (zlen log) todo → (List.length msg < fuel)%nat →
  wp (follow fuel fd b msg) n (λ rest n', ∃ rest' todo', rest = Some rest' ∧ behind fd own F log ms todo' n' ∧
    rest' ++ more = to_come (zlen log) todo' ∧ zlen (to_come (zlen log) todo') ≤ SIZE_MAX ∧ unfinished log todo' rest').
Proof.
  intros Hbeh Hb Hmax. revert todo msg n Hbeh. induction fuel as [|fuel IH]; intros todo msg n Hbeh Hsz E Hf; [lia|].
  cbn [follow]. case_bool_decide as Hm; [apply wp_ret; subst msg; exists [], todo; split_and!; auto; by left|].
  destruct todo as [cmds|]; [|cbn in E; apply app_eq_nil in E as [? _]; done].
  destruct Hbeh as (Hro & Hh & Hall & g & ms' & -> & Hfol & Happ & Hms). destruct cmds as [|ts cmds].
  - cbn [to_come fmap list_fmap] in *. change (mjoin []) with ([] : bytes) in *. rewrite app_nil_r in *. cbn [app] in *.
    pose proof (zlen_nonneg g). destruct (le_lt_dec (List.length (online_line (zlen g))) (List.length msg)) as [Hle|Hlt].
    + assert (msg = online_line (zlen g) ∧ more = []) as [-> ->].
      { apply (f_equal List.length) in E as El. rewrite length_app in El.
        assert (more = []) as -> by (apply length_zero_iff_nil; lia). by rewrite app_nil_r in E. }
      eapply wp_eq; [by eapply network_online|]. cbv beta. cbn [Z.ltb Z.compare].
      assert (0 < zlen (online_line (zlen g))) as Hpos by (unfold online_line; rewrite zlen_app; pose proof (zlen_nonneg (print_lld (zlen g) ++ crlf)); change (zlen (lit "ONLINE ")) with 7; lia).
      rewrite (proj2 (Z.leb_gt _ 0)) by lia. unfold zlen at 1. rewrite Nat2Z.id, drop_all.
      destruct fuel; (cbn [follow]; rewrite bool_decide_eq_true_2 by done; apply wp_ret; exists [], None; split; [done|]; split; [|split; [done|split; [vm_compute; discriminate|by left]]]).
      all: split; [exact Hro|]; split; [exact Hh|]; destruct Hfol as (Hrep & Hst & Hd); cbn in Happ; injection Happ as <-.
      all: split; [split; [exact Hrep|split; [done|exact Hd]]|split; [exact Hms|done]].
    + assert (msg = take (List.length msg) (online_line (zlen g))) as Et by (by rewrite <- E, take_app_length).
      rewrite Et. eapply wp_eq; [eapply network_waits_online; [exact Hfol|exact Hb|lia|]|].
      { destruct msg; [done|]. cbn in *. lia. }
      cbn [Z.ltb Z.leb Z.compare]. apply wp_ret. rewrite <- Et. exists msg, (Some []). split; [done|]. split; [|split; [|split; [|by right]]].
      * split; [done|]. split; [done|]. split; [done|]. exists g, ms'. cbn. by rewrite app_nil_r.
      * exact E.
      * exact Hsz.
  - cbn [to_come] in E, Hsz. rewrite fmap_cons in *. change (mjoin (aof_record ts :: (aof_record <$> cmds))) with (aof_record ts ++ mjoin (aof_record <$> cmds)) in *.
    apply Forall_cons in Hall as [Hts Hall]. rewrite <- !app_assoc in E, Hsz. set (log := g ++ aof_record ts ++ mjoin (aof_record <$> cmds)) in *.
    pose proof (aof_record_pos ts). cbn in Happ. apply bind_Some in Happ as (ms1 & Happ1 & Happ).
    destruct (le_lt_dec (List.length (aof_record ts)) (List.length msg)) as [Hle|Hlt].
    + assert (∃ m, msg = aof_record ts ++ m) as [m ->].
      { exists (drop (List.length (aof_record ts)) msg). rewrite <- (take_drop (List.length (aof_record ts)) msg) at 1. f_equal.
        apply (f_equal (take (List.length (aof_record ts)))) in E. rewrite take_app_le, take_app_length in E by lia. done. }
      rewrite <- app_assoc in E. apply app_inv_head in E.
      eapply wp_step.
      { apply (network_follows_command fd own F g ts m b n); [done|done|done| |done|done| |by eexists].
        - rewrite <- E in Hsz. rewrite !zlen_app in *. pose proof (zlen_nonneg more). lia.
        - unfold log in Hmax. rewrite !zlen_app in *. pose proof (zlen_nonneg (mjoin (aof_record <$> cmds))). lia. }
      intros x n' (-> & Hf' & _ & Hro' & Hh' & _ & msx & Ex & Hmsx). assert (msx = ms1) as -> by congruence. cbv beta iota. cbn [Z.ltb Z.compare].
      assert (0 < zlen (aof_record ts)) by (unfold zlen; lia). rewrite (proj2 (Z.leb_gt _ 0)) by lia.
      rewrite drop_app_length' by (unfold zlen; lia). symmetry in Hmsx. destruct (apply_log_eq cmds ms1 (maps (nd_server n')) ms' Hmsx Happ) as (ms2 & Happ2 & Hms2).
      apply (IH (Some cmds)).
      * split; [done|]. split; [done|]. split; [done|]. exists (g ++ aof_record ts), ms2. split; [unfold log; by rewrite <- app_assoc|].
        split; [done|]. split; [done|]. rewrite <- Hms2. done.
      * cbn. rewrite !zlen_app in *. lia.
      * exact E.
      * rewrite length_app in Hf. lia.
    + assert (msg = take (List.length msg) (aof_record ts)) as Et.
      { apply (f_equal (take (List.length msg))) in E. rewrite take_app_length, take_app_le in E by lia. done. }
      assert (zlen (aof_record ts) ≤ SIZE_MAX) as Hrs by (rewrite !zlen_app in Hsz; pose proof (zlen_nonneg (mjoin (aof_record <$> cmds))); pose proof (zlen_nonneg (online_line (zlen log))); lia).
      rewrite Et. eapply wp_eq; [eapply network_waits_command; [exact Hfol|exact Hb|exact Hts|exact Hrs|]|].
      { destruct msg; [done|]. cbn in *. lia. }
      cbn [Z.ltb Z.leb Z.compare]. apply wp_ret. rewrite <- Et. exists msg, (Some (ts :: cmds)). split; [done|]. split; [|split; [|split; [|by right]]].
      * split; [done|]. split; [done|]. split; [by constructor|]. exists g, ms'. split; [done|]. split; [done|]. split; [|done]. cbn. by rewrite Happ1.
      * cbn [to_come]. rewrite fmap_cons. change (mjoin (aof_record ts :: (aof_record <$> cmds))) with (aof_record ts ++ mjoin (aof_record <$> cmds)). by rewrite <- !app_assoc.
      * cbn [to_come]. rewrite fmap_cons. change (mjoin (aof_record ts :: (aof_record <$> cmds))) with (aof_record ts ++ mjoin (aof_record <$> cmds)). by rewrite <- !app_assoc.
Qed.


Lemma feed_spec fd own F b log ms chunks buffered (todo : option (list (list bytes))) n :
  behind fd own F log ms todo n → follow_buffer b → zlen log ≤ INT64_MAX → zlen (to_come (zlen log) todo) ≤ SIZE_MAX →
  buffered ++ mjoin chunks = to_come (zlen log) todo → unfinished log todo buffered →
  wp (feed fd b chunks buffered) n (λ rest n', rest = Some [] ∧ behind fd own F log ms None n').
Proof.
  intros Hbeh Hb Hmax. revert buffered todo n Hbeh. induction chunks as [|chunk chunks IH]; intros buffered todo n Hbeh Hsz E Hun; cbn [feed].
  - change (mjoin []) with ([] : bytes) in E. rewrite app_nil_r in E. destruct todo as [[|ts cmds]|].
    + exfalso. subst buffered. destruct Hun as [Hun|Hun]; cbn in Hun; [done|lia].
    + exfalso. subst buffered. pose proof (aof_record_pos ts). cbn [to_come] in *. rewrite fmap_cons in *.
      change (mjoin (aof_record ts :: (aof_record <$> cmds))) with (aof_record ts ++ mjoin (aof_record <$> cmds)) in Hun.
      destruct Hun as [Hun|Hun]; [apply app_eq_nil in Hun as [Hun _]; apply app_eq_nil in Hun as [Hun _]; by rewrite Hun in *|].
      rewrite !length_app in Hun. lia.
    + apply wp_ret. cbn in E. by subst.
  - eapply wp_step.
    { apply (follow_spec _ fd own F b log ms todo _ (mjoin chunks)); [done|done|done|done| |lia].
      change (mjoin (chunk :: chunks)) with (chunk ++ mjoin chunks) in E. by rewrite <- app_assoc. }
    intros rest n' (rest' & todo' & -> & Hbeh' & E' & Hsz' & Hun'). by apply (IH rest' todo').
Qed.
End follow.

(** * Theorems *)

Section theorems.
Context `{CRuntimeLaws RT} `{OsLaws D} `{RdmaLaws T} {Ea Er Eh Es : Type}
  `{!Engine RT Ea} `{!Engine RT Er} `{!Engine RT Eh} `{!Engine RT Es}
  `{!EngineLaws RT Ea} `{!EngineLaws RT Er} `{!EngineLaws RT Eh} `{!EngineLaws RT Es}.
Notation engines := (kv_engines Ea Er Eh Es).
Notation N := (node RT D engines T).
Notation apply_write := (apply_write (RT := RT) (Ea := Ea) (Er := Er) (Eh := Eh) (Es := Es)).
Notation apply_log := (apply_log (RT := RT) (Ea := Ea) (Er := Er) (Eh := Eh) (Es := Es)).
Notation logged_write := (logged_write (RT := RT) (Ea := Ea) (Er := Er) (Eh := Eh) (Es := Es)).
Implicit Types (n : N) (own : list addr) (F : gset addr) (g frame : bytes) (ts : list bytes) (cmds : list (list bytes)).

(** A replica becomes ONLINE on a line that names exactly the length of its own
    log, and on nothing else; any other line is refused and changes nothing. *)
Theorem online_exact fd own F g frame cap n :
  following fd own F g n → frame ≠ [] → 5 ≤ cap →
  (says_online (zlen g) frame ∧
     kvs_replication_online_control_frame_protocol fd frame cap n = Ok (0, []) (online (zlen g) n)) ∨
  (¬ says_online (zlen g) frame ∧ kvs_replication_online_control_frame_protocol fd frame cap n = Ok (-1, []) n).
Proof. intros Hf Hne Hc. rewrite (online_frame_spec fd own F g) by done. case_decide; auto. Qed.

(** A command of the primary that is executed is in the replica's log, and the
    replication offset is the length of that log; a refused one changes nothing.  The
    process ends only when the log cannot be written. *)
Theorem catch_up_exact fd array cap ts own F g n :
  following fd own F g n → logged_write ts → REPLY_ROOM < cap ≤ INT_MAX →
  wpx (kvs_replication_catch_up_command_protocol fd (slice_of <$> ts) array cap) n (λ r n',
    nd_rdma n' = nd_rdma n ∧ rm_state (nd_rep n') = rm_state (nd_rep n) ∧
    (roomy (heap (nd_server n)) → roomy (heap (nd_server n'))) ∧ keeps_health (node_disk n) (node_disk n') ∧
    (r = 0 ∧ following fd own F (g ++ aof_record ts) n' ∧ zlen (g ++ aof_record ts) ≤ INT64_MAX ∧
       rm_replication_offset (nd_rep n') = zlen (g ++ aof_record ts) ∧
       (∃ ms, apply_write ts (maps (nd_server n)) = Some ms ∧ maps_eq (maps (nd_server n')) ms) ∨
     r = -1 ∧ following fd own F g n' ∧ maps_eq (maps (nd_server n')) (maps (nd_server n)) ∧ nd_rep n' = nd_rep n) ∧
    (roomy (heap (nd_server n)) → is_Some (apply_write ts (maps (nd_server n))) → r = 0))
  (λ n', append_failed g ts KVS_COMMAND_SOURCE_REPLICATION (nd_server n) (nd_server n')).
Proof. apply catch_up_spec. Qed.

(** C13: a replica fed the records of the commands [cmds] and then the line that says
    where the primary's log ends, in any division into pieces, executes exactly these
    commands in this order, has the primary's log, and ends ONLINE at its length, when
    there is memory, the disk works and the commands apply. *)
Theorem replica_follows fd own F g cmds chunks ms b n : let log := g ++ mjoin (aof_record <$> cmds) in
  following fd own F g n → follow_buffer b → Forall logged_write cmds → apply_log cmds (maps (nd_server n)) = Some ms →
  zlen log ≤ INT64_MAX → mjoin chunks = mjoin (aof_record <$> cmds) ++ online_line (zlen log) → zlen (mjoin chunks) ≤ SIZE_MAX →
  roomy (heap (nd_server n)) → healthy (node_disk n) →
  wp (feed fd b chunks []) n (λ rest n', rest = Some [] ∧ following fd own F log n' ∧ maps_eq (maps (nd_server n')) ms ∧
    rm_state (nd_rep n') = KVS_REPLICATION_STATE_ONLINE ∧ rm_replication_offset (nd_rep n') = zlen log).
Proof.
  intros log Hf Hb Hall Happ Hmax Hc Hsz Hro Hh. eapply wp_mono.
  - apply (feed_spec fd own F b log ms chunks [] (Some cmds)); [|done|done|by rewrite Hc in Hsz|done|by left].
    split; [done|]. split; [done|]. split; [done|]. by exists g, ms.
  - intros rest n' (-> & _ & _ & Hf' & Hms & Hst & Ho). by split_and!.
Qed.
End theorems.

(** * A replica that follows *)

Abbreviation demo_apply_log := (apply_log (RT := heap_rt) (Ea := kvs_array_t) (Er := RbTree.kvs_rbtree_t) (Eh := kvs_hash_t) (Es := kvs_skiplist_t)) (only parsing).
Abbreviation demo_logged_write := (logged_write (RT := heap_rt) (Ea := kvs_array_t) (Er := RbTree.kvs_rbtree_t) (Eh := kvs_hash_t) (Es := kvs_skiplist_t)) (only parsing).

Definition following_node (es : demo_engines) (r : heap_rt) : demo_node :=
  demo_replica log_disk es r KVS_REPLICATION_STATE_CATCH_UP writer_closed None (Script [] [] [] [] true).

Lemma following_node_ok : ∃ (es : demo_engines) r, following 9 [] ∅ [] (following_node es r) ∧ roomy r ∧ maps_eq (engine_maps es) empty_maps.
Proof.
  destruct fresh_engines as (es & r & Hwf & Ho & Hm & Hro). exists es, r. split; [|done].
  destruct (demo_replica_data [] ∅ log_disk es r KVS_REPLICATION_STATE_CATCH_UP writer_closed None (Script [] [] [] [] true) Hwf Ho ltac:(reflexivity)) as [Hrep Hd].
  by split_and!.
Qed.

Lemma sample_write : demo_logged_write sample_command.
Proof.
  split; [check_well_formed|]. split; [reflexivity|]. split; [vm_compute; reflexivity|]. split; [check_nul_free|].
  repeat (apply Forall_cons; split; [vm_compute; reflexivity|]). by apply Forall_nil.
Qed.

Lemma online_exact_witness : ∃ n : demo_node, following 9 [] ∅ [] n ∧
  ((says_online (zlen ([] : bytes)) (lit "ONLINE 0") ∧
     kvs_replication_online_control_frame_protocol 9 (lit "ONLINE 0") 64 n = Ok (0, []) (online (zlen ([] : bytes)) n)) ∨
   (¬ says_online (zlen ([] : bytes)) (lit "ONLINE 0") ∧ kvs_replication_online_control_frame_protocol 9 (lit "ONLINE 0") 64 n = Ok (-1, []) n)).
Proof.
  destruct following_node_ok as (es & r & Hf & _). exists (following_node es r). split; [exact Hf|].
  refine (online_exact 9 [] ∅ [] (lit "ONLINE 0") 64 _ Hf _ _); [discriminate|lia].
Defined.

Lemma catch_up_exact_witness : ∃ n : demo_node, following 9 [] ∅ [] n ∧
  wpx (kvs_replication_catch_up_command_protocol 9 (slice_of <$> sample_command) 0 1024) n (λ r n',
    nd_rdma n' = nd_rdma n ∧ rm_state (nd_rep n') = rm_state (nd_rep n) ∧
    (roomy (heap (nd_server n)) → roomy (heap (nd_server n'))) ∧ keeps_health (node_disk n) (node_disk n') ∧
    (r = 0 ∧ following 9 [] ∅ ([] ++ aof_record sample_command) n' ∧ zlen ([] ++ aof_record sample_command) ≤ INT64_MAX ∧
       rm_replication_offset (nd_rep n') = zlen ([] ++ aof_record sample_command) ∧
       (∃ ms, demo_apply sample_command (maps (nd_server n)) = Some ms ∧ maps_eq (maps (nd_server n')) ms) ∨
     r = -1 ∧ following 9 [] ∅ [] n' ∧ maps_eq (maps (nd_server n')) (maps (nd_server n)) ∧ nd_rep n' = nd_rep n) ∧
    (roomy (heap (nd_server n)) → is_Some (demo_apply sample_command (maps (nd_server n))) → r = 0))
  (λ n', append_failed [] sample_command KVS_COMMAND_SOURCE_REPLICATION (nd_server n) (nd_server n')).
Proof.
  destruct following_node_ok as (es & r & Hf & _). exists (following_node es r). split; [exact Hf|].
  refine (catch_up_exact 9 0 1024 sample_command [] ∅ [] _ Hf sample_write _). split; vm_compute; congruence.
Defined.

Lemma replica_follows_witness : ∃ (n : demo_node) ms b chunks, let log := [] ++ mjoin (aof_record <$> [sample_command]) in
  following 9 [] ∅ [] n ∧ List.length chunks = 3%nat ∧ mjoin chunks = mjoin (aof_record <$> [sample_command]) ++ online_line (zlen log) ∧
  wp (feed 9 b chunks []) n (λ rest n', rest = Some [] ∧ following 9 [] ∅ log n' ∧ maps_eq (maps (nd_server n')) ms ∧
    rm_state (nd_rep n') = KVS_REPLICATION_STATE_ONLINE ∧ rm_replication_offset (nd_rep n') = zlen log).
Proof.
  destruct following_node_ok as (es & r & Hf & Hro & Hm). symmetry in Hm.
  assert (∃ ms, demo_apply_log [sample_command] (engine_maps es) = Some ms) as [ms Hms].
  { destruct (demo_apply_log [sample_command] empty_maps) as [ms0|] eqn:E0; [|exfalso; revert E0; vm_compute; discriminate].
    destruct (apply_log_eq (RT := heap_rt) (Ea := kvs_array_t) (Er := RbTree.kvs_rbtree_t) (Eh := kvs_hash_t) (Es := kvs_skiplist_t)
      [sample_command] empty_maps (engine_maps es) ms0 Hm E0) as (ms & E & _). by exists ms. }
  set (s := mjoin (aof_record <$> [sample_command]) ++ online_line (zlen (mjoin (aof_record <$> [sample_command])))).
  exists (following_node es r), ms, (OutputBuffer (Some (0, replicate 1024 None)) 0 0 1024), [take 5 s; take 30 (drop 5 s); drop 35 s].
  intros log. split; [exact Hf|]. split; [reflexivity|]. split; [vm_compute; reflexivity|].
  refine (replica_follows 9 [] ∅ [] [sample_command] _ ms _ _ Hf _ _ Hms _ _ _ Hro _).
  - split; [by eexists|]. split; vm_compute; congruence.
  - apply Forall_cons. split; [exact sample_write|by apply Forall_nil].
  - vm_compute. discriminate.
  - vm_compute. reflexivity.
  - vm_compute. discriminate.
  - reflexivity.
Defined.
