(* ===== verification/PrimarySync.v ===== *)
(** The primary's side of replication, src/replication/replication.c: the snapshot it
    sends in acknowledged pieces, and the log it sends behind it.  The definitions are
    those of Replication. *)

From Stdlib Require Import ZArith Lia.
From S2P Require Import Prelude Runtime RbEngine Engine Codec ArrayEngine HashEngine SkipList Kvengine Buffer Os Rdma MappedFile Aof SnapshotIo SnapshotFormat SnapshotStore SnapshotLoad Kvstore RepState Execute Server Replication ReplicationLines ReplicaSync ReplicaFollow.

Section primary.
Context `{CRuntimeLaws RT} `{OsLaws D} `{RdmaLaws T} {Ea Er Eh Es : Type}
  `{!Engine RT Ea} `{!Engine RT Er} `{!Engine RT Eh} `{!Engine RT Es}
  `{!EngineLaws RT Ea} `{!EngineLaws RT Er} `{!EngineLaws RT Eh} `{!EngineLaws RT Es}.
Notation engines := (kv_engines Ea Er Eh Es).
Notation W := (server RT D engines).
Notation N := (node RT D engines T).
Notation LOG := KVS_REPLICATION_PRIMARY_AOF_PATH.
Implicit Types (n : N) (w : W) (d : D) (f out : bytes).

(** * Opening a range of the log *)

(** The log file is [f]: the file behind [i]. *)
Definition log_inode d i f : Prop := os_names d !! LOG = Some i ∧ os_data d !! i = Some f.

Lemma aof_reader_open_spec start stop d i f :
  log_inode d i f → 0 ≤ start ≤ stop → stop ≤ zlen f →
  wp (kvs_aof_reader_open LOG start stop) d (λ '(r, reader) d', keeps_health d d' ∧ os_names d' = os_names d ∧ os_data d' = os_data d ∧
    (r = 0 ∧ reader = AofReader (rd_fd reader) start (stop - start) ∧ 0 ≤ rd_fd reader ∧ os_fds d !! rd_fd reader = None ∧
       os_fds d' = <[rd_fd reader := i]> (os_fds d) ∨
     r = -1 ∧ reader = AofReader (-1) 0 0 ∧ os_fds d' = os_fds d ∧ ¬ healthy d)).
Proof.
  intros (Hn & Hf) Hs Hle. unfold kvs_aof_reader_open. rewrite bool_decide_eq_false_2, !(proj2 (Z.ltb_ge _ _)) by (done || lia). cbn [orb].
  eapply wp_step; [apply open_read_law|]. intros [fd| |] d1 (Hk & Ho).
  2:{ destruct Ho as [_ Ho]. congruence. }
  2:{ apply wp_ret. destruct Ho as [(E1 & E2 & E3) Ho]. split_and!; [done..|]. right. split_and!; [done..|]. intros Hh. specialize (Ho Hh). congruence. }
  destruct Ho as (j & (Hfd & Hnew & Ef) & En & Ed & Hj). rewrite Hn in Hj. subst j.
  assert (fd_file d1 fd = Some f) as Hfile by (unfold fd_file; rewrite Ef, lookup_insert_eq, Ed; done).
  eapply wp_step; [apply fstat_law; rewrite Ef, lookup_insert_eq; by eexists|]. intros info d2 (Hk2 & (E1 & E2 & E3) & Hi).
  assert (¬ healthy d1 → wp (kvs_aof_file_close fd;; mret (-1, AofReader (-1) 0 0)) d2 (λ '(r, reader) d', keeps_health d d' ∧
    os_names d' = os_names d ∧ os_data d' = os_data d ∧ r = -1 ∧ reader = AofReader (-1) 0 0 ∧ os_fds d' = os_fds d ∧ ¬ healthy d)) as Hfail.
  { intros Hno. eapply wp_step; [by apply aof_close_file|]. intros x d3 (Hk3 & En3 & Ed3 & Ef3). apply wp_ret.
    split; [unfold keeps_health in *; auto|]. split; [congruence|]. split; [congruence|]. split_and!; [done|done| |by intros Hh; apply Hno, Hk].
    rewrite Ef3, E3, Ef. by rewrite delete_insert_id. }
  destruct info as [[[] size]|].
  - destruct Hi as (f' & Hf' & ->). assert (f' = f) as -> by congruence. rewrite !(proj2 (Z.ltb_ge _ _)) by lia. cbn [orb].
    apply wp_ret. split; [unfold keeps_health in *; auto|]. split; [congruence|]. split; [congruence|]. left. split_and!; try done. cbn. congruence.
  - congruence.
  - eapply wp_mono; [by apply Hfail|]. intros [r rd] d' (? & ? & ? & ?). auto.
Qed.

(** * The log *)

(** A primary whose connection [fd] to a replica has the log [f]. *)
Definition serving fd f n : Prop :=
  let m := nd_rep n in let d := node_disk n in
  rm_initialized m = true ∧ rm_role m = KVS_ROLE_PRIMARY ∧ 0 ≤ fd ∧ rm_snapshot_connection_fd m = fd ∧
  zlen f ≤ INT64_MAX ∧ aof_log (sv_io (nd_server n)) f ∧
  ∃ i, os_fds d !! aw_fd (p_aof (sv_io (nd_server n))) = Some i ∧ log_inode d i f.

Notation reader n := (rm_aof_reader (nd_rep n)).
Notation state n := (rm_state (nd_rep n)).

(** The log up to [sent] has been handed out. *)
Definition streaming fd f sent n : Prop :=
  serving fd f n ∧ 0 ≤ sent ≤ zlen f ∧
  (rd_fd (reader n) < 0 ∧ state n = KVS_REPLICATION_STATE_ONLINE ∧ rm_replication_offset (nd_rep n) = sent ∨
   following_state (state n) = true ∧ rd_offset (reader n) = sent ∧ ∃ stop, reads (reader n) (node_disk n) f stop ∧
     rd_fd (reader n) ≠ aw_fd (p_aof (sv_io (nd_server n))) ∧
     os_fds (node_disk n) !! rd_fd (reader n) = os_fds (node_disk n) !! aw_fd (p_aof (sv_io (nd_server n)))).

(** Nothing but the manager and the descriptors changed. *)
Definition log_kept n n' : Prop :=
  nd_rdma n' = nd_rdma n ∧ heap (nd_server n') = heap (nd_server n) ∧ sv_engines (nd_server n') = sv_engines (nd_server n) ∧
  os_names (node_disk n') = os_names (node_disk n) ∧ os_data (node_disk n') = os_data (node_disk n) ∧
  p_aof (sv_io (nd_server n')) = p_aof (sv_io (nd_server n)) ∧
  rm_snapshot_connection_fd (nd_rep n') = rm_snapshot_connection_fd (nd_rep n) ∧ keeps_health (node_disk n) (node_disk n').

(** What one call hands out. *)
Definition handed_out fd f sent cap n (r : Z) out n' : Prop :=
  log_kept n n' ∧
  (r = zlen out ∧ 0 < r ≤ cap ∧ take (Z.to_nat r) (drop (Z.to_nat sent) f) = out ∧ streaming fd f (sent + r) n' ∧ state n' = state n ∨
   r = zlen out ∧ out = online_line (zlen f) ∧ sent = zlen f ∧ state n = KVS_REPLICATION_STATE_CATCH_UP ∧
     streaming fd f sent n' ∧ state n' = KVS_REPLICATION_STATE_ONLINE ∨
   r = KVS_STREAM_WAIT ∧ out = [] ∧ sent = zlen f ∧ streaming fd f sent n' ∧ state n = KVS_REPLICATION_STATE_ONLINE ∧ state n' = state n ∨
   r = -1 ∧ out = [] ∧ (healthy (node_disk n) → state n = KVS_REPLICATION_STATE_CATCH_UP ∧ sent = zlen f ∧ cap ≤ zlen (online_line (zlen f)))).

Lemma step_open_aof {X} start stop i f n (k : Z → M N X) Q G :
  log_inode (node_disk n) i f → 0 ≤ start ≤ stop → stop ≤ zlen f →
  (∀ rd d, keeps_health (node_disk n) d → os_names d = os_names (node_disk n) → os_data d = os_data (node_disk n) →
     0 ≤ rd → os_fds (node_disk n) !! rd = None → os_fds d = <[rd := i]> (os_fds (node_disk n)) →
     wpx (k 0) (put_manager (set_aof_reader (AofReader rd start (stop - start)) (nd_rep n)) (node_put_os d n)) Q G) →
  (∀ d, keeps_health (node_disk n) d → os_names d = os_names (node_disk n) → os_data d = os_data (node_disk n) →
     ¬ healthy (node_disk n) → wpx (k (-1)) (put_manager (set_aof_reader (AofReader (-1) 0 0) (nd_rep n)) (node_put_os d n)) Q G) →
  wpx (open_aof_reader start stop ≫= k) n Q G.
Proof.
  intros Hi Hs Hle Hok Hno. unfold open_aof_reader. rewrite !wpx_bind_assoc.
  eapply step_files; [by apply (aof_reader_open_spec start stop _ i f)|]. intros [r rd] d (Hk & En & Ed & Hr). rewrite !wpx_bind_assoc. apply step_put.
  destruct Hr as [(-> & -> & Hfd & Hnew & Ef)|(-> & -> & _ & Hh)]; cbn [rd_fd]; eapply wpx_eq; try done; node_simpl; [by apply Hok|by apply Hno].
Qed.

Lemma step_read_aof {X} cap f stop n (k : option bytes → M N X) Q G :
  reads (reader n) (node_disk n) f stop → 0 < cap →
  (∀ b rd d, keeps_health (node_disk n) d → os_same (node_disk n) d → reads rd d f stop → rd_fd rd = rd_fd (reader n) → zlen b ≤ cap →
     rd_offset rd = rd_offset (reader n) + zlen b → take (Z.to_nat (zlen b)) (drop (Z.to_nat (rd_offset (reader n))) f) = b →
     (b = [] ↔ rd_offset (reader n) = stop) → wpx (k (Some b)) (put_manager (set_aof_reader rd (nd_rep n)) (node_put_os d n)) Q G) →
  (∀ d, keeps_health (node_disk n) d → os_same (node_disk n) d → ¬ healthy (node_disk n) →
     wpx (k None) (put_manager (set_aof_reader (reader n) (nd_rep n)) (node_put_os d n)) Q G) →
  wpx (read_aof cap ≫= k) n Q G.
Proof.
  intros Hr Hcap Hok Hno. unfold read_aof. rewrite !wpx_bind_assoc. apply step_manager. rewrite !wpx_bind_assoc.
  eapply step_files; [by apply reader_read_spec|].
  intros [r rd] d (Hk & Hs & Hd). rewrite !wpx_bind_assoc. apply step_put. eapply wpx_eq; [done|]. destruct r as [b|].
  - destruct Hd as (Hrd & Efd & Hle & Ho & Hb & Hnil). by apply Hok.
  - destruct Hd as [-> Hh]. by apply Hno.
Qed.

(** ** One call *)

Lemma log_kept_refl n : log_kept n n.
Proof. split_and!; try done. by intros ?. Qed.

Lemma log_kept_trans n1 n2 n3 : log_kept n1 n2 → log_kept n2 n3 → log_kept n1 n3.
Proof. intros (?&?&?&?&?&?&?&?) (?&?&?&?&?&?&?&?). split_and!; try congruence. unfold keeps_health in *. auto. Qed.

(** The manager and the descriptors changed, the log stays open. *)
Lemma log_kept_put d m n : os_names d = os_names (node_disk n) → os_data d = os_data (node_disk n) →
  rm_snapshot_connection_fd m = rm_snapshot_connection_fd (nd_rep n) → keeps_health (node_disk n) d →
  log_kept n (put_manager m (node_put_os d n)).
Proof. intros. by split_and!. Qed.

Lemma serving_put fd f d m n : serving fd f n → os_names d = os_names (node_disk n) → os_data d = os_data (node_disk n) →
  os_fds d !! aw_fd (p_aof (sv_io (nd_server n))) = os_fds (node_disk n) !! aw_fd (p_aof (sv_io (nd_server n))) →
  rm_initialized m = rm_initialized (nd_rep n) → rm_role m = rm_role (nd_rep n) →
  rm_snapshot_connection_fd m = rm_snapshot_connection_fd (nd_rep n) →
  serving fd f (put_manager m (node_put_os d n)).
Proof.
  intros (Hini & Hrole & Hfd & Hc & Hmax & (H1l & H2l & H3l & Hf) & i & Hi & (Hn & Hd)) En Ed Ef Ei Er' Ec.
  split; [cbn; congruence|]. split; [cbn; congruence|]. split; [done|]. split; [cbn; congruence|]. split; [done|]. split.
  - split_and!; [done..|]. unfold fd_file in *. change (p_os (sv_io (nd_server (put_manager m (node_put_os d n))))) with d.
    change (p_aof (sv_io (nd_server (put_manager m (node_put_os d n))))) with (p_aof (sv_io (nd_server n))).
    rewrite Ef, Ed. exact Hf.
  - exists i. change (node_disk (put_manager m (node_put_os d n))) with d.
    change (p_aof (sv_io (nd_server (put_manager m (node_put_os d n))))) with (p_aof (sv_io (nd_server n))).
    rewrite Ef. split; [done|]. unfold log_inode. by rewrite En, Ed.
Qed.

(** A piece was read. *)
Lemma read_out fd f sent cap n rd d b stop :
  streaming fd f sent n → following_state (state n) = true → rd_offset (reader n) = sent → rd_fd (reader n) ≠ aw_fd (p_aof (sv_io (nd_server n))) →
  os_fds (node_disk n) !! rd_fd (reader n) = os_fds (node_disk n) !! aw_fd (p_aof (sv_io (nd_server n))) →
  os_same (node_disk n) d → reads rd d f stop → rd_fd rd = rd_fd (reader n) → zlen b ≤ cap → b ≠ [] →
  rd_offset rd = rd_offset (reader n) + zlen b → take (Z.to_nat (zlen b)) (drop (Z.to_nat (rd_offset (reader n))) f) = b →
  keeps_health (node_disk n) d →
  handed_out fd f sent cap n (zlen b) b (put_manager (set_aof_reader rd (nd_rep n)) (node_put_os d n)).
Proof.
  intros (Hs & Hsent & _) Hst Hoff Hne Hino (En & Ed & Ef) Hrd Efd Hle Hnil Ho Hb Hk.
  assert (0 < zlen b) as Hpos. { destruct b as [|c b]; [done|]. rewrite zlen_cons. pose proof (zlen_nonneg b). lia. }
  split; [by apply log_kept_put|]. left. split; [done|]. split; [lia|]. split; [by rewrite <- Hoff|]. split; [|done].
  split; [by apply serving_put; [..|rewrite Ef| | |]|]. split.
  - pose proof Hrd as (_ & _ & _ & ? & ? & ?). lia.
  - right. split; [done|]. split; [cbn; lia|]. exists stop. split; [exact Hrd|]. split; [cbn; congruence|].
    change (node_disk (put_manager (set_aof_reader rd (nd_rep n)) (node_put_os d n))) with d.
    change (rd_fd (reader (put_manager (set_aof_reader rd (nd_rep n)) (node_put_os d n)))) with (rd_fd rd).
    change (p_aof (sv_io (nd_server (put_manager (set_aof_reader rd (nd_rep n)) (node_put_os d n))))) with (p_aof (sv_io (nd_server n))).
    by rewrite Efd, Ef.
Qed.

Lemma following_online s : s = KVS_REPLICATION_STATE_ONLINE → following_state s = true.
Proof. by intros ->. Qed.

(** What happens after a range of the log was opened at [sent]. *)
Lemma opened_streaming fd f sent n rd d i m :
  serving fd f n → 0 ≤ sent ≤ zlen f → os_fds (node_disk n) !! aw_fd (p_aof (sv_io (nd_server n))) = Some i →
  os_data (node_disk n) !! i = Some f →
  os_names d = os_names (node_disk n) → os_data d = os_data (node_disk n) → 0 ≤ rd → os_fds (node_disk n) !! rd = None →
  os_fds d = <[rd := i]> (os_fds (node_disk n)) → following_state (rm_state m) = true → rm_aof_reader m = AofReader rd sent (zlen f - sent) →
  rm_initialized m = rm_initialized (nd_rep n) → rm_role m = rm_role (nd_rep n) →
  rm_snapshot_connection_fd m = rm_snapshot_connection_fd (nd_rep n) →
  let n' := put_manager m (node_put_os d n) in
  streaming fd f sent n' ∧ reads (reader n') (node_disk n') f (zlen f) ∧
  rd_fd (reader n') ≠ aw_fd (p_aof (sv_io (nd_server n'))) ∧
  os_fds (node_disk n') !! rd_fd (reader n') = os_fds (node_disk n') !! aw_fd (p_aof (sv_io (nd_server n'))).
Proof.
  intros Hs Hsent Hi Hf En Ed Hrd Hnew Ef Hst Erd Ei Er' Ec n'.
  assert (rd ≠ aw_fd (p_aof (sv_io (nd_server n)))) as Hne by (intros ->; congruence).
  assert (os_fds d !! aw_fd (p_aof (sv_io (nd_server n))) = Some i) as Hi' by (rewrite Ef, lookup_insert_ne; done).
  assert (reads (AofReader rd sent (zlen f - sent)) d f (zlen f)) as Hr.
  { split_and!; cbn; try lia. unfold fd_file. rewrite Ef, lookup_insert_eq, Ed. exact Hf. }
  assert (os_fds d !! rd = os_fds d !! aw_fd (p_aof (sv_io (nd_server n)))) as Hino by (rewrite Hi', Ef; apply lookup_insert_eq).
  assert (reader n' = AofReader rd sent (zlen f - sent)) as Ern by done. rewrite Ern.
  split; [|by split_and!]. split; [apply serving_put; try done; by rewrite Hi'|]. split; [lia|]. right. split; [exact Hst|]. rewrite Ern. split; [done|].
  exists (zlen f). by split_and!.
Qed.

(** The reader is open on a range of the log that ends at [stop]. *)
Definition reading f sent stop n : Prop :=
  following_state (state n) = true ∧ rd_offset (reader n) = sent ∧ reads (reader n) (node_disk n) f stop ∧
  rd_fd (reader n) ≠ aw_fd (p_aof (sv_io (nd_server n))) ∧
  os_fds (node_disk n) !! rd_fd (reader n) = os_fds (node_disk n) !! aw_fd (p_aof (sv_io (nd_server n))).

Lemma serving_offset fd f n : serving fd f n → kvs_aof_get_offset (sv_io (nd_server n)) = zlen f.
Proof.
  intros (_ & _ & _ & _ & _ & (Hfd & _ & Ho & _) & _). unfold kvs_aof_get_offset. by rewrite (proj2 (Z.ltb_ge _ 0)).
Qed.

Lemma handed_after fd f sent cap n n1 r out n' : log_kept n n1 → state n1 = state n →
  handed_out fd f sent cap n1 r out n' → handed_out fd f sent cap n r out n'.
Proof.
  intros Hk Est (Hk' & Hr). split; [by eapply log_kept_trans|]. rewrite Est in Hr. destruct Hr as [Hr|[Hr|[Hr|(-> & -> & Hh)]]]; auto.
  right; right; right. split; [done|]. split; [done|]. intros Hhn. apply Hh. destruct Hk as (_ & _ & _ & _ & _ & _ & _ & Hk). auto.
Qed.

Lemma handed_fail fd f sent cap n n' : log_kept n n' → ¬ healthy (node_disk n) → handed_out fd f sent cap n (-1) [] n'.
Proof. intros Hk Hh. split; [done|]. right; right; right. by split_and!. Qed.

(** The reader is closed. *)
Lemma closed_serving fd f n d : serving fd f n → rd_fd (reader n) ≠ aw_fd (p_aof (sv_io (nd_server n))) → closed_fd (rd_fd (reader n)) (node_disk n) d →
  let n' := put_manager (set_aof_reader (AofReader (-1) 0 0) (nd_rep n)) (node_put_os d n) in
  serving fd f n' ∧ log_kept n n'.
Proof.
  intros Hs Hne (Hk & En & Ed & Ef) n'. split; [|by apply log_kept_put].
  apply serving_put; try done. rewrite Ef. case_match; [by rewrite lookup_delete_ne|done].
Qed.

Lemma serving_any fd f n m : serving fd f n → rm_initialized m = rm_initialized (nd_rep n) → rm_role m = rm_role (nd_rep n) →
  rm_snapshot_connection_fd m = rm_snapshot_connection_fd (nd_rep n) → serving fd f (put_manager m n).
Proof. intros (Hini & Hrole & Hfd & Hc & Hrest) Ei Er' Ec. split; [cbn; congruence|]. split; [cbn; congruence|]. split; [done|]. split; [cbn; congruence|exact Hrest]. Qed.

Lemma log_kept_any n m : rm_snapshot_connection_fd m = rm_snapshot_connection_fd (nd_rep n) → log_kept n (put_manager m n).
Proof. intros. split_and!; try done. by intros ?. Qed.

Lemma range_done_spec fd f sent cap n :
  serving fd f n → 0 ≤ sent ≤ zlen f → reading f sent sent n → 0 < cap ≤ INT_MAX →
  wpx (primary_range_done cap) n (λ x n', match x with
    | Some (r, out) => handed_out fd f sent cap n r out n'
    | None => log_kept n n' ∧ sent < zlen f ∧ streaming fd f sent n' ∧ state n' = state n ∧ reading f sent (zlen f) n'
    end) (λ _, False).
Proof.
  intros Hs Hsent (Hst & Hoff & Hrd & Hne & _) Hcap. unfold primary_range_done. apply step_manager. cbv zeta. rewrite Hoff.
  apply step_close_aof_reader. intros d Hclose. destruct (closed_serving fd f n d Hs Hne Hclose) as [Hs1 Hk1].
  set (n1 := put_manager _ _) in *. apply step_offset. rewrite (serving_offset _ _ _ Hs1), (proj2 (Z.ltb_ge (zlen f) sent)) by lia.
  pose proof Hs1 as (_ & _ & _ & _ & Hmax & _ & i & Hi & Hlog). pose proof Hlog as [_ Hf].
  destruct (Z.ltb_spec sent (zlen f)).
  - eapply step_open_aof; [exact Hlog|lia|lia| |].
    + intros rd d2 Hk2 En Ed Hrd2 Hnew Ef. cbn [Z.ltb Z.compare]. apply wpx_ret.
      destruct (opened_streaming fd f sent n1 rd d2 i (set_aof_reader (AofReader rd sent (zlen f - sent)) (nd_rep n1)) Hs1) as (Hstr & Hreads & Hne2 & Hino); try done.
      split; [eapply log_kept_trans; [exact Hk1|by apply log_kept_put]|]. split; [done|]. split; [exact Hstr|]. split; [done|]. by split_and!.
    + intros d2 Hk2 En Ed Hh. cbn [Z.ltb Z.compare]. apply wpx_ret. apply handed_fail; [eapply log_kept_trans; [exact Hk1|by apply log_kept_put]|].
      intros Hhn. apply Hh. by apply Hk1.
  - assert (sent = zlen f) as -> by lia. apply step_put, step_manager. set (n2 := put_manager _ n1).
    assert (serving fd f n2 ∧ log_kept n n2) as [Hs2 Hk2].
    { split; [by apply serving_any|]. eapply log_kept_trans; [exact Hk1|by apply log_kept_any]. }
    change (state n2) with (state n). destruct (bool_decide_reflect (state n = KVS_REPLICATION_STATE_ONLINE)) as [Eon|Eon].
    + apply wpx_ret. split; [exact Hk2|]. right; right; left. split; [done|]. split; [done|]. split; [done|]. split; [|done].
      split; [exact Hs2|]. split; [lia|]. left. by split_and!.
    + assert (state n = KVS_REPLICATION_STATE_CATCH_UP) as Ecu.
      { unfold following_state in Hst. rewrite (bool_decide_eq_false_2 (state n = KVS_REPLICATION_STATE_ONLINE)), orb_false_r in Hst by done. by apply bool_decide_eq_true in Hst. }
      rewrite print_line_cases. eapply wpx_eq; [done|]. destruct (Z.ltb_spec (zlen (online_line (zlen f))) cap) as [Hfit|Hfit]; cbn [andb].
      * rewrite (proj2 (Z.leb_le _ INT_MAX)) by lia. apply step_put, step_put, wpx_ret.
        match goal with |- handed_out _ _ _ _ _ _ _ ?x => set (n3 := x) end.
        assert (serving fd f n3 ∧ log_kept n2 n3) as [Hs3 Hk3].
        { split; [apply (serving_any fd f n2 _ Hs2); done|by apply (log_kept_any n2)]. }
        split; [by eapply log_kept_trans|]. right; left. split; [done|]. split; [done|]. split; [done|]. split; [done|]. split; [|done].
        split; [exact Hs3|]. split; [lia|]. left. by split_and!.
      * apply wpx_ret. split; [exact Hk2|]. right; right; right. split; [done|]. split; [done|]. intros _. by split_and!.
Qed.

Lemma online_stream_spec fd f sent cap n :
  streaming fd f sent n → rd_fd (reader n) < 0 → 0 < cap →
  wpx (primary_online_stream 0 cap) n (λ '(r, out) n', handed_out fd f sent cap n r out n') (λ _, False).
Proof.
  intros Hstr Hneg Hcap. pose proof Hstr as (Hs & Hsent & [(_ & Hst & Ho)|(_ & _ & stop & (Hfd & _) & _)]); [|lia].
  unfold primary_online_stream. apply step_manager. rewrite bool_decide_eq_true_2 by done. apply step_offset.
  rewrite (serving_offset _ _ _ Hs), Ho, (proj2 (Z.ltb_ge _ _)) by lia.
  destruct (Z.eqb_spec (zlen f) sent) as [E|E].
  { apply wpx_ret. split; [apply log_kept_refl|]. right; right; left. split_and!; done. }
  pose proof Hs as (_ & _ & _ & _ & Hmax & _ & i & Hi & Hlog). pose proof Hlog as [_ Hf].
  eapply step_open_aof; [exact Hlog|lia|lia| |].
  - intros rd d Hk En Ed Hrd Hnew Ef. cbn [Z.ltb Z.compare].
    destruct (opened_streaming fd f sent n rd d i (set_aof_reader (AofReader rd sent (zlen f - sent)) (nd_rep n)) Hs) as (Hstr1 & Hreads & Hne & Hino);
      try done; [by apply following_online|].
    set (n1 := put_manager _ _) in *. assert (log_kept n n1) as Hk1 by (by apply log_kept_put).
    eapply step_read_aof; [exact Hreads|done| |].
    + intros b rd2 d2 Hk2 Hsame Hreads2 Efd Hle Ho2 Hb Hnil. destruct b as [|c b]; [destruct Hnil as [Hnil _]; specialize (Hnil eq_refl); cbn in Hnil; lia|].
      apply wpx_ret. apply (handed_after fd f sent cap n n1); [done|done|]. eapply read_out; try done. by apply following_online.
    + intros d2 Hk2 Hsame Hh. apply step_close_aof_reader. intros d3 (Hk3 & En3 & Ed3 & _). apply wpx_ret.
      apply handed_fail; [|intros Hhn; apply Hh; by apply Hk1]. eapply log_kept_trans; [exact Hk1|].
      destruct Hsame as (Es1 & Es2 & _). node_simpl. apply log_kept_put; [cbn in *; congruence|cbn in *; congruence|done|].
      unfold keeps_health in *. auto.
  - intros d Hk En Ed Hh. cbn [Z.ltb Z.compare]. apply wpx_ret. apply handed_fail; [by apply log_kept_put|done].
Qed.

Lemma streaming_reading fd f sent n : streaming fd f sent n → 0 ≤ rd_fd (reader n) → ∃ stop, reading f sent stop n.
Proof.
  intros (_ & _ & [(Hneg & _)|(Hst & Hoff & stop & Hr & Hne & Hino)]) Hpos; [lia|]. exists stop. by split_and!.
Qed.

(** A pass of the loop over a range that is not used up. *)
Lemma log_pass_spec fd f sent stop fuel cap n result :
  streaming fd f sent n → reading f sent stop n → sent < stop → 0 < cap ≤ INT_MAX →
  wpx (primary_log_loop (S fuel) result cap) n (λ '(r, out) n', handed_out fd f sent cap n r out n') (λ _, False).
Proof.
  intros Hstr (Hst & Hoff & Hrd & Hne & Hino) Hlt Hcap. cbn [primary_log_loop]. apply step_manager.
  rewrite (proj2 (Z.ltb_ge _ 0)) by (by destruct Hrd). eapply step_read_aof; [exact Hrd|lia| |].
  - intros b rd d Hk Hsame Hreads Efd Hle Ho Hb Hnil. destruct b as [|c b]; [destruct Hnil as [Hnil _]; specialize (Hnil eq_refl); lia|].
    apply wpx_ret. by eapply read_out.
  - intros d Hk (En & Ed & Ef) Hh. apply step_close_aof_reader. intros d3 (Hk3 & En3 & Ed3 & _). apply wpx_ret.
    apply handed_fail; [|done]. node_simpl. cbn in *. apply log_kept_put; [congruence|congruence|done|unfold keeps_health in *; auto].
Qed.

Lemma log_loop_spec fd f sent cap n :
  streaming fd f sent n → 0 < cap ≤ INT_MAX →
  wpx (primary_log_loop 2 0 cap) n (λ '(r, out) n', handed_out fd f sent cap n r out n') (λ _, False).
Proof.
  intros Hstr Hcap. destruct (Z.ltb_spec (rd_fd (reader n)) 0) as [Hneg|Hpos].
  { cbn [primary_log_loop]. apply step_manager. rewrite (proj2 (Z.ltb_lt _ 0)) by done. apply online_stream_spec; [done..|lia]. }
  destruct (streaming_reading fd f sent n Hstr Hpos) as [stop Hread]. pose proof Hread as (Hst & Hoff & Hrd & Hne & Hino).
  pose proof Hrd as (_ & _ & _ & Hrem & Hstop & _). rewrite Hoff in Hstop.
  destruct (Z.lt_ge_cases sent stop) as [Hlt|Hge]; [by eapply log_pass_spec|].
  assert (stop = sent) as -> by lia. pose proof Hstr as (Hs & Hsent & _).
  remember 1%nat as one eqn:E1. cbn [primary_log_loop]. subst one. apply step_manager.
  rewrite (proj2 (Z.ltb_ge _ 0)) by done. eapply step_read_aof; [exact Hrd|lia| |].
  - intros b rd d Hk (En & Ed & Ef) Hreads Efd Hleb Ho Hb Hnil. destruct b as [|c b].
    2:{ destruct Hnil as [_ Hnil]. specialize (Hnil Hoff). done. }
    set (n1 := put_manager _ _). assert (serving fd f n1) as Hs1 by (by apply serving_put; [..|rewrite Ef| | |]).
    assert (log_kept n n1) as Hk1 by (by apply log_kept_put). assert (reading f sent sent n1) as Hread1.
    { split; [exact Hst|]. split; [change (rd_offset rd = sent); rewrite Ho, Hoff; change (zlen ([] : bytes)) with 0; lia|]. split; [exact Hreads|]. split; [cbn; congruence|].
      change (node_disk n1) with d. change (rd_fd (reader n1)) with (rd_fd rd).
      change (p_aof (sv_io (nd_server n1))) with (p_aof (sv_io (nd_server n))). by rewrite Efd, Ef. }
    eapply wpx_stepx; [by apply range_done_spec|]. intros [[r out]|] n2.
    + intros Hr. apply wpx_ret. by apply (handed_after fd f sent cap n n1).
    + intros (Hk2 & Hlt & Hstr2 & Est2 & Hread2). eapply wpx_mono; [by apply (log_pass_spec fd f sent (zlen f) 0)| |done].
      intros [r out] n3 Hr. apply (handed_after fd f sent cap n n2); [by eapply log_kept_trans| |done]. by rewrite Est2.
  - intros d Hk (En & Ed & Ef) Hh. apply step_close_aof_reader. intros d3 (Hk3 & En3 & Ed3 & _). apply wpx_ret.
    apply handed_fail; [|done]. node_simpl. cbn in *. apply log_kept_put; [congruence|congruence|done|unfold keeps_health in *; auto].
Qed.

Lemma streaming_state fd f sent n : streaming fd f sent n → following_state (state n) = true.
Proof. intros (_ & _ & [(_ & Hst & _)|(Hst & _)]); [by apply following_online|done]. Qed.

Lemma following_not_full s : following_state s = true → s ≠ KVS_REPLICATION_STATE_FULL_SYNC.
Proof. by intros Hs ->. Qed.

Lemma stream_log_spec fd f sent cap n :
  streaming fd f sent n → 0 < cap ≤ INT_MAX →
  wpx (kvs_replication_stream fd cap) n (λ '(r, out) n', handed_out fd f sent cap n r out n') (λ _, False).
Proof.
  intros Hstr Hcap. pose proof Hstr as ((Hini & Hrole & Hfd & Hc & _) & _). unfold kvs_replication_stream. apply step_manager.
  rewrite Hini, (bool_decide_eq_false_2 (rm_role (nd_rep n) ≠ KVS_ROLE_PRIMARY)) by (rewrite Hrole; by intros []).
  rewrite (proj2 (Z.ltb_ge fd 0)), (proj2 (Z.leb_gt cap 0)) by lia. cbn [negb orb].
  rewrite Hc, (proj2 (Z.ltb_ge fd 0)), Z.eqb_refl by lia. cbn [negb]. cbv iota.
  rewrite bool_decide_eq_false_2 by (eapply following_not_full, streaming_state; exact Hstr).
  eapply wpx_eq; [done|]. cbv beta iota. by apply log_loop_spec.
Qed.

(** ** A run *)

(** Commands were appended to the log: it was [f], it is [f']. *)
Definition grows f f' n n' : Prop :=
  let fd := aw_fd (p_aof (sv_io (nd_server n))) in
  nd_rep n' = nd_rep n ∧ nd_rdma n' = nd_rdma n ∧ f `prefix_of` f' ∧ zlen f' ≤ INT64_MAX ∧ aof_log (sv_io (nd_server n')) f' ∧
  aw_fd (p_aof (sv_io (nd_server n'))) = fd ∧ fd_written (node_disk n) fd f' (node_disk n').

(** The calls for the connection, with the pieces they hand out, while the log grows. *)
Inductive log_run fd cap : bytes → N → list bytes → bytes → N → Prop :=
| log_run_done f n : log_run fd cap f n [] f n
| log_run_call f n outs f1 n1 r out n2 : log_run fd cap f n outs f1 n1 →
    kvs_replication_stream fd cap n1 = Ok (r, out) n2 → r ≠ -1 → log_run fd cap f n (outs ++ [out]) f1 n2
| log_run_grow f n outs f1 n1 f2 n2 : log_run fd cap f n outs f1 n1 → grows f1 f2 n1 n2 → log_run fd cap f n outs f2 n2.

Lemma prefix_zlen f f' : f `prefix_of` f' → zlen f ≤ zlen f'.
Proof. intros [x ->]. rewrite zlen_app. pose proof (zlen_nonneg x). lia. Qed.

Lemma grows_serving fd f f' n n' : serving fd f n → grows f f' n n' → serving fd f' n'.
Proof.
  intros (Hini & Hrole & Hfd & Hc & Hmax & _ & i & Hi & (Hn & Hd)) (Em & _ & Hp & Hmax' & Hlog & Efd & (En & Ef & j & Hj & Ed)).
  rewrite Hi in Hj. injection Hj as <-.
  split; [by rewrite Em|]. split; [by rewrite Em|]. split; [done|]. split; [by rewrite Em|]. split; [done|]. split; [done|].
  exists i. rewrite Efd, Ef. split; [done|]. split; [by rewrite En|]. by rewrite Ed, lookup_insert_eq.
Qed.

Lemma grows_streaming fd f f' sent n n' : streaming fd f sent n → grows f f' n n' → streaming fd f' sent n'.
Proof.
  intros (Hs & Hsent & Hst) Hg. pose proof (grows_serving _ _ _ _ _ Hs Hg) as Hs'. destruct Hs as (_ & _ & _ & _ & _ & _ & i & Hi & _).
  destruct Hg as (Em & _ & Hp & _ & _ & Efd & (_ & Ef & j & Hj & Ed)). rewrite Hi in Hj. injection Hj as <-.
  pose proof (prefix_zlen _ _ Hp) as Hle. split; [done|]. split; [lia|].
  rewrite Em. destruct Hst as [Hst|(Hst & Ho & stop & (H1r & H2r & H3r & H4r & H5r & H6r) & Hne & Hino)]; [by left|]. right.
  split; [done|]. split; [done|]. exists stop. rewrite Efd, Ef. split; [|done].
  split_and!; [done| |done|done|done|lia]. unfold fd_file. rewrite Ef, Hino, Hi. cbn. by rewrite Ed, lookup_insert_eq.
Qed.

(** The bytes of [f] from [i] to [j]. *)
Definition between (i j : Z) f : bytes := take (Z.to_nat (j - i)) (drop (Z.to_nat i) f).

Lemma between_nil i f : between i i f = [].
Proof. unfold between. by rewrite Z.sub_diag. Qed.

Lemma between_app i j k f : 0 ≤ i ≤ j → j ≤ k → between i j f ++ between j k f = between i k f.
Proof.
  intros. unfold between. replace (Z.to_nat (k - i)) with (Z.to_nat (j - i) + Z.to_nat (k - j))%nat by lia.
  rewrite <- take_take_drop, drop_drop. do 3 f_equal. lia.
Qed.

Lemma between_prefix i j f f' : 0 ≤ i ≤ j → j ≤ zlen f → f `prefix_of` f' → between i j f' = between i j f.
Proof.
  intros Hij Hj [x ->]. unfold between. unfold zlen in Hj. rewrite drop_app_le, take_app_le; [done| |lia]. rewrite length_drop. lia.
Qed.

Lemma between_end i f : 0 ≤ i ≤ zlen f → between i (zlen f) f = drop (Z.to_nat i) f.
Proof. intros. unfold between, zlen in *. apply take_ge. rewrite length_drop. lia. Qed.

(** What a run that was at [sent] hands out. *)
Definition run_out (sent : Z) f (s s' : kvs_replication_state_t) (sent' : Z) out : Prop :=
  s' = s ∧ out = between sent sent' f ∨
  s = KVS_REPLICATION_STATE_CATCH_UP ∧ s' = KVS_REPLICATION_STATE_ONLINE ∧
    ∃ mid, sent ≤ mid ≤ sent' ∧ out = between sent mid f ++ online_line mid ++ between mid sent' f.

Lemma run_out_grow sent f f' s s' sent' out : 0 ≤ sent ≤ sent' → sent' ≤ zlen f → f `prefix_of` f' →
  run_out sent f s s' sent' out → run_out sent f' s s' sent' out.
Proof.
  intros Hs Hle Hp [[-> ->]|(-> & -> & mid & Hm & ->)]; [left|right].
  - by rewrite (between_prefix _ _ f f').
  - split; [done|]. split; [done|]. exists mid. split; [done|]. by rewrite !(between_prefix _ _ f f') by (done || lia).
Qed.

Lemma run_out_bytes sent f s s' sent1 sent2 out : 0 ≤ sent ≤ sent1 → sent1 ≤ sent2 →
  run_out sent f s s' sent1 out → run_out sent f s s' sent2 (out ++ between sent1 sent2 f).
Proof.
  intros Hs Hle [[-> ->]|(-> & -> & mid & Hm & ->)]; [left|right].
  - by rewrite between_app.
  - split; [done|]. split; [done|]. exists mid. split; [lia|]. by rewrite <- !app_assoc, between_app by lia.
Qed.

Lemma mjoin_snoc (xs : list bytes) x : mjoin (xs ++ [x]) = mjoin xs ++ x.
Proof. induction xs as [|y xs IH]; cbn; [by rewrite app_nil_r|]. change (y ++ mjoin (xs ++ [x]) = (y ++ mjoin xs) ++ x). by rewrite IH, app_assoc. Qed.

Lemma handed_run fd f sent s sent1 cap n1 r out n2 o : 0 ≤ sent ≤ sent1 → streaming fd f sent1 n1 → run_out sent f s (state n1) sent1 o →
  handed_out fd f sent1 cap n1 r out n2 → r ≠ -1 →
  nd_rdma n2 = nd_rdma n1 ∧ ∃ sent2, sent1 ≤ sent2 ∧ streaming fd f sent2 n2 ∧ run_out sent f s (state n2) sent2 (o ++ out).
Proof.
  intros Hsent Hstr1 Ho ((Et1 & _) & Hout) Hr. split; [done|]. pose proof Hstr1 as (_ & Hsent1 & _).
  destruct Hout as [(-> & Hpos & Hb & Hstr2 & Est)|[(-> & -> & -> & Est1 & Hstr2 & Est2)|[(-> & -> & -> & Hstr2 & _ & Est)|(-> & _)]]]; [..|done].
  - exists (sent1 + zlen out). split; [lia|]. split; [done|]. rewrite Est. replace out with (between sent1 (sent1 + zlen out) f) at 2.
    + apply run_out_bytes; [lia..|done].
    + unfold between. by replace (sent1 + zlen out - sent1) with (zlen out) by lia.
  - exists (zlen f). split; [done|]. split; [done|]. right. destruct Ho as [[Est0 Eo]|(_ & Est0 & _)]; [|congruence].
    split; [congruence|]. split; [done|]. exists (zlen f). split; [lia|]. by rewrite Eo, between_nil, app_nil_r.
  - exists (zlen f). rewrite app_nil_r, Est. by split.
Qed.

Lemma log_run_spec fd cap f sent n outs f' n' :
  streaming fd f sent n → 0 < cap ≤ INT_MAX → log_run fd cap f n outs f' n' →
  f `prefix_of` f' ∧ ∃ sent', sent ≤ sent' ∧ streaming fd f' sent' n' ∧ run_out sent f' (state n) (state n') sent' (mjoin outs).
Proof.
  intros Hstr Hcap Hrun. pose proof Hstr as (_ & Hsent & _). induction Hrun as [f n|f n outs f1 n1 r out n2 Hrun IH Hcall Hr|f n outs f1 n1 f2 n2 Hrun IH Hg].
  - split; [done|]. exists sent. split; [done|]. split; [done|]. left. by rewrite between_nil.
  - destruct (IH Hstr Hsent) as (Hp & sent1 & Hs1 & Hstr1 & Ho). split; [done|].
    pose proof (wpx_ok _ _ _ _ _ _ (stream_log_spec fd f1 sent1 cap n1 Hstr1 Hcap) Hcall) as Hout. rewrite mjoin_snoc.
    destruct (handed_run fd f1 sent (state n) sent1 cap n1 r out n2 (mjoin outs)) as (_ & sent2 & Hs2 & Hrest); [lia|done..|].
    exists sent2. split; [lia|done].
  - destruct (IH Hstr Hsent) as (Hp & sent1 & Hs1 & Hstr1 & Ho). pose proof Hstr1 as (_ & Hsent1 & _).
    pose proof Hg as (Em & _ & Hp2 & _). split; [by etrans|]. exists sent1. split; [done|]. split; [by apply (grows_streaming fd f1 f2 sent1 n1)|].
    rewrite Em. apply (run_out_grow sent f1 f2); [lia|lia|done|done].
Qed.

(** * The snapshot *)

Notation sync n := (rm_rdma_sync (nd_rep n)).
Notation sent_bytes n := (rs_snapshot_bytes (sync n)).
Notation acked n := (rs_acknowledged_bytes (sync n)).
Notation snap_reader n := (rm_snapshot_reader (nd_rep n)).

(** The messages since [base] are the first [rs_snapshot_bytes] bytes of the snapshot
    [snap], which the open reader continues; at the end the reader is closed, when all
    of it was acknowledged.  The log is [f]. *)
Definition sending fd f (snap : bytes) base n : Prop :=
  let s := sync n in
  serving fd f n ∧ state n = KVS_REPLICATION_STATE_FULL_SYNC ∧ rd_fd (reader n) < 0 ∧ 0 ≤ rm_replication_offset (nd_rep n) ≤ zlen f ∧
  rm_snapshot_file_size (nd_rep n) = zlen snap ∧ 0 ≤ rs_acknowledged_bytes s ≤ rs_snapshot_bytes s ∧ rs_snapshot_bytes s ≤ zlen snap ∧
  (∃ chunks, rdma_submitted (nd_rdma n) = base ++ chunks ∧ mjoin chunks = take (Z.to_nat (rs_snapshot_bytes s)) snap) ∧
  if rs_disconnect_pending s then rs_acknowledged_bytes s = zlen snap ∧ sr_fd (snap_reader n) < 0
  else sends_file (snap_reader n) (node_disk n) snap ∧ sr_position (snap_reader n) = rs_snapshot_bytes s ∧
    os_fds (node_disk n) !! sr_fd (snap_reader n) ≠ os_fds (node_disk n) !! aw_fd (p_aof (sv_io (nd_server n))).

(** Only the connection's state changed, not the progress. *)
Definition quiet n n' : Prop := sv_io (nd_server n') = sv_io (nd_server n) ∧
  (∃ s, nd_rep n' = set_rdma_sync s (nd_rep n)) ∧ sent_bytes n' = sent_bytes n ∧ acked n' = acked n ∧
  rs_disconnect_pending (sync n') = rs_disconnect_pending (sync n) ∧ rdma_submitted (nd_rdma n') = rdma_submitted (nd_rdma n).

Lemma quiet_trans n1 n2 n3 : quiet n1 n2 → quiet n2 n3 → quiet n1 n3.
Proof.
  intros (E1 & (s & Es1) & Hb & Ha & Hd & Ht) (E2 & (s' & Es2) & Hb' & Ha' & Hd' & Ht'). split; [congruence|].
  split; [exists s'; by rewrite Es2, Es1|]. split_and!; congruence.
Qed.

Lemma serving_sync fd f n n' s : serving fd f n → sv_io (nd_server n') = sv_io (nd_server n) → nd_rep n' = set_rdma_sync s (nd_rep n) → serving fd f n'.
Proof. intros (Hini & Hrole & Hfd & Hc & Hrest) Eio Em. unfold serving, node_disk in *. by rewrite Em, Eio. Qed.

(** An acknowledgement counts, or nothing does. *)
Lemma sending_acked fd f snap base n n' s :
  sending fd f snap base n → sv_io (nd_server n') = sv_io (nd_server n) → nd_rep n' = set_rdma_sync s (nd_rep n) →
  sent_bytes n' = sent_bytes n → rs_disconnect_pending (sync n') = rs_disconnect_pending (sync n) →
  (acked n' = acked n ∨ acked n' = sent_bytes n ∧ rs_disconnect_pending (sync n') = false) →
  rdma_submitted (nd_rdma n') = rdma_submitted (nd_rdma n) → sending fd f snap base n'.
Proof.
  intros (Hs & Hst & Hrd & Ho & Hsize & Ha & Hb & Hc & Hd) Eio Em Eb Ed Ea' Et. split; [by eapply serving_sync|].
  split; [by rewrite Em|]. split; [by rewrite Em|]. split; [by rewrite Em|]. split; [by rewrite Em|]. split; [lia|]. split; [lia|].
  split; [by rewrite Et, Eb|]. rewrite Ed in *. unfold node_disk in *. rewrite Eio.
  replace (snap_reader n') with (snap_reader n) by (by rewrite Em).
  destruct (rs_disconnect_pending (sync n)).
  - destruct Ea' as [->|[_ ?]]; [|done]. exact Hd.
  - rewrite Eb. exact Hd.
Qed.

Lemma quiet_sending fd f snap base n n' : quiet n n' → sending fd f snap base n → sending fd f snap base n'.
Proof. intros (Eio & (s & Em) & Hb & Ha & Hd & Ht) Hs. eapply sending_acked; try done. by left. Qed.

Lemma quiet_rdma n t : rdma_submitted t = rdma_submitted (nd_rdma n) → quiet n (put_rdma t n).
Proof. intros. split; [done|]. split; [|done]. exists (sync n). by destruct n as [? [] ?]. Qed.

Lemma quiet_sync n s : rs_snapshot_bytes s = sent_bytes n → rs_acknowledged_bytes s = acked n →
  rs_disconnect_pending s = rs_disconnect_pending (sync n) → quiet n (put_manager (set_rdma_sync s (nd_rep n)) n).
Proof. intros. split; [done|]. split; [by exists s|]. by split_and!. Qed.

(** One call of the sending part, by its result. *)
Definition sent_step fd f snap base n (r : Z) n' : Prop :=
  r = -1 ∨ r = KVS_STREAM_WAIT ∧ sending fd f snap base n' ∧ rm_replication_offset (nd_rep n') = rm_replication_offset (nd_rep n) ∧
  (sent_bytes n' = sent_bytes n ∧ rdma_submitted (nd_rdma n') = rdma_submitted (nd_rdma n) ∧
     (acked n' = acked n ∨ acked n' = sent_bytes n ∧ rdma_received (nd_rdma n') = rdma_received (nd_rdma n) ++ [ack_message (sent_bytes n)]) ∨
   acked n = sent_bytes n ∧ acked n' = acked n ∧
     ∃ b, b ≠ [] ∧ rdma_submitted (nd_rdma n') = rdma_submitted (nd_rdma n) ++ [b] ∧ sent_bytes n' = sent_bytes n + zlen b).

Lemma sent_step_wait fd f snap base n n' : quiet n n' → sending fd f snap base n → sent_step fd f snap base n KVS_STREAM_WAIT n'.
Proof.
  intros Hq Hs. right. split; [done|]. split; [by eapply quiet_sending|]. destruct Hq as (_ & (s & Em) & ? & ? & _ & ?).
  split; [by rewrite Em|]. left. auto.
Qed.

Lemma sent_step_after fd f snap base n n1 r n' : quiet n n1 → rdma_received (nd_rdma n1) = rdma_received (nd_rdma n) →
  sent_step fd f snap base n1 r n' → sent_step fd f snap base n r n'.
Proof.
  intros (_ & (s & Em) & Eb & Ea' & _ & Et) Er' [->|(-> & Hs & Eo & Hstep)]; [by left|]. right. split; [done|]. split; [done|].
  split; [rewrite Eo; by rewrite Em|]. rewrite Eb, Ea', Et, Er' in Hstep. exact Hstep.
Qed.

Lemma quiet_refl n : quiet n n.
Proof. split; [done|]. split; [|done]. exists (sync n). by destruct n as [? [] ?]. Qed.

(** The chunk [b] was read and submitted. *)
Lemma sending_more fd f snap base n b rd d n' s :
  sending fd f snap base n → rs_disconnect_pending (sync n) = false → b ≠ [] → os_same (node_disk n) d → sends_file rd d snap →
  sr_fd rd = sr_fd (snap_reader n) → sr_position rd = sr_position (snap_reader n) + zlen b →
  take (Z.to_nat (sr_position rd)) snap = take (Z.to_nat (sr_position (snap_reader n))) snap ++ b →
  sv_io (nd_server n') = sv_io (nd_server (node_put_os d n)) → nd_rep n' = set_rdma_sync s (set_snapshot_reader rd (nd_rep n)) →
  rs_snapshot_bytes s = sent_bytes n + zlen b → rs_acknowledged_bytes s = acked n → rs_disconnect_pending s = false →
  rdma_submitted (nd_rdma n') = rdma_submitted (nd_rdma n) ++ [b] → sending fd f snap base n'.
Proof.
  intros (Hs & Hst & Hrd & Ho & Hsize & Ha & Hb & (chunks & Hsub & Hj) & Hd) Hdis Hne (En & Ed & Ef) Hrd' Efd Hpos Htake Eio Em Eb Ea' Edis Et.
  rewrite Hdis in Hd. destruct Hd as (_ & Hp & Hino). pose proof (zlen_nonneg b).
  assert (serving fd f n') as Hs'.
  { apply (serving_sync fd f (put_manager (set_snapshot_reader rd (nd_rep n)) (node_put_os d n)) n' s); [|exact Eio|exact Em].
    by apply serving_put; [..|rewrite Ef| | |]. }
  assert (node_disk n' = d) as Edisk by (unfold node_disk; by rewrite Eio).
  split; [done|]. rewrite Em. split; [done|]. split; [done|]. split; [done|]. split; [done|].
  cbn -[take Z.to_nat]. rewrite Eb, Ea', Edis. split; [lia|]. destruct Hrd' as (R1 & R2 & R3 & R4 & R5).
  split; [lia|]. split.
  - exists (chunks ++ [b]). rewrite Et, Hsub, app_assoc. split; [done|]. rewrite mjoin_snoc, Hj, <- Hp, <- Hpos. done.
  - rewrite Edisk, Eio. split; [by split_and!|]. split; [lia|]. rewrite Efd, Ef. exact Hino.
Qed.

Lemma send_chunk_spec fd f snap base n :
  sending fd f snap base n → rs_disconnect_pending (sync n) = false → acked n = sent_bytes n →
  wpx (kvs_replication_rdma_send_snapshot_chunk) n (λ r n', sent_step fd f snap base n r n') (λ _, False).
Proof.
  intros Hs Hdis Hack. unfold kvs_replication_rdma_send_snapshot_chunk. apply step_manager.
  destruct (rs_send_pending (sync n)); [apply wpx_ret; apply sent_step_wait; [apply quiet_refl|done]|].
  eapply step_rdma; [apply libc_malloc_law|]. intros [p|] t1 (Er1 & Es1 & _); [|apply wpx_ret; by left].
  pose proof Hs as (Hserv & _ & _ & _ & _ & _ & _ & _ & Hd). rewrite Hdis in Hd. destruct Hd as (Hfile & Hp & Hino).
  eapply step_files; [apply (snapshot_reader_read_spec _ _ snap); [exact Hfile|done]|]. intros [data rd] d (Hk & Hsame & Hdata). apply step_put.
  destruct data as [[|c b]|].
  1,3: eapply wpx_eq; [done|]; eapply step_rdma; [apply libc_free_law|]; intros ? t2 _; apply wpx_ret; by left.
  destruct Hdata as (Hfile' & Efd & Hle & Hpos & Htake & _).
  eapply step_rdma; [apply send_law|]. intros r t2 (Er2 & _ & Hr). eapply step_rdma; [apply libc_free_law|]. intros ? t3 (Er3 & Es3 & _).
  destruct Hr as [[-> Es2]|[-> _]]; [|apply wpx_ret; by left]. cbn [Z.ltb Z.compare].
  apply step_update_sync, step_update_sync, wpx_ret. node_simpl. right. split; [done|].
  assert (rdma_submitted t3 = rdma_submitted (nd_rdma n) ++ [c :: b]) as Et by (rewrite Es3; cbn; rewrite Es2; cbn; congruence).
  match goal with |- sending _ _ _ _ ?x ∧ _ => set (n3 := x) end. split; [|split; [done|right]].
  - eapply (sending_more fd f snap base n (c :: b) rd d n3); try done; cbn; exact Hdis.
  - split; [done|]. split; [done|]. by exists (c :: b).
Qed.

Lemma message_spec fd f snap base n0 n data :
  sending fd f snap base n → quiet n0 n → rdma_received (nd_rdma n) = rdma_received (nd_rdma n0) ++ [data] → rs_disconnect_pending (sync n) = false →
  wpx (primary_message data) n (λ r n', sent_step fd f snap base n0 r n') (λ _, False).
Proof.
  intros Hs Hq Hrec Hdis. pose proof Hq as (_ & (s0 & Em0) & Eb & Ea' & Edis & Et). unfold primary_message. apply step_manager. cbv zeta.
  destruct (Z.ltb_spec 0 (sent_bytes n)) as [Hpos|Hzero].
  - rewrite print_line_cases. eapply wpx_eq; [done|]. destruct (_ && _); [|apply wpx_ret; by left]. cbv beta iota.
    destruct ((sent_bytes n <=? acked n) || bool_decide (data ≠ ack_message (sent_bytes n))) eqn:Ebad; [apply wpx_ret; by left|].
    apply orb_false_iff in Ebad as [_ Edata%bool_decide_eq_false]. apply dec_stable in Edata. subst data.
    eapply step_rdma; [apply receive_next_law|]. intros r t ((Er1 & Es1 & _) & Hr). destruct Hr as [->| ->]; cbn [Z.ltb Z.compare]; [|apply wpx_ret; by left].
    apply step_update_sync, wpx_ret. node_simpl. right. split; [done|]. split; [|split; [by rewrite Em0|left]].
    + eapply sending_acked; [exact Hs|done|done|done|done|right|done]. split; [done|exact Hdis].
    + split; [exact Eb|]. split; [cbn; congruence|]. right. split; [exact Eb|]. cbn. rewrite Er1. cbn. by rewrite <- Eb.
  - rewrite print_line_cases. eapply wpx_eq; [done|]. destruct (_ && _); [|apply wpx_ret; by left]. cbv beta iota.
    destruct (negb (sent_bytes n =? 0) || _); [apply wpx_ret; by left|].
    eapply step_rdma; [apply receive_next_law|]. intros r t ((Er1 & Es1 & _) & Hr). destruct Hr as [->| ->]; cbn [Z.ltb Z.compare]; [|apply wpx_ret; by left].
    pose proof Hs as (_ & _ & _ & _ & _ & Hab & _). eapply wpx_mono; [apply (send_chunk_spec fd f snap base (put_rdma t n))| |done].
    + by eapply quiet_sending; [apply quiet_rdma|].
    + exact Hdis.
    + cbn. lia.
    + intros r n' [->|(-> & Hs' & Eo & Hstep)]; [by left|]. right. split; [done|]. split; [done|]. split; [rewrite Eo; by cbn; rewrite Em0|].
      cbn in Hstep. rewrite Es1 in Hstep. cbn in Hstep. destruct Hstep as [(E1 & E2 & E3)|(E1 & E2 & b & Hb & E3 & E4)].
      * left. split; [congruence|]. split; [congruence|]. destruct E3 as [E3|[E3 _]]; left; lia.
      * right. split; [lia|]. split; [lia|]. exists b. split; [done|]. split; [congruence|]. lia.
Qed.

(** Everything was acknowledged: the reader is closed. *)
Lemma sending_done fd f snap base n d s t : sending fd f snap base n → rs_disconnect_pending (sync n) = false →
  acked n = sent_bytes n → sr_remaining (snap_reader n) ≤ 0 → closed_fd (sr_fd (snap_reader n)) (node_disk n) d →
  rs_snapshot_bytes s = sent_bytes n → rs_acknowledged_bytes s = acked n → rs_disconnect_pending s = true →
  rdma_submitted t = rdma_submitted (nd_rdma n) →
  sending fd f snap base (put_manager (set_snapshot_reader reader_closed (set_rdma_sync s (nd_rep n))) (node_put_os d (put_rdma t n))).
Proof.
  intros (Hs & Hst & Hrd & Ho & Hsize & Ha & Hb & Hc & Hd) Hdis Hack Hrem (Hk & En & Ed & Ef) Eb Ea' Edis Et.
  rewrite Hdis in Hd. destruct Hd as ((R1 & R2 & R3 & R4 & R5) & Hp & Hino).
  assert (sr_fd (snap_reader n) ≠ aw_fd (p_aof (sv_io (nd_server n)))) as Hne by (intros E; by rewrite E in Hino).
  split; [apply serving_put; try done; rewrite Ef; case_match; [by apply lookup_delete_ne|done]|].
  split; [done|]. split; [done|]. split; [done|]. split; [done|].
  cbn -[take Z.to_nat]. rewrite Eb, Ea', Edis, Et. split; [done|]. split; [done|]. split; [done|]. split; [lia|done].
Qed.

Lemma full_sync_spec fd f snap base n :
  sending fd f snap base n → wpx primary_full_sync n (λ r n', sent_step fd f snap base n r n') (λ _, False).
Proof.
  intros Hs. unfold primary_full_sync. apply step_manager. cbv zeta. destruct (rs_disconnect_pending (sync n)) eqn:Hdis.
  { apply wpx_ret, sent_step_wait; [apply quiet_refl|done]. }
  destruct (negb (rs_established (sync n))); [apply wpx_ret, sent_step_wait; [apply quiet_refl|done]|].
  destruct (negb (rs_send_pending (sync n)) && (0 <? sent_bytes n) && (acked n =? sent_bytes n) && (0 <=? sr_fd (snap_reader n))) eqn:Ego.
  - apply andb_true_iff in Ego as [[[_ _]%andb_true_iff Hack%Z.eqb_eq]%andb_true_iff _].
    destruct (Z.ltb_spec 0 (sr_remaining (snap_reader n))); [by apply send_chunk_spec|].
    eapply step_rdma; [apply disconnect_law|]. intros r t ((Er1 & Es1 & _) & Hr). destruct Hr as [->| ->]; cbn [Z.ltb Z.compare]; [|apply wpx_ret; by left].
    apply step_update_sync, step_close_snapshot_reader. intros d Hcl. apply wpx_ret. node_simpl. right. split; [done|]. split.
    + by apply (sending_done fd f snap base n).
    + split; [done|]. left. split; [done|]. split; [done|]. by left.
  - eapply step_rdma; [apply poll_completion_law|]. intros [r completion] t (Es1 & _ & Hr).
    assert (quiet n (put_rdma t n)) as Hq by (by apply quiet_rdma).
    assert (sending fd f snap base (put_rdma t n)) as Hs1 by (by eapply quiet_sending).
    destruct (Z.ltb_spec r 0); [apply wpx_ret; by left|]. destruct (Z.eqb_spec r 0); [apply wpx_ret, sent_step_wait; done|].
    case_bool_decide as Hsend.
    { apply step_update_sync, wpx_ret, sent_step_wait; [|done]. eapply quiet_trans; [exact Hq|]. by apply quiet_sync. }
    case_bool_decide as Hrecv; [apply wpx_ret; by left|].
    destruct Hr as [(-> & _ & Erec & _)|(_ & [(_ & Ex)|[Ex|Ex]])]; [|congruence|lia..].
    by apply (message_spec fd f snap base n).
Qed.

(** ** From the snapshot to the log *)

Lemma start_catch_up_spec fd f n :
  serving fd f n → rd_fd (reader n) < 0 → sr_fd (snap_reader n) < 0 → 0 ≤ rm_replication_offset (nd_rep n) ≤ zlen f →
  wpx kvs_replication_primary_start_catch_up n (λ r n', r = -1 ∨ r = 0 ∧ streaming fd f (rm_replication_offset (nd_rep n)) n' ∧
    state n' = KVS_REPLICATION_STATE_CATCH_UP ∧ nd_rdma n' = nd_rdma n) (λ _, False).
Proof.
  intros Hs Hrd Hsr Ho. unfold kvs_replication_primary_start_catch_up. apply step_close_snapshot_reader. intros d (Hk & En & Ed & Ef).
  rewrite (proj2 (Z.leb_gt 0 _)) in Ef by done. set (n1 := put_manager _ _).
  assert (serving fd f n1) as Hs1 by (by apply serving_put; [..|rewrite Ef| | |]).
  apply step_offset. rewrite (serving_offset _ _ _ Hs1). apply step_manager. change (rm_replication_offset (nd_rep n1)) with (rm_replication_offset (nd_rep n)).
  rewrite (proj2 (Z.ltb_ge _ _)) by lia. apply step_close_aof_reader. intros d2 (Hk2 & En2 & Ed2 & Ef2).
  change (reader n1) with (reader n) in Ef2. rewrite (proj2 (Z.leb_gt 0 _)) in Ef2 by done. set (n2 := put_manager _ _).
  assert (serving fd f n2) as Hs2 by (by apply serving_put; [..|rewrite Ef2| | |]).
  pose proof Hs2 as (_ & _ & _ & _ & Hmax & _ & i & Hi & Hlog). pose proof Hlog as [_ Hf].
  eapply step_open_aof; [exact Hlog|lia|lia| |].
  - intros rd d3 Hk3 En3 Ed3 Hrd3 Hnew Ef3. cbn [Z.ltb Z.compare]. apply step_put, wpx_ret. right. split; [done|].
    rewrite rep_put_manager, put_manager_put.
    destruct (opened_streaming fd f (rm_replication_offset (nd_rep n)) n2 rd d3 i
      (set_state KVS_REPLICATION_STATE_CATCH_UP (set_aof_reader (AofReader rd (rm_replication_offset (nd_rep n)) (zlen f - rm_replication_offset (nd_rep n))) (nd_rep n2))) Hs2)
      as (Hstr & _); done.
  - intros d3 Hk3 En3 Ed3 Hh. cbn [Z.ltb Z.compare]. apply wpx_ret. by left.
Qed.

(** The snapshot was sent and acknowledged, the log starts. *)
Definition snapshot_over fd f (snap : bytes) base n n1 : Prop :=
  (∃ chunks, rdma_submitted (nd_rdma n) = base ++ chunks ∧ mjoin chunks = snap) ∧ acked n = zlen snap ∧
  rdma_submitted (nd_rdma n1) = rdma_submitted (nd_rdma n) ∧
  streaming fd f (rm_replication_offset (nd_rep n)) n1 ∧ state n1 = KVS_REPLICATION_STATE_CATCH_UP.

Lemma disconnected_spec fd f snap base n :
  sending fd f snap base n → wpx primary_disconnected n (λ r n', r = -1 ∨ r = 0 ∧ snapshot_over fd f snap base n n') (λ _, False).
Proof.
  intros (Hs & Hst & Hrd & Ho & Hsize & Ha & Hb & (chunks & Hc & Hj) & Hd). unfold primary_disconnected. apply step_manager. cbv zeta.
  destruct (rs_disconnect_pending (sync n)); [|apply wpx_ret; by left]. destruct Hd as [Eack Hsr]. cbn [negb orb].
  destruct (_ || _); [apply wpx_ret; by left|]. assert (sent_bytes n = zlen snap) as Eb by lia.
  apply step_sync_close.
  - intros t (_ & Et & _). cbn [Z.ltb Z.compare]. eapply wpx_stepx; [apply (start_catch_up_spec fd f)|].
    + by eapply (serving_sync fd f n).
    + done.
    + done.
    + done.
    + intros r n' [->|(-> & Hstr & Est & Er')]; cbn [Z.ltb Z.compare]; apply wpx_ret; [by left|right]. split; [done|]. split.
      * exists chunks. split; [done|]. rewrite Hj, Eb. apply take_ge. unfold zlen. lia.
      * split; [done|]. split; [|by split]. rewrite Er'. exact Et.
  - intros t _ _. cbn [Z.ltb Z.compare]. apply wpx_ret. by left.
Qed.

(** One call during the snapshot, by what it hands out. *)
Definition snapshot_step fd f snap base cap n (r : Z) out n' : Prop :=
  out = [] ∧ sent_step fd f snap base n r n' ∨
  ∃ n1, snapshot_over fd f snap base n n1 ∧ handed_out fd f (rm_replication_offset (nd_rep n)) cap n1 r out n'.

Lemma stream_snapshot_spec fd f snap base cap n :
  sending fd f snap base n → 0 < cap ≤ INT_MAX →
  wpx (kvs_replication_stream fd cap) n (λ '(r, out) n', snapshot_step fd f snap base cap n r out n') (λ _, False).
Proof.
  intros Hs Hcap. pose proof Hs as ((Hini & Hrole & Hfd & Hc & _) & Hst & _). unfold kvs_replication_stream. apply step_manager.
  rewrite Hini, (bool_decide_eq_false_2 (rm_role (nd_rep n) ≠ KVS_ROLE_PRIMARY)) by (rewrite Hrole; by intros []).
  rewrite (proj2 (Z.ltb_ge fd 0)), (proj2 (Z.leb_gt cap 0)) by lia. cbn [negb orb].
  rewrite Hc, (proj2 (Z.ltb_ge fd 0)), Z.eqb_refl by lia. cbn [negb]. cbv iota. rewrite bool_decide_eq_true_2 by done.
  unfold primary_rdma_stream. rewrite !wpx_bind_assoc. apply step_manager.
  case_bool_decide; [eapply wpx_eq; [done|]; apply wpx_ret; left; split; [done|by left]|]. rewrite !wpx_bind_assoc.
  eapply step_rdma; [apply listener_poll_law|]. intros [[result c] event] t ((Er1 & Es1 & _) & Hres). rewrite !wpx_bind_assoc. apply step_update_sync.
  node_simpl. set (n1 := put_manager _ _). assert (quiet n n1) as Hq by (split; [done|]; split; [by eexists|]; by split_and!).
  assert (sending fd f snap base n1) as Hs1 by (by eapply quiet_sending).
  destruct (Z.ltb_spec result 0).
  { rewrite !wpx_bind_assoc. destruct (_ && _).
    - apply step_put. eapply wpx_eq; [done|]. apply wpx_ret. left. split; [done|by left].
    - eapply wpx_eq; [done|]. eapply wpx_eq; [done|]. apply wpx_ret. left. split; [done|by left]. }
  rewrite !wpx_bind_assoc.
  destruct ((0 <? result) && bool_decide (event_type event = KVS_RDMA_EVENT_DISCONNECTED)) eqn:Edis.
  - eapply wpx_stepx; [by apply (disconnected_spec fd f snap base)|]. intros r n2 [->|(-> & Hover)]; cbn [Z.ltb Z.compare].
    { eapply wpx_eq; [done|]. apply wpx_ret. left. split; [done|by left]. }
    apply andb_true_iff in Edis as [_ Eev%bool_decide_eq_true]. rewrite (bool_decide_eq_false_2 (event_type event = KVS_RDMA_EVENT_ESTABLISHED)) by congruence.
    rewrite andb_false_r, !wpx_bind_assoc. eapply wpx_eq; [done|]. rewrite !wpx_bind_assoc. apply step_manager.
    pose proof Hover as (Hc1 & Hc2 & Hc3 & Hstr & Est). rewrite bool_decide_eq_false_2 by congruence.
    eapply wpx_eq; [done|]. cbv beta iota. eapply wpx_mono; [by apply (log_loop_spec fd f (rm_replication_offset (nd_rep n1)))| |done].
    intros [r out] n3 Hr. right. exists n2. split; [|exact Hr].
    destruct Hq as (_ & (s & Em) & Eb & Eack & _ & Et). unfold snapshot_over. rewrite <- Et, <- Eack. rewrite Em in Hstr.
    split; [done|]. split; [done|]. by split.
  - eapply wpx_eq; [done|]. cbn [Z.ltb Z.compare]. rewrite !wpx_bind_assoc.
    assert (∀ n2, quiet n n2 → sending fd f snap base n2 → rdma_received (nd_rdma n2) = rdma_received (nd_rdma n) → 
      wpx (primary_full_sync ≫= λ r, mret (r, [])) n2 (λ '(r, out) n', snapshot_step fd f snap base cap n r out n') (λ _, False)) as Hrest.
    { intros n2 Hq2 Hs2 Erec2. eapply wpx_stepx; [by apply (full_sync_spec fd f snap base)|]. intros r n3 Hr. apply wpx_ret. left. split; [done|].
      by eapply sent_step_after. }
    destruct ((0 <? result) && bool_decide (event_type event = KVS_RDMA_EVENT_ESTABLISHED)).
    + apply step_update_sync. rewrite !wpx_bind_assoc. apply step_manager. node_simpl. set (n2 := put_manager _ _).
      assert (quiet n1 n2) as Hq2 by (split; [done|]; split; [by eexists|]; by split_and!).
      rewrite bool_decide_eq_true_2 by done. rewrite !wpx_bind_assoc. apply Hrest; [by eapply quiet_trans|by eapply quiet_sending|done].
    + eapply wpx_eq; [done|]. rewrite !wpx_bind_assoc. apply step_manager. rewrite bool_decide_eq_true_2 by done. rewrite !wpx_bind_assoc. by apply Hrest.
Qed.

Lemma grows_sending fd f f' snap base n n' : sending fd f snap base n → grows f f' n n' → sending fd f' snap base n'.
Proof.
  intros (Hs & Hst & Hrd & Ho & Hsize & Ha & Hb & Hc & Hd) Hg. pose proof (grows_serving _ _ _ _ _ Hs Hg) as Hs'.
  destruct Hg as (Em & Et & Hp & _ & _ & Efd & (_ & Ef & j & Hj & Ed)). pose proof (prefix_zlen _ _ Hp) as Hle.
  split; [done|]. rewrite Em, Et. split; [done|]. split; [done|]. split; [lia|]. split; [done|]. split; [done|]. split; [done|]. split; [done|].
  destruct (rs_disconnect_pending (sync n)); [done|]. destruct Hd as ((R1 & R2 & R3) & Hpos & Hino). split; [|by rewrite Efd, Ef].
  split; [done|]. split; [|done]. unfold fd_file in *. rewrite Ef. destruct (os_fds (node_disk n) !! sr_fd (snap_reader n)) as [k|]; [|done].
  cbn in *. rewrite Ed, lookup_insert_ne; [done|]. congruence.
Qed.

(** A run that starts with the snapshot. *)
Definition synchronised fd f (snap : bytes) base n outs f' n' : Prop :=
  sending fd f' snap base n' ∧ mjoin outs = [] ∧ rm_replication_offset (nd_rep n') = rm_replication_offset (nd_rep n) ∨
  (∃ chunks, rdma_submitted (nd_rdma n') = base ++ chunks ∧ mjoin chunks = snap) ∧
  ∃ sent', rm_replication_offset (nd_rep n) ≤ sent' ∧ streaming fd f' sent' n' ∧
    run_out (rm_replication_offset (nd_rep n)) f' KVS_REPLICATION_STATE_CATCH_UP (state n') sent' (mjoin outs).

Lemma sync_run_spec fd cap f snap base n outs f' n' :
  sending fd f snap base n → 0 < cap ≤ INT_MAX → log_run fd cap f n outs f' n' →
  f `prefix_of` f' ∧ synchronised fd f snap base n outs f' n'.
Proof.
  intros Hs Hcap Hrun. pose proof Hs as (_ & _ & _ & Ho0 & _). induction Hrun as [f n|f n outs f1 n1 r out n2 Hrun IH Hcall Hr|f n outs f1 n1 f2 n2 Hrun IH Hg].
  - split; [done|]. by left.
  - destruct (IH Hs Ho0) as (Hp & [(Hs1 & Hnil & Eo)|((chunks & Hc & Hj) & sent1 & Hs1 & Hstr1 & Ho)]); split; try done; unfold synchronised; rewrite mjoin_snoc.
    + destruct (wpx_ok _ _ _ _ _ _ (stream_snapshot_spec fd f1 snap base cap n1 Hs1 Hcap) Hcall) as [[-> Hstep]|(n3 & Hover & Hout)].
      * destruct Hstep as [->|(_ & Hs2 & Eo2 & _)]; [done|]. left. split; [done|]. rewrite Hnil. split; [done|congruence].
      * right. destruct Hover as ((chunks & Hc & Hj) & _ & Et & Hstr & Est). rewrite Hnil, Eo in *.
        destruct (handed_run fd f1 (rm_replication_offset (nd_rep n)) KVS_REPLICATION_STATE_CATCH_UP (rm_replication_offset (nd_rep n)) cap n3 r out n2 [])
          as (Et2 & sent2 & Hs2 & Hrest); [lia|done|left; split; [done|by rewrite between_nil]|done|done|].
        split; [exists chunks; rewrite Et2, Et; by split|]. exists sent2. by split.
    + right. destruct (handed_run fd f1 (rm_replication_offset (nd_rep n)) KVS_REPLICATION_STATE_CATCH_UP sent1 cap n1 r out n2 (mjoin outs))
        as (Et2 & sent2 & Hs2 & Hrest); [lia|done|done|by apply (wpx_ok _ _ _ _ _ _ (stream_log_spec fd f1 sent1 cap n1 Hstr1 Hcap) Hcall)|done|].
      split; [exists chunks; rewrite Et2; by split|]. exists sent2. split; [lia|done].
  - destruct (IH Hs Ho0) as (Hp & Hsync). pose proof Hg as (Em & Et & Hp2 & _). split; [by etrans|].
    destruct Hsync as [(Hs1 & Hnil & Eo)|((chunks & Hc & Hj) & sent1 & Hs1 & Hstr1 & Ho)]; [left|right].
    + split; [by eapply grows_sending|]. split; [done|]. by rewrite Em.
    + rewrite Et, Em. split; [by exists chunks|]. pose proof Hstr1 as (_ & Hsent1 & _). exists sent1. split; [done|].
      split; [by apply (grows_streaming fd f1 f2 sent1 n1)|]. apply (run_out_grow _ f1 f2); [lia|lia|done|done].
Qed.

(** The call that turns the replica's state to ONLINE ends the log with its length. *)
Lemma turns_online fd cap f snap base n outs f' n1 r out n2 :
  sending fd f snap base n → 0 < cap ≤ INT_MAX → log_run fd cap f n outs f' n1 → state n1 ≠ KVS_REPLICATION_STATE_ONLINE →
  kvs_replication_stream fd cap n1 = Ok (r, out) n2 → r ≠ -1 → state n2 = KVS_REPLICATION_STATE_ONLINE →
  (∃ chunks, rdma_submitted (nd_rdma n2) = base ++ chunks ∧ mjoin chunks = snap) ∧ streaming fd f' (zlen f') n2 ∧
  rm_replication_offset (nd_rep n) ≤ zlen f' ∧
  mjoin (outs ++ [out]) = drop (Z.to_nat (rm_replication_offset (nd_rep n))) f' ++ online_line (zlen f').
Proof.
  intros Hs Hcap Hrun Hoff Hcall Hr Hon. pose proof Hs as (_ & _ & _ & Ho0 & _).
  destruct (sync_run_spec fd cap f snap base n outs f' n1 Hs Hcap Hrun) as [Hp [(Hs1 & Hnil & Eo)|((chunks & Hc & Hj) & sent1 & Hle & Hstr1 & Ho)]].
  - destruct (wpx_ok _ _ _ _ _ _ (stream_snapshot_spec fd f' snap base cap n1 Hs1 Hcap) Hcall) as [[-> Hstep]|(n3 & Hover & Hout)].
    { exfalso. destruct Hstep as [->|(_ & (_ & Hst & _) & _)]; [done|congruence]. }
    destruct Hover as ((chunks & Hc & Hj) & _ & Et & Hstr & Est). destruct Hout as ((Et2 & _) & Hout).
    destruct Hout as [(_ & _ & _ & _ & Est2)|[(-> & -> & Esent & _ & Hstr2 & _)|[(_ & _ & _ & _ & Est2 & _)|(-> & _)]]]; [congruence| |congruence|done].
    split; [exists chunks; rewrite Et2, Et; by split|]. rewrite Eo in *. rewrite Esent in *. split; [done|]. split; [done|].
    rewrite mjoin_snoc, Hnil. rewrite drop_ge; [done|]. unfold zlen. lia.
  - destruct Ho as [[Est Eo]|(_ & Est & _)]; [|congruence].
    destruct (wpx_ok _ _ _ _ _ _ (stream_log_spec fd f' sent1 cap n1 Hstr1 Hcap) Hcall) as ((Et2 & _) & Hout).
    destruct Hout as [(_ & _ & _ & _ & Est2)|[(-> & -> & -> & _ & Hstr2 & _)|[(_ & _ & _ & _ & Est2 & _)|(-> & _)]]]; [congruence| |congruence|done].
    split; [exists chunks; rewrite Et2; by split|]. split; [done|]. split; [done|].
    rewrite mjoin_snoc, Eo, between_end by lia. done.
Qed.
End primary.

(** * Theorems *)

Section theorems.
Context `{CRuntimeLaws RT} `{OsLaws D} `{RdmaLaws T} {Ea Er Eh Es : Type}
  `{!Engine RT Ea} `{!Engine RT Er} `{!Engine RT Eh} `{!Engine RT Es}
  `{!EngineLaws RT Ea} `{!EngineLaws RT Er} `{!EngineLaws RT Eh} `{!EngineLaws RT Es}.
Notation N := (node RT D (kv_engines Ea Er Eh Es) T).
Notation apply_log := (apply_log (RT := RT) (Ea := Ea) (Er := Er) (Eh := Eh) (Es := Es)).
Notation logged_write := (logged_write (RT := RT) (Ea := Ea) (Er := Er) (Eh := Eh) (Es := Es)).
Implicit Types (n p : N) (f out snap : bytes) (own : list addr) (F : gset addr) (cmds : list (list bytes)).

(** C19: a call of the stream during the snapshot submits at most one chunk, the next
    bytes of the file, and only when everything before it was acknowledged; it counts
    an acknowledgement only for exactly the bytes sent; and it goes on to the log only
    when the whole snapshot was sent and acknowledged, at the announced offset. *)
Theorem snapshot_paced fd f snap base cap n :
  sending fd f snap base n → 0 < cap ≤ INT_MAX →
  wpx (kvs_replication_stream fd cap) n (λ '(r, out) n', snapshot_step fd f snap base cap n r out n') (λ _, False).
Proof. apply stream_snapshot_spec. Qed.

(** C32: a call behind the snapshot hands out the next bytes of the log, at most as many
    as fit; when there are none, the line ONLINE with the length of the log, once, and
    from then on nothing until the log grows.  It fails only when the disk does or that
    line does not fit. *)
Theorem log_handed_out fd f sent cap n :
  streaming fd f sent n → 0 < cap ≤ INT_MAX →
  wpx (kvs_replication_stream fd cap) n (λ '(r, out) n', handed_out fd f sent cap n r out n') (λ _, False).
Proof. apply stream_log_spec. Qed.

(** C12: over any run of a primary's stream, from the announcement of the snapshot [snap]
    on and while its log grows, the messages submitted are the beginning of [snap]; no
    byte of the log is handed out before all of it was; and what is handed out is the
    log from the announced offset on, without a gap or a repetition, with at most one
    ONLINE line in it, which names the length of the log up to there. *)
Theorem primary_synchronises fd cap f snap base n outs f' n' :
  sending fd f snap base n → 0 < cap ≤ INT_MAX → log_run fd cap f n outs f' n' →
  f `prefix_of` f' ∧ synchronised fd f snap base n outs f' n'.
Proof. apply sync_run_spec. Qed.

(** C10: when a primary's run has sent its snapshot and then its log and has turned ONLINE,
    then a replica that starts with a log of the announced length and is fed what the
    run handed out, in any division, executes the commands logged since the announced
    offset, in order, and is ONLINE with a log as long as the primary's. *)
Theorem replication_converges fd cap f snap base p outs f' p1 r out p2 rfd own F g n cmds ms b chunks :
  sending fd f snap base p → 0 < cap ≤ INT_MAX → log_run fd cap f p outs f' p1 → rm_state (nd_rep p1) ≠ KVS_REPLICATION_STATE_ONLINE →
  kvs_replication_stream fd cap p1 = Ok (r, out) p2 → r ≠ -1 → rm_state (nd_rep p2) = KVS_REPLICATION_STATE_ONLINE →
  following rfd own F g n → zlen g = rm_replication_offset (nd_rep p) → follow_buffer b →
  drop (Z.to_nat (rm_replication_offset (nd_rep p))) f' = mjoin (aof_record <$> cmds) → Forall logged_write cmds →
  apply_log cmds (maps (nd_server n)) = Some ms → mjoin chunks = mjoin (outs ++ [out]) → zlen (mjoin chunks) ≤ SIZE_MAX →
  roomy (heap (nd_server n)) → healthy (node_disk n) →
  (∃ msgs, rdma_submitted (nd_rdma p2) = base ++ msgs ∧ mjoin msgs = snap) ∧
  wp (feed rfd b chunks []) n (λ rest n', rest = Some [] ∧ following rfd own F (g ++ mjoin (aof_record <$> cmds)) n' ∧
    maps_eq (maps (nd_server n')) ms ∧ rm_state (nd_rep n') = KVS_REPLICATION_STATE_ONLINE ∧
    rm_replication_offset (nd_rep n') = zlen f').
Proof.
  intros Hs Hcap Hrun Hst Hcall Hr Hon Hf Hg Hb Hd Hall Happ Hc Hsz Hro Hh.
  destruct (turns_online fd cap f snap base p outs f' p1 r out p2 Hs Hcap Hrun Hst Hcall Hr Hon) as (Hsub & Hstr & Hle & Hout).
  split; [exact Hsub|]. assert (zlen (g ++ mjoin (aof_record <$> cmds)) = zlen f') as El.
  { rewrite zlen_app, <- Hd. pose proof (zlen_nonneg g). unfold zlen in *. rewrite length_drop. lia. }
  eapply wp_mono.
  - apply (feed_spec rfd own F b (g ++ mjoin (aof_record <$> cmds)) ms chunks [] (Some cmds)); [|done| | | |by left].
    + split; [done|]. split; [done|]. split; [done|]. by exists g, ms.
    + rewrite El. by destruct Hstr as ((_ & _ & _ & _ & Hmax & _) & _).
    + rewrite El. cbn [to_come]. rewrite <- Hd, <- Hout, <- Hc. done.
    + rewrite El. cbn [to_come app]. by rewrite Hc, Hout, Hd.
  - intros rest n' (-> & _ & _ & Hf' & Hms & Hst' & Ho). rewrite El in Ho. by split_and!.
Qed.
End theorems.

(** * A primary and its replica *)

(** The log is open at 3, the snapshot at 6. *)
Definition primary_disk (log : bytes) (fds : gmap Z Z) : mem_os :=
  MemOs {[KVS_REPLICATION_PRIMARY_AOF_PATH := 0; KVS_REPLICATION_PRIMARY_SNAPSHOT_PATH := 1]} {[0 := log; 1 := sample_snapshot]} fds false.

Definition primary_manager (sync : kvs_replication_rdma_sync_t) (sr : kvs_snapshot_reader_t) (ar : kvs_aof_reader_t) (offset : Z)
    (state : kvs_replication_state_t) : kvs_replication_manager_t (server heap_rt mem_os demo_engines) :=
  ReplicationManager KVS_ROLE_PRIMARY (Some 2) sync None 4000 0 offset (zlen sample_snapshot) sr ar writer_closed 9
    (replicate 40 (byte_of_Z 97)) (replicate 40 (byte_of_Z 98)) [] 0 (-1) None None state true.

Definition demo_primary (es : demo_engines) (r : heap_rt) (log : bytes) (fds : gmap Z Z) (sync : kvs_replication_rdma_sync_t)
    (sr : kvs_snapshot_reader_t) (ar : kvs_aof_reader_t) (offset : Z) (state : kvs_replication_state_t) (t : script) : demo_node :=
  let m := primary_manager sync sr ar offset state in
  Node (Server (PWorld r (primary_disk log fds) (AofWriter 3 (zlen log) true)) es KVS_ROLE_PRIMARY KVS_PERSISTENCE_AOF (link_of m)) m t.

(** The script: READY, the completed send, the acknowledgement; then the disconnection. *)
Definition recv (b : bytes) : option kvs_rdma_completion_t := Some (RdmaCompletion KVS_RDMA_COMPLETION_RECV b).
Definition ready : bytes := ready_message (replicate 40 (byte_of_Z 98)).
Definition acknowledged : bytes := ack_message (zlen sample_snapshot).
Definition sync_script : script :=
  Script [] [] [Some KVS_RDMA_EVENT_ACCEPTING; Some KVS_RDMA_EVENT_ACCEPTING; Some KVS_RDMA_EVENT_ACCEPTING; Some KVS_RDMA_EVENT_ACCEPTING; Some KVS_RDMA_EVENT_DISCONNECTED]
    [recv ready; Some (RdmaCompletion KVS_RDMA_COMPLETION_SEND []); recv acknowledged] true.
Definition announcing (es : demo_engines) (r : heap_rt) : demo_node :=
  demo_primary es r [] {[3 := 0; 6 := 1]} (RdmaSync (Some 1) true 0 0 false false) (SnapshotReader 6 0 (zlen sample_snapshot)) (AofReader (-1) 0 0) 0
   KVS_REPLICATION_STATE_FULL_SYNC sync_script.

(** The nodes of a run: the whole snapshot in one chunk, its acknowledgement, a command
    that is logged meanwhile, the disconnection, the log and the ONLINE line. *)
Definition demo_log : bytes := aof_record sample_command.
Definition size : Z := zlen sample_snapshot.
Definition events (k : nat) : list (option kvs_rdma_event_type_t) :=
  drop k (scr_events sync_script).
Definition whole : kvs_snapshot_reader_t := SnapshotReader 6 size 0.
Definition no_log : kvs_aof_reader_t := AofReader (-1) 0 0.
Definition submitted_node es r : demo_node :=
  demo_primary es r [] {[3 := 0; 6 := 1]} (RdmaSync (Some 1) true size 0 true false) whole no_log 0
    KVS_REPLICATION_STATE_FULL_SYNC (Script [ready] [sample_snapshot] (events 1) (drop 1 (scr_completions sync_script)) true).
Definition sent_node es r : demo_node :=
  demo_primary es r [] {[3 := 0; 6 := 1]} (RdmaSync (Some 1) true size 0 false false) whole no_log 0
    KVS_REPLICATION_STATE_FULL_SYNC (Script [ready] [sample_snapshot] (events 2) (drop 2 (scr_completions sync_script)) true).
Definition acked_node es r : demo_node :=
  demo_primary es r [] {[3 := 0; 6 := 1]} (RdmaSync (Some 1) true size size false false) whole no_log 0
    KVS_REPLICATION_STATE_FULL_SYNC (Script [ready; acknowledged] [sample_snapshot] (events 3) [] true).
Definition closing_node (log : bytes) es r : demo_node :=
  demo_primary es r log {[3 := 0]} (RdmaSync (Some 1) true size size false true) reader_closed no_log 0
    KVS_REPLICATION_STATE_FULL_SYNC (Script [ready; acknowledged] [sample_snapshot] (events 4) [] true).
Definition logging_node es r : demo_node :=
  demo_primary es r demo_log {[3 := 0; 4 := 0]} rdma_sync_zero reader_closed (AofReader 4 (zlen demo_log) 0) 0
    KVS_REPLICATION_STATE_CATCH_UP (Script [ready; acknowledged] [sample_snapshot] [] [] true).
Definition online_node es r : demo_node :=
  demo_primary es r demo_log {[3 := 0]} rdma_sync_zero reader_closed no_log (zlen demo_log)
    KVS_REPLICATION_STATE_ONLINE (Script [ready; acknowledged] [sample_snapshot] [] [] true).

Lemma announcing_call es r : kvs_replication_stream 9 1024 (announcing es r) = Ok (KVS_STREAM_WAIT, []) (submitted_node es r).
Proof. reflexivity. Qed.
Lemma submitted_call es r : kvs_replication_stream 9 1024 (submitted_node es r) = Ok (KVS_STREAM_WAIT, []) (sent_node es r).
Proof. reflexivity. Qed.
Lemma sent_call es r : kvs_replication_stream 9 1024 (sent_node es r) = Ok (KVS_STREAM_WAIT, []) (acked_node es r).
Proof. reflexivity. Qed.
Lemma acked_call es r : kvs_replication_stream 9 1024 (acked_node es r) = Ok (KVS_STREAM_WAIT, []) (closing_node [] es r).
Proof. reflexivity. Qed.
Lemma closing_call es r : kvs_replication_stream 9 1024 (closing_node demo_log es r) = Ok (zlen demo_log, demo_log) (logging_node es r).
Proof. reflexivity. Qed.
Lemma logging_call es r : kvs_replication_stream 9 1024 (logging_node es r) = Ok (zlen (online_line (zlen demo_log)), online_line (zlen demo_log)) (online_node es r).
Proof. reflexivity. Qed.

Lemma closing_grows es r : grows [] demo_log (closing_node [] es r) (closing_node demo_log es r).
Proof.
  split; [done|]. split; [done|]. split; [apply prefix_nil|]. split; [vm_compute; discriminate|]. split; [by split_and!|]. split; [done|].
  split; [done|]. split; [done|]. exists 0. split; [reflexivity|]. reflexivity.
Qed.

Lemma demo_run es r : log_run 9 1024 [] (announcing es r) [[]; []; []; []; demo_log] demo_log (logging_node es r).
Proof.
  change [[]; []; []; []; demo_log] with ([[]; []; []; []] ++ [demo_log]).
  eapply log_run_call; [|apply closing_call|discriminate]. eapply log_run_grow; [|apply closing_grows].
  change [[]; []; []; []] with (((([] ++ [([] : bytes)]) ++ [[]]) ++ [[]]) ++ [([] : bytes)]).
  eapply log_run_call; [|apply acked_call|done]. eapply log_run_call; [|apply sent_call|done].
  eapply log_run_call; [|apply submitted_call|done]. eapply log_run_call; [|apply announcing_call|done]. apply log_run_done.
Qed.

Lemma demo_serving es r log fds sync sr ar offset state t : fds !! 3 = Some 0 → zlen log ≤ INT64_MAX →
  serving 9 log (demo_primary es r log fds sync sr ar offset state t).
Proof.
  intros Hf Hl. do 2 (split; [done|]). split; [lia|]. split; [done|]. split; [done|]. split.
  - split; [cbn; lia|]. split; [done|]. split; [done|]. unfold fd_file. cbn. rewrite Hf. reflexivity.
  - exists 0. split; [exact Hf|]. split; reflexivity.
Qed.

Lemma announcing_ok es r : sending 9 [] sample_snapshot [] (announcing es r).
Proof.
  split; [apply demo_serving; [reflexivity|vm_compute; discriminate]|]. split; [done|]. split; [cbn; lia|]. split; [split; vm_compute; discriminate|].
  split; [done|]. split; [cbn; lia|]. split; [vm_compute; discriminate|]. split; [by exists []|]. split.
  - split; [cbn; lia|]. split; [reflexivity|]. split; [cbn; lia|]. split; [vm_compute; discriminate|]. vm_compute. reflexivity.
  - split; [done|]. vm_compute. discriminate.
Qed.

Lemma logging_ok es r : streaming 9 demo_log (zlen demo_log) (logging_node es r).
Proof.
  split; [apply demo_serving; [reflexivity|vm_compute; discriminate]|]. split; [vm_compute; split; discriminate|]. right. split; [reflexivity|]. split; [done|].
  exists (zlen demo_log). split; [|split; [vm_compute; discriminate|reflexivity]].
  split; [cbn; lia|]. split; [reflexivity|]. split; [vm_compute; discriminate|]. split; [cbn; lia|]. split; [reflexivity|done].
Qed.

Lemma snapshot_paced_witness : ∃ n : demo_node, sending 9 [] sample_snapshot [] n ∧
  wpx (kvs_replication_stream 9 1024) n (λ '(r, out) n', snapshot_step 9 [] sample_snapshot [] 1024 n r out n') (λ _, False).
Proof.
  destruct fresh_engines as (es & r & _). exists (announcing es r). split; [apply announcing_ok|].
  refine (snapshot_paced 9 [] sample_snapshot [] 1024 _ (announcing_ok es r) _). split; vm_compute; congruence.
Defined.

Lemma log_handed_out_witness : ∃ n : demo_node, streaming 9 demo_log (zlen demo_log) n ∧
  wpx (kvs_replication_stream 9 1024) n (λ '(r, out) n', handed_out 9 demo_log (zlen demo_log) 1024 n r out n') (λ _, False).
Proof.
  destruct fresh_engines as (es & r & _). exists (logging_node es r). split; [apply logging_ok|].
  refine (log_handed_out 9 demo_log _ 1024 _ (logging_ok es r) _). split; vm_compute; congruence.
Defined.

Lemma primary_synchronises_witness : ∃ n n' : demo_node, sending 9 [] sample_snapshot [] n ∧
  log_run 9 1024 [] n [[]; []; []; []; demo_log] demo_log n' ∧ 
  [] `prefix_of` demo_log ∧ synchronised 9 [] sample_snapshot [] n [[]; []; []; []; demo_log] demo_log n'.
Proof.
  destruct fresh_engines as (es & r & _). exists (announcing es r), (logging_node es r). split; [apply announcing_ok|]. split; [apply demo_run|].
  refine (primary_synchronises 9 1024 [] sample_snapshot [] _ _ demo_log _ (announcing_ok es r) _ (demo_run es r)). split; vm_compute; congruence.
Defined.

Lemma replication_converges_witness : ∃ (p2 n : demo_node) ms b chunks,
  mjoin chunks = demo_log ++ online_line (zlen demo_log) ∧
  (∃ msgs, rdma_submitted (nd_rdma p2) = [] ++ msgs ∧ mjoin msgs = sample_snapshot) ∧
  wp (feed 9 b chunks []) n (λ rest n', rest = Some [] ∧ following 9 [] ∅ ([] ++ mjoin (aof_record <$> [sample_command])) n' ∧
    maps_eq (maps (nd_server n')) ms ∧ rm_state (nd_rep n') = KVS_REPLICATION_STATE_ONLINE ∧
    rm_replication_offset (nd_rep n') = zlen demo_log).
Proof.
  destruct following_node_ok as (es & r & Hf & Hro & Hm). symmetry in Hm.
  assert (∃ ms, demo_apply_log [sample_command] (engine_maps es) = Some ms) as [ms Hms].
  { destruct (demo_apply_log [sample_command] empty_maps) as [ms0|] eqn:E0; [|exfalso; revert E0; vm_compute; discriminate].
    destruct (apply_log_eq (RT := heap_rt) (Ea := kvs_array_t) (Er := RbTree.kvs_rbtree_t) (Eh := kvs_hash_t) (Es := kvs_skiplist_t)
      [sample_command] empty_maps (engine_maps es) ms0 Hm E0) as (ms & E & _). by exists ms. }
  set (s := demo_log ++ online_line (zlen demo_log)).
  exists (online_node es r), (following_node es r), ms, (OutputBuffer (Some (0, replicate 1024 None)) 0 0 1024), [take 5 s; drop 5 s].
  split; [vm_compute; reflexivity|].
  refine (replication_converges 9 1024 [] sample_snapshot [] (announcing es r) [[]; []; []; []; demo_log] demo_log (logging_node es r)
    (zlen (online_line (zlen demo_log))) (online_line (zlen demo_log)) _ 9 [] ∅ [] _ [sample_command] ms _ _
    (announcing_ok es r) _ (demo_run es r) _ (logging_call es r) _ _ Hf _ _ _ _ Hms _ _ Hro _).
  - split; vm_compute; congruence.
  - discriminate.
  - vm_compute. discriminate.
  - reflexivity.
  - reflexivity.
  - split; [by eexists|]. split; vm_compute; congruence.
  - vm_compute. reflexivity.
  - apply Forall_cons. split; [exact sample_write|by apply Forall_nil].
  - vm_compute. reflexivity.
  - vm_compute. discriminate.
  - reflexivity.
Defined.
