(* ===== verification/PrimaryStart.v ===== *)
(** How a primary starts a synchronisation, src/replication/replication.c: the answer to
    PSYNC, with the snapshot it saves and the identifier it draws.  The definitions are
    those of Replication. *)

From Stdlib Require Import ZArith Lia.
From S2P Require Import Prelude Runtime RbEngine Engine Codec ArrayEngine HashEngine SkipList Kvengine Buffer Os Rdma MappedFile Aof SnapshotIo SnapshotFormat SnapshotStore SnapshotLoad Kvstore RepState Execute Server Replication ReplicationLines ReplicaSync ReplicaFollow PrimarySync.

(** * Identifiers *)

Lemma hex_digit v : 0 ≤ v < 16 → ∃ a, znth hex v = Some a ∧ is_hex a = true.
Proof.
  intros Hv. destruct (znth hex v) as [a|] eqn:E.
  - exists a. split; [done|]. assert (Forall (λ a, is_hex a = true) hex) as Hall by (repeat (apply Forall_cons; split; [reflexivity|]); by apply Forall_nil).
    unfold znth in E. rewrite (proj2 (Z.ltb_ge v 0)) in E by lia. exact (Forall_lookup_1 _ _ _ _ Hall E).
  - exfalso. revert E. unfold znth. rewrite (proj2 (Z.ltb_ge v 0)) by lia. intros E%lookup_ge_None. change (List.length hex) with 16%nat in E. lia.
Qed.

Lemma hex_pairs (b : bytes) : ∃ text, mjoin <$> mapM (λ c, a ← znth hex (uchar c / 16); b ← znth hex (uchar c mod 16); Some [a; b]) b = Some text ∧
  zlen text = 2 * zlen b ∧ Forall (λ c, is_hex c = true) text.
Proof.
  induction b as [|c b (text & E & Hl & Hh)]; [by exists []|]. pose proof (uchar_range c).
  destruct (hex_digit (uchar c / 16)) as (x & Ex & Hx); [split; [apply Z.div_pos; lia|apply Z.div_lt_upper_bound; lia]|].
  destruct (hex_digit (uchar c mod 16)) as (y & Ey & Hy); [apply Z.mod_pos_bound; lia|].
  exists (x :: y :: text). destruct (mapM _ b) as [xs|] eqn:Exs; [|done]. cbn in E. injection E as <-.
  cbn. rewrite Ex. cbn. rewrite Ey. cbn. rewrite Exs. cbn. split; [done|]. split; [|by repeat constructor].
  change (zlen (x :: y :: mjoin xs) = 2 * zlen (c :: b)). rewrite !zlen_cons, Hl. lia.
Qed.

Lemma hex_text_ok {V} (b : bytes) (v : V) : zlen b = 20 → ∃ text, id_ok text ∧
  deref (mjoin <$> mapM (λ c, a ← znth hex (uchar c / 16); b ← znth hex (uchar c mod 16); Some [a; b]) b) v = Ok text v.
Proof. intros Hb. destruct (hex_pairs b) as (text & E & Hl & Hh). exists text. rewrite E. split; [|done]. split; [rewrite Hl, Hb; done|done]. Qed.

Section random.
Context `{OsLaws D}.
Implicit Types (d : D) (received : bytes).

Lemma random_loop_spec fuel received d :
  zlen received ≤ 20 → (Z.to_nat (20 - zlen received) + interruptions d < fuel)%nat →
  wp (random_loop fuel received) d (λ r d', keeps_health d d' ∧ os_same d d' ∧
    match r with Some b => zlen b = 20 | None => ¬ healthy d end).
Proof.
  revert received d. induction fuel as [|fuel IH]; intros received d Hl Hf; [lia|]. cbn [random_loop].
  change (KVS_REPLICATION_ID_HEX_LENGTH / 2) with 20. destruct (Z.ltb_spec (zlen received) 20).
  2:{ apply wp_ret. split; [by intros ?|]. split; [apply os_same_refl|]. lia. }
  eapply wp_step; [apply getrandom_law; lia|]. intros [r eintr] d1 (Hk & Hs & Hr).
  destruct r as [[|c b]|].
  - apply wp_ret. split; [done|]. split; [done|]. intros Hh. by apply Hr.
  - destruct Hr as (Hle & _ & Hint). pose proof (zlen_nonneg b). assert (0 < zlen (c :: b)) as Hpos by (rewrite zlen_cons; lia).
    eapply wp_mono; [apply IH; rewrite zlen_app; lia|]. intros r d2 (Hk2 & Hs2 & Hr2). split; [unfold keeps_health in *; auto|].
    split; [by eapply os_same_trans|]. destruct r; [done|]. intros Hh. by apply Hr2, Hk.
  - destruct Hr as [Hh Hi]. destruct eintr.
    + eapply wp_mono; [apply IH; specialize (Hi eq_refl); lia|]. intros r d2 (Hk2 & Hs2 & Hr2). split; [unfold keeps_health in *; auto|].
      split; [by eapply os_same_trans|]. by destruct r.
    + by apply wp_ret.
Qed.
End random.

Section start.
Context `{CRuntimeLaws RT} `{OsLaws D} `{RdmaLaws T} {Ea Er Eh Es : Type}
  `{!Engine RT Ea} `{!Engine RT Er} `{!Engine RT Eh} `{!Engine RT Es}
  `{!EngineLaws RT Ea} `{!EngineLaws RT Er} `{!EngineLaws RT Eh} `{!EngineLaws RT Es}.
Notation engines := (kv_engines Ea Er Eh Es).
Notation W := (server RT D engines).
Notation N := (node RT D engines T).
Notation LOG := KVS_REPLICATION_PRIMARY_AOF_PATH.
Notation SNAPSHOT := KVS_REPLICATION_PRIMARY_SNAPSHOT_PATH.
Notation reader n := (rm_aof_reader (nd_rep n)).
Notation snap_reader n := (rm_snapshot_reader (nd_rep n)).
Implicit Types (n : N) (w : W) (d : D) (f snap : bytes).

Lemma step_generate_id {X} n (k : option bytes → M N X) Q G :
  (∀ id d, keeps_health (node_disk n) d → os_same (node_disk n) d → id_ok id → wpx (k (Some id)) (node_put_os d n) Q G) →
  (∀ d, ¬ healthy (node_disk n) → wpx (k None) (node_put_os d n) Q G) →
  wpx (kvs_replication_generate_id ≫= k) n Q G.
Proof.
  intros Hok Hno. unfold kvs_replication_generate_id. rewrite !wpx_bind_assoc.
  eapply (step_files _ _ _ (λ x d, x = interruptions (node_disk n) ∧ d = node_disk n)); [done|]. intros ? ? [-> ->].
  rewrite !wpx_bind_assoc. eapply step_files; [apply (random_loop_spec _ [] (node_disk n)); [done|]|].
  { change (zlen ([] : bytes)) with 0. change (KVS_REPLICATION_ID_HEX_LENGTH / 2) with 20. lia. }
  intros [b|] d (Hk & Hs & Hb).
  - destruct (hex_text_ok b (node_put_os d (node_put_os (node_disk n) n)) Hb) as (text & Hid & E). unfold hex_text.
    rewrite !wpx_bind_assoc. eapply wpx_eq; [exact E|]. eapply wpx_eq; [done|]. node_simpl. by apply Hok.
  - eapply wpx_eq; [done|]. node_simpl. by apply Hno.
Qed.

(** A primary with no synchronisation in progress; its log is [f]. *)
Definition idle own F f n : Prop :=
  let m := nd_rep n in let w := nd_server n in
  rm_initialized m = true ∧ rm_role m = KVS_ROLE_PRIMARY ∧ id_ok (rm_replication_id m) ∧ rm_snapshot_connection_fd m < 0 ∧
  rm_rdma_sync m = rdma_sync_zero ∧ rm_rdma_cleanup_connection m = None ∧ 0 < rm_rdma_port m ≤ 65535 ∧
  sr_fd (snap_reader n) < 0 ∧ rd_fd (reader n) < 0 ∧
  engines_wf (sv_engines w) ∧ owns (own ++ engines_owned (sv_engines w)) F (heap w) ∧
  zlen f ≤ INT64_MAX ∧ aof_log (sv_io w) f ∧ (f = [] ∨ head f = Some STAR) ∧
  ∃ i, os_fds (node_disk n) !! aw_fd (p_aof (sv_io w)) = Some i ∧ log_inode (node_disk n) i f.

(** The reply announces a snapshot of the data set at the end of the log, which the
    primary is about to send. *)
Definition announces own F fd f cap n line n' : Prop :=
  let c := Checkpoint 1 (zlen f) in
  ∃ snap sync_id, let a := FullResync (rm_replication_id (nd_rep n)) (zlen f) (zlen snap) (rm_rdma_port (nd_rep n)) sync_id in
  snapshot_text c (engine_records (sv_engines (nd_server n))) snap ∧
  line = fullresync_line (rm_replication_id (nd_rep n)) (zlen f) (zlen snap) (rm_rdma_port (nd_rep n)) sync_id ∧ zlen line < cap ∧
  (∃ frame, line = frame ++ crlf ∧ scan_fullresync frame = Some (a (zlen frame)) ∧ bad_fullresync (a (zlen frame)) frame = false) ∧
  sending fd f snap (rdma_submitted (nd_rdma n)) n' ∧ rm_replication_offset (nd_rep n') = zlen f ∧ rm_full_sync_id (nd_rep n') = sync_id ∧
  sv_engines (nd_server n') = sv_engines (nd_server n) ∧ owns (own ++ engines_owned (sv_engines (nd_server n))) F (heap (nd_server n')).

Lemma image_head c es : head (snapshot_image (RT := RT) (Ea := Ea) (Er := Er) (Eh := Eh) (Es := Es) c es) = Some (byte_of_Z 57).
Proof. reflexivity. Qed.

Lemma fullresync_line_frame id offset size port sync_id :
  fullresync_line id offset size port sync_id = fullresync_frame id offset size port sync_id ++ crlf.
Proof. unfold fullresync_line, fullresync_frame. by rewrite <- !app_assoc. Qed.

(** The image is no log. *)
Lemma image_not_log f c es : (f = [] ∨ head f = Some STAR) → snapshot_image (RT := RT) (Ea := Ea) (Er := Er) (Eh := Eh) (Es := Es) c es ≠ f.
Proof. intros [->|Hf] E; pose proof (image_head c es) as Hi; rewrite E in Hi; [done|]. by rewrite Hf in Hi. Qed.

Lemma print_lld_length v : 0 ≤ v ≤ INT64_MAX → zlen (print_lld v) ≤ 21.
Proof.
  intros Hv. unfold print_lld. rewrite (proj2 (Z.ltb_ge v 0)) by lia. assert (v ≤ SIZE_MAX) by (unfold SIZE_MAX, INT64_MAX in *; lia).
  destruct (write_decimal_text v) as [_ ->]; [lia|]. apply decimal_digits_spec. lia.
Qed.

Lemma fullresync_line_length id offset size port sync_id : id_ok id → id_ok sync_id → 0 ≤ offset ≤ INT64_MAX → 0 ≤ size ≤ INT64_MAX →
  0 ≤ port ≤ INT64_MAX → zlen (fullresync_line id offset size port sync_id) < 256.
Proof.
  intros [Hid _] [Hsid _] Ho Hs Hp. pose proof (print_lld_length _ Ho). pose proof (print_lld_length _ Hs). pose proof (print_lld_length _ Hp).
  unfold fullresync_line. rewrite !zlen_app, Hid, Hsid. change (zlen (lit "FULLRESYNC_RDMA ")) with 16. change (zlen (lit " ")) with 1.
  change (zlen crlf) with 2. change KVS_REPLICATION_ID_HEX_LENGTH with 40. lia.
Qed.

Lemma image_pos c es : 0 < zlen (snapshot_image (RT := RT) (Ea := Ea) (Er := Er) (Eh := Eh) (Es := Es) c es).
Proof.
  pose proof (image_head c es) as Hi. destruct (snapshot_image c es) as [|x l]; [done|]. rewrite zlen_cons. pose proof (zlen_nonneg l). lia.
Qed.

(** The state in which the snapshot is announced: [rd] is open on it at the file [j]. *)
Lemma announced_sending fd f snap base n m d i j sync_id :
  0 ≤ fd → zlen f ≤ INT64_MAX → 0 ≤ aw_fd (p_aof (sv_io (nd_server n))) → aw_initialized (p_aof (sv_io (nd_server n))) = true →
  aw_offset (p_aof (sv_io (nd_server n))) = zlen f → os_fds (node_disk n) !! aw_fd (p_aof (sv_io (nd_server n))) = Some i →
  os_fds (node_disk n) !! sr_fd (rm_snapshot_reader m) = None → os_fds d = <[sr_fd (rm_snapshot_reader m) := j]> (os_fds (node_disk n)) →
  log_inode d i f → sends_file (rm_snapshot_reader m) d snap → sr_position (rm_snapshot_reader m) = 0 → snap ≠ f →
  rm_initialized m = true → rm_role m = KVS_ROLE_PRIMARY → rm_rdma_sync m = rdma_sync_zero → rm_aof_reader m = AofReader (-1) 0 0 →
  rm_full_sync_id m = sync_id → rm_replication_offset m = zlen f → rm_snapshot_file_size m = zlen snap → rm_snapshot_connection_fd m = fd →
  rm_state m = KVS_REPLICATION_STATE_FULL_SYNC → rdma_submitted (nd_rdma n) = base →
  sending fd f snap base (put_manager m (node_put_os d n)).
Proof.
  intros Hfd Hmax Hafd Hini Hoff Hi Hfree Ef Hlog Hfile Hpos Hne Hm1 Hm2 Hm3 Hm4 Hm5 Hm6 Hm7 Hm8 Hm9 Hbase.
  assert (os_fds d !! aw_fd (p_aof (sv_io (nd_server n))) = Some i) as Hi' by (rewrite Ef, lookup_insert_ne; [done|congruence]).
  pose proof (zlen_nonneg f). pose proof (zlen_nonneg snap).
  assert (serving fd f (put_manager m (node_put_os d n))) as Hserv.
  { do 2 (split; [done|]). split; [done|]. split; [done|]. split; [done|]. split.
    - split_and!; [done..|]. unfold fd_file. cbn. rewrite Hi'. cbn. by destruct Hlog.
    - exists i. by split. }
  split; [done|]. split; [done|]. split; [cbn; by rewrite Hm4|]. split; [cbn; lia|]. split; [done|]. cbn -[take Z.to_nat]. rewrite Hm3.
  split; [done|]. split; [done|]. split; [by exists []; rewrite app_nil_r|]. cbn. split; [done|]. split; [done|].
  rewrite Hi'. intros Ej. destruct Hfile as (_ & Hfile & _). unfold fd_file in Hfile. rewrite Ej in Hfile. cbn in Hfile. destruct Hlog as [_ Hd]. congruence.
Qed.

Lemma answer_psync_spec own F fd f cap n :
  let c := Checkpoint 1 (zlen f) in let es := sv_engines (nd_server n) in
  idle own F f n → c_strings es → zlen (snapshot_image c es) ≤ INT64_MAX →
  healthy (node_disk n) → 0 ≤ fd → 0 < cap ≤ INT_MAX →
  wpx (answer_psync fd cap) n (λ reply n', match reply with
    | Some line => announces own F fd f cap n line n'
    | None => True
    end ∧ (roomy (heap (nd_server n)) → all_fit es → 256 ≤ cap → reply ≠ None)) (λ _, False).
Proof.
  intros c es (Hini & Hrole & Hid & Hsc & Hsync & Hclean & Hport & Hsr & Hrd & Hwf & Ho & Hmax & Hlog & Hhead & i & Hi & Hino) Hcs Hsz Hh Hfd Hcap.
  unfold answer_psync. apply step_manager. rewrite Hini, (bool_decide_eq_false_2 (rm_role (nd_rep n) ≠ KVS_ROLE_PRIMARY)) by (rewrite Hrole; by intros []).
  rewrite (bool_decide_eq_false_2 (rm_replication_id (nd_rep n) = [])) by (destruct Hid as [Hl _]; intros E; by rewrite E in Hl).
  rewrite Hsync, Hclean, (proj2 (Z.leb_gt 0 _)), !bool_decide_eq_false_2 by (done || by intros []). cbn [negb orb]. apply step_offset.
  assert (kvs_aof_get_offset (sv_io (nd_server n)) = zlen f) as ->.
  { destruct Hlog as (Hp & _ & Hoff & _). unfold kvs_aof_get_offset. by rewrite (proj2 (Z.ltb_ge _ 0)). }
  pose proof (zlen_nonneg f). rewrite (proj2 (Z.ltb_ge (zlen f) 0)) by done. eapply wpx_eq; [done|]. cbv beta.
  assert (checkpoint_valid c) as Hc by (right; cbn; lia).
  eapply (step_server _ _ _ (λ r w', ∃ io', w' = put_io io' (nd_server n) ∧
    save_post (own ++ engines_owned es) F (sv_io (nd_server n)) es c SNAPSHOT r io') (λ _, False)).
  { unfold on_io. apply wpx_zoom, wp_wpx. eapply wp_mono; [by apply (save_spec es (sv_io (nd_server n)) SNAPSHOT (Some c) (own ++ engines_owned es) F)|].
    intros r io' Hs. by exists io'. }
  2:{ done. }
  intros r w' (io' & -> & Hsave). pose proof Hsave as (Ho' & Hr' & Hk' & Ha' & Hfds' & Hdk & Hrc & Hst & Hnames & Hgood).
  assert (roomy (heap (nd_server n)) → all_fit es → r = 0) as Hzero by (intros; apply Hgood; done).
  destruct Hrc as [-> | ->]; cbn [Z.ltb Z.compare]; [|apply wpx_ret; split; [done|]; intros Hro Hfit; by specialize (Hzero Hro Hfit)].
  destruct Hst as [(Hfit & Hat & _)|[? _]]; [|done]. set (snap := snapshot_image c es) in *. set (n1 := put_server _ n).
  assert (snap ≠ f) as Hne by (by apply image_not_log). assert (0 < zlen snap) as Hpos by apply image_pos.
  assert (healthy (node_disk n1)) as Hh1 by (by apply Hk').
  eapply step_files; [apply stat_law|]. intros st d2 (Hk2 & (En2 & Ed2 & Ef2) & Hst2). change (p_os (sv_io (nd_server n1))) with (p_os io') in *.
  destruct st as [[[] size]|]; [|congruence|by rewrite Hst2 in Hat]. destruct Hst2 as (f' & Hf' & ->). assert (f' = snap) as -> by congruence.
  rewrite (proj2 (Z.leb_gt _ 0)) by done.
  apply step_close_snapshot_reader. intros d3 (Hk3 & En3 & Ed3 & Ef3). rewrite (proj2 (Z.leb_gt 0 _)) in Ef3 by done.
  apply step_close_aof_reader. intros d4 (Hk4 & En4 & Ed4 & Ef4). rewrite (proj2 (Z.leb_gt 0 _)) in Ef4 by done. apply step_manager.
  rewrite !rep_put_manager. node_simpl. assert (healthy d4) as Hh4 by exact (Hk4 (Hk3 (Hk2 Hh1))).
  assert (os_names d4 = os_names (p_os io')) as En by exact (eq_trans En4 (eq_trans En3 En2)).
  assert (os_data d4 = os_data (p_os io')) as Ed by exact (eq_trans Ed4 (eq_trans Ed3 Ed2)).
  assert (os_fds d4 = os_fds (node_disk n)) as Ef by exact (eq_trans Ef4 (eq_trans Ef3 (eq_trans Ef2 Hfds'))).
  assert (file_at d4 SNAPSHOT = Some snap) as Hat4 by (unfold file_at in *; by rewrite En, Ed).
  eapply step_files; [apply snapshot_reader_open_spec; done|]. intros [r rd] d5 (Hk5 & En5 & Ed5 & Hzero5 & Hr5). apply step_put.
  change (p_os (sv_io (nd_server (put_manager (set_aof_reader (AofReader (-1) 0 0) (set_snapshot_reader reader_closed (nd_rep n1))) (node_put_os d4 n1))))) with d4 in *.
  destruct Hr5 as [(-> & (j & (Hrd5 & Hfree5 & Ef5)) & Hp5 & Hrem5 & (f5 & Hfile5 & Hf5))|(-> & _)]; [|specialize (Hzero5 Hh4 ltac:(by exists snap)); done].
  assert (f5 = snap) as ->.
  { unfold file_at in Hf5, Hat4. destruct (os_names d4 !! SNAPSHOT); [|done]. specialize (Hf5 ltac:(by eexists)). congruence. }
  cbn [Z.ltb Z.compare]. node_simpl. apply step_generate_id; [|intros d6 Hno; exfalso; by apply Hno, Hk5].
  intros sync_id d6 Hk6 (En6 & Ed6 & Ef6) Hsid. do 5 apply step_put. apply step_manager. node_simpl.
  match goal with |- wpx _ (put_manager ?x _) _ _ => set (m := x) end.
  rewrite print_line_cases. apply wpx_ret. change (rm_replication_id m) with (rm_replication_id (nd_rep n)).
  change (rm_replication_offset m) with (zlen f). change (rm_snapshot_file_size m) with (zlen snap). change (rm_rdma_port m) with (rm_rdma_port (nd_rep n)).
  change (rm_full_sync_id m) with sync_id. set (line := fullresync_line _ _ _ _ _).
  assert (zlen line < 256) as Hline by (apply fullresync_line_length; try done; unfold INT64_MAX in *; lia).
  rewrite (proj2 (Z.leb_le _ INT_MAX)), andb_true_r by (unfold INT_MAX; lia).
  destruct (Z.ltb_spec (zlen line) cap); [split; [|done]|split; [done|intros _ _ ?; lia]].
  destruct (fullresync_scanned (rm_replication_id (nd_rep n)) (zlen f) (zlen snap) (rm_rdma_port (nd_rep n)) sync_id) as [Hscan Hgood2]; try done.
  exists snap, sync_id. intros a. split; [by apply (snapshot_image_text c)|]. split; [done|]. split; [done|].
  split; [eexists; split; [apply fullresync_line_frame|by split]|]. split; [|split; [done|split; [done|split; [done|exact Ho']]]].
  destruct Hlog as (Hafd & Hini2 & Hoff & _). destruct Hino as [Hni Hdi].
  assert (sends_file rd d6 snap) as Hfile6.
  { destruct Hfile5 as (? & Hx & ?). split; [done|]. split; [|done]. unfold fd_file in *. by rewrite Ef6, Ed6. }
  apply (announced_sending fd f snap _ n1 m d6 i j sync_id); try done.
  - cbn. by rewrite Ha'.
  - cbn. by rewrite Ha'.
  - cbn. by rewrite Ha'.
  - change (os_fds (p_os io') !! aw_fd (p_aof io') = Some i). by rewrite Ha', Hfds'.
  - change (os_fds (p_os io') !! sr_fd rd = None). rewrite <- (eq_trans Ef (eq_sym Hfds')). done.
  - change (os_fds d6 = <[sr_fd rd := j]> (os_fds (p_os io'))). etransitivity; [exact Ef6|]. etransitivity; [exact Ef5|].
    by rewrite (eq_trans Ef (eq_sym Hfds')).
  - split.
    + rewrite (eq_trans En6 (eq_trans En5 En)), Hnames by done. done.
    + rewrite (eq_trans Ed6 (eq_trans Ed5 Ed)). by apply Hdk.
Qed.

(** One frame of a replica's control connection. *)
Definition frame_answered own F fd f frame cap n (r : Z) out n' : Prop :=
  if bool_decide (frame = lit "PSYNC ? -1") then
    (r = zlen out ∧ announces own F fd f cap n out n' ∨ r = -1 ∧ out = []) ∧
    (roomy (heap (nd_server n)) → all_fit (sv_engines (nd_server n)) → 256 ≤ cap → r ≠ -1)
  else
    let reply := if bool_decide (frame = lit "PING") then pong_line else unknown_line in
    n' = n ∧ if zlen reply <? cap then r = zlen reply ∧ out = reply else r = -1 ∧ out = [].

Lemma frame_spec own F fd f frame cap n :
  let c := Checkpoint 1 (zlen f) in let es := sv_engines (nd_server n) in
  idle own F f n → c_strings es → zlen (snapshot_image c es) ≤ INT64_MAX →
  healthy (node_disk n) → 0 ≤ fd → 0 < cap ≤ INT_MAX → frame ≠ [] →
  wpx (kvs_replication_frame_protocol fd frame cap) n (λ '(r, out) n', frame_answered own F fd f frame cap n r out n') (λ _, False).
Proof.
  intros c es Hidle Hcs Hsz Hh Hfd Hcap Hne. unfold kvs_replication_frame_protocol, frame_answered.
  assert (0 < zlen frame) by (destruct frame; [done|rewrite zlen_cons; pose proof (zlen_nonneg frame); lia]).
  rewrite (proj2 (Z.ltb_ge fd 0)), (proj2 (Z.leb_gt (zlen frame) 0)), (proj2 (Z.leb_gt cap 0)) by lia. cbn [orb].
  assert (∀ text, zlen text ≤ INT_MAX → wpx (print_line cap text ≫= λ line, match line with Some t => mret (zlen t, t) | None => mret (-1, []) end) n
    (λ '(r, out) n', n' = n ∧ if zlen text <? cap then r = zlen text ∧ out = text else r = -1 ∧ out = []) (λ _, False)) as Hline.
  { intros text Ht. rewrite print_line_cases, (proj2 (Z.leb_le _ INT_MAX)), andb_true_r by done. eapply wpx_eq; [done|]. cbv beta.
    destruct (zlen text <? cap); by apply wpx_ret. }
  destruct (bool_decide_reflect (frame = lit "PING")) as [->|Hping].
  { rewrite bool_decide_eq_false_2 by done. by apply Hline. }
  destruct (bool_decide_reflect (frame = lit "PSYNC ? -1")) as [->|Hpsync]; [|by apply Hline].
  eapply wpx_stepx; [by apply (answer_psync_spec own F fd f cap n)|]. intros [line|] n' [Ha Hr]; apply wpx_ret.
  - split; [by left|]. intros _ _ _. pose proof (zlen_nonneg line). lia.
  - split; [by right|]. intros Hro Hfit Hc. by destruct (Hr Hro Hfit Hc).
Qed.
End start.

(** * Theorem *)

(** C20: a primary with no synchronisation in progress answers PING with PONG, and PSYNC with
    a line that a replica reads as the announcement of its identifier, the length of its
    log, its RDMA port, a fresh identifier of 40 hexadecimal digits and the size of a
    snapshot, which is the image of its data set at that point of the log; that snapshot
    is open and the sending of it starts.  It succeeds when there is memory and the data
    fits the format; any other frame is refused with a line and changes nothing. *)
Theorem psync_announces `{CRuntimeLaws RT} `{OsLaws D} `{RdmaLaws T} {Ea Er Eh Es : Type}
  `{!Engine RT Ea} `{!Engine RT Er} `{!Engine RT Eh} `{!Engine RT Es}
  `{!EngineLaws RT Ea} `{!EngineLaws RT Er} `{!EngineLaws RT Eh} `{!EngineLaws RT Es}
  own F fd (f frame : bytes) cap (n : node RT D (kv_engines Ea Er Eh Es) T) :
  let c := Checkpoint 1 (zlen f) in let es := sv_engines (nd_server n) in
  idle own F f n → c_strings es → zlen (snapshot_image c es) ≤ INT64_MAX →
  healthy (node_disk n) → 0 ≤ fd → 0 < cap ≤ INT_MAX → frame ≠ [] →
  wpx (kvs_replication_frame_protocol fd frame cap) n (λ '(r, out) n', frame_answered own F fd f frame cap n r out n') (λ _, False).
Proof. apply frame_spec. Qed.

Definition idle_node (es : demo_engines) (r : heap_rt) : demo_node :=
  let m := ReplicationManager KVS_ROLE_PRIMARY (Some 2) rdma_sync_zero None 4000 0 0 (-1) reader_closed (AofReader (-1) 0 0) writer_closed (-1)
    (replicate 40 (byte_of_Z 97)) [] [] 0 (-1) None None KVS_REPLICATION_STATE_DISCONNECTED true in
  Node (Server (PWorld r log_disk (AofWriter 3 0 true)) es KVS_ROLE_PRIMARY KVS_PERSISTENCE_AOF (link_of m)) m (Script [] [] [] [] true).

Lemma psync_announces_witness : ∃ n : demo_node, idle [] ∅ [] n ∧ engine_records (sv_engines (nd_server n)) = sample_records ∧
  roomy (heap (nd_server n)) ∧ all_fit (sv_engines (nd_server n)) ∧
  wpx (kvs_replication_frame_protocol 9 (lit "PSYNC ? -1") 1024) n (λ '(r, out) n',
    frame_answered [] ∅ 9 [] (lit "PSYNC ? -1") 1024 n r out n') (λ _, False).
Proof.
  destruct loaded_engines as (es & r & Hwf & Ho & Hh & He & Hro). destruct (loaded_records es Hh He) as (Hr & Hc & Hfit).
  exists (idle_node es r). assert (idle [] ∅ [] (idle_node es r)) as Hidle.
  { do 2 (split; [done|]). split; [split; [reflexivity|by apply Forall_replicate]|]. split; [cbn; lia|]. do 2 (split; [done|]).
    split; [cbn; lia|]. do 2 (split; [cbn; lia|]). split; [exact Hwf|]. split; [exact Ho|]. split; [vm_compute; discriminate|].
    split; [by split_and!|]. split; [by left|]. exists 0. by split_and!. }
  split; [exact Hidle|]. split; [exact Hr|]. split; [exact Hro|]. split; [exact Hfit|].
  refine (psync_announces [] ∅ 9 [] (lit "PSYNC ? -1") 1024 (idle_node es r) Hidle Hc _ _ _ _ _).
  - change (zlen (snapshot_image (Checkpoint 1 (zlen ([] : bytes))) es) ≤ INT64_MAX). unfold snapshot_image, snapshot_payload. rewrite Hr. vm_compute. discriminate.
  - reflexivity.
  - lia.
  - split; vm_compute; congruence.
  - discriminate.
Defined.
