(* ===== verification/Main.v ===== *)
(** The server process, src/kvstore.c: [kvs_server_run] and [main].

    A run recovers the data set, starts replication and the network service, and shuts
    down in the reverse order; every failure on the way gives back what was taken.  The
    handlers of connections are those of Kvstore and Replication, with the output array
    in the buffer of the connection.  The scheduler is that of Listen: while it runs the
    coroutines change the node in steps of a relation [others].  Messages on standard
    error are left out. *)

From Stdlib Require Import ZArith Lia.
From S2P Require Import Prelude Runtime RbEngine Engine Codec ArrayEngine HashEngine SkipList Allocator PoolSteps PoolRuntime Kvengine Buffer Os Rdma MappedFile Aof SnapshotIo SnapshotFormat SnapshotStore SnapshotLoad Kvstore RepState Execute Server Config Network Listen Clients Replication ReplicationLines ReplicaSync ReplicaFollow PrimarySync PrimaryStart.

Definition EXIT_FAILURE : Z := 1.

(** * Definitions *)

Section ops.
Context `{CRuntime RT} `{Os D} `{Rdma T} {Ea Er Eh Es : Type}
  `{!Engine RT Ea} `{!Engine RT Er} `{!Engine RT Eh} `{!Engine RT Es} `{!Inet}.
Notation engines := (kv_engines Ea Er Eh Es).
Notation W := (server RT D engines).
Notation V := (node RT D engines T).
Context {N : Type} `{!Net N V} `{!Service N V}.
Notation P := (N * V)%type.

#[export] Instance node_heap : HasHeap V RT := {| heap_of n := heap (nd_server n); set_heap h n := put_server (with_heap h (nd_server n)) n |}.

Definition on_node {X} (m : M V X) : M P X := on_state m.

(** [kvs_network_protocol] as the handler of a connection of a node. *)
Definition node_client_handler : msg_handler (V := V) := λ _ msg response, on_server (kvs_network_protocol msg response).

(** A handler that fills the output array from its start. *)
Definition array_handler (h : Z → bytes → kvs_output_buffer_t → M V (Z * bytes * Z)) : msg_handler (V := V) := λ fd msg response,
  '(r, out, consumed) ← h fd msg response;
  mret (r, OutputBuffer ((λ '(p, block), (p, store 0 (Some <$> out) block)) <$> o_data response) (o_length response) (o_offset response) (o_capacity response), consumed).

(** The engines are destroyed. *)
Definition release_engines : M V unit :=
  on_server (on_engines (λ es, es ← on_rt (dest_kvengine es); mret (tt, es))).

Definition client_listener (config : kvs_config_t) : kvs_listener_config_t V :=
  ListenerConfig (service_port config) (Some node_client_handler) None (Some (bind_ip config)) None None None.
Definition primary_listener (config : kvs_config_t) : kvs_listener_config_t V :=
  ListenerConfig (service_port config) (Some node_client_handler) None (Some (bind_ip config))
    (Some (array_handler kvs_replication_network_protocol)) (Some kvs_replication_stream) (Some kvs_replication_on_replica_disconnected).

(** The connector that [kvs_replication_build_connector_config] describes. *)
Definition upstream_connector (c : Replication.kvs_connector_config_t) : Listen.kvs_connector_config_t V :=
  Listen.ConnectorConfig (Some (cc_host c)) (cc_port c) (Some (cc_open_handler c)) (Some (array_handler (cc_message_handler c)))
    (Some (cc_stream_handler c)) (Some (cc_close_handler c)).

(** The start of replication. *)
Definition start_replication (config : kvs_config_t) : M V Z :=
  if bool_decide (cfg_role config = KVS_ROLE_PRIMARY) || bool_decide (cfg_role config = KVS_ROLE_REPLICA) then
    kvs_replication_init (cfg_role config) (Some (primary_host config)) (primary_port config)
      (Some kvs_install_replication_snapshot) (Some kvs_replication_command_protocol)
  else mret 0.

(** The network service of each role; [None] when the server gives up before it. *)
Definition start_network (config : kvs_config_t) : M P (option Z) :=
  match cfg_role config with
  | KVS_ROLE_PRIMARY =>
      r ← on_node (kvs_replication_start_rdma_listener (bind_ip config) (rdma_port config));
      if r <? 0 then mret None else
      r ← ntyco_start_listeners (Some [primary_listener config]) 1;
      mret (Some r)
  | KVS_ROLE_REPLICA =>
      connector ← on_node kvs_replication_build_connector_config;
      match connector with
      | None => mret (Some (-1))
      | Some connector =>
          r ← ntyco_start_runtime (Some [client_listener config]) 1 (Some [upstream_connector connector]) 1;
          mret (Some r)
      end
  | KVS_ROLE_STANDALONE =>
      r ← ntyco_start_listeners (Some [client_listener config]) 1;
      mret (Some r)
  end.

(** What every exit behind the start of replication does. *)
Definition shut_down : M V unit :=
  kvs_replication_destroy;;
  on_server kvs_close_current_persistence;;
  release_engines.

Definition configure (config : kvs_config_t) (w : W) : W :=
  Server (sv_io w) (sv_engines w) (cfg_role config) (cfg_persistence_mode config) (sv_link w).

Definition kvs_server_run (array : addr) (config : kvs_config_t) : M P Z :=
  on_node (on_server (modify (configure config)));;
  code ← on_node (on_server (kvs_server_recover array));
  match code with
  | Some code => mret code
  | None =>
      r ← on_node (start_replication config);
      if r <? 0 then
        on_node (on_server kvs_close_current_persistence);;
        on_node release_engines;;
        mret (-1)
      else
      network_ret ← start_network config;
      match network_ret with
      | None => on_node shut_down;; mret EXIT_FAILURE
      | Some network_ret => on_node shut_down;; mret (if network_ret <? 0 then -1 else 0)
      end
  end.
End ops.

(** * Recovery *)

Section recovery.
Context `{CRuntimeLaws RT} `{OsLaws D} {Ea Er Eh Es : Type}
  `{!Engine RT Ea} `{!Engine RT Er} `{!Engine RT Eh} `{!Engine RT Es}
  `{!EngineLaws RT Ea} `{!EngineLaws RT Er} `{!EngineLaws RT Eh} `{!EngineLaws RT Es}.
Notation engines := (kv_engines Ea Er Eh Es).
Notation W := (server RT D engines).
Notation logged_write := (logged_write (RT := RT) (Ea := Ea) (Er := Er) (Eh := Eh) (Es := Es)).
Notation apply_log := (apply_log (RT := RT) (Ea := Ea) (Er := Er) (Eh := Eh) (Es := Es)).
Notation snapshot_file := (snapshot_file (RT := RT) (Ea := Ea) (Er := Er) (Eh := Eh) (Es := Es)).
Notation checkpointed := (checkpointed (RT := RT) (Ea := Ea) (Er := Er) (Eh := Eh) (Es := Es)).
Implicit Types (w : W) (own : list addr) (f : bytes).

(** The log that a server opens. *)
Definition log_path (role : kvs_role_t) (mode : kvs_persistence_mode_t) : bytes :=
  match role, mode with KVS_ROLE_REPLICA, _ => lit "appendonly.aof" | _, KVS_PERSISTENCE_AOF => lit "commands.aof" | _, _ => lit "appendonly.aof" end.

(** The files hold the data set [ms], and the log [f]; a replica begins without data. *)
Definition recoverable w (ms : kv_maps) f : Prop :=
  zlen f ≤ INT64_MAX ∧
  if bool_decide (kvs_server_role w = KVS_ROLE_REPLICA) then log_file w (lit "appendonly.aof") f ∧ maps_eq ms empty_maps else
  match kvs_persistence_mode w with
  | KVS_PERSISTENCE_AOF => log_file w (lit "commands.aof") f ∧
      ∃ cmds, log_of cmds f ∧ Forall logged_write cmds ∧ apply_log cmds empty_maps = Some ms
  | KVS_PERSISTENCE_SNAPSHOT => f = [] ∧ ∃ ck, snapshot_file (disk w) (lit "snapshot.bin") ck ms
  | KVS_PERSISTENCE_LEGACY_HYBRID => log_file w (lit "appendonly.aof") f ∧
      ∃ pre g cmds ms0, f = pre ++ g ∧ checkpointed (disk w) pre ms0 ∧ log_of cmds g ∧ Forall logged_write cmds ∧ apply_log cmds ms0 = Some ms
  end.

(** No file is missing. *)
Definition files_there w : Prop :=
  if bool_decide (kvs_server_role w = KVS_ROLE_REPLICA) then is_Some (file_at (disk w) (lit "appendonly.aof")) else
  match kvs_persistence_mode w with
  | KVS_PERSISTENCE_AOF => is_Some (file_at (disk w) (lit "commands.aof"))
  | KVS_PERSISTENCE_SNAPSHOT => True
  | KVS_PERSISTENCE_LEGACY_HYBRID => is_Some (file_at (disk w) (lit "snapshot.db")) ∧ is_Some (file_at (disk w) (lit "appendonly.aof"))
  end.

Lemma recover_replica_spec array ms f own F w :
  kvs_server_role w = KVS_ROLE_REPLICA → p_aof (sv_io w) = aof_writer_closed → owns own F (heap w) →
  log_file w (lit "appendonly.aof") f → zlen f ≤ INT64_MAX → maps_eq ms empty_maps →
  wp (kvs_server_recover array) w (λ code w', started own F ms f w code w' ∧
    (roomy (heap w) → healthy (disk w) → is_Some (file_at (disk w) (lit "appendonly.aof")) → code = None)).
Proof.
  intros Hrole Ha Ho Hl Hmax Hms. unfold kvs_server_recover.
  apply (recover_init (λ code w', healthy (disk w) → is_Some (file_at (disk w) (lit "appendonly.aof")) → code = None)); [done|].
  intros w1 (Hrole1 & Hmode1 & _ & Hroom1 & Hh1) [Hd1 Ha1] Hok Hempty.
  do 2 (eapply wp_eq; [done|]; cbv beta). rewrite Hrole1, Hrole, bool_decide_eq_true_2 by done.
  fold (open_step (Ea := Ea) (Er := Er) (Eh := Eh) (Es := Es) (lit "appendonly.aof")).
  assert (log_file w1 (lit "appendonly.aof") f) as Hl1 by (unfold log_file; by rewrite Hd1).
  assert (files_intact (disk w) (disk w1)) as Hint by (rewrite Hd1; by intros ?).
  assert (maps_eq (maps w1) ms) as Hms1 by (etrans; [exact Hempty|by symmetry]).
  eapply wp_mono; [apply (open_step_spec (lit "appendonly.aof") ms f own F w w1); (done || congruence)|].
  intros code w' [Hst Hgood]. split; [done|]. intros Hro Hh Hfile. apply Hgood; [by apply Hh1|by rewrite Hd1].
Qed.

Lemma recover_spec array ms f own F w :
  p_aof (sv_io w) = aof_writer_closed → owns own F (heap w) → recoverable w ms f →
  wp (kvs_server_recover array) w (λ code w', started own F ms f w code w' ∧
    (roomy (heap w) → healthy (disk w) → files_there w → code = None)).
Proof.
  intros Ha Ho [Hmax Hf]. unfold files_there in *. destruct (bool_decide_reflect (kvs_server_role w = KVS_ROLE_REPLICA)) as [Hr|Hr].
  - destruct Hf as [Hl Hms]. by apply recover_replica_spec.
  - destruct (kvs_persistence_mode w) eqn:Hm.
    + destruct Hf as (Hl & pre & g & cmds & ms0 & -> & Hck & Hg & Hc & Happ).
      eapply wp_mono; [apply (recover_hybrid_spec array pre g cmds ms0 ms own F w); (done || congruence)|]. intros code w' [Hst Hgood]. split; [exact Hst|]. intros Hro Hh [? ?]. by apply Hgood.
    + destruct Hf as [-> [ck Hs]]. eapply wp_mono; [by apply (recover_snapshot_spec array ck ms own F w)|]. intros code w' [Hst Hgood]. split; [exact Hst|]. intros Hro Hh _. by apply Hgood.
    + destruct Hf as (Hl & cmds & Hg & Hc & Happ). by apply (recover_aof_spec array cmds f ms own F w).
Qed.
End recovery.

(** * Shutting down *)

Section run.
Context `{CRuntimeLaws RT} `{OsLaws D} `{RdmaLaws T} {Ea Er Eh Es : Type}
  `{!Engine RT Ea} `{!Engine RT Er} `{!Engine RT Eh} `{!Engine RT Es}
  `{!EngineLaws RT Ea} `{!EngineLaws RT Er} `{!EngineLaws RT Eh} `{!EngineLaws RT Es} `{!Inet}.
Notation engines := (kv_engines Ea Er Eh Es).
Notation W := (server RT D engines).
Notation V := (node RT D engines T).
Implicit Types (w : W) (v : V) (own : list addr) (f : bytes).

(** The engines are well formed and own their memory; the persistence mode is [mode]. *)
Definition running own F (mode : kvs_persistence_mode_t) v : Prop :=
  data_ok own F (nd_server v) ∧ kvs_persistence_mode (nd_server v) = mode.

(** The engines' memory is released and the log closed. *)
Definition released own F (mode : kvs_persistence_mode_t) v : Prop :=
  owns own F (heap (nd_server v)) ∧ (mode ≠ KVS_PERSISTENCE_SNAPSHOT → aw_fd (p_aof (sv_io (nd_server v))) < 0).

(** Replication changes neither the engines nor the heap. *)
Definition same_data v v' : Prop :=
  sv_engines (nd_server v') = sv_engines (nd_server v) ∧ heap (nd_server v') = heap (nd_server v) ∧
  kvs_server_role (nd_server v') = kvs_server_role (nd_server v) ∧
  kvs_persistence_mode (nd_server v') = kvs_persistence_mode (nd_server v) ∧ p_aof (sv_io (nd_server v')) = p_aof (sv_io (nd_server v)).

Lemma same_running own F mode v v' : same_data v v' → running own F mode v → running own F mode v'.
Proof. intros (E1 & E2 & _ & E3 & _) [[Hwf Ho] Hm]. unfold running, data_ok. by rewrite E1, E2, E3. Qed.

Lemma same_data_trans v1 v2 v3 : same_data v1 v2 → same_data v2 v3 → same_data v1 v3.
Proof. intros (?&?&?&?&?) (?&?&?&?&?). unfold same_data. split_and!; congruence. Qed.

(** One step behind others, of which only the data is remembered. *)
Lemma then_update {X} step (k : unit → M V X) v0 v Q G : same_data v0 v →
  (∀ v, same_data v0 v → wpx (k tt) v Q G) → wpx (update step ≫= k) v Q G.
Proof. intros Hs Hk. apply step_put, Hk. eapply same_data_trans; [exact Hs|]. by split_and!. Qed.

Lemma then_rdma {X Y} (m : M T X) (k : X → M V Y) v0 v P Q G : same_data v0 v → wp m (nd_rdma v) P →
  (∀ x v, same_data v0 v → wpx (k x) v Q G) → wpx (on_rdma m ≫= k) v Q G.
Proof. intros Hs Hm Hk. eapply step_rdma; [exact Hm|]. intros x t _. apply Hk. eapply same_data_trans; [exact Hs|]. by split_and!. Qed.

Lemma then_sync_close {X} (k : Z → M V X) v0 v Q G : same_data v0 v →
  (∀ r v, same_data v0 v → wpx (k r) v Q G) → wpx (kvs_replication_rdma_sync_close ≫= k) v Q G.
Proof.
  intros Hs Hk. apply step_sync_close; [intros t _|intros t _ _]; apply Hk; (eapply same_data_trans; [exact Hs|]); by split_and!.
Qed.

Lemma then_close {X} (k : unit → M V X) v0 v Q G : same_data v0 v →
  (∀ v, same_data v0 v → wpx (k tt) v Q G) → wpx (close_snapshot_reader;; close_aof_reader;; abort_snapshot ≫= k) v Q G.
Proof.
  intros Hs Hk. apply step_close_snapshot_reader. intros d _. apply step_close_aof_reader. intros d2 _. apply step_abort. intros d3 _ _ _ _.
  apply Hk. eapply same_data_trans; [exact Hs|]. by split_and!.
Qed.

Lemma destroy_spec v0 : wpx kvs_replication_destroy v0 (λ _ v, same_data v0 v) (λ _, False).
Proof.
  unfold kvs_replication_destroy. apply step_manager. destruct (negb (rm_initialized (nd_rep v0))); [by apply wpx_ret|].
  eapply (then_rdma _ _ v0); [done|apply connection_close_law|]. intros [r c] v Hs. eapply then_update; [exact Hs|]. clear Hs v. intros v Hs.
  destruct (r <? 0); [by apply wpx_ret|].
  eapply then_sync_close; [exact Hs|]. clear Hs v. intros r2 v Hs. destruct (r2 <? 0); [by apply wpx_ret|].
  eapply then_rdma; [exact Hs|apply listener_close_law|]. clear Hs v. intros [r3 l] v Hs. eapply then_update; [exact Hs|]. clear Hs v. intros v Hs.
  destruct (r3 <? 0); [by apply wpx_ret|].
  do 3 (eapply then_update; [exact Hs|]; clear Hs v; intros v Hs). apply then_close with (v0 := v0); [exact Hs|]. clear Hs v; intros v Hs.
  do 6 (eapply then_update; [exact Hs|]; clear Hs v; intros v Hs). apply wpx_update. eapply same_data_trans; [exact Hs|]. by split_and!.
Qed.

Lemma close_persistence_spec own F w : data_ok own F w →
  wp kvs_close_current_persistence w (λ _ w', data_ok own F w' ∧ sv_engines w' = sv_engines w ∧
    kvs_persistence_mode w' = kvs_persistence_mode w ∧ (kvs_persistence_mode w ≠ KVS_PERSISTENCE_SNAPSHOT → aw_fd (p_aof (sv_io w')) < 0)).
Proof.
  intros [Hwf Ho]. unfold kvs_close_current_persistence. apply wpx_wp. eapply wpx_eq; [done|]. cbv beta. destruct (bool_decide_reflect (kvs_persistence_mode w ≠ KVS_PERSISTENCE_SNAPSHOT)).
  - eapply (step_io _ _ _ (λ _ io, p_rt io = p_rt (sv_io w) ∧ aw_fd (p_aof io) < 0)).
    + unfold kvs_aof_close. eapply wp_eq; [done|]. cbv beta. destruct (Z.ltb_spec (aw_fd (p_aof (sv_io w))) 0); [by apply wp_ret|].
      eapply step_os; [apply uring_close_law|]. intros ? d _. eapply step_os; [by apply aof_close_file|]. intros r d2 _.
      eapply wp_eq; [done|]. apply wp_ret. split; [done|]. cbn. lia.
    + intros r io [Hrt Hfd]. apply wpx_ret. split; [split; [done|]; unfold heap; cbn; by rewrite Hrt|]. by split_and!.
  - apply wpx_ret. split; [done|]. by split_and!.
Qed.

Lemma release_spec own F v : data_ok own F (nd_server v) →
  wpx release_engines v (λ _ v', owns own F (heap (nd_server v')) ∧ p_aof (sv_io (nd_server v')) = p_aof (sv_io (nd_server v))) (λ _, False).
Proof.
  intros [Hwf Ho]. unfold release_engines, on_server. apply wpx_zoom, wp_wpx, wp_engines_io.
  eapply step_rt; [by apply (dest_spec _ own F)|]. intros es r [Ho1 _]. apply wp_ret. by split.
Qed.

Lemma close_log_spec own F mode v : running own F mode v →
  wpx (on_server kvs_close_current_persistence) v (λ _ v', data_ok own F (nd_server v') ∧
    (mode ≠ KVS_PERSISTENCE_SNAPSHOT → aw_fd (p_aof (sv_io (nd_server v'))) < 0)) (λ _, False).
Proof.
  intros [Hd <-]. unfold on_server. apply wpx_zoom, wp_wpx. eapply wp_mono; [by apply (close_persistence_spec own F)|].
  intros ? w (Hd' & _ & _ & Hfd). by split.
Qed.

Lemma release_all_spec own F mode v : data_ok own F (nd_server v) → (mode ≠ KVS_PERSISTENCE_SNAPSHOT → aw_fd (p_aof (sv_io (nd_server v))) < 0) →
  wpx release_engines v (λ _ v', released own F mode v') (λ _, False).
Proof.
  intros Hd Hfd. eapply wpx_mono; [by apply (release_spec own F)| |done]. intros ? v' [Ho Ha]. split; [done|]. by rewrite Ha.
Qed.

Lemma shut_down_spec own F mode v : running own F mode v → wpx shut_down v (λ _ v', released own F mode v') (λ _, False).
Proof.
  intros Hr. unfold shut_down. eapply wpx_stepx; [apply destroy_spec|]. intros ? v' Hs. cbv beta in Hs. eapply wpx_stepx; [apply (close_log_spec own F mode); by eapply same_running|].
  intros ? v2 [Hd Hfd]. by apply release_all_spec.
Qed.

(** ** The start of replication *)

(** Nor are the files changed. *)
Definition unchanged v v' : Prop := same_data v v' ∧ os_same (node_disk v) (node_disk v').

Lemma unchanged_refl v : unchanged v v.
Proof. split; [by split_and!|apply os_same_refl]. Qed.
Lemma unchanged_rep m v : unchanged v (put_manager m v).
Proof. split; [by split_and!|apply os_same_refl]. Qed.
Lemma unchanged_rdma t v : unchanged v (put_rdma t v).
Proof. split; [by split_and!|apply os_same_refl]. Qed.
Lemma unchanged_os d v : os_same (node_disk v) d → unchanged v (node_put_os d v).
Proof. intros Hs. split; [by split_and!|done]. Qed.
Lemma unchanged_trans v1 v2 v3 : unchanged v1 v2 → unchanged v2 v3 → unchanged v1 v3.
Proof. intros [H1' H2'] [H3' H4']. split; [by eapply same_data_trans|by eapply os_same_trans]. Qed.
#[local] Hint Resolve unchanged_refl unchanged_rep unchanged_rdma unchanged_os : kvs.
#[local] Hint Extern 3 (unchanged _ _) => (eapply unchanged_trans; [|apply unchanged_rep]) : kvs.

(** The manager behind [kvs_replication_init]. *)
Definition initial_manager (config : kvs_config_t) (id : bytes) (offset : Z) (listener : option addr) (port : Z) : kvs_replication_manager_t W :=
  let replica := bool_decide (cfg_role config = KVS_ROLE_REPLICA) in
  ReplicationManager (cfg_role config) listener rdma_sync_zero None port 0 offset (-1) reader_closed (AofReader (-1) 0 0) writer_closed (-1) id []
    (if replica then primary_host config else []) (if replica then primary_port config else 0) (-1)
    (Some kvs_install_replication_snapshot) (Some kvs_replication_command_protocol) KVS_REPLICATION_STATE_DISCONNECTED true.

(** The manager once replication was started with a log of [offset] bytes. *)
Definition replication_started (config : kvs_config_t) (offset : Z) (m : kvs_replication_manager_t W) : Prop :=
  match cfg_role config with
  | KVS_ROLE_STANDALONE => m = replication_manager_zero
  | KVS_ROLE_PRIMARY => ∃ id, id_ok id ∧ m = initial_manager config id offset None 0
  | KVS_ROLE_REPLICA => primary_host config ≠ [] ∧ primary_port config ≠ 0 ∧ m = initial_manager config [] offset None 0
  end.

Lemma step_again {X} (step : kvs_replication_manager_t W → kvs_replication_manager_t W) (k : unit → M V X) m v Q G :
  wpx (k tt) (put_manager (step m) v) Q G → wpx (update step ≫= k) (put_manager m v) Q G.
Proof. done. Qed.

Lemma start_replication_spec config v : nd_rep v = replication_manager_zero →
  wpx (start_replication config) v (λ r v', same_data v v' ∧
    (r = -1 ∨ r = 0 ∧ unchanged v v' ∧ replication_started config (kvs_aof_get_offset (sv_io (nd_server v))) (nd_rep v')) ∧
    (cfg_role config = KVS_ROLE_STANDALONE → r = 0 ∧ v' = v)) (λ _, False).
Proof.
  intros Hm. unfold start_replication.
  assert (∀ v' : V, same_data v v' → cfg_role config ≠ KVS_ROLE_STANDALONE → wpx (mret (-1)) v' (λ r v', same_data v v' ∧
    (r = -1 ∨ r = 0 ∧ unchanged v v' ∧ replication_started config (kvs_aof_get_offset (sv_io (nd_server v))) (nd_rep v')) ∧
    (cfg_role config = KVS_ROLE_STANDALONE → r = 0 ∧ v' = v)) (λ _, False)) as Hno by (intros v' Hs Hr; apply wpx_ret; split; [done|]; split; [by left|done]).
  destruct (cfg_role config) eqn:Hrole.
  - rewrite !bool_decide_eq_false_2 by done. cbn [orb]. apply wpx_ret. split; [by split_and!|]. split; [|done]. right. split; [done|]. split; [apply unchanged_refl|].
    unfold replication_started. by rewrite Hrole.
  - rewrite (bool_decide_eq_true_2 (KVS_ROLE_PRIMARY = KVS_ROLE_PRIMARY)) by done. cbn [orb]. unfold kvs_replication_init.
    apply step_manager. rewrite Hm. cbn [rm_initialized replication_manager_zero].
    rewrite (bool_decide_eq_false_2 (KVS_ROLE_PRIMARY = KVS_ROLE_REPLICA)), (bool_decide_eq_true_2 (KVS_ROLE_PRIMARY = KVS_ROLE_PRIMARY)) by done. cbn [andb].
    apply step_offset. destruct (_ <? 0); [apply Hno; [by split_and!|done]|].
    apply step_generate_id; [|intros d _; apply Hno; [by split_and!|done]].
    intros id d _ Hsame Hid. apply step_put. rewrite rep_put_os, Hm. do 10 apply step_again.
    rewrite !wpx_bind_assoc. do 2 apply step_again. apply step_again. apply wpx_ret. split; [by split_and!|]. split; [|done]. right. split; [done|]. split; [eauto with kvs|].
    unfold replication_started. rewrite Hrole. exists id. split; [done|]. unfold initial_manager. by rewrite Hrole.
  - rewrite (bool_decide_eq_true_2 (KVS_ROLE_REPLICA = KVS_ROLE_REPLICA)), orb_true_r by done. unfold kvs_replication_init.
    apply step_manager. rewrite Hm. cbn [rm_initialized replication_manager_zero default].
    rewrite (bool_decide_eq_true_2 (KVS_ROLE_REPLICA = KVS_ROLE_REPLICA)) by done. cbn [andb default].
    destruct (_ || _ || _) eqn:Hhost; [apply Hno; [by split_and!|done]|].
    apply orb_false_iff in Hhost as [Hhost _]. apply orb_false_iff in Hhost as [Hhost%bool_decide_eq_false Hport%Z.eqb_neq].
    apply step_offset. destruct (_ <? 0); [apply Hno; [by split_and!|done]|].
    rewrite (bool_decide_eq_false_2 (KVS_ROLE_REPLICA = KVS_ROLE_PRIMARY)) by done. eapply wpx_eq; [done|]. cbv beta.
    apply step_put. rewrite Hm. do 10 apply step_again.
    rewrite !wpx_bind_assoc. do 2 apply step_again. apply step_again. apply wpx_ret. split; [by split_and!|]. split; [|done]. right. split; [done|]. split; [eauto with kvs|].
    unfold replication_started. rewrite Hrole. do 2 (split; [done|]). unfold initial_manager. by rewrite Hrole.
Qed.

Lemma rdma_listener_spec ip port m v : nd_rep v = m → rm_rdma_listener m = None →
  wpx (kvs_replication_start_rdma_listener ip port) v (λ r v', unchanged v v' ∧
    (r = -1 ∨ r = 0 ∧ ∃ l, nd_rep v' = set_rdma_port port (set_rdma_listener (Some l) m))) (λ _, False).
Proof.
  intros Hm Hl. unfold kvs_replication_start_rdma_listener. apply step_manager. rewrite Hm.
  assert (∀ v' : V, unchanged v v' → wpx (mret (-1)) v' (λ r v', unchanged v v' ∧
    (r = -1 ∨ r = 0 ∧ ∃ l, nd_rep v' = set_rdma_port port (set_rdma_listener (Some l) m))) (λ _, False)) as Hno by (intros v' Hs; apply wpx_ret; split; [done|by left]).
  destruct (_ || _ || _); [apply Hno; eauto with kvs|]. rewrite Hl, bool_decide_eq_false_2 by (intros []; done).
  eapply step_rdma; [apply listener_create_law|]. intros [l|] t _; apply step_put; [|rewrite bool_decide_eq_true_2 by done; apply Hno; eauto with kvs].
  rewrite bool_decide_eq_false_2 by done. eapply step_rdma; [apply listener_start_law|]. intros r t2 [_ [-> | ->]]; cbn [Z.ltb Z.compare]; [|apply Hno; eauto with kvs].
  apply step_put. apply wpx_ret. split; [eauto with kvs|]. right. split; [done|]. exists l. cbn. by rewrite Hm.
Qed.

(** ** The whole run *)

Context {N : Type} `{!Net N V} `{!Service N V} (others : V → V → Prop) `{!ServiceLaws N V others}.
Implicit Types n : N.

Definition listeners_of (config : kvs_config_t) : list (kvs_listener_config_t V) :=
  match cfg_role config with KVS_ROLE_PRIMARY => [primary_listener config] | _ => [client_listener config] end.
Definition connectors_of (config : kvs_config_t) : list (Listen.kvs_connector_config_t V) :=
  match cfg_role config with
  | KVS_ROLE_REPLICA => [upstream_connector (Replication.ConnectorConfig (primary_host config) (primary_port config)
      kvs_replication_on_primary_connected kvs_replication_upstream_network_protocol kvs_replication_upstream_stream kvs_replication_on_primary_disconnected)]
  | _ => []
  end.

(** The manager when the network service starts. *)
Definition manager_ready (config : kvs_config_t) (offset : Z) (m : kvs_replication_manager_t W) : Prop :=
  match cfg_role config with
  | KVS_ROLE_PRIMARY => ∃ id l, id_ok id ∧ m = initial_manager config id offset (Some l) (rdma_port config)
  | _ => replication_started config offset m
  end.

(** The server holds [ms] and its log is [f]; replication is ready for its role. *)
Definition serving config own F ms f v : Prop :=
  kvs_server_role (nd_server v) = cfg_role config ∧ kvs_persistence_mode (nd_server v) = cfg_persistence_mode config ∧
  server_ok own F f (nd_server v) ∧ maps_eq (maps (nd_server v)) ms ∧
  manager_ready config (kvs_aof_get_offset (sv_io (nd_server v))) (nd_rep v).

(** What the network service of a role does. *)
Definition networked config n v (r : option Z) n' v' : Prop :=
  (same_data v v' ∧ sockets n' = sockets n ∧ (r = None ∨ r = Some (-1)) ∧
     (cfg_role config = KVS_ROLE_STANDALONE → available n → configured (listeners_of config) (connectors_of config) → False)) ∨
  r = Some 0 ∧ ∃ v1 contexts n1, unchanged v v1 ∧ manager_ready config (kvs_aof_get_offset (sv_io (nd_server v))) (nd_rep v1) ∧ rtc others v1 v' ∧
    launched (listeners_of config) (connectors_of config) n contexts n1 ∧ Forall (λ c, lc_listen_fd c ∉ sockets n') contexts.

Lemma step_on_node {X Y} (m : M V X) (k : X → M (N * V) Y) n v P (Q : Y → N * V → Prop) : wpx m v P (λ _, False) →
  (∀ x v', P x v' → wpx (k x) (n, v') Q (λ _, True)) → wpx (on_node m ≫= k) (n, v) Q (λ _, True).
Proof. unfold wpx, on_node, on_state, zoom, mbind, M_bind. cbn. intros Hm Hk. destruct (m v); [by apply Hk|done..]. Qed.

Lemma start_network_spec config n v : replication_started config (kvs_aof_get_offset (sv_io (nd_server v))) (nd_rep v) →
  wpx (start_network config) (n, v) (λ r '(n', v'), networked config n v r n' v') (λ _, True).
Proof.
  intros Hm. unfold start_network, networked, listeners_of, connectors_of, manager_ready, replication_started in *.
  assert (∀ l, ntyco_start_listeners (N := N) (V := V) (Some [l]) 1 = ntyco_start_runtime (Some [l]) (zlen [l]) (Some []) (zlen ([] : list (Listen.kvs_connector_config_t V)))) as Hstart by done.
  destruct (cfg_role config) eqn:Hrole.
  - rewrite Hstart. eapply wpx_stepx; [apply (start_runtime_spec others)|]. intros r [n' v'] [(-> & -> & Hs & Hno)|(-> & Ho & contexts & n1 & Hl & Hc)]; apply wpx_ret.
    + left. split; [by split_and!|]. split; [done|]. split; [by right|done].
    + right. split; [done|]. exists v, contexts, n1. split; [apply unchanged_refl|]. by split_and!.
  - destruct Hm as (id & Hid & Hm). eapply step_on_node; [by apply (rdma_listener_spec (bind_ip config) (rdma_port config) (nd_rep v)); [|rewrite Hm]|].
    intros r v1 [Hs1 [->|(-> & l & Hl)]]; cbn [Z.ltb Z.compare]; [apply wpx_ret; left; split; [apply Hs1|]; split; [done|]; split; [by left|done]|].
    rewrite Hstart. eapply wpx_stepx; [apply (start_runtime_spec others)|]. intros r [n' v'] [(-> & -> & Hs & Hno)|(-> & Ho & contexts & n1 & Hla & Hc)]; apply wpx_ret.
    + left. split; [apply Hs1|]. split; [done|]. split; [by right|done].
    + right. split; [done|]. exists v1, contexts, n1. split; [done|]. split; [|by split_and!]. exists id, l. split; [done|]. rewrite Hl, Hm. unfold initial_manager. done.
  - destruct Hm as (Hhost & Hport & Hm). eapply (step_on_node _ _ n v (λ c v', v' = v ∧ c = Some (Replication.ConnectorConfig (primary_host config) (primary_port config)
      kvs_replication_on_primary_connected kvs_replication_upstream_network_protocol kvs_replication_upstream_stream kvs_replication_on_primary_disconnected))).
    { unfold kvs_replication_build_connector_config. apply step_manager. rewrite Hm. unfold initial_manager. rewrite Hrole. cbn.
      rewrite !(bool_decide_eq_false_2), (proj2 (Z.eqb_neq _ 0)) by (done || by intros []). cbn [orb]. by apply wpx_ret. }
    intros c v1 [-> ->]. eapply wpx_stepx; [apply (start_runtime_spec others [client_listener config] [upstream_connector _])|].
    intros r [n' v'] [(-> & -> & Hs & Hno)|(-> & Ho & contexts & n1 & Hla & Hc)]; apply wpx_ret.
    + left. split; [by split_and!|]. split; [done|]. split; [by right|done].
    + right. split; [done|]. exists v, contexts, n1. split; [apply unchanged_refl|]. by split_and!.
Qed.

(** How a run ends: it has given everything back without serving, which does not happen
    to a server of its own when the configuration is right, no file is missing, and
    memory and system calls do not fail; or it has served. *)
Definition run_ended config own F ms f n w (code : Z) n' v' : Prop :=
  owns own F (heap (nd_server v')) ∧
  ((code = 1 ∨ code = -1) ∧ sockets n' = sockets n ∧
     (cfg_role config = KVS_ROLE_STANDALONE → roomy (heap w) → healthy (disk w) → files_there w → available n →
        configured (listeners_of config) (connectors_of config) → False) ∨
   code = 0 ∧ (cfg_persistence_mode config ≠ KVS_PERSISTENCE_SNAPSHOT → aw_fd (p_aof (sv_io (nd_server v'))) < 0) ∧
     ∃ v1 v2 contexts n1, serving config own F ms f v1 ∧ rtc others v1 v2 ∧
       launched (listeners_of config) (connectors_of config) n contexts n1 ∧ Forall (λ c, lc_listen_fd c ∉ sockets n') contexts).

Lemma run_spec array config own F ms f n v :
  let w := configure config (nd_server v) in
  nd_rep v = replication_manager_zero → p_aof (sv_io w) = aof_writer_closed → owns own F (heap w) → recoverable w ms f →
  (∀ v v', running own F (cfg_persistence_mode config) v → others v v' → running own F (cfg_persistence_mode config) v') →
  wpx (kvs_server_run array config) (n, v) (λ code '(n', v'), run_ended config own F ms f n w code n' v') (λ _, True).
Proof.
  intros w Hm Ha Ho Hf Hothers. set (mode := cfg_persistence_mode config) in *. unfold kvs_server_run.
  eapply (step_on_node _ _ n v (λ _ v', v' = put_server w v)); [done|]. intros ? v0 ->.
  eapply (step_on_node _ _ n _ (λ code v', nd_rep v' = replication_manager_zero ∧ started own F ms f w code (nd_server v') ∧
    (roomy (heap w) → healthy (disk w) → files_there w → code = None))).
  { unfold on_server. apply wpx_zoom, wp_wpx. eapply wp_mono; [by apply (recover_spec array ms f own F w)|]. intros code w1 [Hst Hgood]. split; [exact Hm|]. by split. }
  intros code v1 (Hm1 & (Hrole1 & Hmode1 & _ & Hst) & Hgood1). cbn in Hrole1, Hmode1. fold mode in Hmode1.
  destruct Hst as [(-> & Hok & Hms)|(-> & Ho1)]; cycle 1.
  { apply wpx_ret. split; [done|]. left. split; [by left|]. split; [done|]. intros _ Hro Hh Hth. by specialize (Hgood1 Hro Hh Hth). }
  assert (running own F mode v1) as Hrun1 by (split; [apply Hok|done]).
  eapply step_on_node; [by apply (start_replication_spec config v1)|]. intros r v2 (Hs2 & Hr & Hsa).
  assert (running own F mode v2) as Hrun2 by (by eapply same_running). destruct (Z.ltb_spec r 0).
  { eapply step_on_node; [by apply (close_log_spec own F mode)|]. intros ? v3 [Hd3 Hfd3].
    eapply step_on_node; [by apply (release_all_spec own F mode)|]. intros ? v4 [Ho4 _]. apply wpx_ret. split; [done|]. left. split; [by right|]. split; [done|].
    intros Hsa'. destruct (Hsa Hsa'). lia. }
  destruct Hr as [->|(-> & Hun2 & Hrep)]; [lia|].
  assert (kvs_aof_get_offset (sv_io (nd_server v2)) = kvs_aof_get_offset (sv_io (nd_server v1))) as Hoff.
  { destruct Hs2 as (_ & _ & _ & _ & Ea'). unfold kvs_aof_get_offset. by rewrite Ea'. }
  eapply wpx_stepx; [apply (start_network_spec config n v2); by rewrite Hoff|].
  assert (∀ (code : Z) n' v3, running own F mode v3 → wpx (on_node shut_down;; mret code) (n', v3) (λ r '(n2, v'), r = code ∧ n2 = n' ∧ released own F mode v') (λ _, True)) as Hshut.
  { intros code n' v3 Hr3. eapply step_on_node; [by apply (shut_down_spec own F mode)|]. intros ? v4 Hr4. apply wpx_ret. by split_and!. }
  intros r [n' v3] [(Hs3 & Hn3 & Hr3 & Hno)|(-> & v4 & contexts & n1 & Hs4 & Hrep4 & Ho4 & Hl4 & Hc4)].
  - assert (running own F mode v3) as Hrun3 by (by eapply same_running).
    assert (∃ code, (code = 1 ∨ code = -1) ∧ wpx (match r with None => on_node shut_down;; mret EXIT_FAILURE | Some network_ret => on_node shut_down;; mret (if network_ret <? 0 then -1 else 0) end)
      (n', v3) (λ r '(n2, v'), r = code ∧ n2 = n' ∧ released own F mode v') (λ _, True)) as (code & Hcode & Hw).
    { destruct Hr3 as [->| ->]; [exists 1|exists (-1)]; (split; [by auto|]); by apply Hshut. }
    eapply wpx_mono; [exact Hw| |done]. intros r2 [n2 v5] (-> & -> & Ho5 & _). split; [done|]. left. split; [done|]. split; [done|].
    intros Hsa' _ _ _. by apply Hno.
  - assert (running own F mode v4) as Hrun4 by (eapply same_running; [apply Hs4|done]).
    assert (running own F mode v3) as Hrun3.
    { clear -Hothers Hrun4 Ho4. induction Ho4 as [?|? ? ? H1' _ IH]; [done|]. apply IH. by eapply Hothers. }
    eapply wpx_mono; [by apply Hshut| |done]. intros r2 [n2 v5] (-> & -> & Ho5 & Hfd5). split; [done|]. right. split; [done|]. split; [done|].
    exists v4, v3, contexts, n1. split; [|by split_and!].
    destruct (unchanged_trans _ _ _ Hun2 Hs4) as [(Eeng & Eheap & Erole & Emode & Eaof) (_ & Edata & Efds)].
    split; [congruence|]. split; [unfold mode in *; congruence|].
    destruct Hok as ([Hwf Ho'] & Hmax & Hlog). split; [split; [|split; [done|]]|].
    + unfold data_ok. by rewrite Eeng, Eheap.
    + intros Hmode. rewrite Emode in Hmode. destruct (Hlog Hmode) as (H1' & H2' & H3' & H4'). unfold aof_log. rewrite Eaof. split_and!; try done.
      unfold fd_file in *. unfold node_disk in *. by rewrite Efds, Edata.
    + split; [unfold maps; rewrite Eeng; exact Hms|]. unfold kvs_aof_get_offset. rewrite Eaof. rewrite Hoff in Hrep4. exact Hrep4.
Qed.
End run.

(** * Clients of a node *)

Section clients.
Context `{CRuntimeLaws RT} `{OsLaws D} `{RdmaLaws T} {Ea Er Eh Es : Type}
  `{!Engine RT Ea} `{!Engine RT Er} `{!Engine RT Eh} `{!Engine RT Es}
  `{!EngineLaws RT Ea} `{!EngineLaws RT Er} `{!EngineLaws RT Eh} `{!EngineLaws RT Es}.
Notation V := (node RT D (kv_engines Ea Er Eh Es) T).
Notation key_ok := (key_ok (RT := RT) (Ea := Ea) (Er := Er) (Eh := Eh) (Es := Es)).
Implicit Types (v : V) (own : list addr) (t reply : bytes).

Definition node_held own v : Prop := held (Ea := Ea) (Er := Er) (Eh := Eh) (Es := Es) own (nd_server v).
Definition node_answered v t reply v' : Prop := answered (Ea := Ea) (Er := Er) (Eh := Eh) (Es := Es) (nd_server v) t reply (nd_server v').

(** The handler of the listeners keeps the contract of Network: what Clients proves of
    the connections of a server holds of those of a node. *)
Lemma node_message_server (others : V → V → Prop) (sends : Z → bytes → Prop) :
  (∀ own v v', node_held own v → others v v' → node_held own v') →
  (∀ fd s msg ts t, sends fd s → msg `suffix_of` s → starts_with ts t msg → well_formed ts → key_ok ts) →
  MessageServer V RT others sends node_client_handler node_held node_answered waiting.
Proof.
  intros Hothers Hkeys. assert (MessageServer (server RT D (kv_engines Ea Er Eh Es)) RT eq sends (client_handler (Ea := Ea) (Er := Er) (Eh := Eh) (Es := Es)) (held (Ea := Ea) (Er := Er) (Eh := Eh) (Es := Es)) (answered (Ea := Ea) (Er := Er) (Eh := Eh) (Es := Es)) waiting) as Hserver.
  { apply client_message_server; [|done]. by intros own w w' Hh <-. }
  split.
  - intros [[[? ? ?] ? ? ? ?] ? ?]. done.
  - intros own v Hh. destruct Hserver as [_ Hheap _ _ _]. destruct (Hheap own _ Hh) as (F & Ho & Hset). exists F. split; [exact Ho|]. intros own' h Ho'. by apply Hset.
  - exact Hothers.
  - by destruct Hserver.
  - intros fd s msg b own v Hs Hsuf Hne Hmax Hb Hh. destruct Hserver as [_ _ _ _ Hhandle]. unfold node_client_handler, on_server. apply wpx_zoom.
    eapply wpx_mono; [by apply (Hhandle fd s msg b own (nd_server v))| |done].
    intros [[r b'] c] w (Hc & Hh' & Hr). split; [exact Hc|]. split; [exact Hh'|]. destruct Hr as [?|(reply & Er' & Hrep & Hcase)]; [by left|right].
    exists reply. split; [exact Er'|]. split; [exact Hrep|]. destruct Hcase as [(-> & -> & -> & Hw)|[Hpos Ha]]; [left|by right].
    split; [done|]. split; [done|]. split; [by destruct v|exact Hw].
Qed.
End clients.

(** * The process *)

Section process.
Context `{VirtualMemoryLaws M0, !CRuntimeLaws M0} (b : kvs_allocator_backend_t).
#[local] Instance process_runtime : CRuntime (allocator M0) := allocator_runtime b.
#[local] Instance process_runtime_laws : CRuntimeLaws (allocator M0) := allocator_runtime_laws b.
Context `{OsLaws D} `{RdmaLaws T} {Ea Er Eh Es : Type}
  `{!Engine (allocator M0) Ea} `{!Engine (allocator M0) Er} `{!Engine (allocator M0) Eh} `{!Engine (allocator M0) Es}
  `{!EngineLaws (allocator M0) Ea} `{!EngineLaws (allocator M0) Er} `{!EngineLaws (allocator M0) Eh} `{!EngineLaws (allocator M0) Es} `{!Inet}.
Notation W := (server (allocator M0) D (kv_engines Ea Er Eh Es)).
Notation V := (node (allocator M0) D (kv_engines Ea Er Eh Es) T).
Context {N : Type} `{!Net N V} `{!Service N V} (others : V → V → Prop) `{!ServiceLaws N V others}.
Implicit Types (n : N) (v : V) (f : bytes).

(** [kvs_config_t config = {0}]. *)
Definition config_zero : kvs_config_t :=
  KvsConfig KVS_ROLE_STANDALONE [] 0 0 0 [] 0 KVS_LOG_ERROR KVS_PERSISTENCE_LEGACY_HYBRID KVS_ALLOCATOR_SYSTEM.

Definition backend_code (backend : kvs_allocator_backend_t) : Z :=
  match backend with KVS_ALLOCATOR_SYSTEM => 0 | KVS_ALLOCATOR_POOL => 1 end.

(** [argv] without the name of the program; [file] is what there is at the path. *)
Definition main (argv : list bytes) (file : config_file) (array : addr) : M (N * V) Z :=
  match argv with
  | [path] =>
      let '(r, config, _) := kvs_config_load (Some path) file (Some config_zero) (Some 256) in
      if r <? 0 then mret EXIT_FAILURE else
      config ← deref config;
      r ← on_net_heap (kvs_allocator_init (backend_code (cfg_allocator_backend config)));
      if negb (r =? 0) then mret EXIT_FAILURE else
      result ← kvs_server_run array config;
      r ← on_net_heap kvs_allocator_destroy;
      if negb (r =? 0) then mret EXIT_FAILURE else
      mret result
  | _ => mret EXIT_FAILURE
  end.
(** What lives beside the allocator: nothing in its own regions, or what the system's
    [malloc] had given before. *)
Definition beside (a : allocator M0) : gset addr := if is_pool b then ∅ else live (system a).

Lemma init_owns (s : allocator M0) : PoolSteps.idle s → rt_ok (system s) → vm_reliable (system s) →
  let s0 := Allocator true b no_pools None ∅ (system s) in owns [] (beside s) s0 ∧ roomy s0 = (is_pool b = false ∧ roomy (system s)).
Proof.
  intros Hidle Hok Hrel. cbv zeta. split; [|done]. split.
  - split; [apply inv_empty|]. split; [done|]. by split_and!.
  - split; [apply NoDup_nil_2|]. split; [|by intros ? ?%elem_of_nil]. rewrite list_to_set_nil, (left_id_L ∅ (∪)). cbn. unfold beside. by destruct (is_pool b).
Qed.

Lemma main_spec path file array config msg ms f n v :
  kvs_config_load (Some path) file (Some config_zero) (Some 256) = (0, Some config, msg) → cfg_allocator_backend config = b →
  let w := configure config (nd_server v) in let F := beside (heap (nd_server v)) in
  PoolSteps.idle (heap (nd_server v)) → rt_ok (system (heap (nd_server v))) → vm_reliable (system (heap (nd_server v))) →
  nd_rep v = replication_manager_zero → p_aof (sv_io w) = aof_writer_closed → recoverable w ms f →
  (∀ v v', running [] F (cfg_persistence_mode config) v → others v v' → running [] F (cfg_persistence_mode config) v') →
  wpx (main [path] file array) (n, v) (λ code '(n', v'), ∃ w1 v1 h, v' = put_server (with_heap h (nd_server v1)) v1 ∧ PoolSteps.idle h ∧
    disk w1 = disk w ∧ run_ended others config [] F ms f n w1 code n' v1) (λ _, True).
Proof.
  intros Hload Hb w F Hidle Hok Hrel Hrep Haof Hf Hothers. unfold main. rewrite Hload. cbn [Z.ltb Z.compare]. eapply wpx_eq; [done|]. cbv beta.
  eapply (step_net_heap _ _ _ (λ r s, r = 0 ∧ s = Allocator true b no_pools None ∅ (system (heap (nd_server v))))).
  { cbn [snd]. rewrite Hb. change (heap_of v) with (heap (nd_server v)). unfold wp.
    rewrite (allocator_init_spec (heap (nd_server v)) (backend_code b) Hidle) by (destruct b; cbn; lia). split; [done|]. by destruct b. }
  intros r h [-> ->]. cbn [Z.eqb negb fst snd]. set (s0 := Allocator true b no_pools None ∅ _). set (v0 := set_heap s0 v).
  destruct (init_owns (heap (nd_server v)) Hidle Hok Hrel) as [Ho _]. fold s0 in Ho. fold F in Ho.
  eapply wpx_stepx; [apply (run_spec others array config [] F ms f n v0); [exact Hrep|exact Haof|exact Ho|exact Hf|exact Hothers]|].
  intros code [n1 v1] Hrun. pose proof Hrun as [((Hinv & Hbk & Hsys & Hr & Hempty) & _ & Hlive & _) _].
  rewrite list_to_set_nil, (left_id_L ∅ (∪)) in Hlive.
  assert (live_blocks (regions (heap (nd_server v1))) = ∅) as Hnone.
  { cbn in Hlive. unfold F, beside in Hlive. destruct (backend_cases b) as [[Hp Eb]|[Hp Eb]]; [by rewrite Hp in Hlive|by rewrite Hempty]. }
  eapply (step_net_heap _ _ _ (λ r s, r = 0 ∧ PoolSteps.idle s)).
  { eapply wp_mono; [by apply allocator_destroy_spec|]. intros r s (-> & Hi & _). done. }
  intros r h [-> Hi]. cbn [Z.eqb negb fst snd]. apply wpx_ret. exists (configure config (nd_server v0)), v1, h. split; [done|]. split; [done|]. split; [done|]. exact Hrun.
Qed.

(** C1: a process with a wrong configuration ends with a failure and does nothing.
    Otherwise the allocator is initialised as configured and the server recovers the data
    set that its files hold; when the network service starts, the server holds exactly
    that data set, its log is open at the end, its replication manager is in the state of
    its role, and the scheduler runs with the handlers of that role, the sockets listening
    at the configured address; or the process gives up with a failure, which a server of
    its own does not when nothing is wrong.  Either way, when it ends the engines' memory
    is released, the sockets are gone, the log is closed if it served, and the destruction
    of the allocator succeeds because no block is left. *)
Theorem main_exact path file array n v :
  (∀ r config msg, kvs_config_load (Some path) file (Some config_zero) (Some 256) = (r, config, msg) → r < 0 →
     main [path] file array (n, v) = Ok EXIT_FAILURE (n, v)) ∧
  (∀ config msg ms f, let w := configure config (nd_server v) in let F := beside (heap (nd_server v)) in
     kvs_config_load (Some path) file (Some config_zero) (Some 256) = (0, Some config, msg) → cfg_allocator_backend config = b →
     PoolSteps.idle (heap (nd_server v)) → rt_ok (system (heap (nd_server v))) → vm_reliable (system (heap (nd_server v))) →
     nd_rep v = replication_manager_zero → p_aof (sv_io w) = aof_writer_closed → recoverable w ms f →
     (∀ v v', running [] F (cfg_persistence_mode config) v → others v v' → running [] F (cfg_persistence_mode config) v') →
     wpx (main [path] file array) (n, v) (λ code '(n', v'), ∃ w1 v1 h, v' = put_server (with_heap h (nd_server v1)) v1 ∧ PoolSteps.idle h ∧
       disk w1 = disk w ∧ run_ended others config [] F ms f n w1 code n' v1) (λ _, True)).
Proof.
  split.
  - intros r config msg Hload Hr. unfold main. rewrite Hload. by rewrite (proj2 (Z.ltb_lt r 0)).
  - intros config msg ms f w F Hload Hb Hidle Hok Hrel Hrep Haof Hf Hothers. by apply (main_spec path file array config msg).
Qed.
End process.

(** A process on the pool, with no files yet. *)
Definition demo_config : kvs_config_t :=
  KvsConfig KVS_ROLE_STANDALONE (lit "127.0.0.1") 9000 0 0 [] 0 KVS_LOG_INFO KVS_PERSISTENCE_AOF KVS_ALLOCATOR_POOL.

#[local] Instance pool_process : CRuntime (allocator vm_heap) := allocator_runtime KVS_ALLOCATOR_POOL.
Definition process_node : node (allocator vm_heap) mem_os demo_engines script :=
  Node (Server (PWorld (allocator_zero vm_start) (MemOs ∅ ∅ ∅ false) aof_writer_closed) (KvEngines eng_zero eng_zero eng_zero eng_zero)
    KVS_ROLE_STANDALONE KVS_PERSISTENCE_LEGACY_HYBRID offline) replication_manager_zero (Script [] [] [] [] true).
#[local] Instance process_net : Net (mem_service (node (allocator vm_heap) mem_os demo_engines script)) _ := mem_service_net [] _.
#[local] Instance process_service : Service (mem_service (node (allocator vm_heap) mem_os demo_engines script)) _ := mem_service_service _.
#[local] Instance process_service_laws : ServiceLaws (mem_service (node (allocator vm_heap) mem_os demo_engines script)) _ eq := mem_service_laws [] _.
Definition process_start : mem_service (node (allocator vm_heap) mem_os demo_engines script) :=
  MemService (MemNet [] [] [] 0) ∅ (λ _, None) (λ _, false) [].

Lemma main_exact_witness :
  wpx (main KVS_ALLOCATOR_POOL [lit "kv.conf"] (Stream (print_config demo_config) None None) 0) (process_start, process_node)
    (λ code '(n', v'), ∃ w1 v1 h, v' = put_server (with_heap h (nd_server v1)) v1 ∧ PoolSteps.idle h ∧
       disk w1 = disk (configure demo_config (nd_server process_node)) ∧
       run_ended (H := pool_process) eq demo_config [] (beside KVS_ALLOCATOR_POOL (heap (nd_server process_node))) empty_maps [] process_start w1 code n' v1) (λ _, True).
Proof.
  refine (proj2 (main_exact KVS_ALLOCATOR_POOL eq (lit "kv.conf") (Stream (print_config demo_config) None None) 0 process_start process_node)
    demo_config (Some []) empty_maps [] _ _ _ _ _ _ _ _ _).
  - vm_compute. reflexivity.
  - reflexivity.
  - split; [reflexivity|]. split; [reflexivity|]. split; reflexivity.
  - exact vm_start_ok.
  - done.
  - reflexivity.
  - reflexivity.
  - split; [vm_compute; discriminate|]. split; [right; by split|]. exists []. split; [exists []; split; [constructor|reflexivity]|]. split; [constructor|reflexivity].
  - by intros v v' Hr <-.
Defined.
